(* ===== verification/_CoqProject ===== *)
-Q . S2P
Prelude.v
ScriptNum.v
Tokenizer.v
ScriptBuilder.v
ScriptStack.v
ScriptStd.v
Sha.v
Wire.v
SigHash.v
Curve.v
CurveModel.v
EngineState.v
SigValidate.v
Opcodes.v
Engine.v
EngineSafe.v
EngineTotal.v
EngineProps.v
EngineRun.v
Outputs.v
Spends.v
KeyHash.v
Multisig.v
Der.v
Block.v
Merkle.v
Utxo.v
AnchorStore.v
UtxoCache.v
ChainState.v
Anchor.v
Validate.v
Supply.v
Accept.v
Treap.v
TreapProofs.v
TreapMaps.v
TreapIter.v
FixedPoint.v
TemplateState.v
TemplateParams.v
Settlement.v
SettleProofs.v
Amm.v
AmmProofs.v
AmmOrders.v
LimitOrder.v
LimitProofs.v
Recording.v
RecordProofs.v
