(* ===== verification/Prelude.v ===== *)
(** * SatoshiNet: a verification development

    SatoshiNet is a node of a bitcoin-like network in Go.  Its transactions carry
    assets next to satoshis; assets enter by anchor transactions, which name outputs
    locked on another chain; contract outputs are moved by consensus rules only.
    This library models the parts of the node that decide what is valid, and proves
    what they promise.  Go code is translated by hand, function by function, keeping
    names; each file says which sources it models.

    ** Conventions

    A call returns [result E A]: [Ok], [Err] for a returned error, or [Panic] where Go
    would panic (an index out of range, a nil pointer).  [let!] sequences calls.
    Integers are [Z] with the wrap-around of their width written out ([int64],
    [uint32], ...); byte slices are lists of [Z]; maps are [gmap]s.  State is passed
    explicitly, and shared mutable objects live in a store where sharing matters.
    Loops that are not structural recursions take fuel, and the theorems show that
    the fuel given is enough.  Code outside the repository - the curve arithmetic,
    RIPEMD-160, the asset module and its decimals - is a parameter: a type class of
    operations, with what is documented of them as laws, and a concrete instance
    that satisfies the laws wherever a theorem has a witness.  SHA-256, SHA-1 and
    [bytes.Compare] belong to Go's library and are defined.

    ** Scripts ([txscript])

    - [ScriptNum], [Tokenizer], [ScriptBuilder], [ScriptStack]: the integers of the
      script machine, the reader and the writer of scripts, its stacks.  Encodings
      round-trip and are unique, the tokenizer returns on every input, and the builder
      keeps its limits.
    - [ScriptStd]: output templates, signature-operation counts, script surgery.  The
      counts are exactly what the instructions of a script announce.
    - [Sha], [Wire], [SigHash]: hashes, the transaction codec, and the three digests a
      signature covers.  Transactions round-trip, and digests commit to what they
      claim - the legacy digest for every hash type - with one exception that is proved
      as such.
    - [Curve], [CurveModel]: signature and key encodings over the curve interface, and an
      instance of it.
    - [EngineState], [SigValidate], [Opcodes], [Engine]: the engine, with every opcode
      handler.  [EngineSafe] shows that no handler panics, [EngineTotal] that each step
      keeps an invariant and decreases a measure, so that the fuel [execute_fuel] is
      enough; [EngineProps] draws the conclusions, and [EngineRun] relates execution to the
      list of instructions of each script.
    - [Outputs], [Spends], [KeyHash], [Multisig], [Der]: what execution means for the network's
      outputs - contract and unspendable outputs cannot be spent; taproot key spends,
      key-hash spends and multisignatures succeed exactly for valid signatures; strict
      signatures have one encoding.

    ** Blocks and the chain ([wire], [btcutil], [blockchain])

    - [Block], [Merkle]: the block codec and the wrappers with their caches; both ways
      of computing merkle roots agree, and a root determines its leaves.
    - [Utxo], [UtxoCache], [AnchorStore], [ChainState]: views of unspent outputs, the cache in
      front of the database with flushing and recovery, the record of anchored outputs,
      and the operations that connect, disconnect and reorganise.  The chain state
      refines a ledger (a map of coins per block) over every history of operations;
      undoing a block restores the set, and a flushed set survives a crash.
    - [Anchor]: how an anchor's input is read, with the envelopes and commitments of
      native proofs.  [AnchorEnv] has what the reading asks of other code.
    - [Validate], [Supply], [Accept]: the rules for transactions and blocks.  An accepted block
      spends only unspent, mature outputs, each once; satoshis and every asset grow only
      by what anchors bring.  A block that passes the checks and has no native anchor can
      be connected; one with a native anchor cannot, since the cache reads anchors
      without the argument that activates native assets.

    ** Ordered maps ([database/internal/treap])

    - [Treap]: both treaps over a store of nodes, with the stack of parents and its
      overflow.  [TreapProofs] has the invariants of the loops (trees of the store as
      zippers), [TreapMaps] the refinement to maps for every history - an immutable
      treap's versions never change - and [TreapIter] the iterators: a session of moves
      walks the sorted pairs of the range, also when the treap is updated in between,
      as long as it avoids the two uses that examples show to leave the range or the
      order.  Walks take as fuel the number of nodes of the store.

    ** Contract templates ([contract/template], [contract/framework])

    A template contract records the invocations of its users as items; the settlement
    of a block decides what becomes of them and plans the payments.
    - [FixedPoint]: the decimals the templates count with, as operations with laws, and an
      instance.  At equal places products and quotients are cut off; the laws leave other
      rounding open.
    - [TemplateState], [TemplateParams]: items, running data and plans, and the codecs of the
      parameters, which round-trip and never panic.
    - [Settlement], [SettleProofs]: what the settlements share - refunds, the close by the
      deployer, the totals - and their accounts: the claims of the open items and the
      payments of the plan together do not grow.
    - [Amm], [AmmProofs], [AmmOrders]: the automated market maker.  It never pays more than it
      holds, swaps never lower the product of the pool, and every open order is dealt
      within its limit, refunded or closed.
    - [LimitOrder], [LimitProofs]: the book of limit orders.  The matching loop ends within
      two turns for each open order, which is its fuel; payments stay within what the
      orders offer, and every deal keeps the limits of both sides.
    - [Recording], [RecordProofs]: how [ApplyInvoke] checks an invocation and records it.
      The item is well formed and claims no more than its funding brought; so over any
      history of invocations and settlements the book of limit orders never pays more
      than it was given.

    The accounts assume states whose amounts are non-negative and at the precision of
    the templates ([wf_item], [wf_state]), which recordings establish and every
    settlement that succeeds restores, and for the market maker that no request to
    remove liquidity is open beside one to refund or to close ([backed], [quiet]); an
    example shows what happens otherwise.

    ** What is not modelled

    Networking, RPC, wallets, mining, the mempool and indexes are not part of the model;
    of the contract engines only the two templates above are, without default
    invocations, fundings of the pool and rejected invocations; the exchange, autopay
    and agent contracts, the virtual machine, the encoding of the saved state and the
    transactions built from plans are not.  Neither are the block index, checkpoints and
    difficulty, which select the chain, the files under the database, and signing.
    Rules that depend on contract state and script checks during connection are
    parameters of [Validate], which can only refuse: the theorems hold for all of
    them.  The same is true of the invoice of an anchor and the history of a native
    asset, which are checked against the other chain.  Locks, logging and notifications are left out, and concurrency
    with them: each operation runs to its end under the lock the code holds. *)

From Stdlib Require Import ZArith Lia.
From stdpp Require Import base list numbers option strings.

#[global] Open Scope Z_scope.

(** ** Outcomes of Go code

    A Go function returning [(A, error)] is a function into [result E A]:
    [Ok a] is a normal return with a nil error, [Err e] a return with a
    non-nil error, and [Panic] a run-time panic (an index out of range, a nil
    dereference). *)

Inductive result (E A : Type) : Type :=
| Ok (a : A)
| Err (e : E)
| Panic.
Arguments Ok {E A} a.
Arguments Err {E A} e.
Arguments Panic {E A}.

Declare Scope go_scope.
Delimit Scope go_scope with go.
#[global] Open Scope go_scope.

Definition rbind {E A B : Type} (c : result E A) (k : A -> result E B) : result E B :=
  match c with
  | Ok a => k a
  | Err e => Err e
  | Panic => Panic
  end.

Notation "'let!' x ':=' c 'in' k" := (rbind c (fun x => k))
  (at level 10, x name, c at level 100, k at level 200) : go_scope.
Notation "'let!' ' p ':=' c 'in' k" := (rbind c (fun p => k))
  (at level 10, p strict pattern, c at level 100, k at level 200) : go_scope.

(** An index expression [l[i]] or a slice that may be out of range. *)
Definition unwrap {E A : Type} (o : option A) : result E A :=
  match o with
  | Some a => Ok a
  | None => Panic
  end.

(** [x != nil]. *)
Definition non_nil {A : Type} (o : option A) : bool :=
  match o with
  | Some _ => true
  | None => false
  end.

(** A [range] loop that carries a state. *)
Fixpoint rfold {E A S : Type} (f : S -> A -> result E S) (s : S) (l : list A) : result E S :=
  match l with
  | [] => Ok s
  | a :: r => let! s := f s a in rfold f s r
  end.

Definition is_ok {E A : Type} (r : result E A) : bool :=
  match r with
  | Ok _ => true
  | _ => false
  end.

Definition no_panic {E A : Type} (r : result E A) : Prop := r <> Panic.

(** ** Machine integers *)

Definition wrap_u (w x : Z) : Z := x mod 2 ^ w.
Definition wrap_s (w x : Z) : Z := (x + 2 ^ (w - 1)) mod 2 ^ w - 2 ^ (w - 1).

Definition uint8 (x : Z) : Z := wrap_u 8 x.
Definition uint16 (x : Z) : Z := wrap_u 16 x.
Definition uint32 (x : Z) : Z := wrap_u 32 x.
Definition uint64 (x : Z) : Z := wrap_u 64 x.
Definition int32 (x : Z) : Z := wrap_s 32 x.
Definition int64 (x : Z) : Z := wrap_s 64 x.

Definition is_int64 (x : Z) : Prop := - 2 ^ 63 <= x < 2 ^ 63.
Definition is_int32 (x : Z) : Prop := - 2 ^ 31 <= x < 2 ^ 31.
Definition is_uint64 (x : Z) : Prop := 0 <= x < 2 ^ 64.
Definition is_uint32 (x : Z) : Prop := 0 <= x < 2 ^ 32.

(** ** Bytes *)

Abbreviation bytes := (list Z).

Definition is_byte (b : Z) : Prop := 0 <= b < 256.
Abbreviation bytes_ok l := (Forall is_byte l).

(** Go's [len]. *)
Definition len {A : Type} (l : list A) : Z := Z.of_nat (length l).

(** [l[len(l)-1]]. *)
Abbreviation last_of := (list.last).

(** [l[lo:hi]]. *)
Definition subslice {E A : Type} (l : list A) (lo hi : Z) : result E (list A) :=
  if (0 <=? lo) && (lo <=? hi) && (hi <=? len l)
  then Ok (take (Z.to_nat (hi - lo)) (drop (Z.to_nat lo) l))
  else Panic.

(** [bytes.Compare]. *)
Fixpoint Compare (a b : bytes) : Z :=
  match a, b with
  | [], [] => 0
  | [], _ :: _ => -1
  | _ :: _, [] => 1
  | x :: a, y :: b => if x <? y then -1 else if y <? x then 1 else Compare a b
  end.

(** [i < len(l) && l[i] == b]. *)
Definition at_is (l : bytes) (i : nat) (b : Z) : bool := bool_decide (l !! i = Some b).

(** [binary.LittleEndian]: the value of a little-endian byte string and the
    [n] low bytes of a value. *)
Fixpoint le_decode (l : bytes) : Z :=
  match l with
  | [] => 0
  | b :: r => b + 256 * le_decode r
  end.

Fixpoint le_encode (n : nat) (x : Z) : bytes :=
  match n with
  | O => []
  | S m => x mod 256 :: le_encode m (x / 256)
  end.

(** The bytes of a Go string literal. *)
Fixpoint str (s : string) : bytes :=
  match s with
  | EmptyString => []
  | String c r => Z.of_N (Ascii.N_of_ascii c) :: str r
  end.
Arguments str s%_string.

(** The digits of [chainhash.Hash.String]: hexadecimal, in lower case. *)
Definition hex_digit (d : Z) : Z := if d <? 10 then 48 + d else 87 + d.
Definition hex_encode (b : bytes) : bytes := concat (map (fun x => [hex_digit (x / 16); hex_digit (x mod 16)]) b).

(** [bytes.Equal] and [==] on strings. *)
Definition bytes_eqb (a b : bytes) : bool := bool_decide (a = b).

(** ** Tactics *)

Lemma rbind_ok_inv {E A B} (c : result E A) (k : A -> result E B) b :
  rbind c k = Ok b -> exists a, c = Ok a /\ k a = Ok b.
Proof. destruct c; simpl; naive_solver. Qed.

Lemma rbind_ok {E A B} (c : result E A) (k : A -> result E B) a :
  c = Ok a -> rbind c k = k a.
Proof. intros ->. done. Qed.

Lemma rbind_no_panic {E A B} (c : result E A) (k : A -> result E B) :
  no_panic c -> (forall a, c = Ok a -> no_panic (k a)) -> no_panic (rbind c k).
Proof. unfold no_panic. destruct c; simpl; auto; congruence. Qed.

(** [wp r Q]: [r] does not panic, and [Q] holds of what it returns. *)
Definition wp {E A : Type} (r : result E A) (Q : A -> Prop) : Prop :=
  match r with
  | Ok a => Q a
  | Err _ => True
  | Panic => False
  end.

Lemma wp_ok {E A} (a : A) (Q : A -> Prop) : Q a -> wp (E := E) (Ok a) Q.
Proof. done. Qed.

Lemma wp_bind {E A B} (c : result E A) (k : A -> result E B) (P : A -> Prop) (Q : B -> Prop) :
  wp c P -> (forall a, P a -> wp (k a) Q) -> wp (rbind c k) Q.
Proof. destruct c; simpl; auto. Qed.

Lemma wp_mono {E A} (r : result E A) (P Q : A -> Prop) :
  wp r P -> (forall a, P a -> Q a) -> wp r Q.
Proof. destruct r; simpl; auto. Qed.

Lemma wp_no_panic {E A} (r : result E A) (Q : A -> Prop) : wp r Q -> no_panic r.
Proof. unfold no_panic. by destruct r. Qed.

Lemma wp_inv {E A} (r : result E A) (Q : A -> Prop) a : wp r Q -> r = Ok a -> Q a.
Proof. intros H ->. done. Qed.

Lemma wp_intro {E A} (r : result E A) (Q : A -> Prop) :
  no_panic r -> (forall a, r = Ok a -> Q a) -> wp r Q.
Proof. unfold no_panic. destruct r; simpl; auto. Qed.

(** A loop keeps an invariant of what is left to visit and of its state. *)
Lemma wp_rfold {E A S} (f : S -> A -> result E S) (I : list A -> S -> Prop) (Q : S -> Prop) l s :
  I l s -> (forall a r s, I (a :: r) s -> wp (f s a) (I r)) -> (forall s, I [] s -> Q s) -> wp (rfold f s l) Q.
Proof.
  intros Hi Hf Hq. revert s Hi. induction l as [|a l IH]; intros s Hi; simpl; [auto|].
  eapply wp_bind; [by apply Hf|]. auto.
Qed.

(** Split a successful sequence of binds into its steps. *)
Ltac inv_bind H :=
  lazymatch type of H with
  | rbind _ _ = Ok _ =>
      let a := fresh "a" in let Ha := fresh "Hr" in
      apply rbind_ok_inv in H as (a & Ha & H); cbv beta in H
  end.

(** Turn the boolean tests in the context and in the goal into
    propositions that [lia] understands. *)
Ltac bool_to_prop :=
  repeat match goal with
  | H : context [_ >? _] |- _ => rewrite Z.gtb_ltb in H
  | H : negb _ = true |- _ => apply negb_true_iff in H
  | H : negb _ = false |- _ => apply negb_false_iff in H
  | H : (_ && _)%bool = true |- _ => apply andb_true_iff in H as [? ?]
  | H : (_ && _)%bool = false |- _ => apply andb_false_iff in H
  | H : (_ || _)%bool = false |- _ => apply orb_false_iff in H as [? ?]
  | H : (_ || _)%bool = true |- _ => apply orb_true_iff in H
  | H : (_ =? _) = true |- _ => apply Z.eqb_eq in H
  | H : (_ =? _) = false |- _ => apply Z.eqb_neq in H
  | H : (_ <? _) = true |- _ => apply Z.ltb_lt in H
  | H : (_ <? _) = false |- _ => apply Z.ltb_ge in H
  | H : (_ <=? _) = true |- _ => apply Z.leb_le in H
  | H : (_ <=? _) = false |- _ => apply Z.leb_gt in H
  end.

(** Case analysis on the conditional at the head of the goal. *)
Ltac case_if :=
  match goal with
  | |- context [if ?b then _ else _] => destruct b eqn:?
  end; bool_to_prop.

(** Decide an integer test in the goal by arithmetic. *)
Ltac z_test :=
  repeat match goal with
  | |- context [_ >? _] => rewrite Z.gtb_ltb
  | |- context [?x =? ?y] =>
      first [ replace (x =? y) with true by (symmetry; apply Z.eqb_eq; lia)
            | replace (x =? y) with false by (symmetry; apply Z.eqb_neq; lia) ]
  | |- context [?x <? ?y] =>
      first [ replace (x <? y) with true by (symmetry; apply Z.ltb_lt; lia)
            | replace (x <? y) with false by (symmetry; apply Z.ltb_ge; lia) ]
  | |- context [?x <=? ?y] =>
      first [ replace (x <=? y) with true by (symmetry; apply Z.leb_le; lia)
            | replace (x <=? y) with false by (symmetry; apply Z.leb_gt; lia) ]
  end; simpl.

(** ** Lemmas on machine integers *)

Lemma wrap_u_id w x : 0 <= w -> 0 <= x < 2 ^ w -> wrap_u w x = x.
Proof. intros. apply Z.mod_small. lia. Qed.

Lemma wrap_s_id w x : 0 < w -> - 2 ^ (w - 1) <= x < 2 ^ (w - 1) -> wrap_s w x = x.
Proof.
  intros Hw Hx. unfold wrap_s.
  assert (2 ^ w = 2 * 2 ^ (w - 1)) by (rewrite <- Z.pow_succ_r by lia; f_equal; lia).
  rewrite Z.mod_small; lia.
Qed.

Lemma wrap_s_range w x : 0 < w -> - 2 ^ (w - 1) <= wrap_s w x < 2 ^ (w - 1).
Proof.
  intros Hw. unfold wrap_s.
  assert (2 ^ w = 2 * 2 ^ (w - 1)) by (rewrite <- Z.pow_succ_r by lia; f_equal; lia).
  assert (0 < 2 ^ (w - 1)) by (apply Z.pow_pos_nonneg; lia).
  pose proof (Z.mod_pos_bound (x + 2 ^ (w - 1)) (2 ^ w)). lia.
Qed.

Lemma int64_id x : is_int64 x -> int64 x = x.
Proof. intros. apply wrap_s_id; unfold is_int64 in *; lia. Qed.
Lemma int32_id x : is_int32 x -> int32 x = x.
Proof. intros. apply wrap_s_id; unfold is_int32 in *; lia. Qed.
Lemma uint8_id x : is_byte x -> uint8 x = x.
Proof. intros. apply wrap_u_id; unfold is_byte in *; lia. Qed.
Lemma uint32_id x : is_uint32 x -> uint32 x = x.
Proof. intros. apply wrap_u_id; unfold is_uint32 in *; lia. Qed.
Lemma uint64_id x : is_uint64 x -> uint64 x = x.
Proof. intros. apply wrap_u_id; unfold is_uint64 in *; lia. Qed.

Lemma int64_range x : is_int64 (int64 x).
Proof. apply (wrap_s_range 64). lia. Qed.
Lemma int32_range x : is_int32 (int32 x).
Proof. apply (wrap_s_range 32). lia. Qed.
Lemma uint8_range x : is_byte (uint8 x).
Proof. apply Z.mod_pos_bound. lia. Qed.

(** Bits written above [n] low bits add up. *)
Lemma lor_shift_add a b n : 0 <= n -> 0 <= a < 2 ^ n -> Z.lor a (b * 2 ^ n) = a + b * 2 ^ n.
Proof.
  intros Hn Ha.
  assert (Hd : Z.land a (b * 2 ^ n) = 0).
  { apply Z.bits_inj'. intros i Hi. rewrite Z.land_spec, Z.bits_0.
    destruct (Z.lt_ge_cases i n).
    - rewrite Z.mul_pow2_bits_low by lia. apply andb_false_r.
    - rewrite <- (Z.mod_small a (2 ^ n)), Z.mod_pow2_bits_high by lia. done. }
  rewrite <- (Z.lxor_lor _ _ Hd). symmetry. apply Z.add_nocarry_lxor. done.
Qed.

(** Clearing a bit that is set subtracts its weight. *)
Lemma land_lnot_pow2 a n : 0 <= n -> Z.testbit a n = true -> Z.land a (Z.lnot (2 ^ n)) = a - 2 ^ n.
Proof.
  intros Hn Hb. rewrite <- Z.ldiff_land. symmetry. apply Z.sub_nocarry_ldiff.
  apply Z.bits_inj'. intros i Hi. rewrite Z.ldiff_spec, Z.bits_0.
  destruct (Z.eq_dec i n) as [->|Hne].
  - rewrite Hb. apply andb_false_r.
  - rewrite Z.pow2_bits_false by lia. done.
Qed.

(** The high bit of a byte, as the code tests it. *)
Lemma land_80 b : is_byte b -> (Z.land b 0x80 =? 0) = (b <? 128).
Proof.
  unfold is_byte. intros Hb.
  assert (H : forallb (fun n => Bool.eqb (Z.land (Z.of_nat n) 0x80 =? 0) (Z.of_nat n <? 128))
            (seq 0 256) = true) by (vm_compute; done).
  rewrite forallb_forall in H.
  specialize (H (Z.to_nat b)). rewrite Z2Nat.id in H by lia.
  apply Bool.eqb_prop, H, in_seq. lia.
Qed.

Lemma land_7f b : is_byte b -> Z.land b 0x7f = b mod 128.
Proof. intros _. apply (Z.land_ones b 7). lia. Qed.

Lemma lor_80 b : 0 <= b < 128 -> Z.lor b 0x80 = b + 128.
Proof. intros Hb. apply (lor_shift_add b 1 7); lia. Qed.

(** ** Lemmas on byte strings *)

Lemma len_nil {A} : len (@nil A) = 0.
Proof. done. Qed.
Lemma len_cons {A} (x : A) l : len (x :: l) = 1 + len l.
Proof. unfold len. simpl. lia. Qed.
Lemma len_app {A} (l k : list A) : len (l ++ k) = len l + len k.
Proof. unfold len. rewrite length_app. lia. Qed.
Lemma len_nonneg {A} (l : list A) : 0 <= len l.
Proof. unfold len. lia. Qed.
Lemma len_0 {A} (l : list A) : len l = 0 <-> l = [].
Proof. unfold len. destruct l; simpl; split; intros; simplify_eq; lia || done. Qed.

Lemma le_encode_length n x : length (le_encode n x) = n.
Proof. revert x. induction n as [|n IH]; intros; simpl; [done|]. f_equal. apply IH. Qed.

Lemma le_encode_ok n x : bytes_ok (le_encode n x).
Proof.
  revert x. induction n; intros; simpl; constructor; [|done].
  apply Z.mod_pos_bound. lia.
Qed.

Lemma le_decode_bound l : bytes_ok l -> 0 <= le_decode l < 256 ^ len l.
Proof.
  induction 1 as [|b l Hb Hl IH]; [by vm_compute|]. simpl.
  rewrite len_cons, Z.pow_add_r by (pose proof (len_nonneg l); lia).
  unfold is_byte in Hb. lia.
Qed.

Lemma le_decode_encode n x : 0 <= x < 256 ^ Z.of_nat n -> le_decode (le_encode n x) = x.
Proof.
  revert x. induction n as [|n IH]; intros x Hx; simpl in *; [lia|].
  rewrite IH.
  - pose proof (Z.div_mod x 256). lia.
  - rewrite Nat2Z.inj_succ, Z.pow_succ_r in Hx by lia.
    split; [apply Z.div_pos; lia|]. apply Z.div_lt_upper_bound; lia.
Qed.

Lemma le_encode_decode l : bytes_ok l -> le_encode (length l) (le_decode l) = l.
Proof.
  induction 1 as [|b l Hb Hl IH]; simpl; [done|]. unfold is_byte in Hb.
  rewrite (Z.mul_comm 256), Z.mod_add, Z.mod_small, Z.div_add, Z.div_small, Z.add_0_l by lia.
  by rewrite IH.
Qed.

Lemma le_decode_app l k : le_decode (l ++ k) = le_decode l + 256 ^ len l * le_decode k.
Proof.
  induction l as [|b l IH]; [change (256 ^ len []) with 1; simpl; lia|].
  rewrite <- app_comm_cons. simpl. rewrite IH, len_cons, Z.pow_add_r by (pose proof (len_nonneg l); lia).
  lia.
Qed.

Lemma le_decode_zeros n : le_decode (replicate n 0) = 0.
Proof. induction n as [|n IH]; [done|]. cbn [replicate le_decode]. rewrite IH. lia. Qed.

Lemma bytes_ok_app l k : bytes_ok (l ++ k) <-> bytes_ok l /\ bytes_ok k.
Proof. apply Forall_app. Qed.

Lemma bytes_ok_snoc l b : bytes_ok (l ++ [b]) <-> bytes_ok l /\ is_byte b.
Proof. rewrite Forall_app, Forall_singleton. done. Qed.

Lemma str_ok s : bytes_ok (str s).
Proof.
  induction s as [|c s IH]; simpl; constructor; [|done].
  unfold is_byte. pose proof (Ascii.N_ascii_bounded c). lia.
Qed.

Lemma bytes_eqb_eq a b : bytes_eqb a b = true <-> a = b.
Proof. apply bool_decide_eq_true. Qed.
Lemma bytes_eqb_refl a : bytes_eqb a a = true.
Proof. by apply bytes_eqb_eq. Qed.

(** Arithmetic over the lengths of concatenations. *)
Ltac len_lia :=
  unfold len in *; repeat first [progress simpl length in * | progress rewrite length_app in *]; lia.

Create HintDb bytes.
Create Rewrite HintDb bytes.
#[export] Hint Resolve le_encode_ok str_ok uint8_range int64_range int32_range : bytes.
#[export] Hint Rewrite @len_nil @len_cons @len_app le_encode_length : bytes.
