(* ===== verification/ScriptNum.v ===== *)
(** * Script numbers ([txscript/scriptnum.go])

    The little-endian, sign-magnitude integers of the script machine:
    [scriptNum_Bytes] writes an [int64], [MakeScriptNum] reads one back under a
    length limit and, on request, the minimal-encoding rule.  The error codes
    are those of [txscript/error.go]. *)

From Stdlib Require Import ZArith Lia.
From stdpp Require Import base list numbers option.
From S2P Require Import Prelude.

(** [ErrorCode]: the script error codes the modelled code returns. *)
Inductive ErrorCode : Type :=
| ErrInternal
| ErrInvalidFlags
| ErrInvalidIndex
| ErrUnsupportedAddress
| ErrNotMultisigScript
| ErrTooManyRequiredSigs
| ErrTooMuchNullData
| ErrUnsupportedScriptVersion
| ErrEarlyReturn
| ErrEmptyStack
| ErrEvalFalse
| ErrScriptUnfinished
| ErrInvalidProgramCounter
| ErrScriptTooBig
| ErrElementTooBig
| ErrTooManyOperations
| ErrStackOverflow
| ErrInvalidPubKeyCount
| ErrInvalidSignatureCount
| ErrNumberTooBig
| ErrVerify
| ErrEqualVerify
| ErrNumEqualVerify
| ErrCheckSigVerify
| ErrCheckMultiSigVerify
| ErrDisabledOpcode
| ErrReservedOpcode
| ErrMalformedPush
| ErrInvalidStackOperation
| ErrUnbalancedConditional
| ErrMinimalData
| ErrInvalidSigHashType
| ErrSigTooShort
| ErrSigTooLong
| ErrSigInvalidSeqID
| ErrSigInvalidDataLen
| ErrSigMissingSTypeID
| ErrSigMissingSLen
| ErrSigInvalidSLen
| ErrSigInvalidRIntID
| ErrSigZeroRLen
| ErrSigNegativeR
| ErrSigTooMuchRPadding
| ErrSigInvalidSIntID
| ErrSigZeroSLen
| ErrSigNegativeS
| ErrSigTooMuchSPadding
| ErrSigHighS
| ErrNotPushOnly
| ErrSigNullDummy
| ErrPubKeyType
| ErrCleanStack
| ErrNullFail
| ErrWitnessMalleated
| ErrWitnessMalleatedP2SH
| ErrDiscourageUpgradableNOPs
| ErrNegativeLockTime
| ErrUnsatisfiedLockTime
| ErrMinimalIf
| ErrDiscourageUpgradableWitnessProgram
| ErrWitnessProgramEmpty
| ErrWitnessProgramMismatch
| ErrWitnessProgramWrongLength
| ErrWitnessUnexpected
| ErrWitnessPubKeyType
| ErrDiscourageOpSuccess
| ErrDiscourageUpgradeableTaprootVersion
| ErrTapscriptCheckMultisig
| ErrDiscourageUpgradeablePubKeyType
| ErrTaprootSigInvalid
| ErrTaprootMerkleProofInvalid
| ErrTaprootOutputKeyParityMismatch
| ErrControlBlockTooSmall
| ErrControlBlockTooLarge
| ErrControlBlockInvalidLength
| ErrWitnessHasNoAnnex
| ErrInvalidTaprootSigLen
| ErrTaprootPubkeyIsEmpty
| ErrTaprootMaxSigOps
| ErrNonConstScriptCode
| ErrCodeSeparator
| ErrOther (** an [error] that is not a script [Error] *).

#[export] Instance ErrorCode_eq_dec : EqDecision ErrorCode.
Proof. solve_decision. Defined.

Abbreviation outcome := (result ErrorCode).

Definition maxInt32 : Z := 2 ^ 31 - 1.
Definition minInt32 : Z := - 2 ^ 31.
Definition maxScriptNumLen : Z := 4.
Definition cltvMaxScriptNumLen : Z := 5.

Definition checkMinimalDataEncoding (v : bytes) : outcome unit :=
  match last_of v with
  | None => Ok tt
  | Some hi =>
      if Z.land hi 0x7f =? 0 then
        if len v =? 1 then Err ErrMinimalData
        else
          let! second := unwrap (v !! (length v - 2)%nat) in
          if Z.land second 0x80 =? 0 then Err ErrMinimalData else Ok tt
      else Ok tt
  end.

(** The loop [for n > 0 { result = append(result, byte(n&0xff)); n >>= 8 }].
    An [int64] takes at most eight turns. *)
Fixpoint scriptNum_loop (fuel : nat) (n : Z) : bytes :=
  match fuel with
  | O => []
  | S f => if 0 <? n then uint8 (Z.land n 0xff) :: scriptNum_loop f (Z.shiftr n 8) else []
  end.

(** [scriptNum.Bytes]; [Panic] is the index [result[len(result)-1]] on an empty
    slice. *)
Definition scriptNum_Bytes (n : Z) : outcome bytes :=
  if n =? 0 then Ok []
  else
    let isNegative := n <? 0 in
    let n := if isNegative then int64 (- n) else n in
    let result := scriptNum_loop 8 n in
    match last_of result with
    | None => Panic
    | Some hi =>
        if negb (Z.land hi 0x80 =? 0) then
          Ok (result ++ [if isNegative then 0x80 else 0x00])
        else if isNegative then
          Ok (<[(length result - 1)%nat := Z.lor hi 0x80]> result)
        else Ok result
    end.

Definition scriptNum_Int32 (n : Z) : Z :=
  if maxInt32 <? n then maxInt32
  else if n <? minInt32 then minInt32
  else int32 n.

(** The loop [for i, val := range v { result |= int64(val) << uint8(8*i) }]. *)
Fixpoint makeScriptNum_loop (i : Z) (v : bytes) (result : Z) : Z :=
  match v with
  | [] => result
  | val :: r =>
      makeScriptNum_loop (i + 1) r (Z.lor result (int64 (Z.shiftl val (uint8 (8 * i)))))
  end.

Definition MakeScriptNum (v : bytes) (requireMinimal : bool) (scriptNumLen : Z) : outcome Z :=
  if scriptNumLen <? len v then Err ErrNumberTooBig
  else
    let! _ := if requireMinimal then checkMinimalDataEncoding v else Ok tt in
    match last_of v with
    | None => Ok 0
    | Some hi =>
        let result := makeScriptNum_loop 0 v 0 in
        if negb (Z.land hi 0x80 =? 0) then
          let result := Z.land result (Z.lnot (int64 (Z.shiftl 0x80 (uint8 (8 * (len v - 1)))))) in
          Ok (int64 (- result))
        else Ok result
    end.

Example scriptNum_Bytes_32768 : scriptNum_Bytes (-32768) = Ok [0x00; 0x80; 0x80].
Proof. reflexivity. Qed.

Example MakeScriptNum_8_bytes :
  MakeScriptNum [0xff; 0xff; 0xff; 0xff; 0xff; 0xff; 0xff; 0xff] true 8 = Ok (- (2 ^ 63 - 1)).
Proof. reflexivity. Qed.

(** ** The encoding loop *)

Lemma scriptNum_loop_spec f n :
  0 <= n < 256 ^ Z.of_nat f ->
  bytes_ok (scriptNum_loop f n) /\ le_decode (scriptNum_loop f n) = n
  /\ (0 < n -> exists hi, last_of (scriptNum_loop f n) = Some hi /\ 0 < hi).
Proof.
  revert n. induction f as [|f IH]; intros n Hn; simpl scriptNum_loop.
  { simpl in *. split_and!; [constructor|simpl; lia|lia]. }
  destruct (Z.ltb_spec 0 n) as [Hpos|Hz].
  2: { split_and!; [constructor|simpl; lia|lia]. }
  rewrite Nat2Z.inj_succ, Z.pow_succ_r in Hn by lia.
  change (Z.land n 0xff) with (Z.land n (Z.ones 8)).
  rewrite Z.land_ones, Z.shiftr_div_pow2, uint8_id by first [lia | apply Z.mod_pos_bound; lia].
  change (2 ^ 8) with 256 in *.
  assert (Hq : 0 <= n / 256 < 256 ^ Z.of_nat f).
  { split; [apply Z.div_pos; lia|apply Z.div_lt_upper_bound; lia]. }
  pose proof (Z.div_mod n 256 ltac:(lia)) as Hdm.
  pose proof (Z.mod_pos_bound n 256 ltac:(lia)) as Hm.
  destruct (IH _ Hq) as (Hok & Hval & Hlast).
  split_and!; [by constructor|simpl; lia|].
  intros _. destruct (Z.eq_dec (n / 256) 0) as [Hz|Hnz].
  - rewrite Hz. destruct f; simpl; exists (n mod 256); split; done || lia.
  - destruct Hlast as (hi & Hhi & Hpos'); [lia|].
    exists hi. split; [|done].
    destruct (scriptNum_loop f (n / 256)) as [|x l]; [done|].
    by rewrite list.last_cons_cons.
Qed.

(** ** Sign-magnitude byte strings

    [v ++ [hi]] stands for the number with magnitude
    [le_decode v + 256 ^ len v * (hi mod 128)] and the sign in the top bit of
    [hi]; it is minimal when no shorter string has the same value. *)

Definition sm_mag (v : bytes) (hi : Z) : Z := le_decode v + 256 ^ len v * (hi mod 128).

Definition sm_value (v : bytes) (hi : Z) : Z :=
  if hi <? 128 then sm_mag v hi else - sm_mag v hi.

Definition sm_minimal (v : bytes) (hi : Z) : Prop :=
  hi mod 128 <> 0 \/ exists i s, v = i ++ [s] /\ 128 <= s.

Lemma pow256_pos {A} (l : list A) : 0 < 256 ^ len l.
Proof. apply Z.pow_pos_nonneg; [lia|apply len_nonneg]. Qed.

Lemma le_decode_snoc v hi : le_decode (v ++ [hi]) = le_decode v + 256 ^ len v * hi.
Proof. rewrite le_decode_app. simpl. lia. Qed.

Lemma sm_decode v hi :
  is_byte hi -> le_decode (v ++ [hi]) = sm_mag v hi + (if hi <? 128 then 0 else 128 * 256 ^ len v).
Proof.
  intros Hhi. rewrite le_decode_snoc. unfold sm_mag, is_byte in *.
  destruct (Z.ltb_spec hi 128).
  - rewrite (Z.mod_small hi) by lia. lia.
  - replace (hi mod 128) with (hi - 128); [lia|].
    symmetry. rewrite <- (Z.mod_small (hi - 128) 128) by lia.
    rewrite <- (Z.mod_add (hi - 128) 1 128) by lia. f_equal. lia.
Qed.

Lemma sm_mag_bound v hi : bytes_ok v -> 0 <= sm_mag v hi < 128 * 256 ^ len v.
Proof.
  intros Hv. unfold sm_mag. pose proof (le_decode_bound v Hv).
  pose proof (Z.mod_pos_bound hi 128 ltac:(lia)). nia.
Qed.

Lemma sm_minimal_bound v hi :
  bytes_ok v -> sm_minimal v hi ->
  (if len v =? 0 then 1 else 128 * 256 ^ (len v - 1)) <= sm_mag v hi.
Proof.
  intros Hv [Hm|(i & s & -> & Hs)]; unfold sm_mag.
  - pose proof (le_decode_bound v Hv). pose proof (Z.mod_pos_bound hi 128 ltac:(lia)).
    destruct (Z.eqb_spec (len v) 0) as [->|Hne]; [lia|].
    pose proof (len_nonneg v).
    assert (256 ^ len v = 256 * 256 ^ (len v - 1)) by (rewrite <- Z.pow_succ_r by lia; f_equal; lia).
    assert (0 < 256 ^ (len v - 1)) by (apply Z.pow_pos_nonneg; lia). nia.
  - apply bytes_ok_app in Hv as [Hi Hs']. rewrite le_decode_snoc, len_app.
    change (len [s]) with 1. pose proof (len_nonneg i). pose proof (pow256_pos i).
    destruct (Z.eqb_spec (len i + 1) 0); [lia|].
    replace (len i + 1 - 1) with (len i) by lia.
    pose proof (le_decode_bound i Hi). pose proof (Z.mod_pos_bound hi 128 ltac:(lia)).
    assert (0 <= 256 ^ (len i + 1) * (hi mod 128)) by (apply Z.mul_nonneg_nonneg; lia). nia.
Qed.

Lemma sm_minimal_pos v hi : bytes_ok v -> sm_minimal v hi -> 0 < sm_mag v hi.
Proof.
  intros Hv Mv. pose proof (sm_minimal_bound v hi Hv Mv) as L.
  destruct (len v =? 0) eqn:E; bool_to_prop; [lia|].
  assert (0 < 256 ^ (len v - 1)) by (apply Z.pow_pos_nonneg; pose proof (len_nonneg v); lia). lia.
Qed.

(** The magnitude of a minimal string determines its length. *)
Lemma sm_minimal_len v hi w hi' :
  bytes_ok v -> bytes_ok w -> sm_minimal v hi -> sm_minimal w hi' ->
  sm_mag v hi = sm_mag w hi' -> len v <= len w.
Proof.
  intros Hv Hw Mv Mw Heq.
  pose proof (sm_minimal_bound v hi Hv Mv) as Lv. pose proof (sm_mag_bound w hi' Hw) as Bw.
  pose proof (len_nonneg w). destruct (Z.le_gt_cases (len v) (len w)) as [Hl|Hl]; [done|].
  assert (128 * 256 ^ len w <= 128 * 256 ^ (len v - 1)).
  { apply Z.mul_le_mono_nonneg_l; [lia|]. apply Z.pow_le_mono_r; lia. }
  destruct (len v =? 0) eqn:E; bool_to_prop; lia.
Qed.

(** A minimal string is determined by its value. *)
Lemma sm_minimal_inj v hi w hi' :
  bytes_ok (v ++ [hi]) -> bytes_ok (w ++ [hi']) -> sm_minimal v hi -> sm_minimal w hi' ->
  sm_value v hi = sm_value w hi' -> v ++ [hi] = w ++ [hi'].
Proof.
  intros Hv Hw Mv Mw Heq.
  pose proof Hv as [Hv1 Hhi]%bytes_ok_snoc. pose proof Hw as [Hw1 Hhi']%bytes_ok_snoc.
  pose proof (sm_minimal_pos v hi Hv1 Mv) as Pv. pose proof (sm_minimal_pos w hi' Hw1 Mw) as Pw.
  assert (Hmag : sm_mag v hi = sm_mag w hi' /\ (hi <? 128) = (hi' <? 128)).
  { unfold sm_value in Heq. destruct (hi <? 128), (hi' <? 128); split; done || lia. }
  destruct Hmag as [Hmag Hsgn].
  pose proof (sm_minimal_len v hi w hi' Hv1 Hw1 Mv Mw Hmag).
  pose proof (sm_minimal_len w hi' v hi Hw1 Hv1 Mw Mv (eq_sym Hmag)).
  assert (Hlen : len v = len w) by lia.
  pose proof (sm_decode v hi Hhi) as Dv. pose proof (sm_decode w hi' Hhi') as Dw.
  rewrite Hsgn, Hlen, Hmag, <- Dw in Dv.
  rewrite <- (le_encode_decode _ Hv), <- (le_encode_decode _ Hw), Dv.
  f_equal. unfold len in Hlen. rewrite !length_app. simpl. lia.
Qed.

(** ** Reading *)

Lemma makeScriptNum_loop_app i v w r :
  makeScriptNum_loop i (v ++ w) r = makeScriptNum_loop (i + len v) w (makeScriptNum_loop i v r).
Proof.
  revert i r. induction v as [|b v IH]; intros i r; simpl.
  - f_equal. change (len []) with 0. lia.
  - rewrite IH. f_equal. rewrite len_cons. lia.
Qed.

Lemma pow256_pow2 {A} (v : list A) : 256 ^ len v = 2 ^ (8 * len v).
Proof. rewrite Z.pow_mul_r by (pose proof (len_nonneg v); lia). done. Qed.

(** Below eight bytes the loop computes the little-endian value. *)
Lemma makeScriptNum_loop_small v : bytes_ok v -> len v <= 7 -> makeScriptNum_loop 0 v 0 = le_decode v.
Proof.
  induction v as [|b v IH] using rev_ind; intros Hok Hl; [done|].
  apply bytes_ok_snoc in Hok as [Hv Hb]. autorewrite with bytes in Hl.
  pose proof (len_nonneg v) as Hn.
  rewrite makeScriptNum_loop_app, IH, le_decode_snoc by (done || lia).
  cbn [makeScriptNum_loop]. rewrite Z.add_0_l.
  rewrite uint8_id by (unfold is_byte; lia). rewrite Z.shiftl_mul_pow2 by lia.
  pose proof (le_decode_bound v Hv) as Hd. rewrite pow256_pow2 in *. unfold is_byte in Hb.
  assert (2 ^ (8 * len v) <= 2 ^ 48) by (apply Z.pow_le_mono_r; lia).
  rewrite int64_id by (unfold is_int64; nia).
  rewrite lor_shift_add by lia. lia.
Qed.

Lemma makeScriptNum_loop_snoc v hi :
  bytes_ok v -> len v <= 7 ->
  makeScriptNum_loop 0 (v ++ [hi]) 0 = Z.lor (le_decode v) (int64 (hi * 2 ^ (8 * len v))).
Proof.
  intros Hv Hl. pose proof (len_nonneg v).
  rewrite makeScriptNum_loop_app, makeScriptNum_loop_small by (done || lia).
  cbn [makeScriptNum_loop]. rewrite Z.add_0_l, uint8_id by (unfold is_byte; lia).
  by rewrite Z.shiftl_mul_pow2 by lia.
Qed.

Lemma makeScriptNum_clear_sign v hi :
  bytes_ok v -> len v <= 7 -> is_byte hi -> 128 <= hi ->
  Z.land (Z.lor (le_decode v) (int64 (hi * 2 ^ (8 * len v))))
         (Z.lnot (int64 (Z.shiftl 0x80 (uint8 (8 * len v))))) = sm_mag v hi.
Proof.
  intros Hv Hl Hhi Hge. pose proof (len_nonneg v) as Hn.
  pose proof (le_decode_bound v Hv) as Hd. unfold is_byte in Hhi.
  rewrite uint8_id by (unfold is_byte; lia). rewrite Z.shiftl_mul_pow2 by lia.
  assert (Hm : sm_mag v hi = le_decode v + (hi - 128) * 256 ^ len v).
  { pose proof (sm_decode v hi Hhi) as Hs. rewrite le_decode_snoc in Hs.
    destruct (Z.ltb_spec hi 128); lia. }
  rewrite Hm, pow256_pow2 in *.
  destruct (Z.eq_dec (len v) 7) as [E|E].
  - rewrite E in *. change (8 * 7) with 56 in *.
    replace (int64 (hi * 2 ^ 56)) with ((hi - 256) * 2 ^ 56).
    2: { unfold int64, wrap_s.
         replace (hi * 2 ^ 56 + 2 ^ (64 - 1)) with ((hi - 128) * 2 ^ 56 + 1 * 2 ^ 64) by lia.
         rewrite Z.mod_add, Z.mod_small by lia. lia. }
    rewrite lor_shift_add by lia.
    change (Z.lnot (int64 (0x80 * 2 ^ 56))) with (Z.ones 63).
    rewrite Z.land_ones by lia.
    replace (le_decode v + (hi - 256) * 2 ^ 56)
      with (le_decode v + (hi - 128) * 2 ^ 56 + (-1) * 2 ^ 63) by lia.
    rewrite Z.mod_add, Z.mod_small by lia. done.
  - assert (2 ^ (8 * len v) <= 2 ^ 48) by (apply Z.pow_le_mono_r; lia).
    rewrite !int64_id by (unfold is_int64; nia).
    rewrite lor_shift_add by lia.
    replace (0x80 * 2 ^ (8 * len v)) with (2 ^ (8 * len v + 7)) by (rewrite Z.pow_add_r by lia; lia).
    rewrite land_lnot_pow2; [rewrite Z.pow_add_r by lia; lia|lia|].
    replace (le_decode v + hi * 2 ^ (8 * len v))
      with ((le_decode v + (hi - 128) * 2 ^ (8 * len v)) + 1 * 2 ^ (8 * len v + 7))
      by (rewrite Z.pow_add_r by lia; lia).
    rewrite Z.testbit_true, Z.div_add, Z.div_small by first [lia | rewrite Z.pow_add_r by lia; nia].
    done.
Qed.

(** Reading a non-empty string of at most eight bytes without the minimality
    check returns its sign-magnitude value. *)
Lemma MakeScriptNum_value v hi L :
  bytes_ok (v ++ [hi]) -> len (v ++ [hi]) <= L -> len (v ++ [hi]) <= 8 ->
  MakeScriptNum (v ++ [hi]) false L = Ok (sm_value v hi).
Proof.
  intros [Hv Hhi]%bytes_ok_snoc HL H8. rewrite len_app in *. change (len [hi]) with 1 in *.
  unfold MakeScriptNum. rewrite len_app. change (len [hi]) with 1. z_test.
  rewrite list.last_snoc, makeScriptNum_loop_snoc by (done || lia).
  rewrite land_80 by done. unfold sm_value.
  pose proof (sm_mag_bound v hi Hv) as Hb. pose proof (len_nonneg v) as Hn.
  destruct (Z.ltb_spec hi 128) as [Hlt|Hge]; simpl.
  - pose proof (sm_decode v hi Hhi) as Hd. rewrite le_decode_snoc in Hd.
    destruct (Z.ltb_spec hi 128); [|lia]. rewrite pow256_pow2 in *. unfold is_byte in Hhi.
    assert (2 ^ (8 * len v) <= 2 ^ 56) by (apply Z.pow_le_mono_r; lia).
    rewrite int64_id by (unfold is_int64; nia).
    rewrite lor_shift_add by first [lia | rewrite <- pow256_pow2; by apply le_decode_bound].
    f_equal. lia.
  - replace (len v + 1 - 1) with (len v) by lia.
    rewrite makeScriptNum_clear_sign by (done || lia).
    rewrite pow256_pow2 in Hb.
    assert (2 ^ (8 * len v) <= 2 ^ 56) by (apply Z.pow_le_mono_r; lia).
    rewrite int64_id by (unfold is_int64; lia). done.
Qed.

Lemma MakeScriptNum_nil m L : 0 <= L -> MakeScriptNum [] m L = Ok 0.
Proof. intros. unfold MakeScriptNum. change (len []) with 0. z_test. by destruct m. Qed.

(** The minimality check accepts exactly the minimal strings. *)
Lemma checkMinimalDataEncoding_spec v hi :
  bytes_ok (v ++ [hi]) ->
  (checkMinimalDataEncoding (v ++ [hi]) = Ok tt /\ sm_minimal v hi) \/
  (checkMinimalDataEncoding (v ++ [hi]) = Err ErrMinimalData /\ ~ sm_minimal v hi).
Proof.
  intros [Hv Hhi]%bytes_ok_snoc. unfold checkMinimalDataEncoding, sm_minimal.
  rewrite list.last_snoc, land_7f by done.
  destruct (Z.eqb_spec (hi mod 128) 0) as [Hz|Hnz]; [|left; auto].
  destruct v as [|s i _] using rev_ind.
  { right. split; [done|]. intros [?|(? & ? & ? & _)]; [done|]. by destruct x. }
  apply bytes_ok_snoc in Hv as [Hi Hs].
  rewrite !len_app. change (len [s]) with 1. change (len [hi]) with 1.
  pose proof (len_nonneg i). z_test.
  rewrite !length_app. simpl. replace (length i + 1 + 1 - 2)%nat with (length i) by lia.
  rewrite <- app_assoc. simpl. rewrite list_lookup_middle by done. simpl.
  rewrite land_80 by done. destruct (Z.ltb_spec s 128).
  - right. split; [done|]. intros [?|(i' & s' & Heq & ?)]; [done|].
    apply app_inj_tail in Heq as [_ ->]. lia.
  - left. split; [done|]. right. eauto.
Qed.

(** Writing produces the minimal string of the value. *)
Lemma scriptNum_Bytes_spec n :
  is_int64 n -> n <> - 2 ^ 63 -> n <> 0 ->
  exists v hi, scriptNum_Bytes n = Ok (v ++ [hi]) /\ bytes_ok (v ++ [hi])
    /\ sm_minimal v hi /\ sm_value v hi = n.
Proof.
  intros Hn Hmin Hz. unfold scriptNum_Bytes, is_int64 in *.
  rewrite (proj2 (Z.eqb_neq n 0)) by done.
  assert (Habs : (if n <? 0 then int64 (- n) else n) = Z.abs n).
  { destruct (Z.ltb_spec n 0); [rewrite int64_id by (unfold is_int64; lia)|]; lia. }
  rewrite Habs.
  destruct (scriptNum_loop_spec 8 (Z.abs n)) as (Hok & Hval & Hlast).
  { change (256 ^ Z.of_nat 8) with (2 ^ 64). lia. }
  destruct Hlast as (hi & Hhi & Hpos); [lia|].
  rewrite Hhi. apply list.last_Some in Hhi as (v & Hv). rewrite Hv in *.
  pose proof Hok as [Hokv Hokh]%bytes_ok_snoc. rewrite land_80 by done.
  destruct (Z.ltb_spec hi 128) as [Hlt|Hge]; simpl.
  - assert (Hmag : sm_mag v hi = Z.abs n).
    { pose proof (sm_decode v hi Hokh) as Hd. destruct (Z.ltb_spec hi 128); lia. }
    destruct (Z.ltb_spec n 0) as [Hneg|Hnn].
    + exists v, (hi + 128). unfold is_byte in *.
      assert (Hmod : (hi + 128) mod 128 = hi mod 128) by (apply (Z.mod_add hi 1 128); lia).
      rewrite length_app. simpl. replace (length v + 1 - 1)%nat with (length v + 0)%nat by lia.
      rewrite list.insert_app_r, lor_80 by lia. simpl.
      split_and!; [done|apply bytes_ok_snoc; unfold is_byte; lia || (split; [done|unfold is_byte; lia])| |].
      * left. rewrite Hmod, Z.mod_small by lia. lia.
      * unfold sm_value, sm_mag in *. rewrite Hmod. destruct (Z.ltb_spec (hi + 128) 128); lia.
    + exists v, hi. split_and!; [done|done| |].
      * left. rewrite Z.mod_small by lia. lia.
      * unfold sm_value. destruct (Z.ltb_spec hi 128); lia.
  - exists (v ++ [hi]), (if n <? 0 then 0x80 else 0x00).
    split_and!; [done|apply bytes_ok_snoc; split; [done|unfold is_byte; destruct (n <? 0); lia]| |].
    + right. exists v, hi. done.
    + unfold sm_value, sm_mag. rewrite Hval.
      replace ((if n <? 0 then 0x80 else 0x00) mod 128) with 0 by (by destruct (n <? 0)).
      destruct (Z.ltb_spec n 0); simpl; lia.
Qed.

(** An [int64] other than the smallest one takes at most eight bytes. *)
Lemma sm_value_int64_len v hi :
  bytes_ok v -> sm_minimal v hi -> is_int64 (sm_value v hi) -> sm_value v hi <> - 2 ^ 63 ->
  len (v ++ [hi]) <= 8.
Proof.
  intros Hv Mv Hr Hmin. rewrite len_app. change (len [hi]) with 1.
  pose proof (sm_minimal_bound v hi Hv Mv) as L. pose proof (len_nonneg v).
  assert (Hm : sm_mag v hi < 2 ^ 63).
  { pose proof (sm_mag_bound v hi Hv). unfold sm_value, is_int64 in *. destruct (hi <? 128); lia. }
  destruct (Z.le_gt_cases (len v + 1) 8) as [|Hgt]; [done|].
  assert (256 ^ 7 <= 256 ^ (len v - 1)) by (apply Z.pow_le_mono_r; lia).
  destruct (len v =? 0) eqn:E; bool_to_prop; lia.
Qed.

Lemma scriptNum_Bytes_len n v : is_int64 n -> scriptNum_Bytes n = Ok v -> bytes_ok v /\ len v <= 8.
Proof.
  intros Hn Hb. destruct (Z.eq_dec n 0) as [->|Hz]; [injection Hb as <-; split; [constructor|done]|].
  destruct (Z.eq_dec n (- 2 ^ 63)) as [->|Hmin]; [done|].
  destruct (scriptNum_Bytes_spec n Hn Hmin Hz) as (w & hi & Hb' & Hok & Mw & Hv).
  rewrite Hb in Hb'. injection Hb' as ->. split; [done|].
  pose proof Hok as [Hokw _]%bytes_ok_snoc. apply sm_value_int64_len; rewrite ?Hv; done.
Qed.

(** C40: Round trip of script numbers: for every [int64] other than the
    smallest one, [Bytes] returns at most eight bytes, and [MakeScriptNum]
    reads them back to the same number under every length limit that admits
    them, with the minimal-encoding check on or off. *)
Theorem scriptNum_roundtrip (n L : Z) (minimal : bool) :
  is_int64 n -> n <> - 2 ^ 63 ->
  exists v, scriptNum_Bytes n = Ok v /\ bytes_ok v /\ len v <= 8
    /\ (len v <= L -> MakeScriptNum v minimal L = Ok n).
Proof.
  intros Hn Hmin. destruct (Z.eq_dec n 0) as [->|Hz].
  { exists []. split_and!; [done|constructor|done|]. intros HL. by apply MakeScriptNum_nil. }
  destruct (scriptNum_Bytes_spec n Hn Hmin Hz) as (v & hi & Hb & Hok & Mv & Hv).
  pose proof (scriptNum_Bytes_len n _ Hn Hb) as [_ H8].
  exists (v ++ [hi]). split_and!; [done|done|done|]. intros HL.
  pose proof (MakeScriptNum_value v hi L Hok HL H8) as Hr. rewrite Hv in Hr.
  destruct minimal; [|done]. unfold MakeScriptNum in *. revert Hr.
  destruct (checkMinimalDataEncoding_spec v hi Hok) as [[Hc _]|[_ Hc]]; [by rewrite Hc|done].
Qed.

Lemma scriptNum_roundtrip_witness :
  exists v, scriptNum_Bytes (-129) = Ok v /\ bytes_ok v /\ len v <= 8
    /\ (len v <= 4 -> MakeScriptNum v true 4 = Ok (-129)).
Proof. apply (scriptNum_roundtrip (-129) 4 true); unfold is_int64; lia. Defined.

(** Canonicity of script numbers: whatever [MakeScriptNum] accepts under
    the minimal-encoding check (limits up to eight bytes) is exactly what
    [Bytes] writes for the number it returns, so a number has one accepted
    encoding. *)
Theorem scriptNum_canonical (v : bytes) (L n : Z) :
  bytes_ok v -> L <= 8 -> MakeScriptNum v true L = Ok n -> scriptNum_Bytes n = Ok v.
Proof.
  intros Hok HL Hm. destruct v as [|hi v _] using rev_ind.
  { unfold MakeScriptNum in Hm. destruct (L <? len []); [done|]. by injection Hm as <-. }
  assert (Hlen : len (v ++ [hi]) <= L).
  { unfold MakeScriptNum in Hm. destruct (Z.ltb_spec L (len (v ++ [hi]))); [done|lia]. }
  pose proof (MakeScriptNum_value v hi L Hok Hlen ltac:(lia)) as Hval.
  destruct (checkMinimalDataEncoding_spec v hi Hok) as [[Hc Mv]|[Hc _]].
  2: { unfold MakeScriptNum in Hm. rewrite Hc in Hm. by destruct (L <? _). }
  assert (Hn : n = sm_value v hi).
  { unfold MakeScriptNum in Hm, Hval. rewrite Hc in Hm. simpl in Hm, Hval. congruence. }
  pose proof Hok as [Hv Hhi]%bytes_ok_snoc.
  pose proof (sm_mag_bound v hi Hv) as Hb. pose proof (sm_minimal_pos v hi Hv Mv) as Hp.
  rewrite len_app in Hlen. change (len [hi]) with 1 in Hlen.
  assert (256 ^ len v <= 256 ^ 7) by (apply Z.pow_le_mono_r; lia).
  destruct (scriptNum_Bytes_spec n) as (w & hi' & Hw & Hokw & Mw & Hvw);
    [unfold is_int64, sm_value in *; destruct (hi <? 128); lia..|].
  rewrite Hw. f_equal. apply sm_minimal_inj; try done. congruence.
Qed.

Lemma scriptNum_canonical_witness : scriptNum_Bytes 256 = Ok [0x00; 0x01].
Proof.
  apply (scriptNum_canonical [0x00; 0x01] 4 256); [|lia|reflexivity].
  repeat constructor; lia.
Defined.

Lemma MakeScriptNum_operand m v a :
  bytes_ok v -> MakeScriptNum v m maxScriptNumLen = Ok a -> - (2 ^ 31 - 1) <= a <= 2 ^ 31 - 1.
Proof.
  intros Hv Ha. destruct v as [|hi v _] using rev_ind.
  { rewrite MakeScriptNum_nil in Ha by done. injection Ha as <-. lia. }
  assert (Hlen : len (v ++ [hi]) <= 4).
  { unfold MakeScriptNum, maxScriptNumLen in Ha.
    destruct (Z.ltb_spec 4 (len (v ++ [hi]))); [done|lia]. }
  pose proof (MakeScriptNum_value v hi 4 Hv Hlen ltac:(lia)) as Hval.
  assert (a = sm_value v hi) as ->.
  { unfold MakeScriptNum, maxScriptNumLen in Ha, Hval. simpl in Hval.
    destruct (4 <? _); [done|]. inv_bind Ha. congruence. }
  pose proof Hv as [Hv1 _]%bytes_ok_snoc. pose proof (sm_mag_bound v hi Hv1).
  rewrite len_app in Hlen. change (len [hi]) with 1 in Hlen.
  assert (256 ^ len v <= 256 ^ 3) by (apply Z.pow_le_mono_r; lia).
  unfold sm_value. destruct (hi <? 128); lia.
Qed.

Lemma checkMinimalDataEncoding_no_panic v : no_panic (checkMinimalDataEncoding v).
Proof.
  unfold checkMinimalDataEncoding, no_panic. destruct (last_of v) as [hi|] eqn:Hl; [|done].
  do 2 (case_if; [|done || idtac]); try done.
  destruct v as [|a [|b v]]; [done|done|].
  destruct (lookup_lt_is_Some_2 (a :: b :: v) (length (a :: b :: v) - 2)) as [x ->];
    [simpl; lia|]. simpl. by case_if.
Qed.

Lemma MakeScriptNum_no_panic v m L : no_panic (MakeScriptNum v m L).
Proof.
  unfold MakeScriptNum. case_if; [done|]. apply rbind_no_panic.
  - destruct m; [apply checkMinimalDataEncoding_no_panic|done].
  - intros _ _. unfold no_panic. destruct (last_of v); [|done]. by case_if.
Qed.

(** Writing the smallest [int64] indexes an empty slice: its negation wraps to
    itself and the loop appends nothing. *)
Lemma scriptNum_Bytes_min : scriptNum_Bytes (- 2 ^ 63) = Panic.
Proof. reflexivity. Qed.

(** Range of arithmetic operands: an operand the numeric opcodes accept
    (four bytes) lies in [[-(2^31-1), 2^31-1]] whether or not minimality is
    checked, so sums and differences of two of them, and any further negation,
    stay inside [int64]. *)
Theorem MakeScriptNum_range (v w : bytes) (m : bool) (a b : Z) :
  bytes_ok v -> bytes_ok w ->
  MakeScriptNum v m maxScriptNumLen = Ok a -> MakeScriptNum w m maxScriptNumLen = Ok b ->
  - (2 ^ 31 - 1) <= a <= 2 ^ 31 - 1
  /\ int64 (a + b) = a + b /\ int64 (a - b) = a - b /\ int64 (- a) = - a
  /\ scriptNum_Int32 a = a.
Proof.
  intros Hv Hw Ha Hb.
  pose proof (MakeScriptNum_operand m v a Hv Ha). pose proof (MakeScriptNum_operand m w b Hw Hb).
  rewrite !int64_id by (unfold is_int64; lia). split_and!; try lia.
  unfold scriptNum_Int32, maxInt32, minInt32. z_test. apply int32_id. unfold is_int32. lia.
Qed.

Lemma MakeScriptNum_range_witness :
  - (2 ^ 31 - 1) <= 2 ^ 31 - 1 <= 2 ^ 31 - 1
  /\ int64 (2 ^ 31 - 1 + -1) = 2 ^ 31 - 1 + -1 /\ int64 (2 ^ 31 - 1 - -1) = 2 ^ 31 - 1 - -1
  /\ int64 (- (2 ^ 31 - 1)) = - (2 ^ 31 - 1)
  /\ scriptNum_Int32 (2 ^ 31 - 1) = 2 ^ 31 - 1.
Proof.
  apply (MakeScriptNum_range [0xff; 0xff; 0xff; 0x7f] [0x81] true); [..|reflexivity|reflexivity];
    repeat constructor; lia.
Defined.
