(* ===== verification/Tokenizer.v ===== *)
(** * Opcodes and the script tokenizer ([txscript/opcode.go], [txscript/tokenizer.go])

    The opcode values and lengths of [opcodeArray], the tokenizer state and its
    [Next], and the integer extraction the contract codecs use.  A reference
    parser [parse_one] on byte suffixes is proved equivalent to the
    offset-based [ScriptTokenizer_Next]. *)

From Stdlib Require Import ZArith Lia.
From stdpp Require Import base list numbers option.
From S2P Require Import Prelude ScriptNum.

(** ** Opcode values *)

Abbreviation OP_0 := 0 (only parsing).
Abbreviation OP_FALSE := 0 (only parsing).
Abbreviation OP_DATA_1 := 1 (only parsing).
Abbreviation OP_DATA_2 := 2 (only parsing).
Abbreviation OP_DATA_20 := 20 (only parsing).
Abbreviation OP_DATA_31 := 31 (only parsing).
Abbreviation OP_DATA_32 := 32 (only parsing).
Abbreviation OP_DATA_33 := 33 (only parsing).
Abbreviation OP_DATA_34 := 34 (only parsing).
Abbreviation OP_DATA_65 := 65 (only parsing).
Abbreviation OP_DATA_75 := 75 (only parsing).
Abbreviation OP_PUSHDATA1 := 76 (only parsing).
Abbreviation OP_PUSHDATA2 := 77 (only parsing).
Abbreviation OP_PUSHDATA4 := 78 (only parsing).
Abbreviation OP_1NEGATE := 79 (only parsing).
Abbreviation OP_RESERVED := 80 (only parsing).
Abbreviation OP_1 := 81 (only parsing).
Abbreviation OP_TRUE := 81 (only parsing).
Abbreviation OP_2 := 82 (only parsing).
Abbreviation OP_3 := 83 (only parsing).
Abbreviation OP_4 := 84 (only parsing).
Abbreviation OP_5 := 85 (only parsing).
Abbreviation OP_6 := 86 (only parsing).
Abbreviation OP_7 := 87 (only parsing).
Abbreviation OP_8 := 88 (only parsing).
Abbreviation OP_9 := 89 (only parsing).
Abbreviation OP_10 := 90 (only parsing).
Abbreviation OP_11 := 91 (only parsing).
Abbreviation OP_12 := 92 (only parsing).
Abbreviation OP_13 := 93 (only parsing).
Abbreviation OP_14 := 94 (only parsing).
Abbreviation OP_15 := 95 (only parsing).
Abbreviation OP_16 := 96 (only parsing).
Abbreviation OP_NOP := 97 (only parsing).
Abbreviation OP_VER := 98 (only parsing).
Abbreviation OP_IF := 99 (only parsing).
Abbreviation OP_NOTIF := 100 (only parsing).
Abbreviation OP_VERIF := 101 (only parsing).
Abbreviation OP_VERNOTIF := 102 (only parsing).
Abbreviation OP_ELSE := 103 (only parsing).
Abbreviation OP_ENDIF := 104 (only parsing).
Abbreviation OP_VERIFY := 105 (only parsing).
Abbreviation OP_RETURN := 106 (only parsing).
Abbreviation OP_TOALTSTACK := 107 (only parsing).
Abbreviation OP_FROMALTSTACK := 108 (only parsing).
Abbreviation OP_2DROP := 109 (only parsing).
Abbreviation OP_2DUP := 110 (only parsing).
Abbreviation OP_3DUP := 111 (only parsing).
Abbreviation OP_2OVER := 112 (only parsing).
Abbreviation OP_2ROT := 113 (only parsing).
Abbreviation OP_2SWAP := 114 (only parsing).
Abbreviation OP_IFDUP := 115 (only parsing).
Abbreviation OP_DEPTH := 116 (only parsing).
Abbreviation OP_DROP := 117 (only parsing).
Abbreviation OP_DUP := 118 (only parsing).
Abbreviation OP_NIP := 119 (only parsing).
Abbreviation OP_OVER := 120 (only parsing).
Abbreviation OP_PICK := 121 (only parsing).
Abbreviation OP_ROLL := 122 (only parsing).
Abbreviation OP_ROT := 123 (only parsing).
Abbreviation OP_SWAP := 124 (only parsing).
Abbreviation OP_TUCK := 125 (only parsing).
Abbreviation OP_CAT := 126 (only parsing).
Abbreviation OP_SUBSTR := 127 (only parsing).
Abbreviation OP_LEFT := 128 (only parsing).
Abbreviation OP_RIGHT := 129 (only parsing).
Abbreviation OP_SIZE := 130 (only parsing).
Abbreviation OP_INVERT := 131 (only parsing).
Abbreviation OP_AND := 132 (only parsing).
Abbreviation OP_OR := 133 (only parsing).
Abbreviation OP_XOR := 134 (only parsing).
Abbreviation OP_EQUAL := 135 (only parsing).
Abbreviation OP_EQUALVERIFY := 136 (only parsing).
Abbreviation OP_RESERVED1 := 137 (only parsing).
Abbreviation OP_RESERVED2 := 138 (only parsing).
Abbreviation OP_1ADD := 139 (only parsing).
Abbreviation OP_1SUB := 140 (only parsing).
Abbreviation OP_2MUL := 141 (only parsing).
Abbreviation OP_2DIV := 142 (only parsing).
Abbreviation OP_NEGATE := 143 (only parsing).
Abbreviation OP_ABS := 144 (only parsing).
Abbreviation OP_NOT := 145 (only parsing).
Abbreviation OP_0NOTEQUAL := 146 (only parsing).
Abbreviation OP_ADD := 147 (only parsing).
Abbreviation OP_SUB := 148 (only parsing).
Abbreviation OP_MUL := 149 (only parsing).
Abbreviation OP_DIV := 150 (only parsing).
Abbreviation OP_MOD := 151 (only parsing).
Abbreviation OP_LSHIFT := 152 (only parsing).
Abbreviation OP_RSHIFT := 153 (only parsing).
Abbreviation OP_BOOLAND := 154 (only parsing).
Abbreviation OP_BOOLOR := 155 (only parsing).
Abbreviation OP_NUMEQUAL := 156 (only parsing).
Abbreviation OP_NUMEQUALVERIFY := 157 (only parsing).
Abbreviation OP_NUMNOTEQUAL := 158 (only parsing).
Abbreviation OP_LESSTHAN := 159 (only parsing).
Abbreviation OP_GREATERTHAN := 160 (only parsing).
Abbreviation OP_LESSTHANOREQUAL := 161 (only parsing).
Abbreviation OP_GREATERTHANOREQUAL := 162 (only parsing).
Abbreviation OP_MIN := 163 (only parsing).
Abbreviation OP_MAX := 164 (only parsing).
Abbreviation OP_WITHIN := 165 (only parsing).
Abbreviation OP_RIPEMD160 := 166 (only parsing).
Abbreviation OP_SHA1 := 167 (only parsing).
Abbreviation OP_SHA256 := 168 (only parsing).
Abbreviation OP_HASH160 := 169 (only parsing).
Abbreviation OP_HASH256 := 170 (only parsing).
Abbreviation OP_CODESEPARATOR := 171 (only parsing).
Abbreviation OP_CHECKSIG := 172 (only parsing).
Abbreviation OP_CHECKSIGVERIFY := 173 (only parsing).
Abbreviation OP_CHECKMULTISIG := 174 (only parsing).
Abbreviation OP_CHECKMULTISIGVERIFY := 175 (only parsing).
Abbreviation OP_NOP1 := 176 (only parsing).
Abbreviation OP_NOP2 := 177 (only parsing).
Abbreviation OP_CHECKLOCKTIMEVERIFY := 177 (only parsing).
Abbreviation OP_NOP3 := 178 (only parsing).
Abbreviation OP_CHECKSEQUENCEVERIFY := 178 (only parsing).
Abbreviation OP_NOP4 := 179 (only parsing).
Abbreviation OP_NOP5 := 180 (only parsing).
Abbreviation OP_NOP6 := 181 (only parsing).
Abbreviation OP_NOP7 := 182 (only parsing).
Abbreviation OP_NOP8 := 183 (only parsing).
Abbreviation OP_NOP9 := 184 (only parsing).
Abbreviation OP_NOP10 := 185 (only parsing).
Abbreviation OP_CHECKSIGADD := 186 (only parsing).
Abbreviation OP_SMALLINTEGER := 250 (only parsing).
Abbreviation OP_PUBKEYS := 251 (only parsing).
Abbreviation OP_PUBKEYHASH := 253 (only parsing).
Abbreviation OP_PUBKEY := 254 (only parsing).
Abbreviation OP_INVALIDOPCODE := 255 (only parsing).

(** The [length] column of [opcodeArray]: [1] for an opcode without data,
    [n + 1] for [OP_DATA_n], and [-1], [-2], [-4] for [OP_PUSHDATA1/2/4]. *)
Definition opcode_length (value : Z) : Z :=
  if value =? OP_PUSHDATA1 then -1
  else if value =? OP_PUSHDATA2 then -2
  else if value =? OP_PUSHDATA4 then -4
  else if (OP_DATA_1 <=? value) && (value <=? OP_DATA_75) then value + 1
  else 1.

(** ** The tokenizer *)

(** [op] is the value of the opcode the pointer refers to ([None]: nil pointer);
    [data] distinguishes a nil slice ([None]) from an empty one ([Some []]). *)
Record ScriptTokenizer : Type := mkTokenizer {
  tok_script : bytes;
  tok_version : Z;
  tok_offset : Z;
  tok_opcodePos : Z;
  tok_op : option Z;
  tok_data : option bytes;
  tok_err : option ErrorCode;
}.

Definition MakeScriptTokenizer (scriptVersion : Z) (script : bytes) : ScriptTokenizer :=
  {| tok_script := script; tok_version := scriptVersion; tok_offset := 0;
     tok_opcodePos := -1; tok_op := None; tok_data := None;
     tok_err := if scriptVersion =? 0 then None else Some ErrUnsupportedScriptVersion |}.

Definition ScriptTokenizer_Done (t : ScriptTokenizer) : bool :=
  match tok_err t with
  | Some _ => true
  | None => int32 (len (tok_script t)) <=? tok_offset t
  end.

(** [l[i]] and [l[i:]] with an [int32] index. *)
Definition index {A : Type} (l : list A) (i : Z) : option A :=
  if i <? 0 then None else l !! Z.to_nat i.

Definition tok_incr (t : ScriptTokenizer) : ScriptTokenizer :=
  {| tok_script := tok_script t; tok_version := tok_version t; tok_offset := tok_offset t;
     tok_opcodePos := int32 (tok_opcodePos t + 1); tok_op := tok_op t; tok_data := tok_data t;
     tok_err := tok_err t |}.

Definition tok_fail (t : ScriptTokenizer) : ScriptTokenizer :=
  {| tok_script := tok_script t; tok_version := tok_version t; tok_offset := tok_offset t;
     tok_opcodePos := tok_opcodePos t; tok_op := tok_op t; tok_data := tok_data t;
     tok_err := Some ErrMalformedPush |}.

Definition tok_advance (t : ScriptTokenizer) (n : Z) (op : Z) (data : option bytes) : ScriptTokenizer :=
  {| tok_script := tok_script t; tok_version := tok_version t; tok_offset := int32 (tok_offset t + n);
     tok_opcodePos := tok_opcodePos t; tok_op := Some op; tok_data := data;
     tok_err := tok_err t |}.

(** [ScriptTokenizer.Next]: the boolean result and the updated tokenizer. *)
Definition ScriptTokenizer_Next {E} (t : ScriptTokenizer) : result E (bool * ScriptTokenizer) :=
  if ScriptTokenizer_Done t then Ok (false, t)
  else
    let t := tok_incr t in
    let! op := unwrap (index (tok_script t) (tok_offset t)) in
    let length := opcode_length op in
    if length =? 1 then Ok (true, tok_advance t 1 op None)
    else if 1 <? length then
      let script := drop (Z.to_nat (tok_offset t)) (tok_script t) in
      if len script <? length then Ok (false, tok_fail t)
      else Ok (true, tok_advance t length op (Some (take (Z.to_nat (length - 1)) (drop 1 script))))
    else if length <? 0 then
      let script := drop (Z.to_nat (tok_offset t + 1)) (tok_script t) in
      if len script <? - length then Ok (false, tok_fail t)
      else
        let dataLen := int32 (le_decode (take (Z.to_nat (- length)) script)) in
        let script := drop (Z.to_nat (- length)) script in
        if (int32 (len script) <? dataLen) || (dataLen <? 0) then Ok (false, tok_fail t)
        else Ok (true, tok_advance t (1 + - length + dataLen) op (Some (take (Z.to_nat dataLen) script)))
    else Panic.

Definition ScriptTokenizer_ByteIndex (t : ScriptTokenizer) : Z := tok_offset t.
Definition ScriptTokenizer_OpcodePosition (t : ScriptTokenizer) : Z := tok_opcodePos t.

(** [Opcode] dereferences the opcode pointer. *)
Definition ScriptTokenizer_Opcode {E} (t : ScriptTokenizer) : result E Z := unwrap (tok_op t).
Definition ScriptTokenizer_Data (t : ScriptTokenizer) : option bytes := tok_data t.
Definition ScriptTokenizer_Err (t : ScriptTokenizer) : option ErrorCode := tok_err t.

(** The content of a possibly nil slice, for [len], [string(...)] and the like. *)
Definition slice (d : option bytes) : bytes := default [] d.

Definition AsSmallInt (op : Z) : Z := if op =? OP_0 then 0 else op - (OP_1 - 1).

Definition IsSmallInt (op : Z) : bool := (op =? OP_0) || ((OP_1 <=? op) && (op <=? OP_16)).

(** [extractScriptInt64]: an eight-byte buffer receives the data, the sign bit
    of the last data byte is cleared in it and decides the sign. *)
Definition extractScriptInt64 {E} (data : bytes) : result E Z :=
  match last_of data with
  | None => Ok 0
  | Some hi =>
      let isNegative := negb (Z.land hi 0x80 =? 0) in
      let buf := take 8 data ++ replicate (8 - length data) 0 in
      let! buf :=
        (if isNegative then
           let! b := unwrap (index buf (len data - 1)) in
           Ok (<[(length data - 1)%nat := Z.land b 0x7f]> buf)
         else Ok buf) in
      let val := int64 (le_decode buf) in
      Ok (if isNegative then int64 (- val) else val)
  end.

Definition ExtractInt64FromScript {E} (opcode : Z) (data : option bytes) : result E Z :=
  match data with
  | None =>
      if opcode =? OP_0 then Ok 0
      else if opcode =? OP_1NEGATE then Ok (-1)
      else if (OP_1 <=? opcode) && (opcode <=? OP_16) then Ok (AsSmallInt opcode)
      else extractScriptInt64 []
  | Some d => extractScriptInt64 d
  end.

Definition ScriptTokenizer_ExtractInt64 {E} (t : ScriptTokenizer) : result E Z :=
  let! opcode := ScriptTokenizer_Opcode t in
  ExtractInt64FromScript opcode (ScriptTokenizer_Data t).

(** The error of an exhausted tokenizer is a plain Go error. *)
Definition ScriptTokenizer_ExtractNextInt64 (t : ScriptTokenizer) : outcome (Z * ScriptTokenizer) :=
  let! '(ok, t) := ScriptTokenizer_Next t in
  if negb ok then Err ErrOther
  else
    match ScriptTokenizer_Err t with
    | Some e => Err e
    | None =>
        let! opcode := ScriptTokenizer_Opcode t in
        let! v := ExtractInt64FromScript opcode (ScriptTokenizer_Data t) in
        Ok (v, t)
    end.

(** The loop [for tokenizer.Next() { ... }]: the tokenizer after each successful
    call, in order, and the tokenizer the loop ends with.  Every turn consumes at
    least one byte; [tokenize_total] shows that the fuel is enough. *)
Fixpoint tokenizer_run {E} (fuel : nat) (t : ScriptTokenizer)
  : result E (list ScriptTokenizer * ScriptTokenizer) :=
  match fuel with
  | O => Panic
  | S f =>
      let! '(ok, t) := ScriptTokenizer_Next t in
      if ok then
        let! '(l, t_end) := tokenizer_run f t in
        Ok (t :: l, t_end)
      else Ok ([], t)
  end.

Definition tokenize {E} (script : bytes) : result E (list ScriptTokenizer * ScriptTokenizer) :=
  tokenizer_run (S (length script)) (MakeScriptTokenizer 0 script).

Example tokenize_ex :
  (let! '(l, e) := tokenize [OP_RETURN; OP_16; 1; 31; OP_PUSHDATA1; 2; 7; 8] in
   Ok (E := unit) (map (fun t => (tok_op t, tok_data t)) l, tok_err e))
  = Ok ([(Some OP_RETURN, None); (Some OP_16, None); (Some 1, Some [31]);
         (Some OP_PUSHDATA1, Some [7; 8])], None).
Proof. reflexivity. Qed.

(** ** A reference parser

    [parse_one] takes the first instruction off a byte string; [enc_token] is
    the byte string of an instruction. *)

Record token : Type := mkToken { tk_op : Z; tk_data : option bytes }.

Definition parse_one (s : bytes) : option (token * bytes) :=
  match s with
  | [] => None
  | op :: r =>
      let L := opcode_length op in
      if L =? 1 then Some (mkToken op None, r)
      else if 1 <? L then
        if len r <? L - 1 then None
        else Some (mkToken op (Some (take (Z.to_nat (L - 1)) r)), drop (Z.to_nat (L - 1)) r)
      else
        let n := Z.to_nat (- L) in
        if len r <? - L then None
        else
          let d := le_decode (take n r) in
          if len (drop n r) <? d then None
          else Some (mkToken op (Some (take (Z.to_nat d) (drop n r))), drop (Z.to_nat d) (drop n r))
  end.

Definition enc_token (tk : token) : bytes :=
  match tk_data tk with
  | None => [tk_op tk]
  | Some d =>
      if 1 <? opcode_length (tk_op tk) then tk_op tk :: d
      else tk_op tk :: le_encode (Z.to_nat (- opcode_length (tk_op tk))) (len d) ++ d
  end.

Definition wf_token (tk : token) : Prop :=
  is_byte (tk_op tk) /\
  match tk_data tk with
  | None => opcode_length (tk_op tk) = 1
  | Some d =>
      bytes_ok d /\
      ((1 < opcode_length (tk_op tk) /\ len d = opcode_length (tk_op tk) - 1) \/
       (opcode_length (tk_op tk) < 0 /\ len d < 256 ^ (- opcode_length (tk_op tk))))
  end.

Lemma opcode_length_cases op :
  (opcode_length op = 1 /\ (op = 0 \/ op < 0 \/ 78 < op)) \/
  (opcode_length op = op + 1 /\ 1 <= op <= 75) \/
  (op = 76 /\ opcode_length op = -1) \/ (op = 77 /\ opcode_length op = -2) \/
  (op = 78 /\ opcode_length op = -4).
Proof.
  unfold opcode_length.
  repeat case_if; lia.
Qed.

Lemma len_take_le {A} n (l : list A) : Z.of_nat n <= len l -> len (take n l) = Z.of_nat n.
Proof. unfold len. intros. rewrite length_take. lia. Qed.
Lemma len_drop {A} n (l : list A) : Z.of_nat n <= len l -> len (drop n l) = len l - Z.of_nat n.
Proof. unfold len. intros. rewrite length_drop. lia. Qed.
Lemma take_len_app {A} (l k : list A) n : n = len l -> take (Z.to_nat n) (l ++ k) = l.
Proof. intros ->. unfold len. rewrite Nat2Z.id. apply take_app_length. Qed.
Lemma drop_len_app {A} (l k : list A) n : n = len l -> drop (Z.to_nat n) (l ++ k) = k.
Proof. intros ->. unfold len. rewrite Nat2Z.id. apply drop_app_length. Qed.

Lemma parse_one_enc tk s : wf_token tk -> parse_one (enc_token tk ++ s) = Some (tk, s).
Proof.
  destruct tk as [op [d|]]; unfold wf_token, enc_token; simpl tk_op; simpl tk_data.
  2: { intros [_ HL]. unfold parse_one. simpl. rewrite HL. done. }
  intros (_ & Hd & [[HL Hlen]|[HL Hlen]]).
  - unfold parse_one. rewrite (proj2 (Z.ltb_lt 1 _) HL). rewrite <- app_comm_cons.
    pose proof (len_nonneg s). rewrite len_app. z_test.
    rewrite take_len_app, drop_len_app by lia. done.
  - unfold parse_one. pose proof (len_nonneg s). pose proof (len_nonneg d).
    destruct (Z.ltb_spec 1 (opcode_length op)); [lia|].
    rewrite <- app_comm_cons, <- app_assoc.
    set (n := Z.to_nat (- opcode_length op)) in *.
    set (e := le_encode n (len d)) in *.
    assert (He : len e = - opcode_length op).
    { unfold len, e. rewrite le_encode_length. unfold n. lia. }
    rewrite !len_app. z_test.
    unfold n. rewrite take_len_app, drop_len_app by lia.
    assert (Hdec : le_decode e = len d).
    { unfold e. apply le_decode_encode. unfold n. rewrite Z2Nat.id by lia. lia. }
    rewrite Hdec, len_app. z_test.
    rewrite take_len_app, drop_len_app by done. done.
Qed.

Lemma parse_one_inv s tk s' :
  bytes_ok s -> parse_one s = Some (tk, s') -> wf_token tk /\ s = enc_token tk ++ s'.
Proof.
  intros Hs Hp. destruct s as [|op r]; [done|]. apply Forall_cons_iff in Hs as [Hop Hr].
  unfold parse_one in Hp. pose proof (opcode_length_cases op) as HL.
  destruct (Z.eqb_spec (opcode_length op) 1) as [E|E]; simplify_eq.
  { split; [split; done|]. done. }
  destruct (Z.ltb_spec 1 (opcode_length op)) as [E1|E1].
  - destruct (Z.ltb_spec (len r) (opcode_length op - 1)) as [|Hlen]; simplify_eq.
    split.
    + split; [done|]. simpl. split; [by apply Forall_take|]. left. split; [lia|].
      rewrite len_take_le; lia.
    + unfold enc_token. simpl. destruct (Z.ltb_spec 1 (opcode_length op)); [|lia].
      rewrite <- app_comm_cons. f_equal. symmetry. apply take_drop.
  - destruct (Z.ltb_spec (len r) (- opcode_length op)) as [|Hlen]; simplify_eq.
    set (n := Z.to_nat (- opcode_length op)) in *.
    destruct (Z.ltb_spec (len (drop n r)) (le_decode (take n r))) as [|Hlen2]; simplify_eq.
    assert (Hok : bytes_ok (take n r)) by (by apply Forall_take).
    pose proof (le_decode_bound _ Hok) as Hb.
    assert (Hn : len (take n r) = - opcode_length op) by (rewrite len_take_le; unfold n; lia).
    rewrite Hn in Hb.
    assert (Hdlen : len (take (Z.to_nat (le_decode (take n r))) (drop n r)) = le_decode (take n r))
      by (rewrite len_take_le; lia).
    split.
    + split; [done|]. simpl. split; [apply Forall_take; by apply Forall_drop|]. right. lia.
    + unfold enc_token. simpl. destruct (Z.ltb_spec 1 (opcode_length op)); [lia|].
      rewrite <- app_comm_cons, <- app_assoc, take_drop, Hdlen. f_equal.
      rewrite <- (take_drop n r) at 1. f_equal.
      rewrite <- (le_encode_decode _ Hok) at 1. f_equal. unfold len in Hn. lia.
Qed.

(** ** [Next] implements the reference parser *)

(** The tokenizer stands before the suffix [s] of its script. *)
Record tok_at (t : ScriptTokenizer) (s : bytes) : Prop := mkTokAt {
  ta_err : tok_err t = None;
  ta_off : 0 <= tok_offset t;
  ta_split : exists p, tok_script t = p ++ s /\ len p = tok_offset t;
  ta_len : len (tok_script t) < 2 ^ 31;
  ta_ok : bytes_ok (tok_script t);
}.

Lemma tok_at_start s : bytes_ok s -> len s < 2 ^ 31 -> tok_at (MakeScriptTokenizer 0 s) s.
Proof. intros. constructor; simpl; try done. exists []. done. Qed.

Lemma tok_at_suffix_ok t s : tok_at t s -> bytes_ok s.
Proof. intros [_ _ (p & Hp & _) _ Hok]. rewrite Hp in Hok. by apply bytes_ok_app in Hok as [_ ?]. Qed.

Lemma tok_at_len t s : tok_at t s -> len (tok_script t) = tok_offset t + len s.
Proof. intros [_ _ (p & Hp & <-) _ _]. by rewrite Hp, len_app. Qed.

Lemma tok_at_Done t s : tok_at t s -> ScriptTokenizer_Done t = (len s =? 0).
Proof.
  intros Ht. unfold ScriptTokenizer_Done. rewrite (ta_err _ _ Ht).
  pose proof (tok_at_len _ _ Ht). pose proof (ta_len _ _ Ht). pose proof (ta_off _ _ Ht).
  pose proof (len_nonneg s). rewrite int32_id by (unfold is_int32; lia).
  destruct (Z.eqb_spec (len s) 0); [apply Z.leb_le|apply Z.leb_gt]; lia.
Qed.

(** The tokenizer after reading the instruction [tk] of [n] bytes. *)
Definition tok_step (t : ScriptTokenizer) (tk : token) (n : Z) : ScriptTokenizer :=
  tok_advance (tok_incr t) n (tk_op tk) (tk_data tk).

Lemma tok_at_step t tk s :
  tok_at t (enc_token tk ++ s) -> tok_at (tok_step t tk (len (enc_token tk))) s.
Proof.
  intros Ht. pose proof (tok_at_len _ _ Ht) as Hl. rewrite len_app in Hl.
  destruct Ht as [He Ho (p & Hp & Hpl) Hlen Hok].
  pose proof (len_nonneg s). pose proof (len_nonneg (enc_token tk)).
  constructor; simpl; try done.
  - rewrite int32_id by (unfold is_int32; lia). lia.
  - exists (p ++ enc_token tk). rewrite <- app_assoc, len_app, Hp, Hpl.
    split; [done|]. rewrite int32_id; [done|unfold is_int32; lia].
Qed.

Lemma tok_at_index t op r : tok_at t (op :: r) -> index (tok_script t) (tok_offset t) = Some op.
Proof.
  intros [_ Ho (p & Hp & Hpl) _ _]. unfold index. z_test. rewrite Hp, <- Hpl. unfold len.
  rewrite Nat2Z.id. by apply list_lookup_middle.
Qed.

Lemma tok_at_drop t s n :
  tok_at t s -> 0 <= n -> drop (Z.to_nat (tok_offset t + n)) (tok_script t) = drop (Z.to_nat n) s.
Proof.
  intros [_ Ho (p & Hp & Hpl) _ _] Hn. rewrite Hp, <- Hpl, Z2Nat.inj_add by (lia || apply len_nonneg).
  rewrite <- drop_drop. f_equal. by apply drop_len_app.
Qed.

(** Reading at the end of the script changes nothing. *)
Lemma Next_end {E} t : tok_at t [] -> ScriptTokenizer_Next (E := E) t = Ok (false, t).
Proof. intros Ht. unfold ScriptTokenizer_Next. by rewrite (tok_at_Done _ _ Ht). Qed.

Lemma Next_parse {E} t op r :
  tok_at t (op :: r) ->
  ScriptTokenizer_Next (E := E) t =
    match parse_one (op :: r) with
    | Some (tk, s') => Ok (true, tok_step t tk (len (op :: r) - len s'))
    | None => Ok (false, tok_fail (tok_incr t))
    end.
Proof.
  intros Ht. unfold ScriptTokenizer_Next. rewrite (tok_at_Done _ _ Ht).
  rewrite len_cons. pose proof (len_nonneg r) as Hr. z_test.
  rewrite (tok_at_index _ _ _ Ht). simpl unwrap. unfold rbind.
  pose proof (tok_at_drop _ _ 0 Ht ltac:(lia)) as D0. rewrite Z.add_0_r in D0. simpl drop in D0.
  pose proof (tok_at_drop _ _ 1 Ht ltac:(lia)) as D1. simpl drop in D1. rewrite drop_0 in D1.
  rewrite D0, D1. pose proof (opcode_length_cases op) as HL. unfold parse_one.
  pose proof (tok_at_len _ _ Ht) as Hl. rewrite len_cons in Hl.
  pose proof (ta_len _ _ Ht) as Hmax. pose proof (ta_off _ _ Ht) as Hoff.
  destruct (Z.eqb_spec (opcode_length op) 1) as [E1|E1].
  { unfold tok_step. simpl. do 3 f_equal. lia. }
  destruct (Z.ltb_spec 1 (opcode_length op)) as [E2|E2].
  { rewrite len_cons. simpl (drop 1 _). rewrite ?drop_0.
    destruct (Z.ltb_spec (len r) (opcode_length op - 1)), (Z.ltb_spec (1 + len r) (opcode_length op));
      try lia; [done|].
    unfold tok_step. simpl. do 3 f_equal. rewrite len_drop by lia. lia. }
  destruct (Z.ltb_spec (opcode_length op) 0) as [E3|E3]; [|lia].
  destruct (Z.ltb_spec (len r) (- opcode_length op)) as [E4|E4]; [done|].
  set (n := Z.to_nat (- opcode_length op)) in *.
  pose proof (tok_at_suffix_ok _ _ Ht) as [_ Hrok]%Forall_cons_iff.
  pose proof (le_decode_bound (take n r) (Forall_take _ _ _ Hrok)) as Hb.
  rewrite len_take_le in Hb by (unfold n; lia).
  assert (256 ^ Z.of_nat n <= 256 ^ 4) by (apply Z.pow_le_mono_r; unfold n; lia).
  set (d := le_decode (take n r)) in *.
  pose proof (len_drop n r ltac:(unfold n; lia)) as Hdr.
  rewrite (int32_id (len (drop n r))) by (unfold is_int32, n in *; lia).
  destruct (Z.lt_ge_cases d (2 ^ 31)) as [Hd|Hd].
  - rewrite int32_id by (unfold is_int32; lia).
    destruct (Z.ltb_spec (len (drop n r)) d); [done|].
    destruct (Z.ltb_spec d 0); [lia|]. simpl.
    unfold tok_step. simpl. do 3 f_equal. rewrite (len_drop (Z.to_nat d)) by lia.
    unfold n in *. lia.
  - replace (int32 d) with (d - 2 ^ 32).
    2: { unfold int32, wrap_s. replace (d + 2 ^ (32 - 1)) with (d - 2 ^ 31 + 1 * 2 ^ 32) by lia.
         rewrite Z.mod_add, Z.mod_small by lia. lia. }
    destruct (Z.ltb_spec (len (drop n r)) d); [|lia].
    destruct (Z.ltb_spec (d - 2 ^ 32) 0); [|lia]. rewrite orb_true_r. done.
Qed.

(** Reading an instruction written by [enc_token]. *)
Lemma Next_token {E} t tk s :
  tok_at t (enc_token tk ++ s) -> wf_token tk ->
  ScriptTokenizer_Next (E := E) t = Ok (true, tok_step t tk (len (enc_token tk))).
Proof.
  intros Ht Hw. pose proof (parse_one_enc tk s Hw) as Hp.
  destruct (enc_token tk ++ s) as [|op r] eqn:Eq; [done|].
  rewrite (Next_parse _ _ _ Ht), Hp, <- Eq, len_app. do 3 f_equal. lia.
Qed.

(** ** Whole scripts *)

(** The tokenizers after each instruction of [tks], and after all of them. *)
Fixpoint tok_trace (t : ScriptTokenizer) (tks : list token) : list ScriptTokenizer :=
  match tks with
  | [] => []
  | tk :: r => let t' := tok_step t tk (len (enc_token tk)) in t' :: tok_trace t' r
  end.

Fixpoint tok_end (t : ScriptTokenizer) (tks : list token) : ScriptTokenizer :=
  match tks with
  | [] => t
  | tk :: r => tok_end (tok_step t tk (len (enc_token tk))) r
  end.

Definition enc_tokens (tks : list token) : bytes := concat (map enc_token tks).

Lemma enc_token_nonempty tk : 1 <= len (enc_token tk).
Proof.
  unfold enc_token. destruct (tk_data tk) as [d|]; [|done].
  case_if; rewrite len_cons; [pose proof (len_nonneg d)|pose proof (len_nonneg (le_encode (Z.to_nat (- opcode_length (tk_op tk))) (len d) ++ d))]; lia.
Qed.

Lemma tok_at_end t tks s : tok_at t (enc_tokens tks ++ s) -> tok_at (tok_end t tks) s.
Proof.
  revert t. induction tks as [|tk tks IH]; intros t Ht; [done|].
  apply IH, tok_at_step. by rewrite app_assoc.
Qed.

(** The loop over a suffix that starts with the instructions [tks]. *)
Lemma tokenizer_run_tokens {E} tks s t fuel r :
  tok_at t (enc_tokens tks ++ s) -> Forall wf_token tks ->
  tokenizer_run (E := E) fuel (tok_end t tks) = Ok r ->
  tokenizer_run (E := E) (length tks + fuel) t = Ok (tok_trace t tks ++ r.1, r.2).
Proof.
  intros Ht Hw Hr. revert t Ht Hr. induction Hw as [|tk tks Htk Hw IH]; intros t Ht Hr; simpl.
  { by rewrite <- surjective_pairing. }
  unfold enc_tokens in Ht. simpl in Ht. rewrite <- app_assoc in Ht.
  rewrite (Next_token _ _ _ Ht Htk). simpl. rewrite IH; [done| |done].
  by apply tok_at_step.
Qed.

(** Every suffix is a sequence of instructions followed by nothing or by a
    malformed push. *)
Lemma parse_all s :
  bytes_ok s ->
  exists tks r, s = enc_tokens tks ++ r /\ Forall wf_token tks /\ (r = [] \/ parse_one r = None).
Proof.
  remember (length s) as n eqn:Hn. revert s Hn.
  induction n as [n IH] using lt_wf_ind. intros s -> Hs.
  destruct (parse_one s) as [[tk s']|] eqn:Hp.
  - destruct (parse_one_inv _ _ _ Hs Hp) as [Hw Heq].
    pose proof (enc_token_nonempty tk) as Hne.
    assert (Hlt : (length s' < length s)%nat).
    { rewrite Heq, length_app. unfold len in Hne. lia. }
    rewrite Heq in Hs. apply bytes_ok_app in Hs as [_ Hs'].
    destruct (IH _ Hlt s' eq_refl Hs') as (tks & r & -> & Hws & Hend).
    exists (tk :: tks), r. split_and!; [|by constructor|done].
    rewrite Heq. unfold enc_tokens. simpl. by rewrite app_assoc.
  - exists [], s. split_and!; [done|constructor|]. by right.
Qed.

Lemma enc_tokens_length tks : Z.of_nat (length tks) <= len (enc_tokens tks).
Proof.
  induction tks as [|tk tks IH]; [done|].
  unfold enc_tokens in *. simpl. rewrite len_app. pose proof (enc_token_nonempty tk). lia.
Qed.

(** Tokenizing any byte string: the instructions it starts with, and what is
    left over when a push is malformed. *)
Lemma tokenize_prefix {E} (script : bytes) :
  bytes_ok script -> len script < 2 ^ 31 ->
  exists tks rest t_end,
    tokenize (E := E) script = Ok (tok_trace (MakeScriptTokenizer 0 script) tks, t_end)
    /\ script = enc_tokens tks ++ rest /\ Forall wf_token tks
    /\ ((rest = [] /\ tok_err t_end = None)
        \/ (rest <> [] /\ parse_one rest = None /\ tok_err t_end = Some ErrMalformedPush)).
Proof.
  intros Hok Hlen. destruct (parse_all script Hok) as (tks & rest & Heq & Hw & Hend).
  pose proof (tok_at_start script Hok Hlen) as Ht. rewrite Heq in Ht at 2.
  pose proof (tok_at_end _ _ _ Ht) as Hte. pose proof (enc_tokens_length tks) as Hn.
  assert (Hfuel : exists m, S (length script) = (length tks + S m)%nat).
  { exists (length script - length tks)%nat. rewrite Heq, length_app. unfold len in Hn. lia. }
  destruct Hfuel as [m Hm]. unfold tokenize. rewrite Hm.
  set (t0 := MakeScriptTokenizer 0 script) in *.
  destruct rest as [|op r].
  - exists tks, [], (tok_end t0 tks).
    rewrite (tokenizer_run_tokens tks [] t0 (S m) ([], tok_end t0 tks) Ht Hw).
    + rewrite app_nil_r. split_and!; [done|done|done|]. left. split; [done|apply (ta_err _ _ Hte)].
    + simpl. by rewrite Next_end.
  - destruct Hend as [Hend|Hend]; [done|].
    exists tks, (op :: r), (tok_fail (tok_incr (tok_end t0 tks))).
    rewrite (tokenizer_run_tokens tks (op :: r) t0 (S m) ([], tok_fail (tok_incr (tok_end t0 tks))) Ht Hw).
    + rewrite app_nil_r. split_and!; [done|done|done|]. by right.
    + simpl. by rewrite (Next_parse _ _ _ Hte), Hend.
Qed.

(** C35: The tokenizer loop terminates without a panic on every script shorter
    than 2^31 bytes and splits it exactly: the script is the concatenation of
    the encodings of the instructions returned, in order, followed by nothing
    (no error) or by a malformed push (error [ErrMalformedPush]). *)
Theorem tokenize_total (script : bytes) :
  bytes_ok script -> len script < 2 ^ 31 ->
  exists tks rest t_end,
    tokenize (E := ErrorCode) script = Ok (tok_trace (MakeScriptTokenizer 0 script) tks, t_end)
    /\ script = enc_tokens tks ++ rest /\ Forall wf_token tks
    /\ ((rest = [] /\ tok_err t_end = None)
        \/ (rest <> [] /\ parse_one rest = None /\ tok_err t_end = Some ErrMalformedPush)).
Proof. apply tokenize_prefix. Qed.

Lemma tokenize_total_witness :
  exists tks rest t_end,
    tokenize (E := ErrorCode) [OP_DUP; OP_PUSHDATA1; 3; 1]
      = Ok (tok_trace (MakeScriptTokenizer 0 [OP_DUP; OP_PUSHDATA1; 3; 1]) tks, t_end)
    /\ [OP_DUP; OP_PUSHDATA1; 3; 1] = enc_tokens tks ++ rest /\ Forall wf_token tks
    /\ ((rest = [] /\ tok_err t_end = None)
        \/ (rest <> [] /\ parse_one rest = None /\ tok_err t_end = Some ErrMalformedPush)).
Proof. apply (tokenize_total [OP_DUP; OP_PUSHDATA1; 3; 1]); [repeat constructor; lia|reflexivity]. Defined.

(** A script that consists of instructions is tokenized into them. *)
Lemma tokenize_tokens {E} tks :
  Forall wf_token tks -> bytes_ok (enc_tokens tks) -> len (enc_tokens tks) < 2 ^ 31 ->
  let t0 := MakeScriptTokenizer 0 (enc_tokens tks) in
  tokenize (E := E) (enc_tokens tks) = Ok (tok_trace t0 tks, tok_end t0 tks)
  /\ tok_err (tok_end t0 tks) = None.
Proof.
  intros Hw Hok Hlen t0. pose proof (tok_at_start _ Hok Hlen) as Ht. fold t0 in Ht.
  rewrite <- (app_nil_r (enc_tokens tks)) in Ht. pose proof (tok_at_end _ _ _ Ht) as Hte.
  split; [|apply (ta_err _ _ Hte)]. pose proof (enc_tokens_length tks) as Hn.
  unfold tokenize. replace (S (length (enc_tokens tks)))
    with (length tks + S (length (enc_tokens tks) - length tks))%nat by (unfold len in Hn; lia).
  fold t0. rewrite (tokenizer_run_tokens tks [] t0 _ ([], tok_end t0 tks) Ht Hw).
  - by rewrite app_nil_r.
  - simpl. by rewrite Next_end.
Qed.

Lemma enc_token_ok tk : wf_token tk -> bytes_ok (enc_token tk).
Proof.
  intros [Hop Hd]. unfold enc_token. destruct (tk_data tk) as [d|].
  - destruct Hd as [Hd _]. case_if; constructor; try done.
    apply bytes_ok_app. split; [apply le_encode_ok|done].
  - by apply Forall_singleton.
Qed.

Lemma enc_tokens_ok tks : Forall wf_token tks -> bytes_ok (enc_tokens tks).
Proof.
  unfold enc_tokens. induction 1; simpl; [constructor|].
  apply bytes_ok_app. split; [by apply enc_token_ok|done].
Qed.

Lemma enc_tokens_app l k : enc_tokens (l ++ k) = enc_tokens l ++ enc_tokens k.
Proof. unfold enc_tokens. by rewrite map_app, concat_app. Qed.

Lemma enc_tokens_snoc l tk : enc_tokens (l ++ [tk]) = enc_tokens l ++ enc_token tk.
Proof. rewrite enc_tokens_app. unfold enc_tokens at 2. simpl. by rewrite app_nil_r. Qed.

Lemma enc_tokens_cons tk l : enc_tokens (tk :: l) = enc_token tk ++ enc_tokens l.
Proof. done. Qed.
