(* ===== verification/ScriptBuilder.v ===== *)
(** * The script builder ([txscript/scriptbuilder.go])

    [ScriptBuilder] with its sticky error: once a push would exceed the script
    or element limits the script is left alone and every later call is a no-op.
    The theorems relate what the builder writes to what the tokenizer reads. *)

From Stdlib Require Import ZArith Lia.
From stdpp Require Import base list numbers option strings.
From S2P Require Import Prelude ScriptNum Tokenizer.

Definition MaxScriptSize : Z := 10000.
Definition MaxScriptElementSize : Z := 520.

(** [err] is set when a call hit a limit ([ErrScriptNotCanonical]). *)
Record ScriptBuilder : Type := mkBuilder { sb_script : bytes; sb_err : bool }.

Definition NewScriptBuilder : ScriptBuilder := {| sb_script := []; sb_err := false |}.

Definition sb_append (b : ScriptBuilder) (s : bytes) : ScriptBuilder :=
  {| sb_script := sb_script b ++ s; sb_err := sb_err b |}.

Definition sb_fail (b : ScriptBuilder) : ScriptBuilder :=
  {| sb_script := sb_script b; sb_err := true |}.

Definition ScriptBuilder_AddOp (opcode : Z) (b : ScriptBuilder) : ScriptBuilder :=
  if sb_err b then b
  else if MaxScriptSize <? len (sb_script b) + 1 then sb_fail b
  else sb_append b [opcode].

Definition ScriptBuilder_AddOps (opcodes : bytes) (b : ScriptBuilder) : ScriptBuilder :=
  if sb_err b then b
  else if MaxScriptSize <? len (sb_script b) + len opcodes then sb_fail b
  else sb_append b opcodes.

Definition canonicalDataSize (data : bytes) : Z :=
  let dataLen := len data in
  match data with
  | [] => 1
  | d :: r =>
      if (dataLen =? 1) && (d <=? 16) then 1
      else if (dataLen =? 1) && (d =? 0x81) then 1
      else if dataLen <? OP_PUSHDATA1 then 1 + dataLen
      else if dataLen <=? 0xff then 2 + dataLen
      else if dataLen <=? 0xffff then 3 + dataLen
      else 5 + dataLen
  end.

(** [addData]: no limits are checked here. *)
Definition addData (data : bytes) (b : ScriptBuilder) : ScriptBuilder :=
  let dataLen := len data in
  match data with
  | [] => sb_append b [OP_0]
  | d :: r =>
      if (dataLen =? 1) && (d =? 0) then sb_append b [OP_0]
      else if (dataLen =? 1) && (d <=? 16) then sb_append b [uint8 ((OP_1 - 1) + d)]
      else if (dataLen =? 1) && (d =? 0x81) then sb_append b [OP_1NEGATE]
      else
        let b :=
          if dataLen <? OP_PUSHDATA1 then sb_append b [uint8 ((OP_DATA_1 - 1) + dataLen)]
          else if dataLen <=? 0xff then sb_append b [OP_PUSHDATA1; uint8 dataLen]
          else if dataLen <=? 0xffff then sb_append b (OP_PUSHDATA2 :: le_encode 2 (uint16 dataLen))
          else sb_append b (OP_PUSHDATA4 :: le_encode 4 (uint32 dataLen)) in
        sb_append b data
  end.

Definition ScriptBuilder_AddFullData (data : bytes) (b : ScriptBuilder) : ScriptBuilder :=
  if sb_err b then b else addData data b.

Definition ScriptBuilder_AddData (data : bytes) (b : ScriptBuilder) : ScriptBuilder :=
  if sb_err b then b
  else
    let dataSize := canonicalDataSize data in
    if MaxScriptSize <? len (sb_script b) + dataSize then sb_fail b
    else if MaxScriptElementSize <? len data then sb_fail b
    else addData data b.

(** [AddInt64] reaches [scriptNum.Bytes], which panics on the smallest
    [int64]. *)
Definition ScriptBuilder_AddInt64 {E} (val : Z) (b : ScriptBuilder) : result E ScriptBuilder :=
  if sb_err b then Ok b
  else if MaxScriptSize <? len (sb_script b) + 1 then Ok (sb_fail b)
  else if val =? 0 then Ok (sb_append b [OP_0])
  else if (val =? -1) || ((1 <=? val) && (val <=? 16)) then
    Ok (sb_append b [uint8 ((OP_1 - 1) + val)])
  else
    match scriptNum_Bytes val with
    | Ok d => Ok (ScriptBuilder_AddData d b)
    | _ => Panic
    end.

Definition ScriptBuilder_Reset (b : ScriptBuilder) : ScriptBuilder := NewScriptBuilder.

(** [Script]: the script together with the error. *)
Definition ScriptBuilder_Script (b : ScriptBuilder) : option bytes :=
  if sb_err b then None else Some (sb_script b).

(** ** The instructions the builder writes *)

(** The instruction [AddData] chooses for [data]. *)
Definition push_token (data : bytes) : token :=
  match data with
  | [] => mkToken OP_0 None
  | d :: r =>
      if (len data =? 1) && (d =? 0) then mkToken OP_0 None
      else if (len data =? 1) && (d <=? 16) then mkToken (80 + d) None
      else if (len data =? 1) && (d =? 0x81) then mkToken OP_1NEGATE None
      else if len data <? OP_PUSHDATA1 then mkToken (len data) (Some data)
      else if len data <=? 0xff then mkToken OP_PUSHDATA1 (Some data)
      else if len data <=? 0xffff then mkToken OP_PUSHDATA2 (Some data)
      else mkToken OP_PUSHDATA4 (Some data)
  end.

(** Data that a small-integer opcode stands for: a single byte [0..16] or [0x81]. *)
Definition small_int_data (data : bytes) : bool :=
  match data with
  | [d] => (d <=? 16) || (d =? 0x81)
  | _ => false
  end.

Definition int_token (n : Z) : token :=
  if n =? 0 then mkToken OP_0 None
  else if (n =? -1) || ((1 <=? n) && (n <=? 16)) then mkToken (80 + n) None
  else match scriptNum_Bytes n with
       | Ok d => push_token d
       | _ => mkToken OP_0 None
       end.

Ltac opcode_length_lia :=
  match goal with
  | |- context [opcode_length ?o] => pose proof (opcode_length_cases o)
  end; lia.

Lemma push_token_wf data : bytes_ok data -> len data < 2 ^ 32 -> wf_token (push_token data).
Proof.
  intros Hok Hlen. unfold push_token. destruct data as [|d r].
  { split; [unfold is_byte; simpl; lia|done]. }
  pose proof Hok as [Hd _]%Forall_cons_iff. unfold is_byte in Hd.
  assert (Hpos : 1 <= len (d :: r)) by (rewrite len_cons; pose proof (len_nonneg r); lia).
  repeat case_if; unfold wf_token, is_byte; simpl tk_op; simpl tk_data; split;
    try lia; try opcode_length_lia; split; try done.
  - left. opcode_length_lia.
  - change (opcode_length 76) with (-1). lia.
  - change (opcode_length 77) with (-2). lia.
  - change (opcode_length 78) with (-4). lia.
Qed.

Lemma addData_token data b :
  bytes_ok data -> len data < 2 ^ 32 ->
  addData data b = sb_append b (enc_token (push_token data)).
Proof.
  intros Hok Hlen. unfold addData, push_token. destruct data as [|d r]; [done|].
  pose proof Hok as [Hd _]%Forall_cons_iff. unfold is_byte in Hd.
  assert (Hpos : 1 <= len (d :: r)) by (rewrite len_cons; pose proof (len_nonneg r); lia).
  set (data := d :: r) in *.
  assert (Happ : forall h, sb_append (sb_append b h) data = sb_append b (h ++ data)).
  { intros h. unfold sb_append. simpl. by rewrite app_assoc. }
  repeat case_if; rewrite ?Happ; unfold enc_token; simpl tk_data; simpl tk_op.
  - done.
  - by rewrite uint8_id by (unfold is_byte; lia).
  - done.
  - replace (opcode_length (len data)) with (len data + 1) by opcode_length_lia.
    z_test. rewrite uint8_id by (unfold is_byte; lia). do 3 f_equal; lia.
  - simpl. rewrite uint8_id by (unfold is_byte; lia). rewrite Z.mod_small by lia. done.
  - simpl. unfold uint16, wrap_u. rewrite (Z.mod_small (len data)) by lia. done.
  - simpl. unfold uint32, wrap_u. rewrite (Z.mod_small (len data)) by lia. done.
Qed.

Lemma canonicalDataSize_token data :
  bytes_ok data -> canonicalDataSize data = len (enc_token (push_token data)).
Proof.
  intros Hok. unfold canonicalDataSize, push_token. destruct data as [|d r]; [done|].
  pose proof Hok as [Hd _]%Forall_cons_iff. unfold is_byte in Hd.
  assert (Hpos : 1 <= len (d :: r)) by (rewrite len_cons; pose proof (len_nonneg r); lia).
  set (data := d :: r) in *.
  repeat case_if; try lia; unfold enc_token; simpl tk_data; simpl tk_op; try done.
  - replace (opcode_length (len data)) with (len data + 1) by opcode_length_lia.
    z_test. by rewrite len_cons.
  - simpl. rewrite !len_cons. lia.
  - simpl. rewrite !len_cons. lia.
  - simpl. rewrite !len_cons. lia.
Qed.

(** What a decoder gets from [Data()] for pushed [data]. *)
Lemma push_token_slice data :
  bytes_ok data -> small_int_data data = false -> slice (tk_data (push_token data)) = data.
Proof.
  intros Hok Hs. unfold push_token. destruct data as [|d r]; [done|].
  pose proof Hok as [Hd _]%Forall_cons_iff. unfold is_byte in Hd.
  destruct r as [|d' r].
  - simpl in Hs. apply orb_false_iff in Hs as [H1 H2]. bool_to_prop.
    change (len [d]) with 1. z_test. done.
  - rewrite !len_cons. pose proof (len_nonneg r).
    repeat case_if; bool_to_prop; done || lia.
Qed.

(** ** Integers *)

Lemma extractScriptInt64_value {E} v hi :
  bytes_ok (v ++ [hi]) -> len (v ++ [hi]) <= 8 ->
  extractScriptInt64 (E := E) (v ++ [hi]) = Ok (sm_value v hi).
Proof.
  intros [Hv Hhi]%bytes_ok_snoc Hlen. unfold extractScriptInt64. rewrite list.last_snoc.
  rewrite land_80 by done. rewrite len_app in *. change (len [hi]) with 1 in *.
  assert (Hl : (length (v ++ [hi]) <= 8)%nat) by (rewrite length_app; simpl; unfold len in Hlen; lia).
  rewrite take_ge by done. set (z := replicate (8 - length (v ++ [hi])) 0).
  assert (Hz : le_decode z = 0) by apply le_decode_zeros.
  pose proof (sm_mag_bound v hi Hv) as Hb. pose proof (len_nonneg v) as Hn.
  assert (256 ^ len v <= 256 ^ 7) by (apply Z.pow_le_mono_r; lia).
  unfold sm_value. destruct (Z.ltb_spec hi 128) as [Hlt|Hge]; simpl.
  - rewrite le_decode_app, Hz, sm_decode by done. destruct (Z.ltb_spec hi 128); [|lia].
    rewrite int64_id by (unfold is_int64; lia). f_equal. lia.
  - unfold index. replace (len v + 1 - 1) with (len v) by lia. z_test.
    unfold len at 1. rewrite Nat2Z.id, <- app_assoc. simpl. rewrite list_lookup_middle by done. simpl.
    rewrite length_app. simpl. replace (length v + 1 - 1)%nat with (length v + 0)%nat by lia.
    rewrite list.insert_app_r. simpl. rewrite land_7f by done.
    rewrite le_decode_app. simpl. rewrite Hz, Z.mul_0_r, Z.add_0_r. fold (sm_mag v hi).
    rewrite !int64_id by (unfold is_int64; rewrite ?int64_id; unfold is_int64; lia). done.
Qed.

Lemma int_token_data n :
  is_int64 n -> n <> - 2 ^ 63 -> n <> 0 -> n <> -1 -> ~ (1 <= n <= 16) ->
  exists d, scriptNum_Bytes n = Ok d /\ bytes_ok d /\ 1 <= len d <= 8
    /\ small_int_data d = false /\ int_token n = push_token d
    /\ forall E, extractScriptInt64 (E := E) d = Ok n.
Proof.
  intros Hn Hmin H0 H1 Hs.
  destruct (scriptNum_Bytes_spec n Hn Hmin H0) as (v & hi & Hb & Hok & Mv & Hv).
  pose proof (scriptNum_Bytes_len n _ Hn Hb) as [_ H8].
  exists (v ++ [hi]). split_and!; try done.
  - rewrite len_app. change (len [hi]) with 1. pose proof (len_nonneg v). lia.
  - destruct v as [|x v]; [|by destruct v]. simpl. unfold sm_value, sm_mag in Hv. simpl in Hv.
    change (256 ^ len []) with 1 in Hv. pose proof Hok as [Hhi _]%Forall_cons_iff. unfold is_byte in Hhi.
    apply orb_false_iff. split; [apply Z.leb_gt|apply Z.eqb_neq].
    + destruct (Z.ltb_spec hi 128); [|lia]. rewrite Z.mod_small in Hv by lia. lia.
    + intros ->. vm_compute in Hv. lia.
  - unfold int_token. rewrite Hb.
    destruct (Z.eqb_spec n 0); [done|]. destruct (Z.eqb_spec n (-1)); [done|].
    destruct (Z.leb_spec 1 n), (Z.leb_spec n 16); simpl; try done. lia.
  - intros E. by rewrite extractScriptInt64_value, Hv.
Qed.

Lemma push_token_data d :
  bytes_ok d -> small_int_data d = false -> 1 <= len d -> tk_data (push_token d) = Some d.
Proof.
  intros Hok Hs Hl. pose proof (push_token_slice d Hok Hs) as Hsl. revert Hsl.
  destruct (tk_data (push_token d)) as [e|]; simpl; [by intros ->|].
  intros <-. by change (len []) with 0 in Hl.
Qed.

(** Extracting the integer of the instruction written for [n]. *)
Lemma int_token_extract {E} n :
  is_int64 n -> n <> - 2 ^ 63 ->
  ExtractInt64FromScript (E := E) (tk_op (int_token n)) (tk_data (int_token n)) = Ok n
  /\ len (slice (tk_data (int_token n))) <= 8 /\ wf_token (int_token n).
Proof.
  intros Hn Hmin.
  destruct (Z.eq_dec n 0) as [->|H0]; [by repeat split|].
  destruct (Z.eq_dec n (-1)) as [->|H1]; [by repeat split|].
  destruct (Z_le_dec 1 n) as [Hge|Hlt]; [destruct (Z_le_dec n 16) as [Hle|Hgt]|].
  - unfold int_token. destruct (Z.eqb_spec n 0); [done|]. destruct (Z.eqb_spec n (-1)); [done|].
    destruct (Z.leb_spec 1 n), (Z.leb_spec n 16); try lia. simpl.
    unfold AsSmallInt. z_test. split_and!; [f_equal; lia|done|].
    split; simpl; [unfold is_byte; lia|opcode_length_lia].
  - destruct (int_token_data n) as (d & Hb & Hok & Hl & Hs & -> & Hx); try done; try lia.
    rewrite push_token_data by (done || lia). split_and!; [apply Hx|simpl; lia|].
    apply push_token_wf; [done|lia].
  - destruct (int_token_data n) as (d & Hb & Hok & Hl & Hs & -> & Hx); try done; try lia.
    rewrite push_token_data by (done || lia). split_and!; [apply Hx|simpl; lia|].
    apply push_token_wf; [done|lia].
Qed.

(** ** Sequences of builder calls *)

(** [b] holds the instructions [tks], unless a call has failed. *)
Definition built (b : ScriptBuilder) (tks : list token) : Prop :=
  sb_err b = false ->
  sb_script b = enc_tokens tks /\ Forall wf_token tks /\ len (sb_script b) <= MaxScriptSize.

Lemma built_new : built NewScriptBuilder [].
Proof. intros _. split_and!; [done|constructor|done]. Qed.

Lemma built_snoc b tks tk :
  built b tks -> sb_err b = false -> wf_token tk ->
  len (sb_script b) + len (enc_token tk) <= MaxScriptSize ->
  built (sb_append b (enc_token tk)) (tks ++ [tk]).
Proof.
  intros Hb He Hw Hl _. destruct (Hb He) as (Hs & Hws & _). simpl.
  rewrite Hs, enc_tokens_snoc, len_app in *.
  split_and!; [done|by apply Forall_app; split; [|apply Forall_singleton]|done].
Qed.

Lemma built_AddOp op b tks :
  is_byte op -> opcode_length op = 1 -> built b tks ->
  built (ScriptBuilder_AddOp op b) (tks ++ [mkToken op None]).
Proof.
  intros Hop HL Hb. unfold ScriptBuilder_AddOp. case_if; [intros ?; congruence|].
  case_if; [done|]. apply (built_snoc b tks (mkToken op None)); [done|done|by split|done].
Qed.

Lemma built_AddData d b tks :
  bytes_ok d -> built b tks -> built (ScriptBuilder_AddData d b) (tks ++ [push_token d]).
Proof.
  intros Hd Hb. unfold ScriptBuilder_AddData. case_if; [intros ?; congruence|].
  repeat (case_if; [done|]). unfold MaxScriptElementSize in *.
  rewrite addData_token by (done || lia). rewrite canonicalDataSize_token in * by done.
  apply built_snoc; [done|done|apply push_token_wf; [done|lia]|done].
Qed.

Lemma built_AddInt64 {E} n b b' tks :
  is_int64 n -> ScriptBuilder_AddInt64 (E := E) n b = Ok b' -> built b tks ->
  built b' (tks ++ [int_token n]).
Proof.
  intros Hn Ha Hb. unfold ScriptBuilder_AddInt64 in Ha. revert Ha.
  case_if; [intros [= <-] ?; congruence|].
  case_if; [by intros [= <-]|].
  unfold int_token. destruct (Z.eqb_spec n 0) as [->|H0].
  { intros [= <-]. apply (built_snoc b tks (mkToken OP_0 None)); done. }
  case_if.
  { intros [= <-]. rewrite uint8_id by (unfold is_byte; lia).
    apply (built_snoc b tks (mkToken (80 + n) None)); [done|done| |done].
    split; simpl; [unfold is_byte; lia|opcode_length_lia]. }
  destruct (scriptNum_Bytes n) as [d| |] eqn:Eb; [|done|done]. intros [= <-].
  apply built_AddData; [|done]. by apply (scriptNum_Bytes_len n d).
Qed.

#[export] Hint Resolve built_new built_AddOp built_AddData built_AddInt64 : bytes.

Lemma built_Script b tks s :
  built b tks -> ScriptBuilder_Script b = Some s ->
  s = enc_tokens tks /\ Forall wf_token tks /\ bytes_ok s /\ len s < 2 ^ 31.
Proof.
  unfold ScriptBuilder_Script. intros Hb Hs. destruct (sb_err b) eqn:He; [done|].
  injection Hs as <-. destruct (Hb He) as (Hs & Hw & Hl). unfold MaxScriptSize in Hl.
  split_and!; [done|done| |lia]. rewrite Hs. by apply enc_tokens_ok.
Qed.

(** A builder call, the instruction it writes, and a run of calls. *)
Inductive build_item : Type :=
| BOp (opcode : Z)
| BData (data : bytes)
| BInt (val : Z).

Definition build_step {E} (i : build_item) (b : ScriptBuilder) : result E ScriptBuilder :=
  match i with
  | BOp opcode => Ok (ScriptBuilder_AddOp opcode b)
  | BData data => Ok (ScriptBuilder_AddData data b)
  | BInt val => ScriptBuilder_AddInt64 val b
  end.

Fixpoint build {E} (items : list build_item) (b : ScriptBuilder) : result E ScriptBuilder :=
  match items with
  | [] => Ok b
  | i :: r => let! b := build_step i b in build r b
  end.

Definition item_token (i : build_item) : token :=
  match i with
  | BOp opcode => mkToken opcode None
  | BData data => push_token data
  | BInt val => int_token val
  end.

Definition item_ok (i : build_item) : Prop :=
  match i with
  | BOp opcode => is_byte opcode /\ opcode_length opcode = 1
  | BData data => bytes_ok data /\ len data <= MaxScriptElementSize
  | BInt val => is_int64 val /\ val <> - 2 ^ 63
  end.

(** What a decoder reads back from the tokenizer standing after the item. *)
Definition item_read (i : build_item) (t : ScriptTokenizer) : Prop :=
  match i with
  | BOp opcode => tok_op t = Some opcode /\ tok_data t = None
  | BData data => slice (tok_data t) = (if small_int_data data then [] else data)
  | BInt val => ScriptTokenizer_ExtractInt64 (E := ErrorCode) t = Ok val
                /\ len (slice (tok_data t)) <= 8
  end.

Lemma item_token_wf i : item_ok i -> wf_token (item_token i).
Proof.
  destruct i; simpl.
  - by intros [? ?].
  - intros [? ?]. unfold MaxScriptElementSize in *. apply push_token_wf; [done|lia].
  - intros [? ?]. by apply (int_token_extract (E := unit)).
Qed.

Lemma items_wf items : Forall item_ok items -> Forall wf_token (map item_token items).
Proof. induction 1; simpl; constructor; [by apply item_token_wf|done]. Qed.

Lemma push_token_small d :
  bytes_ok d -> small_int_data d = true -> tk_data (push_token d) = None.
Proof.
  intros Hok Hs. destruct d as [|d [|? ?]]; [done| |done]. simpl in Hs. unfold push_token.
  change (len [d]) with 1. simpl. destruct (d =? 0); [done|].
  destruct (d <=? 16); [done|]. destruct (d =? 0x81); done.
Qed.

Lemma item_read_step i t n : item_ok i -> item_read i (tok_step t (item_token i) n).
Proof.
  destruct i as [op|d|v]; simpl.
  - done.
  - intros [Hd _]. destruct (small_int_data d) eqn:Hs; [by rewrite push_token_small|].
    by apply push_token_slice.
  - intros [Hv Hm]. destruct (int_token_extract (E := ErrorCode) v Hv Hm) as (Hx & Hl & _).
    split; [|done]. unfold ScriptTokenizer_ExtractInt64, ScriptTokenizer_Opcode. simpl. done.
Qed.

Lemma item_read_trace items t :
  Forall item_ok items -> Forall2 item_read items (tok_trace t (map item_token items)).
Proof.
  intros Hi. revert t. induction Hi as [|i items Hi His IH]; intros t; simpl; constructor.
  - by apply item_read_step.
  - apply IH.
Qed.

(** One call succeeds when its instruction fits. *)
Lemma build_step_fits {E} i b :
  item_ok i -> sb_err b = false ->
  len (sb_script b) + len (enc_token (item_token i)) <= MaxScriptSize ->
  build_step (E := E) i b = Ok (sb_append b (enc_token (item_token i))).
Proof.
  intros Hi He Hl. pose proof (enc_token_nonempty (item_token i)) as Hne.
  assert (Hdata : forall d, bytes_ok d -> len d <= MaxScriptElementSize ->
            len (sb_script b) + len (enc_token (push_token d)) <= MaxScriptSize ->
            ScriptBuilder_AddData d b = sb_append b (enc_token (push_token d))).
  { intros d Hd Hd520 Hfit. unfold ScriptBuilder_AddData.
    rewrite He, canonicalDataSize_token by done. z_test.
    apply addData_token; [done|unfold MaxScriptElementSize in *; lia]. }
  destruct i as [op|d|v]; simpl in *.
  - destruct Hi as [Hop HL]. unfold ScriptBuilder_AddOp. rewrite He. z_test. done.
  - destruct Hi. by rewrite Hdata.
  - destruct Hi as [Hv Hm]. unfold ScriptBuilder_AddInt64, int_token in *. rewrite He. z_test.
    destruct (Z.eqb_spec v 0) as [->|H0]; [done|].
    destruct ((v =? -1) || ((1 <=? v) && (v <=? 16))) eqn:Ec.
    { bool_to_prop. rewrite uint8_id by (unfold is_byte; lia). done. }
    bool_to_prop. destruct (int_token_data v) as (d & Hb & Hok & Hd & _); try done; try lia.
    rewrite Hb in *. rewrite Hdata; [done|done|unfold MaxScriptElementSize; lia|done].
Qed.

Lemma build_fits {E} items b :
  Forall item_ok items -> sb_err b = false ->
  len (sb_script b) + len (enc_tokens (map item_token items)) <= MaxScriptSize ->
  build (E := E) items b = Ok (sb_append b (enc_tokens (map item_token items))).
Proof.
  intros Hi. revert b. induction Hi as [|i items Hi His IH]; intros b He Hl.
  { unfold sb_append, enc_tokens. simpl. destruct b; simpl in *. by rewrite app_nil_r, He. }
  cbn [build map]. unfold enc_tokens in *. cbn [map concat] in *. rewrite len_app in Hl.
  rewrite build_step_fits; [|done|done|pose proof (len_nonneg (concat (map enc_token (map item_token items)))); lia].
  simpl rbind. rewrite IH; [|done|simpl; rewrite len_app; lia].
  unfold sb_append. simpl. by rewrite app_assoc.
Qed.

(** C36: Builder/tokenizer round trip: any sequence of [AddOp], [AddData] and
    [AddInt64] calls whose instructions fit in [MaxScriptSize] succeeds, the
    script parses without error into exactly one instruction per call, and
    reading each back gives the opcode, the integer, or the data (a single byte
    in [0..16] or [0x81] is written as a small-integer opcode, for which
    [Data()] is empty). *)
Theorem builder_roundtrip (items : list build_item) :
  Forall item_ok items -> len (enc_tokens (map item_token items)) <= MaxScriptSize ->
  exists b s l t_end,
    build (E := ErrorCode) items NewScriptBuilder = Ok b /\ ScriptBuilder_Script b = Some s
    /\ tokenize (E := ErrorCode) s = Ok (l, t_end) /\ tok_err t_end = None
    /\ Forall2 item_read items l.
Proof.
  intros Hi Hl. set (tks := map item_token items) in *.
  pose proof (items_wf items Hi) as Hw. fold tks in Hw.
  exists (sb_append NewScriptBuilder (enc_tokens tks)), (enc_tokens tks),
    (tok_trace (MakeScriptTokenizer 0 (enc_tokens tks)) tks),
    (tok_end (MakeScriptTokenizer 0 (enc_tokens tks)) tks).
  unfold MaxScriptSize in Hl.
  destruct (tokenize_tokens (E := ErrorCode) tks Hw (enc_tokens_ok _ Hw) ltac:(lia)) as [Ht He].
  split_and!; [by apply build_fits|done|done|done|by apply item_read_trace].
Qed.

Lemma builder_roundtrip_witness :
  let items := [BOp OP_RETURN; BInt (-300); BData (str "ordx:f:pearl"); BInt 7] in
  exists b s l t_end,
    build (E := ErrorCode) items NewScriptBuilder = Ok b /\ ScriptBuilder_Script b = Some s
    /\ tokenize (E := ErrorCode) s = Ok (l, t_end) /\ tok_err t_end = None
    /\ Forall2 item_read items l.
Proof.
  apply (builder_roundtrip [BOp OP_RETURN; BInt (-300); BData (str "ordx:f:pearl"); BInt 7]).
  - repeat constructor; try (vm_compute; congruence); vm_compute; intuition congruence.
  - vm_compute. congruence.
Defined.

(** A call appends its instruction within the limit, or records an error and
    leaves the script alone. *)
Definition appended (b b' : ScriptBuilder) (tk : token) : Prop :=
  (b' = sb_append b (enc_token tk) /\ sb_err b = false /\ len (sb_script b') <= MaxScriptSize)
  \/ (sb_script b' = sb_script b /\ sb_err b' = true).

Lemma AddData_appended d b : bytes_ok d -> appended b (ScriptBuilder_AddData d b) (push_token d).
Proof.
  intros Hd. unfold ScriptBuilder_AddData, appended. destruct (sb_err b) eqn:He; [auto|].
  repeat (case_if; [by right|]). unfold MaxScriptElementSize in *.
  rewrite addData_token by (done || lia). rewrite canonicalDataSize_token in * by done.
  left. simpl. rewrite len_app. done.
Qed.

Lemma build_step_appended {E} i b b' :
  item_ok i -> build_step (E := E) i b = Ok b' -> appended b b' (item_token i).
Proof.
  intros Hi Hs. destruct i as [op|d|v]; simpl in *.
  - injection Hs as <-. unfold ScriptBuilder_AddOp, appended. destruct (sb_err b) eqn:He; [auto|].
    case_if; [by right|]. left. simpl. rewrite len_app. done.
  - injection Hs as <-. apply AddData_appended. by destruct Hi.
  - unfold ScriptBuilder_AddInt64, int_token in *.
    destruct (sb_err b) eqn:He; [simplify_eq; by right|].
    revert Hs. case_if; [intros [= <-]; by right|].
    destruct (Z.eqb_spec v 0) as [->|H0].
    { intros [= <-]. left. simpl. rewrite len_app. done. }
    case_if.
    { intros [= <-]. rewrite uint8_id by (unfold is_byte; lia). left. simpl. rewrite len_app. done. }
    destruct (scriptNum_Bytes v) as [d| |] eqn:Eb; [|done|done]. intros [= <-].
    apply AddData_appended. by apply (scriptNum_Bytes_len v d); [destruct Hi|].
Qed.

Lemma build_failed {E} items b b' :
  Forall item_ok items -> sb_err b = true -> build (E := E) items b = Ok b' ->
  sb_script b' = sb_script b /\ sb_err b' = true.
Proof.
  intros Hi. revert b. induction Hi as [|i items Hi His IH]; intros b He Hb; simpl in Hb.
  { by injection Hb as <-. }
  inv_bind Hb. apply build_step_appended in Hr as [(_ & ? & _)|[<- He']]; [congruence| |done].
  by apply IH.
Qed.

(** Builder limits: whatever the calls, the script never exceeds
    [MaxScriptSize], and it is the encoding of the calls up to the first one
    that failed (of all of them when there is no error). *)
Theorem builder_prefix (items : list build_item) (b : ScriptBuilder) :
  Forall item_ok items -> build (E := ErrorCode) items NewScriptBuilder = Ok b ->
  exists k, sb_script b = enc_tokens (map item_token (take k items))
    /\ len (sb_script b) <= MaxScriptSize
    /\ (sb_err b = false -> k = length items).
Proof.
  intros Hi Hb.
  assert (Hgen : forall b0, sb_err b0 = false -> len (sb_script b0) <= MaxScriptSize ->
    build (E := ErrorCode) items b0 = Ok b ->
    exists k, sb_script b = sb_script b0 ++ enc_tokens (map item_token (take k items))
      /\ len (sb_script b) <= MaxScriptSize /\ (sb_err b = false -> k = length items)).
  2: { by apply (Hgen NewScriptBuilder). }
  clear Hb. induction Hi as [|i items Hi His IH]; intros b0 He Hl Hb; simpl in Hb.
  { injection Hb as <-. exists 0%nat. unfold enc_tokens. simpl. by rewrite app_nil_r. }
  inv_bind Hb. apply build_step_appended in Hr as [(-> & _ & Hl')|[Hs He']]; [| |done].
  - destruct (IH (sb_append b0 (enc_token (item_token i))) He Hl' Hb) as (k & Hk & ? & Hkl). exists (S k). simpl.
    split_and!; [|done|intros Hf; by rewrite (Hkl Hf)].
    rewrite Hk. unfold enc_tokens. simpl. by rewrite app_assoc.
  - destruct (build_failed _ _ _ His He' Hb) as [Hs' Hf]. exists 0%nat. simpl.
    unfold enc_tokens. simpl. rewrite app_nil_r. split_and!; [congruence|congruence|].
    intros ?. congruence.
Qed.

Lemma builder_prefix_witness :
  let items := [BOp OP_DUP; BOp OP_HASH160; BData (replicate 20 7); BOp OP_EQUALVERIFY; BOp OP_CHECKSIG] in
  exists k, OP_DUP :: OP_HASH160 :: 20 :: replicate 20 7 ++ [OP_EQUALVERIFY; OP_CHECKSIG]
      = enc_tokens (map item_token (take k items))
    /\ len (OP_DUP :: OP_HASH160 :: 20 :: replicate 20 7 ++ [OP_EQUALVERIFY; OP_CHECKSIG]) <= MaxScriptSize
    /\ (false = false -> k = length items).
Proof.
  apply (builder_prefix
    [BOp OP_DUP; BOp OP_HASH160; BData (replicate 20 7); BOp OP_EQUALVERIFY; BOp OP_CHECKSIG]
    {| sb_script := OP_DUP :: OP_HASH160 :: 20 :: replicate 20 7 ++ [OP_EQUALVERIFY; OP_CHECKSIG];
       sb_err := false |}); [|reflexivity].
  repeat constructor; try (vm_compute; congruence); vm_compute; intuition congruence.
Defined.
