(* ===== verification/ScriptStack.v ===== *)
(** * The script machine's stacks ([txscript/stack.go])

    A stack is a slice whose last element is the top.  The operations are
    written over that slice with the [int32] depth and the index arithmetic of
    the source; the theorems give their effect in the notation of the source's
    own comments ([... x1 x2 x3] -> [... x2 x3 x1]). *)

From Stdlib Require Import ZArith Lia.
From stdpp Require Import base list numbers option.
From S2P Require Import Prelude ScriptNum Tokenizer.

Fixpoint asBool (t : bytes) : bool :=
  match t with
  | [] => false
  | b :: r =>
      if b =? 0 then asBool r
      else negb (bool_decide (r = []) && (b =? 0x80))
  end.

Definition fromBool (v : bool) : bytes := if v then [1] else [].

Record stack : Type := mkStack { stk : list bytes; verifyMinimalData : bool }.

Definition set_stk (s : stack) (l : list bytes) : stack :=
  {| stk := l; verifyMinimalData := verifyMinimalData s |}.

Definition stack_Depth (s : stack) : Z := int32 (len (stk s)).

Definition stack_PushByteArray (so : bytes) (s : stack) : stack := set_stk s (stk s ++ [so]).

Definition stack_PushInt (val : Z) (s : stack) : outcome stack :=
  let! b := scriptNum_Bytes val in
  Ok (stack_PushByteArray b s).

Definition stack_PushBool (val : bool) (s : stack) : stack := stack_PushByteArray (fromBool val) s.

(** [nipN]: the three ways the source closes the gap. *)
Definition stack_nipN (idx : Z) (s : stack) : outcome (bytes * stack) :=
  let sz := int32 (len (stk s)) in
  if (idx <? 0) || (sz - 1 <? idx) then Err ErrInvalidStackOperation
  else
    let! so := unwrap (index (stk s) (sz - idx - 1)) in
    if idx =? 0 then Ok (so, set_stk s (take (Z.to_nat (sz - 1)) (stk s)))
    else if idx =? sz - 1 then Ok (so, set_stk s (take (Z.to_nat (sz - 1)) (drop 1 (stk s))))
    else
      let s1 := take (Z.to_nat idx) (drop (Z.to_nat (sz - idx)) (stk s)) in
      Ok (so, set_stk s (take (Z.to_nat (sz - idx - 1)) (stk s) ++ s1)).

Definition stack_PopByteArray (s : stack) : outcome (bytes * stack) := stack_nipN 0 s.

Definition stack_PopInt (s : stack) : outcome (Z * stack) :=
  let! '(so, s) := stack_PopByteArray s in
  let! v := MakeScriptNum so (verifyMinimalData s) maxScriptNumLen in
  Ok (v, s).

Definition stack_PopBool (s : stack) : outcome (bool * stack) :=
  let! '(so, s) := stack_PopByteArray s in
  Ok (asBool so, s).

Definition stack_PeekByteArray (idx : Z) (s : stack) : outcome bytes :=
  let sz := int32 (len (stk s)) in
  if (idx <? 0) || (sz <=? idx) then Err ErrInvalidStackOperation
  else unwrap (index (stk s) (sz - idx - 1)).

Definition stack_PeekInt (idx : Z) (s : stack) : outcome Z :=
  let! so := stack_PeekByteArray idx s in
  MakeScriptNum so (verifyMinimalData s) maxScriptNumLen.

Definition stack_PeekBool (idx : Z) (s : stack) : outcome bool :=
  let! so := stack_PeekByteArray idx s in
  Ok (asBool so).

Definition stack_NipN (idx : Z) (s : stack) : outcome stack :=
  let! '(_, s) := stack_nipN idx s in
  Ok s.

Definition stack_Tuck (s : stack) : outcome stack :=
  let! '(so2, s) := stack_PopByteArray s in
  let! '(so1, s) := stack_PopByteArray s in
  let s := stack_PushByteArray so2 s in
  let s := stack_PushByteArray so1 s in
  Ok (stack_PushByteArray so2 s).

(** A counted loop [for i := n; i > 0; i--] whose body may fail. *)
Fixpoint repeat_n {A : Type} (n : nat) (body : A -> outcome A) (a : A) : outcome A :=
  match n with
  | O => Ok a
  | S m => let! a := body a in repeat_n m body a
  end.

(** The loop bodies: pop and discard, copy the entry to the top, move the entry
    to the top. *)
Definition pop_top (s : stack) : outcome stack :=
  let! '(_, s) := stack_PopByteArray s in
  Ok s.

Definition copy_entry (entry : Z) (s : stack) : outcome stack :=
  let! so := stack_PeekByteArray entry s in
  Ok (stack_PushByteArray so s).

Definition move_entry (entry : Z) (s : stack) : outcome stack :=
  let! '(so, s) := stack_nipN entry s in
  Ok (stack_PushByteArray so s).

Definition stack_DropN (n : Z) (s : stack) : outcome stack :=
  if n <? 1 then Err ErrInvalidStackOperation
  else repeat_n (Z.to_nat n) pop_top s.

Definition stack_DupN (n : Z) (s : stack) : outcome stack :=
  if n <? 1 then Err ErrInvalidStackOperation
  else repeat_n (Z.to_nat n) (copy_entry (n - 1)) s.

Definition stack_RotN (n : Z) (s : stack) : outcome stack :=
  if n <? 1 then Err ErrInvalidStackOperation
  else repeat_n (Z.to_nat n) (move_entry (int32 (3 * n - 1))) s.

Definition stack_SwapN (n : Z) (s : stack) : outcome stack :=
  if n <? 1 then Err ErrInvalidStackOperation
  else repeat_n (Z.to_nat n) (move_entry (int32 (2 * n - 1))) s.

Definition stack_OverN (n : Z) (s : stack) : outcome stack :=
  if n <? 1 then Err ErrInvalidStackOperation
  else repeat_n (Z.to_nat n) (copy_entry (int32 (2 * n - 1))) s.

Definition stack_PickN (n : Z) (s : stack) : outcome stack := copy_entry n s.

Definition stack_RollN (n : Z) (s : stack) : outcome stack := move_entry n s.

(** [getStack]: element [i] from the top goes to place [len-i-1]; an error of
    [PeekByteArray] would leave a nil element. *)
Definition getStack (s : stack) : outcome (list bytes) :=
  let fix go (i : nat) (array : list bytes) : outcome (list bytes) :=
    match i with
    | O => Ok array
    | S j =>
        let i := Z.to_nat (stack_Depth s) - S j in
        let! x := match stack_PeekByteArray (Z.of_nat i) s with
                  | Ok x => Ok x
                  | Err _ => Ok []
                  | Panic => Panic
                  end in
        go j (<[(length array - i - 1)%nat := x]> array)
    end%nat in
  go (Z.to_nat (stack_Depth s)) (replicate (Z.to_nat (stack_Depth s)) []).

(** [setStack] ignores the error of [DropN], which leaves the stack alone when
    it is already empty. *)
Definition setStack (s : stack) (data : list bytes) : outcome stack :=
  let! s := match stack_DropN (stack_Depth s) s with
            | Ok s' => Ok s'
            | Err _ => Ok s
            | Panic => Panic
            end in
  Ok (fold_left (fun s d => stack_PushByteArray d s) data s).

Example stack_ex :
  stack_RotN 1 (mkStack [[9]; [1]; [2]; [3]] false) = Ok (mkStack [[9]; [2]; [3]; [1]] false)
  /\ stack_SwapN 2 (mkStack [[1]; [2]; [3]; [4]] false) = Ok (mkStack [[3]; [4]; [1]; [2]] false)
  /\ getStack (mkStack [[1]; [2]; [3]] false) = Ok [[1]; [2]; [3]]
  /\ setStack (mkStack [] false) [[1]; [2]] = Ok (mkStack [[1]; [2]] false).
Proof. repeat split. Qed.

(** ** Positions

    An item is named by what lies below and above it. *)

Section Positions.
Context (s : stack) (Hsmall : len (stk s) < 2 ^ 31).

Lemma depth_len : stack_Depth s = len (stk s).
Proof. apply int32_id. unfold is_int32. pose proof (len_nonneg (stk s)). lia. Qed.

Lemma split_at idx :
  0 <= idx < len (stk s) -> exists a x b, stk s = a ++ x :: b /\ len b = idx.
Proof.
  intros Hi. unfold len in *.
  destruct (lookup_lt_is_Some_2 (stk s) (length (stk s) - Z.to_nat idx - 1)) as [x Hx]; [lia|].
  apply list_elem_of_split_length in Hx as (a & b & Heq & Hlen).
  exists a, x, b. split; [done|]. rewrite Heq, length_app in Hi, Hlen. simpl in *. lia.
Qed.

Lemma index_mid {A} (a b : list A) x i : i = len a -> index (a ++ x :: b) i = Some x.
Proof.
  intros ->. unfold index. pose proof (len_nonneg a). z_test. unfold len. rewrite Nat2Z.id.
  by apply list_lookup_middle.
Qed.

Lemma nipN_mid a x b : stk s = a ++ x :: b -> stack_nipN (len b) s = Ok (x, set_stk s (a ++ b)).
Proof.
  intros Heq. unfold stack_nipN. pose proof depth_len as Hd. unfold stack_Depth in Hd. rewrite Hd.
  rewrite Heq, len_app, len_cons. pose proof (len_nonneg a). pose proof (len_nonneg b).
  z_test. rewrite index_mid by lia. simpl.
  case_if; [|case_if].
  - apply len_0 in Heqb0 as ->. do 3 f_equal. rewrite app_nil_r. change (len []) with 0.
    apply take_len_app. lia.
  - assert (a = []) as -> by (apply len_0; lia). do 3 f_equal. simpl. rewrite drop_0.
    rewrite <- (app_nil_r b) at 2. apply take_len_app. change (len []) with 0. lia.
  - do 3 f_equal. replace (len a + (1 + len b) - len b - 1) with (len a) by lia.
    rewrite take_len_app by done. f_equal.
    replace (a ++ x :: b) with ((a ++ [x]) ++ b) by (by rewrite <- app_assoc).
    rewrite drop_len_app by (rewrite len_app; change (len [x]) with 1; lia).
    rewrite <- (app_nil_r b) at 2. by apply take_len_app.
Qed.

Lemma nipN_err idx : idx < 0 \/ len (stk s) <= idx -> stack_nipN idx s = Err ErrInvalidStackOperation.
Proof.
  intros Hi. unfold stack_nipN. pose proof depth_len as Hd. unfold stack_Depth in Hd. rewrite Hd.
  destruct (Z.ltb_spec idx 0), (Z.ltb_spec (len (stk s) - 1) idx); simpl; done || lia.
Qed.

Lemma peek_mid a x b : stk s = a ++ x :: b -> stack_PeekByteArray (len b) s = Ok x.
Proof.
  intros Heq. unfold stack_PeekByteArray. pose proof depth_len as Hd. unfold stack_Depth in Hd.
  rewrite Hd, Heq, len_app, len_cons. pose proof (len_nonneg a). pose proof (len_nonneg b).
  z_test. rewrite index_mid by lia. done.
Qed.

Lemma peek_err idx :
  idx < 0 \/ len (stk s) <= idx -> stack_PeekByteArray idx s = Err ErrInvalidStackOperation.
Proof.
  intros Hi. unfold stack_PeekByteArray. pose proof depth_len as Hd. unfold stack_Depth in Hd.
  rewrite Hd. destruct (Z.ltb_spec idx 0), (Z.leb_spec (len (stk s)) idx); simpl; done || lia.
Qed.

(** An access succeeds at a position of the stack and is an error elsewhere. *)
Lemma nipN_cases idx :
  (exists a x b, stk s = a ++ x :: b /\ len b = idx /\ stack_nipN idx s = Ok (x, set_stk s (a ++ b)))
  \/ ((idx < 0 \/ len (stk s) <= idx) /\ stack_nipN idx s = Err ErrInvalidStackOperation).
Proof.
  destruct (decide (0 <= idx < len (stk s))) as [Hi|Hi].
  - left. destruct (split_at idx Hi) as (a & x & b & Heq & <-). exists a, x, b.
    split_and!; [done|done|by apply nipN_mid].
  - right. split; [lia|]. apply nipN_err. lia.
Qed.

Lemma peek_cases idx :
  (exists a x b, stk s = a ++ x :: b /\ len b = idx /\ stack_PeekByteArray idx s = Ok x)
  \/ ((idx < 0 \/ len (stk s) <= idx) /\ stack_PeekByteArray idx s = Err ErrInvalidStackOperation).
Proof.
  destruct (decide (0 <= idx < len (stk s))) as [Hi|Hi].
  - left. destruct (split_at idx Hi) as (a & x & b & Heq & <-). exists a, x, b.
    split_and!; [done|done|by apply (peek_mid a)].
  - right. split; [lia|]. apply peek_err. lia.
Qed.

End Positions.

(** ** Loops over the stack *)

Lemma stk_set s l : stk (set_stk s l) = l.
Proof. done. Qed.

Lemma pop_snoc s l x :
  len (stk s) < 2 ^ 31 -> stk s = l ++ [x] -> stack_PopByteArray s = Ok (x, set_stk s l).
Proof.
  intros Hs Heq. unfold stack_PopByteArray. change 0 with (len (@nil bytes)).
  rewrite (nipN_mid s Hs l x []) by done. by rewrite app_nil_r.
Qed.

Lemma pop_empty s : stk s = [] -> stack_PopByteArray s = Err ErrInvalidStackOperation.
Proof. intros Heq. apply nipN_err; rewrite Heq; [done|]. right. done. Qed.

Lemma pop_top_snoc s l x :
  len (stk s) < 2 ^ 31 -> stk s = l ++ [x] -> pop_top s = Ok (set_stk s l).
Proof. intros Hs Heq. unfold pop_top. by rewrite (pop_snoc s l x). Qed.

Lemma DropN_spec s a b :
  len (stk s) < 2 ^ 31 -> stk s = a ++ b -> 1 <= len b -> stack_DropN (len b) s = Ok (set_stk s a).
Proof.
  intros Hs Heq Hb. unfold stack_DropN. z_test. unfold len at 1. rewrite Nat2Z.id. clear Hb.
  revert s Hs Heq. induction b as [|x b IH] using rev_ind; intros s Hs Heq.
  { rewrite app_nil_r in Heq. simpl. destruct s; simpl in *. by subst. }
  rewrite length_app, Nat.add_comm. simpl. rewrite app_assoc in Heq.
  rewrite (pop_top_snoc s _ _ Hs Heq). simpl. rewrite IH; [done| |done].
  simpl. rewrite Heq, len_app in Hs. pose proof (len_nonneg [x]). lia.
Qed.

Lemma DropN_all s :
  len (stk s) < 2 ^ 31 ->
  match stack_DropN (stack_Depth s) s with
  | Ok s' => Ok s'
  | Err _ => Ok s
  | Panic => Panic
  end = Ok (E := ErrorCode) (set_stk s []).
Proof.
  intros Hs. rewrite (depth_len s Hs). destruct (decide (1 <= len (stk s))) as [H1|H1].
  - by rewrite (DropN_spec s [] (stk s)).
  - unfold stack_DropN. pose proof (len_nonneg (stk s)). z_test.
    assert (Hn : stk s = []) by (apply len_0; lia). unfold set_stk. destruct s; simpl in *. by subst.
Qed.

Lemma setStack_spec s data : len (stk s) < 2 ^ 31 -> setStack s data = Ok (set_stk s data).
Proof.
  intros Hs. unfold setStack. rewrite (DropN_all s Hs). simpl.
  change data with ([] ++ data) at 2. generalize (@nil bytes) as l.
  induction data as [|d data IH]; intros l; simpl; [by rewrite app_nil_r|].
  change (stack_PushByteArray d (set_stk s l)) with (set_stk s (l ++ [d])).
  rewrite IH. by rewrite <- app_assoc.
Qed.

Lemma peek_top i s l x k :
  len (stk s) < 2 ^ 31 -> stk s = l ++ x :: k -> i = len k -> stack_PeekByteArray i s = Ok x.
Proof. intros Hs Heq ->. by apply (peek_mid s Hs l). Qed.

Lemma getStack_spec s : len (stk s) < 2 ^ 31 -> getStack s = Ok (stk s).
Proof.
  intros Hs. unfold getStack. rewrite (depth_len s Hs). unfold len. rewrite Nat2Z.id.
  set (n := length (stk s)).
  match goal with |- ?go n _ = _ => set (g := go) end.
  assert (Hg : forall (j : nat) (a b : list bytes), stk s = a ++ b -> length a = j ->
            g j (replicate j [] ++ b) = Ok (stk s)).
  { induction j as [|j IH]; intros a b Heq Ha.
    - destruct a; [|done]. simpl. by rewrite Heq.
    - destruct a as [|x a _] using rev_ind; [done|]. rewrite length_app in Ha. simpl in Ha.
      simpl g. assert (Hn : n = (length a + 1 + length b)%nat).
      { unfold n. rewrite Heq, !length_app. simpl. lia. }
      rewrite (peek_top _ s a x b Hs); [|by rewrite Heq, <- app_assoc|unfold len; lia].
      simpl. change ([] :: replicate j [] ++ b) with (replicate (S j) [] ++ b).
      rewrite length_app, length_replicate, replicate_S_end, <- app_assoc. simpl.
      rewrite list.insert_app_r_alt by (rewrite length_replicate; lia).
      rewrite length_replicate. replace (S (j + length b) - (n - S j) - 1 - j)%nat with 0%nat by lia.
      simpl. apply (IH a (x :: b)); [|lia]. by rewrite Heq, <- app_assoc. }
  replace (replicate n []) with (replicate n (@nil Z) ++ []) by apply app_nil_r.
  apply (Hg n (stk s) []); [|done]. by rewrite app_nil_r.
Qed.

(** ** The rearranging operations *)

Lemma move_entry_mid i s l x k :
  len (stk s) < 2 ^ 31 -> stk s = l ++ x :: k -> i = len k ->
  move_entry i s = Ok (set_stk s (l ++ k ++ [x])).
Proof.
  intros Hs Heq ->. unfold move_entry. rewrite (nipN_mid s Hs l x k) by done. simpl.
  unfold stack_PushByteArray, set_stk. simpl. by rewrite <- app_assoc.
Qed.

Lemma copy_entry_mid i s l x k :
  len (stk s) < 2 ^ 31 -> stk s = l ++ x :: k -> i = len k ->
  copy_entry i s = Ok (set_stk s (stk s ++ [x])).
Proof. intros Hs Heq Hi. unfold copy_entry. by rewrite (peek_top i s l x k). Qed.

(** Moving the entry [length c + length r] deep to the top, once per item of [a]. *)
Lemma move_entries a c r base s entry :
  len (stk s) < 2 ^ 31 -> stk s = base ++ a ++ c ++ r ->
  entry = len a + len c + len r - 1 ->
  repeat_n (length a) (move_entry entry) s = Ok (set_stk s (base ++ c ++ r ++ a)).
Proof.
  intros Hs Heq He. revert r s Hs Heq He. induction a as [|x a IH]; intros r s Hs Heq He; simpl.
  { rewrite app_nil_r. destruct s; simpl in *. by subst. }
  rewrite len_cons in He.
  rewrite (move_entry_mid _ _ base x (a ++ c ++ r) Hs) by (done || rewrite !len_app; lia). simpl.
  rewrite (IH (r ++ [x])).
  - unfold set_stk. simpl. by rewrite <- (app_assoc r [x] a).
  - simpl. rewrite Heq in Hs. len_lia.
  - simpl. by rewrite <- !app_assoc.
  - len_lia.
Qed.

(** Copying the entry [length c + length r] deep to the top, once per item of [a]. *)
Lemma copy_entries a c r base s entry :
  len (stk s) + len a < 2 ^ 31 -> stk s = base ++ a ++ c ++ r ->
  entry = len a + len c + len r - 1 ->
  repeat_n (length a) (copy_entry entry) s = Ok (set_stk s (stk s ++ a)).
Proof.
  revert r base s. induction a as [|x a IH]; intros r base s Hs Heq He; simpl.
  { rewrite app_nil_r. destruct s; simpl in *. by subst. }
  rewrite len_cons in He, Hs. pose proof (len_nonneg a).
  rewrite (copy_entry_mid entry s base x (a ++ c ++ r)); [|lia|done|rewrite !len_app; lia]. simpl.
  rewrite (IH (r ++ [x]) (base ++ [x])).
  - unfold set_stk. simpl. by rewrite <- app_assoc.
  - simpl. len_lia.
  - simpl. rewrite Heq, <- !app_assoc. done.
  - len_lia.
Qed.

(** The rearranging stack operations do what their comments draw: with [a],
    [b] and [c] groups of [n] items, [RotN(n)] turns [... a b c] into
    [... b c a], [SwapN(n)] turns [... a b] into [... b a], [OverN(n)] turns
    [... a b] into [... a b a], [DupN(n)] turns [... a] into [... a a] and
    [DropN(n)] turns [... a] into [...]. *)
Theorem stack_rearrange (s : stack) (base a b c : list bytes) (n : Z) :
  1 <= n -> len a = n -> len b = n -> len c = n -> len base + 4 * n < 2 ^ 31 ->
  stack_RotN n (set_stk s (base ++ a ++ b ++ c)) = Ok (set_stk s (base ++ b ++ c ++ a))
  /\ stack_SwapN n (set_stk s (base ++ a ++ b)) = Ok (set_stk s (base ++ b ++ a))
  /\ stack_OverN n (set_stk s (base ++ a ++ b)) = Ok (set_stk s (base ++ a ++ b ++ a))
  /\ stack_DupN n (set_stk s (base ++ a)) = Ok (set_stk s (base ++ a ++ a))
  /\ stack_DropN n (set_stk s (base ++ a)) = Ok (set_stk s base).
Proof.
  intros Hn Ha Hb Hc Hl. unfold stack_RotN, stack_SwapN, stack_OverN, stack_DupN. z_test.
  pose proof (len_nonneg base).
  assert (Hna : Z.to_nat n = length a) by (unfold len in Ha; lia). rewrite Hna.
  rewrite !int32_id by (unfold is_int32; lia).
  split_and!.
  - rewrite (move_entries a b c base); simpl; rewrite ?len_app; lia || done.
  - rewrite (move_entries a b [] base); simpl; rewrite ?app_nil_r, ?len_app; change (len []) with 0; lia || done.
  - rewrite (copy_entries a b [] base); simpl; rewrite ?app_nil_r, ?len_app; change (len []) with 0; try lia; try done.
    by rewrite <- !app_assoc.
  - rewrite (copy_entries a [] [] base); simpl; rewrite ?app_nil_r, ?len_app; change (len []) with 0; try lia; try done.
    by rewrite <- !app_assoc.
  - rewrite <- Ha. rewrite (DropN_spec _ base a); simpl; rewrite ?len_app; lia || done.
Qed.

Lemma stack_rearrange_witness :
  let s := mkStack [] false in
  stack_RotN 2 (set_stk s ([[0]] ++ [[1]; [2]] ++ [[3]; [4]] ++ [[5]; [6]]))
    = Ok (set_stk s ([[0]] ++ [[3]; [4]] ++ [[5]; [6]] ++ [[1]; [2]]))
  /\ stack_SwapN 2 (set_stk s ([[0]] ++ [[1]; [2]] ++ [[3]; [4]]))
    = Ok (set_stk s ([[0]] ++ [[3]; [4]] ++ [[1]; [2]]))
  /\ stack_OverN 2 (set_stk s ([[0]] ++ [[1]; [2]] ++ [[3]; [4]]))
    = Ok (set_stk s ([[0]] ++ [[1]; [2]] ++ [[3]; [4]] ++ [[1]; [2]]))
  /\ stack_DupN 2 (set_stk s ([[0]] ++ [[1]; [2]])) = Ok (set_stk s ([[0]] ++ [[1]; [2]] ++ [[1]; [2]]))
  /\ stack_DropN 2 (set_stk s ([[0]] ++ [[1]; [2]])) = Ok (set_stk s [[0]]).
Proof.
  apply (stack_rearrange (mkStack [] false) [[0]] [[1]; [2]] [[3]; [4]] [[5]; [6]] 2);
    reflexivity || lia.
Defined.

(** ** Safety

    On a stack of legal elements every operation either fails or returns such a
    stack; none panics. *)

Definition elem_ok (b : bytes) : Prop := bytes_ok b /\ len b <= 520.

(** At most [n] elements, all legal, with the given minimality flag. *)
Record sfit (m : bool) (n : Z) (s : stack) : Prop := mkSfit {
  sf_elems : Forall elem_ok (stk s);
  sf_len : len (stk s) <= n;
  sf_min : verifyMinimalData s = m;
}.

Lemma sfit_mono m n n' s : sfit m n s -> n <= n' -> sfit m n' s.
Proof. intros [? ? ?] ?. constructor; done || lia. Qed.

Lemma sfit_set_stk m n s l : sfit m n s -> Forall elem_ok l -> len l <= n -> sfit m n (set_stk s l).
Proof. intros [? ? ?] ? ?. by constructor. Qed.

Lemma elem_ok_nil : elem_ok [].
Proof. split; [constructor|done]. Qed.

Lemma elem_ok_bool b : elem_ok (fromBool b).
Proof. destruct b; [|apply elem_ok_nil]. split; [repeat constructor; lia|done]. Qed.

Section StackSafety.
Context (m : bool) (n : Z) (Hn : n < 2 ^ 31 - 8).

Lemma nipN_wp idx s :
  sfit m n s -> wp (stack_nipN idx s) (fun '(x, s') => elem_ok x /\ sfit m (n - 1) s').
Proof.
  intros [He Hl Hm].
  destruct (nipN_cases s ltac:(lia) idx) as [(a & x & b & Heq & _ & ->)|[_ ->]]; [|done].
  rewrite Heq in He, Hl. apply Forall_app in He as [Ha [Hx Hb]%Forall_cons_iff].
  rewrite len_app, len_cons in Hl. split; [done|]. constructor; simpl; [|len_lia|done].
  by apply Forall_app.
Qed.

Lemma pop_wp s :
  sfit m n s -> wp (stack_PopByteArray s) (fun '(x, s') => elem_ok x /\ sfit m (n - 1) s').
Proof. apply nipN_wp. Qed.

Lemma peek_wp idx s : sfit m n s -> wp (stack_PeekByteArray idx s) elem_ok.
Proof.
  intros [He Hl Hm].
  destruct (peek_cases s ltac:(lia) idx) as [(a & x & b & Heq & _ & ->)|[_ ->]]; [|done].
  rewrite Heq in He. by apply Forall_app in He as [_ [Hx _]%Forall_cons_iff].
Qed.

Lemma push_fit b s : elem_ok b -> sfit m n s -> sfit m (n + 1) (stack_PushByteArray b s).
Proof.
  intros Hb [He Hl Hm]. constructor; simpl; [|rewrite len_app; change (len [b]) with 1; lia|done].
  by apply Forall_app_2; [|constructor].
Qed.

Lemma PushInt_wp v s :
  is_int64 v -> v <> - 2 ^ 63 -> sfit m n s -> wp (stack_PushInt v s) (sfit m (n + 1)).
Proof.
  intros Hv Hmin Hs. unfold stack_PushInt.
  apply (wp_bind _ _ elem_ok).
  - destruct (Z.eq_dec v 0) as [->|Hz]; [apply elem_ok_nil|].
    destruct (scriptNum_Bytes_spec v Hv Hmin Hz) as (w & hi & Hb & _).
    destruct (scriptNum_Bytes_len v _ Hv Hb). rewrite Hb. split; [done|lia].
  - intros b Hb. by apply push_fit.
Qed.

Lemma PopInt_wp s :
  sfit m n s ->
  wp (stack_PopInt s) (fun '(v, s') => - (2 ^ 31 - 1) <= v <= 2 ^ 31 - 1 /\ sfit m (n - 1) s').
Proof.
  intros Hs. unfold stack_PopInt. eapply wp_bind; [by apply pop_wp|]. intros [x s'] [Hx Hs'].
  apply wp_intro.
  - apply rbind_no_panic; [apply MakeScriptNum_no_panic|done].
  - intros a Ha. inv_bind Ha. injection Ha as <-. split; [|done].
    eapply MakeScriptNum_operand; [|done]. apply Hx.
Qed.

Lemma PopBool_wp s : sfit m n s -> wp (stack_PopBool s) (fun '(_, s') => sfit m (n - 1) s').
Proof. intros Hs. unfold stack_PopBool. eapply wp_bind; [by apply pop_wp|]. by intros [x s'] [_ Hs']. Qed.

End StackSafety.

Lemma repeat_n_wp {A} (body : A -> outcome A) (I : Z -> A -> Prop) (d k : nat) a :
  (forall i a, (i < k)%nat -> I (Z.of_nat (d * i)) a -> wp (body a) (I (Z.of_nat (d * S i)))) ->
  I 0 a -> wp (repeat_n k body a) (I (Z.of_nat (d * k))).
Proof.
  intros Hb. enough (H : forall j i a, (i + j = k)%nat -> I (Z.of_nat (d * i)) a ->
    wp (repeat_n j body a) (I (Z.of_nat (d * k)))).
  { intros Ha. apply (H k 0%nat); [done|]. by rewrite Nat.mul_0_r. }
  induction j as [|j IH]; intros i b Hi Hb'; simpl.
  { by replace k with i by lia. }
  eapply wp_bind; [apply (Hb i); [lia|done]|]. intros c Hc. apply (IH (S i)); [lia|done].
Qed.

Section RearrangeSafety.
Context (m : bool).

Lemma move_entry_wp n idx s : n < 2 ^ 31 - 8 -> sfit m n s -> wp (move_entry idx s) (sfit m n).
Proof.
  intros Hn Hs. unfold move_entry. eapply wp_bind; [by apply (nipN_wp m n)|]. intros [x s'] [Hx Hs'].
  apply wp_ok. eapply sfit_mono; [by apply push_fit|lia].
Qed.

Lemma copy_entry_wp n idx s :
  n < 2 ^ 31 - 8 -> sfit m n s -> wp (copy_entry idx s) (sfit m (n + 1)).
Proof.
  intros Hn Hs. unfold copy_entry. eapply wp_bind; [by apply (peek_wp m n)|]. intros x Hx.
  apply wp_ok. by apply push_fit.
Qed.

Lemma pop_top_wp n s : n < 2 ^ 31 - 8 -> sfit m n s -> wp (pop_top s) (sfit m n).
Proof.
  intros Hn Hs. unfold pop_top. eapply wp_bind; [by apply (pop_wp m n)|]. intros [x s'] [_ Hs'].
  apply wp_ok. eapply sfit_mono; [done|lia].
Qed.

(** The loops that keep the depth. *)
Lemma keep_loop_wp n k body s :
  (forall s, sfit m n s -> wp (body s) (sfit m n)) -> sfit m n s ->
  wp (if k <? 1 then Err ErrInvalidStackOperation else repeat_n (Z.to_nat k) body s) (sfit m n).
Proof.
  intros Hb Hs. case_if; [done|]. apply (repeat_n_wp body (fun _ => sfit m n) 0); auto.
Qed.

(** The loops that push once per turn. *)
Lemma grow_loop_wp n k entry s :
  n + k < 2 ^ 31 - 8 -> sfit m n s ->
  wp (if k <? 1 then Err ErrInvalidStackOperation else repeat_n (Z.to_nat k) (copy_entry entry) s)
    (sfit m (n + Z.max k 0)).
Proof.
  intros Hn Hs. case_if; [done|].
  eapply wp_mono; [apply (repeat_n_wp (copy_entry entry) (fun i => sfit m (n + i)) 1)|].
  - intros i a Hi Ha. eapply wp_mono; [apply copy_entry_wp; [|exact Ha]; lia|].
    intros b Hb. eapply sfit_mono; [done|lia].
  - by rewrite Z.add_0_r.
  - intros a Ha. eapply sfit_mono; [exact Ha|lia].
Qed.

Context (n : Z) (Hn : n < 2 ^ 31 - 16) (s : stack) (Hs : sfit m n s).

Lemma DropN_wp k : wp (stack_DropN k s) (sfit m n).
Proof. apply keep_loop_wp; [|done]. intros. apply pop_top_wp; [lia|done]. Qed.
Lemma RotN_wp k : wp (stack_RotN k s) (sfit m n).
Proof. apply keep_loop_wp; [|done]. intros. apply move_entry_wp; [lia|done]. Qed.
Lemma SwapN_wp k : wp (stack_SwapN k s) (sfit m n).
Proof. apply keep_loop_wp; [|done]. intros. apply move_entry_wp; [lia|done]. Qed.
Lemma DupN_wp k : k <= 3 -> wp (stack_DupN k s) (sfit m (n + 3)).
Proof.
  intros Hk. eapply wp_mono; [apply (grow_loop_wp n); [lia|done]|]. intros a Ha.
  eapply sfit_mono; [exact Ha|lia].
Qed.
Lemma OverN_wp k : k <= 3 -> wp (stack_OverN k s) (sfit m (n + 3)).
Proof.
  intros Hk. eapply wp_mono; [apply (grow_loop_wp n); [lia|done]|]. intros a Ha.
  eapply sfit_mono; [exact Ha|lia].
Qed.

End RearrangeSafety.
