(* ===== verification/ScriptStd.v ===== *)
(** * Script templates ([txscript/script.go], [txscript/standard.go])

    Recognition and construction of the standard output scripts (pay to public
    key, public key hash, script hash, witness programs, multisig, null data and
    the contract envelope), push-only and signature-operation analysis, and the
    script surgery the signature hash uses.  A Go loop over a tokenizer is a
    fold over the tokenizer states of [tokenize]. *)

From Stdlib Require Import ZArith Lia.
From stdpp Require Import base list numbers option strings.
From S2P Require Import Prelude ScriptNum Tokenizer ScriptBuilder.

Definition MaxOpsPerScript : Z := 201.
Definition MaxPubKeysPerMultiSig : Z := 20.
Definition TaprootAnnexTag : Z := 0x50.
Definition MaxDataCarrierSize : Z := 512.
Definition payToWitnessPubKeyHashDataSize : Z := 20.
Definition payToWitnessScriptHashDataSize : Z := 32.
Definition payToTaprootDataSize : Z := 32.
Definition BaseSegwitWitnessVersion : Z := 0.
Definition TaprootWitnessVersion : Z := 1.
Definition ContractAddressVersionV1 : Z := 1.
Definition ContractAddressMinPayloadLen : Z := 3.
Definition contractScriptMagic : bytes := str "CT".

(** ** Analysis of a script *)

Definition IsPushOnlyScript {E} (script : bytes) : result E bool :=
  let! '(l, t) := tokenize script in
  let! pushes := rfold (fun (ok : bool) t =>
    let! op := ScriptTokenizer_Opcode t in Ok (ok && negb (OP_16 <? op))) true l in
  Ok (pushes && negb (non_nil (ScriptTokenizer_Err t))).

Definition isCanonicalPush (opcode : Z) (data : bytes) : bool :=
  let dataLen := len data in
  if OP_16 <? opcode then true
  else if (opcode <? OP_PUSHDATA1) && (OP_0 <? opcode)
          && match data with [b] => b <=? 16 | _ => false end then false
  else if (opcode =? OP_PUSHDATA1) && (dataLen <? OP_PUSHDATA1) then false
  else if (opcode =? OP_PUSHDATA2) && (dataLen <=? 0xff) then false
  else if (opcode =? OP_PUSHDATA4) && (dataLen <=? 0xffff) then false
  else true.

(** One turn of the loop of [removeOpcodeRaw]: [result] is nil until the first
    match; [prevOffset] is where the instruction starts. *)
Definition removeOpcodeRaw_step {E} (script : bytes) (opcode : Z)
    (st : option bytes * Z) (t : ScriptTokenizer) : result E (option bytes * Z) :=
  let '(result, prevOffset) := st in
  let! op := ScriptTokenizer_Opcode t in
  if op =? opcode then
    match result with
    | None => let! p := subslice script 0 prevOffset in Ok (Some p, ScriptTokenizer_ByteIndex t)
    | Some r => Ok (Some r, ScriptTokenizer_ByteIndex t)
    end
  else
    match result with
    | Some r =>
        let! p := subslice script prevOffset (ScriptTokenizer_ByteIndex t) in
        Ok (Some (r ++ p), ScriptTokenizer_ByteIndex t)
    | None => Ok (None, ScriptTokenizer_ByteIndex t)
    end.

Definition removeOpcodeRaw {E} (script : bytes) (opcode : Z) : result E bytes :=
  if len script =? 0 then Ok script
  else
    let! '(l, _) := tokenize script in
    let! '(result, _) := rfold (removeOpcodeRaw_step script opcode) (None, 0) l in
    Ok (default script result).

Definition removeOpcodeCanonical {E} (t : ScriptTokenizer) (script dataToRemove : bytes)
    (prevOffset : Z) (result : option bytes) : Prelude.result E (option bytes * Z * bool) :=
  let! op := ScriptTokenizer_Opcode t in
  let data := slice (ScriptTokenizer_Data t) in
  if isCanonicalPush op data && bytes_eqb data dataToRemove then
    match result with
    | None => let! p := subslice script 0 prevOffset in Ok (Some p, ScriptTokenizer_ByteIndex t, true)
    | Some r => Ok (Some r, ScriptTokenizer_ByteIndex t, true)
    end
  else
    match result with
    | Some r =>
        let! p := subslice script prevOffset (ScriptTokenizer_ByteIndex t) in
        Ok (Some (r ++ p), ScriptTokenizer_ByteIndex t, false)
    | None => Ok (None, ScriptTokenizer_ByteIndex t, false)
    end.

Definition removeOpcodeByData {E} (script dataToRemove : bytes) : result E (bytes * bool) :=
  if (len script =? 0) || (len dataToRemove =? 0) then Ok (script, false)
  else
    let! '(l, _) := tokenize script in
    let! '(result, _, m) := rfold (fun '(result, prevOffset, m) t =>
      let! '(result, prevOffset, found) :=
        removeOpcodeCanonical t script dataToRemove prevOffset result in
      Ok (result, prevOffset, m || found)) (None, 0, false) l in
    Ok (default script result, m).

(** One turn of [countSigOpsV0]: the count so far and the previous opcode. *)
Definition countSigOpsV0_step {E} (precise : bool) (st : Z * Z) (t : ScriptTokenizer)
    : result E (Z * Z) :=
  let '(numSigOps, prevOp) := st in
  let! op := ScriptTokenizer_Opcode t in
  if (op =? OP_CHECKSIG) || (op =? OP_CHECKSIGVERIFY) then Ok (numSigOps + 1, op)
  else if (op =? OP_CHECKMULTISIG) || (op =? OP_CHECKMULTISIGVERIFY) then
    if precise && (OP_1 <=? prevOp) && (prevOp <=? OP_16) then Ok (numSigOps + AsSmallInt prevOp, op)
    else Ok (numSigOps + MaxPubKeysPerMultiSig, op)
  else Ok (numSigOps, op).

Definition countSigOpsV0 {E} (script : bytes) (precise : bool) : result E Z :=
  let! '(l, _) := tokenize script in
  let! '(numSigOps, _) := rfold (countSigOpsV0_step precise) (0, OP_INVALIDOPCODE) l in
  Ok numSigOps.

Definition GetSigOpCount {E} (script : bytes) : result E Z := countSigOpsV0 script false.

Definition finalOpcodeData {E} (scriptVersion : Z) (script : bytes) : result E (option bytes) :=
  if len script =? 0 then Ok None
  else
    let! '(l, t) := tokenizer_run (S (length script)) (MakeScriptTokenizer scriptVersion script) in
    if non_nil (ScriptTokenizer_Err t) then Ok None
    else Ok (match last_of l with Some t => ScriptTokenizer_Data t | None => None end).

Definition checkScriptParses (scriptVersion : Z) (script : bytes) : outcome unit :=
  let! '(_, t) := tokenizer_run (S (length script)) (MakeScriptTokenizer scriptVersion script) in
  match ScriptTokenizer_Err t with
  | Some e => Err e
  | None => Ok tt
  end.

Definition IsUnspendable (pkScript : bytes) : outcome bool :=
  if at_is pkScript 0 OP_RETURN then Ok true
  else if MaxScriptSize <? len pkScript then Ok true
  else
    match checkScriptParses 0 pkScript with
    | Ok _ => Ok false
    | Err _ => Ok true
    | Panic => Panic
    end.

(** The keys of [successOpcodes]. *)
Definition successOpcodes (op : Z) : bool :=
  (op =? OP_RESERVED) || (op =? OP_VER) || ((OP_CAT <=? op) && (op <=? OP_RIGHT))
  || ((OP_INVERT <=? op) && (op <=? OP_XOR)) || (op =? OP_RESERVED1) || (op =? OP_RESERVED2)
  || (op =? OP_2MUL) || (op =? OP_2DIV) || ((OP_MUL <=? op) && (op <=? OP_RSHIFT))
  || ((187 <=? op) && (op <=? OP_PUBKEY)).

Definition ScriptHasOpSuccess {E} (witnessScript : bytes) : result E bool :=
  let! '(l, _) := tokenize witnessScript in
  rfold (fun (found : bool) t =>
    let! op := ScriptTokenizer_Opcode t in Ok (found || successOpcodes op)) false l.

(** [parseScript]: the instructions of a script, or an error. *)
Definition parseScript (script : bytes) : outcome (list (Z * option bytes)) :=
  let! '(l, t) := tokenize script in
  let! ops := rfold (fun ops t =>
    let! op := ScriptTokenizer_Opcode t in Ok (ops ++ [(op, ScriptTokenizer_Data t)])) [] l in
  match ScriptTokenizer_Err t with
  | Some _ => Err ErrOther
  | None => Ok ops
  end.

(** [IsEnvelope]: [OP_FALSE OP_IF] at [i], [i+1] with [i < n-2] and an
    [OP_ENDIF] later on. *)
Fixpoint IsEnvelope_ops (ops : list (Z * option bytes)) : bool :=
  match ops with
  | (a, _) :: (((b, _) :: r) as rest) =>
      ((a =? OP_FALSE) && (b =? OP_IF) && existsb (fun o => o.1 =? OP_ENDIF) r)
      || IsEnvelope_ops rest
  | _ => false
  end.

(** A script that does not parse has no instructions. *)
Definition IsEnvelope (script : bytes) : outcome bool :=
  match parseScript script with
  | Ok ops => Ok (IsEnvelope_ops ops)
  | Err _ => Ok false
  | Panic => Panic
  end.

(** ** Standard output scripts *)

Definition extractCompressedPubKey (script : bytes) : option bytes :=
  if (len script =? 35) && at_is script 34 OP_CHECKSIG && at_is script 0 OP_DATA_33
     && (at_is script 1 0x02 || at_is script 1 0x03)
  then Some (take 33 (drop 1 script)) else None.

Definition extractUncompressedPubKey (script : bytes) : option bytes :=
  if (len script =? 67) && at_is script 66 OP_CHECKSIG && at_is script 0 OP_DATA_65
     && (at_is script 1 0x04 || at_is script 1 0x06 || at_is script 1 0x07)
  then Some (take 65 (drop 1 script)) else None.

Definition extractPubKey (script : bytes) : option bytes :=
  match extractCompressedPubKey script with
  | Some pubKey => Some pubKey
  | None => extractUncompressedPubKey script
  end.

Definition isPubKeyScript (script : bytes) : bool := non_nil (extractPubKey script).

Definition extractPubKeyHash (script : bytes) : option bytes :=
  if (len script =? 25) && at_is script 0 OP_DUP && at_is script 1 OP_HASH160
     && at_is script 2 OP_DATA_20 && at_is script 23 OP_EQUALVERIFY && at_is script 24 OP_CHECKSIG
  then Some (take 20 (drop 3 script)) else None.

Definition isPubKeyHashScript (script : bytes) : bool := non_nil (extractPubKeyHash script).

Definition extractScriptHash (script : bytes) : option bytes :=
  if (len script =? 23) && at_is script 0 OP_HASH160 && at_is script 1 OP_DATA_20
     && at_is script 22 OP_EQUAL
  then Some (take 20 (drop 2 script)) else None.

Definition isScriptHashScript (script : bytes) : bool := non_nil (extractScriptHash script).

(** [isStrictPubKeyEncoding] ([engine.go]). *)
Definition isStrictPubKeyEncoding (pubKey : bytes) : bool :=
  ((len pubKey =? 33) && (at_is pubKey 0 0x02 || at_is pubKey 0 0x03))
  || ((len pubKey =? 65) && (at_is pubKey 0 0x04 || at_is pubKey 0 0x06 || at_is pubKey 0 0x07)).

Record multiSigDetails : Type := mkMultiSigDetails {
  requiredSigs : Z;
  numPubKeys : Z;
  pubKeys : list bytes;
  valid : bool;
}.

Definition invalidMultiSig : multiSigDetails := mkMultiSigDetails 0 0 [] false.

(** The loop over the public keys: the tokenizer it stops at (after the small
    integer, or exhausted), the count and the keys kept. *)
Fixpoint multisig_keys {E} (fuel : nat) (extract : bool) (t : ScriptTokenizer) (n : Z)
    (keys : list bytes) : result E (ScriptTokenizer * Z * list bytes) :=
  match fuel with
  | O => Panic
  | S f =>
      let! '(ok, t) := ScriptTokenizer_Next t in
      if negb ok then Ok (t, n, keys)
      else
        let! op := ScriptTokenizer_Opcode t in
        if IsSmallInt op then Ok (t, n, keys)
        else
          let data := slice (ScriptTokenizer_Data t) in
          let keys := if isStrictPubKeyEncoding data && extract then keys ++ [data] else keys in
          multisig_keys f extract t (n + 1) keys
  end.

Definition extractMultisigScriptDetails {E} (scriptVersion : Z) (script : bytes)
    (extractPubKeys : bool) : result E multiSigDetails :=
  if negb (scriptVersion =? 0) then Ok invalidMultiSig
  else if (len script <? 3) || negb (bool_decide (last_of script = Some OP_CHECKMULTISIG))
  then Ok invalidMultiSig
  else
    let! '(ok, t) := ScriptTokenizer_Next (MakeScriptTokenizer scriptVersion script) in
    if negb ok then Ok invalidMultiSig
    else
      let! op := ScriptTokenizer_Opcode t in
      if negb (IsSmallInt op) then Ok invalidMultiSig
      else
        let required := AsSmallInt op in
        let! '(t, n, keys) := multisig_keys (S (length script)) extractPubKeys t 0 [] in
        if ScriptTokenizer_Done t then Ok invalidMultiSig
        else
          let! op := ScriptTokenizer_Opcode t in
          if negb (IsSmallInt op) || negb (AsSmallInt op =? n) then Ok invalidMultiSig
          else if negb (int32 (len (tok_script t)) - ScriptTokenizer_ByteIndex t =? 1)
          then Ok invalidMultiSig
          else Ok (mkMultiSigDetails required n keys true).

Definition isMultisigScript {E} (scriptVersion : Z) (script : bytes) : result E bool :=
  let! details := extractMultisigScriptDetails scriptVersion script false in
  Ok (valid details).

Definition IsMultisigSigScript {E} (script : bytes) : result E bool :=
  if (len script <? 4) || negb (bool_decide (last_of script = Some OP_CHECKMULTISIG)) then Ok false
  else
    let! possibleRedeemScript := finalOpcodeData 0 script in
    match possibleRedeemScript with
    | None => Ok false
    | Some s => isMultisigScript 0 s
    end.

Definition extractWitnessPubKeyHash (script : bytes) : option bytes :=
  if (len script =? 22) && at_is script 0 OP_0 && at_is script 1 OP_DATA_20
  then Some (take 20 (drop 2 script)) else None.

Definition isWitnessPubKeyHashScript (script : bytes) : bool :=
  non_nil (extractWitnessPubKeyHash script).

Definition extractWitnessV0ScriptHash (script : bytes) : option bytes :=
  if (len script =? 34) && at_is script 0 OP_0 && at_is script 1 OP_DATA_32
  then Some (take 32 (drop 2 script)) else None.

Definition extractWitnessV1KeyBytes (script : bytes) : option bytes :=
  if (len script =? 34) && at_is script 0 OP_1 && at_is script 1 OP_DATA_32
  then Some (take 32 (drop 2 script)) else None.

Definition isWitnessScriptHashScript (script : bytes) : bool :=
  non_nil (extractWitnessV0ScriptHash script).

(** [extractWitnessProgramInfo]: version, program and validity.  The program is
    nil when the second instruction carries no data. *)
Definition extractWitnessProgramInfo {E} (script : bytes) : result E (Z * option bytes * bool) :=
  if (len script <? 4) || (42 <? len script) then Ok (0, None, false)
  else
    let! '(ok, t) := ScriptTokenizer_Next (MakeScriptTokenizer 0 script) in
    if negb ok then Ok (0, None, false)
    else
      let! op := ScriptTokenizer_Opcode t in
      if negb (IsSmallInt op) then Ok (0, None, false)
      else
        let version := AsSmallInt op in
        let! '(ok, t) := ScriptTokenizer_Next t in
        if negb ok then Ok (0, None, false)
        else
          let! op := ScriptTokenizer_Opcode t in
          if negb (isCanonicalPush op (slice (ScriptTokenizer_Data t))) then Ok (0, None, false)
          else
            let valid := ScriptTokenizer_Done t && negb (non_nil (ScriptTokenizer_Err t)) in
            Ok (version, ScriptTokenizer_Data t, valid).

Definition isWitnessProgramScript {E} (script : bytes) : result E bool :=
  let! '(_, _, valid) := extractWitnessProgramInfo script in
  Ok valid.

Definition ExtractWitnessProgramInfo (script : bytes) : outcome (Z * option bytes) :=
  let! '(version, program, valid) := extractWitnessProgramInfo script in
  if negb valid then Err ErrOther else Ok (version, program).

Definition isWitnessTaprootScript (script : bytes) : bool :=
  non_nil (extractWitnessV1KeyBytes script).

(** [extractContractScriptPayload]: [OP_FALSE OP_IF "CT" <payload> OP_ENDIF
    OP_FALSE] read by byte position. *)
Definition extractContractScriptPayload (script : bytes) : option bytes :=
  if len script <? 11 then None
  else if negb (at_is script 0 OP_FALSE) || negb (at_is script 1 OP_IF)
          || negb (at_is script 2 (len contractScriptMagic))
          || negb (bytes_eqb (take 2 (drop 3 script)) contractScriptMagic) then None
  else
    let payloadLen := default 0 (script !! 5%nat) in
    if (payloadLen <? ContractAddressMinPayloadLen) || negb (len script =? payloadLen + 8)
       || negb (at_is script (Z.to_nat (6 + payloadLen)) OP_ENDIF)
       || negb (at_is script (Z.to_nat (7 + payloadLen)) OP_FALSE) then None
    else
      let payload := take (Z.to_nat payloadLen) (drop 6 script) in
      if negb (at_is payload 0 1) || at_is payload 1 0 then None
      else Some payload.

Definition isContractScript (script : bytes) : bool := non_nil (extractContractScriptPayload script).

Definition isAnnexedWitness (witness : list bytes) : bool :=
  if len witness <? 2 then false
  else match last_of witness with
       | Some lastElement => (0 <? len lastElement) && at_is lastElement 0 TaprootAnnexTag
       | None => false
       end.

Definition extractAnnex (witness : list bytes) : outcome bytes :=
  if negb (isAnnexedWitness witness) then Err ErrWitnessHasNoAnnex
  else unwrap (last_of witness).

Definition isNullDataScript {E} (scriptVersion : Z) (script : bytes) : result E bool :=
  if negb (scriptVersion =? 0) then Ok false
  else if negb (at_is script 0 OP_RETURN) then Ok false
  else if len script =? 1 then Ok true
  else
    let! '(ok, t) := ScriptTokenizer_Next (MakeScriptTokenizer scriptVersion (drop 1 script)) in
    Ok (ok && (len (slice (ScriptTokenizer_Data t)) <=? MaxDataCarrierSize)).

Inductive ScriptClass : Type :=
| NonStandardTy
| PubKeyTy
| PubKeyHashTy
| WitnessV0PubKeyHashTy
| ScriptHashTy
| WitnessV0ScriptHashTy
| MultiSigTy
| NullDataTy
| WitnessV1TaprootTy
| WitnessUnknownTy
| ContractTy.

#[global] Instance ScriptClass_eq_dec : EqDecision ScriptClass.
Proof. solve_decision. Defined.

Definition typeOfScript {E} (scriptVersion : Z) (script : bytes) : result E ScriptClass :=
  if scriptVersion =? BaseSegwitWitnessVersion then
    if isPubKeyScript script then Ok PubKeyTy
    else if isPubKeyHashScript script then Ok PubKeyHashTy
    else if isScriptHashScript script then Ok ScriptHashTy
    else if isWitnessPubKeyHashScript script then Ok WitnessV0PubKeyHashTy
    else if isWitnessScriptHashScript script then Ok WitnessV0ScriptHashTy
    else
      let! ms := isMultisigScript scriptVersion script in
      if (ms : bool) then Ok MultiSigTy
      else
        let! nd := isNullDataScript scriptVersion script in
        if (nd : bool) then Ok NullDataTy
        else if isContractScript script then Ok ContractTy
        else Ok NonStandardTy
  else if scriptVersion =? TaprootWitnessVersion then
    if isWitnessTaprootScript script then Ok WitnessV1TaprootTy else Ok NonStandardTy
  else Ok NonStandardTy.

Definition GetScriptClass {E} (script : bytes) : result E ScriptClass :=
  let! classSegWit := typeOfScript 0 script in
  if negb (bool_decide (classSegWit = NonStandardTy)) then Ok classSegWit
  else typeOfScript 1 script.

(** ** Signature operations of an input *)

Definition GetPreciseSigOpCount {E} (scriptSig scriptPubKey : bytes) : result E Z :=
  if negb (isScriptHashScript scriptPubKey) then countSigOpsV0 scriptPubKey true
  else
    let! pushOnly := IsPushOnlyScript scriptSig in
    if (len scriptSig =? 0) || negb pushOnly then Ok 0
    else
      let! redeemScript := finalOpcodeData 0 scriptSig in
      if len (slice redeemScript) =? 0 then Ok 0
      else countSigOpsV0 (slice redeemScript) true.

(** [ExtractWitnessProgramInfo] fails exactly when the script is not a witness
    program. *)
Definition getWitnessSigOps {E} (pkScript : bytes) (witness : list bytes) : result E Z :=
  let! '(witnessVersion, witnessProgram, valid) := extractWitnessProgramInfo pkScript in
  if negb valid then Ok 0
  else if witnessVersion =? BaseSegwitWitnessVersion then
    if len (slice witnessProgram) =? payToWitnessPubKeyHashDataSize then Ok 1
    else if (len (slice witnessProgram) =? payToWitnessScriptHashDataSize) && (0 <? len witness) then
      let! witnessScript := unwrap (last_of witness) in
      countSigOpsV0 witnessScript true
    else Ok 0
  else Ok 0.

Definition GetWitnessSigOpCount {E} (sigScript pkScript : bytes) (witness : list bytes) : result E Z :=
  let! isWit := isWitnessProgramScript pkScript in
  if (isWit : bool) then getWitnessSigOps pkScript witness
  else if isScriptHashScript pkScript then
    let! pushOnly := IsPushOnlyScript sigScript in
    if pushOnly && (0 <? len sigScript) then
      let! nested := isWitnessProgramScript (drop 1 sigScript) in
      if (nested : bool) then getWitnessSigOps (drop 1 sigScript) witness else Ok 0
    else Ok 0
  else Ok 0.

Definition expectedInputs {E} (script : bytes) (class : ScriptClass) : result E Z :=
  match class with
  | PubKeyTy => Ok 1
  | PubKeyHashTy => Ok 2
  | WitnessV0PubKeyHashTy => Ok 2
  | ScriptHashTy => Ok 1
  | WitnessV0ScriptHashTy => Ok 1
  | WitnessV1TaprootTy => Ok 1
  | MultiSigTy => let! op := unwrap (script !! 0%nat) in Ok (AsSmallInt op + 1)
  | _ => Ok (-1)
  end.

Record ScriptInfo : Type := mkScriptInfo {
  PkScriptClass : ScriptClass;
  NumInputs : Z;
  ExpectedInputs : Z;
  SigOps : Z;
}.

(** [si.ExpectedInputs] after adding the inputs of a redeem script. *)
Definition addInputs (expected inner : Z) : Z := if inner =? -1 then -1 else expected + inner.

Definition CalcScriptInfo (sigScript pkScript : bytes) (witness : list bytes) (bip16 segwit : bool)
    : outcome ScriptInfo :=
  let! '(l, t) := tokenize sigScript in
  let numInputs := len l in
  match ScriptTokenizer_Err t with
  | Some e => Err e
  | None =>
  let! _ := checkScriptParses 0 pkScript in
  let! pushOnly := IsPushOnlyScript sigScript in
  if negb pushOnly then Err ErrNotPushOnly
  else
  let! class := typeOfScript 0 pkScript in
  let! expected := expectedInputs pkScript class in
  let isSH := bool_decide (class = ScriptHashTy) in
  if isSH && bip16 && negb segwit then
    let! redeem := finalOpcodeData 0 sigScript in
    let! redeemClass := typeOfScript 0 (slice redeem) in
    let! rsInputs := expectedInputs (slice redeem) redeemClass in
    let! sigOps := countSigOpsV0 (slice redeem) true in
    Ok (mkScriptInfo class numInputs (addInputs expected rsInputs) sigOps)
  else if bool_decide (class = WitnessV0PubKeyHashTy) && segwit then
    let! sigOps := GetWitnessSigOpCount sigScript pkScript witness in
    Ok (mkScriptInfo class (len witness) expected sigOps)
  else
    let! nested :=
      (if isSH then
         let! inner := subslice sigScript 1 (len sigScript) in
         let! w := isWitnessProgramScript inner in Ok (w && bip16 && segwit)
       else Ok false) in
    if (nested : bool) then
      let! redeemClass := typeOfScript 0 (drop 1 sigScript) in
      let! shInputs := expectedInputs (drop 1 sigScript) redeemClass in
      let! sigOps := GetWitnessSigOpCount sigScript pkScript witness in
      Ok (mkScriptInfo class (len witness + numInputs) (addInputs expected shInputs) sigOps)
    else if bool_decide (class = WitnessV0ScriptHashTy) && segwit then
      let! witnessScript := unwrap (last_of witness) in
      let! redeemClass := typeOfScript 0 witnessScript in
      let! shInputs := expectedInputs witnessScript redeemClass in
      let! sigOps := GetWitnessSigOpCount sigScript pkScript witness in
      Ok (mkScriptInfo class (len witness) (addInputs expected shInputs) sigOps)
    else
      let! sigOps := countSigOpsV0 pkScript true in
      Ok (mkScriptInfo class numInputs expected sigOps)
  end.

Definition CalcMultiSigStats (script : bytes) : outcome (Z * Z) :=
  let! details := extractMultisigScriptDetails 0 script false in
  if negb (valid details) then Err ErrNotMultisigScript
  else Ok (numPubKeys details, requiredSigs details).

(** ** Construction *)

(** [Script()]; the builder's error is not a script error. *)
Definition finish_script (b : ScriptBuilder) : outcome bytes :=
  match ScriptBuilder_Script b with
  | Some s => Ok s
  | None => Err ErrOther
  end.

Definition payToPubKeyHashScript (pubKeyHash : bytes) : outcome bytes :=
  finish_script (ScriptBuilder_AddOp OP_CHECKSIG (ScriptBuilder_AddOp OP_EQUALVERIFY
    (ScriptBuilder_AddData pubKeyHash (ScriptBuilder_AddOp OP_HASH160
      (ScriptBuilder_AddOp OP_DUP NewScriptBuilder))))).

Definition payToWitnessPubKeyHashScript (pubKeyHash : bytes) : outcome bytes :=
  finish_script (ScriptBuilder_AddData pubKeyHash (ScriptBuilder_AddOp OP_0 NewScriptBuilder)).

Definition payToScriptHashScript (scriptHash : bytes) : outcome bytes :=
  finish_script (ScriptBuilder_AddOp OP_EQUAL (ScriptBuilder_AddData scriptHash
    (ScriptBuilder_AddOp OP_HASH160 NewScriptBuilder))).

Definition payToWitnessScriptHashScript (scriptHash : bytes) : outcome bytes :=
  finish_script (ScriptBuilder_AddData scriptHash (ScriptBuilder_AddOp OP_0 NewScriptBuilder)).

Definition payToWitnessTaprootScript (rawKey : bytes) : outcome bytes :=
  finish_script (ScriptBuilder_AddData rawKey (ScriptBuilder_AddOp OP_1 NewScriptBuilder)).

Definition payToContractScript (payload : bytes) : outcome bytes :=
  if (len payload <? ContractAddressMinPayloadLen) || (OP_PUSHDATA1 <=? len payload)
  then Err ErrUnsupportedAddress
  else if negb (at_is payload 0 ContractAddressVersionV1) || at_is payload 1 0
  then Err ErrUnsupportedAddress
  else
    finish_script (ScriptBuilder_AddOp OP_FALSE (ScriptBuilder_AddOp OP_ENDIF
      (ScriptBuilder_AddData payload (ScriptBuilder_AddData contractScriptMagic
        (ScriptBuilder_AddOp OP_IF (ScriptBuilder_AddOp OP_FALSE NewScriptBuilder)))))).

Definition payToPubKeyScript (serializedPubKey : bytes) : outcome bytes :=
  finish_script (ScriptBuilder_AddOp OP_CHECKSIG
    (ScriptBuilder_AddData serializedPubKey NewScriptBuilder)).

Definition NullDataScript (data : bytes) : outcome bytes :=
  if MaxDataCarrierSize <? len data then Err ErrTooMuchNullData
  else finish_script (ScriptBuilder_AddData data (ScriptBuilder_AddOp OP_RETURN NewScriptBuilder)).

(** The keys are given by their serialized form ([key.ScriptAddress()]). *)
Definition MultiSigScript (pubkeys : list bytes) (nrequired : Z) : outcome bytes :=
  if len pubkeys <? nrequired then Err ErrTooManyRequiredSigs
  else
    let! builder := ScriptBuilder_AddInt64 nrequired NewScriptBuilder in
    let builder := fold_left (fun b key => ScriptBuilder_AddData key b) pubkeys builder in
    let! builder := ScriptBuilder_AddInt64 (len pubkeys) builder in
    finish_script (ScriptBuilder_AddOp OP_CHECKMULTISIG builder).

Definition PushedData (script : bytes) : outcome (list (option bytes)) :=
  let! '(l, t) := tokenize script in
  let! data := rfold (fun data t =>
    match ScriptTokenizer_Data t with
    | Some d => Ok (data ++ [Some d])
    | None => let! op := ScriptTokenizer_Opcode t in Ok (if op =? OP_0 then data ++ [None] else data)
    end) [] l in
  match ScriptTokenizer_Err t with
  | Some e => Err e
  | None => Ok data
  end.

(** ** Loops over a script made of instructions *)

Lemma tok_trace_op tks t : Forall2 (fun tk t => tok_op t = Some (tk_op tk) /\ tok_data t = tk_data tk)
  tks (tok_trace t tks).
Proof. revert t. induction tks as [|tk tks IH]; intros t; simpl; constructor; [done|apply IH]. Qed.

(** A loop whose body looks at the instruction only. *)
Lemma rfold_trace {E S} (f : S -> ScriptTokenizer -> result E S) (g : S -> token -> S) s t tks :
  (forall s t tk, tok_op t = Some (tk_op tk) -> tok_data t = tk_data tk -> f s t = Ok (g s tk)) ->
  rfold f s (tok_trace t tks) = Ok (fold_left g tks s).
Proof.
  intros Hf. pose proof (tok_trace_op tks t) as Ht. revert s.
  induction Ht as [|tk t' tks l [Ho Hd] Ht IH]; intros s; simpl; [done|].
  rewrite (Hf s t' tk Ho Hd). simpl. apply IH.
Qed.

(** *** Removal of instructions *)

Section Removal.
Context (p : token -> bool).

Definition kept (tks : list token) : bytes := enc_tokens (List.filter (fun tk => negb (p tk)) tks).

Definition removed (tks : list token) : option bytes :=
  if existsb p tks then Some (kept tks) else None.

Lemma kept_all tks : existsb p tks = false -> kept tks = enc_tokens tks.
Proof.
  unfold kept, enc_tokens. induction tks as [|tk tks IH]; simpl; [done|].
  intros [Hp Ht]%orb_false_iff. rewrite Hp. simpl. by rewrite IH.
Qed.

Lemma removed_default tks : default (enc_tokens tks) (removed tks) = kept tks.
Proof. unfold removed. destruct (existsb p tks) eqn:He; simpl; [done|]. by rewrite kept_all. Qed.

Lemma kept_snoc pre tk : kept (pre ++ [tk]) = kept pre ++ (if p tk then [] else enc_token tk).
Proof.
  unfold kept. rewrite List.filter_app, enc_tokens_app. f_equal. simpl.
  destruct (p tk); simpl; [done|]. unfold enc_tokens. simpl. apply app_nil_r.
Qed.

(** What one turn of a removal loop does. *)
Definition removal_step (pre : list token) (tk : token) : option bytes :=
  if p tk then match removed pre with None => Some (enc_tokens pre) | Some r => Some r end
  else match removed pre with Some r => Some (r ++ enc_token tk) | None => None end.

Lemma removal_step_snoc pre tk : removal_step pre tk = removed (pre ++ [tk]).
Proof.
  unfold removal_step, removed. rewrite existsb_app, kept_snoc. simpl. rewrite orb_false_r.
  destruct (existsb p pre) eqn:He; simpl; destruct (p tk); simpl; rewrite ?app_nil_r; try done.
  by rewrite kept_all.
Qed.

End Removal.

Lemma subslice_mid {E A} (a b c : list A) : subslice (E := E) (a ++ b ++ c) (len a) (len a + len b) = Ok b.
Proof.
  unfold subslice. rewrite !len_app. pose proof (len_nonneg a). pose proof (len_nonneg b).
  pose proof (len_nonneg c). z_test.
  replace (len a + len b - len a) with (len b) by lia.
  rewrite drop_len_app by done. by rewrite take_len_app.
Qed.

Lemma subslice_prefix {E A} (a b : list A) : subslice (E := E) (a ++ b) 0 (len a) = Ok a.
Proof. apply (subslice_mid [] a b). Qed.

(** The removal loops, for a body that acts as [removal_step] says. *)
Lemma removal_loop {E S} (f : S -> ScriptTokenizer -> result E S) (p : token -> bool)
    (st : list token -> S) tks :
  Forall wf_token tks -> len (enc_tokens tks) < 2 ^ 31 ->
  (forall pre tk post t, tks = pre ++ tk :: post -> tok_op t = Some (tk_op tk) ->
     tok_data t = tk_data tk -> tok_offset t = len (enc_tokens pre) + len (enc_token tk) ->
     f (st pre) t = Ok (st (pre ++ [tk]))) ->
  rfold f (st []) (tok_trace (MakeScriptTokenizer 0 (enc_tokens tks)) tks) = Ok (st tks).
Proof.
  intros Hw Hlen Hf.
  assert (Hgen : forall post pre t, tks = pre ++ post -> tok_offset t = len (enc_tokens pre) ->
            rfold f (st pre) (tok_trace t post) = Ok (st tks)).
  { induction post as [|tk post IH]; intros pre t Heq Ho; simpl.
    { by rewrite Heq, app_nil_r. }
    assert (Hoff : tok_offset (tok_step t tk (len (enc_token tk))) = len (enc_tokens pre) + len (enc_token tk)).
    { simpl. rewrite Ho. apply int32_id. rewrite Heq, enc_tokens_app in Hlen.
      unfold enc_tokens at 2 in Hlen. simpl in Hlen. unfold is_int32. len_lia. }
    rewrite (Hf pre tk post) by done. simpl. apply IH; [by rewrite <- app_assoc|].
    rewrite Hoff, enc_tokens_snoc. by rewrite len_app. }
  by apply (Hgen tks []).
Qed.

Lemma removeOpcodeRaw_loop {E} tks opcode pre tk post t :
  let p tk := tk_op tk =? opcode in
  tks = pre ++ tk :: post -> tok_op t = Some (tk_op tk) ->
  tok_offset t = len (enc_tokens pre) + len (enc_token tk) ->
  removeOpcodeRaw_step (E := E) (enc_tokens tks) opcode (removed p pre, len (enc_tokens pre)) t
    = Ok (removed p (pre ++ [tk]), len (enc_tokens (pre ++ [tk]))).
Proof.
  intros p Heq Ho Hoff. rewrite <- removal_step_snoc. unfold removal_step, removeOpcodeRaw_step.
  unfold ScriptTokenizer_Opcode, ScriptTokenizer_ByteIndex. rewrite Ho, Hoff. simpl.
  rewrite enc_tokens_snoc, len_app. fold (p tk).
  rewrite Heq, enc_tokens_app, enc_tokens_cons.
  destruct (p tk), (removed p pre); rewrite ?subslice_prefix, ?subslice_mid; done.
Qed.

(** A push [removeOpcodeByData] takes out. *)
Definition pushes_exactly (data : bytes) (tk : token) : bool :=
  isCanonicalPush (tk_op tk) (slice (tk_data tk)) && bytes_eqb (slice (tk_data tk)) data.

Lemma removeOpcodeCanonical_loop {E} tks data pre tk post t :
  let p := pushes_exactly data in
  tks = pre ++ tk :: post -> tok_op t = Some (tk_op tk) -> tok_data t = tk_data tk ->
  tok_offset t = len (enc_tokens pre) + len (enc_token tk) ->
  removeOpcodeCanonical (E := E) t (enc_tokens tks) data (len (enc_tokens pre)) (removed p pre)
    = Ok (removed p (pre ++ [tk]), len (enc_tokens (pre ++ [tk])), p tk).
Proof.
  intros p Heq Ho Hd Hoff. rewrite <- removal_step_snoc. unfold removal_step, removeOpcodeCanonical.
  unfold ScriptTokenizer_Opcode, ScriptTokenizer_Data, ScriptTokenizer_ByteIndex.
  rewrite Ho, Hd, Hoff. simpl. rewrite enc_tokens_snoc, len_app. fold (pushes_exactly data tk). fold (p tk).
  rewrite Heq, enc_tokens_app, enc_tokens_cons.
  destruct (p tk), (removed p pre); rewrite ?subslice_prefix, ?subslice_mid; done.
Qed.

Lemma enc_tokens_empty tks : len (enc_tokens tks) = 0 -> tks = [].
Proof.
  destruct tks as [|tk tks]; [done|]. unfold enc_tokens. simpl. rewrite len_app.
  pose proof (enc_token_nonempty tk). pose proof (len_nonneg (concat (map enc_token tks))). lia.
Qed.

(** Script surgery of the legacy signature hash: on a script that parses,
    [removeOpcodeRaw] deletes exactly the instructions with the given opcode and
    [removeOpcodeByData] exactly the canonical pushes of the given data, keeping
    every other instruction byte for byte and in order; the flag of
    [removeOpcodeByData] says whether something was deleted. *)
Theorem removeOpcode_spec (tks : list token) (opcode : Z) (data : bytes) :
  Forall wf_token tks -> len (enc_tokens tks) < 2 ^ 31 -> data <> [] ->
  removeOpcodeRaw (E := ErrorCode) (enc_tokens tks) opcode
    = Ok (enc_tokens (List.filter (fun tk => negb (tk_op tk =? opcode)) tks))
  /\ removeOpcodeByData (E := ErrorCode) (enc_tokens tks) data
    = Ok (enc_tokens (List.filter (fun tk => negb (pushes_exactly data tk)) tks),
          existsb (pushes_exactly data) tks).
Proof.
  intros Hw Hlen Hd. unfold removeOpcodeRaw, removeOpcodeByData.
  destruct (Z.eqb_spec (len (enc_tokens tks)) 0) as [H0|H0].
  { apply enc_tokens_empty in H0 as ->. done. }
  destruct (Z.eqb_spec (len data) 0) as [Hd0|_]; [by apply len_0 in Hd0|].
  destruct (tokenize_tokens (E := ErrorCode) tks Hw (enc_tokens_ok _ Hw) Hlen) as [Ht _].
  rewrite Ht. cbn [rbind orb]. split.
  - set (p := fun tk => tk_op tk =? opcode).
    change (None, 0) with ((fun l => (removed p l, len (enc_tokens l))) []).
    rewrite (removal_loop _ p (fun l => (removed p l, len (enc_tokens l)))); [|done|done|].
    + simpl. by rewrite removed_default.
    + intros pre tk post t Heq Ho _ Hoff. by apply (removeOpcodeRaw_loop tks opcode pre tk post).
  - set (p := pushes_exactly data).
    change (None, 0, false) with ((fun l => (removed p l, len (enc_tokens l), existsb p l)) []).
    rewrite (removal_loop _ p (fun l => (removed p l, len (enc_tokens l), existsb p l))); [|done|done|].
    + simpl. by rewrite removed_default.
    + intros pre tk post t Heq Ho Hdt Hoff.
      rewrite (removeOpcodeCanonical_loop tks data pre tk post) by done. simpl.
      rewrite existsb_app. simpl. by rewrite orb_false_r.
Qed.

Lemma removeOpcode_spec_witness :
  let tks := [mkToken OP_DUP None; mkToken 2 (Some [7; 8]); mkToken OP_CODESEPARATOR None;
              mkToken OP_CHECKSIG None] in
  removeOpcodeRaw (E := ErrorCode) (enc_tokens tks) OP_CODESEPARATOR
    = Ok (enc_tokens (List.filter (fun tk => negb (tk_op tk =? OP_CODESEPARATOR)) tks))
  /\ removeOpcodeByData (E := ErrorCode) (enc_tokens tks) [7; 8]
    = Ok (enc_tokens (List.filter (fun tk => negb (pushes_exactly [7; 8] tk)) tks),
          existsb (pushes_exactly [7; 8]) tks).
Proof.
  apply (removeOpcode_spec
    [mkToken OP_DUP None; mkToken 2 (Some [7; 8]); mkToken OP_CODESEPARATOR None;
     mkToken OP_CHECKSIG None] OP_CODESEPARATOR [7; 8]); [|reflexivity|done].
  repeat constructor; vm_compute; congruence.
Defined.

(** *** Push-only scripts and signature operations *)

Lemma IsPushOnlyScript_tokens {E} tks :
  Forall wf_token tks -> len (enc_tokens tks) < 2 ^ 31 ->
  IsPushOnlyScript (E := E) (enc_tokens tks) = Ok (forallb (fun tk => tk_op tk <=? OP_16) tks).
Proof.
  intros Hw Hlen. unfold IsPushOnlyScript.
  destruct (tokenize_tokens (E := E) tks Hw (enc_tokens_ok _ Hw) Hlen) as [Ht He].
  rewrite Ht. simpl.
  rewrite (rfold_trace _ (fun ok tk => ok && negb (OP_16 <? tk_op tk))).
  2: { intros s t tk Ho _. unfold ScriptTokenizer_Opcode. by rewrite Ho. }
  simpl. unfold ScriptTokenizer_Err. rewrite He. simpl. f_equal.
  rewrite andb_true_r.
  clear. assert (Hg : forall b, fold_left (fun ok tk => ok && negb (OP_16 <? tk_op tk)) tks b
    = b && forallb (fun tk => tk_op tk <=? OP_16) tks).
  { induction tks as [|tk tks IH]; intros b; simpl; [by rewrite andb_true_r|].
    rewrite IH, <- andb_assoc. f_equal. f_equal. by rewrite Z.ltb_antisym, negb_involutive. }
  apply Hg.
Qed.

(** The count of one instruction, given the opcode before it. *)
Definition sigops_of (precise : bool) (prev : Z) (tk : token) : Z :=
  if (tk_op tk =? OP_CHECKSIG) || (tk_op tk =? OP_CHECKSIGVERIFY) then 1
  else if (tk_op tk =? OP_CHECKMULTISIG) || (tk_op tk =? OP_CHECKMULTISIGVERIFY) then
    if precise && (OP_1 <=? prev) && (prev <=? OP_16) then prev - 80 else MaxPubKeysPerMultiSig
  else 0.

Fixpoint sigops (precise : bool) (prev : Z) (tks : list token) : Z :=
  match tks with
  | [] => 0
  | tk :: r => sigops_of precise prev tk + sigops precise (tk_op tk) r
  end.

Lemma countSigOpsV0_trace {E} precise tks t n prev :
  exists q, rfold (countSigOpsV0_step (E := E) precise) (n, prev) (tok_trace t tks)
            = Ok (n + sigops precise prev tks, q).
Proof.
  rewrite (rfold_trace _ (fun st tk => (st.1 + sigops_of precise st.2 tk, tk_op tk))).
  - revert n prev. induction tks as [|tk tks IH]; intros n prev; simpl.
    { exists prev. do 2 f_equal. lia. }
    destruct (IH (n + sigops_of precise prev tk) (tk_op tk)) as [q ->].
    exists q. do 2 f_equal. lia.
  - intros [m q] t' tk Ho _. unfold countSigOpsV0_step, ScriptTokenizer_Opcode, sigops_of.
    rewrite Ho. simpl. case_if; [done|]. case_if; [|by rewrite Z.add_0_r].
    case_if; [|done]. unfold AsSmallInt. bool_to_prop.
    destruct (Z.eqb_spec q OP_0); [lia|]. done.
Qed.

(** Every script starts with instructions; the counters stop where it breaks. *)
Lemma countSigOpsV0_prefix {E} script :
  bytes_ok script -> len script < 2 ^ 31 ->
  exists tks rest, script = enc_tokens tks ++ rest /\ Forall wf_token tks /\ parse_one rest = None
    /\ forall precise, countSigOpsV0 (E := E) script precise = Ok (sigops precise OP_INVALIDOPCODE tks).
Proof.
  intros Hok Hlen. destruct (tokenize_prefix (E := E) script Hok Hlen) as (tks & rest & t_end & Ht & Heq & Hw & Hend).
  exists tks, rest. split_and!; [done|done|by destruct Hend as [[-> _]|(_ & ? & _)]|]. intros precise. unfold countSigOpsV0. rewrite Ht. simpl.
  by destruct (countSigOpsV0_trace (E := E) precise tks (MakeScriptTokenizer 0 script) 0
                 OP_INVALIDOPCODE) as [q ->].
Qed.

Lemma sigops_bounds precise prev tks :
  0 <= sigops precise prev tks <= sigops false prev tks
  /\ sigops false prev tks <= MaxPubKeysPerMultiSig * len tks.
Proof.
  revert prev. induction tks as [|tk tks IH]; intros prev; [by vm_compute|].
  simpl. specialize (IH (tk_op tk)) as [[H1 H2] H3]. rewrite len_cons.
  assert (0 <= sigops_of precise prev tk <= sigops_of false prev tk /\
          sigops_of false prev tk <= MaxPubKeysPerMultiSig).
  { unfold sigops_of, MaxPubKeysPerMultiSig. simpl.
    repeat case_if; lia. }
  unfold MaxPubKeysPerMultiSig in *. lia.
Qed.

(** The instructions that check one signature, and those that check several. *)
Definition checks_one (tk : token) : bool := (tk_op tk =? OP_CHECKSIG) || (tk_op tk =? OP_CHECKSIGVERIFY).
Definition checks_many (tk : token) : bool := (tk_op tk =? OP_CHECKMULTISIG) || (tk_op tk =? OP_CHECKMULTISIGVERIFY).

Definition occurrences (p : token -> bool) (tks : list token) : Z := len (List.filter p tks).

(** The number of keys that the instruction before a multiple check announces:
    [OP_1] to [OP_16], or else the maximum. *)
Definition announced (before : option token) : Z :=
  match before with
  | Some tk => if (OP_1 <=? tk_op tk) && (tk_op tk <=? OP_16) then tk_op tk - 80 else MaxPubKeysPerMultiSig
  | None => MaxPubKeysPerMultiSig
  end.

(** Each instruction with the one before it. *)
Definition with_previous (tks : list token) : list (option token * token) := zip (None :: map Some tks) tks.

Definition announced_keys (tks : list token) : Z :=
  foldr Z.add 0 (map (fun p => announced p.1) (List.filter (fun p => checks_many p.2) (with_previous tks))).

Lemma sigops_quick prev tks :
  sigops false prev tks = occurrences checks_one tks + MaxPubKeysPerMultiSig * occurrences checks_many tks.
Proof.
  revert prev. induction tks as [|tk tks IH]; intros prev; [done|]. cbn [sigops]. rewrite IH.
  unfold occurrences, sigops_of. cbn [List.filter andb]. fold (checks_one tk) (checks_many tk).
  assert (checks_one tk = true -> checks_many tk = false) by (unfold checks_one, checks_many; intros; bool_to_prop; lia).
  destruct (checks_one tk), (checks_many tk); rewrite ?len_cons; try done; try lia.
Qed.

Lemma sigops_precise before tks :
  let prev := match before with Some tk => tk_op tk | None => OP_INVALIDOPCODE end in
  sigops true prev tks = occurrences checks_one tks
    + foldr Z.add 0 (map (fun p => announced p.1) (List.filter (fun p => checks_many p.2) (zip (before :: map Some tks) tks))).
Proof.
  cbv zeta. revert before. induction tks as [|tk tks IH]; intros before; [done|]. cbn [sigops].
  change (zip (before :: map Some (tk :: tks)) (tk :: tks)) with ((before, tk) :: zip (Some tk :: map Some tks) tks).
  specialize (IH (Some tk)). cbv beta iota in IH. rewrite IH. clear IH. set (rest := zip (Some tk :: map Some tks) tks).
  unfold occurrences, sigops_of. cbn [List.filter andb snd]. fold (checks_one tk) (checks_many tk).
  assert (checks_one tk = true -> checks_many tk = false) by (unfold checks_one, checks_many; intros; bool_to_prop; lia).
  destruct (checks_one tk), (checks_many tk); rewrite ?len_cons; cbn [map foldr fst]; try lia.
  unfold announced. destruct before as [b|]; [|cbn; lia]. by destruct (_ && _); lia.
Qed.

(** C39: Signature operations are counted as documented.  Every byte string is a
    sequence of instructions and a rest from which no instruction can be read; the
    quick count is the number of its single checks plus twenty for each multiple
    check; the precise count is the number of its single checks plus, for each
    multiple check, the number of keys of the [OP_1] to [OP_16] right before it, or
    twenty without one.  The precise count is at most the quick one, which is at most
    twenty per byte. *)
Theorem countSigOpsV0_exact (script : bytes) :
  bytes_ok script -> len script < 2 ^ 31 ->
  exists tks rest, script = enc_tokens tks ++ rest /\ Forall wf_token tks /\ parse_one rest = None
    /\ let quick := occurrences checks_one tks + MaxPubKeysPerMultiSig * occurrences checks_many tks in
       let precise := occurrences checks_one tks + announced_keys tks in
       GetSigOpCount (E := ErrorCode) script = Ok quick
       /\ countSigOpsV0 (E := ErrorCode) script true = Ok precise
       /\ 0 <= precise <= quick /\ quick <= MaxPubKeysPerMultiSig * len script.
Proof.
  intros Hok Hlen.
  destruct (countSigOpsV0_prefix (E := ErrorCode) script Hok Hlen) as (tks & rest & Heq & Hw & Hrest & Hc).
  exists tks, rest. split_and!; try done. cbv zeta.
  pose proof (sigops_precise None tks) as Hp. cbv zeta iota in Hp. fold (with_previous tks) (announced_keys tks) in Hp.
  rewrite <- Hp, <- (sigops_quick OP_INVALIDOPCODE).
  destruct (sigops_bounds true OP_INVALIDOPCODE tks) as [Hpq Hq]. pose proof (enc_tokens_length tks) as Hn.
  split_and!; [apply Hc|apply Hc|lia|lia|]. rewrite Heq, len_app. pose proof (len_nonneg rest). fold (len tks) in Hn.
  unfold MaxPubKeysPerMultiSig in *. lia.
Qed.

Lemma countSigOpsV0_exact_witness :
  let script := [OP_2; OP_CHECKMULTISIG; OP_CHECKSIG; OP_PUSHDATA1; 9] in
  exists tks rest, script = enc_tokens tks ++ rest /\ Forall wf_token tks /\ parse_one rest = None
    /\ let quick := occurrences checks_one tks + MaxPubKeysPerMultiSig * occurrences checks_many tks in
       let precise := occurrences checks_one tks + announced_keys tks in
       GetSigOpCount (E := ErrorCode) script = Ok quick
       /\ countSigOpsV0 (E := ErrorCode) script true = Ok precise
       /\ 0 <= precise <= quick /\ quick <= MaxPubKeysPerMultiSig * len script.
Proof.
  apply (countSigOpsV0_exact [OP_2; OP_CHECKMULTISIG; OP_CHECKSIG; OP_PUSHDATA1; 9]);
    [repeat constructor; lia|reflexivity].
Defined.

Example sigop_counts :
  let script := [OP_2; OP_CHECKMULTISIG; OP_CHECKSIG; OP_0; OP_CHECKMULTISIGVERIFY; OP_PUSHDATA1; 9] in
  GetSigOpCount (E := ErrorCode) script = Ok 41 /\ countSigOpsV0 (E := ErrorCode) script true = Ok 23.
Proof. split; reflexivity. Qed.

(** *** Built scripts are recognised *)

(** The builder writes the instructions in order when they fit. *)
Lemma build_script {E} items :
  Forall item_ok items -> len (enc_tokens (map item_token items)) <= MaxScriptSize ->
  exists b, build (E := E) items NewScriptBuilder = Ok b
    /\ finish_script b = Ok (enc_tokens (map item_token items)).
Proof.
  intros Hi Hl. exists (sb_append NewScriptBuilder (enc_tokens (map item_token items))).
  split; [by apply build_fits|done].
Qed.

Lemma push_token_direct d : 2 <= len d < 76 -> enc_token (push_token d) = len d :: d.
Proof.
  intros Hd. unfold push_token. destruct d as [|x d]; [change (len []) with 0 in Hd; lia|].
  assert (HL : opcode_length (len (x :: d)) = len (x :: d) + 1) by (unfold opcode_length; z_test; done).
  z_test. unfold enc_token. simpl. rewrite HL. z_test. done.
Qed.

(** The envelope [OP_FALSE OP_IF "CT" <payload> OP_ENDIF OP_FALSE]. *)
Definition contract_script (payload : bytes) : bytes :=
  [OP_FALSE; OP_IF; 2; 67; 84; len payload] ++ payload ++ [OP_ENDIF; OP_FALSE].

Definition contract_payload (payload : bytes) : Prop :=
  3 <= len payload < 76 /\ payload !! 0%nat = Some 1 /\ payload !! 1%nat <> Some 0.

Lemma payToContractScript_eq payload :
  bytes_ok payload -> contract_payload payload ->
  payToContractScript payload = Ok (contract_script payload).
Proof.
  intros Hok (Hl & H0 & H1). unfold payToContractScript, ContractAddressMinPayloadLen.
  z_test. unfold at_is. rewrite bool_decide_true by done. rewrite bool_decide_false by done. simpl.
  set (items := [BOp OP_FALSE; BOp OP_IF; BData contractScriptMagic; BData payload; BOp OP_ENDIF; BOp OP_FALSE]).
  assert (Henc : enc_tokens (map item_token items) = contract_script payload).
  { unfold enc_tokens, items. simpl. rewrite (push_token_direct payload) by lia.
    unfold contract_script. simpl. by rewrite ?app_nil_r. }
  destruct (build_script (E := ErrorCode) items) as (b & Hb & Hf).
  - repeat constructor; try (vm_compute; congruence); try lia; try done.
    unfold MaxScriptElementSize. lia.
  - rewrite Henc. unfold contract_script, MaxScriptSize. len_lia.
  - rewrite <- Henc, <- Hf. injection Hb as <-. done.
Qed.

Lemma len_contract_script p : len (contract_script p) = len p + 8.
Proof. unfold contract_script. len_lia. Qed.

Lemma contract_script_tail p i b :
  [OP_ENDIF; OP_FALSE] !! i = Some b -> at_is (contract_script p) (Z.to_nat (6 + len p + Z.of_nat i)) b = true.
Proof.
  intros Hi. unfold at_is. apply bool_decide_eq_true. unfold contract_script. rewrite app_assoc.
  rewrite list.lookup_app_r by len_lia. rewrite <- Hi. f_equal. len_lia.
Qed.

Lemma extractContractScriptPayload_script p :
  3 <= len p -> p !! 0%nat = Some 1 -> p !! 1%nat <> Some 0 ->
  extractContractScriptPayload (contract_script p) = Some p.
Proof.
  intros Hl H0 H1. unfold extractContractScriptPayload, ContractAddressMinPayloadLen.
  rewrite len_contract_script.
  change (at_is (contract_script p) 0 OP_FALSE) with true.
  change (at_is (contract_script p) 1 OP_IF) with true.
  change (at_is (contract_script p) 2 (len contractScriptMagic)) with true.
  change (bytes_eqb (take 2 (drop 3 (contract_script p))) contractScriptMagic) with true.
  change (contract_script p !! 5%nat) with (Some (len p)). simpl default.
  replace (7 + len p) with (6 + len p + Z.of_nat 1) by lia.
  rewrite (contract_script_tail p 1 OP_FALSE eq_refl).
  replace (6 + len p) with (6 + len p + Z.of_nat 0) by lia.
  rewrite (contract_script_tail p 0 OP_ENDIF eq_refl). z_test.
  rewrite drop_0, take_len_app by done.
  unfold at_is. rewrite bool_decide_true by done. by rewrite bool_decide_false.
Qed.

Lemma take_two {A} (l : list A) n a b :
  length l = (n + 2)%nat -> l !! n = Some a -> l !! S n = Some b -> l = take n l ++ [a; b].
Proof.
  intros Hl Ha Hb. rewrite <- (take_drop n l) at 1. f_equal.
  rewrite (drop_S l a n Ha), (drop_S l b (S n) Hb). by rewrite drop_ge by lia.
Qed.

(** Conversely the recogniser accepts only envelopes. *)
Lemma extractContractScriptPayload_inv s p :
  extractContractScriptPayload s = Some p ->
  s = contract_script p /\ 3 <= len p /\ p !! 0%nat = Some 1 /\ p !! 1%nat <> Some 0.
Proof.
  unfold extractContractScriptPayload, ContractAddressMinPayloadLen, at_is, bytes_eqb.
  case_if; [done|]. case_if; [done|]. set (n := default 0 (s !! 5%nat)). case_if; [done|].
  case_if; [done|]. intros [= <-]. repeat match goal with
    | H : bool_decide _ = true |- _ => apply bool_decide_eq_true in H
    | H : bool_decide _ = false |- _ => apply bool_decide_eq_false in H
    end.
  do 6 (destruct s as [|? s]; [done|]). simpl in *. simplify_eq/=.
  rewrite drop_0 in *. unfold n in *. clear n.
  rewrite !len_cons in H6.
  assert (Hs : s = take (Z.to_nat z4) s ++ [OP_ENDIF; OP_FALSE]).
  { apply take_two; [len_lia| |].
    - rewrite <- H5. replace (Z.to_nat (6 + z4)) with (6 + Z.to_nat z4)%nat by lia. done.
    - rewrite <- H4. replace (Z.to_nat (7 + z4)) with (7 + Z.to_nat z4)%nat by lia. done. }
  assert (Hn : len (take (Z.to_nat z4) s) = z4) by (rewrite len_take_le; lia).
  unfold contract_script. rewrite Hn. split_and!; [|lia|done|done].
  rewrite Hs at 1. unfold contractScriptMagic in H0. simplify_eq/=. done.
Qed.

Lemma contract_script_class {E} p :
  3 <= len p -> p !! 0%nat = Some 1 -> p !! 1%nat <> Some 0 ->
  GetScriptClass (E := E) (contract_script p) = Ok ContractTy.
Proof.
  intros Hl H0 H1. unfold GetScriptClass, typeOfScript.
  change (0 =? BaseSegwitWitnessVersion) with true.
  assert (Hms : isMultisigScript (E := E) 0 (contract_script p) = Ok false).
  { unfold isMultisigScript, extractMultisigScriptDetails, contract_script.
    rewrite app_assoc. change [OP_ENDIF; OP_FALSE] with ([OP_ENDIF] ++ [OP_FALSE]).
    rewrite (app_assoc _ [OP_ENDIF]), list.last_snoc.
    rewrite bool_decide_false by done. by rewrite orb_true_r. }
  assert (Hc : isContractScript (contract_script p) = true).
  { unfold isContractScript. by rewrite extractContractScriptPayload_script. }
  unfold isPubKeyScript, extractPubKey, extractCompressedPubKey, extractUncompressedPubKey,
    isPubKeyHashScript, extractPubKeyHash, isScriptHashScript, extractScriptHash,
    isWitnessPubKeyHashScript, extractWitnessPubKeyHash, isWitnessScriptHashScript,
    extractWitnessV0ScriptHash.
  change (at_is (contract_script p) 0 OP_DATA_33) with false.
  change (at_is (contract_script p) 0 OP_DATA_65) with false.
  change (at_is (contract_script p) 0 OP_DUP) with false.
  change (at_is (contract_script p) 0 OP_HASH160) with false.
  change (at_is (contract_script p) 1 OP_DATA_20) with false.
  change (at_is (contract_script p) 1 OP_DATA_32) with false.
  rewrite !andb_false_r. simpl. rewrite Hms. simpl. by rewrite Hc.
Qed.

(** C38: Contract output scripts: a contract payload (3 to 75 bytes, version 1,
    non-zero kind) is wrapped in an envelope that is classified as a contract
    output and from which the same payload is extracted; and every script the
    recogniser accepts with a payload of fewer than 76 bytes is the one
    [payToContractScript] writes for that payload. *)
Theorem contract_script_roundtrip (payload : bytes) :
  bytes_ok payload -> contract_payload payload ->
  exists s, payToContractScript payload = Ok s
    /\ GetScriptClass (E := ErrorCode) s = Ok ContractTy
    /\ forall s' : bytes, extractContractScriptPayload s' = Some payload <-> s' = s.
Proof.
  intros Hok Hp. exists (contract_script payload). split; [by apply payToContractScript_eq|].
  destruct Hp as (Hl & H0 & H1). split; [apply contract_script_class; done || lia|].
  intros s'. split; [by intros [-> _]%extractContractScriptPayload_inv|].
  intros ->. apply extractContractScriptPayload_script; done || lia.
Qed.

Lemma contract_script_roundtrip_witness :
  exists s, payToContractScript [1; 2; 7; 8] = Ok s
    /\ GetScriptClass (E := ErrorCode) s = Ok ContractTy
    /\ forall s' : bytes, extractContractScriptPayload s' = Some [1; 2; 7; 8] <-> s' = s.
Proof.
  apply (contract_script_roundtrip [1; 2; 7; 8]); [repeat constructor; lia|].
  split_and!; reflexivity || done.
Defined.

(** The standard address scripts: for a 20-byte hash and a 32-byte hash or
    key, each constructor succeeds, the script gets its own class, and the hash
    is extracted from it again. *)
Theorem standard_script_roundtrip (h20 h32 : bytes) :
  len h20 = 20 -> len h32 = 32 ->
  (exists s, payToPubKeyHashScript h20 = Ok s /\ GetScriptClass (E := ErrorCode) s = Ok PubKeyHashTy
     /\ extractPubKeyHash s = Some h20)
  /\ (exists s, payToScriptHashScript h20 = Ok s /\ GetScriptClass (E := ErrorCode) s = Ok ScriptHashTy
     /\ extractScriptHash s = Some h20)
  /\ (exists s, payToWitnessPubKeyHashScript h20 = Ok s
     /\ GetScriptClass (E := ErrorCode) s = Ok WitnessV0PubKeyHashTy
     /\ extractWitnessPubKeyHash s = Some h20
     /\ ExtractWitnessProgramInfo s = Ok (0, Some h20))
  /\ (exists s, payToWitnessScriptHashScript h32 = Ok s
     /\ GetScriptClass (E := ErrorCode) s = Ok WitnessV0ScriptHashTy
     /\ extractWitnessV0ScriptHash s = Some h32
     /\ ExtractWitnessProgramInfo s = Ok (0, Some h32))
  /\ (exists s, payToWitnessTaprootScript h32 = Ok s
     /\ GetScriptClass (E := ErrorCode) s = Ok WitnessV1TaprootTy
     /\ extractWitnessV1KeyBytes s = Some h32
     /\ ExtractWitnessProgramInfo s = Ok (1, Some h32)).
Proof.
  intros H20 H32.
  do 20 (destruct h20 as [|? h20]; [done|]). destruct h20; [clear H20|exfalso; len_lia].
  do 32 (destruct h32 as [|? h32]; [done|]). destruct h32 as [|? h32]; [clear H32|exfalso; len_lia].
  split_and!; (eexists; split_and!; [vm_compute; reflexivity|..]); try (vm_compute; reflexivity).
  unfold GetScriptClass, typeOfScript, isMultisigScript, extractMultisigScriptDetails.
  match goal with |- context [bool_decide (last_of ?l = ?x)] => generalize (bool_decide (last_of l = x)) end.
  intros []; vm_compute; reflexivity.
Qed.

Lemma standard_script_roundtrip_witness :
  exists s, payToWitnessTaprootScript (replicate 32 174) = Ok s
    /\ GetScriptClass (E := ErrorCode) s = Ok WitnessV1TaprootTy.
Proof.
  destruct (standard_script_roundtrip (replicate 20 7) (replicate 32 174) eq_refl eq_refl)
    as (_ & _ & _ & _ & s & Hs & Hc & _). exists s. split; [exact Hs|exact Hc].
Defined.

(** *** Multisig *)

Lemma build_app {E} l k b : build (E := E) (l ++ k) b = (let! b := build l b in build k b).
Proof.
  revert b. induction l as [|i l IH]; intros b; simpl; [done|].
  destruct (build_step i b); simpl; auto.
Qed.

Lemma build_data {E} keys b :
  build (E := E) (map BData keys) b = Ok (fold_left (fun b key => ScriptBuilder_AddData key b) keys b).
Proof. revert b. induction keys as [|k keys IH]; intros b; simpl; auto. Qed.

Lemma strict_key_token key :
  isStrictPubKeyEncoding key = true -> push_token key = mkToken (len key) (Some key)
  /\ (len key = 33 \/ len key = 65).
Proof.
  unfold isStrictPubKeyEncoding. intros H. assert (Hl : len key = 33 \/ len key = 65).
  { apply orb_true_iff in H as [H|H]; bool_to_prop; lia. }
  split; [|done]. unfold push_token. destruct key as [|x key]; [by destruct Hl|].
  z_test. done.
Qed.

Lemma small_int_token v :
  0 <= v <= 16 -> exists op, int_token v = mkToken op None /\ IsSmallInt op = true
    /\ AsSmallInt op = v /\ wf_token (mkToken op None).
Proof.
  intros Hv. unfold int_token. destruct (Z.eqb_spec v 0) as [->|H0].
  { exists OP_0. by repeat split. }
  z_test. rewrite ?orb_true_r. exists (80 + v). unfold IsSmallInt, AsSmallInt. z_test.
  split_and!; [done|done|lia|]. split; [unfold is_byte; simpl; lia|].
  simpl. unfold opcode_length. z_test. done.
Qed.

Lemma multisig_keys_tokens {E} keys t n acc tail fuel :
  Forall (fun k => bytes_ok k /\ isStrictPubKeyEncoding k = true) keys ->
  forall op, IsSmallInt op = true -> wf_token (mkToken op None) ->
  tok_at t (enc_tokens (map push_token keys ++ [mkToken op None]) ++ tail) -> (length keys < fuel)%nat ->
  exists t', multisig_keys (E := E) fuel true t n acc = Ok (t', n + len keys, acc ++ keys)
    /\ tok_at t' tail /\ tok_op t' = Some op /\ tok_script t' = tok_script t.
Proof.
  intros Hk op Hop Hwop. revert t n acc fuel. induction Hk as [|k keys [Hok Hs] Hk IH];
    intros t n acc fuel Ht Hf; (destruct fuel as [|fuel]; [simpl in Hf; lia|]).
  - change (enc_tokens _) with (enc_token (mkToken op None)) in Ht. cbn [multisig_keys].
    rewrite (Next_token t (mkToken op None) tail Ht Hwop). simpl. rewrite Hop.
    eexists. split; [rewrite app_nil_r; do 3 f_equal; change (len []) with 0; lia|].
    split; [by apply (tok_at_step t (mkToken op None) tail)|done].
  - destruct (strict_key_token k Hs) as [Hpt Hl]. cbn [multisig_keys map] in *.
    rewrite <- app_comm_cons, enc_tokens_cons, <- app_assoc in Ht.
    assert (Hw : wf_token (push_token k)) by (apply push_token_wf; [done|lia]).
    rewrite (Next_token t (push_token k) _ Ht Hw). apply tok_at_step in Ht. rewrite Hpt in *.
    cbn [rbind negb]. unfold ScriptTokenizer_Opcode, ScriptTokenizer_Data. simpl.
    assert (IsSmallInt (len k) = false) as -> by (unfold IsSmallInt; z_test; done).
    rewrite Hs. simpl. simpl in Hf.
    destruct (IH _ (n + 1) (acc ++ [k]) fuel Ht ltac:(lia)) as (t' & Hr & Ht' & Ho & Hsc).
    exists t'. split_and!; [|done|done|done]. rewrite Hr, <- app_assoc. do 3 f_equal. rewrite len_cons. lia.
Qed.

Definition multisig_items (keys : list bytes) (m : Z) : list build_item :=
  BInt m :: map BData keys ++ [BInt (len keys); BOp OP_CHECKMULTISIG].

Lemma MultiSigScript_build keys m b :
  m <= len keys -> build (E := ErrorCode) (multisig_items keys m) NewScriptBuilder = Ok b ->
  MultiSigScript keys m = finish_script b.
Proof.
  intros Hm Hb. unfold MultiSigScript, multisig_items in *. z_test. simpl in Hb.
  inv_bind Hb. rewrite Hr. simpl. rewrite build_app, build_data in Hb. simpl in Hb.
  inv_bind Hb. rewrite Hr0. simpl. by injection Hb as <-.
Qed.

Lemma multisig_items_len keys m :
  Forall (fun k => bytes_ok k /\ isStrictPubKeyEncoding k = true) keys ->
  0 <= m <= 16 -> len keys <= 16 ->
  len (enc_tokens (map item_token (multisig_items keys m))) <= 3 + 66 * len keys.
Proof.
  intros Hk Hm Hn. unfold multisig_items. cbn [map]. rewrite enc_tokens_cons, map_app, enc_tokens_app.
  rewrite !len_app, map_map. simpl item_token.
  destruct (small_int_token m Hm) as (o1 & -> & _).
  destruct (small_int_token (len keys) ltac:(pose proof (len_nonneg keys); lia)) as (o2 & Ho2 & _).
  cbn [map item_token]. rewrite Ho2.
  change (len (enc_tokens [mkToken o2 None; mkToken OP_CHECKMULTISIG None])) with 2.
  change (len (enc_token (mkToken o1 None))) with 1.
  enough (len (enc_tokens (map (fun x => push_token x) keys)) <= 66 * len keys) by lia.
  clear - Hk. induction Hk as [|k keys [_ Hs] Hk IH]; [done|]. cbn [map]. rewrite enc_tokens_cons, len_app.
  destruct (strict_key_token k Hs) as [_ Hl]. rewrite push_token_direct by lia. rewrite !len_cons. lia.
Qed.

Lemma multisig_tokenize keys m s :
  Forall (fun k => bytes_ok k /\ isStrictPubKeyEncoding k = true) keys -> 0 <= m <= 16 -> len keys <= 16 ->
  s = enc_tokens (map item_token (multisig_items keys m)) -> Forall wf_token (map item_token (multisig_items keys m)) ->
  extractMultisigScriptDetails (E := ErrorCode) 0 s true = Ok (mkMultiSigDetails m (len keys) keys true).
Proof.
  intros Hk Hm Hn Hs Hw. pose proof (multisig_items_len keys m Hk Hm Hn) as Hl. rewrite <- Hs in Hl.
  assert (Ht : tok_at (MakeScriptTokenizer 0 s) s)
    by (apply tok_at_start; [rewrite Hs; by apply enc_tokens_ok|lia]).
  unfold multisig_items in Hs. cbn [map] in Hs. rewrite map_app, map_map in Hs. simpl item_token in Hs.
  destruct (small_int_token m Hm) as (o1 & E1 & S1 & A1 & W1).
  destruct (small_int_token (len keys) ltac:(pose proof (len_nonneg keys); lia)) as (o2 & E2 & S2 & A2 & W2).
  cbn [map item_token] in Hs. rewrite E1, E2, enc_tokens_cons in Hs.
  change [mkToken o2 None; mkToken OP_CHECKMULTISIG None] with ([mkToken o2 None] ++ [mkToken OP_CHECKMULTISIG None]) in Hs.
  rewrite app_assoc, enc_tokens_app in Hs.
  change (enc_tokens [mkToken OP_CHECKMULTISIG None]) with [OP_CHECKMULTISIG] in Hs.
  assert (Hlast : last_of s = Some OP_CHECKMULTISIG) by (rewrite Hs, app_assoc; apply list.last_snoc).
  pose proof (enc_tokens_length (map (fun x => push_token x) keys ++ [mkToken o2 None])) as Hlen.
  rewrite length_app, length_map in Hlen. simpl in Hlen.
  assert (H3 : 3 <= len s) by (rewrite Hs; len_lia).
  unfold extractMultisigScriptDetails. rewrite Hlast, bool_decide_true by done. z_test.
  rewrite Hs in Ht at 2. rewrite (Next_token _ _ _ Ht W1). apply tok_at_step in Ht. simpl. rewrite S1, A1. simpl.
  destruct (multisig_keys_tokens (E := ErrorCode) keys _ 0 [] [OP_CHECKMULTISIG] (S (length s)) Hk o2 S2 W2 Ht)
    as (t' & Hr & Ht' & Ho & Hsc); [rewrite Hs; len_lia|].
  simpl in Hr. rewrite Hr. simpl. rewrite (tok_at_Done _ _ Ht'). change (len [OP_CHECKMULTISIG] =? 0) with false. simpl.
  unfold ScriptTokenizer_Opcode. rewrite Ho. simpl. rewrite S2, A2. z_test.
  pose proof (tok_at_len _ _ Ht') as Hoff. rewrite Hsc in *. simpl in Hoff |- *.
  change (len [OP_CHECKMULTISIG]) with 1 in Hoff. unfold ScriptTokenizer_ByteIndex.
  rewrite int32_id by (unfold is_int32; lia). z_test. done.
Qed.

(** Multisig scripts: [m] of [n <= 16] keys in strict encoding build into a
    script whose details are read back exactly: [m], [n] and the keys in order. *)
Theorem multisig_roundtrip (keys : list bytes) (m : Z) :
  Forall (fun k => bytes_ok k /\ isStrictPubKeyEncoding k = true) keys ->
  0 <= m <= len keys -> len keys <= 16 ->
  exists s, MultiSigScript keys m = Ok s
    /\ extractMultisigScriptDetails (E := ErrorCode) 0 s true = Ok (mkMultiSigDetails m (len keys) keys true).
Proof.
  intros Hk Hm Hn.
  assert (Hi : Forall item_ok (multisig_items keys m)).
  { unfold multisig_items. constructor; [unfold item_ok, is_int64; lia|]. apply Forall_app. split.
    - apply Forall_map. eapply Forall_impl; [exact Hk|]. intros k [Hok Hs]. simpl.
      destruct (strict_key_token k Hs) as [_ Hl]. unfold MaxScriptElementSize. split; [done|lia].
    - pose proof (len_nonneg keys). repeat constructor; unfold item_ok, is_int64, is_byte; try lia; done. }
  destruct (build_script (E := ErrorCode) (multisig_items keys m) Hi) as (b & Hb & Hf).
  { pose proof (multisig_items_len keys m Hk ltac:(lia) Hn). unfold MaxScriptSize. lia. }
  eexists. split; [rewrite (MultiSigScript_build keys m b) by (lia || done); exact Hf|].
  apply multisig_tokenize; [done|lia|done|done|by apply items_wf].
Qed.

Lemma multisig_roundtrip_witness :
  exists s, MultiSigScript [2 :: replicate 32 5; 3 :: replicate 32 6] 1 = Ok s
    /\ extractMultisigScriptDetails (E := ErrorCode) 0 s true
       = Ok (mkMultiSigDetails 1 2 [2 :: replicate 32 5; 3 :: replicate 32 6] true).
Proof.
  apply (multisig_roundtrip [2 :: replicate 32 5; 3 :: replicate 32 6] 1); [|split; vm_compute; congruence|vm_compute; congruence].
  repeat constructor; vm_compute; congruence.
Defined.

(** ** Safety

    The loops over a tokenizer do not panic on any byte string. *)

Lemma rfold_trace_wp {E S} (f : S -> ScriptTokenizer -> result E S) (I : Z -> S -> Prop) script rest :
  (forall s t o, is_Some (tok_op t) -> 0 <= o <= tok_offset t -> tok_offset t <= len script -> I o s ->
     wp (f s t) (I (tok_offset t))) ->
  forall tks t s, tok_script t = script -> tok_at t (enc_tokens tks ++ rest) -> I (tok_offset t) s ->
  wp (rfold f s (tok_trace t tks)) (fun s => exists o, 0 <= o <= len script /\ I o s).
Proof.
  intros Hf. induction tks as [|tk tks IH]; intros t s Hscr Ht Hs; simpl.
  { exists (tok_offset t). split; [|done]. pose proof (tok_at_len _ _ Ht). pose proof (ta_off _ _ Ht).
    rewrite Hscr in *. pose proof (len_nonneg (enc_tokens [] ++ rest)). lia. }
  rewrite enc_tokens_cons, <- app_assoc in Ht. pose proof (tok_at_len _ _ Ht) as Hl.
  pose proof (tok_at_step _ _ _ Ht) as Ht'. pose proof (tok_at_len _ _ Ht') as Hl'. simpl in Hl'.
  set (t' := tok_step t tk (len (enc_token tk))) in *.
  assert (Ho : tok_offset t' = tok_offset t + len (enc_token tk)).
  { rewrite len_app in Hl. unfold t' in *. simpl in *. lia. }
  pose proof (ta_off _ _ Ht). pose proof (len_nonneg (enc_token tk)).
  pose proof (len_nonneg (enc_tokens tks ++ rest)). rewrite Hscr in Hl.
  apply (wp_bind _ _ (I (tok_offset t'))).
  - apply (Hf s t' (tok_offset t)); [by eexists|lia|len_lia|done].
  - intros a Ha. by apply IH.
Qed.

Lemma tokenize_wp {E S} (f : S -> ScriptTokenizer -> result E S) (I : Z -> S -> Prop) script s :
  bytes_ok script -> len script < 2 ^ 31 ->
  (forall s t o, is_Some (tok_op t) -> 0 <= o <= tok_offset t -> tok_offset t <= len script -> I o s ->
     wp (f s t) (I (tok_offset t))) ->
  I 0 s ->
  wp (let! '(l, _) := tokenize script in rfold f s l) (fun s => exists o, 0 <= o <= len script /\ I o s).
Proof.
  intros Hok Hlen Hf Hs. destruct (tokenize_prefix (E := E) script Hok Hlen) as (tks & rest & te & -> & Heq & _).
  simpl. apply (rfold_trace_wp f I script rest Hf); [done| |done].
  rewrite <- Heq. by apply tok_at_start.
Qed.

(** A script with instructions removed: still bytes, and not longer. *)
Definition shrunk (o : Z) (r : option bytes) : Prop :=
  match r with
  | Some r => bytes_ok r /\ len r <= o
  | None => True
  end.

Lemma subslice_wp {E} (l : bytes) lo hi :
  bytes_ok l -> 0 <= lo <= hi -> hi <= len l ->
  wp (subslice (E := E) l lo hi) (fun r => bytes_ok r /\ len r = hi - lo).
Proof.
  intros Hl Hlo Hhi. unfold subslice. z_test. split; [by apply Forall_take, Forall_drop|].
  rewrite len_take_le by (rewrite len_drop; lia). lia.
Qed.

(** What either removal does to the result and the offset. *)
Lemma removal_result_wp {E} (hit : bool) script (result : option bytes) o t :
  bytes_ok script -> 0 <= o <= tok_offset t -> tok_offset t <= len script -> shrunk o result ->
  wp (E := E)
    (if hit then match result with
                 | None => let! p := subslice script 0 o in Ok (Some p)
                 | Some r => Ok (Some r)
                 end
     else match result with
          | Some r => let! p := subslice script o (tok_offset t) in Ok (Some (r ++ p))
          | None => Ok None
          end) (shrunk (tok_offset t)).
Proof.
  intros Hok Ho Ht Hr. destruct hit, result as [r|]; simpl in *; try (split; [apply Hr|lia]); try done.
  - eapply wp_bind; [apply subslice_wp; [done|lia|lia]|]. intros p [Hp Hl]. split; [done|lia].
  - eapply wp_bind; [apply subslice_wp; [done|lia|lia]|]. intros p [Hp Hl].
    destruct Hr. split; [by apply bytes_ok_app|len_lia].
Qed.

Lemma removeOpcodeRaw_wp {E} script opcode :
  bytes_ok script -> len script < 2 ^ 31 ->
  wp (removeOpcodeRaw (E := E) script opcode) (fun r => bytes_ok r /\ len r <= len script).
Proof.
  intros Hok Hlen. unfold removeOpcodeRaw. case_if; [done|].
  set (I := fun o (st : option bytes * Z) => st.2 = o /\ shrunk o st.1).
  assert (H : wp (E := E) (let! '(l, _) := tokenize script in
    rfold (removeOpcodeRaw_step script opcode) (None, 0) l) (fun s => exists o, 0 <= o <= len script /\ I o s)).
  { apply tokenize_wp; try done. intros [res prev] t o [op Hop] Ho Ht [Hp Hs]. simpl in Hp, Hs. subst prev.
    unfold removeOpcodeRaw_step, ScriptTokenizer_Opcode, ScriptTokenizer_ByteIndex. rewrite Hop. simpl.
    pose proof (removal_result_wp (E := E) (op =? opcode) script res o t Hok Ho Ht Hs) as Hw.
    destruct (op =? opcode), res; simpl in *; try done; destruct (subslice _ _ _); try done; split; done. }
  destruct (tokenize script) as [[l te]| |]; simpl in *; try done.
  eapply wp_bind; [exact H|]. intros [[r|] prev] (o & Ho & _ & Hs); simpl in *; [|done].
  split; [apply Hs|]. destruct Hs. lia.
Qed.

Lemma removeOpcodeByData_wp {E} script data :
  bytes_ok script -> len script < 2 ^ 31 ->
  wp (removeOpcodeByData (E := E) script data) (fun r => bytes_ok r.1 /\ len r.1 <= len script).
Proof.
  intros Hok Hlen. unfold removeOpcodeByData. case_if; [done|].
  set (I := fun o (st : option bytes * Z * bool) => st.1.2 = o /\ shrunk o st.1.1).
  set (f := fun '(result, prevOffset, m) t => _).
  assert (Hall : wp (E := E) (let! '(l, _) := tokenize script in rfold f (None, 0, false) l)
    (fun s => exists o, 0 <= o <= len script /\ I o s)).
  { apply tokenize_wp; try done. intros [[res prev] m] t o [op Hop] Ho Ht [Hp Hs]. simpl in Hp, Hs. subst prev.
    unfold f, removeOpcodeCanonical, ScriptTokenizer_Opcode, ScriptTokenizer_ByteIndex. rewrite Hop. simpl.
    set (hit := isCanonicalPush _ _ && _).
    pose proof (removal_result_wp (E := E) hit script res o t Hok Ho Ht Hs) as Hw.
    destruct hit, res; simpl in *; try done; destruct (subslice _ _ _); try done; split; done. }
  destruct (tokenize script) as [[l te]| |]; simpl in *; try done.
  eapply wp_bind; [exact Hall|]. intros [[[r|] prev] m] (o & Ho & _ & Hs); simpl in *; [|done].
  split; [apply Hs|]. destruct Hs. lia.
Qed.

(** Reading the whole script. *)
Lemma checkScriptParses_no_panic script :
  bytes_ok script -> len script < 2 ^ 31 -> no_panic (checkScriptParses 0 script).
Proof.
  intros Hok Hlen. unfold checkScriptParses.
  destruct (tokenize_prefix (E := ErrorCode) script Hok Hlen) as (tks & rest & te & Ht & _).
  unfold tokenize in Ht. rewrite Ht. simpl. by destruct (ScriptTokenizer_Err te).
Qed.

Lemma ScriptHasOpSuccess_no_panic script :
  bytes_ok script -> len script < 2 ^ 31 -> no_panic (ScriptHasOpSuccess (E := ErrorCode) script).
Proof.
  intros Hok Hlen. eapply wp_no_panic, (tokenize_wp _ (fun _ _ => True)); try done.
  intros s t o [op Hop] _ _ _. unfold ScriptTokenizer_Opcode. by rewrite Hop.
Qed.
