(* ===== verification/Sha.v ===== *)
(** * SHA-256 and SHA-1

    The two hash functions of Go's standard library the script machine uses
    ([crypto/sha256], [crypto/sha1]; FIPS 180-4), over 32-bit words kept in [Z],
    and [chainhash]'s double and tagged hashes.  RIPEMD-160 is not part of the
    standard library and stays an interface. *)

From Stdlib Require Import ZArith Lia.
From stdpp Require Import base list numbers option strings.
From S2P Require Import Prelude ScriptNum Tokenizer.

(** ** 32-bit words *)

Definition add32 (a b : Z) : Z := uint32 (a + b).
Definition rotr32 (x n : Z) : Z := Z.lor (Z.shiftr x n) (uint32 (Z.shiftl x (32 - n))).
Definition rotl32 (x n : Z) : Z := rotr32 x (32 - n).
Definition not32 (x : Z) : Z := Z.lxor x 0xffffffff.

Fixpoint be_decode_acc (acc : Z) (l : bytes) : Z :=
  match l with
  | [] => acc
  | b :: r => be_decode_acc (acc * 256 + b) r
  end.
Definition be_decode (l : bytes) : Z := be_decode_acc 0 l.
Definition be_encode (n : nat) (x : Z) : bytes := reverse (le_encode n x).

(** [n] big-endian words off the front of a byte string. *)
Fixpoint be_words (n : nat) (l : bytes) : list Z :=
  match n with
  | O => []
  | S m => be_decode (take 4 l) :: be_words m (drop 4 l)
  end.

(** The padded message: a one bit, zeros up to 56 modulo 64, the bit length. *)
Definition sha_pad (msg : bytes) : bytes :=
  let n := len msg in
  let zeros := Z.to_nat ((55 - n) mod 64) in
  msg ++ [0x80] ++ replicate zeros 0 ++ be_encode 8 (uint64 (8 * n)).

Fixpoint sha_blocks (n : nat) (block : list Z -> bytes -> list Z) (h : list Z) (l : bytes) : list Z :=
  match n with
  | O => h
  | S m => sha_blocks m block (block h (take 64 l)) (drop 64 l)
  end.

Definition sha_run (block : list Z -> bytes -> list Z) (init : list Z) (msg : bytes) : bytes :=
  let l := sha_pad msg in
  concat (map (be_encode 4) (sha_blocks (length l / 64) block init l)).

(** ** SHA-256 *)

(** The constants are the first 32 bits of the fractional parts of the cube
    roots of the first 64 primes and of the square roots of the first 8. *)
Definition is_prime (n : Z) : bool :=
  forallb (fun d => negb (n mod Z.of_nat d =? 0)) (seq 2 (Z.to_nat n - 2)).

Definition primes : list Z := List.filter is_prime (map Z.of_nat (seq 2 310)).

Definition root_fraction (e p : Z) : Z :=
  uint32 (fold_left (fun r i =>
    let r' := r + 2 ^ (35 - Z.of_nat i) in
    if r' ^ e <=? p * 2 ^ (32 * e) then r' else r) (seq 0 36) 0).

Definition sha256_k : list Z := Eval vm_compute in map (root_fraction 3) primes.
Definition sha256_init : list Z := Eval vm_compute in map (root_fraction 2) (take 8 primes).

Definition nthz (l : list Z) (i : nat) : Z := nth i l 0.

(** The message schedule, newest word first. *)
Fixpoint sha256_schedule (n : nat) (w : list Z) : list Z :=
  match n with
  | O => w
  | S m =>
      let w2 := nthz w 1 in
      let w15 := nthz w 14 in
      let s1 := Z.lxor (Z.lxor (rotr32 w2 17) (rotr32 w2 19)) (Z.shiftr w2 10) in
      let s0 := Z.lxor (Z.lxor (rotr32 w15 7) (rotr32 w15 18)) (Z.shiftr w15 3) in
      sha256_schedule m (add32 (add32 s1 (nthz w 6)) (add32 s0 (nthz w 15)) :: w)
  end.

Definition sha256_round (st : list Z) (kw : Z * Z) : list Z :=
  match st with
  | [a; b; c; d; e; f; g; h] =>
      let s1 := Z.lxor (Z.lxor (rotr32 e 6) (rotr32 e 11)) (rotr32 e 25) in
      let ch := Z.lxor (Z.land e f) (Z.land (not32 e) g) in
      let t1 := add32 (add32 (add32 h s1) ch) (add32 kw.1 kw.2) in
      let s0 := Z.lxor (Z.lxor (rotr32 a 2) (rotr32 a 13)) (rotr32 a 22) in
      let maj := Z.lxor (Z.lxor (Z.land a b) (Z.land a c)) (Z.land b c) in
      let t2 := add32 s0 maj in
      [add32 t1 t2; a; b; c; add32 d t1; e; f; g]
  | _ => st
  end.

Definition sha256_block (h : list Z) (block : bytes) : list Z :=
  let w := reverse (sha256_schedule 48 (reverse (be_words 16 block))) in
  zip_with add32 h (fold_left sha256_round (zip sha256_k w) h).

Definition sha256 (msg : bytes) : bytes := sha_run sha256_block sha256_init msg.

(** ** SHA-1 *)

Definition sha1_init : list Z := [0x67452301; 0xefcdab89; 0x98badcfe; 0x10325476; 0xc3d2e1f0].

Fixpoint sha1_schedule (n : nat) (w : list Z) : list Z :=
  match n with
  | O => w
  | S m =>
      let x := Z.lxor (Z.lxor (nthz w 2) (nthz w 7)) (Z.lxor (nthz w 13) (nthz w 15)) in
      sha1_schedule m (rotl32 x 1 :: w)
  end.

Definition sha1_round (st : list Z) (iw : nat * Z) : list Z :=
  match st with
  | [a; b; c; d; e] =>
      let '(f, k) :=
        if (iw.1 <? 20)%nat then (Z.lxor (Z.land b c) (Z.land (not32 b) d), 0x5a827999)
        else if (iw.1 <? 40)%nat then (Z.lxor (Z.lxor b c) d, 0x6ed9eba1)
        else if (iw.1 <? 60)%nat then
          (Z.lxor (Z.lxor (Z.land b c) (Z.land b d)) (Z.land c d), 0x8f1bbcdc)
        else (Z.lxor (Z.lxor b c) d, 0xca62c1d6) in
      let t := add32 (add32 (add32 (rotl32 a 5) f) e) (add32 k iw.2) in
      [t; a; rotl32 b 30; c; d]
  | _ => st
  end.

Definition sha1_block (h : list Z) (block : bytes) : list Z :=
  let w := reverse (sha1_schedule 64 (reverse (be_words 16 block))) in
  zip_with add32 h (fold_left sha1_round (zip (seq 0 80) w) h).

Definition sha1 (msg : bytes) : bytes := sha_run sha1_block sha1_init msg.

(** ** [chainhash] *)

Definition HashB (b : bytes) : bytes := sha256 b.
Definition DoubleHashB (b : bytes) : bytes := sha256 (sha256 b).

(** [TaggedHash]: [SHA256(SHA256(tag) || SHA256(tag) || msgs...)]. *)
Definition TaggedHash (tag : bytes) (msgs : list bytes) : bytes :=
  let shaTag := sha256 tag in
  sha256 (shaTag ++ shaTag ++ concat msgs).

(** The published test vectors, short and of two blocks. *)
Example sha256_abc :
  be_decode (sha256 (str "abc")) = 0xba7816bf8f01cfea414140de5dae2223b00361a396177a9cb410ff61f20015ad.
Proof. vm_compute. reflexivity. Qed.

Example sha256_two_blocks :
  be_decode (sha256 (str "abcdbcdecdefdefgefghfghighijhijkijkljklmklmnlmnomnopnopq"))
  = 0x248d6a61d20638b8e5c026930c3e6039a33ce45964ff2167f6ecedd419db06c1.
Proof. vm_compute. reflexivity. Qed.

Example sha1_abc : be_decode (sha1 (str "abc")) = 0xa9993e364706816aba3e25717850c26c9cd0d89d.
Proof. vm_compute. reflexivity. Qed.

(** ** Shape of the digests *)

Lemma be_encode_len n x : len (be_encode n x) = Z.of_nat n.
Proof. unfold be_encode, len. by rewrite length_reverse, le_encode_length. Qed.

Lemma be_encode_ok n x : bytes_ok (be_encode n x).
Proof. unfold be_encode. apply Forall_reverse, le_encode_ok. Qed.

Lemma concat_words_ok ws : bytes_ok (concat (map (be_encode 4) ws)).
Proof. induction ws as [|w ws IH]; [constructor|]. cbn [map concat]. apply bytes_ok_app. split; [apply be_encode_ok|done]. Qed.

Lemma concat_words_len ws : len (concat (map (be_encode 4) ws)) = 4 * len ws.
Proof.
  induction ws as [|w ws IH]; [done|]. cbn [map concat]. rewrite len_app, be_encode_len, IH, len_cons. lia.
Qed.

Lemma sha_blocks_length n block h l k :
  (forall h l, length h = k -> length (block h l) = k) -> length h = k ->
  length (sha_blocks n block h l) = k.
Proof. intros Hb. revert h l. induction n as [|n IH]; intros h l Hh; simpl; auto. Qed.

Lemma fold_length {A} (f : list Z -> A -> list Z) l k st :
  (forall st a, length st = k -> length (f st a) = k) -> length st = k -> length (fold_left f l st) = k.
Proof. intros Hf. revert st. induction l as [|a l IH]; intros st Hs; simpl; auto. Qed.

Lemma sha256_block_length h b : length h = 8%nat -> length (sha256_block h b) = 8%nat.
Proof.
  intros Hh. unfold sha256_block. rewrite length_zip_with, (fold_length _ _ 8); [lia| |done].
  intros st [k w]. do 8 (destruct st as [|? st]; [done|]). by destruct st.
Qed.

Lemma sha1_block_length h b : length h = 5%nat -> length (sha1_block h b) = 5%nat.
Proof.
  intros Hh. unfold sha1_block. rewrite length_zip_with, (fold_length _ _ 5); [lia| |done].
  intros st [i w]. do 5 (destruct st as [|? st]; [done|]). destruct st; [|done]. intros _. simpl.
  by repeat case_match.
Qed.

Lemma sha256_len m : len (sha256 m) = 32.
Proof.
  unfold sha256, sha_run. rewrite concat_words_len. unfold len.
  rewrite (sha_blocks_length _ _ _ _ 8); [done|by intros; apply sha256_block_length|done].
Qed.

Lemma sha1_len m : len (sha1 m) = 20.
Proof.
  unfold sha1, sha_run. rewrite concat_words_len. unfold len.
  rewrite (sha_blocks_length _ _ _ _ 5); [done|by intros; apply sha1_block_length|done].
Qed.

Lemma sha256_ok m : bytes_ok (sha256 m).
Proof. apply concat_words_ok. Qed.
Lemma sha1_ok m : bytes_ok (sha1 m).
Proof. apply concat_words_ok. Qed.
#[export] Hint Resolve sha256_ok sha1_ok : bytes.
