(* ===== verification/Wire.v ===== *)
(** * Transactions on the wire ([wire/common.go], [wire/msgtx.go], [wire/txassets.go])

    The transaction types of SatoshiNet (outputs carry assets next to their
    satoshis), the variable-length integers and byte strings of the protocol, and
    the two directions of the transaction codec.  A writer is the bytes it has
    written and whether it succeeded; a reader consumes a byte string.  The
    decoder's script slab is modelled by its remaining capacity. *)

From Stdlib Require Import ZArith Lia.
From stdpp Require Import base list numbers option strings.
From S2P Require Import Prelude ScriptNum Tokenizer Sha.

(** ** Assets

    [Decimal] comes from the indexer package: the codec relies on its textual
    form only. *)

Class DecimalOps : Type := {
  Decimal : Type;
  ToFormatString : Decimal -> bytes;
  NewDecimalFromFormatString : bytes -> option Decimal;
  Decimal_Validate : Decimal -> bool;
}.

(** A valid decimal is read back from its formatted form. *)
Class DecimalLaws (D : DecimalOps) : Prop := {
  format_roundtrip (d : Decimal) :
    Decimal_Validate d = true -> NewDecimalFromFormatString (ToFormatString d) = Some d;
}.

Record AssetName : Type := mkAssetName { Protocol : bytes; Type_ : bytes; Ticker : bytes }.

Record OutPoint : Type := mkOutPoint { Hash : bytes; Index : Z }.

Record TxIn : Type := mkTxIn {
  PreviousOutPoint : OutPoint;
  SignatureScript : bytes;
  Witness : list bytes;
  Sequence : Z;
}.

Definition MaxTxInSequenceNum : Z := 0xffffffff.
Definition MaxPrevOutIndex : Z := 0xffffffff.
Definition AnchorTxOutIndex : Z := 0xfffffffe.
Definition SequenceLockTimeDisabled : Z := 2 ^ 31.
Definition SequenceLockTimeIsSeconds : Z := 2 ^ 22.
Definition SequenceLockTimeMask : Z := 0x0000ffff.
Definition MaxMessagePayload : Z := 1024 * 1024 * 32.
Definition HashSize : Z := 32.
Definition minTxInPayload : Z := 9 + HashSize.
Definition maxTxInPerMessage : Z := MaxMessagePayload / minTxInPayload + 1.
Definition MinTxOutPayload : Z := 9.
Definition maxTxOutPerMessage : Z := MaxMessagePayload / MinTxOutPayload + 1.
Definition maxWitnessItemsPerInput : Z := 4000000.
Definition maxWitnessItemSize : Z := 4000000.
Definition scriptSlabSize : Z := 2 ^ 22.
Definition TxFlagMarker : Z := 0x00.
Definition WitnessFlag : Z := 0x01.

Inductive MessageEncoding : Type := BaseEncoding | WitnessEncoding.

(** ** Writers *)

(** The bytes written, and whether no error occurred. *)
Definition writer : Type := bytes * bool.

Definition wput (b : bytes) : writer := (b, true).
Definition wfail : writer := ([], false).

(** Write, then go on unless an error was returned. *)
Definition wseq (a b : writer) : writer := if a.2 then (a.1 ++ b.1, b.2) else a.

Notation "a >>> b" := (wseq a b) (at level 58, right associativity) : go_scope.

Fixpoint wfor {A : Type} (f : A -> writer) (l : list A) : writer :=
  match l with
  | [] => wput []
  | a :: r => f a >>> wfor f r
  end.

Definition put_uint16 (x : Z) : bytes := le_encode 2 x.
Definition put_uint32 (x : Z) : bytes := le_encode 4 x.
Definition put_uint64 (x : Z) : bytes := le_encode 8 x.

Definition WriteVarInt (val : Z) : writer :=
  if val <? 0xfd then wput [uint8 val]
  else if val <=? 2 ^ 16 - 1 then wput (0xfd :: put_uint16 (uint16 val))
  else if val <=? 2 ^ 32 - 1 then wput (0xfe :: put_uint32 (uint32 val))
  else wput [0xff] >>> wput (put_uint64 val).

Definition VarIntSerializeSize (val : Z) : Z :=
  if val <? 0xfd then 1
  else if val <=? 2 ^ 16 - 1 then 3
  else if val <=? 2 ^ 32 - 1 then 5
  else 9.

Definition WriteVarBytes (b : bytes) : writer := WriteVarInt (len b) >>> wput b.

(** ** Readers *)

Inductive WireError : Type :=
| ErrEOF (** a short read *)
| ErrMessage (** a [MessageError] *)
| errSuperfluousWitnessRecord
| ErrFormat (** any other error *).

Definition reader (A : Type) : Type := bytes -> result WireError (A * bytes).

(** [io.ReadFull] of [n] bytes. *)
Definition ReadFull (n : Z) : reader bytes := fun r =>
  if len r <? n then Err ErrEOF else Ok (take (Z.to_nat n) r, drop (Z.to_nat n) r).

Definition read_uint (n : Z) : reader Z := fun r =>
  let! '(b, r) := ReadFull n r in
  Ok (le_decode b, r).

(** The value is rejected when a shorter form could hold it. *)
Definition ReadVarInt : reader Z := fun r =>
  let! '(discriminant, r) := read_uint 1 r in
  if discriminant =? 0xff then
    let! '(rv, r) := read_uint 8 r in
    if rv <? 0x100000000 then Err ErrMessage else Ok (rv, r)
  else if discriminant =? 0xfe then
    let! '(rv, r) := read_uint 4 r in
    if rv <? 0x10000 then Err ErrMessage else Ok (rv, r)
  else if discriminant =? 0xfd then
    let! '(rv, r) := read_uint 2 r in
    if rv <? 0xfd then Err ErrMessage else Ok (rv, r)
  else Ok (discriminant, r).

(** [ReadVarBytes] with its limit. *)
Definition ReadVarBytes (maxAllowed : Z) : reader bytes := fun r =>
  let! '(count, r) := ReadVarInt r in
  if maxAllowed <? count then Err ErrMessage else ReadFull count r.

(** [readScriptBuf]: [cap] bytes of the slab are left. *)
Definition readScriptBuf (cap : Z) : reader bytes := fun r =>
  let! '(count, r) := ReadVarInt r in
  if maxWitnessItemSize <? count then Err ErrMessage
  else if cap <? count then Err ErrMessage
  else ReadFull count r.

Definition readString (cap : Z) : reader bytes := fun r =>
  let! '(count, r) := ReadVarInt r in
  if count =? 0 then Ok ([], r)
  else if cap <? count then Err ErrFormat
  else ReadFull count r.

(** A loop [for i := 0; i < count; i++] that reads an element per turn.  Every
    element takes at least a byte, so the length of the input is enough fuel. *)
Fixpoint read_loop {A : Type} (fuel : nat) (count : Z) (f : reader A) : reader (list A) := fun r =>
  if count <=? 0 then Ok ([], r)
  else
    match fuel with
    | O => Panic
    | S m =>
        let! '(a, r) := f r in
        let! '(l, r) := read_loop m (count - 1) f r in
        Ok (a :: l, r)
    end.

Definition read_many {A : Type} (count : Z) (f : reader A) : reader (list A) := fun r =>
  read_loop (S (length r)) count f r.

(** The same with the slab: every element uses up part of the capacity. *)
Fixpoint read_slab_loop {A : Type} (fuel : nat) (count : Z) (f : Z -> reader A) (used : A -> Z)
    (cap : Z) : reader (list A * Z) := fun r =>
  if count <=? 0 then Ok (([], cap), r)
  else
    match fuel with
    | O => Panic
    | S m =>
        let! '(a, r) := f cap r in
        let! '((l, cap), r) := read_slab_loop m (count - 1) f used (cap - used a) r in
        Ok ((a :: l, cap), r)
    end.

Definition read_slab {A : Type} (count : Z) (f : Z -> reader A) (used : A -> Z) (cap : Z)
    : reader (list A * Z) := fun r =>
  read_slab_loop (S (length r)) count f used cap r.

(** ** Transactions *)

Section Codec.
Context `{D : DecimalOps}.

(** [BindingSat]: zero for an asset not bound to satoshis, otherwise how many
    units one satoshi carries. *)
Record AssetInfo : Type := mkAssetInfo { Name : AssetName; Amount : Decimal; BindingSat : Z }.

Record TxOut : Type := mkTxOut { Value : Z; Assets : list AssetInfo; PkScript : bytes }.

Record MsgTx : Type := mkMsgTx {
  Version : Z;
  TxIns : list TxIn;
  TxOuts : list TxOut;
  LockTime : Z;
}.

(** *** Encoding *)

Definition writeAsset (asset : AssetInfo) : writer :=
  if negb (Decimal_Validate (Amount asset)) then wfail
  else
    WriteVarBytes (Protocol (Name asset)) >>>
    WriteVarBytes (Type_ (Name asset)) >>>
    WriteVarBytes (Ticker (Name asset)) >>>
    WriteVarBytes (ToFormatString (Amount asset)) >>>
    WriteVarInt (BindingSat asset).

Definition AssetsWriteToBuf (assets : list AssetInfo) : writer :=
  WriteVarInt (len assets) >>> wfor writeAsset assets.

Definition writeOutPoint (op : OutPoint) : writer :=
  wput (Hash op) >>> wput (put_uint32 (Index op)).

Definition writeTxIn (ti : TxIn) : writer :=
  writeOutPoint (PreviousOutPoint ti) >>>
  WriteVarBytes (SignatureScript ti) >>>
  wput (put_uint32 (Sequence ti)).

Definition WriteTxOut (to : TxOut) : writer :=
  wput (put_uint64 (uint64 (Value to))) >>>
  AssetsWriteToBuf (Assets to) >>>
  WriteVarBytes (PkScript to).

Definition writeTxWitness (wit : list bytes) : writer :=
  WriteVarInt (len wit) >>> wfor WriteVarBytes wit.

Definition HasWitness (msg : MsgTx) : bool :=
  existsb (fun txIn => negb (len (Witness txIn) =? 0)) (TxIns msg).

Definition BtcEncode (msg : MsgTx) (enc : MessageEncoding) : writer :=
  let doWitness := match enc with WitnessEncoding => HasWitness msg | BaseEncoding => false end in
  wput (put_uint32 (uint32 (Version msg))) >>>
  (if doWitness then wput [TxFlagMarker; WitnessFlag] else wput []) >>>
  WriteVarInt (len (TxIns msg)) >>>
  wfor writeTxIn (TxIns msg) >>>
  WriteVarInt (len (TxOuts msg)) >>>
  wfor WriteTxOut (TxOuts msg) >>>
  (if doWitness then wfor (fun ti => writeTxWitness (Witness ti)) (TxIns msg) else wput []) >>>
  wput (put_uint32 (LockTime msg)).

Definition Serialize (msg : MsgTx) : writer := BtcEncode msg WitnessEncoding.
Definition SerializeNoWitness (msg : MsgTx) : writer := BtcEncode msg BaseEncoding.

(** [chainhash.DoubleHashRaw] ignores an error of the serializer: the digest is
    over what was written. *)
Definition DoubleHashRaw (w : writer) : bytes := sha256 (sha256 w.1).

Definition TxHash (msg : MsgTx) : bytes := DoubleHashRaw (SerializeNoWitness msg).

Definition WitnessHash (msg : MsgTx) : bytes :=
  if HasWitness msg then DoubleHashRaw (Serialize msg) else TxHash msg.

(** *** Sizes *)

Definition sum_of {A : Type} (f : A -> Z) (l : list A) : Z := foldr (fun a n => f a + n) 0 l.

Definition TxIn_SerializeSize (t : TxIn) : Z :=
  40 + VarIntSerializeSize (len (SignatureScript t)) + len (SignatureScript t).

Definition TxWitness_SerializeSize (t : list bytes) : Z :=
  VarIntSerializeSize (len t)
  + sum_of (fun witItem => VarIntSerializeSize (len witItem) + len witItem) t.

Definition txAssetsSerializeSize (assets : list AssetInfo) : Z :=
  VarIntSerializeSize (len assets)
  + sum_of (fun asset =>
      VarIntSerializeSize (len (Protocol (Name asset))) + len (Protocol (Name asset))
      + (VarIntSerializeSize (len (Type_ (Name asset))) + len (Type_ (Name asset)))
      + (VarIntSerializeSize (len (Ticker (Name asset))) + len (Ticker (Name asset)))
      + (VarIntSerializeSize (len (ToFormatString (Amount asset))) + len (ToFormatString (Amount asset)))
      + VarIntSerializeSize (BindingSat asset)) assets.

Definition TxOut_SerializeSize (t : TxOut) : Z :=
  let lenpkScript := VarIntSerializeSize (len (PkScript t)) + len (PkScript t) in
  8 + txAssetsSerializeSize (Assets t) + lenpkScript.

Definition baseSize (msg : MsgTx) : Z :=
  8 + VarIntSerializeSize (len (TxIns msg)) + VarIntSerializeSize (len (TxOuts msg))
  + sum_of TxIn_SerializeSize (TxIns msg) + sum_of TxOut_SerializeSize (TxOuts msg).

Definition SerializeSize (msg : MsgTx) : Z :=
  if HasWitness msg
  then baseSize msg + 2 + sum_of (fun txin => TxWitness_SerializeSize (Witness txin)) (TxIns msg)
  else baseSize msg.

Definition SerializeSizeStripped (msg : MsgTx) : Z := baseSize msg.

(** *** Decoding *)

Definition readAsset (cap : Z) : reader AssetInfo := fun r =>
  let! '(protocol, r) := readString cap r in
  let! '(type, r) := readString cap r in
  let! '(ticker, r) := readString cap r in
  let! '(formatedAmount, r) := readString cap r in
  match NewDecimalFromFormatString formatedAmount with
  | None => Err ErrFormat
  | Some amount =>
      let! '(bindingSat, r) := ReadVarInt r in
      Ok (mkAssetInfo (mkAssetName protocol type ticker) amount (uint32 bindingSat), r)
  end.

Definition AssetsReadFromBuf (cap : Z) : reader (list AssetInfo) := fun r =>
  let! '(count, r) := ReadVarInt r in
  if count =? 0 then Ok ([], r) else read_many count (readAsset cap) r.

Definition readOutPoint : reader OutPoint := fun r =>
  let! '(hash, r) := ReadFull HashSize r in
  let! '(index, r) := read_uint 4 r in
  Ok (mkOutPoint hash index, r).

(** The witness is filled in at the end of the transaction. *)
Definition readTxIn (cap : Z) : reader TxIn := fun r =>
  let! '(op, r) := readOutPoint r in
  let! '(script, r) := readScriptBuf cap r in
  let! '(sequence, r) := read_uint 4 r in
  Ok (mkTxIn op script [] sequence, r).

Definition readTxOut (cap : Z) : reader TxOut := fun r =>
  let! '(value, r) := read_uint 8 r in
  let! '(assets, r) := AssetsReadFromBuf cap r in
  let! '(script, r) := readScriptBuf cap r in
  Ok (mkTxOut (int64 value) assets script, r).

Definition readWitness (cap : Z) : reader (list bytes * Z) := fun r =>
  let! '(witCount, r) := ReadVarInt r in
  if maxWitnessItemsPerInput <? witCount then Err ErrMessage
  else read_slab witCount readScriptBuf len cap r.

Definition set_witness (ti : TxIn) (w : list bytes) : TxIn :=
  mkTxIn (PreviousOutPoint ti) (SignatureScript ti) w (Sequence ti).

Fixpoint readWitnesses (ins : list TxIn) (cap : Z) : reader (list TxIn) := fun r =>
  match ins with
  | [] => Ok ([], r)
  | ti :: rest =>
      let! '((w, cap), r) := readWitness cap r in
      let! '(rest, r) := readWitnesses rest cap r in
      Ok (set_witness ti w :: rest, r)
  end.

(** The first count of [btcDecode]: when it is zero it is the flag marker, and
    the flag byte and the real count follow. *)
Definition readTxInCount (enc : MessageEncoding) : reader (Z * Z) := fun r =>
  let! '(count, r) := ReadVarInt r in
  match enc with
  | WitnessEncoding =>
      if count =? TxFlagMarker then
        let! '(flag, r) := read_uint 1 r in
        if negb (flag =? WitnessFlag) then Err ErrMessage
        else
          let! '(count, r) := ReadVarInt r in
          Ok ((flag, count), r)
      else Ok ((0, count), r)
  | BaseEncoding => Ok ((0, count), r)
  end.

Definition btcDecode (enc : MessageEncoding) : reader MsgTx := fun r =>
  let! '(version, r) := read_uint 4 r in
  let! '((flag, count), r) := readTxInCount enc r in
  if maxTxInPerMessage <? count then Err ErrMessage
  else
    let! '((ins, cap), r) :=
      read_slab count readTxIn (fun ti => len (SignatureScript ti)) scriptSlabSize r in
    let! '(count, r) := ReadVarInt r in
    if maxTxOutPerMessage <? count then Err ErrMessage
    else
      let! '((outs, cap), r) := read_slab count readTxOut (fun to => len (PkScript to)) cap r in
      let! '(ins, r) :=
        (if negb (flag =? 0) then
           let! '(ins, r) := readWitnesses ins cap r in
           if HasWitness (mkMsgTx 0 ins [] 0) then Ok (ins, r) else Err errSuperfluousWitnessRecord
         else Ok (ins, r)) in
      let! '(lockTime, r) := read_uint 4 r in
      Ok (mkMsgTx (int32 version) ins outs lockTime, r).

Definition Deserialize : reader MsgTx := btcDecode WitnessEncoding.
Definition DeserializeNoWitness : reader MsgTx := btcDecode BaseEncoding.

End Codec.

(** ** The bytes a successful writer leaves *)

Lemma wseq_put a b : wput a >>> wput b = wput (a ++ b).
Proof. done. Qed.

Lemma wfor_put {A} (f : A -> writer) (g : A -> bytes) l :
  Forall (fun a => f a = wput (g a)) l -> wfor f l = wput (concat (map g l)).
Proof. induction 1 as [|a l Ha Hl IH]; simpl; [done|]. by rewrite Ha, IH. Qed.

Definition varint (v : Z) : bytes :=
  if v <? 0xfd then [v]
  else if v <=? 2 ^ 16 - 1 then 0xfd :: le_encode 2 v
  else if v <=? 2 ^ 32 - 1 then 0xfe :: le_encode 4 v
  else 0xff :: le_encode 8 v.

Definition varbytes (b : bytes) : bytes := varint (len b) ++ b.

Lemma WriteVarInt_put v : is_uint64 v -> WriteVarInt v = wput (varint v).
Proof.
  intros Hv. unfold WriteVarInt, varint, is_uint64 in *.
  repeat case_if; unfold put_uint16, put_uint32, put_uint64; f_equal.
  - rewrite uint8_id; [done|unfold is_byte; lia].
  - unfold uint16. rewrite wrap_u_id by lia. done.
  - rewrite uint32_id; [done|unfold is_uint32; lia].
Qed.

Lemma WriteVarBytes_put b : len b < 2 ^ 64 -> WriteVarBytes b = wput (varbytes b).
Proof.
  intros Hb. unfold WriteVarBytes. rewrite WriteVarInt_put; [done|].
  unfold is_uint64. pose proof (len_nonneg b). lia.
Qed.

Lemma varint_len v : len (varint v) = VarIntSerializeSize v.
Proof. unfold varint, VarIntSerializeSize. repeat case_if; done. Qed.

Lemma varint_size v : 1 <= VarIntSerializeSize v <= 9.
Proof. unfold VarIntSerializeSize. repeat case_if; lia. Qed.

Lemma varbytes_len b : len (varbytes b) = VarIntSerializeSize (len b) + len b.
Proof. unfold varbytes. by rewrite len_app, varint_len. Qed.

(** ** Reading back *)

Lemma ReadFull_app n b rest : len b = n -> ReadFull n (b ++ rest) = Ok (b, rest).
Proof.
  intros <-. unfold ReadFull. rewrite len_app. pose proof (len_nonneg rest). z_test.
  by rewrite take_len_app, drop_len_app.
Qed.

Lemma read_uint_app n k x rest :
  n = Z.of_nat k -> 0 <= x < 256 ^ n -> read_uint n (le_encode k x ++ rest) = Ok (x, rest).
Proof.
  intros -> Hx. unfold read_uint. rewrite ReadFull_app by (unfold len; by rewrite le_encode_length).
  simpl. by rewrite le_decode_encode.
Qed.

Lemma read_uint_byte b rest : read_uint 1 (b :: rest) = Ok (b, rest).
Proof.
  unfold read_uint. change (b :: rest) with ([b] ++ rest). rewrite ReadFull_app by done.
  simpl. do 2 f_equal. lia.
Qed.

Lemma ReadVarInt_app v rest : is_uint64 v -> ReadVarInt (varint v ++ rest) = Ok (v, rest).
Proof.
  intros Hv. unfold varint, ReadVarInt, is_uint64 in *. repeat case_if;
    rewrite <- app_comm_cons, read_uint_byte; cbn [rbind Z.eqb Pos.eqb].
  - z_test. done.
  - rewrite (read_uint_app 2 2) by (done || lia). cbn [rbind]. z_test. done.
  - rewrite (read_uint_app 4 4) by (done || lia). cbn [rbind]. z_test. done.
  - rewrite (read_uint_app 8 8) by (done || lia). cbn [rbind]. z_test. done.
Qed.

Lemma readScriptBuf_app b cap rest :
  len b <= cap -> len b <= maxWitnessItemSize -> readScriptBuf cap (varbytes b ++ rest) = Ok (b, rest).
Proof.
  intros Hc Hm. unfold readScriptBuf, varbytes. rewrite <- app_assoc. pose proof (len_nonneg b).
  unfold maxWitnessItemSize in *.
  rewrite ReadVarInt_app by (unfold is_uint64; lia). simpl. z_test. by apply ReadFull_app.
Qed.

Lemma readString_app b cap rest : len b <= cap < 2 ^ 64 -> readString cap (varbytes b ++ rest) = Ok (b, rest).
Proof.
  intros Hc. unfold readString, varbytes. rewrite <- app_assoc. pose proof (len_nonneg b).
  rewrite ReadVarInt_app by (unfold is_uint64; lia). simpl.
  destruct (Z.eqb_spec (len b) 0) as [H0|H0].
  - apply len_0 in H0 as ->. done.
  - z_test. by apply ReadFull_app.
Qed.

Lemma concat_len_ge {A} (enc : A -> bytes) l k :
  Forall (fun a => k <= len (enc a)) l -> k * len l <= len (concat (map enc l)).
Proof.
  induction 1 as [|a l Ha Hl IH]; [unfold len; simpl; lia|].
  cbn [map concat]. rewrite len_app, len_cons. lia.
Qed.

Lemma read_loop_app {A} (f : reader A) (enc : A -> bytes) l rest fuel :
  Forall (fun a => forall rest, f (enc a ++ rest) = Ok (a, rest)) l -> (length l < fuel)%nat ->
  read_loop fuel (len l) f (concat (map enc l) ++ rest) = Ok (l, rest).
Proof.
  intros Hl. revert fuel. induction Hl as [|a l Ha Hl IH]; intros fuel Hf; (destruct fuel as [|fuel]; [simpl in Hf; lia|]).
  { done. }
  cbn [read_loop map concat]. rewrite len_cons. pose proof (len_nonneg l). z_test.
  rewrite <- app_assoc, Ha. simpl. simpl in Hf.
  replace (1 + len l - 1) with (len l) by lia. rewrite IH by lia. done.
Qed.

Lemma read_many_app {A} (f : reader A) (enc : A -> bytes) l rest :
  Forall (fun a => forall rest, f (enc a ++ rest) = Ok (a, rest)) l ->
  Forall (fun a => 1 <= len (enc a)) l ->
  read_many (len l) f (concat (map enc l) ++ rest) = Ok (l, rest).
Proof.
  intros Hf Hl. unfold read_many. apply read_loop_app; [done|].
  apply concat_len_ge in Hl. len_lia.
Qed.

(** The slab loop: the capacity is never below what is left to read. *)
Lemma read_slab_loop_app {A B} (f : Z -> reader B) (used : B -> Z) (enc : A -> bytes) (g : A -> B) l cap rest fuel :
  Forall (fun a => forall cap rest, len (enc a) <= cap < 2 ^ 64 -> f cap (enc a ++ rest) = Ok (g a, rest)) l ->
  Forall (fun a => 0 <= used (g a) <= len (enc a)) l -> (length l < fuel)%nat ->
  len (concat (map enc l)) <= cap < 2 ^ 64 ->
  exists cap', read_slab_loop fuel (len l) f used cap (concat (map enc l) ++ rest) = Ok ((map g l, cap'), rest)
    /\ cap - len (concat (map enc l)) <= cap' <= cap.
Proof.
  intros Hf. revert cap fuel. induction Hf as [|a l Ha Hf IH]; intros cap fuel Hu Hfl Hc;
    (destruct fuel as [|fuel]; [simpl in Hfl; lia|]).
  { exists cap. split; [done|]. change (len (concat (map enc []))) with 0. lia. }
  apply Forall_cons_iff in Hu as [Hua Hu]. cbn [read_slab_loop map concat] in *.
  rewrite len_app in Hc. rewrite len_cons. pose proof (len_nonneg l). z_test.
  pose proof (len_nonneg (concat (map enc l))).
  rewrite <- app_assoc, Ha by lia. simpl. simpl in Hfl. replace (1 + len l - 1) with (len l) by lia.
  destruct (IH (cap - used (g a)) fuel Hu ltac:(lia) ltac:(lia)) as (cap' & -> & Hc').
  exists cap'. split; [done|]. rewrite len_app. lia.
Qed.

Section CodecProofs.
Context `{D : DecimalOps} {DL : DecimalLaws D}.

Definition enc_asset (a : AssetInfo) : bytes :=
  varbytes (Protocol (Name a)) ++ varbytes (Type_ (Name a)) ++ varbytes (Ticker (Name a))
  ++ varbytes (ToFormatString (Amount a)) ++ varint (BindingSat a).

Definition enc_assets (l : list AssetInfo) : bytes := varint (len l) ++ concat (map enc_asset l).

Definition enc_txin (ti : TxIn) : bytes :=
  Hash (PreviousOutPoint ti) ++ le_encode 4 (Index (PreviousOutPoint ti))
  ++ varbytes (SignatureScript ti) ++ le_encode 4 (Sequence ti).

Definition enc_txout (to : TxOut) : bytes :=
  le_encode 8 (uint64 (Value to)) ++ enc_assets (Assets to) ++ varbytes (PkScript to).

Definition enc_witness (w : list bytes) : bytes := varint (len w) ++ concat (map varbytes w).

Definition enc_tx (wit : bool) (msg : MsgTx) : bytes :=
  le_encode 4 (uint32 (Version msg)) ++ (if wit then [TxFlagMarker; WitnessFlag] else [])
  ++ varint (len (TxIns msg)) ++ concat (map enc_txin (TxIns msg))
  ++ varint (len (TxOuts msg)) ++ concat (map enc_txout (TxOuts msg))
  ++ (if wit then concat (map (fun ti => enc_witness (Witness ti)) (TxIns msg)) else [])
  ++ le_encode 4 (LockTime msg).

(** *** Well-formed transactions: every field at its width, amounts valid *)

Definition wf_asset (a : AssetInfo) : Prop :=
  Decimal_Validate (Amount a) = true /\ is_uint32 (BindingSat a).

Definition wf_txin (ti : TxIn) : Prop :=
  len (Hash (PreviousOutPoint ti)) = HashSize /\ is_uint32 (Index (PreviousOutPoint ti))
  /\ is_uint32 (Sequence ti).

Definition wf_txout (to : TxOut) : Prop := is_int64 (Value to) /\ Forall wf_asset (Assets to).

Definition wf_tx (msg : MsgTx) : Prop :=
  is_int32 (Version msg) /\ is_uint32 (LockTime msg)
  /\ Forall wf_txin (TxIns msg) /\ Forall wf_txout (TxOuts msg).

Lemma sum_of_concat {A} (f : A -> Z) (enc : A -> bytes) l :
  Forall (fun a => len (enc a) = f a) l -> sum_of f l = len (concat (map enc l)).
Proof.
  induction 1 as [|a l Ha Hl IH]; [done|]. cbn [map concat]. rewrite len_app, <- IH, Ha. done.
Qed.

Lemma Forall_true {A} (P : A -> Prop) l : (forall a, P a) -> Forall P l.
Proof. intros H. induction l; constructor; auto. Qed.

Lemma le_encode_len n x : len (le_encode n x) = Z.of_nat n.
Proof. unfold len. by rewrite le_encode_length. Qed.

Lemma enc_assets_len l : len (enc_assets l) = txAssetsSerializeSize l.
Proof.
  unfold enc_assets, txAssetsSerializeSize. rewrite len_app, varint_len. f_equal. symmetry.
  apply sum_of_concat, Forall_true. intros a. unfold enc_asset.
  rewrite !len_app, !varbytes_len, varint_len. lia.
Qed.

Lemma enc_txin_len ti : wf_txin ti -> len (enc_txin ti) = TxIn_SerializeSize ti.
Proof.
  intros (Hh & _). unfold enc_txin, TxIn_SerializeSize, HashSize in *.
  rewrite !len_app, !le_encode_len, varbytes_len. lia.
Qed.

Lemma enc_txout_len to : len (enc_txout to) = TxOut_SerializeSize to.
Proof.
  unfold enc_txout, TxOut_SerializeSize. rewrite !len_app, le_encode_len, enc_assets_len, varbytes_len. lia.
Qed.

Lemma enc_witness_len w : len (enc_witness w) = TxWitness_SerializeSize w.
Proof.
  unfold enc_witness, TxWitness_SerializeSize. rewrite len_app, varint_len. f_equal. symmetry.
  apply sum_of_concat, Forall_true. intros b. apply varbytes_len.
Qed.

(** *** Writers succeed on well-formed data *)

Lemma writeAsset_put a : wf_asset a -> len (enc_asset a) < 2 ^ 64 -> writeAsset a = wput (enc_asset a).
Proof.
  intros [Hv Hb] Hl. unfold writeAsset, enc_asset in *. rewrite Hv. simpl.
  rewrite !len_app, !varbytes_len in Hl. pose proof (len_nonneg (Protocol (Name a))).
  pose proof (len_nonneg (Type_ (Name a))). pose proof (len_nonneg (Ticker (Name a))).
  pose proof (len_nonneg (ToFormatString (Amount a))). pose proof (len_nonneg (varint (BindingSat a))).
  pose proof (varint_size (len (Protocol (Name a)))). pose proof (varint_size (len (Type_ (Name a)))).
  pose proof (varint_size (len (Ticker (Name a)))). pose proof (varint_size (len (ToFormatString (Amount a)))).
  rewrite !WriteVarBytes_put, WriteVarInt_put by (unfold is_uint64, is_uint32 in *; lia). done.
Qed.

Lemma elem_concat_len {A} (enc : A -> bytes) l a : In a l -> len (enc a) <= len (concat (map enc l)).
Proof.
  induction l as [|b l IH]; intros Ha; [done|]. cbn [map concat]. rewrite len_app.
  pose proof (len_nonneg (enc b)). pose proof (len_nonneg (concat (map enc l))).
  destruct Ha as [->|Ha]; [lia|]. specialize (IH Ha). lia.
Qed.

(** A property of every element whose encoding is part of a bounded whole. *)
Lemma Forall_bounded {A} (P Q : A -> Prop) (enc : A -> bytes) l bound :
  Forall P l -> len (concat (map enc l)) <= bound ->
  (forall a, P a -> len (enc a) <= bound -> Q a) -> Forall Q l.
Proof.
  intros HP Hl HQ. apply List.Forall_forall. intros a Ha. apply HQ.
  - by eapply List.Forall_forall in HP.
  - pose proof (elem_concat_len enc l a Ha). lia.
Qed.

Lemma list_len_bound {A} (enc : A -> bytes) (l : list A) :
  Forall (fun a => 1 <= len (enc a)) l -> len l <= len (concat (map enc l)).
Proof. intros H. apply concat_len_ge in H. lia. Qed.

Lemma enc_asset_pos a : 1 <= len (enc_asset a).
Proof.
  unfold enc_asset. rewrite len_app, varbytes_len. pose proof (varint_size (len (Protocol (Name a)))).
  pose proof (len_nonneg (Protocol (Name a))).
  match goal with |- context [len (?x ++ ?y)] => pose proof (len_nonneg (x ++ y)) end. lia.
Qed.

Lemma AssetsWriteToBuf_put l :
  Forall wf_asset l -> len (enc_assets l) < 2 ^ 64 -> AssetsWriteToBuf l = wput (enc_assets l).
Proof.
  intros Hw Hl. unfold AssetsWriteToBuf, enc_assets in *. rewrite len_app, varint_len in Hl.
  pose proof (varint_size (len l)). pose proof (list_len_bound enc_asset l (Forall_true _ _ enc_asset_pos)).
  pose proof (len_nonneg l). rewrite WriteVarInt_put by (unfold is_uint64; lia).
  rewrite (wfor_put _ enc_asset); [done|].
  apply (Forall_bounded wf_asset _ enc_asset l (2 ^ 64 - 1)); [done|lia|].
  intros a Ha Hb. apply writeAsset_put; [done|lia].
Qed.

Lemma writeTxIn_put ti : wf_txin ti -> len (enc_txin ti) < 2 ^ 64 -> writeTxIn ti = wput (enc_txin ti).
Proof.
  intros Hw Hl. rewrite enc_txin_len in Hl by done. unfold TxIn_SerializeSize in Hl.
  pose proof (varint_size (len (SignatureScript ti))).
  unfold writeTxIn, writeOutPoint, enc_txin. rewrite WriteVarBytes_put by lia.
  unfold put_uint32. rewrite !wseq_put. by rewrite <- !app_assoc.
Qed.

Lemma WriteTxOut_put to : wf_txout to -> len (enc_txout to) < 2 ^ 64 -> WriteTxOut to = wput (enc_txout to).
Proof.
  intros [Hv Ha] Hl. unfold WriteTxOut, enc_txout in *. rewrite !len_app, le_encode_len, varbytes_len in Hl.
  pose proof (varint_size (len (PkScript to))). pose proof (len_nonneg (PkScript to)).
  pose proof (len_nonneg (enc_assets (Assets to))).
  rewrite AssetsWriteToBuf_put, WriteVarBytes_put by (done || lia). done.
Qed.

Lemma writeTxWitness_put w : len (enc_witness w) < 2 ^ 64 -> writeTxWitness w = wput (enc_witness w).
Proof.
  intros Hl. unfold writeTxWitness, enc_witness in *. rewrite len_app, varint_len in Hl.
  assert (Hp : Forall (fun b => 1 <= len (varbytes b)) w).
  { apply Forall_true. intros b. rewrite varbytes_len. pose proof (varint_size (len b)).
    pose proof (len_nonneg b). lia. }
  pose proof (list_len_bound varbytes w Hp). pose proof (varint_size (len w)). pose proof (len_nonneg w).
  rewrite WriteVarInt_put by (unfold is_uint64; lia). rewrite (wfor_put _ varbytes); [done|].
  apply (Forall_bounded (fun _ => True) _ varbytes w (2 ^ 64 - 1)); [by apply Forall_true|lia|].
  intros b _ Hb. apply WriteVarBytes_put. rewrite varbytes_len in Hb. pose proof (varint_size (len b)). lia.
Qed.

Lemma enc_txin_pos ti : 9 <= len (enc_txin ti).
Proof.
  unfold enc_txin. rewrite !len_app, !le_encode_len, varbytes_len.
  pose proof (varint_size (len (SignatureScript ti))). pose proof (len_nonneg (SignatureScript ti)).
  pose proof (len_nonneg (Hash (PreviousOutPoint ti))). lia.
Qed.

Lemma enc_txout_pos to : 10 <= len (enc_txout to).
Proof.
  unfold enc_txout. rewrite !len_app, !le_encode_len, varbytes_len, enc_assets_len.
  unfold txAssetsSerializeSize. pose proof (varint_size (len (PkScript to))).
  pose proof (len_nonneg (PkScript to)). pose proof (varint_size (len (Assets to))).
  assert (0 <= len (concat (map enc_asset (Assets to)))) by apply len_nonneg.
  pose proof (enc_assets_len (Assets to)) as He. unfold enc_assets, txAssetsSerializeSize in He.
  rewrite len_app, varint_len in He. lia.
Qed.

Definition witness_flag (enc : MessageEncoding) (msg : MsgTx) : bool :=
  match enc with WitnessEncoding => HasWitness msg | BaseEncoding => false end.

Lemma enc_tx_len wit msg :
  len (enc_tx wit msg)
  = 8 + (if wit then 2 else 0) + VarIntSerializeSize (len (TxIns msg)) + len (concat (map enc_txin (TxIns msg)))
    + VarIntSerializeSize (len (TxOuts msg)) + len (concat (map enc_txout (TxOuts msg)))
    + (if wit then len (concat (map (fun ti => enc_witness (Witness ti)) (TxIns msg))) else 0).
Proof.
  unfold enc_tx. rewrite !len_app, !le_encode_len, !varint_len. destruct wit; [|change (len []) with 0; lia].
  change (len [TxFlagMarker; WitnessFlag]) with 2. lia.
Qed.

Lemma enc_tx_size msg enc :
  wf_tx msg ->
  len (enc_tx (witness_flag enc msg) msg)
  = match enc with WitnessEncoding => SerializeSize msg | BaseEncoding => SerializeSizeStripped msg end.
Proof.
  intros (_ & _ & Hi & Ho). rewrite enc_tx_len.
  rewrite <- (sum_of_concat TxIn_SerializeSize enc_txin)
    by (eapply Forall_impl; [exact Hi|]; apply enc_txin_len).
  rewrite <- (sum_of_concat TxOut_SerializeSize enc_txout) by (apply Forall_true, enc_txout_len).
  rewrite <- (sum_of_concat (fun ti => TxWitness_SerializeSize (Witness ti)) (fun ti => enc_witness (Witness ti)))
    by (apply Forall_true; intros ti; apply enc_witness_len).
  unfold SerializeSize, SerializeSizeStripped, baseSize.
  destruct enc; simpl; [lia|]. destruct (HasWitness msg); lia.
Qed.

Lemma BtcEncode_put msg enc :
  wf_tx msg -> len (enc_tx (witness_flag enc msg) msg) < 2 ^ 64 ->
  BtcEncode msg enc = wput (enc_tx (witness_flag enc msg) msg).
Proof.
  intros (Hv & Ht & Hi & Ho) Hl. rewrite enc_tx_len in Hl. unfold BtcEncode. fold (witness_flag enc msg).
  set (wit := witness_flag enc msg) in *.
  pose proof (varint_size (len (TxIns msg))). pose proof (varint_size (len (TxOuts msg))).
  pose proof (concat_len_ge enc_txin (TxIns msg) 9 (Forall_true _ _ enc_txin_pos)).
  pose proof (concat_len_ge enc_txout (TxOuts msg) 10 (Forall_true _ _ enc_txout_pos)).
  set (wits := concat (map (fun ti => enc_witness (Witness ti)) (TxIns msg))) in *.
  pose proof (len_nonneg wits). pose proof (len_nonneg (TxIns msg)). pose proof (len_nonneg (TxOuts msg)).
  rewrite !WriteVarInt_put by (unfold is_uint64; destruct wit; lia).
  rewrite (wfor_put writeTxIn enc_txin), (wfor_put WriteTxOut enc_txout).
  - assert (Hwit : (if wit then wfor (fun ti => writeTxWitness (Witness ti)) (TxIns msg) else wput [])
                   = wput (if wit then wits else [])).
    { destruct wit; [|done]. unfold wits. apply wfor_put.
      apply (Forall_bounded (fun _ => True) _ (fun ti => enc_witness (Witness ti)) _ (2 ^ 64 - 1));
        [by apply Forall_true|fold wits; lia|].
      intros ti _ Hb. apply writeTxWitness_put. lia. }
    rewrite Hwit. unfold enc_tx. fold wits. by destruct wit.
  - apply (Forall_bounded wf_txout _ enc_txout _ (2 ^ 64 - 1)); [done|destruct wit; lia|].
    intros to Hto Hb. apply WriteTxOut_put; [done|lia].
  - apply (Forall_bounded wf_txin _ enc_txin _ (2 ^ 64 - 1)); [done|destruct wit; lia|].
    intros ti Hti Hb. apply writeTxIn_put; [done|lia].
Qed.

(** *** Readers invert the writers *)

Lemma readAsset_app a cap rest :
  wf_asset a -> len (enc_asset a) <= cap < 2 ^ 64 -> readAsset cap (enc_asset a ++ rest) = Ok (a, rest).
Proof.
  intros [Hv Hb] Hl. unfold readAsset, enc_asset in *.
  rewrite !len_app, !varbytes_len in Hl. pose proof (len_nonneg (Protocol (Name a))).
  pose proof (len_nonneg (Type_ (Name a))). pose proof (len_nonneg (Ticker (Name a))).
  pose proof (len_nonneg (ToFormatString (Amount a))). pose proof (len_nonneg (varint (BindingSat a))).
  pose proof (varint_size (len (Protocol (Name a)))). pose proof (varint_size (len (Type_ (Name a)))).
  pose proof (varint_size (len (Ticker (Name a)))). pose proof (varint_size (len (ToFormatString (Amount a)))).
  rewrite <- !app_assoc.
  do 4 (rewrite readString_app by lia; cbn [rbind]).
  rewrite format_roundtrip by done. rewrite ReadVarInt_app by (unfold is_uint64, is_uint32 in *; lia).
  cbn [rbind]. rewrite uint32_id by done. by destruct a as [[] ? ?].
Qed.

Lemma AssetsReadFromBuf_app l cap rest :
  Forall wf_asset l -> len (enc_assets l) <= cap < 2 ^ 64 ->
  AssetsReadFromBuf cap (enc_assets l ++ rest) = Ok (l, rest).
Proof.
  intros Hw Hl. unfold AssetsReadFromBuf, enc_assets in *. rewrite len_app, varint_len in Hl.
  pose proof (varint_size (len l)). pose proof (list_len_bound enc_asset l (Forall_true _ _ enc_asset_pos)).
  pose proof (len_nonneg l). rewrite <- app_assoc, ReadVarInt_app by (unfold is_uint64; lia). cbn [rbind].
  destruct (Z.eqb_spec (len l) 0) as [Hz|Hz].
  { apply len_0 in Hz as ->. done. }
  apply read_many_app; [|apply Forall_true, enc_asset_pos].
  apply (Forall_bounded wf_asset _ enc_asset l cap); [done|lia|].
  intros a Ha Hb rest'. apply readAsset_app; [done|lia].
Qed.

Lemma readTxIn_app ti cap rest :
  wf_txin ti -> len (enc_txin ti) <= maxWitnessItemSize -> len (enc_txin ti) <= cap ->
  readTxIn cap (enc_txin ti ++ rest) = Ok (set_witness ti [], rest).
Proof.
  intros Hw Hm Hc. rewrite enc_txin_len in * by done. unfold TxIn_SerializeSize in *.
  pose proof (varint_size (len (SignatureScript ti))). destruct Hw as (Hh & Hi & Hs).
  unfold readTxIn, readOutPoint, enc_txin. rewrite <- !app_assoc, ReadFull_app by done. cbn [rbind].
  unfold is_uint32 in *. rewrite (read_uint_app 4 4) by (done || lia). cbn [rbind].
  rewrite readScriptBuf_app by lia. cbn [rbind]. rewrite (read_uint_app 4 4) by (done || lia). cbn [rbind].
  unfold set_witness. by destruct ti as [[] ? ? ?].
Qed.

Lemma int64_uint64 v : is_int64 v -> int64 (uint64 v) = v.
Proof.
  unfold is_int64. intros Hv. unfold int64, uint64, wrap_s, wrap_u.
  rewrite Zplus_mod_idemp_l. change (2 ^ (64 - 1)) with (2 ^ 63). rewrite Z.mod_small by lia. lia.
Qed.

Lemma int32_uint32 v : is_int32 v -> int32 (uint32 v) = v.
Proof.
  unfold is_int32. intros Hv. unfold int32, uint32, wrap_s, wrap_u.
  rewrite Zplus_mod_idemp_l. change (2 ^ (32 - 1)) with (2 ^ 31). rewrite Z.mod_small by lia. lia.
Qed.

Lemma readTxOut_app to cap rest :
  wf_txout to -> len (enc_txout to) <= maxWitnessItemSize -> len (enc_txout to) <= cap < 2 ^ 64 ->
  readTxOut cap (enc_txout to ++ rest) = Ok (to, rest).
Proof.
  intros [Hv Ha] Hm Hc. unfold readTxOut, enc_txout in *. rewrite !len_app, le_encode_len, varbytes_len in *.
  pose proof (varint_size (len (PkScript to))). pose proof (len_nonneg (PkScript to)).
  pose proof (len_nonneg (enc_assets (Assets to))).
  rewrite <- !app_assoc, (read_uint_app 8 8) by (done || apply Z.mod_pos_bound; lia). cbn [rbind].
  rewrite AssetsReadFromBuf_app by (done || lia). cbn [rbind].
  rewrite readScriptBuf_app by lia. cbn [rbind]. rewrite int64_uint64 by done. by destruct to.
Qed.

Lemma read_slab_app {A B} (f : Z -> reader B) (used : B -> Z) (enc : A -> bytes) (g : A -> B) l cap rest :
  Forall (fun a => forall cap rest, len (enc a) <= cap < 2 ^ 64 -> f cap (enc a ++ rest) = Ok (g a, rest)) l ->
  Forall (fun a => 0 <= used (g a) <= len (enc a)) l -> Forall (fun a => 1 <= len (enc a)) l ->
  len (concat (map enc l)) <= cap < 2 ^ 64 ->
  exists cap', read_slab (len l) f used cap (concat (map enc l) ++ rest) = Ok ((map g l, cap'), rest)
    /\ cap - len (concat (map enc l)) <= cap' <= cap.
Proof.
  intros Hf Hu Hp Hc. apply read_slab_loop_app; [done|done| |done].
  apply list_len_bound in Hp. len_lia.
Qed.

Lemma readWitness_app w cap rest :
  len (enc_witness w) <= maxWitnessItemSize -> len (enc_witness w) <= cap < 2 ^ 64 ->
  exists cap', readWitness cap (enc_witness w ++ rest) = Ok ((w, cap'), rest)
    /\ cap - len (enc_witness w) <= cap' <= cap.
Proof.
  intros Hm Hc. unfold readWitness, enc_witness, maxWitnessItemSize in *. rewrite len_app, varint_len in *.
  assert (Hp : Forall (fun b => 1 <= len (varbytes b)) w).
  { apply Forall_true. intros b. rewrite varbytes_len. pose proof (varint_size (len b)).
    pose proof (len_nonneg b). lia. }
  pose proof (list_len_bound varbytes w Hp). pose proof (varint_size (len w)). pose proof (len_nonneg w).
  rewrite <- app_assoc, ReadVarInt_app by (unfold is_uint64; lia). cbn [rbind].
  unfold maxWitnessItemsPerInput. z_test.
  destruct (read_slab_app readScriptBuf len varbytes id w cap rest) as (cap' & Hr & Hc'); [| |done|lia|].
  - apply (Forall_bounded (fun _ => True) _ varbytes w (4000000 - 1)); [by apply Forall_true|lia|].
    intros b _ Hb cap1 rest1 Hc1. rewrite varbytes_len in Hb, Hc1. pose proof (varint_size (len b)).
    apply readScriptBuf_app; unfold id, maxWitnessItemSize; lia.
  - apply Forall_true. intros b. rewrite varbytes_len. pose proof (varint_size (len b)).
    pose proof (len_nonneg b). unfold id. lia.
  - rewrite map_id in Hr. exists cap'. split; [done|lia].
Qed.

Lemma readWitnesses_app ins cap rest :
  let wits := concat (map (fun ti => enc_witness (Witness ti)) ins) in
  len wits <= maxWitnessItemSize -> len wits <= cap < 2 ^ 64 ->
  readWitnesses (map (fun ti => set_witness ti []) ins) cap (wits ++ rest) = Ok (ins, rest).
Proof.
  revert cap. induction ins as [|ti ins IH]; intros cap; cbn [map concat]; intros Hm Hc; [done|].
  rewrite len_app in Hm, Hc. pose proof (len_nonneg (concat (map (fun ti => enc_witness (Witness ti)) ins))).
  cbn [readWitnesses]. rewrite <- app_assoc.
  pose proof (len_nonneg (enc_witness (Witness ti))).
  destruct (readWitness_app (Witness ti) cap (concat (map (fun ti => enc_witness (Witness ti)) ins) ++ rest))
    as (cap' & -> & Hc'); [lia|lia|]. cbn [rbind].
  rewrite IH by lia. cbn [rbind]. unfold set_witness. by destruct ti.
Qed.

(** *** Whole transactions *)

Definition strip_witness (msg : MsgTx) : MsgTx :=
  mkMsgTx (Version msg) (map (fun ti => set_witness ti []) (TxIns msg)) (TxOuts msg) (LockTime msg).

Lemma MsgTx_eta msg : mkMsgTx (Version msg) (TxIns msg) (TxOuts msg) (LockTime msg) = msg.
Proof. by destruct msg. Qed.

Lemma no_witness_strip ins :
  existsb (fun txIn => negb (len (Witness txIn) =? 0)) ins = false ->
  map (fun ti => set_witness ti []) ins = ins.
Proof.
  induction ins as [|ti ins IH]; simpl; [done|]. intros [Hw Hi]%orb_false_iff. rewrite IH by done.
  bool_to_prop. apply len_0 in Hw. unfold set_witness. destruct ti; simpl in *. by subst.
Qed.

(** The counts of a bounded transaction pass the decoder's limits. *)
Lemma tx_count_bounds wit msg :
  wf_tx msg -> len (enc_tx wit msg) <= maxWitnessItemSize ->
  len (TxIns msg) <= maxTxInPerMessage /\ len (TxOuts msg) <= maxTxOutPerMessage.
Proof.
  intros (_ & _ & Hi & Ho) Hl. rewrite enc_tx_len in Hl. unfold maxWitnessItemSize in Hl.
  pose proof (concat_len_ge enc_txout (TxOuts msg) 10 (Forall_true _ _ enc_txout_pos)).
  assert (Hin : Forall (fun ti => 41 <= len (enc_txin ti)) (TxIns msg)).
  { eapply Forall_impl; [exact Hi|]. intros ti Hti. rewrite enc_txin_len by done. unfold TxIn_SerializeSize.
    pose proof (varint_size (len (SignatureScript ti))). pose proof (len_nonneg (SignatureScript ti)). lia. }
  apply concat_len_ge in Hin. pose proof (varint_size (len (TxIns msg))). pose proof (varint_size (len (TxOuts msg))).
  assert (0 <= (if wit then len (concat (map (fun ti => enc_witness (Witness ti)) (TxIns msg))) else 0)).
  { destruct wit; [apply len_nonneg|lia]. }
  assert (0 <= (if wit then 2 else 0)) by (destruct wit; lia).
  pose proof (len_nonneg (TxIns msg)). pose proof (len_nonneg (TxOuts msg)).
  change maxTxInPerMessage with 818401. change maxTxOutPerMessage with 3728271. lia.
Qed.

(** The body of the transaction after the counts are known. *)
Lemma read_ins_app msg rest :
  Forall wf_txin (TxIns msg) -> len (concat (map enc_txin (TxIns msg))) <= maxWitnessItemSize ->
  exists cap, read_slab (len (TxIns msg)) readTxIn (fun ti => len (SignatureScript ti)) scriptSlabSize
      (concat (map enc_txin (TxIns msg)) ++ rest) = Ok ((map (fun ti => set_witness ti []) (TxIns msg), cap), rest)
    /\ scriptSlabSize - len (concat (map enc_txin (TxIns msg))) <= cap <= scriptSlabSize.
Proof.
  intros Hw Hl. unfold maxWitnessItemSize, scriptSlabSize in *. apply read_slab_app.
  - apply (Forall_bounded wf_txin _ enc_txin _ 4000000); [done|done|].
    intros ti Hti Hb cap rest' Hc. apply readTxIn_app; unfold maxWitnessItemSize; done || lia.
  - eapply Forall_impl; [exact Hw|]. intros ti Hti. rewrite enc_txin_len by done. unfold TxIn_SerializeSize. simpl.
    pose proof (varint_size (len (SignatureScript ti))). pose proof (len_nonneg (SignatureScript ti)). lia.
  - apply Forall_true. intros ti. pose proof (enc_txin_pos ti). lia.
  - lia.
Qed.

Lemma read_outs_app msg cap rest :
  Forall wf_txout (TxOuts msg) -> len (concat (map enc_txout (TxOuts msg))) <= maxWitnessItemSize ->
  len (concat (map enc_txout (TxOuts msg))) <= cap < 2 ^ 64 ->
  exists cap', read_slab (len (TxOuts msg)) readTxOut (fun to => len (PkScript to)) cap
      (concat (map enc_txout (TxOuts msg)) ++ rest) = Ok ((TxOuts msg, cap'), rest)
    /\ cap - len (concat (map enc_txout (TxOuts msg))) <= cap' <= cap.
Proof.
  intros Hw Hl Hc. unfold maxWitnessItemSize in *.
  destruct (read_slab_app readTxOut (fun to => len (PkScript to)) enc_txout id (TxOuts msg) cap rest)
    as (cap' & Hr & Hc'); [| | |done|].
  - apply (Forall_bounded wf_txout _ enc_txout _ 4000000); [done|done|].
    intros to Hto Hb cap1 rest' Hc1. apply readTxOut_app; unfold maxWitnessItemSize; done || lia.
  - apply Forall_true. intros to. rewrite enc_txout_len. unfold TxOut_SerializeSize, id.
    pose proof (varint_size (len (PkScript to))). pose proof (len_nonneg (PkScript to)).
    rewrite <- enc_assets_len. pose proof (len_nonneg (enc_assets (Assets to))). lia.
  - apply Forall_true. intros to. pose proof (enc_txout_pos to). lia.
  - rewrite map_id in Hr. by exists cap'.
Qed.

Lemma readTxInCount_app msg enc rest :
  len (TxIns msg) < 2 ^ 64 -> len (TxIns msg) <> 0 ->
  readTxInCount enc ((if witness_flag enc msg then [TxFlagMarker; WitnessFlag] else [])
    ++ varint (len (TxIns msg)) ++ rest)
  = Ok ((if witness_flag enc msg then 1 else 0, len (TxIns msg)), rest).
Proof.
  intros Hn Hn0. pose proof (len_nonneg (TxIns msg)). unfold readTxInCount.
  destruct (witness_flag enc msg) eqn:Hw.
  - destruct enc; [done|]. change ([TxFlagMarker; WitnessFlag] ++ ?x) with (varint 0 ++ WitnessFlag :: x).
    rewrite ReadVarInt_app by done. cbn [rbind]. change (0 =? TxFlagMarker) with true. cbv iota.
    rewrite read_uint_byte. cbn [rbind]. change (negb (WitnessFlag =? WitnessFlag)) with false. cbv iota.
    by rewrite ReadVarInt_app by done.
  - rewrite app_nil_l, ReadVarInt_app by done. cbn [rbind]. destruct enc; [done|].
    destruct (Z.eqb_spec (len (TxIns msg)) TxFlagMarker); [done|]. done.
Qed.

Lemma btcDecode_app msg enc rest :
  wf_tx msg -> TxIns msg <> [] -> len (enc_tx (witness_flag enc msg) msg) <= maxWitnessItemSize ->
  btcDecode enc (enc_tx (witness_flag enc msg) msg ++ rest)
  = Ok (if witness_flag enc msg then msg else strip_witness msg, rest).
Proof.
  intros Hwf Hne Hl. destruct (tx_count_bounds _ _ Hwf Hl) as [Hni Hno].
  destruct Hwf as (Hv & Ht & Hi & Ho). rewrite enc_tx_len in Hl.
  pose proof (len_nonneg (TxIns msg)) as Hni0. pose proof (len_nonneg (TxOuts msg)) as Hno0.
  assert (maxTxInPerMessage < 2 ^ 64 /\ maxTxOutPerMessage < 2 ^ 64) as [] by (split; reflexivity).
  assert (Hn0 : len (TxIns msg) <> 0) by (intros ?%len_0; done).
  set (wit := witness_flag enc msg) in *.
  set (wits := concat (map (fun ti => enc_witness (Witness ti)) (TxIns msg))) in *.
  pose proof (len_nonneg wits) as Hwits.
  pose proof (varint_size (len (TxIns msg))). pose proof (varint_size (len (TxOuts msg))).
  pose proof (len_nonneg (concat (map enc_txin (TxIns msg)))).
  pose proof (len_nonneg (concat (map enc_txout (TxOuts msg)))).
  unfold enc_tx. fold wits. rewrite <- !app_assoc. unfold btcDecode.
  rewrite (read_uint_app 4 4) by (done || apply Z.mod_pos_bound; lia). cbn [rbind].
  unfold wit at 1. rewrite readTxInCount_app by (done || lia). fold wit. cbn [rbind].
  destruct (Z.ltb_spec maxTxInPerMessage (len (TxIns msg))) as [?|_]; [lia|].
  destruct (read_ins_app msg (varint (len (TxOuts msg)) ++ concat (map enc_txout (TxOuts msg))
    ++ (if wit then wits else []) ++ le_encode 4 (LockTime msg) ++ rest) Hi) as (cap & -> & Hcap);
    [destruct wit; lia|]. cbn [rbind].
  rewrite ReadVarInt_app by (unfold is_uint64; lia). cbn [rbind].
  destruct (Z.ltb_spec maxTxOutPerMessage (len (TxOuts msg))) as [?|_]; [lia|].
  unfold scriptSlabSize, maxWitnessItemSize in *.
  destruct (read_outs_app msg cap ((if wit then wits else []) ++ le_encode 4 (LockTime msg) ++ rest) Ho)
    as (cap' & -> & Hcap'); [unfold maxWitnessItemSize; destruct wit; lia|destruct wit; lia|]. cbn [rbind].
  destruct wit eqn:Hwit.
  - change (negb (1 =? 0)) with true. cbv iota.
    pose proof (readWitnesses_app (TxIns msg) cap' (le_encode 4 (LockTime msg) ++ rest)) as Hrw.
    cbv zeta in Hrw. fold wits in Hrw. rewrite Hrw by (unfold maxWitnessItemSize; lia). cbn [rbind].
    assert (HasWitness (mkMsgTx 0 (TxIns msg) [] 0) = true) as ->
      by (unfold wit, witness_flag in Hwit; by destruct enc).
    cbn [rbind]. rewrite (read_uint_app 4 4) by (done || exact Ht). cbn [rbind].
    rewrite int32_uint32 by done. by rewrite MsgTx_eta.
  - cbn [negb Z.eqb app rbind]. rewrite (read_uint_app 4 4) by (done || exact Ht). cbn [rbind].
    by rewrite int32_uint32 by done.
Qed.

(** The full codec on one transaction. *)
Definition enc_full (msg : MsgTx) : bytes := enc_tx (HasWitness msg) msg.

Lemma full_codec m :
  wf_tx m -> TxIns m <> [] -> SerializeSize m <= maxWitnessItemSize ->
  Serialize m = wput (enc_full m) /\ len (enc_full m) = SerializeSize m
  /\ forall rest, Deserialize (enc_full m ++ rest) = Ok (m, rest).
Proof.
  intros Hw Hne Hs. pose proof (enc_tx_size m WitnessEncoding Hw) as Hl. cbv iota in Hl.
  unfold Serialize, enc_full. rewrite BtcEncode_put by (done || unfold maxWitnessItemSize in *; lia).
  split_and!; [done|exact Hl|]. intros rest. unfold Deserialize.
  change (enc_tx (HasWitness m) m) with (enc_tx (witness_flag WitnessEncoding m) m).
  rewrite btcDecode_app by (done || lia). cbn [witness_flag].
  destruct (HasWitness m) eqn:Hh; [done|]. do 2 f_equal. unfold strip_witness.
  rewrite no_witness_strip by done. by destruct m.
Qed.

(** C26: Transaction codec: a well-formed transaction with at least one input
    and at most [maxWitnessItemSize] bytes serializes without error into exactly
    [SerializeSize] bytes, and decoding those bytes, whatever follows them, gives
    the same transaction back, witnesses and assets included. *)
Theorem tx_roundtrip (msg : MsgTx) (rest : bytes) :
  wf_tx msg -> TxIns msg <> [] -> SerializeSize msg <= maxWitnessItemSize ->
  (Serialize msg).2 = true /\ len (Serialize msg).1 = SerializeSize msg
  /\ Deserialize ((Serialize msg).1 ++ rest) = Ok (msg, rest).
Proof.
  intros Hw Hne Hs. destruct (full_codec msg Hw Hne Hs) as (-> & Hl & Hd). by split_and!.
Qed.

(** The stripped codec on one transaction. *)
Lemma stripped_codec m :
  wf_tx m -> TxIns m <> [] -> SerializeSizeStripped m <= maxWitnessItemSize ->
  SerializeNoWitness m = wput (enc_tx false m) /\ len (enc_tx false m) = SerializeSizeStripped m
  /\ forall rest, DeserializeNoWitness (enc_tx false m ++ rest) = Ok (strip_witness m, rest).
Proof.
  intros Hw Hne Hs. pose proof (enc_tx_size m BaseEncoding Hw) as Hl. cbv iota in Hl. simpl in Hl.
  unfold SerializeNoWitness, DeserializeNoWitness.
  pose proof (BtcEncode_put m BaseEncoding Hw) as He. simpl in He. unfold maxWitnessItemSize in *.
  split_and!; [apply He; lia|done|]. intros rest.
  pose proof (btcDecode_app m BaseEncoding rest Hw Hne) as Hd. simpl in Hd.
  unfold maxWitnessItemSize in Hd. apply Hd. lia.
Qed.

Lemma enc_tx_strip m : enc_tx false m = enc_tx false (strip_witness m).
Proof. unfold enc_tx, strip_witness. simpl. unfold len. rewrite length_map, map_map. done. Qed.

(** C27: The transaction identifier commits to everything but the witnesses: the
    stripped serialization of a bounded well-formed transaction has
    [SerializeSizeStripped] bytes, decodes to the transaction without its
    witnesses, and two such transactions with equal stripped serializations
    differ in their witnesses only. *)
Theorem tx_stripped_injective (msg msg' : MsgTx) :
  wf_tx msg -> TxIns msg <> [] -> SerializeSizeStripped msg <= maxWitnessItemSize ->
  wf_tx msg' -> TxIns msg' <> [] -> SerializeSizeStripped msg' <= maxWitnessItemSize ->
  len (SerializeNoWitness msg).1 = SerializeSizeStripped msg
  /\ DeserializeNoWitness (SerializeNoWitness msg).1 = Ok (strip_witness msg, [])
  /\ (SerializeNoWitness msg = SerializeNoWitness msg' <-> strip_witness msg = strip_witness msg').
Proof.
  intros Hw Hne Hs Hw' Hne' Hs'. destruct (stripped_codec msg Hw Hne Hs) as (-> & Hl & Hd).
  destruct (stripped_codec msg' Hw' Hne' Hs') as (-> & Hl' & Hd').
  specialize (Hd []). specialize (Hd' []). rewrite app_nil_r in Hd, Hd'. split_and!; [done|done|]. split.
  - intros Heq%(f_equal fst). cbn [wput fst] in Heq. rewrite Heq in Hd. congruence.
  - intros Heq. by rewrite enc_tx_strip, Heq, <- enc_tx_strip.
Qed.

(** The decoder reduces the binding count modulo [2^32], so an asset has more
    than one encoding. *)
Lemma readAsset_bindingSat_wraps (a : AssetInfo) (cap k : Z) (rest : bytes) :
  wf_asset a -> len (enc_asset a) <= cap < 2 ^ 64 -> 0 <= k < 2 ^ 32 ->
  readAsset cap (varbytes (Protocol (Name a)) ++ varbytes (Type_ (Name a)) ++ varbytes (Ticker (Name a))
    ++ varbytes (ToFormatString (Amount a)) ++ varint (BindingSat a + k * 2 ^ 32) ++ rest) = Ok (a, rest).
Proof.
  intros [Hv Hb] Hl Hk. unfold readAsset, enc_asset in *.
  rewrite !len_app, !varbytes_len in Hl. pose proof (len_nonneg (Protocol (Name a))).
  pose proof (len_nonneg (Type_ (Name a))). pose proof (len_nonneg (Ticker (Name a))).
  pose proof (len_nonneg (ToFormatString (Amount a))). pose proof (len_nonneg (varint (BindingSat a))).
  pose proof (varint_size (len (Protocol (Name a)))). pose proof (varint_size (len (Type_ (Name a)))).
  pose proof (varint_size (len (Ticker (Name a)))). pose proof (varint_size (len (ToFormatString (Amount a)))).
  do 4 (rewrite readString_app by lia; cbn [rbind]). unfold is_uint32 in Hb.
  rewrite format_roundtrip by done. rewrite ReadVarInt_app by (unfold is_uint64; lia). cbn [rbind].
  unfold uint32, wrap_u. rewrite Z.mod_add, Z.mod_small by lia. by destruct a as [[] ? ?].
Qed.

End CodecProofs.

(** A decimal given by its text, for concrete evaluations. *)
Definition text_decimal : DecimalOps := {|
  Decimal := bytes;
  ToFormatString d := d;
  NewDecimalFromFormatString b := Some b;
  Decimal_Validate d := negb (bool_decide (d = []));
|}.

Lemma text_decimal_laws : DecimalLaws text_decimal.
Proof. by constructor. Qed.

Definition sample_tx : MsgTx (D := text_decimal) :=
  mkMsgTx (D := text_decimal) 1
    [mkTxIn (mkOutPoint (replicate 32 7) 3) [] [[1; 2]; []] MaxTxInSequenceNum]
    [mkTxOut (D := text_decimal) 546
       [mkAssetInfo (D := text_decimal) (mkAssetName (str "ordx") (str "f") (str "pearl")) (str "100") 1]
       [81; 32]]
    0.

Lemma sample_tx_wf : wf_tx sample_tx.
Proof. repeat split; repeat constructor; vm_compute; congruence. Qed.

Lemma tx_roundtrip_witness :
  (Serialize sample_tx).2 = true /\ len (Serialize sample_tx).1 = SerializeSize sample_tx
  /\ Deserialize ((Serialize sample_tx).1 ++ [9]) = Ok (sample_tx, [9]).
Proof.
  apply (tx_roundtrip (DL := text_decimal_laws) sample_tx [9] sample_tx_wf);
    vm_compute; congruence.
Defined.

Lemma tx_stripped_injective_witness :
  let other := strip_witness sample_tx in
  len (SerializeNoWitness sample_tx).1 = SerializeSizeStripped sample_tx
  /\ DeserializeNoWitness (SerializeNoWitness sample_tx).1 = Ok (strip_witness sample_tx, [])
  /\ (SerializeNoWitness sample_tx = SerializeNoWitness other <-> strip_witness sample_tx = strip_witness other).
Proof.
  apply (tx_stripped_injective (DL := text_decimal_laws) sample_tx (strip_witness sample_tx) sample_tx_wf);
    [vm_compute; congruence|vm_compute; congruence| |vm_compute; congruence|vm_compute; congruence].
  repeat split; repeat constructor; vm_compute; congruence.
Defined.
