(* ===== verification/SigHash.v ===== *)
(** * Signature hashes ([txscript/sighash.go], [txscript/hashcache.go])

    The three digests a signature covers: the legacy one over a modified copy of
    the transaction, the version 0 witness one (BIP 143 with the input's assets
    added) and the taproot one (BIP 341, with the assets in the amounts digest).
    Each digest is a hash of a preimage; the theorems speak about preimages. *)

From Stdlib Require Import ZArith Lia.
From stdpp Require Import base list numbers option strings.
From S2P Require Import Prelude ScriptNum Tokenizer ScriptBuilder ScriptStd Sha Wire.

Definition SigHashDefault : Z := 0x00.
Definition SigHashOld : Z := 0x0.
Definition SigHashAll : Z := 0x1.
Definition SigHashNone : Z := 0x2.
Definition SigHashSingle : Z := 0x3.
Definition SigHashAnyOneCanPay : Z := 0x80.
Definition sigHashMask : Z := 0x1f.
Definition blankCodeSepValue : Z := 2 ^ 32 - 1.

Definition zeroHash : bytes := replicate 32 0.

Section SigHashes.
Context `{D : DecimalOps}.

(** ** Legacy *)

Definition set_script (ti : TxIn) (s : bytes) : TxIn :=
  mkTxIn (PreviousOutPoint ti) s (Witness ti) (Sequence ti).
Definition set_sequence (ti : TxIn) (n : Z) : TxIn :=
  mkTxIn (PreviousOutPoint ti) (SignatureScript ti) (Witness ti) n.

(** [i == idx] for the position of a loop and the [int] argument. *)
Definition at_idx (i : nat) (idx : Z) : bool := Z.of_nat i =? idx.

(** The copy of the transaction that is signed: scripts blanked except at
    [idx], then reduced by the hash type. *)
Definition sigHashCopy {E} (sigScript : bytes) (hashType : Z) (tx : MsgTx) (idx : Z)
    : result E MsgTx :=
  let ins := imap (fun i ti => set_script ti (if at_idx i idx then sigScript else [])) (TxIns tx) in
  let zeroSeqs := imap (fun i ti => if at_idx i idx then ti else set_sequence ti 0) in
  let ty := Z.land hashType sigHashMask in
  let! '(ins, outs) :=
    (if ty =? SigHashNone then Ok (zeroSeqs ins, [])
     else if ty =? SigHashSingle then
       let! outs := subslice (TxOuts tx) 0 (idx + 1) in
       let outs := imap (fun i to =>
         if Z.of_nat i <? idx then mkTxOut (-1) (Assets to) [] else to) outs in
       Ok (zeroSeqs ins, outs)
     else Ok (ins, TxOuts tx)) in
  let! ins :=
    (if negb (Z.land hashType SigHashAnyOneCanPay =? 0) then subslice ins idx (idx + 1)
     else Ok ins) in
  Ok (mkMsgTx (Version tx) ins outs (LockTime tx)).

Definition sigHashPreimage (txCopy : MsgTx) (hashType : Z) : writer :=
  SerializeNoWitness txCopy >>> wput (le_encode 4 hashType).

Definition calcSignatureHash {E} (sigScript : bytes) (hashType : Z) (tx : MsgTx) (idx : Z)
    : result E bytes :=
  if (Z.land hashType sigHashMask =? SigHashSingle) && (len (TxOuts tx) <=? idx)
  then Ok (0x01 :: replicate 31 0)
  else
    let! sigScript := removeOpcodeRaw sigScript OP_CODESEPARATOR in
    let! txCopy := sigHashCopy sigScript hashType tx idx in
    Ok (DoubleHashRaw (sigHashPreimage txCopy hashType)).

(** ** Midstates *)

Definition PrevOutputFetcher : Type := OutPoint -> option TxOut.

Record TxSigHashes : Type := mkTxSigHashes {
  HashPrevOutsV0 : bytes;
  HashSequenceV0 : bytes;
  HashOutputsV0 : bytes;
  HashPrevOutsV1 : bytes;
  HashSequenceV1 : bytes;
  HashOutputsV1 : bytes;
  HashInputScriptsV1 : bytes;
  HashInputAmountsV1 : bytes;
}.

Definition calcHashPrevOuts (tx : MsgTx) : bytes :=
  sha256 (concat (map (fun i => Hash (PreviousOutPoint i) ++ put_uint32 (Index (PreviousOutPoint i)))
    (TxIns tx))).

Definition calcHashSequence (tx : MsgTx) : bytes :=
  sha256 (concat (map (fun i => put_uint32 (Sequence i)) (TxIns tx))).

(** The error of an output with an invalid amount is dropped: the output is
    written up to that asset. *)
Definition calcHashOutputs (tx : MsgTx) : bytes :=
  sha256 (concat (map (fun out => (WriteTxOut out).1) (TxOuts tx))).

(** What [calcHashInputAmounts] writes for one input. *)
Definition inputAmount (prevOut : TxOut) : bytes :=
  put_uint64 (uint64 (Value prevOut)) ++ put_uint64 (uint64 (len (Assets prevOut)))
  ++ concat (map (fun asset =>
       (WriteVarBytes (Protocol (Name asset))).1
       ++ (WriteVarBytes (Type_ (Name asset))).1
       ++ (WriteVarBytes (Ticker (Name asset))).1
       ++ (WriteVarBytes (ToFormatString (Amount asset))).1
       ++ put_uint32 (BindingSat asset)) (Assets prevOut)).

(** A missing previous output is a nil dereference. *)
Definition fetch_each {E A} (f : TxOut -> A) (tx : MsgTx) (fetcher : PrevOutputFetcher)
    : result E (list A) :=
  rfold (fun l txIn =>
    let! prevOut := unwrap (fetcher (PreviousOutPoint txIn)) in Ok (l ++ [f prevOut])) [] (TxIns tx).

Definition calcHashInputAmounts {E} (tx : MsgTx) (fetcher : PrevOutputFetcher) : result E bytes :=
  let! b := fetch_each inputAmount tx fetcher in
  Ok (sha256 (concat b)).

Definition calcHashInputScripts {E} (tx : MsgTx) (fetcher : PrevOutputFetcher) : result E bytes :=
  let! b := fetch_each (fun prevOut => (WriteVarBytes (PkScript prevOut)).1) tx fetcher in
  Ok (sha256 (concat b)).

(** Which midstates the inputs need; the scan stops once both are. *)
Fixpoint needed_midstates {E} (ins : list TxIn) (fetcher : PrevOutputFetcher) (hasV0 hasV1 : bool)
    : result E (bool * bool) :=
  match ins with
  | [] => Ok (hasV0, hasV1)
  | txIn :: rest =>
      let outpoint := PreviousOutPoint txIn in
      if (Index outpoint =? 2 ^ 32 - 1) && bytes_eqb (Hash outpoint) zeroHash
      then needed_midstates rest fetcher true hasV1
      else
        let! prevOut := unwrap (fetcher outpoint) in
        let '(hasV0, hasV1) :=
          if isWitnessTaprootScript (PkScript prevOut) then (hasV0, true) else (true, hasV1) in
        if hasV0 && hasV1 then Ok (hasV0, hasV1) else needed_midstates rest fetcher hasV0 hasV1
  end.

Definition NewTxSigHashes {E} (tx : MsgTx) (fetcher : PrevOutputFetcher) : result E TxSigHashes :=
  let! '(hasV0Inputs, hasV1Inputs) := needed_midstates (TxIns tx) fetcher false false in
  let prevOuts := calcHashPrevOuts tx in
  let sequence := calcHashSequence tx in
  let outputs := calcHashOutputs tx in
  let v0 (h : bytes) := if hasV0Inputs then sha256 h else zeroHash in
  let! amounts := if hasV1Inputs then calcHashInputAmounts tx fetcher else Ok zeroHash in
  let! scripts := if hasV1Inputs then calcHashInputScripts tx fetcher else Ok zeroHash in
  Ok (mkTxSigHashes (v0 prevOuts) (v0 sequence) (v0 outputs) prevOuts sequence outputs scripts amounts).

(** ** Witness version 0 *)

(** The assets of the spent output, field after field. *)
Definition witnessAssets (assets : list AssetInfo) : bytes :=
  put_uint64 (uint64 (len assets))
  ++ concat (map (fun asset =>
       Protocol (Name asset) ++ Type_ (Name asset) ++ Ticker (Name asset)
       ++ ToFormatString (Amount asset) ++ put_uint32 (BindingSat asset)) assets).

Definition witnessPreimage (subScript : bytes) (sigHashes : TxSigHashes) (hashType : Z) (tx : MsgTx)
    (txIn : TxIn) (idx amt : Z) (assets : list AssetInfo) : bytes :=
  let ty := Z.land hashType sigHashMask in
  let acp := negb (Z.land hashType SigHashAnyOneCanPay =? 0) in
  put_uint32 (uint32 (Version tx))
  ++ (if negb acp then HashPrevOutsV0 sigHashes else zeroHash)
  ++ (if negb acp && negb (ty =? SigHashSingle) && negb (ty =? SigHashNone)
      then HashSequenceV0 sigHashes else zeroHash)
  ++ Hash (PreviousOutPoint txIn) ++ put_uint32 (Index (PreviousOutPoint txIn))
  ++ match extractWitnessPubKeyHash subScript with
     | Some h => [0x19; OP_DUP; OP_HASH160; OP_DATA_20] ++ h ++ [OP_EQUALVERIFY; OP_CHECKSIG]
     | None => (WriteVarBytes subScript).1
     end
  ++ put_uint64 (uint64 amt)
  ++ witnessAssets assets
  ++ put_uint32 (Sequence txIn)
  ++ (if negb (ty =? SigHashSingle) && negb (ty =? SigHashNone) then HashOutputsV0 sigHashes
      else if (ty =? SigHashSingle) && (idx <? len (TxOuts tx)) then
        match index (TxOuts tx) idx with
        | Some to => DoubleHashRaw (WriteTxOut to)
        | None => zeroHash
        end
      else zeroHash)
  ++ put_uint32 (LockTime tx) ++ put_uint32 (uint32 hashType).

Definition calcWitnessSignatureHashRaw (subScript : bytes) (sigHashes : TxSigHashes) (hashType : Z)
    (tx : MsgTx) (idx amt : Z) (assets : list AssetInfo) : outcome bytes :=
  if len (TxIns tx) - 1 <? idx then Err ErrOther
  else
    let! txIn := unwrap (index (TxIns tx) idx) in
    Ok (sha256 (sha256 (witnessPreimage subScript sigHashes hashType tx txIn idx amt assets))).

(** ** Taproot *)

Record taprootSigHashOptions : Type := mkTaprootSigHashOptions {
  extFlag : Z;
  annexHash : option bytes;
  tapLeafHash_ : bytes;
  keyVersion : Z;
  codeSepPos_ : Z;
}.

Definition defaultTaprootSighashOptions : taprootSigHashOptions :=
  mkTaprootSigHashOptions 0 None [] 0 0.

Definition WithAnnex (annex : bytes) (o : taprootSigHashOptions) : taprootSigHashOptions :=
  mkTaprootSigHashOptions (extFlag o) (Some (HashB (WriteVarBytes annex).1)) (tapLeafHash_ o)
    (keyVersion o) (codeSepPos_ o).

Definition WithBaseTapscriptVersion (codeSepPos : Z) (tapLeafHash : bytes) (o : taprootSigHashOptions)
    : taprootSigHashOptions :=
  mkTaprootSigHashOptions 1 (annexHash o) tapLeafHash 0 codeSepPos.

Definition writeDigestExtensions (o : taprootSigHashOptions) : bytes :=
  if extFlag o =? 1 then tapLeafHash_ o ++ [keyVersion o] ++ put_uint32 (codeSepPos_ o) else [].

Definition isValidTaprootSigHash (hashType : Z) : bool :=
  (hashType =? SigHashDefault) || (hashType =? SigHashAll) || (hashType =? SigHashNone)
  || (hashType =? SigHashSingle) || (hashType =? 0x81) || (hashType =? 0x82) || (hashType =? 0x83).

(** [wire.WriteTxOut] into a buffer, with its error. *)
Definition written (w : writer) : outcome bytes := if w.2 then Ok w.1 else Err ErrOther.

Definition taprootMessage (sigHashes : TxSigHashes) (hType : Z) (tx : MsgTx) (idx : Z)
    (fetcher : PrevOutputFetcher) (opts : taprootSigHashOptions) : outcome bytes :=
  let acp := Z.land hType SigHashAnyOneCanPay =? SigHashAnyOneCanPay in
  let! input := unwrap (index (TxIns tx) idx) in
  let common :=
    [0x00; uint8 hType] ++ put_uint32 (uint32 (Version tx)) ++ put_uint32 (LockTime tx)
    ++ (if negb acp
        then HashPrevOutsV1 sigHashes ++ HashInputAmountsV1 sigHashes
             ++ HashInputScriptsV1 sigHashes ++ HashSequenceV1 sigHashes
        else [])
    ++ (if negb (Z.land hType SigHashSingle =? SigHashSingle)
           && negb (Z.land hType SigHashSingle =? SigHashNone)
        then HashOutputsV1 sigHashes else [])
    ++ [uint8 (extFlag opts * 2 + (if non_nil (annexHash opts) then 1 else 0))] in
  let! this_input :=
    (if acp then
       let! prevOut := unwrap (fetcher (PreviousOutPoint input)) in
       let! out := written (WriteTxOut prevOut) in
       Ok ((writeOutPoint (PreviousOutPoint input)).1 ++ out ++ put_uint32 (Sequence input))
     else Ok (put_uint32 (uint32 idx))) in
  let! this_output :=
    (if Z.land hType sigHashMask =? SigHashSingle then
       if len (TxOuts tx) <=? idx then Err ErrOther
       else
         let! txOut := unwrap (index (TxOuts tx) idx) in
         let! out := written (WriteTxOut txOut) in
         Ok (sha256 out)
     else Ok []) in
  Ok (common ++ this_input ++ default [] (annexHash opts) ++ this_output
      ++ writeDigestExtensions opts).

Definition calcTaprootSignatureHashRaw (sigHashes : TxSigHashes) (hType : Z) (tx : MsgTx) (idx : Z)
    (fetcher : PrevOutputFetcher) (opts : taprootSigHashOptions) : outcome bytes :=
  if negb (isValidTaprootSigHash hType) then Err ErrOther
  else if len (TxIns tx) - 1 <? idx then Err ErrOther
  else
    let! sigMsg := taprootMessage sigHashes hType tx idx fetcher opts in
    Ok (TaggedHash (str "TapSighash") [sigMsg]).

End SigHashes.

Section SigHashProofs.
Context `{D : DecimalOps} {DL : DecimalLaws D}.

(** ** What the legacy digest commits to *)

Definition signs_one_input (hashType : Z) : bool := negb (Z.land hashType SigHashAnyOneCanPay =? 0).
Definition signs_no_output (hashType : Z) : bool := Z.land hashType sigHashMask =? SigHashNone.
Definition signs_one_output (hashType : Z) : bool := Z.land hashType sigHashMask =? SigHashSingle.

(** What a hash type signs of a transaction whose input [idx] is [ti], compared for
    two transactions.  Before the single output signed, the assets of the outputs
    are signed too. *)
Definition same_signed (hashType idx : Z) (tx tx' : MsgTx) (ti ti' : TxIn) : Prop :=
  Version tx = Version tx' /\ LockTime tx = LockTime tx'
  /\ PreviousOutPoint ti = PreviousOutPoint ti' /\ Sequence ti = Sequence ti'
  /\ (signs_one_input hashType = false -> map PreviousOutPoint (TxIns tx) = map PreviousOutPoint (TxIns tx'))
  /\ (signs_one_input hashType = false -> signs_no_output hashType = false -> signs_one_output hashType = false ->
      map Sequence (TxIns tx) = map Sequence (TxIns tx'))
  /\ (signs_no_output hashType = false -> signs_one_output hashType = false -> TxOuts tx = TxOuts tx')
  /\ (signs_one_output hashType = true ->
      index (TxOuts tx) idx = index (TxOuts tx') idx
      /\ map Assets (take (Z.to_nat idx) (TxOuts tx)) = map Assets (take (Z.to_nat idx) (TxOuts tx'))).

(** The script [code] can be signed for input [idx]: the type finds its output, and
    the modified copy is well formed and of bounded size. *)
Definition signable (code : bytes) (hashType : Z) (tx : MsgTx) (idx : Z) : Prop :=
  (signs_one_output hashType = true -> idx < len (TxOuts tx))
  /\ forall c, sigHashCopy (E := ErrorCode) code hashType tx idx = Ok c -> wf_tx c /\ SerializeSizeStripped c <= maxWitnessItemSize.

(** *** The parts of the copy *)

Definition copied_input (code : bytes) (zero : bool) (idx : Z) (i : nat) (ti : TxIn) : TxIn :=
  mkTxIn (PreviousOutPoint ti) (if at_idx i idx then code else []) (Witness ti)
    (if zero && negb (at_idx i idx) then 0 else Sequence ti).

Definition copied_output (idx : Z) (i : nat) (to : TxOut) : TxOut :=
  if Z.of_nat i <? idx then mkTxOut (-1) (Assets to) [] else to.

Definition copied_ins (code : bytes) (h : Z) (tx : MsgTx) (idx : Z) (ti : TxIn) : list TxIn :=
  if signs_one_input h then [copied_input code false idx (Z.to_nat idx) ti]
  else imap (copied_input code (signs_no_output h || signs_one_output h) idx) (TxIns tx).

Definition copied_outs (h : Z) (tx : MsgTx) (idx : Z) : list TxOut :=
  if signs_no_output h then []
  else if signs_one_output h then imap (copied_output idx) (take (Z.to_nat idx + 1) (TxOuts tx)) else TxOuts tx.

Definition copied (code : bytes) (h : Z) (tx : MsgTx) (idx : Z) (ti : TxIn) : MsgTx :=
  mkMsgTx (Version tx) (copied_ins code h tx idx ti) (copied_outs h tx idx) (LockTime tx).

Lemma index_nat {A} (l : list A) idx x : index l idx = Some x -> 0 <= idx /\ l !! Z.to_nat idx = Some x.
Proof. unfold index. destruct (Z.ltb_spec idx 0); [done|]. by split. Qed.

Lemma subslice_one {E A} (l : list A) idx x :
  index l idx = Some x -> subslice (E := E) l idx (idx + 1) = Ok [x].
Proof.
  intros [H0 Hx]%index_nat. pose proof (lookup_lt_Some _ _ _ Hx). unfold subslice, len.
  rewrite !(proj2 (Z.leb_le _ _)) by lia. cbn [andb]. replace (idx + 1 - idx) with 1 by lia.
  rewrite (drop_S _ x) by done. done.
Qed.

Lemma sigHashCopy_copied {E} code h tx idx ti :
  index (TxIns tx) idx = Some ti -> (signs_one_output h = true -> idx < len (TxOuts tx)) ->
  sigHashCopy (E := E) code h tx idx = Ok (copied code h tx idx ti).
Proof.
  intros Ht Ho. pose proof (index_nat _ _ _ Ht) as [H0 Hl]. unfold sigHashCopy, copied, copied_ins, copied_outs, signs_no_output in *.
  set (zero := imap (fun i ti => if at_idx i idx then ti else set_sequence ti 0)).
  set (ins := imap (fun i ti => set_script ti (if at_idx i idx then code else [])) (TxIns tx)).
  assert (Hz : zero ins = imap (copied_input code true idx) (TxIns tx)).
  { unfold zero, ins. apply list_eq. intros i. rewrite !list_lookup_imap. destruct (TxIns tx !! i); [|done].
    cbn [fmap option_fmap option_map]. unfold copied_input. by destruct (at_idx i idx). }
  assert (Hi : ins = imap (copied_input code false idx) (TxIns tx)) by done.
  assert (Hone : forall b, subslice (E := E) (imap (copied_input code b idx) (TxIns tx)) idx (idx + 1)
    = Ok [copied_input code false idx (Z.to_nat idx) ti]).
  { intros b. apply subslice_one. unfold index. rewrite (proj2 (Z.ltb_ge _ _)) by lia.
    rewrite list_lookup_imap, Hl. cbn [fmap option_fmap option_map]. unfold copied_input, at_idx.
    rewrite Z2Nat.id, Z.eqb_refl, andb_false_r by lia. done. }
  unfold signs_one_input, signs_one_output in *.
  destruct (Z.eqb_spec (Z.land h sigHashMask) SigHashNone) as [|_]; cbn [rbind orb].
  - rewrite Hz. destruct (negb _); [by rewrite Hone|done].
  - destruct (Z.eqb_spec (Z.land h sigHashMask) SigHashSingle) as [|_]; cbn [rbind].
    + specialize (Ho eq_refl). unfold subslice at 1. rewrite !(proj2 (Z.leb_le _ _)) by lia. cbn [andb rbind].
      rewrite Hz, drop_0. replace (Z.to_nat (idx + 1 - 0)) with (Z.to_nat idx + 1)%nat by lia.
      destruct (negb _); [by rewrite Hone|done].
    + rewrite Hi. destruct (negb _); [by rewrite Hone|done].
Qed.

(** *** Equal copies *)

Lemma imap_eq_lookup {A B} (f g : nat -> A -> B) l l' :
  imap f l = imap g l' <-> length l = length l' /\
    (forall i x x', l !! i = Some x -> l' !! i = Some x' -> f i x = g i x').
Proof.
  split.
  - intros Heq. split; [apply (f_equal length) in Heq; by rewrite !length_imap in Heq|]. intros i x x' Hx Hx'.
    apply (f_equal (fun l => l !! i)) in Heq. rewrite !list_lookup_imap, Hx, Hx' in Heq. by injection Heq.
  - intros [Hlen H]. apply list_eq. intros i. rewrite !list_lookup_imap.
    destruct (l !! i) as [x|] eqn:Hx, (l' !! i) as [x'|] eqn:Hx'; simpl; try done; [by rewrite (H i x x')| |];
      [apply lookup_lt_Some in Hx; apply lookup_ge_None in Hx'|apply lookup_lt_Some in Hx'; apply lookup_ge_None in Hx]; lia.
Qed.

Lemma map_eq_lookup {A B} (f : A -> B) l l' :
  map f l = map f l' <-> length l = length l' /\
    (forall i x x', l !! i = Some x -> l' !! i = Some x' -> f x = f x').
Proof.
  assert (H : forall l, map f l = imap (fun _ => f) l) by (induction l0 as [|x l0 IH]; [done|]; cbn; by rewrite IH).
  rewrite !H. apply imap_eq_lookup.
Qed.

Lemma copied_inputs_eq code code' zero idx ins ins' ti ti' :
  index ins idx = Some ti -> index ins' idx = Some ti' ->
  map (fun ti => set_witness ti []) (imap (copied_input code zero idx) ins)
    = map (fun ti => set_witness ti []) (imap (copied_input code' zero idx) ins')
  <-> code = code' /\ Sequence ti = Sequence ti' /\ map PreviousOutPoint ins = map PreviousOutPoint ins'
      /\ (zero = false -> map Sequence ins = map Sequence ins').
Proof.
  intros [H0 Ht]%index_nat [_ Ht']%index_nat. rewrite !fmap_imap, imap_eq_lookup, !map_eq_lookup.
  assert (Hat : at_idx (Z.to_nat idx) idx = true) by (unfold at_idx; apply Z.eqb_eq; lia).
  unfold compose, copied_input, set_witness. cbn [PreviousOutPoint SignatureScript Sequence]. split.
  - intros [Hlen H]. pose proof (H _ _ _ Ht Ht') as Hi. rewrite Hat, andb_false_r in Hi. injection Hi as _ -> Hs.
    split; [done|]. split; [done|]. split; [|intros ->]; (split; [done|]); intros i x x' Hx Hx'; by injection (H i x x' Hx Hx').
  - intros (-> & Hs & [Hlen Hp] & Hq). split; [done|]. intros i x x' Hx Hx'. rewrite (Hp i x x' Hx Hx'). f_equal.
    unfold at_idx. destruct (Z.eqb_spec (Z.of_nat i) idx) as [Hi|]; cbn [negb].
    + rewrite andb_false_r. replace i with (Z.to_nat idx) in * by lia. congruence.
    + destruct zero; [done|]. cbn [andb]. by apply (proj2 (Hq eq_refl) i).
Qed.

Lemma copied_outputs_eq idx outs outs' :
  0 <= idx < len outs -> idx < len outs' ->
  imap (copied_output idx) (take (Z.to_nat idx + 1) outs) = imap (copied_output idx) (take (Z.to_nat idx + 1) outs')
  <-> index outs idx = index outs' idx /\ map Assets (take (Z.to_nat idx) outs) = map Assets (take (Z.to_nat idx) outs').
Proof.
  unfold len. intros Hi Hi'. unfold index. rewrite (proj2 (Z.ltb_ge idx 0)) by lia.
  rewrite imap_eq_lookup, map_eq_lookup, !length_take, !Nat.min_l by lia. unfold copied_output.
  destruct (lookup_lt_is_Some_2 outs (Z.to_nat idx)) as [o Ho]; [lia|].
  destruct (lookup_lt_is_Some_2 outs' (Z.to_nat idx)) as [o' Ho']; [lia|]. rewrite Ho, Ho'. split.
  - intros [_ H]. split; [|split; [done|]].
    + specialize (H (Z.to_nat idx) o o'). rewrite !lookup_take_lt, Z2Nat.id, Z.ltb_irrefl in H by lia. f_equal. by apply H.
    + intros i x x' [Hx Hlt]%lookup_take_Some [Hx' _]%lookup_take_Some. specialize (H i x x').
      rewrite !lookup_take_lt, (proj2 (Z.ltb_lt _ _)) in H by lia. specialize (H Hx Hx'). by injection H.
  - intros [[= ->] [_ H]]. split; [done|]. intros i x x' [Hx Hlt]%lookup_take_Some [Hx' _]%lookup_take_Some.
    destruct (Z.ltb_spec (Z.of_nat i) idx).
    + f_equal. apply (H i); apply lookup_take_Some; split; done || lia.
    + replace i with (Z.to_nat idx) in * by lia. congruence.
Qed.

Lemma copied_ins_eq code code' h tx tx' idx ti ti' :
  index (TxIns tx) idx = Some ti -> index (TxIns tx') idx = Some ti' ->
  map (fun ti => set_witness ti []) (copied_ins code h tx idx ti)
    = map (fun ti => set_witness ti []) (copied_ins code' h tx' idx ti')
  <-> code = code' /\ PreviousOutPoint ti = PreviousOutPoint ti' /\ Sequence ti = Sequence ti'
    /\ (signs_one_input h = false -> map PreviousOutPoint (TxIns tx) = map PreviousOutPoint (TxIns tx'))
    /\ (signs_one_input h = false -> signs_no_output h = false -> signs_one_output h = false ->
        map Sequence (TxIns tx) = map Sequence (TxIns tx')).
Proof.
  intros Ht Ht'. pose proof (index_nat _ _ _ Ht) as [H0 Hl]. pose proof (index_nat _ _ _ Ht') as [_ Hl'].
  unfold copied_ins. destruct (signs_one_input h).
  - assert (Hat : at_idx (Z.to_nat idx) idx = true) by (unfold at_idx; apply Z.eqb_eq; lia).
    unfold copied_input, set_witness. cbn [map PreviousOutPoint SignatureScript Sequence andb]. rewrite Hat. split.
    + by intros [= -> -> ->].
    + by intros (-> & -> & -> & _).
  - rewrite (copied_inputs_eq _ _ _ _ _ _ _ _ Ht Ht'), orb_false_iff. split.
    + intros (-> & Hs & Hp & Hq). split_and!; try done; [|tauto]. by apply (proj2 (proj1 (map_eq_lookup _ _ _) Hp) (Z.to_nat idx)).
    + intros (-> & _ & Hs & Hp & Hq). split_and!; [done|done|auto|]. intros [? ?]. auto.
Qed.

Lemma copied_outs_eq h tx tx' idx :
  0 <= idx -> (signs_one_output h = true -> idx < len (TxOuts tx)) -> (signs_one_output h = true -> idx < len (TxOuts tx')) ->
  copied_outs h tx idx = copied_outs h tx' idx
  <-> (signs_no_output h = false -> signs_one_output h = false -> TxOuts tx = TxOuts tx')
    /\ (signs_one_output h = true -> index (TxOuts tx) idx = index (TxOuts tx') idx
       /\ map Assets (take (Z.to_nat idx) (TxOuts tx)) = map Assets (take (Z.to_nat idx) (TxOuts tx'))).
Proof.
  intros H0 Ho Ho'. unfold copied_outs.
  assert (Hno : signs_no_output h = true -> signs_one_output h = false)
    by (unfold signs_no_output, signs_one_output; intros ->%Z.eqb_eq; done).
  destruct (signs_no_output h); [rewrite (Hno eq_refl); split; [by intros _; split|done]|].
  destruct (signs_one_output h); [|split; [intros ->; by split|intros [H _]; auto]].
  specialize (Ho eq_refl). specialize (Ho' eq_refl). rewrite copied_outputs_eq by lia.
  split; [intros H; by split|intros [_ H]; auto].
Qed.

Lemma copied_eq code code' h tx tx' idx ti ti' :
  index (TxIns tx) idx = Some ti -> index (TxIns tx') idx = Some ti' ->
  (signs_one_output h = true -> idx < len (TxOuts tx)) -> (signs_one_output h = true -> idx < len (TxOuts tx')) ->
  strip_witness (copied code h tx idx ti) = strip_witness (copied code' h tx' idx ti')
  <-> code = code' /\ same_signed h idx tx tx' ti ti'.
Proof.
  intros Ht Ht' Ho Ho'. pose proof (copied_ins_eq code code' h _ _ _ _ _ Ht Ht') as Hins.
  pose proof (copied_outs_eq h tx tx' idx (proj1 (index_nat _ _ _ Ht)) Ho Ho') as Houts.
  unfold strip_witness, copied, same_signed. cbn [Version TxIns TxOuts LockTime]. split.
  - intros [= Hv Hi Hout Hlt]. apply Hins in Hi. apply Houts in Hout. tauto.
  - intros (Hc & Hv & Hlt & Hrest). f_equal; [done|apply Hins; tauto|apply Houts; tauto|done].
Qed.

(** Equal preimages have equal hash types and copies, witnesses apart. *)
Lemma preimage_eq c c' h h' :
  is_uint32 h -> is_uint32 h' -> wf_tx c -> SerializeSizeStripped c <= maxWitnessItemSize -> TxIns c <> [] ->
  wf_tx c' -> SerializeSizeStripped c' <= maxWitnessItemSize -> TxIns c' <> [] ->
  (sigHashPreimage c h).1 = (sigHashPreimage c' h').1 <-> h = h' /\ strip_witness c = strip_witness c'.
Proof.
  intros Hu Hu' Hw Hs Hne Hw' Hs' Hne'. destruct (stripped_codec c Hw Hne Hs) as (He & _ & Hd).
  destruct (stripped_codec c' Hw' Hne' Hs') as (He' & _ & Hd').
  unfold sigHashPreimage. rewrite He, He', !wseq_put. cbn [wput fst]. split.
  - intros Heq. pose proof (Hd (le_encode 4 h)) as Hd1. rewrite Heq, Hd' in Hd1.
    assert (Hst : strip_witness c = strip_witness c') by congruence. assert (Hle : le_encode 4 h = le_encode 4 h') by congruence.
    apply (f_equal le_decode) in Hle. unfold is_uint32 in *. rewrite !le_decode_encode in Hle by (simpl; lia). done.
  - intros [-> Heq]. by rewrite (enc_tx_strip c), Heq, <- enc_tx_strip.
Qed.

Lemma copied_some code h tx idx ti : index (TxIns tx) idx = Some ti -> TxIns (copied code h tx idx ti) <> [].
Proof.
  intros [_ Ht]%index_nat. unfold copied, copied_ins. cbn [TxIns]. destruct (signs_one_input h); [done|]. intros Hn.
  apply (f_equal length) in Hn. rewrite length_imap in Hn. destruct (TxIns tx); [by rewrite lookup_nil in Ht|done].
Qed.

Lemma calcSignatureHash_preimage code h s tx idx ti :
  index (TxIns tx) idx = Some ti -> (signs_one_output h = true -> idx < len (TxOuts tx)) ->
  removeOpcodeRaw (E := ErrorCode) s OP_CODESEPARATOR = Ok code ->
  calcSignatureHash (E := ErrorCode) s h tx idx = Ok (sha256 (sha256 (sigHashPreimage (copied code h tx idx ti) h).1)).
Proof.
  intros Ht Ho Hs. unfold calcSignatureHash. fold (signs_one_output h).
  destruct (signs_one_output h) eqn:H1; cbn [andb].
  - rewrite (proj2 (Z.leb_gt _ _)) by auto. rewrite Hs. cbn [rbind]. by rewrite (sigHashCopy_copied _ _ _ _ ti) by auto.
  - rewrite Hs. cbn [rbind]. rewrite (sigHashCopy_copied _ _ _ _ ti); [done|done|]. by rewrite H1.
Qed.

(** C32: A legacy digest covers exactly what its hash type signs.  For two spends of
    input [idx], with scripts whose code separators are removed and hash types that
    find their output, [calcSignatureHash] is the double hash of two byte strings
    that are equal just when the hash types, the scripts without separators and the
    signed parts agree: version, lock time, outpoint and sequence number of the
    input; without ANYONECANPAY the outpoints of all inputs, and their sequence
    numbers unless the type is NONE or SINGLE; all outputs, or for SINGLE the output
    of the input and the assets of those before it, or for NONE none. *)
Theorem legacy_sighash_commits (s s' code code' : bytes) (h h' idx : Z) (tx tx' : MsgTx) (ti ti' : TxIn) :
  is_uint32 h -> is_uint32 h' -> index (TxIns tx) idx = Some ti -> index (TxIns tx') idx = Some ti' ->
  removeOpcodeRaw (E := ErrorCode) s OP_CODESEPARATOR = Ok code -> removeOpcodeRaw (E := ErrorCode) s' OP_CODESEPARATOR = Ok code' ->
  signable code h tx idx -> signable code' h' tx' idx ->
  exists p p', calcSignatureHash (E := ErrorCode) s h tx idx = Ok (sha256 (sha256 p))
    /\ calcSignatureHash (E := ErrorCode) s' h' tx' idx = Ok (sha256 (sha256 p'))
    /\ (p = p' <-> h = h' /\ code = code' /\ same_signed h idx tx tx' ti ti').
Proof.
  intros Hu Hu' Ht Ht' Hs Hs' [Ho Hc] [Ho' Hc'].
  destruct (Hc _ (sigHashCopy_copied _ _ _ _ _ Ht Ho)) as [Hw Hz].
  destruct (Hc' _ (sigHashCopy_copied _ _ _ _ _ Ht' Ho')) as [Hw' Hz'].
  eexists _, _. split; [by apply calcSignatureHash_preimage|]. split; [by apply calcSignatureHash_preimage|].
  rewrite preimage_eq by (done || by apply copied_some). split.
  - intros [<- Hst]. split; [done|]. by apply copied_eq in Hst.
  - intros (<- & Hcode & Hsig). split; [done|]. by apply copied_eq.
Qed.

(** ** What the witness version 0 digest does not separate *)

(** C33: The asset fields of the version 0 witness digest are written without
    lengths, so different spent assets can have the same digest: moving the end of
    the type to the front of the ticker changes nothing, for every transaction,
    script and hash type. *)
Theorem witness_sighash_ambiguous (subScript : bytes) (sigHashes : TxSigHashes) (hashType : Z)
    (tx : MsgTx) (idx amt : Z) (before after : list AssetInfo) (p t u k : bytes) (a : Decimal) (b : Z) :
  calcWitnessSignatureHashRaw subScript sigHashes hashType tx idx amt
    (before ++ mkAssetInfo (mkAssetName p (t ++ u) k) a b :: after)
  = calcWitnessSignatureHashRaw subScript sigHashes hashType tx idx amt
    (before ++ mkAssetInfo (mkAssetName p t (u ++ k)) a b :: after).
Proof.
  assert (Hw : witnessAssets (before ++ mkAssetInfo (mkAssetName p (t ++ u) k) a b :: after)
             = witnessAssets (before ++ mkAssetInfo (mkAssetName p t (u ++ k)) a b :: after)).
  { unfold witnessAssets, len. rewrite !length_app, !map_app. simpl. by rewrite <- !app_assoc. }
  unfold calcWitnessSignatureHashRaw, witnessPreimage. by rewrite Hw.
Qed.

(** ** What the taproot amounts digest commits to *)

Definition enc_input_asset (a : AssetInfo) : bytes :=
  varbytes (Protocol (Name a)) ++ varbytes (Type_ (Name a)) ++ varbytes (Ticker (Name a))
  ++ varbytes (ToFormatString (Amount a)) ++ le_encode 4 (BindingSat a).

(** A reader for the encoding, to show that it is unambiguous. *)
Definition read_input_asset : reader AssetInfo := fun r =>
  let! '(p, r) := ReadVarBytes (2 ^ 63) r in
  let! '(t, r) := ReadVarBytes (2 ^ 63) r in
  let! '(k, r) := ReadVarBytes (2 ^ 63) r in
  let! '(f, r) := ReadVarBytes (2 ^ 63) r in
  let! '(b, r) := read_uint 4 r in
  match NewDecimalFromFormatString f with
  | Some a => Ok (mkAssetInfo (mkAssetName p t k) a b, r)
  | None => Err ErrFormat
  end.

Definition read_input_amount : reader (Z * list AssetInfo) := fun r =>
  let! '(v, r) := read_uint 8 r in
  let! '(n, r) := read_uint 8 r in
  let! '(l, r) := read_many n read_input_asset r in
  Ok ((int64 v, l), r).

Lemma ReadVarBytes_app b m rest : len b <= m < 2 ^ 64 -> ReadVarBytes m (varbytes b ++ rest) = Ok (b, rest).
Proof.
  intros Hb. unfold ReadVarBytes, varbytes. pose proof (len_nonneg b).
  rewrite <- app_assoc, ReadVarInt_app by (unfold is_uint64; lia). cbn [rbind]. z_test. by apply ReadFull_app.
Qed.

Lemma read_input_asset_app a rest :
  wf_asset a -> len (enc_input_asset a) <= 2 ^ 63 -> read_input_asset (enc_input_asset a ++ rest) = Ok (a, rest).
Proof.
  intros [Hv Hb] Hl. unfold enc_input_asset, read_input_asset in *. rewrite !len_app, !varbytes_len in Hl.
  pose proof (len_nonneg (Protocol (Name a))). pose proof (len_nonneg (Type_ (Name a))).
  pose proof (len_nonneg (Ticker (Name a))). pose proof (len_nonneg (ToFormatString (Amount a))).
  pose proof (varint_size (len (Protocol (Name a)))). pose proof (varint_size (len (Type_ (Name a)))).
  pose proof (varint_size (len (Ticker (Name a)))). pose proof (varint_size (len (ToFormatString (Amount a)))).
  rewrite le_encode_len in Hl. rewrite <- !app_assoc.
  do 4 (rewrite ReadVarBytes_app by lia; cbn [rbind]).
  rewrite (read_uint_app 4 4) by (done || exact Hb). cbn [rbind]. rewrite format_roundtrip by done.
  by destruct a as [[] ? ?].
Qed.

Lemma inputAmount_enc o :
  Forall wf_asset (Assets o) -> len (concat (map enc_input_asset (Assets o))) < 2 ^ 63 ->
  inputAmount o = le_encode 8 (uint64 (Value o)) ++ le_encode 8 (uint64 (len (Assets o)))
    ++ concat (map enc_input_asset (Assets o)).
Proof.
  intros Hw Hl. unfold inputAmount, put_uint64. do 3 f_equal. apply map_ext_in. intros a Ha.
  pose proof (elem_concat_len enc_input_asset _ _ Ha) as Hb. unfold enc_input_asset in Hb at 1.
  rewrite !len_app, !varbytes_len, le_encode_len in Hb.
  pose proof (len_nonneg (Protocol (Name a))). pose proof (len_nonneg (Type_ (Name a))).
  pose proof (len_nonneg (Ticker (Name a))). pose proof (len_nonneg (ToFormatString (Amount a))).
  pose proof (varint_size (len (Protocol (Name a)))). pose proof (varint_size (len (Type_ (Name a)))).
  pose proof (varint_size (len (Ticker (Name a)))). pose proof (varint_size (len (ToFormatString (Amount a)))).
  rewrite !WriteVarBytes_put by lia. done.
Qed.

(** A spent output whose assets fit the length fields. *)
Definition amount_ok (o : TxOut) : Prop :=
  wf_txout o /\ len (concat (map enc_input_asset (Assets o))) < 2 ^ 63.

Lemma enc_input_asset_pos a : 4 <= len (enc_input_asset a).
Proof.
  unfold enc_input_asset. rewrite !len_app, le_encode_len.
  pose proof (len_nonneg (varbytes (Protocol (Name a)))). pose proof (len_nonneg (varbytes (Type_ (Name a)))).
  pose proof (len_nonneg (varbytes (Ticker (Name a)))). pose proof (len_nonneg (varbytes (ToFormatString (Amount a)))). lia.
Qed.

Lemma read_input_amount_app o rest :
  amount_ok o -> read_input_amount (inputAmount o ++ rest) = Ok ((Value o, Assets o), rest).
Proof.
  intros [[Hv Ha] Hl]. rewrite inputAmount_enc by done. unfold read_input_amount. rewrite <- !app_assoc.
  rewrite (read_uint_app 8 8) by (done || apply Z.mod_pos_bound; lia). cbn [rbind].
  pose proof (concat_len_ge enc_input_asset (Assets o) 4 (Forall_true _ _ enc_input_asset_pos)).
  pose proof (len_nonneg (Assets o)). rewrite uint64_id by (unfold is_uint64; lia).
  rewrite (read_uint_app 8 8) by (done || lia). cbn [rbind]. rewrite read_many_app.
  - cbn [rbind]. by rewrite int64_uint64.
  - apply (Forall_bounded wf_asset _ enc_input_asset _ (2 ^ 63)); [done|lia|].
    intros a Hwa Hb rest'. by apply read_input_asset_app.
  - apply Forall_true. intros a. pose proof (enc_input_asset_pos a). lia.
Qed.

Lemma concat_amounts_inj (l l' : list TxOut) :
  Forall amount_ok l -> Forall amount_ok l' -> length l = length l' ->
  concat (map inputAmount l) = concat (map inputAmount l') ->
  map (fun o => (Value o, Assets o)) l = map (fun o => (Value o, Assets o)) l'.
Proof.
  intros Hl. revert l'. induction Hl as [|o l Ho Hl IH]; intros [|o' l'] Hl' Hlen; try done.
  cbn [map concat].
  intros Heq. apply Forall_cons_iff in Hl' as [Ho' Hl']. injection Hlen as Hlen.
  pose proof (read_input_amount_app o (concat (map inputAmount l)) Ho) as Hr.
  rewrite Heq, read_input_amount_app in Hr by done. injection Hr as Hv Ha Hrest.
  rewrite Hv, Ha. f_equal. by apply IH.
Qed.

(** The outputs a fetcher returns for the inputs of a transaction, in order. *)
Lemma fetch_each_ok {A} (f : TxOut -> A) tx fetcher outs :
  map (fun i => fetcher (PreviousOutPoint i)) (TxIns tx) = map Some outs ->
  fetch_each (E := ErrorCode) f tx fetcher = Ok (map f outs).
Proof.
  unfold fetch_each. intros Hf.
  assert (Hg : forall acc, rfold (fun l txIn =>
      let! prevOut := unwrap (fetcher (PreviousOutPoint txIn)) in Ok (E := ErrorCode) (l ++ [f prevOut]))
      acc (TxIns tx) = Ok (acc ++ map f outs)); [|apply Hg].
  revert outs Hf. induction (TxIns tx) as [|i ins IH]; intros [|o outs] Hf acc; simpl in *; try done.
  { by rewrite app_nil_r. }
  injection Hf as Ho Hf. rewrite Ho. simpl. rewrite (IH outs Hf). by rewrite <- app_assoc.
Qed.

(** C34: The taproot amounts digest commits to the satoshis and to every asset of
    every spent output: when two sets of previous outputs for the same transaction
    give the same bytes to hash, their values and asset lists are equal input by
    input. *)
Theorem taproot_amounts_commit (tx : MsgTx) (fetch fetch' : PrevOutputFetcher) (outs outs' : list TxOut)
    (b : list bytes) (b' : list bytes) :
  map (fun i => fetch (PreviousOutPoint i)) (TxIns tx) = map Some outs ->
  map (fun i => fetch' (PreviousOutPoint i)) (TxIns tx) = map Some outs' ->
  Forall amount_ok outs -> Forall amount_ok outs' ->
  fetch_each (E := ErrorCode) inputAmount tx fetch = Ok b ->
  fetch_each (E := ErrorCode) inputAmount tx fetch' = Ok b' -> concat b = concat b' ->
  map (fun o => (Value o, Assets o)) outs = map (fun o => (Value o, Assets o)) outs'.
Proof.
  intros Hf Hf' Ho Ho' Hb Hb' Heq.
  rewrite (fetch_each_ok inputAmount tx fetch outs Hf) in Hb.
  rewrite (fetch_each_ok inputAmount tx fetch' outs' Hf') in Hb'.
  injection Hb as <-. injection Hb' as <-. apply concat_amounts_inj; try done.
  apply (f_equal length) in Hf, Hf'. rewrite !length_map in Hf, Hf'. congruence.
Qed.

End SigHashProofs.

(** ** Concrete evaluations *)

Definition sample_input : TxIn := mkTxIn (mkOutPoint (replicate 32 7) 3) [] [] MaxTxInSequenceNum.

Definition sample_output (ticker : bytes) : TxOut (D := text_decimal) :=
  mkTxOut (D := text_decimal) 546
    [mkAssetInfo (D := text_decimal) (mkAssetName (str "ordx") (str "f") ticker) (str "100") 1] [81].

Definition sample_spend (ticker : bytes) : MsgTx (D := text_decimal) :=
  mkMsgTx (D := text_decimal) 1 [sample_input; sample_input]
    [sample_output ticker; sample_output (str "pearl")] 0.

Lemma sample_signable : signable [81] SigHashAll (sample_spend (str "a")) 1.
Proof.
  split; [done|]. intros c [= <-]. split; [|vm_compute; congruence]. repeat split; repeat constructor; vm_compute; congruence.
Qed.

Lemma legacy_sighash_commits_witness :
  let tx := sample_spend (str "a") in
  exists p p', calcSignatureHash (E := ErrorCode) [81; OP_CODESEPARATOR] SigHashAll tx 1 = Ok (sha256 (sha256 p))
    /\ calcSignatureHash (E := ErrorCode) [81] SigHashAll tx 1 = Ok (sha256 (sha256 p'))
    /\ (p = p' <-> SigHashAll = SigHashAll /\ [81] = [81] /\ same_signed SigHashAll 1 tx tx sample_input sample_input).
Proof.
  apply (legacy_sighash_commits (DL := text_decimal_laws) [81; OP_CODESEPARATOR] [81] [81] [81] SigHashAll SigHashAll 1
    (sample_spend (str "a")) (sample_spend (str "a")) sample_input sample_input);
    [split; vm_compute; congruence|split; vm_compute; congruence|reflexivity|reflexivity|reflexivity|reflexivity
    |exact sample_signable|exact sample_signable].
Defined.

Lemma taproot_amounts_commit_witness :
  map (fun o => (Value o, Assets o)) [sample_output (str "a"); sample_output (str "a")]
  = map (fun o => (Value o, Assets o)) [sample_output (str "a"); sample_output (str "a")].
Proof.
  apply (taproot_amounts_commit (DL := text_decimal_laws) (sample_spend (str "a"))
    (fun _ => Some (sample_output (str "a"))) (fun _ => Some (sample_output (str "a")))
    [sample_output (str "a"); sample_output (str "a")] [sample_output (str "a"); sample_output (str "a")]
    [inputAmount (sample_output (str "a")); inputAmount (sample_output (str "a"))]
    [inputAmount (sample_output (str "a")); inputAmount (sample_output (str "a"))]);
    try reflexivity; repeat constructor; vm_compute; congruence.
Defined.

(** Under [SigHashSingle] the outputs before the signed one lose value and
    script but keep their assets, so the digest still depends on them. *)
Example sighash_single_keeps_assets :
  let h := SigHashSingle in
  let preimage ticker :=
    (let! c := sigHashCopy (D := text_decimal) (E := ErrorCode) [81] h (sample_spend ticker) 1 in
     Ok (sigHashPreimage c h).1) in
  preimage (str "a") <> preimage (str "b").
Proof. vm_compute. congruence. Qed.
