(* ===== verification/Curve.v ===== *)
(** * Signature and key encodings ([btcec])

    The parsers of ECDSA signatures ([btcec/ecdsa/signature.go], the DER and the
    lax BER form), of Schnorr signatures and x-only keys
    ([btcec/schnorr/signature.go], [btcec/schnorr/pubkey.go]), and the BIP-340
    verification equation.  The scalar, field and point arithmetic is the
    secp256k1 module the code imports: the interface [CurveOps], with its
    documented behaviour in [CurveLaws]. *)

From Stdlib Require Import ZArith Lia.
From stdpp Require Import base list numbers option strings.
From S2P Require Import Prelude ScriptNum Tokenizer ScriptBuilder ScriptStack ScriptStd Sha.

Definition curve_n : Z := 0xfffffffffffffffffffffffffffffffebaaedce6af48a03bbfd25e8cd0364141.

(** Half the order of secp256k1. *)
Definition halfOrder : Z := Z.shiftr curve_n 1.

Class CurveOps : Type := {
  ripemd160 : bytes -> bytes;
  PublicKey : Type;
  ModNScalar : Type;
  FieldVal : Type;
  secp_ParsePubKey : bytes -> option PublicKey;
  SerializeCompressed : PublicKey -> bytes;
  IsOnCurve : PublicKey -> bool;
  NewPublicKey : FieldVal -> FieldVal -> PublicKey;
  scalar_SetByteSlice : bytes -> ModNScalar * bool;
  scalar_IsZero : ModNScalar -> bool;
  scalar_Negate : ModNScalar -> ModNScalar;
  field_SetByteSlice : bytes -> FieldVal * bool;
  field_Bytes : FieldVal -> bytes;
  field_IsZero : FieldVal -> bool;
  field_IsOdd : FieldVal -> bool;
  field_Equals : FieldVal -> FieldVal -> bool;
  AsJacobian : PublicKey -> FieldVal * FieldVal * FieldVal;
  ScalarBaseMultNonConst : ModNScalar -> FieldVal * FieldVal * FieldVal;
  ScalarMultNonConst : ModNScalar -> FieldVal * FieldVal * FieldVal -> FieldVal * FieldVal * FieldVal;
  AddNonConst : FieldVal * FieldVal * FieldVal -> FieldVal * FieldVal * FieldVal ->
    FieldVal * FieldVal * FieldVal;
  ToAffine : FieldVal * FieldVal * FieldVal -> FieldVal * FieldVal * FieldVal;
  ecdsa_Verify : ModNScalar * ModNScalar -> bytes -> PublicKey -> bool;
}.

(** Documented behaviour of the imported modules: RIPEMD-160 returns twenty
    bytes; a compressed key has 33 bytes, and a parsed key has a counterpart
    with an even y coordinate; a scalar set from at most 32 bytes is their
    big-endian value modulo the group order, and overflow is reported. *)
Class CurveLaws (C : CurveOps) : Type := {
  ripemd160_ok (b : bytes) : bytes_ok (ripemd160 b);
  ripemd160_len (b : bytes) : len (ripemd160 b) = 20;
  SerializeCompressed_len (k : PublicKey) : len (SerializeCompressed k) = 33;
  ParsePubKey_even (b : bytes) (k : PublicKey) :
    secp_ParsePubKey b = Some k -> is_Some (secp_ParsePubKey (0x02 :: drop 1 (SerializeCompressed k)));
  scalar_val : ModNScalar -> Z;
  scalar_val_inj (a b : ModNScalar) : scalar_val a = scalar_val b -> a = b;
  scalar_SetByteSlice_spec (b : bytes) :
    bytes_ok b -> len b <= 32 ->
    scalar_val (scalar_SetByteSlice b).1 = be_decode b mod curve_n
    /\ (scalar_SetByteSlice b).2 = (curve_n <=? be_decode b);
  scalar_IsZero_spec (a : ModNScalar) : scalar_IsZero a = (scalar_val a =? 0);
}.

Section Curve.
Context `{C : CurveOps}.

(** Errors of the parsers are not script errors. *)
Definition parsed {A} (o : option A) : outcome A :=
  match o with
  | Some a => Ok a
  | None => Err ErrOther
  end.

(** The early return [if bad { return err }]. *)
Definition check (bad : bool) (e : ErrorCode) : outcome unit := if bad then Err e else Ok tt.

(** [b[i]]. *)
Definition byte_at (b : bytes) (i : Z) : outcome Z := unwrap (index b i).

(** ** ECDSA ([ecdsa/signature.go]) *)

Definition MinSigLen : Z := 8.
Definition MaxSigLen : Z := 72.

(** [canonicalPadding]: whether it returns nil. *)
Definition canonicalPadding (b : bytes) : outcome bool :=
  let! b0 := byte_at b 0 in
  if Z.land b0 0x80 =? 0x80 then Ok false
  else if (1 <? len b) && (b0 =? 0x00) then
    let! b1 := byte_at b 1 in
    Ok (Z.land b1 0x80 =? 0x80)
  else Ok true.

Fixpoint strip_zeroes (b : bytes) : bytes :=
  match b with
  | x :: r => if x =? 0x00 then strip_zeroes r else b
  | [] => []
  end.

(** The checks on one of the two integers, from its bytes to the scalar. *)
Definition parseInt (der : bool) (b : bytes) : outcome ModNScalar :=
  let! _ := (if der then
               let! ok := canonicalPadding b in
               check (negb ok) ErrOther
             else Ok tt) in
  let b := strip_zeroes b in
  let! _ := check (32 <? len b) ErrOther in
  let '(v, overflow) := scalar_SetByteSlice b in
  let! _ := check overflow ErrOther in
  let! _ := check (scalar_IsZero v) ErrOther in
  Ok v.

Definition ecdsa_parseSig (sigStr : bytes) (der : bool) : outcome (ModNScalar * ModNScalar) :=
  let totalSigLen := len sigStr in
  let! _ := check (totalSigLen <? MinSigLen) ErrOther in
  let! _ := check (der && (MaxSigLen <? totalSigLen)) ErrOther in
  let! b := byte_at sigStr 0 in
  let! _ := check (negb (b =? 0x30)) ErrOther in
  let! siglen := byte_at sigStr 1 in
  let total := uint8 (siglen + 2) in
  let! _ := check ((len sigStr <? total) || (total <? MinSigLen)) ErrOther in
  let! sigStr := subslice sigStr 0 total in
  let! b := byte_at sigStr 2 in
  let! _ := check (negb (b =? 0x02)) ErrOther in
  let! rLen := byte_at sigStr 3 in
  let index := 4 in
  let! _ := check ((rLen <=? 0) || (len sigStr - index - 3 <? rLen)) ErrOther in
  let! rBytes := subslice sigStr index (index + rLen) in
  let! r := parseInt der rBytes in
  let index := index + rLen in
  let! b := byte_at sigStr index in
  let! _ := check (negb (b =? 0x02)) ErrOther in
  let! sLen := byte_at sigStr (index + 1) in
  let index := index + 2 in
  let! _ := check ((sLen <=? 0) || (len sigStr - index <? sLen)) ErrOther in
  let! sBytes := subslice sigStr index (index + sLen) in
  let! s := parseInt der sBytes in
  let index := index + sLen in
  let! _ := check (negb (index =? len sigStr)) ErrOther in
  Ok (r, s).

Definition ecdsa_ParseSignature (sigStr : bytes) := ecdsa_parseSig sigStr false.
Definition ecdsa_ParseDERSignature (sigStr : bytes) := ecdsa_parseSig sigStr true.

(** ** Public keys *)

Definition IsCompressedPubKey (pubKey : bytes) : bool :=
  (len pubKey =? 33) && (Z.land (default 0 (pubKey !! 0%nat)) 0xfe =? 0x2).

Definition schnorr_ParsePubKey (pubKeyStr : bytes) : option PublicKey :=
  if negb (len pubKeyStr =? 32) then None else secp_ParsePubKey (0x02 :: pubKeyStr).

Definition schnorr_SerializePubKey (pub : PublicKey) : bytes := drop 1 (SerializeCompressed pub).

(** ** Schnorr ([schnorr/signature.go]) *)

Definition schnorr_SignatureSize : Z := 64.

Definition schnorr_ParseSignature (sig : bytes) : outcome (FieldVal * ModNScalar) :=
  let sigLen := len sig in
  let! _ := check (sigLen <? schnorr_SignatureSize) ErrOther in
  let! _ := check (schnorr_SignatureSize <? sigLen) ErrOther in
  let '(r, overflow) := field_SetByteSlice (take 32 sig) in
  let! _ := check overflow ErrOther in
  Ok (r, (scalar_SetByteSlice (drop 32 sig)).1).

(** [schnorrVerify] returning nil. *)
Definition schnorrVerify (sig : FieldVal * ModNScalar) (hash pubKeyBytes : bytes) : bool :=
  let '(r, s) := sig in
  if negb (len hash =? 32) then false
  else match schnorr_ParsePubKey pubKeyBytes with
  | None => false
  | Some pubKey =>
      if negb (IsOnCurve pubKey) then false
      else
        let pBytes := schnorr_SerializePubKey pubKey in
        let commitment := TaggedHash (str "BIP0340/challenge") [field_Bytes r; pBytes; hash] in
        let e := scalar_Negate (scalar_SetByteSlice commitment).1 in
        let sG := ScalarBaseMultNonConst s in
        let eP := ScalarMultNonConst e (AsJacobian pubKey) in
        let '(X, Y, Z) := AddNonConst sG eP in
        if (field_IsZero X && field_IsZero Y) || field_IsZero Z then false
        else
          let '(X, Y, Z) := ToAffine (X, Y, Z) in
          if field_IsOdd Y then false else field_Equals r X
  end.

Definition schnorr_Verify (sig : FieldVal * ModNScalar) (hash : bytes) (pubKey : PublicKey) : bool :=
  schnorrVerify sig hash (schnorr_SerializePubKey pubKey).

End Curve.
