(* ===== verification/CurveModel.v ===== *)
(** * A model of the curve interface

    An instance of [CurveOps] with which concrete inputs can be evaluated, and a
    proof that it satisfies [CurveLaws]: the laws are consistent.  It is not
    secp256k1: a key is its 32-byte x coordinate, every x coordinate is a key,
    and a signature is valid when its [r] is the digest modulo the group
    order. *)

From Stdlib Require Import ZArith Lia.
From stdpp Require Import base list numbers option strings.
From S2P Require Import Prelude ScriptNum Tokenizer Sha Curve.

Definition pad32 (b : bytes) : bytes := take 32 (b ++ replicate 32 0).

Lemma pad32_len b : len (pad32 b) = 32.
Proof. unfold pad32, len. rewrite length_take, length_app, length_replicate. lia. Qed.

#[export] Instance model_curve : CurveOps := {|
  ripemd160 b := take 20 (sha256 b);
  PublicKey := bytes;
  ModNScalar := Z;
  FieldVal := Z;
  secp_ParsePubKey b :=
    if (len b =? 33) && (at_is b 0 0x02 || at_is b 0 0x03) then Some (drop 1 b) else None;
  SerializeCompressed k := 0x02 :: pad32 k;
  IsOnCurve _ := true;
  NewPublicKey x _ := be_encode 32 x;
  scalar_SetByteSlice b := (be_decode b mod curve_n, curve_n <=? be_decode b);
  scalar_IsZero a := a =? 0;
  scalar_Negate a := (- a) mod curve_n;
  field_SetByteSlice b := (be_decode b, false);
  field_Bytes x := be_encode 32 x;
  field_IsZero x := x =? 0;
  field_IsOdd := Z.odd;
  field_Equals := Z.eqb;
  AsJacobian k := (be_decode k, 0, 1);
  ScalarBaseMultNonConst a := (a, 0, 1);
  ScalarMultNonConst a _ := (a, 0, 1);
  AddNonConst p q := let '(x, _, _) := p in let '(y, _, _) := q in (x + y, 0, 1);
  ToAffine p := p;
  ecdsa_Verify sig hash _ := sig.1 =? be_decode hash mod curve_n;
|}.

#[export] Instance model_laws : CurveLaws model_curve.
Proof.
  refine {| scalar_val := (fun a : Z => a) : @ModNScalar model_curve -> Z |}; try done.
  - intros b. apply Forall_take, sha256_ok.
  - intros b. simpl. rewrite len_take_le; [done|]. rewrite sha256_len. lia.
  - intros k. change (len (SerializeCompressed k)) with (len (0x02 :: pad32 k)). rewrite len_cons, pad32_len. done.
  - intros b k _. change (is_Some (if (len (0x02 :: pad32 k) =? 33) && true then Some (pad32 k) else None)).
    rewrite len_cons, pad32_len. by eexists.
Qed.
