(* ===== verification/EngineState.v ===== *)
(** * State of the script engine ([txscript/engine.go])

    The flags, the configuration fixed at creation, the state, and the queries the
    opcode handlers make.  The signature cache is the predicate its [Exists]
    computes. *)

From Stdlib Require Import ZArith Lia.
From stdpp Require Import base list numbers option strings.
From S2P Require Import Prelude ScriptNum Tokenizer ScriptBuilder ScriptStack ScriptStd Sha Wire SigHash Curve.

(** ** Script flags *)

Definition ScriptBip16 : Z := 2 ^ 0.
Definition ScriptStrictMultiSig : Z := 2 ^ 1.
Definition ScriptDiscourageUpgradableNops : Z := 2 ^ 2.
Definition ScriptVerifyCheckLockTimeVerify : Z := 2 ^ 3.
Definition ScriptVerifyCheckSequenceVerify : Z := 2 ^ 4.
Definition ScriptVerifyCleanStack : Z := 2 ^ 5.
Definition ScriptVerifyDERSignatures : Z := 2 ^ 6.
Definition ScriptVerifyLowS : Z := 2 ^ 7.
Definition ScriptVerifyMinimalData : Z := 2 ^ 8.
Definition ScriptVerifyNullFail : Z := 2 ^ 9.
Definition ScriptVerifySigPushOnly : Z := 2 ^ 10.
Definition ScriptVerifyStrictEncoding : Z := 2 ^ 11.
Definition ScriptVerifyWitness : Z := 2 ^ 12.
Definition ScriptVerifyDiscourageUpgradeableWitnessProgram : Z := 2 ^ 13.
Definition ScriptVerifyMinimalIf : Z := 2 ^ 14.
Definition ScriptVerifyWitnessPubKeyType : Z := 2 ^ 15.
Definition ScriptVerifyTaproot : Z := 2 ^ 16.
Definition ScriptVerifyDiscourageUpgradeableTaprootVersion : Z := 2 ^ 17.
Definition ScriptVerifyDiscourageOpSuccess : Z := 2 ^ 18.
Definition ScriptVerifyDiscourageUpgradeablePubkeyType : Z := 2 ^ 19.
Definition ScriptVerifyConstScriptCode : Z := 2 ^ 20.

Definition MaxStackSize : Z := 1000.
Definition LockTimeThreshold : Z := 500000000.
Definition OpCondFalse : Z := 0.
Definition OpCondTrue : Z := 1.
Definition OpCondSkip : Z := 2.
Definition sigOpsDelta : Z := 50.
Definition BaseLeafVersion : Z := 0xc0.
Definition TaprootLeafMask : Z := 0xfe.
Definition ControlBlockBaseSize : Z := 33.
Definition ControlBlockNodeSize : Z := 32.
Definition ControlBlockMaxNodeCount : Z := 128.
Definition ControlBlockMaxSize : Z :=
  ControlBlockBaseSize + ControlBlockNodeSize * ControlBlockMaxNodeCount.

Section EngineState.
Context `{D : DecimalOps} `{C : CurveOps}.

Record taprootExecutionCtx : Type := mkTaprootExecutionCtx {
  annex : option bytes;
  codeSepPos : Z;
  tapLeafHash : bytes;
  sigOpsBudget : Z;
  mustSucceed : bool;
}.

(** The fields set when the engine is created and not changed afterwards. *)
Record EngineConfig : Type := mkEngineConfig {
  flags : Z;
  tx : MsgTx;
  txIdx : Z;
  version : Z;
  bip16 : bool;
  sigCache : option (bytes -> bytes -> bytes -> bool);
  hashCache : option TxSigHashes;
  prevOutFetcher : PrevOutputFetcher;
  inputAmount_ : Z;
  txAssets : list AssetInfo;
}.

Record Engine : Type := mkEngine {
  cfg : EngineConfig;
  scripts : list bytes;
  scriptIdx : Z;
  opcodeIdx : Z;
  lastCodeSep : Z;
  tokenizer : ScriptTokenizer;
  savedFirstStack : list bytes;
  dstack : stack;
  astack : stack;
  condStack : list Z;
  numOps : Z;
  witnessVersion : Z;
  witnessProgram : option bytes;
  taprootCtx : option taprootExecutionCtx;
}.

Definition set_scripts (x : list bytes) (vm : Engine) : Engine :=
  mkEngine (cfg vm) x (scriptIdx vm) (opcodeIdx vm) (lastCodeSep vm) (tokenizer vm)
    (savedFirstStack vm) (dstack vm) (astack vm) (condStack vm) (numOps vm) (witnessVersion vm)
    (witnessProgram vm) (taprootCtx vm).
Definition set_scriptIdx (x : Z) (vm : Engine) : Engine :=
  mkEngine (cfg vm) (scripts vm) x (opcodeIdx vm) (lastCodeSep vm) (tokenizer vm)
    (savedFirstStack vm) (dstack vm) (astack vm) (condStack vm) (numOps vm) (witnessVersion vm)
    (witnessProgram vm) (taprootCtx vm).
Definition set_opcodeIdx (x : Z) (vm : Engine) : Engine :=
  mkEngine (cfg vm) (scripts vm) (scriptIdx vm) x (lastCodeSep vm) (tokenizer vm)
    (savedFirstStack vm) (dstack vm) (astack vm) (condStack vm) (numOps vm) (witnessVersion vm)
    (witnessProgram vm) (taprootCtx vm).
Definition set_lastCodeSep (x : Z) (vm : Engine) : Engine :=
  mkEngine (cfg vm) (scripts vm) (scriptIdx vm) (opcodeIdx vm) x (tokenizer vm) (savedFirstStack
    vm) (dstack vm) (astack vm) (condStack vm) (numOps vm) (witnessVersion vm) (witnessProgram
    vm) (taprootCtx vm).
Definition set_tokenizer (x : ScriptTokenizer) (vm : Engine) : Engine :=
  mkEngine (cfg vm) (scripts vm) (scriptIdx vm) (opcodeIdx vm) (lastCodeSep vm) x
    (savedFirstStack vm) (dstack vm) (astack vm) (condStack vm) (numOps vm) (witnessVersion vm)
    (witnessProgram vm) (taprootCtx vm).
Definition set_savedFirstStack (x : list bytes) (vm : Engine) : Engine :=
  mkEngine (cfg vm) (scripts vm) (scriptIdx vm) (opcodeIdx vm) (lastCodeSep vm) (tokenizer vm) x
    (dstack vm) (astack vm) (condStack vm) (numOps vm) (witnessVersion vm) (witnessProgram vm)
    (taprootCtx vm).
Definition set_dstack (x : stack) (vm : Engine) : Engine :=
  mkEngine (cfg vm) (scripts vm) (scriptIdx vm) (opcodeIdx vm) (lastCodeSep vm) (tokenizer vm)
    (savedFirstStack vm) x (astack vm) (condStack vm) (numOps vm) (witnessVersion vm)
    (witnessProgram vm) (taprootCtx vm).
Definition set_astack (x : stack) (vm : Engine) : Engine :=
  mkEngine (cfg vm) (scripts vm) (scriptIdx vm) (opcodeIdx vm) (lastCodeSep vm) (tokenizer vm)
    (savedFirstStack vm) (dstack vm) x (condStack vm) (numOps vm) (witnessVersion vm)
    (witnessProgram vm) (taprootCtx vm).
Definition set_condStack (x : list Z) (vm : Engine) : Engine :=
  mkEngine (cfg vm) (scripts vm) (scriptIdx vm) (opcodeIdx vm) (lastCodeSep vm) (tokenizer vm)
    (savedFirstStack vm) (dstack vm) (astack vm) x (numOps vm) (witnessVersion vm)
    (witnessProgram vm) (taprootCtx vm).
Definition set_numOps (x : Z) (vm : Engine) : Engine :=
  mkEngine (cfg vm) (scripts vm) (scriptIdx vm) (opcodeIdx vm) (lastCodeSep vm) (tokenizer vm)
    (savedFirstStack vm) (dstack vm) (astack vm) (condStack vm) x (witnessVersion vm)
    (witnessProgram vm) (taprootCtx vm).
Definition set_witnessVersion (x : Z) (vm : Engine) : Engine :=
  mkEngine (cfg vm) (scripts vm) (scriptIdx vm) (opcodeIdx vm) (lastCodeSep vm) (tokenizer vm)
    (savedFirstStack vm) (dstack vm) (astack vm) (condStack vm) (numOps vm) x (witnessProgram
    vm) (taprootCtx vm).
Definition set_witnessProgram (x : option bytes) (vm : Engine) : Engine :=
  mkEngine (cfg vm) (scripts vm) (scriptIdx vm) (opcodeIdx vm) (lastCodeSep vm) (tokenizer vm)
    (savedFirstStack vm) (dstack vm) (astack vm) (condStack vm) (numOps vm) (witnessVersion vm)
    x (taprootCtx vm).
Definition set_taprootCtx (x : option taprootExecutionCtx) (vm : Engine) : Engine :=
  mkEngine (cfg vm) (scripts vm) (scriptIdx vm) (opcodeIdx vm) (lastCodeSep vm) (tokenizer vm)
    (savedFirstStack vm) (dstack vm) (astack vm) (condStack vm) (numOps vm) (witnessVersion vm)
    (witnessProgram vm) x.

(** ** Queries *)

Definition hasFlag (vm : Engine) (flag : Z) : bool := Z.land (flags (cfg vm)) flag =? flag.

Definition isBranchExecuting (vm : Engine) : bool :=
  match last_of (condStack vm) with
  | None => true
  | Some c => c =? OpCondTrue
  end.

Definition isOpcodeDisabled (opcode : Z) : bool :=
  (opcode =? OP_CAT) || (opcode =? OP_SUBSTR) || (opcode =? OP_LEFT) || (opcode =? OP_RIGHT)
  || (opcode =? OP_INVERT) || (opcode =? OP_AND) || (opcode =? OP_OR) || (opcode =? OP_XOR)
  || (opcode =? OP_2MUL) || (opcode =? OP_2DIV) || (opcode =? OP_MUL) || (opcode =? OP_DIV)
  || (opcode =? OP_MOD) || (opcode =? OP_LSHIFT) || (opcode =? OP_RSHIFT).

Definition isOpcodeAlwaysIllegal (opcode : Z) : bool :=
  (opcode =? OP_VERIF) || (opcode =? OP_VERNOTIF).

Definition isOpcodeConditional (opcode : Z) : bool :=
  (opcode =? OP_IF) || (opcode =? OP_NOTIF) || (opcode =? OP_ELSE) || (opcode =? OP_ENDIF).

Definition isWitnessVersionActive (vm : Engine) (v : Z) : bool :=
  non_nil (witnessProgram vm) && (witnessVersion vm =? v).

Definition checkMinimalDataPush (opcodeVal : Z) (data : bytes) : outcome unit :=
  let dataLen := len data in
  let d0 := default 0 (data !! 0%nat) in
  let require (ok : bool) : outcome unit := if ok then Ok tt else Err ErrMinimalData in
  if (dataLen =? 0) && negb (opcodeVal =? OP_0) then Err ErrMinimalData
  else if (dataLen =? 1) && (1 <=? d0) && (d0 <=? 16) then
    require (opcodeVal =? uint8 (OP_1 + d0 - 1))
  else if (dataLen =? 1) && (d0 =? 0x81) then require (opcodeVal =? OP_1NEGATE)
  else if dataLen <=? 75 then require (opcodeVal =? dataLen)
  else if dataLen <=? 255 then require (opcodeVal =? OP_PUSHDATA1)
  else if dataLen <=? 65535 then require (opcodeVal =? OP_PUSHDATA2)
  else Ok tt.

(** [subScript]: the current script after the last [OP_CODESEPARATOR]. *)
Definition subScript (vm : Engine) : outcome bytes :=
  let! s := unwrap (index (scripts vm) (scriptIdx vm)) in
  subslice s (lastCodeSep vm) (len s).

End EngineState.
