(* ===== verification/SigValidate.v ===== *)
(** * Signature checks of the engine ([txscript/engine.go], [txscript/sigvalidate.go], [txscript/taproot.go])

    The encoding rules for hash types, public keys and DER signatures, the
    verifiers behind [OP_CHECKSIG] (legacy, witness version 0, tapscript), and the
    taproot key-path and commitment checks. *)

From Stdlib Require Import ZArith Lia.
From stdpp Require Import base list numbers option strings.
From S2P Require Import Prelude ScriptNum Tokenizer ScriptBuilder ScriptStack ScriptStd Sha Wire SigHash Curve EngineState.

Section SigValidate.
Context `{D : DecimalOps} `{C : CurveOps}.

(** ** Encodings *)

Definition checkHashTypeEncoding (vm : Engine) (hashType : Z) : outcome unit :=
  if negb (hasFlag vm ScriptVerifyStrictEncoding) then Ok tt
  else
    let sigHashType := Z.land hashType (Z.lxor SigHashAnyOneCanPay 0xffffffff) in
    if (sigHashType <? SigHashAll) || (SigHashSingle <? sigHashType) then Err ErrInvalidSigHashType
    else Ok tt.

Definition checkPubKeyEncoding (vm : Engine) (pubKey : bytes) : outcome unit :=
  if hasFlag vm ScriptVerifyWitnessPubKeyType && isWitnessVersionActive vm BaseSegwitWitnessVersion
     && negb (IsCompressedPubKey pubKey) then Err ErrWitnessPubKeyType
  else if negb (hasFlag vm ScriptVerifyStrictEncoding) then Ok tt
  else if (len pubKey =? 33) && (at_is pubKey 0 0x02 || at_is pubKey 0 0x03) then Ok tt
  else if (len pubKey =? 65) && at_is pubKey 0 0x04 then Ok tt
  else Err ErrPubKeyType.

(** The DER layout: [0x30 <total> 0x02 <len R> <R> 0x02 <len S> <S>]. *)
Definition checkSignatureDER (sig : bytes) (lowS : bool) : outcome unit :=
  let rOffset := 4 in
  let sigLen := len sig in
  let! _ := check (sigLen <? 8) ErrSigTooShort in
  let! _ := check (72 <? sigLen) ErrSigTooLong in
  let! b := byte_at sig 0 in
  let! _ := check (negb (b =? 0x30)) ErrSigInvalidSeqID in
  let! b := byte_at sig 1 in
  let! _ := check (negb (b =? sigLen - 2)) ErrSigInvalidDataLen in
  let! rLen := byte_at sig 3 in
  let sTypeOffset := rOffset + rLen in
  let sLenOffset := sTypeOffset + 1 in
  let! _ := check (sigLen <=? sTypeOffset) ErrSigMissingSTypeID in
  let! _ := check (sigLen <=? sLenOffset) ErrSigMissingSLen in
  let sOffset := sLenOffset + 1 in
  let! sLen := byte_at sig sLenOffset in
  let! _ := check (negb (sOffset + sLen =? sigLen)) ErrSigInvalidSLen in
  let! b := byte_at sig 2 in
  let! _ := check (negb (b =? 0x02)) ErrSigInvalidRIntID in
  let! _ := check (rLen =? 0) ErrSigZeroRLen in
  let! r0 := byte_at sig rOffset in
  let! _ := check (negb (Z.land r0 0x80 =? 0)) ErrSigNegativeR in
  let! _ := (if (1 <? rLen) && (r0 =? 0x00) then
               let! r1 := byte_at sig (rOffset + 1) in
               check (Z.land r1 0x80 =? 0) ErrSigTooMuchRPadding
             else Ok tt) in
  let! b := byte_at sig sTypeOffset in
  let! _ := check (negb (b =? 0x02)) ErrSigInvalidSIntID in
  let! _ := check (sLen =? 0) ErrSigZeroSLen in
  let! s0 := byte_at sig sOffset in
  let! _ := check (negb (Z.land s0 0x80 =? 0)) ErrSigNegativeS in
  let! _ := (if (1 <? sLen) && (s0 =? 0x00) then
               let! s1 := byte_at sig (sOffset + 1) in
               check (Z.land s1 0x80 =? 0) ErrSigTooMuchSPadding
             else Ok tt) in
  if lowS then
    let! sBytes := subslice sig sOffset (sOffset + sLen) in
    check (halfOrder <? be_decode sBytes) ErrSigHighS
  else Ok tt.

Definition checkSignatureEncoding (vm : Engine) (sig : bytes) : outcome unit :=
  if negb (hasFlag vm ScriptVerifyDERSignatures) && negb (hasFlag vm ScriptVerifyLowS)
     && negb (hasFlag vm ScriptVerifyStrictEncoding) then Ok tt
  else checkSignatureDER sig (hasFlag vm ScriptVerifyLowS).

(** ** Legacy and witness version 0 *)

(** [fullSigBytes[len-1]] and [fullSigBytes[:len-1]]. *)
Definition split_hash_type (fullSigBytes : bytes) : outcome (Z * bytes) :=
  let! hashType := unwrap (last_of fullSigBytes) in
  Ok (hashType, take (length fullSigBytes - 1) fullSigBytes).

Definition strictEncoding (vm : Engine) : bool :=
  hasFlag vm ScriptVerifyStrictEncoding || hasFlag vm ScriptVerifyDERSignatures.

Definition parseSig (vm : Engine) (sigBytes : bytes) : outcome (ModNScalar * ModNScalar) :=
  if strictEncoding vm then ecdsa_ParseDERSignature sigBytes else ecdsa_ParseSignature sigBytes.

Definition parseBaseSigAndPubkey (pkBytes fullSigBytes : bytes) (vm : Engine)
    : outcome (PublicKey * (ModNScalar * ModNScalar) * Z) :=
  let! '(hashType, sigBytes) := split_hash_type fullSigBytes in
  let! _ := checkHashTypeEncoding vm hashType in
  let! _ := checkSignatureEncoding vm sigBytes in
  let! _ := checkPubKeyEncoding vm pkBytes in
  let! pubKey := parsed (secp_ParsePubKey pkBytes) in
  let! signature := parseSig vm sigBytes in
  Ok (pubKey, signature, hashType).

Record baseSigVerifier : Type := mkBaseSigVerifier {
  bsv_pubKey : PublicKey;
  bsv_sig : ModNScalar * ModNScalar;
  bsv_fullSigBytes : bytes;
  bsv_sigBytes : bytes;
  bsv_pkBytes : bytes;
  bsv_subScript : bytes;
  bsv_hashType : Z;
}.

Record verifyResult : Type := mkVerifyResult { sigValid : bool; sigMatch : bool }.

Definition newBaseSigVerifier (pkBytes fullSigBytes : bytes) (vm : Engine) : outcome baseSigVerifier :=
  let! '(pubKey, sig, hashType) := parseBaseSigAndPubkey pkBytes fullSigBytes vm in
  let! script := subScript vm in
  let! '(_, sigBytes) := split_hash_type fullSigBytes in
  Ok (mkBaseSigVerifier pubKey sig fullSigBytes sigBytes pkBytes script hashType).

(** A cached entry is accepted without verification. *)
Definition cached_or (vm : Engine) (sigHash sig pk : bytes) (verify : bool) : bool :=
  match sigCache (cfg vm) with
  | Some Exists => Exists sigHash sig pk || verify
  | None => verify
  end.

Definition baseSigVerifier_verifySig (vm : Engine) (b : baseSigVerifier) (sigHash : bytes) : bool :=
  cached_or vm sigHash (bsv_sigBytes b) (bsv_pkBytes b) (ecdsa_Verify (bsv_sig b) sigHash (bsv_pubKey b)).

Definition baseSigVerifier_Verify (vm : Engine) (b : baseSigVerifier) : outcome verifyResult :=
  let! '(script, m) := removeOpcodeByData (bsv_subScript b) (bsv_fullSigBytes b) in
  let! sigHash := calcSignatureHash script (bsv_hashType b) (tx (cfg vm)) (txIdx (cfg vm)) in
  Ok (mkVerifyResult (baseSigVerifier_verifySig vm b sigHash) m).

(** The hash cache, or the midstates computed on the spot. *)
Definition sigHashesV0 (vm : Engine) : outcome TxSigHashes :=
  match hashCache (cfg vm) with
  | Some h => Ok h
  | None => NewTxSigHashes (tx (cfg vm)) (prevOutFetcher (cfg vm))
  end.

Definition witnessSigHash (vm : Engine) (script : bytes) (hashType : Z) : outcome bytes :=
  let! sigHashes := sigHashesV0 vm in
  calcWitnessSignatureHashRaw script sigHashes hashType (tx (cfg vm)) (txIdx (cfg vm))
    (inputAmount_ (cfg vm)) (txAssets (cfg vm)).

(** [baseSegwitSigVerifier.Verify]: an error of the digest is an invalid
    signature. *)
Definition baseSegwitSigVerifier_Verify (vm : Engine) (b : baseSigVerifier) : outcome verifyResult :=
  match witnessSigHash vm (bsv_subScript b) (bsv_hashType b) with
  | Ok sigHash => Ok (mkVerifyResult (baseSigVerifier_verifySig vm b sigHash) false)
  | Err _ => Ok (mkVerifyResult false false)
  | Panic => Panic
  end.

(** ** Taproot *)

Record taprootSigVerifier : Type := mkTaprootSigVerifier {
  tsv_pubKey : PublicKey;
  tsv_pkBytes : bytes;
  tsv_fullSigBytes : bytes;
  tsv_sig : FieldVal * ModNScalar;
  tsv_hashType : Z;
  tsv_annex : option bytes;
}.

Definition parseTaprootSigAndPubKey (pkBytes rawSig : bytes)
    : outcome (PublicKey * (FieldVal * ModNScalar) * Z) :=
  let! pubKey := parsed (schnorr_ParsePubKey pkBytes) in
  if len rawSig =? schnorr_SignatureSize then
    let! sig := schnorr_ParseSignature rawSig in
    Ok (pubKey, sig, SigHashDefault)
  else if (len rawSig =? schnorr_SignatureSize + 1) && negb (at_is rawSig 64 0) then
    let! sigHashType := unwrap (rawSig !! 64%nat) in
    let! sig := schnorr_ParseSignature (take 64 rawSig) in
    Ok (pubKey, sig, sigHashType)
  else Err ErrInvalidTaprootSigLen.

Definition newTaprootSigVerifier (pkBytes fullSigBytes : bytes) (annex : option bytes)
    : outcome taprootSigVerifier :=
  let! '(pubKey, sig, sigHashType) := parseTaprootSigAndPubKey pkBytes fullSigBytes in
  Ok (mkTaprootSigVerifier pubKey pkBytes fullSigBytes sig sigHashType annex).

(** Whether the message reads the midstates, which are a nil pointer when no
    hash cache is given. *)
Definition reads_midstates (hType : Z) : bool :=
  negb (Z.land hType SigHashAnyOneCanPay =? SigHashAnyOneCanPay)
  || (negb (Z.land hType SigHashSingle =? SigHashSingle)
      && negb (Z.land hType SigHashSingle =? SigHashNone)).

Definition taprootSigHash (vm : Engine) (hashType : Z) (opts : taprootSigHashOptions) : outcome bytes :=
  let calc sigHashes := calcTaprootSignatureHashRaw sigHashes hashType (tx (cfg vm)) (txIdx (cfg vm))
    (prevOutFetcher (cfg vm)) opts in
  match hashCache (cfg vm) with
  | Some sigHashes => calc sigHashes
  | None =>
      if isValidTaprootSigHash hashType && (txIdx (cfg vm) <? len (TxIns (tx (cfg vm))))
         && reads_midstates hashType
      then Panic
      else calc (mkTxSigHashes [] [] [] [] [] [] [] [])
  end.

Definition taprootSigVerifier_check (vm : Engine) (t : taprootSigVerifier)
    (opts : taprootSigHashOptions) : outcome verifyResult :=
  match taprootSigHash vm (tsv_hashType t) opts with
  | Ok sigHash =>
      Ok (mkVerifyResult (cached_or vm sigHash (tsv_fullSigBytes t) (tsv_pkBytes t)
        (schnorr_Verify (tsv_sig t) sigHash (tsv_pubKey t))) false)
  | Err _ => Ok (mkVerifyResult false false)
  | Panic => Panic
  end.

Definition with_annex (annex : option bytes) (o : taprootSigHashOptions) : taprootSigHashOptions :=
  match annex with
  | Some a => WithAnnex a o
  | None => o
  end.

Definition taprootSigVerifier_Verify (vm : Engine) (t : taprootSigVerifier) : outcome verifyResult :=
  taprootSigVerifier_check vm t (with_annex (tsv_annex t) defaultTaprootSighashOptions).

(** [None] is the verifier of an unknown key type, which accepts. *)
Definition newBaseTapscriptSigVerifier (pkBytes rawSig : bytes) (vm : Engine)
    : outcome (option taprootSigVerifier) :=
  if len pkBytes =? 0 then Err ErrTaprootPubkeyIsEmpty
  else if len pkBytes =? 32 then
    let! ctx := unwrap (taprootCtx vm) in
    let! v := newTaprootSigVerifier pkBytes rawSig (annex ctx) in
    Ok (Some v)
  else if hasFlag vm ScriptVerifyDiscourageUpgradeablePubkeyType
  then Err ErrDiscourageUpgradeablePubKeyType
  else Ok None.

Definition baseTapscriptSigVerifier_Verify (vm : Engine) (v : option taprootSigVerifier)
    : outcome verifyResult :=
  match v with
  | None => Ok (mkVerifyResult true false)
  | Some t =>
      let! ctx := unwrap (taprootCtx vm) in
      taprootSigVerifier_check vm t
        (with_annex (annex ctx)
          (WithBaseTapscriptVersion (codeSepPos ctx) (tapLeafHash ctx) defaultTaprootSighashOptions))
  end.

Definition VerifyTaprootKeySpend (vm : Engine) (program rawSig : bytes) : outcome unit :=
  let! txin := unwrap (index (TxIns (tx (cfg vm))) (txIdx (cfg vm))) in
  let annex := if isAnnexedWitness (Witness txin) then last_of (Witness txin) else None in
  let! v := newTaprootSigVerifier program rawSig annex in
  let! result := taprootSigVerifier_Verify vm v in
  if sigValid result then Ok tt else Err ErrTaprootSigInvalid.

Record ControlBlock : Type := mkControlBlock {
  InternalKey : PublicKey;
  OutputKeyYIsOdd : bool;
  LeafVersion : Z;
  InclusionProof : bytes;
}.

Definition ParseControlBlock (ctrlBlock : bytes) : outcome ControlBlock :=
  if len ctrlBlock <? ControlBlockBaseSize then Err ErrControlBlockTooSmall
  else if ControlBlockMaxSize <? len ctrlBlock then Err ErrControlBlockTooLarge
  else if negb ((len ctrlBlock - ControlBlockBaseSize) mod ControlBlockNodeSize =? 0)
  then Err ErrControlBlockInvalidLength
  else
    let b0 := default 0 (ctrlBlock !! 0%nat) in
    let leafVersion := Z.land b0 TaprootLeafMask in
    let yIsOdd := Z.land b0 0x01 =? 0x01 in
    let! pubKey := parsed (schnorr_ParsePubKey (take 32 (drop 1 ctrlBlock))) in
    Ok (mkControlBlock pubKey yIsOdd leafVersion (drop 33 ctrlBlock)).

(** [TapLeaf.TapHash] and [tapBranchHash] (the smaller child first). *)
Definition tapLeaf_TapHash (leafVersion : Z) (script : bytes) : bytes :=
  TaggedHash (str "TapLeaf") [leafVersion :: (WriteVarBytes script).1].

Fixpoint bytes_compare_gt (a b : bytes) : bool :=
  match a, b with
  | x :: a', y :: b' => if x =? y then bytes_compare_gt a' b' else y <? x
  | _ :: _, [] => true
  | _, _ => false
  end.

Definition tapBranchHash (l r : bytes) : bytes :=
  let '(l, r) := if bytes_compare_gt l r then (r, l) else (l, r) in
  TaggedHash (str "TapBranch") [l; r].

(** The proof is read 32 bytes at a time. *)
Fixpoint rootHash_loop (numNodes : nat) (proof acc : bytes) : bytes :=
  match numNodes with
  | O => acc
  | S n => rootHash_loop n (drop 32 proof) (tapBranchHash acc (take 32 proof))
  end.

Definition ControlBlock_RootHash (c : ControlBlock) (revealedScript : bytes) : bytes :=
  rootHash_loop (Z.to_nat (len (InclusionProof c) / ControlBlockNodeSize)) (InclusionProof c)
    (tapLeaf_TapHash (LeafVersion c) revealedScript).

Definition ComputeTaprootOutputKey (pubKey : PublicKey) (scriptRoot : bytes) : outcome PublicKey :=
  let! internalKey := unwrap (schnorr_ParsePubKey (schnorr_SerializePubKey pubKey)) in
  let tapTweakHash := TaggedHash (str "TapTweak") [schnorr_SerializePubKey internalKey; scriptRoot] in
  let tweakScalar := (scalar_SetByteSlice tapTweakHash).1 in
  let '(X, Y, _) :=
    ToAffine (AddNonConst (AsJacobian internalKey) (ScalarBaseMultNonConst tweakScalar)) in
  Ok (NewPublicKey X Y).

Definition VerifyTaprootLeafCommitment (controlBlock : ControlBlock)
    (taprootWitnessProgram revealedScript : bytes) : outcome unit :=
  let rootHash := ControlBlock_RootHash controlBlock revealedScript in
  let! taprootKey := ComputeTaprootOutputKey (InternalKey controlBlock) rootHash in
  if negb (bytes_eqb (schnorr_SerializePubKey taprootKey) taprootWitnessProgram)
  then Err ErrTaprootMerkleProofInvalid
  else
    let derivedYIsOdd := at_is (SerializeCompressed taprootKey) 0 0x03 in
    if negb (Bool.eqb (OutputKeyYIsOdd controlBlock) derivedYIsOdd)
    then Err ErrTaprootOutputKeyParityMismatch
    else Ok tt.

End SigValidate.
