(* ===== verification/Opcodes.v ===== *)
(** * Opcode handlers ([txscript/opcode.go])

    One definition per handler, from the opcode, its data and the engine to the
    engine after it or the error, and the table [opcodeArray] that dispatches on
    the opcode. *)

From Stdlib Require Import ZArith Lia.
From stdpp Require Import base list numbers option strings.
From S2P Require Import Prelude ScriptNum Tokenizer ScriptBuilder ScriptStack ScriptStd Sha Wire SigHash Curve EngineState SigValidate.


Section Opcodes.
Context `{D : DecimalOps} `{C : CurveOps}.

Definition opfunc : Type := Z -> option bytes -> Engine -> outcome Engine.

(** A handler that is one operation on the data stack. *)
Definition on_dstack (f : stack -> outcome stack) (vm : Engine) : outcome Engine :=
  let! s := f (dstack vm) in
  Ok (set_dstack s vm).

Definition push (b : bytes) (vm : Engine) : Engine := set_dstack (stack_PushByteArray b (dstack vm)) vm.

(** ** Constants, no-ops and failures *)

Definition opcodeDisabled : opfunc := fun _ _ _ => Err ErrDisabledOpcode.
Definition opcodeReserved : opfunc := fun _ _ _ => Err ErrReservedOpcode.
Definition opcodeInvalid : opfunc := fun _ _ _ => Err ErrReservedOpcode.
Definition opcodeFalse : opfunc := fun _ _ vm => Ok (push [] vm).
Definition opcodePushData : opfunc := fun _ data vm => Ok (push (slice data) vm).
Definition opcode1Negate : opfunc := fun _ _ => on_dstack (stack_PushInt (-1)).
Definition opcodeN : opfunc := fun op _ => on_dstack (stack_PushInt (uint8 (op - (OP_1 - 1)))).

Definition opcodeNop : opfunc := fun op _ vm =>
  if ((op =? OP_NOP1) || ((OP_NOP4 <=? op) && (op <=? OP_NOP10)))
     && hasFlag vm ScriptDiscourageUpgradableNops
  then Err ErrDiscourageUpgradableNOPs
  else Ok vm.

(** ** Conditionals *)

Definition popIfBool (vm : Engine) : outcome (bool * stack) :=
  if negb (isWitnessVersionActive vm TaprootWitnessVersion)
     && (negb (isWitnessVersionActive vm BaseSegwitWitnessVersion)
         || negb (hasFlag vm ScriptVerifyMinimalIf))
  then stack_PopBool (dstack vm)
  else
    let! '(so, s) := stack_PopByteArray (dstack vm) in
    if 1 <? len so then Err ErrMinimalIf
    else if (len so =? 1) && negb (at_is so 0 0x01) then Err ErrMinimalIf
    else Ok (asBool so, s).

Definition opcodeIf : opfunc := fun _ _ vm =>
  if isBranchExecuting vm then
    let! '(ok, s) := popIfBool vm in
    let vm := set_dstack s vm in
    Ok (set_condStack (condStack vm ++ [if (ok : bool) then OpCondTrue else OpCondFalse]) vm)
  else Ok (set_condStack (condStack vm ++ [OpCondSkip]) vm).

Definition opcodeNotIf : opfunc := fun _ _ vm =>
  if isBranchExecuting vm then
    let! '(ok, s) := popIfBool vm in
    let vm := set_dstack s vm in
    Ok (set_condStack (condStack vm ++ [if (ok : bool) then OpCondFalse else OpCondTrue]) vm)
  else Ok (set_condStack (condStack vm ++ [OpCondSkip]) vm).

Definition opcodeElse : opfunc := fun _ _ vm =>
  match last_of (condStack vm) with
  | None => Err ErrUnbalancedConditional
  | Some c =>
      let c := if c =? OpCondTrue then OpCondFalse else if c =? OpCondFalse then OpCondTrue else c in
      Ok (set_condStack (take (length (condStack vm) - 1) (condStack vm) ++ [c]) vm)
  end.

Definition opcodeEndif : opfunc := fun _ _ vm =>
  if len (condStack vm) =? 0 then Err ErrUnbalancedConditional
  else Ok (set_condStack (take (length (condStack vm) - 1) (condStack vm)) vm).

Definition abstractVerify (c : ErrorCode) (vm : Engine) : outcome Engine :=
  let! '(verified, s) := stack_PopBool (dstack vm) in
  if (verified : bool) then Ok (set_dstack s vm) else Err c.

Definition opcodeVerify : opfunc := fun _ _ => abstractVerify ErrVerify.
Definition opcodeReturn : opfunc := fun _ _ _ => Err ErrEarlyReturn.

(** ** Lock times *)

Definition verifyLockTime (txLockTime threshold lockTime : Z) : outcome unit :=
  if negb (((txLockTime <? threshold) && (lockTime <? threshold))
           || ((threshold <=? txLockTime) && (threshold <=? lockTime)))
  then Err ErrUnsatisfiedLockTime
  else if txLockTime <? lockTime then Err ErrUnsatisfiedLockTime
  else Ok tt.

(** The five-byte number on top of the stack, which must not be negative. *)
Definition peekLockTime (vm : Engine) : outcome Z :=
  let! so := stack_PeekByteArray 0 (dstack vm) in
  let! n := MakeScriptNum so (verifyMinimalData (dstack vm)) cltvMaxScriptNumLen in
  if n <? 0 then Err ErrNegativeLockTime else Ok n.

Definition currentTxIn (vm : Engine) : outcome TxIn := unwrap (index (TxIns (tx (cfg vm))) (txIdx (cfg vm))).

Definition opcodeCheckLockTimeVerify : opfunc := fun _ _ vm =>
  if negb (hasFlag vm ScriptVerifyCheckLockTimeVerify) then
    if hasFlag vm ScriptDiscourageUpgradableNops then Err ErrDiscourageUpgradableNOPs else Ok vm
  else
    let! lockTime := peekLockTime vm in
    let! _ := verifyLockTime (LockTime (tx (cfg vm))) LockTimeThreshold lockTime in
    let! txIn := currentTxIn vm in
    if Sequence txIn =? MaxTxInSequenceNum then Err ErrUnsatisfiedLockTime
    else Ok vm.

Definition opcodeCheckSequenceVerify : opfunc := fun _ _ vm =>
  if negb (hasFlag vm ScriptVerifyCheckSequenceVerify) then
    if hasFlag vm ScriptDiscourageUpgradableNops then Err ErrDiscourageUpgradableNOPs else Ok vm
  else
    let! sequence := peekLockTime vm in
    if negb (Z.land sequence SequenceLockTimeDisabled =? 0) then Ok vm
    else if uint32 (Version (tx (cfg vm))) <? 2 then Err ErrUnsatisfiedLockTime
    else
      let! txIn := currentTxIn vm in
      let txSequence := Sequence txIn in
      if negb (Z.land txSequence SequenceLockTimeDisabled =? 0) then Err ErrUnsatisfiedLockTime
      else
        let lockTimeMask := Z.lor SequenceLockTimeIsSeconds SequenceLockTimeMask in
        let! _ := verifyLockTime (Z.land txSequence lockTimeMask) SequenceLockTimeIsSeconds
          (Z.land sequence lockTimeMask) in
        Ok vm.

(** ** Stacks *)

Definition opcodeToAltStack : opfunc := fun _ _ vm =>
  let! '(so, s) := stack_PopByteArray (dstack vm) in
  Ok (set_astack (stack_PushByteArray so (astack vm)) (set_dstack s vm)).

Definition opcodeFromAltStack : opfunc := fun _ _ vm =>
  let! '(so, s) := stack_PopByteArray (astack vm) in
  Ok (set_dstack (stack_PushByteArray so (dstack vm)) (set_astack s vm)).

Definition opcode2Drop : opfunc := fun _ _ => on_dstack (stack_DropN 2).
Definition opcode2Dup : opfunc := fun _ _ => on_dstack (stack_DupN 2).
Definition opcode3Dup : opfunc := fun _ _ => on_dstack (stack_DupN 3).
Definition opcode2Over : opfunc := fun _ _ => on_dstack (stack_OverN 2).
Definition opcode2Rot : opfunc := fun _ _ => on_dstack (stack_RotN 2).
Definition opcode2Swap : opfunc := fun _ _ => on_dstack (stack_SwapN 2).

Definition opcodeIfDup : opfunc := fun _ _ => on_dstack (fun s =>
  let! so := stack_PeekByteArray 0 s in
  Ok (if asBool so then stack_PushByteArray so s else s)).

Definition opcodeDepth : opfunc := fun _ _ => on_dstack (fun s => stack_PushInt (stack_Depth s) s).
Definition opcodeDrop : opfunc := fun _ _ => on_dstack (stack_DropN 1).
Definition opcodeDup : opfunc := fun _ _ => on_dstack (stack_DupN 1).
Definition opcodeNip : opfunc := fun _ _ => on_dstack (stack_NipN 1).
Definition opcodeOver : opfunc := fun _ _ => on_dstack (stack_OverN 1).

Definition opcodePick : opfunc := fun _ _ => on_dstack (fun s =>
  let! '(val, s) := stack_PopInt s in
  stack_PickN (scriptNum_Int32 val) s).

Definition opcodeRoll : opfunc := fun _ _ => on_dstack (fun s =>
  let! '(val, s) := stack_PopInt s in
  stack_RollN (scriptNum_Int32 val) s).

Definition opcodeRot : opfunc := fun _ _ => on_dstack (stack_RotN 1).
Definition opcodeSwap : opfunc := fun _ _ => on_dstack (stack_SwapN 1).
Definition opcodeTuck : opfunc := fun _ _ => on_dstack stack_Tuck.

Definition opcodeSize : opfunc := fun _ _ => on_dstack (fun s =>
  let! so := stack_PeekByteArray 0 s in
  stack_PushInt (len so) s).

Definition opcodeEqual : opfunc := fun _ _ => on_dstack (fun s =>
  let! '(a, s) := stack_PopByteArray s in
  let! '(b, s) := stack_PopByteArray s in
  Ok (stack_PushBool (bytes_eqb a b) s)).

Definition opcodeEqualVerify : opfunc := fun op data vm =>
  let! vm := opcodeEqual op data vm in
  abstractVerify ErrEqualVerify vm.

(** ** Numbers: handlers that replace one, two or three popped numbers *)

Definition unary (f : Z -> Z) : opfunc := fun _ _ => on_dstack (fun s =>
  let! '(m, s) := stack_PopInt s in
  stack_PushInt (f m) s).

Definition binary (f : Z -> Z -> Z) : opfunc := fun _ _ => on_dstack (fun s =>
  let! '(v0, s) := stack_PopInt s in
  let! '(v1, s) := stack_PopInt s in
  stack_PushInt (f v0 v1) s).

(** The branches pushing [scriptNum(1)] or [scriptNum(0)]. *)
Definition num (b : bool) : Z := if b then 1 else 0.

Definition opcode1Add : opfunc := unary (fun m => int64 (m + 1)).
Definition opcode1Sub : opfunc := unary (fun m => int64 (m - 1)).
Definition opcodeNegate : opfunc := unary (fun m => int64 (- m)).
Definition opcodeAbs : opfunc := unary (fun m => if m <? 0 then int64 (- m) else m).
Definition opcodeNot : opfunc := unary (fun m => num (m =? 0)).
Definition opcode0NotEqual : opfunc := unary (fun m => if negb (m =? 0) then 1 else m).
Definition opcodeAdd : opfunc := binary (fun v0 v1 => int64 (v0 + v1)).
Definition opcodeSub : opfunc := binary (fun v0 v1 => int64 (v1 - v0)).
Definition opcodeBoolAnd : opfunc := binary (fun v0 v1 => num (negb (v0 =? 0) && negb (v1 =? 0))).
Definition opcodeBoolOr : opfunc := binary (fun v0 v1 => num (negb (v0 =? 0) || negb (v1 =? 0))).
Definition opcodeNumEqual : opfunc := binary (fun v0 v1 => num (v0 =? v1)).

Definition opcodeNumEqualVerify : opfunc := fun op data vm =>
  let! vm := opcodeNumEqual op data vm in
  abstractVerify ErrNumEqualVerify vm.

Definition opcodeNumNotEqual : opfunc := binary (fun v0 v1 => num (negb (v0 =? v1))).
Definition opcodeLessThan : opfunc := binary (fun v0 v1 => num (v1 <? v0)).
Definition opcodeGreaterThan : opfunc := binary (fun v0 v1 => num (v0 <? v1)).
Definition opcodeLessThanOrEqual : opfunc := binary (fun v0 v1 => num (v1 <=? v0)).
Definition opcodeGreaterThanOrEqual : opfunc := binary (fun v0 v1 => num (v0 <=? v1)).
Definition opcodeMin : opfunc := binary (fun v0 v1 => if v1 <? v0 then v1 else v0).
Definition opcodeMax : opfunc := binary (fun v0 v1 => if v0 <? v1 then v1 else v0).

Definition opcodeWithin : opfunc := fun _ _ => on_dstack (fun s =>
  let! '(maxVal, s) := stack_PopInt s in
  let! '(minVal, s) := stack_PopInt s in
  let! '(x, s) := stack_PopInt s in
  stack_PushInt (num ((minVal <=? x) && (x <? maxVal))) s).

(** ** Hashes *)

Definition hash_top (h : bytes -> bytes) : opfunc := fun _ _ => on_dstack (fun s =>
  let! '(buf, s) := stack_PopByteArray s in
  Ok (stack_PushByteArray (h buf) s)).

Definition opcodeRipemd160 : opfunc := hash_top ripemd160.
Definition opcodeSha1 : opfunc := hash_top sha1.
Definition opcodeSha256 : opfunc := hash_top sha256.
Definition opcodeHash160 : opfunc := hash_top (fun buf => ripemd160 (sha256 buf)).
Definition opcodeHash256 : opfunc := hash_top DoubleHashB.

(** ** Signatures *)

Definition set_codeSepPos (pos : Z) (ctx : taprootExecutionCtx) : taprootExecutionCtx :=
  mkTaprootExecutionCtx (annex ctx) pos (tapLeafHash ctx) (sigOpsBudget ctx) (mustSucceed ctx).

Definition opcodeCodeSeparator : opfunc := fun _ _ vm =>
  let vm := set_lastCodeSep (ScriptTokenizer_ByteIndex (tokenizer vm)) vm in
  match taprootCtx vm with
  | Some ctx =>
      let pos := uint32 (ScriptTokenizer_OpcodePosition (tokenizer vm)) in
      Ok (set_taprootCtx (Some (set_codeSepPos pos ctx)) vm)
  | None =>
      if negb (non_nil (witnessProgram vm)) && hasFlag vm ScriptVerifyConstScriptCode
      then Err ErrCodeSeparator
      else Ok vm
  end.

Definition tallysigOp (ctx : taprootExecutionCtx) : outcome taprootExecutionCtx :=
  let budget := int32 (sigOpsBudget ctx - sigOpsDelta) in
  if budget <? 0 then Err ErrTaprootMaxSigOps
  else Ok (mkTaprootExecutionCtx (annex ctx) (codeSepPos ctx) (tapLeafHash ctx) budget
         (mustSucceed ctx)).

(** The part of [opcodeCheckSig] after the verifier is built. *)
Definition checkSig_result (fullSigBytes : bytes) (result : verifyResult) (vm : Engine)
    : outcome Engine :=
  let valid := sigValid result in
  if hasFlag vm ScriptVerifyConstScriptCode && sigMatch result then Err ErrNonConstScriptCode
  else if negb valid && (0 <? len fullSigBytes)
          && (non_nil (taprootCtx vm) || hasFlag vm ScriptVerifyNullFail)
  then Err ErrNullFail
  else Ok (push (fromBool valid) vm).

(** A constructor error that is not a script error pushes false. *)
Definition checkSig_ecdsa (verify : Engine -> baseSigVerifier -> outcome verifyResult)
    (pkBytes fullSigBytes : bytes) (vm : Engine) : outcome Engine :=
  match newBaseSigVerifier pkBytes fullSigBytes vm with
  | Ok v =>
      let! result := verify vm v in
      checkSig_result fullSigBytes result vm
  | Err ErrOther => Ok (push (fromBool false) vm)
  | Err e => Err e
  | Panic => Panic
  end.

Definition checkSig_tapscript (ctx : taprootExecutionCtx) (pkBytes fullSigBytes : bytes)
    (vm : Engine) : outcome Engine :=
  let! ctx := (if 0 <? len fullSigBytes then tallysigOp ctx else Ok ctx) in
  let vm := set_taprootCtx (Some ctx) vm in
  if len pkBytes =? 0 then Err ErrTaprootPubkeyIsEmpty
  else if len fullSigBytes =? 0 then Ok (push [] vm)
  else
    let! v := newBaseTapscriptSigVerifier pkBytes fullSigBytes vm in
    let! result := baseTapscriptSigVerifier_Verify vm v in
    checkSig_result fullSigBytes result vm.

(** With a witness program of a version other than 0 and no taproot context the
    verifier stays nil, and its method call panics. *)
Definition opcodeCheckSig : opfunc := fun _ _ vm =>
  let! '(pkBytes, s) := stack_PopByteArray (dstack vm) in
  let! '(fullSigBytes, s) := stack_PopByteArray s in
  let vm := set_dstack s vm in
  if negb (non_nil (taprootCtx vm)) && (len fullSigBytes <? 1) then Ok (push (fromBool false) vm)
  else if negb (non_nil (witnessProgram vm)) then
    checkSig_ecdsa baseSigVerifier_Verify pkBytes fullSigBytes vm
  else if isWitnessVersionActive vm BaseSegwitWitnessVersion then
    checkSig_ecdsa baseSegwitSigVerifier_Verify pkBytes fullSigBytes vm
  else
    match taprootCtx vm with
    | Some ctx => checkSig_tapscript ctx pkBytes fullSigBytes vm
    | None => Panic
    end.

Definition opcodeCheckSigVerify : opfunc := fun op data vm =>
  let! vm := opcodeCheckSig op data vm in
  abstractVerify ErrCheckSigVerify vm.

Definition opcodeCheckSigAdd : opfunc := fun _ _ vm =>
  match taprootCtx vm with
  | None => Err ErrReservedOpcode
  | Some ctx =>
      let! '(pubKeyBytes, s) := stack_PopByteArray (dstack vm) in
      let! '(accumulatorInt, s) := stack_PopInt s in
      let! '(sigBytes, s) := stack_PopByteArray s in
      let vm := set_dstack s vm in
      let! ctx := (if negb (len sigBytes =? 0) then tallysigOp ctx else Ok ctx) in
      let vm := set_taprootCtx (Some ctx) vm in
      if len pubKeyBytes =? 0 then Err ErrTaprootPubkeyIsEmpty
      else if len sigBytes =? 0 then on_dstack (stack_PushInt accumulatorInt) vm
      else
        let! v := newBaseTapscriptSigVerifier pubKeyBytes sigBytes vm in
        let! result := baseTapscriptSigVerifier_Verify vm v in
        if negb (sigValid result) then Err ErrNullFail
        else on_dstack (stack_PushInt (int64 (accumulatorInt + 1))) vm
  end.

(** ** Multiple signatures *)

Record parsedSigInfo : Type := mkParsedSigInfo {
  signature : bytes;
  parsedSignature : option (ModNScalar * ModNScalar);
  parsed_ : bool;
}.

(** The loops popping [n] items. *)
Fixpoint popMany (n : nat) (s : stack) : outcome (list bytes * stack) :=
  match n with
  | O => Ok ([], s)
  | S m =>
      let! '(x, s) := stack_PopByteArray s in
      let! '(l, s) := popMany m s in
      Ok (x :: l, s)
  end.

Definition multisig_hash (vm : Engine) (script : bytes) (hashType : Z) : outcome bytes :=
  if isWitnessVersionActive vm BaseSegwitWitnessVersion then witnessSigHash vm script hashType
  else calcSignatureHash script hashType (tx (cfg vm)) (txIdx (cfg vm)).

(** The parsed form of a signature: read back, or parsed and recorded. *)
Definition multisig_parse (vm : Engine) (sigInfo : parsedSigInfo) (hashType : Z) (sig : bytes)
    : outcome parsedSigInfo :=
  if parsed_ sigInfo then Ok sigInfo
  else
    let! _ := checkHashTypeEncoding vm hashType in
    let! _ := checkSignatureEncoding vm sig in
    match parseSig vm sig with
    | Ok p => Ok (mkParsedSigInfo (signature sigInfo) (Some p) true)
    | Err _ => Ok (mkParsedSigInfo (signature sigInfo) None true)
    | Panic => Panic
    end.

(** One turn of the loop: whether the key verifies the signature ([continue] is
    no), and the signature's record. *)
Definition multisig_try (vm : Engine) (script : bytes) (sigInfo : parsedSigInfo) (pubKey : bytes)
    : outcome (bool * parsedSigInfo) :=
  let rawSig := signature sigInfo in
  if len rawSig =? 0 then Ok (false, sigInfo)
  else
    let! '(hashType, sig) := split_hash_type rawSig in
    let! sigInfo := multisig_parse vm sigInfo hashType sig in
    match parsedSignature sigInfo with
    | None => Ok (false, sigInfo)
    | Some parsedSig =>
        let! _ := checkPubKeyEncoding vm pubKey in
        match secp_ParsePubKey pubKey with
        | None => Ok (false, sigInfo)
        | Some parsedPubKey =>
            let! hash := multisig_hash vm script hashType in
            Ok (cached_or vm hash sig pubKey (ecdsa_Verify parsedSig hash parsedPubKey), sigInfo)
        end
    end.

(** The loop; [numPubKeys] counts down and [pubKeyIdx] up, from the decrement at
    its head. *)
Fixpoint multisig_loop (vm : Engine) (script : bytes) (pubKeys : list bytes) (numPubKeys : nat)
    (pubKeyIdx signatureIdx numSignatures : Z) (signatures : list parsedSigInfo) : outcome bool :=
  if negb (0 <? numSignatures) then Ok true
  else if Z.of_nat numPubKeys <? numSignatures then Ok false
  else match numPubKeys with
  | O => Ok false
  | S numPubKeys =>
      let! sigInfo := unwrap (index signatures signatureIdx) in
      let! pubKey := unwrap (index pubKeys pubKeyIdx) in
      let! '(valid, sigInfo) := multisig_try vm script sigInfo pubKey in
      let signatures := <[Z.to_nat signatureIdx := sigInfo]> signatures in
      if (valid : bool)
      then multisig_loop vm script pubKeys numPubKeys (pubKeyIdx + 1) (signatureIdx + 1)
             (numSignatures - 1) signatures
      else multisig_loop vm script pubKeys numPubKeys (pubKeyIdx + 1) signatureIdx
             numSignatures signatures
  end.

(** Legacy scripts: each signature is removed from the script it signs. *)
Definition multisig_script (vm : Engine) (signatures : list bytes) : outcome bytes :=
  let! script := subScript vm in
  if isWitnessVersionActive vm BaseSegwitWitnessVersion then Ok script
  else
    rfold (fun script sig =>
      let! '(script, m) := removeOpcodeByData script sig in
      if hasFlag vm ScriptVerifyConstScriptCode && (m : bool) then Err ErrNonConstScriptCode
      else Ok script) script signatures.

Definition opcodeCheckMultiSig : opfunc := fun _ _ vm =>
  if non_nil (taprootCtx vm) then Err ErrTapscriptCheckMultisig
  else
    let! '(numKeys, s) := stack_PopInt (dstack vm) in
    let numPubKeys := scriptNum_Int32 numKeys in
    if numPubKeys <? 0 then Err ErrInvalidPubKeyCount
    else if MaxPubKeysPerMultiSig <? numPubKeys then Err ErrInvalidPubKeyCount
    else
      let vm := set_numOps (numOps vm + numPubKeys) vm in
      if MaxOpsPerScript <? numOps vm then Err ErrTooManyOperations
      else
        let! '(pubKeys, s) := popMany (Z.to_nat numPubKeys) s in
        let! '(numSigs, s) := stack_PopInt s in
        let numSignatures := scriptNum_Int32 numSigs in
        if numSignatures <? 0 then Err ErrInvalidSignatureCount
        else if numPubKeys <? numSignatures then Err ErrInvalidSignatureCount
        else
          let! '(signatures, s) := popMany (Z.to_nat numSignatures) s in
          let! '(dummy, s) := stack_PopByteArray s in
          if hasFlag vm ScriptStrictMultiSig && negb (len dummy =? 0) then Err ErrSigNullDummy
          else
            let! script := multisig_script vm signatures in
            let! success := multisig_loop vm script pubKeys (Z.to_nat numPubKeys) 0 0 numSignatures
              (map (fun sig => mkParsedSigInfo sig None false) signatures) in
            if negb success && hasFlag vm ScriptVerifyNullFail
               && existsb (fun sig => 0 <? len sig) signatures
            then Err ErrNullFail
            else Ok (set_dstack (stack_PushBool success s) vm).

Definition opcodeCheckMultiSigVerify : opfunc := fun op data vm =>
  let! vm := opcodeCheckMultiSig op data vm in
  abstractVerify ErrCheckMultiSigVerify vm.

(** ** Dispatch *)

Definition opcodeArray : list opfunc :=
  [opcodeFalse]
  ++ replicate 78 opcodePushData
  ++ [opcode1Negate; opcodeReserved]
  ++ replicate 16 opcodeN
  ++ [opcodeNop; opcodeReserved; opcodeIf; opcodeNotIf; opcodeReserved; opcodeReserved;
      opcodeElse; opcodeEndif; opcodeVerify; opcodeReturn; opcodeToAltStack; opcodeFromAltStack;
      opcode2Drop; opcode2Dup; opcode3Dup; opcode2Over; opcode2Rot; opcode2Swap; opcodeIfDup;
      opcodeDepth; opcodeDrop; opcodeDup; opcodeNip; opcodeOver; opcodePick; opcodeRoll;
      opcodeRot; opcodeSwap; opcodeTuck]
  ++ replicate 4 opcodeDisabled
  ++ [opcodeSize]
  ++ replicate 4 opcodeDisabled
  ++ [opcodeEqual; opcodeEqualVerify; opcodeReserved; opcodeReserved; opcode1Add; opcode1Sub;
      opcodeDisabled; opcodeDisabled; opcodeNegate; opcodeAbs; opcodeNot; opcode0NotEqual;
      opcodeAdd; opcodeSub]
  ++ replicate 5 opcodeDisabled
  ++ [opcodeBoolAnd; opcodeBoolOr; opcodeNumEqual; opcodeNumEqualVerify; opcodeNumNotEqual;
      opcodeLessThan; opcodeGreaterThan; opcodeLessThanOrEqual; opcodeGreaterThanOrEqual;
      opcodeMin; opcodeMax; opcodeWithin; opcodeRipemd160; opcodeSha1; opcodeSha256;
      opcodeHash160; opcodeHash256; opcodeCodeSeparator; opcodeCheckSig; opcodeCheckSigVerify;
      opcodeCheckMultiSig; opcodeCheckMultiSigVerify; opcodeNop; opcodeCheckLockTimeVerify;
      opcodeCheckSequenceVerify]
  ++ replicate 7 opcodeNop
  ++ [opcodeCheckSigAdd]
  ++ replicate 69 opcodeInvalid.

End Opcodes.
