(* ===== verification/Engine.v ===== *)
(** * The script engine ([txscript/engine.go])

    Creation of an engine for one input, the execution of one instruction, the
    hand-over between signature script, output script, redeem script and witness
    script, and the loop to the final verdict.  The step callback is nil. *)

From Stdlib Require Import ZArith Lia.
From stdpp Require Import base list numbers option strings.
From S2P Require Import Prelude ScriptNum Tokenizer ScriptBuilder ScriptStack ScriptStd Sha Wire SigHash Curve EngineState SigValidate Opcodes.

Section Engine.
Context `{D : DecimalOps} `{C : CurveOps}.

(** ** One instruction *)

Definition executeOpcode (op : Z) (data : option bytes) (vm : Engine) : outcome Engine :=
  if isOpcodeDisabled op then Err ErrDisabledOpcode
  else if isOpcodeAlwaysIllegal op then Err ErrReservedOpcode
  else
    let! vm :=
      (if negb (non_nil (taprootCtx vm)) && (OP_16 <? op) then
         let vm := set_numOps (numOps vm + 1) vm in
         if MaxOpsPerScript <? numOps vm then Err ErrTooManyOperations else Ok vm
       else if MaxScriptElementSize <? len (slice data) then Err ErrElementTooBig
       else Ok vm) in
    if negb (isBranchExecuting vm) && negb (isOpcodeConditional op) then Ok vm
    else
      let! _ :=
        (if verifyMinimalData (dstack vm) && isBranchExecuting vm && (0 <=? op) && (op <=? OP_PUSHDATA4)
         then checkMinimalDataPush op (slice data)
         else Ok tt) in
      let! f := unwrap (index opcodeArray op) in
      f op data vm.

Definition checkValidPC (vm : Engine) : outcome unit :=
  if len (scripts vm) <=? scriptIdx vm then Err ErrInvalidProgramCounter else Ok tt.

(** ** Witness programs *)

Definition SetStack (data : list bytes) (vm : Engine) : outcome Engine :=
  let! s := setStack (dstack vm) data in
  Ok (set_dstack s vm).

Definition GetStack (vm : Engine) : outcome (list bytes) := getStack (dstack vm).

(** The next script to run and the stack it starts with. *)
Definition enter_script (script : bytes) (stack : list bytes) (vm : Engine) : outcome Engine :=
  SetStack stack (set_scripts (scripts vm ++ [script]) vm).

Definition verifyWitnessV0 (program : bytes) (witness : list bytes) (vm : Engine) : outcome Engine :=
  if len program =? payToWitnessPubKeyHashDataSize then
    if negb (len witness =? 2) then Err ErrWitnessProgramMismatch
    else
      let! pkScript := payToPubKeyHashScript program in
      let! _ := checkScriptParses (version (cfg vm)) pkScript in
      enter_script pkScript witness vm
  else if len program =? payToWitnessScriptHashDataSize then
    if len witness =? 0 then Err ErrWitnessProgramEmpty
    else
      let! witnessScript := unwrap (last_of witness) in
      if MaxScriptSize <? len witnessScript then Err ErrScriptTooBig
      else if negb (bytes_eqb (sha256 witnessScript) program) then Err ErrWitnessProgramMismatch
      else
        let! _ := checkScriptParses (version (cfg vm)) witnessScript in
        enter_script witnessScript (take (length witness - 1) witness) vm
  else Err ErrWitnessProgramWrongLength.

Definition set_mustSucceed (ctx : taprootExecutionCtx) : taprootExecutionCtx :=
  mkTaprootExecutionCtx (annex ctx) (codeSepPos ctx) (tapLeafHash ctx) (sigOpsBudget ctx) true.

Definition set_tapLeafHash (h : bytes) (ctx : taprootExecutionCtx) : taprootExecutionCtx :=
  mkTaprootExecutionCtx (annex ctx) (codeSepPos ctx) h (sigOpsBudget ctx) (mustSucceed ctx).

Definition newTaprootExecutionCtx (inputWitnessSize : Z) : taprootExecutionCtx :=
  mkTaprootExecutionCtx None blankCodeSepValue zeroHash (int32 (sigOpsDelta + inputWitnessSize)) false.

(** The script-path spend: [true] when the verdict is already known. *)
Definition verifyTapscript (program : bytes) (witness : list bytes) (ctx : taprootExecutionCtx)
    (vm : Engine) : outcome (bool * Engine) :=
  let! controlBytes := unwrap (index witness (len witness - 1)) in
  let! controlBlock := ParseControlBlock controlBytes in
  let! witnessScript := unwrap (index witness (len witness - 2)) in
  let! _ := VerifyTaprootLeafCommitment controlBlock program witnessScript in
  let succeed := set_taprootCtx (Some (set_mustSucceed ctx)) vm in
  let! opSuccess := ScriptHasOpSuccess witnessScript in
  if (opSuccess : bool) then
    if hasFlag vm ScriptVerifyDiscourageOpSuccess then Err ErrDiscourageOpSuccess
    else Ok (true, succeed)
  else if negb (LeafVersion controlBlock =? BaseLeafVersion) then
    if hasFlag vm ScriptVerifyDiscourageUpgradeableTaprootVersion
    then Err ErrDiscourageUpgradeableTaprootVersion
    else Ok (true, succeed)
  else
    let! _ := checkScriptParses (version (cfg vm)) witnessScript in
    let ctx := set_tapLeafHash (tapLeaf_TapHash BaseLeafVersion witnessScript) ctx in
    let! vm := enter_script witnessScript (take (length witness - 2) witness)
                 (set_taprootCtx (Some ctx) vm) in
    Ok (false, vm).

Definition verifyTaproot (program : bytes) (witness : list bytes) (vm : Engine)
    : outcome (bool * Engine) :=
  if negb (hasFlag vm ScriptVerifyTaproot) then Ok (true, vm)
  else if len witness =? 0 then Err ErrWitnessProgramEmpty
  else
    let ctx := newTaprootExecutionCtx (int32 (TxWitness_SerializeSize witness)) in
    let '(ctx, witness) :=
      if isAnnexedWitness witness
      then (mkTaprootExecutionCtx (last_of witness) (codeSepPos ctx) (tapLeafHash ctx)
              (sigOpsBudget ctx) (mustSucceed ctx), take (length witness - 1) witness)
      else (ctx, witness) in
    let vm := set_taprootCtx (Some ctx) vm in
    if len witness =? 1 then
      let! rawSig := unwrap (index witness 0) in
      let! _ := VerifyTaprootKeySpend vm program rawSig in
      Ok (true, set_taprootCtx (Some (set_mustSucceed ctx)) vm)
    else verifyTapscript program witness ctx vm.

(** The limits on the stack a witness script starts with. *)
Definition checkWitnessStack (vm : Engine) : outcome Engine :=
  let elements :=
    let! l := GetStack vm in
    if existsb (fun e => MaxScriptElementSize <? len e) l then Err ErrElementTooBig else Ok vm in
  if isWitnessVersionActive vm TaprootWitnessVersion then
    if MaxStackSize <? stack_Depth (dstack vm) then Err ErrStackOverflow else elements
  else if isWitnessVersionActive vm BaseSegwitWitnessVersion then elements
  else Ok vm.

Definition verifyWitnessProgram (witness : list bytes) (vm : Engine) : outcome Engine :=
  let program := slice (witnessProgram vm) in
  if isWitnessVersionActive vm BaseSegwitWitnessVersion then
    let! vm := verifyWitnessV0 program witness vm in
    checkWitnessStack vm
  else if isWitnessVersionActive vm TaprootWitnessVersion && (len program =? payToTaprootDataSize)
          && negb (bip16 (cfg vm)) then
    let! '(done, vm) := verifyTaproot program witness vm in
    if (done : bool) then Ok vm else checkWitnessStack vm
  else if hasFlag vm ScriptVerifyDiscourageUpgradeableWitnessProgram
  then Err ErrDiscourageUpgradableWitnessProgram
  else checkWitnessStack (set_witnessProgram None vm).

(** ** The verdict on the stack *)

Definition CheckErrorCondition (finalScript : bool) (vm : Engine) : outcome Engine :=
  if match taprootCtx vm with Some ctx => mustSucceed ctx | None => false end then Ok vm
  else if scriptIdx vm <? len (scripts vm) then Err ErrScriptUnfinished
  else if finalScript && isWitnessVersionActive vm BaseSegwitWitnessVersion
          && negb (stack_Depth (dstack vm) =? 1) then Err ErrEvalFalse
  else
    let cleanStackActive := hasFlag vm ScriptVerifyCleanStack || non_nil (taprootCtx vm) in
    if finalScript && cleanStackActive && negb (stack_Depth (dstack vm) =? 1) then Err ErrCleanStack
    else if stack_Depth (dstack vm) <? 1 then Err ErrEmptyStack
    else
      let! '(v, s) := stack_PopBool (dstack vm) in
      if (v : bool) then Ok (set_dstack s vm) else Err ErrEvalFalse.

(** ** A step *)

(** [_ = stack.DropN(stack.Depth())]. *)
Definition drop_all (s : stack) : outcome stack :=
  match stack_DropN (stack_Depth s) s with
  | Ok s' => Ok s'
  | Err _ => Ok s
  | Panic => Panic
  end.

(** What is reset between two scripts. *)
Definition end_script (vm : Engine) : outcome Engine :=
  if negb (len (condStack vm) =? 0) then Err ErrUnbalancedConditional
  else
    let! a := drop_all (astack vm) in
    Ok (set_opcodeIdx 0 (set_numOps 0 (set_astack a vm))).

(** The end of the output script of a pay-to-script-hash spend: the redeem
    script is the top of the signature script's stack. *)
Definition enter_redeem (vm : Engine) : outcome Engine :=
  let! vm := CheckErrorCondition false vm in
  let! script := unwrap (last_of (savedFirstStack vm)) in
  let! _ := checkScriptParses (version (cfg vm)) script in
  enter_script script (take (length (savedFirstStack vm) - 1) (savedFirstStack vm)) vm.

Definition advance_script (vm : Engine) : outcome Engine :=
  let idx := scriptIdx vm in
  let next := set_scriptIdx (idx + 1) vm in
  if (idx =? 0) && bip16 (cfg vm) then
    let! saved := GetStack next in
    Ok (set_savedFirstStack saved next)
  else if (idx =? 1) && bip16 (cfg vm) then enter_redeem next
  else if ((idx =? 1) && non_nil (witnessProgram vm))
          || ((idx =? 2) && non_nil (witnessProgram vm) && bip16 (cfg vm)) then
    let! txIn := currentTxIn next in
    verifyWitnessProgram (Witness txIn) next
  else Ok next.

Definition skip_empty (vm : Engine) : Engine :=
  match index (scripts vm) (scriptIdx vm) with
  | Some [] => set_scriptIdx (scriptIdx vm + 1) vm
  | _ => vm
  end.

(** [true] when there is no script left. *)
Definition next_script (vm : Engine) : outcome (bool * Engine) :=
  let! vm := end_script vm in
  let! vm := advance_script vm in
  let vm := set_lastCodeSep 0 (skip_empty vm) in
  if len (scripts vm) <=? scriptIdx vm then Ok (true, vm)
  else
    let! script := unwrap (index (scripts vm) (scriptIdx vm)) in
    Ok (false, set_tokenizer (MakeScriptTokenizer (version (cfg vm)) script) vm).

Definition Step (vm : Engine) : outcome (bool * Engine) :=
  let! _ := checkValidPC vm in
  let! '(more, t) := ScriptTokenizer_Next (tokenizer vm) in
  if negb more then
    match ScriptTokenizer_Err t with
    | Some e => Err e
    | None => Err ErrInvalidProgramCounter
    end
  else
    let vm := set_tokenizer t vm in
    let! op := ScriptTokenizer_Opcode t in
    let! vm := executeOpcode op (ScriptTokenizer_Data t) vm in
    if MaxStackSize <? int32 (stack_Depth (dstack vm) + stack_Depth (astack vm))
    then Err ErrStackOverflow
    else
      let vm := set_opcodeIdx (opcodeIdx vm + 1) vm in
      if ScriptTokenizer_Done (tokenizer vm) then next_script vm else Ok (false, vm).

(** ** Execution *)

(** The loop of [Execute]; [None] when [fuel] steps do not reach the end. *)
Fixpoint execute_loop (fuel : nat) (vm : Engine) : option (outcome Engine) :=
  match fuel with
  | O => None
  | S f =>
      match Step vm with
      | Ok (true, vm) => Some (Ok vm)
      | Ok (false, vm) => execute_loop f vm
      | Err e => Some (Err e)
      | Panic => Some Panic
      end
  end.

Definition Execute (fuel : nat) (vm : Engine) : option (outcome unit) :=
  if negb (version (cfg vm) =? 0) then Some (Ok tt)
  else
    match execute_loop fuel vm with
    | Some r => Some (let! vm := r in let! _ := CheckErrorCondition true vm in Ok tt)
    | None => None
    end.

(** ** Creation *)

(** The witness program an input has to satisfy, with its version; [None] when
    the input is not a witness input. *)
Definition findWitnessProgram (scriptSig scriptPubKey : bytes) (witness : list bytes) (bip16 : bool)
    : outcome (option (Z * option bytes)) :=
  let! native := isWitnessProgramScript scriptPubKey in
  let! witProgram :=
    (if (native : bool) then
       if negb (len scriptSig =? 0) then Err ErrWitnessMalleated else Ok (Some scriptPubKey)
     else if negb (len witness =? 0) && bip16 then
       match scriptSig with
       | opcode :: data =>
           if (2 <? len scriptSig) && isCanonicalPush opcode data then
             let! nested := isWitnessProgramScript data in
             if (nested : bool) then Ok (Some data) else Err ErrWitnessMalleatedP2SH
           else Err ErrWitnessMalleatedP2SH
       | [] => Err ErrWitnessMalleatedP2SH
       end
     else Ok None) in
  match witProgram with
  | Some p =>
      let! info := ExtractWitnessProgramInfo p in
      Ok (Some info)
  | None => if negb (len witness =? 0) then Err ErrWitnessUnexpected else Ok None
  end.

Definition checkScript (scr : bytes) : outcome unit :=
  if MaxScriptSize <? len scr then Err ErrScriptTooBig else checkScriptParses 0 scr.

Definition NewEngine (scriptPubKey : bytes) (tx : MsgTx) (txIdx flags : Z)
    (sigCache : option (bytes -> bytes -> bytes -> bool)) (hashCache : option TxSigHashes)
    (inputAmount : Z) (assets : list AssetInfo) (prevOutFetcher : PrevOutputFetcher) : outcome Engine :=
  if (txIdx <? 0) || (len (TxIns tx) <=? txIdx) then Err ErrInvalidIndex
  else
    let! txIn := unwrap (index (TxIns tx) txIdx) in
    let scriptSig := SignatureScript txIn in
    let has flag := Z.land flags flag =? flag in
    if (len scriptSig =? 0) && (len scriptPubKey =? 0) then Err ErrEvalFalse
    else if has ScriptVerifyCleanStack && (negb (has ScriptBip16) && negb (has ScriptVerifyWitness))
    then Err ErrInvalidFlags
    else
      let! pushOnly := IsPushOnlyScript scriptSig in
      if has ScriptVerifySigPushOnly && negb pushOnly then Err ErrNotPushOnly
      else
        let bip16 := has ScriptBip16 && isScriptHashScript scriptPubKey in
        if bip16 && negb (has ScriptVerifySigPushOnly) && negb pushOnly then Err ErrNotPushOnly
        else
          let! _ := checkScript scriptSig in
          let! _ := checkScript scriptPubKey in
          let scriptIdx := if len scriptSig =? 0 then 1 else 0 in
          let minimal := has ScriptVerifyMinimalData in
          let! program :=
            (if has ScriptVerifyWitness then
               if negb (has ScriptBip16) then Err ErrInvalidFlags
               else findWitnessProgram scriptSig scriptPubKey (Witness txIn) bip16
             else Ok None) in
          let! script := unwrap (index [scriptSig; scriptPubKey] scriptIdx) in
          Ok {| cfg := mkEngineConfig flags tx txIdx 0 bip16 sigCache hashCache prevOutFetcher
                         inputAmount assets;
                scripts := [scriptSig; scriptPubKey];
                scriptIdx := scriptIdx;
                opcodeIdx := 0;
                lastCodeSep := 0;
                tokenizer := MakeScriptTokenizer 0 script;
                savedFirstStack := [];
                dstack := mkStack [] minimal;
                astack := mkStack [] minimal;
                condStack := [];
                numOps := 0;
                witnessVersion := match program with Some (v, _) => v | None => 0 end;
                witnessProgram := match program with Some (_, p) => p | None => None end;
                taprootCtx := None |}.

(** Steps that always suffice: one per byte of the scripts, of a redeem script
    (one stack element), of the script of a version 0 key hash and of the
    witness. *)
Definition execute_fuel (vm : Engine) : nat :=
  (length (concat (scripts vm)) + 1000
   + match currentTxIn vm with Ok i => length (concat (Witness i)) | _ => 0 end)%nat.

End Engine.
