(* ===== verification/EngineSafe.v ===== *)
(** * Safety of the script engine

    No opcode handler panics on a state whose stacks hold legal elements, and
    each keeps the state legal: the frame [stepped].  The digests and the
    signature checks are shown not to panic first. *)

From Stdlib Require Import ZArith Lia.
From stdpp Require Import base list numbers option strings.
From S2P Require Import Prelude ScriptNum Tokenizer ScriptBuilder ScriptStack ScriptStd Sha Wire SigHash Curve EngineState SigValidate Opcodes Engine.

(** ** Digests *)

Lemma index_some {A} (l : list A) i : 0 <= i < len l -> is_Some (index l i).
Proof.
  intros Hi. unfold index, len in *. z_test. apply lookup_lt_is_Some_2. lia.
Qed.

Lemma subslice_ok {E A} (l : list A) lo hi :
  0 <= lo <= hi -> hi <= len l -> exists r, subslice (E := E) l lo hi = Ok r.
Proof. intros Hlo Hhi. unfold subslice. z_test. eauto. Qed.

Section Digests.
Context `{D : DecimalOps}.

Lemma len_imap {A B} (f : nat -> A -> B) l : len (imap f l) = len l.
Proof. unfold len. by rewrite length_imap. Qed.

Lemma sigHashCopy_no_panic {E} s h tx idx :
  0 <= idx < len (TxIns tx) -> (Z.land h sigHashMask = SigHashSingle -> idx < len (TxOuts tx)) ->
  no_panic (sigHashCopy (E := E) s h tx idx).
Proof.
  intros Hi Ho. unfold sigHashCopy.
  assert (Hacp : forall l outs, len l = len (TxIns tx) ->
    no_panic (let! ins := (if negb (Z.land h SigHashAnyOneCanPay =? 0) then subslice l idx (idx + 1) else Ok l) in
              Ok (E := E) (mkMsgTx (Version tx) ins outs (LockTime tx)))).
  { intros l outs Hl. destruct (negb _); [|done].
    destruct (subslice_ok (E := E) l idx (idx + 1)) as [r ->]; [lia|lia|done]. }
  destruct (Z.eqb_spec (Z.land h sigHashMask) SigHashNone);
    [|destruct (Z.eqb_spec (Z.land h sigHashMask) SigHashSingle) as [Hs|]].
  - apply Hacp. by rewrite !len_imap.
  - destruct (subslice_ok (E := E) (TxOuts tx) 0 (idx + 1)) as [r ->]; [lia|specialize (Ho Hs); lia|].
    apply Hacp. by rewrite !len_imap.
  - apply Hacp. by rewrite !len_imap.
Qed.

Lemma calcSignatureHash_no_panic {E} s h tx idx :
  bytes_ok s -> len s < 2 ^ 31 -> 0 <= idx < len (TxIns tx) ->
  no_panic (calcSignatureHash (E := E) s h tx idx).
Proof.
  intros Hs Hl Hi. unfold calcSignatureHash. case_if; [done|].
  apply rbind_no_panic; [by eapply wp_no_panic, removeOpcodeRaw_wp|]. intros s' _.
  apply rbind_no_panic; [|done]. apply sigHashCopy_no_panic; [done|].
  intros Hsi. destruct Heqb as [H|H]; bool_to_prop; lia.
Qed.

(** Every input's previous output is known. *)
Definition fetches_all (tx : MsgTx) (fetcher : PrevOutputFetcher) : Prop :=
  Forall (fun ti => is_Some (fetcher (PreviousOutPoint ti))) (TxIns tx).

Lemma fetch_each_no_panic {E A} (f : TxOut -> A) tx fetcher :
  fetches_all tx fetcher -> no_panic (fetch_each (E := E) f tx fetcher).
Proof.
  unfold fetches_all, fetch_each. intros Hf.
  enough (H : forall acc : list A, no_panic (rfold (E := E) (fun l txIn =>
    let! prevOut := unwrap (fetcher (PreviousOutPoint txIn)) in Ok (l ++ [f prevOut])) acc (TxIns tx)))
    by apply H.
  induction Hf as [|ti l [o Ho] Hl IH]; intros acc; simpl; [done|]. rewrite Ho. simpl. apply IH.
Qed.

Lemma needed_midstates_no_panic {E} tx fetcher :
  fetches_all tx fetcher -> no_panic (needed_midstates (E := E) (TxIns tx) fetcher false false).
Proof.
  unfold fetches_all. generalize false at 1 as b0. generalize false as b1.
  induction (TxIns tx) as [|ti l IH]; intros b1 b0 Hf; simpl; [done|].
  apply Forall_cons_iff in Hf as [[o Ho] Hl]. case_if; [by apply IH|]. rewrite Ho. simpl.
  destruct (isWitnessTaprootScript _); case_if; try done; by apply IH.
Qed.

Lemma NewTxSigHashes_no_panic {E} tx fetcher :
  fetches_all tx fetcher -> no_panic (NewTxSigHashes (E := E) tx fetcher).
Proof.
  intros Hf. unfold NewTxSigHashes. apply rbind_no_panic; [by apply needed_midstates_no_panic|].
  intros [v0 v1] _. unfold calcHashInputAmounts, calcHashInputScripts.
  apply rbind_no_panic; [|intros ? _; apply rbind_no_panic; [|done]].
  all: case_if; [|done]; apply rbind_no_panic; [by apply fetch_each_no_panic|done].
Qed.

Lemma taproot_sighash_no_panic sh h tx idx fetcher o :
  0 <= idx < len (TxIns tx) -> fetches_all tx fetcher ->
  no_panic (calcTaprootSignatureHashRaw sh h tx idx fetcher o).
Proof.
  intros Hi Hf. unfold calcTaprootSignatureHashRaw. do 2 (case_if; [done|]).
  apply rbind_no_panic; [|done]. unfold taprootMessage, written.
  destruct (index_some _ _ Hi) as [ti Hti]. rewrite Hti. cbn [unwrap rbind].
  assert (Hfetch : is_Some (fetcher (PreviousOutPoint ti))).
  { unfold index in Hti. destruct (idx <? 0); [done|]. by eapply Forall_lookup_1 in Hf. }
  apply rbind_no_panic.
  - case_if; [|done]. destruct Hfetch as [po ->]. cbn [unwrap rbind]. by case_if.
  - intros ? _. apply rbind_no_panic; [|done]. case_if; [|done]. case_if; [done|].
    destruct (index_some (TxOuts tx) idx) as [to ->]; [lia|]. cbn [unwrap rbind]. by case_if.
Qed.

End Digests.

(** ** Parsing *)

Lemma wp_check {B} bad e (k : unit -> outcome B) (Q : B -> Prop) :
  (bad = false -> wp (k tt) Q) -> wp (rbind (check bad e) k) Q.
Proof. unfold check. destruct bad; simpl; auto. Qed.

Lemma index_byte b i x : bytes_ok b -> index b i = Some x -> is_byte x.
Proof. unfold index. destruct (i <? 0); [done|]. apply Forall_lookup_1. Qed.

Lemma wp_byte_at {B} b i (k : Z -> outcome B) (Q : B -> Prop) :
  bytes_ok b -> 0 <= i < len b -> (forall x, is_byte x -> wp (k x) Q) -> wp (rbind (byte_at b i) k) Q.
Proof.
  intros Hb Hi Hk. unfold byte_at. destruct (index_some _ _ Hi) as [x Hx]. rewrite Hx. simpl.
  apply Hk. by eapply index_byte.
Qed.

Lemma wp_subslice {B} (b : bytes) lo hi (k : bytes -> outcome B) (Q : B -> Prop) :
  bytes_ok b -> 0 <= lo <= hi -> hi <= len b ->
  (forall r, bytes_ok r -> len r = hi - lo -> wp (k r) Q) -> wp (rbind (subslice b lo hi) k) Q.
Proof. intros Hb Hlo Hhi Hk. eapply wp_bind; [by apply subslice_wp|]. intros r [? ?]. by apply Hk. Qed.

(** Walk through the checks of a parser. *)
Ltac parse_step :=
  match goal with
  | |- wp (rbind (check _ _) _) _ => apply wp_check; intros ?; bool_to_prop
  | |- wp (rbind (byte_at _ _) _) _ =>
      apply wp_byte_at; [assumption|lia|intros ? ?; unfold is_byte in *; cbv beta zeta]
  | |- wp (rbind (subslice _ _ _) _) _ =>
      apply wp_subslice; [assumption|lia|lia|intros ? ? ?; cbv beta zeta]
  | |- wp (rbind (if _ then _ else Ok tt) _) _ => apply (wp_bind _ _ (fun _ => True)); [case_if; [|exact I]|intros _ _]
  | |- wp (check _ _) _ => unfold check; case_if; exact I
  | |- wp (Ok _) _ => apply wp_ok
  end.

Lemma checkSignatureDER_no_panic sig lowS : bytes_ok sig -> no_panic (checkSignatureDER sig lowS).
Proof.
  intros Hs. eapply (wp_no_panic _ (fun _ => True)). unfold checkSignatureDER. cbv zeta.
  repeat parse_step.
  destruct lowS; [|done]. repeat parse_step.
Qed.

Lemma checkSignatureEncoding_no_panic `{D : DecimalOps} vm sig :
  bytes_ok sig -> no_panic (checkSignatureEncoding vm sig).
Proof. intros Hs. unfold checkSignatureEncoding. case_if; [done|]. by apply checkSignatureDER_no_panic. Qed.

Lemma canonicalPadding_no_panic b : bytes_ok b -> 1 <= len b -> no_panic (canonicalPadding b).
Proof.
  intros Hb Hl. eapply (wp_no_panic _ (fun _ => True)). unfold canonicalPadding. parse_step.
  case_if; [done|]. case_if; [|done]. parse_step. done.
Qed.

Section Parsers.
Context `{C : CurveOps}.

Lemma parseInt_no_panic der b : bytes_ok b -> 1 <= len b -> no_panic (parseInt der b).
Proof.
  intros Hb Hl. unfold parseInt. apply rbind_no_panic.
  - destruct der; [|done]. apply rbind_no_panic; [by apply canonicalPadding_no_panic|].
    intros ok _. unfold check, no_panic. by case_if.
  - intros _ _. destruct (scalar_SetByteSlice _) as [v ov]. unfold check, no_panic.
    by repeat (case_if; simpl).
Qed.

Lemma ecdsa_parseSig_no_panic sig der : bytes_ok sig -> no_panic (ecdsa_parseSig sig der).
Proof.
  intros Hs. eapply (wp_no_panic _ (fun _ => True)). unfold ecdsa_parseSig, MinSigLen, MaxSigLen. cbv zeta.
  do 5 parse_step. pose proof (uint8_range (x0 + 2)) as Hu. unfold is_byte in Hu.
  repeat parse_step.
  apply (wp_bind _ _ (fun _ => True)); [|intros ? _].
  { apply wp_intro; [apply parseInt_no_panic; [done|lia]|done]. }
  repeat parse_step.
  apply (wp_bind _ _ (fun _ => True)); [|intros ? _].
  { apply wp_intro; [apply parseInt_no_panic; [done|lia]|done]. }
  by repeat parse_step.
Qed.

Lemma schnorr_ParseSignature_no_panic sig : no_panic (schnorr_ParseSignature sig).
Proof.
  unfold schnorr_ParseSignature, check. do 2 (case_if; [done|]; cbn [rbind]).
  destruct (field_SetByteSlice _) as [r o]. destruct o; done.
Qed.

End Parsers.

(** ** Handlers *)

Section Handlers.
Context `{D : DecimalOps} `{C : CurveOps}.

(** What the signature opcodes rely on: the input exists, its previous outputs
    are known, the midstates are given, and the current script contains the last
    code separator. *)
Record sig_env (vm : Engine) : Prop := mkSigEnv {
  se_idx : 0 <= txIdx (cfg vm) < len (TxIns (tx (cfg vm)));
  se_fetch : fetches_all (tx (cfg vm)) (prevOutFetcher (cfg vm));
  se_cache : is_Some (hashCache (cfg vm));
  se_script : exists s, index (scripts vm) (scriptIdx vm) = Some s
    /\ bytes_ok s /\ len s < 2 ^ 31 /\ 0 <= lastCodeSep vm <= len s;
}.

(** A version other than 0 is only active with a taproot context, and a taproot
    context only in version 1. *)
Definition has_verifier (vm : Engine) : Prop :=
  (taprootCtx vm = None /\ (witnessProgram vm = None \/ witnessVersion vm = BaseSegwitWitnessVersion))
  \/ (is_Some (taprootCtx vm) /\ is_Some (witnessProgram vm) /\ witnessVersion vm = TaprootWitnessVersion).

(** Legal stacks with at most [n] elements together. *)
Record stacks_ok (n : Z) (vm : Engine) : Prop := mkStacksOk {
  so_d : Forall elem_ok (stk (dstack vm));
  so_a : Forall elem_ok (stk (astack vm));
  so_len : len (stk (dstack vm)) + len (stk (astack vm)) <= n;
}.

(** What one instruction may change. *)
Record stepped (n : Z) (vm vm' : Engine) : Prop := mkStepped {
  st_cfg : cfg vm' = cfg vm;
  st_scripts : scripts vm' = scripts vm;
  st_scriptIdx : scriptIdx vm' = scriptIdx vm;
  st_opcodeIdx : opcodeIdx vm' = opcodeIdx vm;
  st_tokenizer : tokenizer vm' = tokenizer vm;
  st_saved : savedFirstStack vm' = savedFirstStack vm;
  st_version : witnessVersion vm' = witnessVersion vm;
  st_program : witnessProgram vm' = witnessProgram vm;
  st_stacks : stacks_ok n vm';
  st_ops : numOps vm' <= Z.max (numOps vm) MaxOpsPerScript;
  st_sep : lastCodeSep vm' = lastCodeSep vm \/ lastCodeSep vm' = tok_offset (tokenizer vm);
  st_ctx : option_map mustSucceed (taprootCtx vm') = option_map mustSucceed (taprootCtx vm);
}.

Definition handler_ok (f : opfunc) : Prop :=
  forall op data vm n, n < 2 ^ 31 - 32 -> stacks_ok n vm -> sig_env vm ->
    elem_ok (slice data) -> wp (f op data vm) (stepped (n + 3) vm).

(** [OP_CHECKSIG] and [OP_CHECKSIGVERIFY] need a verifier too. *)
Definition sig_handler_ok (f : opfunc) : Prop :=
  forall op data vm n, n < 2 ^ 31 - 32 -> stacks_ok n vm -> sig_env vm -> has_verifier vm ->
    elem_ok (slice data) -> wp (f op data vm) (stepped (n + 3) vm).

Lemma stepped_refl n n' vm : stacks_ok n vm -> n <= n' -> stepped n' vm vm.
Proof. intros [? ? ?] ?. constructor; try done; [constructor; done || lia|lia|by left]. Qed.

(** A new data stack. *)
Lemma stepped_dstack m n k vm s :
  stacks_ok n vm -> sfit m (len (stk (dstack vm)) + k) s -> stepped (n + k) vm (set_dstack s vm).
Proof.
  intros [? ? ?] [? ? ?]. constructor; try done; [constructor; simpl; try done; lia|simpl; lia|by left].
Qed.

Lemma dstack_fit n vm : stacks_ok n vm -> sfit (verifyMinimalData (dstack vm)) (len (stk (dstack vm))) (dstack vm).
Proof. intros [? ? ?]. by constructor. Qed.

Lemma astack_fit n vm : stacks_ok n vm -> sfit (verifyMinimalData (astack vm)) (len (stk (astack vm))) (astack vm).
Proof. intros [? ? ?]. by constructor. Qed.

Lemma dstack_small n vm : stacks_ok n vm -> len (stk (dstack vm)) <= n.
Proof. intros [? ? Hl]. pose proof (len_nonneg (stk (astack vm))). lia. Qed.

Lemma on_dstack_wp f n vm :
  (forall m d s, d < 2 ^ 31 - 32 -> sfit m d s -> wp (f s) (sfit m (d + 3))) ->
  n < 2 ^ 31 - 32 -> stacks_ok n vm -> wp (on_dstack f vm) (stepped (n + 3) vm).
Proof.
  intros Hf Hn Hs. unfold on_dstack. pose proof (dstack_small _ _ Hs).
  eapply wp_bind; [apply Hf; [|by apply (dstack_fit n)]; lia|]. intros s Hfit. apply wp_ok.
  by eapply stepped_dstack.
Qed.

Lemma on_dstack_ok f :
  (forall m d s, d < 2 ^ 31 - 32 -> sfit m d s -> wp (f s) (sfit m (d + 3))) ->
  handler_ok (fun _ _ => on_dstack f).
Proof. intros Hf op data vm n Hn Hs _ _. by apply on_dstack_wp. Qed.

Lemma push_ok n vm b : stacks_ok n vm -> elem_ok b -> stepped (n + 3) vm (push b vm).
Proof.
  intros Hs Hb. eapply stepped_dstack; [done|]. eapply sfit_mono; [apply push_fit; [done|by eapply dstack_fit]|lia].
Qed.

(** Popping the verdict of a checking handler. *)
Lemma abstractVerify_wp n vm vm' c :
  n < 2 ^ 31 - 8 -> stepped n vm vm' -> wp (abstractVerify c vm') (stepped n vm).
Proof.
  intros Hn Hst. pose proof (st_stacks _ _ _ Hst) as Hs. pose proof (dstack_small _ _ Hs).
  unfold abstractVerify.
  eapply wp_bind; [eapply (PopBool_wp _ (len (stk (dstack vm')))); [lia|by eapply dstack_fit]|].
  intros [v s] Hfit. destruct v; [|done]. apply wp_ok. destruct Hst, Hs, Hfit.
  constructor; try done. constructor; simpl; try done. lia.
Qed.

Lemma verify_ok (f : opfunc) c :
  handler_ok f -> handler_ok (fun op data vm => let! vm := f op data vm in abstractVerify c vm).
Proof.
  intros Hf op data vm n Hn Hs He Hd. eapply wp_bind; [by apply Hf|].
  intros vm' Hst. apply abstractVerify_wp; [lia|done].
Qed.

Lemma verify_sig_ok (f : opfunc) c :
  sig_handler_ok f -> sig_handler_ok (fun op data vm => let! vm := f op data vm in abstractVerify c vm).
Proof.
  intros Hf op data vm n Hn Hs He Hv Hd. eapply wp_bind; [by apply Hf|].
  intros vm' Hst. apply abstractVerify_wp; [lia|done].
Qed.

(** Bodies over the data stack: follow the pops, close on the pushes. *)
Ltac stack_step :=
  match goal with
  | H : sfit ?m ?d ?s |- wp (rbind (stack_PopByteArray ?s) _) _ =>
      eapply wp_bind; [apply (pop_wp m d); [lia|exact H]|intros [? ?] [? ?]]
  | H : sfit ?m ?d ?s |- wp (rbind (stack_PopInt ?s) _) _ =>
      eapply wp_bind; [apply (PopInt_wp m d); [lia|exact H]|intros [? ?] [? ?]]
  | H : sfit ?m ?d ?s |- wp (rbind (stack_PeekByteArray _ ?s) _) _ =>
      eapply wp_bind; [apply (peek_wp m d); [lia|exact H]|intros ? ?]
  | H : sfit ?m ?d ?s |- wp (stack_PushInt _ ?s) _ =>
      eapply wp_mono; [apply (PushInt_wp m d); [unfold is_int64; lia|lia|exact H]
                      |intros ? ?; eapply sfit_mono; [eassumption|lia]]
  | H : sfit ?m ?d ?s |- wp (Ok (stack_PushByteArray _ ?s)) _ =>
      apply wp_ok; eapply sfit_mono; [apply (push_fit m d); [|exact H]|lia]
  | H : sfit ?m ?d ?s |- wp (move_entry _ ?s) _ =>
      eapply wp_mono; [apply (move_entry_wp m d); [lia|exact H]|intros ? ?; eapply sfit_mono; [eassumption|lia]]
  | H : sfit ?m ?d ?s |- wp (copy_entry _ ?s) _ =>
      eapply wp_mono; [apply (copy_entry_wp m d); [lia|exact H]|intros ? ?; eapply sfit_mono; [eassumption|lia]]
  end.

Ltac stack_body := apply on_dstack_ok; intros m d s Hd Hs; repeat stack_step.

Lemma depth_bound (s : stack) : is_int32 (stack_Depth s).
Proof. apply int32_range. Qed.

Lemma keep_ok f : (forall m d s, d < 2 ^ 31 - 32 -> sfit m d s -> wp (f s) (sfit m d)) -> handler_ok (fun _ _ => on_dstack f).
Proof.
  intros Hf. apply on_dstack_ok. intros m d s Hd Hs. eapply wp_mono; [by apply Hf|].
  intros s' Hs'. eapply sfit_mono; [done|lia].
Qed.

Lemma DropN_ok k : handler_ok (fun _ _ => on_dstack (stack_DropN k)).
Proof. apply keep_ok. intros. apply DropN_wp; [lia|done]. Qed.
Lemma RotN_ok k : handler_ok (fun _ _ => on_dstack (stack_RotN k)).
Proof. apply keep_ok. intros. apply RotN_wp; [lia|done]. Qed.
Lemma SwapN_ok k : handler_ok (fun _ _ => on_dstack (stack_SwapN k)).
Proof. apply keep_ok. intros. apply SwapN_wp; [lia|done]. Qed.
Lemma DupN_ok k : k <= 3 -> handler_ok (fun _ _ => on_dstack (stack_DupN k)).
Proof. intros Hk. apply on_dstack_ok. intros. by apply DupN_wp; [lia|..]. Qed.
Lemma OverN_ok k : k <= 3 -> handler_ok (fun _ _ => on_dstack (stack_OverN k)).
Proof. intros Hk. apply on_dstack_ok. intros. by apply OverN_wp; [lia|..]. Qed.

Lemma NipN_ok k : handler_ok (fun _ _ => on_dstack (stack_NipN k)).
Proof.
  apply keep_ok. intros m d s Hd Hs. unfold stack_NipN.
  eapply wp_bind; [apply (nipN_wp m d); [lia|done]|]. intros [x s'] [_ Hs']. eapply sfit_mono; [done|lia].
Qed.

Lemma opcodeIfDup_ok : handler_ok opcodeIfDup.
Proof.
  stack_body. case_if; [|by apply wp_ok; eapply sfit_mono; [done|lia]]. by stack_step.
Qed.

Lemma opcodeDepth_ok : handler_ok opcodeDepth.
Proof.
  stack_body. pose proof (depth_bound s). unfold is_int32 in *.
  eapply wp_mono; [apply (PushInt_wp m d); [unfold is_int64; lia|lia|exact Hs]|].
  intros ? ?; eapply sfit_mono; [eassumption|lia].
Qed.

Lemma opcodePick_ok : handler_ok opcodePick.
Proof. stack_body. unfold stack_PickN. stack_step. Qed.

Lemma opcodeRoll_ok : handler_ok opcodeRoll.
Proof. stack_body. unfold stack_RollN. stack_step. Qed.

Lemma opcodeTuck_ok : handler_ok opcodeTuck.
Proof.
  stack_body. unfold stack_Tuck. repeat stack_step. apply wp_ok.
  eapply sfit_mono; [apply push_fit; [done|]; apply push_fit; [done|]; apply push_fit; [done|eassumption]|lia].
Qed.

Lemma opcodeSize_ok : handler_ok opcodeSize.
Proof.
  stack_body. destruct H as [_ ?]. pose proof (len_nonneg a).
  eapply wp_mono; [apply (PushInt_wp m d); [unfold is_int64; lia|lia|exact Hs]|].
  intros ? ?; eapply sfit_mono; [eassumption|lia].
Qed.

Lemma opcodeEqual_ok : handler_ok opcodeEqual.
Proof. stack_body. unfold stack_PushBool. stack_step. apply elem_ok_bool. Qed.

Lemma unary_ok f :
  (forall m, - (2 ^ 31 - 1) <= m <= 2 ^ 31 - 1 -> - 2 ^ 32 <= f m <= 2 ^ 32) -> handler_ok (unary f).
Proof. intros Hf. stack_body. specialize (Hf z ltac:(done)). stack_step. Qed.

Lemma binary_ok f :
  (forall a b, - (2 ^ 31 - 1) <= a <= 2 ^ 31 - 1 -> - (2 ^ 31 - 1) <= b <= 2 ^ 31 - 1 ->
     - 2 ^ 32 <= f a b <= 2 ^ 32) -> handler_ok (binary f).
Proof. intros Hf. stack_body. specialize (Hf z z0 ltac:(done) ltac:(done)). stack_step. Qed.

Lemma hash_top_ok h : (forall b, bytes_ok b -> elem_ok (h b)) -> handler_ok (hash_top h).
Proof. intros Hh. stack_body. apply Hh. apply H. Qed.

Lemma opcodeWithin_ok : handler_ok opcodeWithin.
Proof. stack_body. unfold num. case_if; stack_step. Qed.

(** *** Handlers over the engine *)

Lemma stepped_condStack n vm vm' c : stepped n vm vm' -> stepped n vm (set_condStack c vm').
Proof. intros [? ? ? ? ? ? ? ? [? ? ?] ? ? ?]. by constructor. Qed.

Lemma popIfBool_wp n vm :
  n < 2 ^ 31 - 32 -> stacks_ok n vm ->
  wp (popIfBool vm) (fun '(_, s) => stepped (n + 3) vm (set_dstack s vm)).
Proof.
  intros Hn Hs. pose proof (dstack_small _ _ Hs). unfold popIfBool.
  assert (Hpost : forall (s : stack), sfit (verifyMinimalData (dstack vm)) (len (stk (dstack vm)) - 1) s ->
    stepped (n + 3) vm (set_dstack s vm)).
  { intros s Hfit. eapply stepped_dstack; [done|]. eapply sfit_mono; [done|lia]. }
  pose proof (dstack_fit _ _ Hs) as Hfit. case_if.
  - eapply wp_mono; [eapply (PopBool_wp _ (len (stk (dstack vm)))); [lia|done]|]. intros [b s]. apply Hpost.
  - eapply wp_bind; [eapply (pop_wp _ (len (stk (dstack vm)))); [lia|done]|]. intros [x s] [_ Hf].
    do 2 (case_if; [done|]). by apply Hpost.
Qed.

Lemma opcodeIf_ok : handler_ok opcodeIf.
Proof.
  intros op data vm n Hn Hs _ _. unfold opcodeIf. case_if.
  - eapply wp_bind; [by apply (popIfBool_wp n)|]. intros [b s] Hst. by apply wp_ok, stepped_condStack.
  - apply wp_ok, stepped_condStack. eapply stepped_refl; [done|lia].
Qed.

Lemma opcodeNotIf_ok : handler_ok opcodeNotIf.
Proof.
  intros op data vm n Hn Hs _ _. unfold opcodeNotIf. case_if.
  - eapply wp_bind; [by apply (popIfBool_wp n)|]. intros [b s] Hst. by apply wp_ok, stepped_condStack.
  - apply wp_ok, stepped_condStack. eapply stepped_refl; [done|lia].
Qed.

Lemma opcodeElse_ok : handler_ok opcodeElse.
Proof.
  intros op data vm n Hn Hs _ _. unfold opcodeElse. destruct (last_of _); [|done].
  apply wp_ok, stepped_condStack. eapply stepped_refl; [done|lia].
Qed.

Lemma opcodeEndif_ok : handler_ok opcodeEndif.
Proof.
  intros op data vm n Hn Hs _ _. unfold opcodeEndif. case_if; [done|].
  apply wp_ok, stepped_condStack. eapply stepped_refl; [done|lia].
Qed.

Lemma opcodeNop_ok : handler_ok opcodeNop.
Proof.
  intros op data vm n Hn Hs _ _. unfold opcodeNop. case_if; [done|].
  apply wp_ok. eapply stepped_refl; [done|lia].
Qed.

Lemma opcodeVerify_ok : handler_ok opcodeVerify.
Proof.
  intros op data vm n Hn Hs _ _. eapply abstractVerify_wp; [lia|]. eapply stepped_refl; [done|lia].
Qed.

Lemma peekLockTime_wp n vm : n < 2 ^ 31 - 32 -> stacks_ok n vm -> wp (peekLockTime vm) (fun _ => True).
Proof.
  intros Hn Hs. pose proof (dstack_small _ _ Hs). unfold peekLockTime.
  eapply wp_bind; [apply (peek_wp (verifyMinimalData (dstack vm)) (len (stk (dstack vm)))); [lia|by eapply dstack_fit]|].
  intros so _. apply (wp_bind _ _ (fun _ => True)); [|intros v _; by case_if].
  apply wp_intro; [apply MakeScriptNum_no_panic|done].
Qed.

Lemma verifyLockTime_wp a b c : wp (verifyLockTime a b c) (fun _ => True).
Proof. unfold verifyLockTime. case_if; [done|]. by case_if. Qed.

Lemma currentTxIn_some vm : sig_env vm -> exists ti, currentTxIn vm = Ok ti.
Proof. intros He. unfold currentTxIn. destruct (index_some _ _ (se_idx _ He)) as [ti ->]. by exists ti. Qed.

Lemma opcodeCheckLockTimeVerify_ok : handler_ok opcodeCheckLockTimeVerify.
Proof.
  intros op data vm n Hn Hs He _. unfold opcodeCheckLockTimeVerify.
  assert (Hrefl : stepped (n + 3) vm vm) by (eapply stepped_refl; [done|lia]).
  case_if; [by case_if|].
  eapply wp_bind; [by eapply peekLockTime_wp|]. intros t _.
  eapply wp_bind; [apply verifyLockTime_wp|]. intros _ _.
  destruct (currentTxIn_some _ He) as [ti ->]. simpl. by case_if.
Qed.

Lemma opcodeCheckSequenceVerify_ok : handler_ok opcodeCheckSequenceVerify.
Proof.
  intros op data vm n Hn Hs He _. unfold opcodeCheckSequenceVerify.
  assert (Hrefl : stepped (n + 3) vm vm) by (eapply stepped_refl; [done|lia]).
  case_if; [by case_if|].
  eapply wp_bind; [by eapply peekLockTime_wp|]. intros t _. do 2 (case_if; [done|]).
  destruct (currentTxIn_some _ He) as [ti ->]. cbn [rbind]. case_if; [done|].
  eapply wp_bind; [apply verifyLockTime_wp|]. done.
Qed.

Lemma opcodeToAltStack_ok : handler_ok opcodeToAltStack.
Proof.
  intros op data vm n Hn Hs _ _. unfold opcodeToAltStack. pose proof (dstack_small _ _ Hs).
  eapply wp_bind; [eapply (pop_wp _ (len (stk (dstack vm)))); [lia|by eapply dstack_fit]|].
  intros [x s] [Hx [He Hl _]]. apply wp_ok. destruct Hs as [_ Ha Hlen].
  constructor; try done; [|simpl; lia|by left]. constructor; simpl; [done| |].
  - by apply Forall_app_2; [|constructor].
  - rewrite len_app. change (len [x]) with 1. lia.
Qed.

Lemma opcodeFromAltStack_ok : handler_ok opcodeFromAltStack.
Proof.
  intros op data vm n Hn Hs _ _. unfold opcodeFromAltStack.
  assert (len (stk (astack vm)) <= n) by (destruct Hs; pose proof (len_nonneg (stk (dstack vm))); lia).
  eapply wp_bind; [eapply (pop_wp _ (len (stk (astack vm)))); [lia|by eapply astack_fit]|].
  intros [x s] [Hx [He Hl _]]. apply wp_ok. destruct Hs as [Hd _ Hlen].
  constructor; try done; [|simpl; lia|by left]. constructor; simpl; [|done|].
  - by apply Forall_app_2; [|constructor].
  - rewrite len_app. change (len [x]) with 1. lia.
Qed.

Lemma opcodeCodeSeparator_ok : handler_ok opcodeCodeSeparator.
Proof.
  intros op data vm n Hn [Hd Ha Hl] He _. unfold opcodeCodeSeparator.
  destruct (taprootCtx _) as [ctx|] eqn:Hc; [|case_if; [done|]]; apply wp_ok.
  all: constructor; simpl in *; try done; try (constructor; simpl; done || lia); try lia; try by right.
  by rewrite Hc.
Qed.

(** *** Signatures *)

Lemma sig_env_set_dstack vm s : sig_env vm -> sig_env (set_dstack s vm).
Proof. intros []. by constructor. Qed.

Lemma sig_env_set_taprootCtx vm c : sig_env vm -> sig_env (set_taprootCtx c vm).
Proof. intros []. by constructor. Qed.

Lemma sig_env_set_numOps vm k : sig_env vm -> sig_env (set_numOps k vm).
Proof. intros []. by constructor. Qed.

Lemma subScript_wp vm : sig_env vm -> wp (subScript vm) (fun s => bytes_ok s /\ len s < 2 ^ 31).
Proof.
  intros He. destruct (se_script _ He) as (s & Hi & Hok & Hl & Hsep). unfold subScript. rewrite Hi. simpl.
  eapply wp_mono; [apply subslice_wp; [done|lia|lia]|]. intros r [? ?]. split; [done|lia].
Qed.

Lemma split_hash_type_wp sig : bytes_ok sig -> 1 <= len sig -> wp (split_hash_type sig) (fun r => bytes_ok r.2).
Proof.
  intros Hs Hl. unfold split_hash_type. destruct (last_of sig) as [h|] eqn:E; simpl.
  - by apply Forall_take.
  - apply last_None in E as ->. done.
Qed.

Lemma checkPubKeyEncoding_no_panic vm pk : no_panic (checkPubKeyEncoding vm pk).
Proof. unfold checkPubKeyEncoding, no_panic. repeat (case_if; try done). Qed.

Lemma checkHashTypeEncoding_no_panic vm h : no_panic (checkHashTypeEncoding vm h).
Proof. unfold checkHashTypeEncoding, no_panic. repeat (case_if; try done). Qed.

Lemma parseSig_no_panic vm sig : bytes_ok sig -> no_panic (parseSig vm sig).
Proof. intros. unfold parseSig. case_if; by apply ecdsa_parseSig_no_panic. Qed.

Lemma parsed_no_panic {A} (o : option A) : no_panic (parsed o).
Proof. by destruct o. Qed.

Lemma newBaseSigVerifier_wp vm pk sig :
  sig_env vm -> bytes_ok sig -> 1 <= len sig ->
  wp (newBaseSigVerifier pk sig vm) (fun v => bytes_ok (bsv_subScript v) /\ len (bsv_subScript v) < 2 ^ 31).
Proof.
  intros He Hs Hl. pose proof (split_hash_type_wp sig Hs Hl) as Hsp. unfold newBaseSigVerifier, parseBaseSigAndPubkey.
  destruct (split_hash_type sig) as [[h b]| |]; try done. cbn [rbind] in *. simpl in Hsp.
  apply (wp_bind _ _ (fun _ => True)).
  - apply wp_intro; [|done]. apply rbind_no_panic; [apply checkHashTypeEncoding_no_panic|]. intros _ _.
    apply rbind_no_panic; [by apply checkSignatureEncoding_no_panic|]. intros _ _.
    apply rbind_no_panic; [apply checkPubKeyEncoding_no_panic|]. intros _ _.
    apply rbind_no_panic; [apply parsed_no_panic|]. intros k _.
    apply rbind_no_panic; [by apply parseSig_no_panic|done].
  - intros [[k sg] ht] _. eapply wp_bind; [by apply subScript_wp|]. done.
Qed.

Lemma baseSigVerifier_Verify_wp vm v :
  sig_env vm -> bytes_ok (bsv_subScript v) -> len (bsv_subScript v) < 2 ^ 31 ->
  wp (baseSigVerifier_Verify vm v) (fun _ => True).
Proof.
  intros He Hs Hl. unfold baseSigVerifier_Verify.
  eapply wp_bind; [by apply removeOpcodeByData_wp|]. intros [s m] [Hs' Hl']. simpl in *.
  apply (wp_bind _ _ (fun _ => True)); [|done]. apply wp_intro; [|done].
  apply calcSignatureHash_no_panic; [done|lia|apply (se_idx _ He)].
Qed.

Lemma witnessSigHash_no_panic vm s h : sig_env vm -> no_panic (witnessSigHash vm s h).
Proof.
  intros He. unfold witnessSigHash, sigHashesV0. destruct (se_cache _ He) as [c ->]. simpl.
  unfold calcWitnessSignatureHashRaw. case_if; [done|].
  destruct (index_some _ _ (se_idx _ He)) as [ti ->]. done.
Qed.

Lemma baseSegwitSigVerifier_Verify_wp vm v :
  sig_env vm -> wp (baseSegwitSigVerifier_Verify vm v) (fun _ => True).
Proof.
  intros He. unfold baseSegwitSigVerifier_Verify.
  pose proof (witnessSigHash_no_panic vm (bsv_subScript v) (bsv_hashType v) He) as Hn.
  by destruct (witnessSigHash _ _ _).
Qed.

Lemma taprootSigVerifier_check_wp vm t o :
  sig_env vm -> wp (taprootSigVerifier_check vm t o) (fun _ => True).
Proof.
  intros He. unfold taprootSigVerifier_check, taprootSigHash. destruct (se_cache _ He) as [c ->].
  pose proof (taproot_sighash_no_panic c (tsv_hashType t) (tx (cfg vm)) (txIdx (cfg vm))
    (prevOutFetcher (cfg vm)) o (se_idx _ He) (se_fetch _ He)) as Hn.
  by destruct (calcTaprootSignatureHashRaw _ _ _ _ _ _).
Qed.

Lemma newTaprootSigVerifier_no_panic pk sig a : no_panic (newTaprootSigVerifier pk sig a).
Proof.
  unfold newTaprootSigVerifier, parseTaprootSigAndPubKey.
  apply rbind_no_panic; [|by intros [[? ?] ?] _].
  apply rbind_no_panic; [apply parsed_no_panic|]. intros k _.
  case_if; [apply rbind_no_panic; [apply schnorr_ParseSignature_no_panic|done]|].
  case_if; [|done].
  destruct (lookup_lt_is_Some_2 sig 64) as [x ->].
  { unfold len, schnorr_SignatureSize in *. lia. }
  simpl. apply rbind_no_panic; [apply schnorr_ParseSignature_no_panic|done].
Qed.

Lemma tapscript_verifier_wp vm pk sig :
  sig_env vm -> is_Some (taprootCtx vm) ->
  wp (let! v := newBaseTapscriptSigVerifier pk sig vm in baseTapscriptSigVerifier_Verify vm v)
    (fun _ => True).
Proof.
  intros He [ctx Hctx]. unfold newBaseTapscriptSigVerifier, baseTapscriptSigVerifier_Verify. rewrite Hctx.
  case_if; [done|]. case_if; [|by case_if]. simpl.
  pose proof (newTaprootSigVerifier_no_panic pk sig (annex ctx)) as Hn.
  destruct (newTaprootSigVerifier _ _ _); simpl; try done. by apply taprootSigVerifier_check_wp.
Qed.

Lemma stepped_trans n n' vm vm1 vm2 : stepped n vm vm1 -> stepped n' vm1 vm2 -> stepped n' vm vm2.
Proof.
  intros H1 H2. destruct H1, H2.
  constructor; try congruence; try done; [lia|].
  match goal with H : _ \/ _ |- _ => destruct H as [->| ->] end; [done|right; congruence].
Qed.

Lemma stepped_mono n n' vm vm' : stepped n vm vm' -> n <= n' -> stepped n' vm vm'.
Proof. intros [? ? ? ? ? ? ? ? [? ? ?] ? ? ?] ?. constructor; try done. constructor; done || lia. Qed.

(** The state after popping: the data stack [s] has [k] elements fewer. *)
Lemma popped n k vm s :
  stacks_ok n vm -> sfit (verifyMinimalData (dstack vm)) (len (stk (dstack vm)) - k) s ->
  stepped (n - k) vm (set_dstack s vm).
Proof. intros Hs Hf. apply (stepped_dstack _ n (- k) _ _ Hs Hf). Qed.

Lemma stepped_set_ctx n vm vm' ctx :
  stepped n vm vm' -> option_map mustSucceed (Some ctx) = option_map mustSucceed (taprootCtx vm) ->
  stepped n vm (set_taprootCtx (Some ctx) vm').
Proof. intros [? ? ? ? ? ? ? ? [? ? ?] ? ? ?] ?. by constructor. Qed.

Lemma stepped_push n vm vm' b : stepped n vm vm' -> elem_ok b -> stepped (n + 3) vm (push b vm').
Proof. intros Hst Hb. eapply stepped_trans; [done|]. apply push_ok; [apply (st_stacks _ _ _ Hst)|done]. Qed.

Lemma checkSig_result_wp n vm vm' sig r :
  stepped n vm vm' -> wp (checkSig_result sig r vm') (stepped (n + 3) vm).
Proof.
  intros Hst. unfold checkSig_result. do 2 (case_if; [done|]). apply stepped_push; [done|].
  apply elem_ok_bool.
Qed.

Lemma checkSig_ecdsa_wp n vm vm' verify pk sig :
  stepped n vm vm' -> sig_env vm' -> bytes_ok sig -> 1 <= len sig ->
  (forall v, bytes_ok (bsv_subScript v) -> len (bsv_subScript v) < 2 ^ 31 -> wp (verify vm' v) (fun _ => True)) ->
  wp (checkSig_ecdsa verify pk sig vm') (stepped (n + 3) vm).
Proof.
  intros Hst He Hs Hl Hv. unfold checkSig_ecdsa.
  pose proof (newBaseSigVerifier_wp vm' pk sig He Hs Hl) as Hn.
  destruct (newBaseSigVerifier pk sig vm') as [v|e|]; simpl in Hn; [|destruct e; try done|done].
  - destruct Hn. eapply wp_bind; [by apply Hv|]. intros r _. by apply checkSig_result_wp.
  - apply stepped_push; [done|]. apply elem_ok_bool.
Qed.

Lemma tallysigOp_wp ctx :
  wp (tallysigOp ctx) (fun ctx' => mustSucceed ctx' = mustSucceed ctx).
Proof. unfold tallysigOp. by case_if. Qed.

Lemma tally_wp (b : bool) ctx :
  wp (if b then tallysigOp ctx else Ok ctx) (fun ctx' => mustSucceed ctx' = mustSucceed ctx).
Proof. destruct b; [apply tallysigOp_wp|done]. Qed.

Lemma checkSig_tapscript_wp n vm vm' ctx pk sig :
  stepped n vm vm' -> taprootCtx vm = Some ctx -> sig_env vm' ->
  wp (checkSig_tapscript ctx pk sig vm') (stepped (n + 3) vm).
Proof.
  intros Hst Hctx He. unfold checkSig_tapscript. eapply wp_bind; [apply tally_wp|]. intros ctx' Hm.
  assert (Hst' : stepped n vm (set_taprootCtx (Some ctx') vm')).
  { apply stepped_set_ctx; [done|]. rewrite Hctx. simpl. by rewrite Hm. }
  case_if; [done|]. case_if; [apply stepped_push; [done|apply elem_ok_nil]|].
  pose proof (tapscript_verifier_wp (set_taprootCtx (Some ctx') vm') pk sig
    (sig_env_set_taprootCtx _ _ He) ltac:(by eexists)) as Hv.
  destruct (newBaseTapscriptSigVerifier _ _ _); cbn [rbind] in *; try done.
  eapply wp_bind; [exact Hv|]. intros r _. by apply checkSig_result_wp.
Qed.

Lemma opcodeCheckSig_ok : sig_handler_ok opcodeCheckSig.
Proof.
  intros op data vm n Hn Hs He Hv _. unfold opcodeCheckSig. pose proof (dstack_small _ _ Hs).
  eapply wp_bind; [eapply (pop_wp _ (len (stk (dstack vm)))); [lia|by eapply dstack_fit]|].
  intros [pk s1] [_ Hf1].
  eapply wp_bind; [eapply (pop_wp _ (len (stk (dstack vm)) - 1)); [lia|done]|]. intros [sig s2] [[Hsig _] Hf2].
  assert (Hst : stepped n vm (set_dstack s2 vm)).
  { eapply stepped_mono; [apply (popped n 2); [done|]|lia]. eapply sfit_mono; [done|lia]. }
  pose proof (sig_env_set_dstack vm s2 He) as He2. simpl.
  set (vm2 := set_dstack s2 vm) in *.
  unfold isWitnessVersionActive. simpl. destruct Hv as [[Hc Hw]|([ctx Hc] & [p Hp] & Hw)].
  - rewrite Hc. simpl. destruct (Z.ltb_spec (len sig) 1);
      [apply stepped_push; [done|apply (elem_ok_bool false)]|].
    destruct (witnessProgram vm) as [p|] eqn:Hp; simpl.
    + destruct Hw as [Hw|Hw]; [done|]. rewrite Hw. apply checkSig_ecdsa_wp; try done.
      intros. by apply baseSegwitSigVerifier_Verify_wp.
    + apply checkSig_ecdsa_wp; try done. intros. by apply baseSigVerifier_Verify_wp.
  - rewrite Hc, Hp, Hw. simpl. by apply checkSig_tapscript_wp.
Qed.

Lemma opcodeCheckSigAdd_ok : handler_ok opcodeCheckSigAdd.
Proof.
  intros op data vm n Hn Hs He _. unfold opcodeCheckSigAdd. destruct (taprootCtx vm) as [ctx|] eqn:Hctx; [|done].
  pose proof (dstack_small _ _ Hs).
  eapply wp_bind; [eapply (pop_wp _ (len (stk (dstack vm)))); [lia|by eapply dstack_fit]|]. intros [pk s1] [_ Hf1].
  eapply wp_bind; [eapply (PopInt_wp _ (len (stk (dstack vm)) - 1)); [lia|done]|]. intros [acc s2] [Hacc Hf2].
  eapply wp_bind; [eapply (pop_wp _ (len (stk (dstack vm)) - 1 - 1)); [lia|done]|]. intros [sig s3] [_ Hf3].
  eapply wp_bind; [apply tally_wp|]. intros ctx' Hm.
  set (vm' := set_taprootCtx (Some ctx') (set_dstack s3 vm)).
  assert (Hst : stepped (n - 3) vm vm').
  { apply stepped_set_ctx; [|rewrite Hctx; simpl; by rewrite Hm].
    apply (popped n 3); [done|]. eapply sfit_mono; [done|lia]. }
  assert (Hpush : forall v, - 2 ^ 32 <= v <= 2 ^ 32 -> wp (on_dstack (stack_PushInt v) vm') (stepped (n + 3) vm)).
  { intros v Hr. eapply wp_mono; [apply (on_dstack_wp _ (n - 3)); [|lia|apply (st_stacks _ _ _ Hst)]|].
    - intros m d s Hd Hsf. stack_step.
    - intros vm2 H2. eapply stepped_mono; [by eapply stepped_trans|lia]. }
  case_if; [done|]. case_if; [apply Hpush; lia|].
  pose proof (tapscript_verifier_wp vm' pk sig
    (sig_env_set_taprootCtx _ _ (sig_env_set_dstack _ _ He)) ltac:(by eexists)) as Hver.
  destruct (newBaseTapscriptSigVerifier _ _ _); cbn [rbind] in *; try done.
  eapply wp_bind; [exact Hver|]. intros r _. case_if; [done|]. apply Hpush.
  rewrite int64_id; unfold is_int64; lia.
Qed.

(** *** Multiple signatures *)

Lemma popMany_wp m k : forall d s, d < 2 ^ 31 - 32 -> sfit m d s ->
  wp (popMany k s) (fun '(l, s') => length l = k /\ Forall elem_ok l /\ sfit m d s').
Proof.
  induction k as [|k IH]; intros d s Hd Hs; simpl; [done|].
  eapply wp_bind; [eapply (pop_wp m d); [lia|done]|]. intros [x s1] [Hx Hs1].
  eapply wp_bind; [apply (IH (d - 1)); [lia|done]|]. intros [l s2] (Hlen & Hl & Hs2).
  apply wp_ok. split_and!; [simpl; lia|by constructor|]. eapply sfit_mono; [done|lia].
Qed.

Lemma multisig_script_wp vm sigs :
  sig_env vm -> wp (multisig_script vm sigs) (fun s => bytes_ok s /\ len s < 2 ^ 31).
Proof.
  intros He. unfold multisig_script. eapply wp_bind; [by apply subScript_wp|]. intros s Hs.
  case_if; [done|]. clear Heqb. revert s Hs. induction sigs as [|sig sigs IH]; intros s [Hs Hl]; simpl; [done|].
  apply (wp_bind _ _ (fun s => bytes_ok s /\ len s < 2 ^ 31)); [|intros s' Hs'; by apply IH].
  eapply wp_bind; [by apply removeOpcodeByData_wp|]. intros [s' mt] [Hs' Hl']. simpl in *.
  case_if; [done|]. split; [done|lia].
Qed.

Lemma multisig_hash_no_panic vm script h :
  sig_env vm -> bytes_ok script -> len script < 2 ^ 31 -> no_panic (multisig_hash vm script h).
Proof.
  intros He Hs Hl. unfold multisig_hash. case_if; [by apply witnessSigHash_no_panic|].
  apply calcSignatureHash_no_panic; [done|done|apply (se_idx _ He)].
Qed.

Lemma multisig_try_wp vm script si pk :
  sig_env vm -> bytes_ok script -> len script < 2 ^ 31 -> bytes_ok (signature si) ->
  wp (multisig_try vm script si pk) (fun r => signature r.2 = signature si).
Proof.
  intros He Hs Hl Hsi. unfold multisig_try. case_if; [done|].
  assert (1 <= len (signature si)) by (pose proof (len_nonneg (signature si)); lia).
  eapply wp_bind; [by apply split_hash_type_wp|]. intros [h sig] Hsig. simpl in Hsig.
  eapply (wp_bind _ _ (fun si' => signature si' = signature si)).
  - unfold multisig_parse. case_if; [done|]. apply wp_intro.
    + apply rbind_no_panic; [apply checkHashTypeEncoding_no_panic|]. intros _ _.
      apply rbind_no_panic; [by apply checkSignatureEncoding_no_panic|]. intros _ _.
      pose proof (parseSig_no_panic vm sig Hsig). by destruct (parseSig vm sig).
    + intros si' Hr. inv_bind Hr. inv_bind Hr. destruct (parseSig vm sig); by simplify_eq.
  - intros si' Hsi'. destruct (parsedSignature si'); [|done].
    apply (wp_bind _ _ (fun _ => True)); [apply wp_intro; [apply checkPubKeyEncoding_no_panic|done]|]. intros _ _.
    destruct (secp_ParsePubKey pk); [|done].
    apply (wp_bind _ _ (fun _ => True)); [apply wp_intro; [by apply multisig_hash_no_panic|done]|]. done.
Qed.

Lemma multisig_loop_wp vm script pks : sig_env vm -> bytes_ok script -> len script < 2 ^ 31 ->
  forall k i j left sigs, 0 <= i -> 0 <= j ->
  Z.of_nat k + i = len pks -> j + left = len sigs -> Forall (fun si => bytes_ok (signature si)) sigs ->
  wp (multisig_loop vm script pks k i j left sigs) (fun _ => True).
Proof.
  intros He Hs Hl. induction k as [|k IH]; intros i j left sigs Hi Hj Hk Hleft Hsigs; simpl.
  { case_if; [done|]. by case_if. }
  case_if; [done|]. case_if; [done|].
  destruct (index_some sigs j) as [si Hsi]; [lia|]. destruct (index_some pks i) as [pk ->]; [lia|].
  rewrite Hsi. cbn [unwrap rbind].
  assert (Hok : bytes_ok (signature si)).
  { unfold index in Hsi. destruct (j <? 0); [done|]. by eapply Forall_lookup_1 in Hsigs. }
  eapply wp_bind; [by apply multisig_try_wp|]. intros [v si'] Hsi'. simpl in Hsi'.
  assert (Hsigs' : Forall (fun si => bytes_ok (signature si)) (<[Z.to_nat j:=si']> sigs)).
  { apply list.Forall_insert; [done|]. by rewrite Hsi'. }
  assert (Hlen : len (<[Z.to_nat j:=si']> sigs) = len sigs) by (unfold len; by rewrite list.length_insert).
  destruct v; apply IH; try done; lia.
Qed.

Lemma opcodeCheckMultiSig_ok : handler_ok opcodeCheckMultiSig.
Proof.
  intros op data vm n Hn Hs He _. unfold opcodeCheckMultiSig. case_if; [done|].
  pose proof (dstack_small _ _ Hs). set (d := len (stk (dstack vm))) in *.
  eapply wp_bind; [eapply (PopInt_wp _ d); [lia|by eapply dstack_fit]|]. intros [nk s1] [_ Hf1].
  set (k := scriptNum_Int32 nk). do 3 (case_if; [done|]).
  set (vm1 := set_numOps (numOps vm + k) vm) in *.
  eapply wp_bind; [eapply (popMany_wp _ _ (d - 1)); [lia|done]|]. intros [pks s2] (Hlp & _ & Hf2).
  eapply wp_bind; [eapply (PopInt_wp _ (d - 1)); [lia|done]|]. intros [ns s3] [_ Hf3].
  set (j := scriptNum_Int32 ns). do 2 (case_if; [done|]).
  eapply wp_bind; [eapply (popMany_wp _ _ (d - 1 - 1)); [lia|done]|]. intros [sigs s4] (Hls & Hsigs & Hf4).
  eapply wp_bind; [eapply (pop_wp _ (d - 1 - 1)); [lia|done]|]. intros [dummy s5] [_ Hf5].
  case_if; [done|]. pose proof (sig_env_set_numOps vm (numOps vm + k) He) as He1. fold vm1 in He1.
  eapply wp_bind; [by apply multisig_script_wp|]. intros script [Hsc Hscl].
  eapply wp_bind; [apply multisig_loop_wp; try done|].
  - unfold len. lia.
  - unfold len. rewrite length_map. lia.
  - apply Forall_map. eapply Forall_impl; [exact Hsigs|]. intros x [Hx _]. done.
  - intros ok _. case_if; [done|]. apply wp_ok.
    pose proof (push_fit _ _ _ _ (elem_ok_bool ok) Hf5) as [Hpe Hpl _]. destruct Hs as [_ Ha Hlen].
    unfold vm1 in *. simpl in *. constructor; try done; simpl; [|lia|by left].
    constructor; simpl; [done|done|]. unfold d in *. simpl in Hpl. lia.
Qed.

(** *** The table *)

Lemma unconditional_error e : handler_ok (fun _ _ _ => Err e).
Proof. intros ? ? ? ? ? ? ? ?. exact I. Qed.

Lemma opcodePushData_ok : handler_ok opcodePushData.
Proof. intros op data vm n Hn Hs _ Hd. by apply push_ok. Qed.

Lemma opcodeFalse_ok : handler_ok opcodeFalse.
Proof. intros op data vm n Hn Hs _ _. apply push_ok; [done|apply elem_ok_nil]. Qed.

Lemma push_const_ok v : - 2 ^ 32 <= v <= 2 ^ 32 -> handler_ok (fun _ _ => on_dstack (stack_PushInt v)).
Proof. intros Hv. stack_body. Qed.

Lemma opcodeN_ok : handler_ok opcodeN.
Proof.
  intros op data vm n Hn Hs He Hd. pose proof (uint8_range (op - (OP_1 - 1))) as Hr. unfold is_byte in Hr.
  by apply (push_const_ok (uint8 (op - (OP_1 - 1))) ltac:(lia) op data).
Qed.

Lemma elem_ok_sha256 b : elem_ok (sha256 b).
Proof. split; [apply sha256_ok|]. rewrite sha256_len. done. Qed.

Lemma elem_ok_sha1 b : elem_ok (sha1 b).
Proof. split; [apply sha1_ok|]. rewrite sha1_len. done. Qed.

End Handlers.

Create HintDb handlers discriminated.
#[export] Hint Resolve opcodePushData_ok opcodeFalse_ok opcodeN_ok opcodeNop_ok
  opcodeIf_ok opcodeNotIf_ok opcodeElse_ok opcodeEndif_ok opcodeVerify_ok
  opcodeCheckLockTimeVerify_ok opcodeCheckSequenceVerify_ok opcodeToAltStack_ok
  opcodeFromAltStack_ok opcodeIfDup_ok opcodeDepth_ok opcodePick_ok opcodeRoll_ok opcodeTuck_ok
  opcodeSize_ok opcodeEqual_ok opcodeWithin_ok opcodeCodeSeparator_ok
  opcodeCheckSigAdd_ok opcodeCheckMultiSig_ok : handlers.

(** Side conditions of the numeric handlers. *)
Ltac num_bounds := intros; unfold num; repeat case_if; rewrite ?int64_id; unfold is_int64; lia.

Section Table.
Context `{D : DecimalOps} `{C : CurveOps} {CL : CurveLaws C}.

Lemma elem_ok_ripemd160 b : elem_ok (ripemd160 b).
Proof. split; [apply ripemd160_ok|]. rewrite ripemd160_len. done. Qed.

(** One handler: by the hints, or by the shape of its definition. *)
Ltac handler_shape :=
  lazymatch goal with
  | |- handler_ok (fun _ _ _ => Err _) => apply unconditional_error
  | |- handler_ok (fun _ _ => on_dstack (stack_DropN _)) => apply DropN_ok
  | |- handler_ok (fun _ _ => on_dstack (stack_RotN _)) => apply RotN_ok
  | |- handler_ok (fun _ _ => on_dstack (stack_SwapN _)) => apply SwapN_ok
  | |- handler_ok (fun _ _ => on_dstack (stack_NipN _)) => apply NipN_ok
  | |- handler_ok (fun _ _ => on_dstack (stack_DupN _)) => apply DupN_ok; lia
  | |- handler_ok (fun _ _ => on_dstack (stack_OverN _)) => apply OverN_ok; lia
  | |- handler_ok (fun _ _ => on_dstack (stack_PushInt _)) => apply push_const_ok; lia
  | |- handler_ok (unary _) => apply unary_ok; num_bounds
  | |- handler_ok (binary _) => apply binary_ok; num_bounds
  | |- handler_ok (hash_top _) =>
      apply hash_top_ok; intros;
      first [apply elem_ok_ripemd160 | apply elem_ok_sha1 | apply elem_ok_sha256]
  | |- handler_ok (fun op data vm => rbind (?f op data vm) _) => apply (verify_ok f)
  end.

Ltac handler :=
  first
    [ solve [simple apply opcodePushData_ok | auto with handlers nocore]
    | match goal with
      | |- handler_ok ?f => let f' := eval red in f in change (handler_ok f'); handler_shape
      end ].

(** Every handler of the table is safe; the two at 172 and 173 are
    [opcodeCheckSig] and [opcodeCheckSigVerify]. *)
Lemma opcodeArray_split :
  opcodeArray = take 172 opcodeArray ++ opcodeCheckSig :: opcodeCheckSigVerify :: drop 174 opcodeArray.
Proof. reflexivity. Qed.

Lemma opcodeArray_plain : Forall handler_ok (take 172 opcodeArray) /\ Forall handler_ok (drop 174 opcodeArray).
Proof.
  split; unfold opcodeArray; cbn [app replicate take drop];
    repeat apply Forall_cons_2; try apply Forall_nil_2; repeat handler.
Qed.

Definition is_checksig (op : Z) : bool := (op =? OP_CHECKSIG) || (op =? OP_CHECKSIGVERIFY).

Lemma dispatch_ok op f data vm n :
  index opcodeArray op = Some f -> (is_checksig op = false \/ has_verifier vm) ->
  n < 2 ^ 31 - 32 -> stacks_ok n vm -> sig_env vm -> elem_ok (slice data) ->
  wp (f op data vm) (stepped (n + 3) vm).
Proof.
  intros Hi Hv Hn Hs He Hd. destruct opcodeArray_plain as [H1 H2].
  unfold index in Hi. destruct (Z.ltb_spec op 0); [done|].
  rewrite opcodeArray_split in Hi. apply lookup_app_Some in Hi as [Hi|[Hge Hi]].
  { eapply Forall_lookup_1 in H1; [|done]. by apply H1. }
  assert (Hl : length (take 172 opcodeArray) = 172%nat) by reflexivity. rewrite Hl in *.
  destruct (decide (op = 172)) as [->|]; [|destruct (decide (op = 173)) as [->|]].
  - simpl in Hi. injection Hi as <-. destruct Hv as [Hv|Hv]; [done|]. by apply opcodeCheckSig_ok.
  - simpl in Hi. injection Hi as <-. destruct Hv as [Hv|Hv]; [done|].
    by apply (verify_sig_ok _ ErrCheckSigVerify opcodeCheckSig_ok).
  - replace (Z.to_nat op - 172)%nat with (S (S (Z.to_nat op - 174))) in Hi by lia. simpl in Hi.
    eapply Forall_lookup_1 in H2; [|done]. by apply H2.
Qed.

Lemma checkMinimalDataPush_no_panic op d : no_panic (checkMinimalDataPush op d).
Proof. unfold checkMinimalDataPush, no_panic. cbv zeta. repeat (case_if; try done). Qed.

Lemma opcodeArray_total op : is_byte op -> is_Some (index opcodeArray op).
Proof. intros Hb. apply index_some. unfold is_byte in Hb. change (len opcodeArray) with 256. lia. Qed.

Lemma executeOpcode_wp op data vm n :
  is_byte op -> bytes_ok (slice data) -> (OP_16 < op -> slice data = []) ->
  (is_checksig op = false \/ has_verifier vm) ->
  n < 2 ^ 31 - 32 -> stacks_ok n vm -> sig_env vm -> numOps vm <= MaxOpsPerScript ->
  wp (executeOpcode op data vm) (stepped (n + 3) vm).
Proof.
  intros Hop Hd Hpush Hv Hn Hs He Hops. unfold executeOpcode. do 2 (case_if; [done|]).
  apply (wp_bind _ _ (fun vm1 => stepped n vm vm1 /\ elem_ok (slice data)
    /\ sig_env vm1 /\ (is_checksig op = false \/ has_verifier vm1))).
  - assert (Hrefl : stepped n vm vm) by (by eapply stepped_refl).
    case_if; [case_if; [done|]|case_if; [done|]]; apply wp_ok.
    + rewrite Hpush by lia. split_and!; [|apply elem_ok_nil|by apply sig_env_set_numOps|exact Hv].
      destruct Hrefl as [? ? ? ? ? ? ? ? [? ? ?] ? ? ?]. constructor; try done. simpl in *. lia.
    + split_and!; done || (split; [done|]; unfold MaxScriptElementSize in *; lia).
  - intros vm1 (Hst & Hel & He1 & Hv1). case_if.
    { apply wp_ok. eapply stepped_mono; [done|lia]. }
    apply (wp_bind _ _ (fun _ => True)).
    { apply wp_intro; [|done]. case_if; [apply checkMinimalDataPush_no_panic|done]. }
    intros _ _. destruct (opcodeArray_total op Hop) as [f Hf]. rewrite Hf. cbn [unwrap rbind].
    eapply wp_mono; [eapply dispatch_ok; try done; apply (st_stacks _ _ _ Hst)|].
    intros vm2 H2. by eapply stepped_trans.
Qed.

End Table.
