(* ===== verification/EngineTotal.v ===== *)
(** * Execution is total

    The engine made by [NewEngine] reaches a verdict: an invariant of the engine
    between two steps, preserved by [Step], and a measure that each step
    decreases. *)

From Stdlib Require Import ZArith Lia.
From stdpp Require Import base list numbers option strings.
From S2P Require Import Prelude ScriptNum Tokenizer ScriptBuilder ScriptStack ScriptStd Sha Wire SigHash Curve EngineState SigValidate Opcodes Engine EngineSafe.

Lemma index_Forall {A} (P : A -> Prop) l i x : Forall P l -> index l i = Some x -> P x.
Proof.
  unfold index. intros Hl Hi. destruct (i <? 0); [done|]. rewrite Forall_lookup in Hl. eauto.
Qed.

(** ** Scripts as instructions *)

Definition script_ok (s : bytes) : Prop := bytes_ok s /\ len s < 2 ^ 31.

Definition parses (s : bytes) : Prop := exists tks, s = enc_tokens tks /\ Forall wf_token tks.

(** No signature is checked, so no verifier is needed. *)
Definition nosig (tks : list token) : Prop := Forall (fun tk => is_checksig (tk_op tk) = false) tks.

Lemma checkScriptParses_parses s : script_ok s -> checkScriptParses 0 s = Ok tt -> parses s.
Proof.
  intros [Hok Hl]. unfold checkScriptParses.
  destruct (tokenize_prefix (E := ErrorCode) s Hok Hl) as (tks & rest & te & Ht & Heq & Hw & Hend).
  unfold tokenize in Ht. rewrite Ht. cbn [rbind]. unfold ScriptTokenizer_Err.
  destruct Hend as [[-> _]|(_ & _ & ->)]; [|done]. intros _. exists tks.
  by rewrite app_nil_r in Heq.
Qed.

Lemma checkScriptParses_wp s : script_ok s -> wp (checkScriptParses 0 s) (fun _ => parses s).
Proof.
  intros Hs. apply wp_intro; [by apply checkScriptParses_no_panic; apply Hs|].
  intros [] Hc. by apply checkScriptParses_parses.
Qed.

Lemma wf_token_push tk : wf_token tk -> OP_16 < tk_op tk -> slice (tk_data tk) = [].
Proof.
  intros [_ Hd] Hop. destruct (tk_data tk) as [d|]; [|done]. destruct Hd as [_ Hd].
  pose proof (opcode_length_cases (tk_op tk)). lia.
Qed.

Lemma wf_token_data tk : wf_token tk -> bytes_ok (slice (tk_data tk)).
Proof. intros [_ Hd]. destruct (tk_data tk) as [d|]; [apply Hd|constructor]. Qed.

Lemma enc_token_inj tk s tks :
  wf_token tk -> Forall wf_token tks -> enc_token tk ++ s = enc_tokens tks ->
  exists tks', tks = tk :: tks' /\ s = enc_tokens tks'.
Proof.
  intros Hw Hws Heq. pose proof (parse_one_enc tk s Hw) as Hp. rewrite Heq in Hp.
  destruct tks as [|tk' tks]; [done|]. apply Forall_cons_iff in Hws as [Hw' Hws].
  rewrite enc_tokens_cons, parse_one_enc in Hp by done. injection Hp as -> <-. by exists tks.
Qed.

Lemma enc_tokens_inj l k : Forall wf_token l -> Forall wf_token k -> enc_tokens l = enc_tokens k -> l = k.
Proof.
  revert k. induction l as [|tk l IH]; intros k Hl Hk Heq.
  { symmetry. apply enc_tokens_empty. by rewrite <- Heq. }
  apply Forall_cons_iff in Hl as [Hw Hl]. rewrite enc_tokens_cons in Heq.
  destruct (enc_token_inj _ _ _ Hw Hk Heq) as (k' & -> & Heq').
  apply Forall_cons_iff in Hk as [_ Hk]. f_equal. by apply IH.
Qed.

(** ** The two templates the engine treats specially *)

Lemma at_is_lookup s i b : at_is s i b = true -> s !! i = Some b.
Proof. apply bool_decide_eq_true_1. Qed.

Lemma script_hash_tokens s :
  bytes_ok s -> isScriptHashScript s = true ->
  exists h, s = enc_tokens [mkToken OP_HASH160 None; mkToken OP_DATA_20 (Some h); mkToken OP_EQUAL None]
    /\ Forall wf_token [mkToken OP_HASH160 None; mkToken OP_DATA_20 (Some h); mkToken OP_EQUAL None].
Proof.
  intros Hok. unfold isScriptHashScript, extractScriptHash. case_if; [|done]. intros _.
  repeat match goal with H : at_is _ _ _ = true |- _ => apply at_is_lookup in H end.
  destruct s as [|a [|b s]]; try done. simplify_eq/=.
  assert (Hs : s = take 20 s ++ [OP_EQUAL]).
  { rewrite <- (take_drop 20 s) at 1. f_equal. rewrite !len_cons in *.
    destruct (drop 20 s) as [|x [|y r]] eqn:Hd.
    - apply (f_equal length) in Hd. rewrite length_drop in Hd. simpl in Hd. unfold len in *. lia.
    - assert (Hx : s !! 20%nat = Some x).
      { replace 20%nat with (20 + 0)%nat by lia. rewrite <- lookup_drop, Hd. done. }
      congruence.
    - apply (f_equal length) in Hd. rewrite length_drop in Hd. simpl in Hd. unfold len in *. lia. }
  apply Forall_cons_iff in Hok as [_ [_ Hok]%Forall_cons_iff].
  exists (take 20 s). split.
  - rewrite Hs at 1. done.
  - rewrite !len_cons in *. repeat constructor; simpl; try lia; [by apply Forall_take|].
    rewrite len_take_le by lia. done.
Qed.

(** Reading the next instruction. *)
Lemma Next_cases {E} t s :
  tok_at t s ->
  (exists t', ScriptTokenizer_Next (E := E) t = Ok (false, t'))
  \/ (exists tk s', s = enc_token tk ++ s' /\ wf_token tk
        /\ ScriptTokenizer_Next (E := E) t = Ok (true, tok_step t tk (len (enc_token tk)))).
Proof.
  intros Ht. destruct s as [|op r]; [left; exists t; by apply Next_end|].
  destruct (parse_one (op :: r)) as [[tk s']|] eqn:Hp.
  - right. destruct (parse_one_inv _ _ _ (tok_at_suffix_ok _ _ Ht) Hp) as [Hw Heq].
    exists tk, s'. split_and!; [done|done|]. rewrite Heq in Ht. by apply (Next_token _ _ s').
  - left. eexists. by rewrite (Next_parse _ _ _ Ht), Hp.
Qed.

Lemma wf_small_int tk : wf_token tk -> IsSmallInt (tk_op tk) = true -> tk = mkToken (tk_op tk) None.
Proof.
  intros [_ Hd] Hs. destruct tk as [op [d|]]; [|done]. simpl in *. exfalso. destruct Hd as [_ Hd].
  pose proof (opcode_length_cases op). unfold IsSmallInt in Hs.
  destruct (orb_prop _ _ Hs); bool_to_prop; lia.
Qed.

Lemma wf_data_op tk d : wf_token tk -> tk_data tk = Some d -> tk_op tk <= OP_PUSHDATA4.
Proof.
  intros Hw Hd. destruct (Z.le_gt_cases (tk_op tk) OP_PUSHDATA4) as [|Hgt]; [done|].
  destruct Hw as [_ Hl]. rewrite Hd in Hl. destruct Hl as [_ Hl].
  pose proof (opcode_length_cases (tk_op tk)). lia.
Qed.

(** A witness program is a small integer and one push of 2 to 40 bytes. *)
Lemma witness_program_tokens s v p :
  script_ok s -> extractWitnessProgramInfo (E := ErrorCode) s = Ok (v, p, true) ->
  exists op op2 d, s = enc_tokens [mkToken op None; mkToken op2 (Some d)]
    /\ Forall wf_token [mkToken op None; mkToken op2 (Some d)]
    /\ IsSmallInt op = true /\ v = AsSmallInt op /\ p = Some d /\ op2 <= OP_PUSHDATA4.
Proof.
  intros [Hok Hl] H. unfold extractWitnessProgramInfo in H.
  destruct ((len s <? 4) || (42 <? len s)) eqn:Hlen; [done|]. bool_to_prop.
  pose proof (tok_at_start s Hok Hl) as Ht0. set (t0 := MakeScriptTokenizer 0 s) in *.
  destruct (Next_cases (E := ErrorCode) t0 s Ht0) as [[t' Hn]|(tk1 & s1 & Hs1 & Hw1 & Hn)];
    rewrite Hn in H; cbn [rbind negb] in H; [done|].
  unfold ScriptTokenizer_Opcode in H. simpl unwrap in H. cbn [rbind] in H.
  destruct (IsSmallInt (tk_op tk1)) eqn:Hsm; cbn [negb] in H; [|done].
  pose proof (wf_small_int _ Hw1 Hsm) as Htk1.
  rewrite Hs1 in Ht0. apply tok_at_step in Ht0. set (t1 := tok_step t0 tk1 _) in *.
  destruct (Next_cases (E := ErrorCode) t1 s1 Ht0) as [[t' Hn']|(tk2 & s2 & Hs2 & Hw2 & Hn')];
    rewrite Hn' in H; cbn [rbind negb] in H; [done|].
  simpl unwrap in H. cbn [rbind] in H. destruct (negb _); [done|].
  rewrite Hs2 in Ht0. apply tok_at_step in Ht0. rewrite (tok_at_Done _ _ Ht0) in H.
  injection H as <- <- Hv. bool_to_prop. apply len_0 in H as ->.
  destruct tk2 as [op2 [d|]] eqn:E2.
  - exists (tk_op tk1), op2, d. rewrite <- Htk1 at 1 2.
    split_and!; try done; [|by constructor; [|constructor; [|constructor]]|by apply (wf_data_op (mkToken op2 (Some d)) d)].
    rewrite Hs1, Hs2. unfold enc_tokens. simpl. by rewrite !app_nil_r.
  - exfalso. rewrite Hs1, Hs2, Htk1 in *. unfold enc_token in H0. simpl in H0.
    change (len [tk_op tk1; op2]) with 2 in H0. lia.
Qed.

(** ** Two instructions in detail *)

Section Instructions.
Context `{D : DecimalOps} `{C : CurveOps}.

Lemma pushdata_handler op d : wf_token (mkToken op (Some d)) -> index opcodeArray op = Some opcodePushData.
Proof.
  intros [_ [_ Hd]]. simpl in Hd. pose proof (opcode_length_cases op) as Hc.
  assert (Hop : 1 <= op <= 78) by lia. clear - Hop.
  unfold index. z_test. unfold opcodeArray. rewrite (lookup_app_r [opcodeFalse]) by (simpl; lia).
  rewrite lookup_app_l by (rewrite length_replicate; simpl; lia).
  apply lookup_replicate. simpl. split; [done|lia].
Qed.

(** A push in an executed branch. *)
Lemma exec_push op d vm vm' :
  wf_token (mkToken op (Some d)) -> condStack vm = [] ->
  executeOpcode op (Some d) vm = Ok vm' -> dstack vm' = stack_PushByteArray d (dstack vm).
Proof.
  intros Hw Hc H. pose proof (wf_data_op _ d Hw eq_refl) as Hop. simpl in Hop.
  unfold executeOpcode, isBranchExecuting in H. do 2 (destruct (_ : bool); [done|]).
  rewrite (pushdata_handler op d Hw) in H. replace (OP_16 <? op) with false in H by (symmetry; apply Z.ltb_ge; lia).
  rewrite andb_false_r in H. destruct (MaxScriptElementSize <? _); [done|]. cbn [rbind] in H. rewrite Hc in H. simpl in H.
  inv_bind H. by injection H as <-.
Qed.

(** Hashing the top of an empty stack fails. *)
Lemma exec_hash160_empty vm vm' :
  condStack vm = [] -> stk (dstack vm) = [] -> executeOpcode OP_HASH160 None vm <> Ok vm'.
Proof.
  intros Hc Hs H. unfold executeOpcode in H.
  change (isOpcodeDisabled OP_HASH160) with false in H.
  change (isOpcodeAlwaysIllegal OP_HASH160) with false in H. cbv iota in H. inv_bind H.
  assert (Ha : condStack a = [] /\ dstack a = dstack vm).
  { revert Hr. repeat case_if; intros; by simplify_eq/=. }
  destruct Ha as [Hca Hda]. unfold isBranchExecuting in H. rewrite Hca in H. simpl in H.
  rewrite andb_false_r in H. cbn [rbind] in H.
  change (index opcodeArray OP_HASH160) with (Some opcodeHash160) in H. cbn [unwrap rbind] in H.
  unfold opcodeHash160, hash_top, on_dstack in H. rewrite Hda, (pop_empty _ Hs) in H. done.
Qed.

End Instructions.

(** ** Witness programs

    [opened w vm vm']: a script is added, to be run on a stack taken from the
    witness [w]. *)

Section Witness.
Context `{D : DecimalOps} `{C : CurveOps} {CL : CurveLaws C}.

Definition add_script (s : bytes) (l : list bytes) (vm : Engine) : Engine :=
  set_dstack (set_stk (dstack vm) l) (set_scripts (scripts vm ++ [s]) vm).

Record opens (w : list bytes) (s : bytes) (l : list bytes) : Prop := mkOpens {
  op_script : script_ok s;
  op_parses : parses s;
  op_size : len s <= 25 + len (concat w);
  op_stack : Forall (fun e => bytes_ok e) l;
  op_items : len l <= len w;
}.

Definition opened (w : list bytes) (vm vm' : Engine) : Prop :=
  exists s l, vm' = add_script s l vm /\ opens w s l.

Lemma enter_script_spec s l vm :
  len (stk (dstack vm)) < 2 ^ 31 -> enter_script s l vm = Ok (add_script s l vm).
Proof. intros Hd. unfold enter_script, SetStack. by rewrite setStack_spec. Qed.

Lemma len_concat_elem (w : list bytes) e : e ∈ w -> len e <= len (concat w).
Proof.
  induction w as [|x w IH]; intros He; [by apply elem_of_nil in He|]. simpl. rewrite len_app.
  pose proof (len_nonneg (concat w)). pose proof (len_nonneg x).
  apply elem_of_cons in He as [->|He]; [lia|]. specialize (IH He). lia.
Qed.

Lemma opens_prefix w s n :
  Forall (fun e => bytes_ok e) w -> len (concat w) < 2 ^ 31 -> s ∈ w -> parses s -> opens w s (take n w).
Proof.
  intros Hw Hl Hs Hp. pose proof (len_concat_elem _ _ Hs). constructor; [|done|lia|by apply Forall_take|].
  - split; [|lia]. by apply (proj1 (Forall_forall _ _) Hw).
  - unfold len. rewrite length_take. lia.
Qed.

Lemma payToPubKeyHashScript_spec h :
  len h = 20 ->
  payToPubKeyHashScript h = Ok ([OP_DUP; OP_HASH160; OP_DATA_20] ++ h ++ [OP_EQUALVERIFY; OP_CHECKSIG]).
Proof.
  intros Hl. assert (Hn : length h = 20%nat) by (unfold len in Hl; lia).
  do 20 (destruct h as [|? h]; [done|]). by destruct h.
Qed.

Lemma payToPubKeyHashScript_ok h :
  bytes_ok h -> len h = 20 ->
  wp (payToPubKeyHashScript h) (fun s => script_ok s /\ len s = 25).
Proof.
  intros Hh Hl. rewrite (payToPubKeyHashScript_spec h Hl). apply wp_ok. unfold script_ok.
  rewrite !len_app, Hl. split; [|done]. split; [|done].
  apply bytes_ok_app. split; [repeat constructor; lia|]. apply bytes_ok_app. split; [done|repeat constructor; lia].
Qed.

Lemma verifyWitnessV0_wp program w vm :
  bytes_ok program -> Forall (fun e => bytes_ok e) w -> len (concat w) < 2 ^ 31 ->
  len (stk (dstack vm)) < 2 ^ 31 -> version (cfg vm) = 0 ->
  wp (verifyWitnessV0 program w vm) (opened w vm).
Proof.
  intros Hp Hw Hl Hd Hv. unfold verifyWitnessV0. rewrite Hv. case_if.
  - case_if; [done|]. eapply wp_bind; [by apply payToPubKeyHashScript_ok|]. intros s [Hs H25].
    eapply wp_bind; [by apply checkScriptParses_wp|]. intros ? Hps. rewrite enter_script_spec by done.
    exists s, w. split; [done|]. constructor; try done. pose proof (len_nonneg (concat w)). lia.
  - case_if; [|done]. case_if; [done|].
    destruct (last_of w) as [s|] eqn:Hlast; [|by apply last_None in Hlast as ->]. simpl. do 2 (case_if; [done|]).
    assert (Hin : s ∈ w) by (apply last_Some_elem_of; exact Hlast).
    assert (Hs : script_ok s).
    { pose proof (len_concat_elem _ _ Hin). split; [by apply (proj1 (Forall_forall _ _) Hw)|lia]. }
    eapply wp_bind; [by apply checkScriptParses_wp|]. intros ? Hps. rewrite enter_script_spec by done.
    exists s, (take (length w - 1) w). split; [done|]. by apply opens_prefix.
Qed.

Lemma VerifyTaprootKeySpend_cfg vm vm' program sig :
  cfg vm' = cfg vm -> VerifyTaprootKeySpend vm' program sig = VerifyTaprootKeySpend vm program sig.
Proof.
  intros Hc. unfold VerifyTaprootKeySpend, taprootSigVerifier_Verify, taprootSigVerifier_check, taprootSigHash, cached_or.
  by rewrite Hc.
Qed.

Lemma VerifyTaprootKeySpend_no_panic vm program sig :
  sig_env vm -> no_panic (VerifyTaprootKeySpend vm program sig).
Proof.
  intros He. unfold VerifyTaprootKeySpend. destruct (index_some _ _ (se_idx _ He)) as [ti ->]. simpl.
  apply rbind_no_panic; [apply newTaprootSigVerifier_no_panic|]. intros v _.
  apply rbind_no_panic; [by eapply wp_no_panic, taprootSigVerifier_check_wp|]. intros r _. by case_if.
Qed.

Lemma ParseControlBlock_wp b :
  wp (ParseControlBlock b) (fun cb => exists k, secp_ParsePubKey k = Some (InternalKey cb)).
Proof.
  unfold ParseControlBlock. do 3 (case_if; [done|]). unfold schnorr_ParsePubKey.
  destruct (negb _); [done|]. destruct (secp_ParsePubKey _) eqn:Hp; [|done]. simpl. by eexists.
Qed.

Lemma VerifyTaprootLeafCommitment_no_panic cb program script k :
  secp_ParsePubKey k = Some (InternalKey cb) -> no_panic (VerifyTaprootLeafCommitment cb program script).
Proof.
  intros Hk. unfold VerifyTaprootLeafCommitment, ComputeTaprootOutputKey.
  apply ParsePubKey_even in Hk as [k' Hk']. unfold schnorr_ParsePubKey, schnorr_SerializePubKey at 1 2.
  rewrite (len_drop 1), SerializeCompressed_len by (rewrite SerializeCompressed_len; lia).
  cbn [negb Z.eqb]. change (negb (33 - Z.of_nat 1 =? 32)) with false. cbv iota. rewrite Hk'. cbn [unwrap rbind].
  destruct (ToAffine _) as [[X Y] Z0]. cbn [rbind]. case_if; [done|]. by case_if.
Qed.

(** The outcome of a taproot spend: the verdict is known, or a leaf script is
    opened in a taproot context. *)
Definition taproot_opened (w : list bytes) (vm : Engine) (r : bool * Engine) : Prop :=
  if r.1 then r.2 = vm \/ exists ctx, r.2 = set_taprootCtx (Some ctx) vm
  else exists ctx, opened w (set_taprootCtx (Some ctx) vm) r.2.

Lemma verifyTapscript_wp program w ctx vm :
  Forall (fun e => bytes_ok e) w -> len (concat w) < 2 ^ 31 -> 2 <= len w ->
  len (stk (dstack vm)) < 2 ^ 31 -> version (cfg vm) = 0 ->
  wp (verifyTapscript program w ctx vm) (taproot_opened w vm).
Proof.
  intros Hw Hl H2 Hd Hv. unfold verifyTapscript.
  destruct (index_some w (len w - 1)) as [cb ->]; [lia|]. destruct (index_some w (len w - 2)) as [s Hs]; [lia|].
  rewrite Hs. simpl unwrap. cbn [rbind]. eapply wp_bind; [apply ParseControlBlock_wp|].
  intros k [kb Hk]. apply (wp_bind _ _ (fun _ => True)).
  { apply wp_intro; [|done]. by eapply VerifyTaprootLeafCommitment_no_panic. }
  intros _ _. assert (Hin : s ∈ w).
  { unfold index in Hs. destruct (_ <? 0); [done|]. by eapply list_elem_of_lookup_2. }
  assert (Hok : script_ok s).
  { pose proof (len_concat_elem _ _ Hin). split; [by apply (proj1 (Forall_forall _ _) Hw)|lia]. }
  apply (wp_bind _ _ (fun _ => True)).
  { apply wp_intro; [|done]. apply ScriptHasOpSuccess_no_panic; apply Hok. }
  intros [] _; [case_if; [done|]; right; by eexists|].
  case_if; [case_if; [done|]; right; by eexists|]. rewrite Hv.
  eapply wp_bind; [by apply checkScriptParses_wp|]. intros ? Hps.
  rewrite enter_script_spec by done. cbn [rbind]. eexists _, s, _. split; [done|]. by apply opens_prefix.
Qed.

Lemma len_concat_take n (w : list bytes) : len (concat (take n w)) <= len (concat w).
Proof.
  rewrite <- (take_drop n w) at 2. rewrite concat_app, len_app.
  pose proof (len_nonneg (concat (drop n w))). lia.
Qed.

Lemma opens_take n w s l : opens (take n w) s l -> opens w s l.
Proof.
  intros [? ? ? ? ?]. pose proof (len_concat_take n w). constructor; try done; [lia|].
  unfold len in *. rewrite length_take in *. lia.
Qed.

Lemma verifyTaproot_wp program w vm vm0 :
  Forall (fun e => bytes_ok e) w -> len (concat w) < 2 ^ 31 ->
  len (stk (dstack vm)) < 2 ^ 31 -> version (cfg vm) = 0 -> sig_env vm0 -> cfg vm = cfg vm0 ->
  wp (verifyTaproot program w vm) (taproot_opened w vm).
Proof.
  intros Hw Hl Hd Hv He Hcfg. unfold verifyTaproot. case_if; [by left|]. case_if; [done|].
  set (ctx0 := newTaprootExecutionCtx _).
  enough (Hgo : forall n ctx, 1 <= len (take n w) ->
    wp (let vm := set_taprootCtx (Some ctx) vm in
        if len (take n w) =? 1 then
          let! rawSig := unwrap (index (take n w) 0) in
          let! _ := VerifyTaprootKeySpend vm program rawSig in
          Ok (true, set_taprootCtx (Some (set_mustSucceed ctx)) vm)
        else verifyTapscript program (take n w) ctx vm) (taproot_opened w vm)).
  { case_if.
    - apply Hgo. unfold isAnnexedWitness in *. unfold len in *. rewrite length_take. bool_to_prop.
      case_match; bool_to_prop; unfold len in *; lia.
    - specialize (Hgo (length w) ctx0). rewrite firstn_all in Hgo. apply Hgo. pose proof (len_nonneg w). lia. }
  intros n ctx Hn. simpl. case_if.
  - destruct (index_some (take n w) 0) as [sig ->]; [lia|]. cbn [unwrap rbind].
    apply (wp_bind _ _ (fun _ => True)).
    { apply wp_intro; [|done]. rewrite (VerifyTaprootKeySpend_cfg vm0) by done. by apply VerifyTaprootKeySpend_no_panic. }
    intros _ _. right. by eexists.
  - eapply wp_mono.
    + apply verifyTapscript_wp; try done; [by apply Forall_take| |lia].
      pose proof (len_concat_take n w). lia.
    + intros [[] vm'] Hr; unfold taproot_opened in *; simpl in *.
      * right. destruct Hr as [->|[? ->]]; by eexists.
      * destruct Hr as (ctx' & s & l & -> & Hop). exists ctx', s, l. split; [done|]. by eapply opens_take.
Qed.

Lemma checkWitnessStack_wp vm :
  len (stk (dstack vm)) < 2 ^ 31 ->
  wp (checkWitnessStack vm) (fun vm' => vm' = vm
    /\ (isWitnessVersionActive vm BaseSegwitWitnessVersion || isWitnessVersionActive vm TaprootWitnessVersion = true ->
        Forall (fun e => len e <= 520) (stk (dstack vm)))).
Proof.
  intros Hd. unfold checkWitnessStack, GetStack. rewrite getStack_spec by done. cbn [rbind].
  assert (Hel : wp (if existsb (fun e => MaxScriptElementSize <? len e) (stk (dstack vm))
    then Err ErrElementTooBig else Ok (E := ErrorCode) vm)
    (fun vm' => vm' = vm /\ Forall (fun e => len e <= 520) (stk (dstack vm)))).
  { destruct (existsb _ _) eqn:Hex; [done|]. split; [done|]. apply Forall_forall. intros e He.
    apply Z.le_ngt. intros Hgt. assert (existsb (fun e => MaxScriptElementSize <? len e) (stk (dstack vm)) = true); [|congruence].
    apply existsb_exists. exists e. split; [by apply list_elem_of_In|]. by apply Z.ltb_lt. }
  destruct (isWitnessVersionActive vm TaprootWitnessVersion).
  { case_if; [done|]. eapply wp_mono; [exact Hel|]. intros ? [? ?]. auto. }
  destruct (isWitnessVersionActive vm BaseSegwitWitnessVersion); [|by split].
  eapply wp_mono; [exact Hel|]. intros ? [? ?]. auto.
Qed.

(** Nothing is opened, or a script with its stack. *)
Record unopened (vm vm' : Engine) : Prop := mkUnopened {
  un_cfg : cfg vm' = cfg vm;
  un_scripts : scripts vm' = scripts vm;
  un_idx : scriptIdx vm' = scriptIdx vm;
  un_saved : savedFirstStack vm' = savedFirstStack vm;
  un_dstack : dstack vm' = dstack vm;
  un_astack : astack vm' = astack vm;
  un_ops : numOps vm' = numOps vm;
  un_program : witnessProgram vm' = witnessProgram vm \/ witnessProgram vm' = None;
}.

Definition witness_opened (w : list bytes) (vm vm' : Engine) : Prop :=
  unopened vm vm'
  \/ exists ctx s l, vm' = add_script s l (set_taprootCtx ctx vm) /\ opens w s l /\ Forall elem_ok l
     /\ is_Some (witnessProgram vm)
     /\ ((ctx = taprootCtx vm /\ witnessVersion vm = BaseSegwitWitnessVersion)
         \/ (is_Some ctx /\ witnessVersion vm = TaprootWitnessVersion /\ bip16 (cfg vm) = false)).

Lemma isWitnessVersionActive_inv vm v :
  isWitnessVersionActive vm v = true -> is_Some (witnessProgram vm) /\ witnessVersion vm = v.
Proof.
  unfold isWitnessVersionActive, non_nil. destruct (witnessProgram vm); simpl; [|done].
  intros. bool_to_prop. split; [by eexists|done].
Qed.

Lemma opens_check w s l vm ctx :
  opens w s l -> len (concat w) + len w < 2 ^ 31 - 2000 ->
  isWitnessVersionActive vm BaseSegwitWitnessVersion || isWitnessVersionActive vm TaprootWitnessVersion = true ->
  wp (checkWitnessStack (add_script s l (set_taprootCtx ctx vm)))
    (fun vm' => vm' = add_script s l (set_taprootCtx ctx vm) /\ Forall elem_ok l).
Proof.
  intros Hop Hw Ha. pose proof (op_items _ _ _ Hop). pose proof (len_nonneg (concat w)).
  eapply wp_mono; [apply checkWitnessStack_wp; simpl; lia|]. intros vm' [-> Hel]. split; [done|].
  specialize (Hel Ha). simpl in Hel. pose proof (op_stack _ _ _ Hop) as Hst.
  rewrite Forall_forall in *. intros e He. split; auto.
Qed.

Lemma verifyWitnessProgram_wp w vm vm0 :
  bytes_ok (slice (witnessProgram vm)) -> Forall (fun e => bytes_ok e) w ->
  len (concat w) + len w < 2 ^ 31 - 2000 -> len (stk (dstack vm)) < 2 ^ 31 ->
  version (cfg vm) = 0 -> sig_env vm0 -> cfg vm = cfg vm0 ->
  wp (verifyWitnessProgram w vm) (witness_opened w vm).
Proof.
  intros Hp Hw Hl Hd Hv He Hcfg. unfold verifyWitnessProgram. pose proof (len_nonneg w).
  case_if.
  { eapply wp_bind; [apply verifyWitnessV0_wp; done || lia|]. intros vm1 (s & l & -> & Hop).
    assert (Hvm : vm = set_taprootCtx (taprootCtx vm) vm) by by destruct vm.
    rewrite Hvm at 1. eapply wp_mono; [apply (opens_check w); [done|done|by rewrite Heqb]|].
    intros vm' [-> Hel]. right. exists (taprootCtx vm), s, l.
    destruct (isWitnessVersionActive_inv _ _ Heqb). split_and!; auto. }
  case_if.
  { bool_to_prop. rename H0 into Ha. destruct (isWitnessVersionActive_inv _ _ Ha).
    eapply wp_bind; [eapply verifyTaproot_wp; try done; lia|]. intros [[] vm1] Hr; unfold taproot_opened in Hr; simpl in Hr.
    - left. destruct Hr as [->|[ctx ->]]; constructor; auto.
    - destruct Hr as (ctx & s & l & -> & Hop).
      eapply wp_mono; [by apply (opens_check w); [..|rewrite Ha, orb_true_r]|].
      intros vm' [-> Hel]. right. exists (Some ctx), s, l. split_and!; try done. right. split_and!; try done. }
  case_if; [done|]. eapply wp_mono; [by apply checkWitnessStack_wp|]. intros vm' [-> _]. left. constructor; auto.
Qed.

End Witness.

(** ** The invariant

    [inv vm tks]: the engine stands before the instructions [tks] of the current
    script. *)

Section Total.
Context `{D : DecimalOps} `{C : CurveOps} {CL : CurveLaws C}.
Context (c : EngineConfig) (ti : TxIn).

Definition items : Z := Z.max MaxStackSize (len (Witness ti)).
Definition wit_bytes : Z := len (concat (Witness ti)).

(** The engine was made for an input whose previous outputs and midstates are
    known and whose witness is a list of byte strings of less than 2 GB. *)
Record cfg_ok : Prop := mkCfgOk {
  co_version : version c = 0;
  co_in : index (TxIns (tx c)) (txIdx c) = Some ti;
  co_fetch : fetches_all (tx c) (prevOutFetcher c);
  co_cache : is_Some (hashCache c);
  co_witness : Forall (fun w => bytes_ok w) (Witness ti);
  co_size : wit_bytes + len (Witness ti) < 2 ^ 31 - 2000;
}.

Definition nosig_script (s : bytes) : Prop :=
  exists tks, s = enc_tokens tks /\ Forall wf_token tks /\ nosig tks.

(** A witness program of a later version whose taproot context is not set yet:
    until then no signature is checked.  The scripts are the push of the program,
    the output script and the program itself. *)
Definition nosig_phase (vm : Engine) (tks : list token) : Prop :=
  taprootCtx vm = None /\ nosig tks
  /\ ((scriptIdx vm = 0 /\ bip16 c = true /\ exists d, nosig_script d
        /\ ((exists op, tks = [mkToken op (Some d)] /\ stk (dstack vm) = [] /\ condStack vm = [])
            \/ (tks = [] /\ stk (dstack vm) = [d])))
      \/ (scriptIdx vm = 1 /\ (bip16 c = true -> exists d, savedFirstStack vm = [d] /\ nosig_script d))
      \/ scriptIdx vm = 2).

Record inv (vm : Engine) (tks : list token) : Prop := mkInv {
  i_cfg : cfg vm = c;
  i_scripts : Forall script_ok (scripts vm);
  i_shape : (scriptIdx vm = 0 /\ len (scripts vm) = 2)
            \/ (1 <= scriptIdx vm /\ scriptIdx vm = len (scripts vm) - 1);
  i_next : scriptIdx vm = 0 -> exists s, index (scripts vm) 1 = Some s /\ parses s
             /\ (bip16 c = true -> isScriptHashScript s = true);
  i_cur : index (scripts vm) (scriptIdx vm) = Some (tok_script (tokenizer vm));
  i_tok : tok_at (tokenizer vm) (enc_tokens tks);
  i_wf : Forall wf_token tks;
  i_stacks : stacks_ok items vm;
  i_ops : numOps vm <= MaxOpsPerScript;
  i_sep : 0 <= lastCodeSep vm <= tok_offset (tokenizer vm);
  i_saved : Forall elem_ok (savedFirstStack vm) /\ len (savedFirstStack vm) <= items;
  i_ctx : is_Some (taprootCtx vm) -> 2 <= scriptIdx vm /\ bip16 c = false;
  i_phase : has_verifier vm \/ nosig_phase vm tks;
  i_program : bytes_ok (slice (witnessProgram vm));
  i_p2sh : bip16 c = true -> scriptIdx vm = 1 -> savedFirstStack vm <> []
           \/ (stk (dstack vm) = [] /\ condStack vm = [] /\ exists l, tks = mkToken OP_HASH160 None :: l);
}.

(** Bytes still to be executed, at most. *)
Definition later (vm : Engine) : Z :=
  (if scriptIdx vm =? 0 then len (default [] (index (scripts vm) 1)) else 0)
  + (if bip16 c && (scriptIdx vm <=? 1) then 520 else 0)
  + (if (scriptIdx vm <=? 1) || ((scriptIdx vm =? 2) && bip16 c) then 25 + wit_bytes else 0).

Definition remaining (vm : Engine) (tks : list token) : Z := len (enc_tokens tks) + later vm.

Lemma inv_sig_env vm tks : cfg_ok -> inv vm tks -> sig_env vm.
Proof.
  intros Hc Hi. constructor; rewrite ?(i_cfg _ _ Hi); try apply Hc.
  - pose proof (co_in Hc) as H. unfold index in H. destruct (txIdx c <? 0) eqn:E; [done|].
    apply lookup_lt_Some in H. unfold len. bool_to_prop. lia.
  - exists (tok_script (tokenizer vm)). pose proof (i_tok _ _ Hi) as Ht. pose proof (tok_at_len _ _ Ht).
    pose proof (i_sep _ _ Hi). pose proof (len_nonneg (enc_tokens tks)).
    split_and!; [apply Hi|apply Ht|apply Ht|lia|lia].
Qed.

Lemma phase_step vm vm' tk tks :
  wf_token tk -> is_Some (taprootCtx vm') <-> is_Some (taprootCtx vm) ->
  scriptIdx vm' = scriptIdx vm -> savedFirstStack vm' = savedFirstStack vm ->
  witnessVersion vm' = witnessVersion vm -> witnessProgram vm' = witnessProgram vm ->
  (forall d, tk_data tk = Some d -> condStack vm = [] ->
     stk (dstack vm') = stk (dstack vm) ++ [d]) ->
  has_verifier vm \/ nosig_phase vm (tk :: tks) -> has_verifier vm' \/ nosig_phase vm' tks.
Proof.
  intros Hw Hx Hi Hs Hv Hp Hpush [H|(Hn & Hg & H)].
  - left. unfold has_verifier in *. rewrite Hv, Hp.
    destruct H as [[Hn H]|(Hn & H)]; [left|right; by rewrite Hx].
    split; [|done]. rewrite eq_None_not_Some, Hx, Hn. by intros [].
  - right. split_and!; [by rewrite eq_None_not_Some, Hx, Hn; intros []|by apply Forall_cons_iff in Hg as [_ ?]|].
    rewrite Hi, Hs. destruct H as [(H0 & Hb & d & Hd & [(op & Heq & Hst & Hcs)|[? _]])|H]; [|done|by right].
    left. split_and!; [done|done|]. exists d. split; [done|]. right. injection Heq as -> ->.
    split; [done|]. by rewrite (Hpush d eq_refl Hcs), Hst.
Qed.

Lemma items_small : cfg_ok -> items < 2 ^ 31 - 64.
Proof.
  intros Hc. pose proof (co_size Hc). pose proof (len_nonneg (concat (Witness ti))).
  unfold items, wit_bytes, MaxStackSize in *. lia.
Qed.

Lemma exec_stepped vm tk tks :
  cfg_ok -> inv vm (tk :: tks) ->
  let vm1 := set_tokenizer (tok_step (tokenizer vm) tk (len (enc_token tk))) vm in
  wp (executeOpcode (tk_op tk) (tk_data tk) vm1) (stepped (items + 3) vm1).
Proof.
  intros Hc Hi vm1. pose proof (i_wf _ _ Hi) as [Hw _]%Forall_cons_iff.
  pose proof (items_small Hc).
  apply executeOpcode_wp; [apply Hw|by apply wf_token_data|by apply wf_token_push|..|lia| | |apply Hi].
  - destruct (i_phase _ _ Hi) as [Hv|(_ & Hg & _)]; [by right|left].
    by apply Forall_cons_iff in Hg as [? _].
  - destruct (i_stacks _ _ Hi). by constructor.
  - destruct (inv_sig_env _ _ Hc Hi). by constructor.
Qed.

(** One instruction, up to the limit on the depth of the stacks. *)
Lemma exec_inv vm tk tks :
  cfg_ok -> inv vm (tk :: tks) ->
  let vm1 := set_tokenizer (tok_step (tokenizer vm) tk (len (enc_token tk))) vm in
  wp (executeOpcode (tk_op tk) (tk_data tk) vm1) (fun vm' =>
    stacks_ok (items + 3) vm' /\ later vm' = later vm
    /\ (stacks_ok items vm' -> inv (set_opcodeIdx (opcodeIdx vm' + 1) vm') tks)).
Proof.
  intros Hc Hi vm1. pose proof (exec_stepped vm tk tks Hc Hi) as Hwp.
  apply wp_intro; [by eapply wp_no_panic|]. intros vm' Hex.
  pose proof (wp_inv _ _ _ Hwp Hex) as [Hcfg Hsc Hidx _ Htok Hsv Hver Hprog Hst Hops Hsep Hctx].
  simpl in Hcfg, Hsc, Hidx, Htok, Hsv, Hver, Hprog, Hops, Hsep, Hctx.
  pose proof (i_wf _ _ Hi) as [Hw Hws]%Forall_cons_iff.
  assert (Hpush : forall d, tk_data tk = Some d -> condStack vm = [] -> stk (dstack vm') = stk (dstack vm) ++ [d]).
  { intros d Hd Hcs. destruct tk as [op o]. simpl in Hd. subst o. apply exec_push in Hex; [|done|done]. by rewrite Hex. }
  assert (Hhash : stk (dstack vm) = [] -> condStack vm = [] -> tk <> mkToken OP_HASH160 None).
  { intros Hs0 Hc0 ->. by apply exec_hash160_empty in Hex. }
  clear Hex Hwp. split; [done|]. split; [unfold later; by rewrite Hidx, Hsc|]. intros Hst'.
  pose proof (i_tok _ _ Hi) as Ht. rewrite enc_tokens_cons in Ht.
  pose proof (tok_at_len _ _ Ht) as Hl0. apply tok_at_step in Ht as Ht'.
  pose proof (tok_at_len _ _ Ht') as Hl1. change (tok_script (tok_step _ _ _)) with (tok_script (tokenizer vm)) in Hl1.
  rewrite len_app in Hl0. pose proof (enc_token_nonempty tk) as Hne. pose proof (i_sep _ _ Hi).
  assert (Hx : is_Some (taprootCtx vm') <-> is_Some (taprootCtx vm)).
  { destruct (taprootCtx vm'), (taprootCtx vm); try done; split; intros []; eauto. }
  constructor; simpl; rewrite ?Hcfg, ?Hsc, ?Hidx, ?Htok, ?Hsv, ?Hprog; try apply Hi; try done.
  - destruct Hst'. by constructor.
  - pose proof (i_ops _ _ Hi). lia.
  - simpl in *. lia.
  - rewrite Hx. apply Hi.
  - apply (phase_step vm _ tk tks); done || apply Hi.
  - intros Hb H1. destruct (i_p2sh _ _ Hi Hb H1) as [?|(Hs0 & Hc0 & l & [= -> ->])]; [by left|].
    by destruct Hhash.
Qed.

(** ** The hand-over between scripts *)

(** The engine after [advance_script]: the last script is to be run, if any. *)
Record entering (most : Z) (vm : Engine) : Prop := mkEntering {
  e_cfg : cfg vm = c;
  e_scripts : Forall script_ok (scripts vm);
  e_stacks : stacks_ok items vm;
  e_ops : numOps vm <= MaxOpsPerScript;
  e_saved : Forall elem_ok (savedFirstStack vm) /\ len (savedFirstStack vm) <= items;
  e_program : bytes_ok (slice (witnessProgram vm));
  e_next : len (scripts vm) <= scriptIdx vm
    \/ (1 <= scriptIdx vm /\ scriptIdx vm = len (scripts vm) - 1
        /\ (is_Some (taprootCtx vm) -> 2 <= scriptIdx vm /\ bip16 c = false)
        /\ exists tks, index (scripts vm) (scriptIdx vm) = Some (enc_tokens tks) /\ Forall wf_token tks
           /\ len (enc_tokens tks) + later vm <= most
           /\ (has_verifier vm \/ nosig_phase vm tks)
           /\ (bip16 c = true -> scriptIdx vm = 1 -> savedFirstStack vm <> []
               \/ (stk (dstack vm) = [] /\ condStack vm = [] /\ exists l, tks = mkToken OP_HASH160 None :: l)));
}.

Definition entered (most : Z) (r : bool * Engine) : Prop :=
  stacks_ok items r.2
  /\ (r.1 = false -> exists tks, inv r.2 tks /\ tks <> [] /\ remaining r.2 tks <= most).

Definition start_script (vm : Engine) : outcome (bool * Engine) :=
  let vm := set_lastCodeSep 0 (skip_empty vm) in
  if len (scripts vm) <=? scriptIdx vm then Ok (true, vm)
  else
    let! script := unwrap (index (scripts vm) (scriptIdx vm)) in
    Ok (false, set_tokenizer (MakeScriptTokenizer (version (cfg vm)) script) vm).

Lemma next_script_start vm :
  next_script vm = (let! vm := end_script vm in let! vm := advance_script vm in start_script vm).
Proof. done. Qed.

Lemma start_script_wp most vm : cfg_ok -> entering most vm -> wp (start_script vm) (entered most).
Proof.
  intros Hc [Hcfg Hsc [Hd Ha Hl] Hops Hsv Hpr [Hdone|(Hi1 & Hi & Hx & tks & Hcur & Hw & Hm & Hp & Hp2)]].
  - assert (Hs : index (scripts vm) (scriptIdx vm) = None).
    { unfold index. case_if; [done|]. apply lookup_ge_None. unfold len in *. bool_to_prop. lia. }
    unfold start_script, skip_empty. rewrite Hs. simpl. z_test. by split.
  - unfold start_script, skip_empty. rewrite Hcur. destruct tks as [|tk tks].
    { simpl. z_test. by split. }
    destruct (enc_tokens (tk :: tks)) as [|b r] eqn:Henc.
    { by apply (f_equal len), enc_tokens_empty in Henc. }
    cbn [set_lastCodeSep scripts scriptIdx cfg]. rewrite Hcur. z_test. cbn [unwrap rbind].
    split; [by constructor|]. intros _. exists (tk :: tks). rewrite Hcfg, (co_version Hc), <- Henc in *.
    split_and!; [|done|done].
    assert (Hok : script_ok (enc_tokens (tk :: tks))).
    { by eapply index_Forall. }
    constructor; try done; [by right|intros H0; simpl in H0; lia|apply tok_at_start; apply Hok].
Qed.

Lemma stack_small vm tks : cfg_ok -> inv vm tks -> len (stk (dstack vm)) < 2 ^ 31 - 64 /\ len (stk (astack vm)) < 2 ^ 31 - 64.
Proof.
  intros Hc Hi. pose proof (items_small Hc). destruct (i_stacks _ _ Hi) as [_ _ Hl].
  pose proof (len_nonneg (stk (dstack vm))). pose proof (len_nonneg (stk (astack vm))). lia.
Qed.

Lemma end_script_wp vm :
  cfg_ok -> inv vm [] ->
  wp (end_script vm) (fun vm' => inv vm' [] /\ condStack vm' = [] /\ stk (astack vm') = [] /\ later vm' = later vm).
Proof.
  intros Hc Hi. unfold end_script, drop_all. case_if; [done|].
  destruct (stack_small _ _ Hc Hi). rewrite DropN_all by lia. cbn [rbind].
  assert (Hcs : condStack vm = []) by by apply len_0.
  split; [|done]. destruct Hi as [? ? ? ? ? ? ? [? ? ?] ? ? ? ? ? ? ?].
  constructor; try done. constructor; simpl; [done|constructor|change (len (@nil bytes)) with 0; pose proof (len_nonneg (stk (astack vm))); lia].
Qed.

Lemma CheckErrorCondition_wp b vm :
  Forall elem_ok (stk (dstack vm)) -> len (stk (dstack vm)) < 2 ^ 31 - 64 ->
  wp (CheckErrorCondition b vm) (fun vm' => exists s, vm' = set_dstack s vm /\ len (stk s) <= len (stk (dstack vm))).
Proof.
  intros He Hl. unfold CheckErrorCondition. case_if; [exists (dstack vm); by destruct vm|].
  do 4 (case_if; [done|]).
  eapply wp_bind; [apply (PopBool_wp (verifyMinimalData (dstack vm)) (len (stk (dstack vm)))); [lia|by constructor]|].
  intros [[] s] [_ Hs _]; [|done]. exists s. split; [done|lia].
Qed.

(** A script is opened as the last one. *)
Lemma add_script_entering most vm s l tks :
  cfg vm = c -> Forall script_ok (scripts vm) -> numOps vm <= MaxOpsPerScript ->
  Forall elem_ok (savedFirstStack vm) /\ len (savedFirstStack vm) <= items ->
  bytes_ok (slice (witnessProgram vm)) -> stk (astack vm) = [] ->
  2 <= scriptIdx vm -> scriptIdx vm = len (scripts vm) ->
  (is_Some (taprootCtx vm) -> bip16 c = false) ->
  s = enc_tokens tks -> Forall wf_token tks -> script_ok s -> Forall elem_ok l -> len l <= items ->
  len s + later vm <= most ->
  has_verifier vm \/ nosig_phase vm tks ->
  entering most (add_script s l vm).
Proof.
  intros Hcfg Hsc Hops Hsv Hpr Ha H2 Hidx Hx -> Hw Hs Hl Hll Hm Hph.
  pose proof (len_nonneg (scripts vm)).
  constructor; try done; simpl.
  - apply Forall_app. split; [done|by constructor].
  - constructor; simpl; [done|rewrite Ha; constructor|rewrite Ha; change (len (@nil bytes)) with 0; lia].
  - right. rewrite len_app. change (len [enc_tokens tks]) with 1.
    split; [lia|]. split; [lia|]. split; [auto|]. exists tks. split.
    + unfold index. z_test. rewrite Hidx. unfold len. rewrite Nat2Z.id. by apply list_lookup_middle.
    + split; [done|]. split; [revert Hm; unfold later; simpl; rewrite Hidx; z_test; done|].
      split; [|lia]. destruct Hph as [Hph|(Hn & Hg & Hph)]; [by left|right]. split_and!; try done.
      right. right. simpl. destruct Hph as [[H0 _]|[[H1 _]|?]]; [lia|lia|done].
Qed.

(** From the signature script to the output script. *)
Lemma output_entering vm saved :
  cfg_ok -> inv vm [] -> condStack vm = [] -> scriptIdx vm = 0 ->
  Forall elem_ok saved /\ len saved <= items -> (bip16 c = true -> saved = stk (dstack vm)) ->
  entering (later vm) (set_savedFirstStack saved (set_scriptIdx 1 vm)).
Proof.
  intros Hc Hi Hcs H0 Hsv Hb. destruct (i_next _ _ Hi H0) as (s & Hs & (tks & Henc & Hw) & Hsh).
  destruct (i_shape _ _ Hi) as [[_ Hlen]|[? _]]; [|lia].
  assert (Hsok : bytes_ok s) by apply (index_Forall script_ok _ _ _ (i_scripts _ _ Hi) Hs).
  assert (Hp2sh : bip16 c = true -> exists h, tks = [mkToken OP_HASH160 None; mkToken OP_DATA_20 (Some h); mkToken OP_EQUAL None]).
  { intros Hb'. destruct (script_hash_tokens s Hsok (Hsh Hb')) as (h & Hh & Hwh). exists h.
    apply enc_tokens_inj; [done|done|congruence]. }
  destruct (i_stacks _ _ Hi). constructor; try apply Hi; try done; simpl. right. split; [lia|]. split; [lia|].
  split; [intros Hx; apply (i_ctx _ _ Hi) in Hx as [? _]; exfalso; lia|]. exists tks. split_and!; [by rewrite Hs, Henc|done|..].
  - unfold later. simpl. rewrite H0, Hs. simpl. rewrite Henc. destruct (bip16 c); simpl; lia.
  - destruct (i_phase _ _ Hi) as [Hv|(Hn & _ & Hph)]; [by left|right].
    destruct Hph as [(_ & Hb' & d & Hd & [(op & ? & _)|[_ Hst]])|[[? _]|?]]; [done| |lia|lia].
    destruct (Hp2sh Hb') as [h ->]. split_and!; [done|by repeat constructor|].
    right. left. split; [done|]. intros _. exists d. by rewrite <- Hst, <- Hb.
  - intros Hb' _. destruct (Hp2sh Hb') as [h ->]. rewrite (Hb Hb').
    destruct (stk (dstack vm)); [right|by left]. eauto.
Qed.

(** From the output script to the redeem script. *)
Lemma redeem_entering vm :
  cfg_ok -> inv vm [] -> stk (astack vm) = [] -> scriptIdx vm = 1 -> bip16 c = true ->
  wp (enter_redeem (set_scriptIdx 2 vm)) (entering (later vm)).
Proof.
  intros Hc Hi Ha H1 Hb. destruct (i_shape _ _ Hi) as [[? _]|[_ Hlen]]; [lia|].
  assert (Hne : savedFirstStack vm <> []).
  { by destruct (i_p2sh _ _ Hi Hb H1) as [?|(_ & _ & l & ?)]. }
  destruct (i_saved _ _ Hi) as [Hsv Hsl]. destruct (stack_small _ _ Hc Hi). unfold enter_redeem.
  eapply wp_bind; [apply CheckErrorCondition_wp; simpl; [apply (so_d _ _ (i_stacks _ _ Hi))|lia]|].
  intros vm1 (s1 & Heq & Hl1). simpl in Hl1. assert (Hsv1 : savedFirstStack vm1 = savedFirstStack vm) by by rewrite Heq.
  assert (Hcfg1 : cfg vm1 = c) by (rewrite Heq; apply Hi). rewrite Hsv1, Hcfg1, (co_version Hc).
  destruct (last_of (savedFirstStack vm)) as [s|] eqn:Hlast; [|by apply last_None in Hlast]. cbn [unwrap rbind].
  assert (Hel : elem_ok s) by (rewrite Forall_forall in Hsv; apply Hsv, last_Some_elem_of, Hlast).
  assert (Hs : script_ok s) by (destruct Hel; split; [done|lia]).
  eapply wp_bind; [by apply checkScriptParses_wp|]. intros ? (tks & Henc & Hw).
  rewrite enter_script_spec by (rewrite Heq; simpl; lia). rewrite Heq. cbn [wp].
  apply (add_script_entering _ _ _ _ tks); try apply Hi; try done; simpl; [lia|..].
  - by apply Forall_take.
  - unfold len in *. rewrite length_take. lia.
  - unfold later. simpl. rewrite H1, Hb. simpl. destruct Hel. lia.
  - destruct (i_phase _ _ Hi) as [Hv|(Hn & _ & Hph)]; [by left|right].
    destruct Hph as [[? _]|[[_ Hph]|?]]; [lia| |lia].
    destruct (Hph Hb) as (d & Hd & tks' & -> & Hw' & Hg). rewrite Hd in Hlast. injection Hlast as <-.
    apply enc_tokens_inj in Henc as <-; [|done|done]. split_and!; [done|done|]. by right; right.
Qed.

(** No script is left. *)
Lemma finished_entering vm vm' :
  inv vm [] -> 1 <= scriptIdx vm -> unopened (set_scriptIdx (scriptIdx vm + 1) vm) vm' ->
  entering (later vm) vm'.
Proof.
  intros Hi H1 [Hcfg Hsc Hidx Hsv Hd Ha Hops Hpr]. simpl in *.
  destruct (i_shape _ _ Hi) as [[? _]|[_ Hlen]]; [lia|]. destruct (i_stacks _ _ Hi).
  constructor; rewrite ?Hcfg, ?Hsc, ?Hops, ?Hsv; try apply Hi; [| |left; lia].
  - constructor; by rewrite ?Hd, ?Ha.
  - destruct Hpr as [-> | ->]; [apply Hi|constructor].
Qed.

(** From the output script, or the redeem script, to the witness script. *)
Lemma witness_entering vm :
  cfg_ok -> inv vm [] -> stk (astack vm) = [] ->
  (scriptIdx vm = 1 /\ bip16 c = false) \/ (scriptIdx vm = 2 /\ bip16 c = true) ->
  wp (verifyWitnessProgram (Witness ti) (set_scriptIdx (scriptIdx vm + 1) vm)) (entering (later vm)).
Proof.
  intros Hc Hi Ha Hidx. destruct (stack_small _ _ Hc Hi). pose proof (inv_sig_env _ _ Hc Hi) as He.
  pose proof (co_size Hc) as Hsz. pose proof (len_nonneg (Witness ti)). unfold wit_bytes in Hsz.
  destruct (i_shape _ _ Hi) as [[? _]|[_ Hlen]]; [lia|].
  eapply wp_mono.
  { apply (verifyWitnessProgram_wp _ _ vm); try done; simpl; rewrite ?(i_cfg _ _ Hi); try apply Hi; try apply Hc; lia. }
  intros vm' [Ho|(ctx & s & l & -> & Hop & Hel & Hpr & Hv)]; [apply finished_entering; done || lia|].
  simpl in *. destruct (op_parses _ _ _ Hop) as (tks & Henc & Hw). pose proof (op_items _ _ _ Hop).
  rewrite (i_cfg _ _ Hi) in Hv.
  assert (Hx : taprootCtx vm = None).
  { destruct (taprootCtx vm) eqn:Hx; [|done]. destruct (i_ctx _ _ Hi); [by rewrite Hx|].
    destruct Hidx as [[? _]|[_ ?]]; [lia|congruence]. }
  apply (add_script_entering _ _ _ _ tks); try apply Hi; try apply Hop; try done; simpl; [lia|lia|..].
  - rewrite Hx in Hv. intros [? ->]. destruct Hv as [[? _]|(_ & _ & ?)]; done.
  - unfold items. lia.
  - pose proof (op_size _ _ _ Hop). unfold later, wit_bytes. simpl.
    destruct Hidx as [[-> ->]|[-> ->]]; simpl; lia.
  - left. unfold has_verifier. simpl. rewrite Hx in Hv.
    destruct Hv as [[-> ?]|(? & ? & _)]; [left|right]; auto.
Qed.

Lemma advance_script_wp vm :
  cfg_ok -> inv vm [] -> condStack vm = [] -> stk (astack vm) = [] ->
  wp (advance_script vm) (entering (later vm)).
Proof.
  intros Hc Hi Hcs Ha. unfold advance_script. rewrite (i_cfg _ _ Hi).
  destruct (stack_small _ _ Hc Hi) as [Hd _]. destruct (i_stacks _ _ Hi) as [Hel _ Hlen].
  pose proof (len_nonneg (stk (astack vm))).
  destruct (Z.eqb_spec (scriptIdx vm) 0) as [H0|H0].
  - rewrite H0. destruct (bip16 c) eqn:Hb; cbn [andb orb Z.eqb].
    + unfold GetStack. cbn [set_scriptIdx dstack]. rewrite getStack_spec by lia. cbn [rbind wp].
      apply output_entering; try done. split; [done|lia].
    + replace (set_scriptIdx (0 + 1) vm) with (set_savedFirstStack (savedFirstStack vm) (set_scriptIdx 1 vm)) by by destruct vm.
      apply output_entering; try done; [apply Hi|congruence].
  - assert (H1 : 1 <= scriptIdx vm) by (destruct (i_shape _ _ Hi); lia). cbn [andb].
    assert (Hdone : wp (Ok (E := ErrorCode) (set_scriptIdx (scriptIdx vm + 1) vm)) (entering (later vm))).
    { apply finished_entering; [done|done|]. constructor; auto. }
    assert (Hwit : (scriptIdx vm = 1 /\ bip16 c = false) \/ (scriptIdx vm = 2 /\ bip16 c = true) ->
      wp (let! txIn := currentTxIn (set_scriptIdx (scriptIdx vm + 1) vm) in
          verifyWitnessProgram (Witness txIn) (set_scriptIdx (scriptIdx vm + 1) vm)) (entering (later vm))).
    { intros Hs. unfold currentTxIn. cbn [set_scriptIdx cfg]. rewrite (i_cfg _ _ Hi), (co_in Hc).
      cbn [unwrap rbind]. by apply witness_entering. }
    destruct (Z.eqb_spec (scriptIdx vm) 1) as [H1'|H1']; destruct (bip16 c) eqn:Hb; cbn [andb orb].
    + rewrite H1'. by apply redeem_entering.
    + rewrite andb_false_r, orb_false_r. case_if; [apply Hwit; auto|by apply Hdone].
    + rewrite andb_true_r. case_if; [bool_to_prop; apply Hwit; auto|by apply Hdone].
    + rewrite andb_false_r. by apply Hdone.
Qed.

Lemma next_script_wp vm : cfg_ok -> inv vm [] -> wp (next_script vm) (entered (later vm)).
Proof.
  intros Hc Hi. rewrite next_script_start.
  eapply wp_bind; [by apply end_script_wp|]. intros vm1 (Hi1 & Hcs & Ha & Hl).
  eapply wp_bind; [by apply advance_script_wp|]. intros vm2 He. rewrite <- Hl. by apply start_script_wp.
Qed.

(** ** A step *)

Lemma Step_wp vm tk tks :
  cfg_ok -> inv vm (tk :: tks) -> wp (Step vm) (entered (remaining vm (tk :: tks) - 1)).
Proof.
  intros Hc Hi. unfold Step, checkValidPC.
  pose proof (i_wf _ _ Hi) as [Hw _]%Forall_cons_iff. pose proof (enc_token_nonempty tk) as Hne.
  assert (Hpc : scriptIdx vm < len (scripts vm)) by (destruct (i_shape _ _ Hi); lia). z_test. cbn [rbind].
  rewrite (Next_token _ tk (enc_tokens tks)) by (done || apply Hi). cbn [rbind negb].
  unfold ScriptTokenizer_Opcode, ScriptTokenizer_Data. simpl tok_op. simpl tok_data. cbn [unwrap rbind].
  eapply wp_bind; [by apply exec_inv|]. intros vm' ([Hd Ha Hl] & Hlat & Hinv).
  pose proof (items_small Hc). pose proof (len_nonneg (stk (dstack vm'))). pose proof (len_nonneg (stk (astack vm'))).
  rewrite !depth_len, int32_id by (lia || (unfold is_int32; lia)). case_if; [done|].
  assert (Hst : stacks_ok items vm') by (constructor; [done|done|unfold items; bool_to_prop; lia]).
  specialize (Hinv Hst). pose proof (tok_at_Done _ _ (i_tok _ _ Hinv)) as Hdone.
  cbn [set_opcodeIdx tokenizer] in *. rewrite Hdone. unfold remaining. rewrite enc_tokens_cons, len_app, <- Hlat. case_if.
  - bool_to_prop. apply enc_tokens_empty in Heqb0 as ->. eapply wp_mono; [by apply next_script_wp|].
    intros r [Hs Hr]. split; [done|]. intros Hf. destruct (Hr Hf) as (tks & Hi' & Hn & Hle). exists tks.
    split_and!; try done. unfold remaining in *. change (later (set_opcodeIdx _ vm')) with (later vm') in Hle.
    change (len (enc_tokens [])) with 0. lia.
  - split; [destruct Hst; by constructor|]. intros _. exists tks. split_and!; [done|by intros ->|].
    unfold remaining, later. cbn [set_opcodeIdx scriptIdx scripts snd]. lia.
Qed.

(** ** The loop *)

Lemma later_nonneg vm : 0 <= later vm.
Proof.
  unfold later. pose proof (len_nonneg (default [] (index (scripts vm) 1))).
  pose proof (len_nonneg (concat (Witness ti))). unfold wit_bytes. repeat case_match; lia.
Qed.

Lemma execute_loop_total fuel vm tks :
  cfg_ok -> inv vm tks -> tks <> [] -> remaining vm tks <= Z.of_nat fuel ->
  exists r, execute_loop fuel vm = Some r /\ wp r (stacks_ok items).
Proof.
  intros Hc. revert vm tks. induction fuel as [|fuel IH]; intros vm tks Hi Hne Hrem;
    (destruct tks as [|tk tks]; [done|]).
  - exfalso. pose proof (enc_token_nonempty tk). pose proof (later_nonneg vm).
    pose proof (len_nonneg (enc_tokens tks)). unfold remaining in Hrem.
    rewrite enc_tokens_cons, len_app in Hrem. lia.
  - pose proof (Step_wp vm tk tks Hc Hi) as Hs. simpl.
    destruct (Step vm) as [[[] vm']|e|]; [| |by eexists|done].
    + eexists. split; [done|]. apply Hs.
    + destruct Hs as [_ Hs]. destruct (Hs eq_refl) as (tks' & Hi' & Hne' & Hle). simpl in *.
      apply (IH vm' tks' Hi' Hne'). lia.
Qed.

Lemma Execute_inv fuel vm tks :
  cfg_ok -> inv vm tks -> tks <> [] -> remaining vm tks <= Z.of_nat fuel ->
  exists r, Execute fuel vm = Some r /\ no_panic r.
Proof.
  intros Hc Hi Hne Hf. unfold Execute. rewrite (i_cfg _ _ Hi), (co_version Hc). simpl.
  destruct (execute_loop_total fuel vm tks Hc Hi Hne Hf) as (r & -> & Hr). eexists. split; [done|].
  pose proof (items_small Hc). apply rbind_no_panic; [by eapply wp_no_panic|]. intros vm' ->. destruct Hr as [Hd Ha Hl].
  pose proof (len_nonneg (stk (astack vm'))).
  apply rbind_no_panic; [|done]. eapply wp_no_panic, CheckErrorCondition_wp; [done|lia].
Qed.

End Total.

(** ** Creation *)

Section Creation.
Context `{D : DecimalOps} `{C : CurveOps} {CL : CurveLaws C}.

Lemma checkScript_inv s : bytes_ok s -> checkScript s = Ok tt -> script_ok s /\ parses s.
Proof.
  unfold checkScript. intros Hs. case_if; [done|]. intros Hc. unfold MaxScriptSize in *.
  assert (Hok : script_ok s) by (split; [done|lia]). split; [done|]. by apply checkScriptParses_parses.
Qed.

Lemma ExtractWitnessProgramInfo_inv s v p :
  ExtractWitnessProgramInfo s = Ok (v, p) -> extractWitnessProgramInfo (E := ErrorCode) s = Ok (v, p, true).
Proof.
  unfold ExtractWitnessProgramInfo. destruct (extractWitnessProgramInfo s) as [[[v' p'] []]| |]; simpl; try done.
  by intros [= -> ->].
Qed.

(** Where the witness program comes from. *)
Lemma findWitnessProgram_inv scriptSig scriptPubKey witness b r :
  findWitnessProgram scriptSig scriptPubKey witness b = Ok r ->
  r = None \/ exists v p s, r = Some (v, p) /\ extractWitnessProgramInfo (E := ErrorCode) s = Ok (v, p, true)
    /\ ((s = scriptPubKey /\ scriptSig = []) \/ (b = true /\ exists op, scriptSig = op :: s)).
Proof.
  unfold findWitnessProgram. intros H. inv_bind H. inv_bind H.
  destruct a0 as [s|]; [|left; destruct (negb (len witness =? 0)); by simplify_eq].
  inv_bind H. injection H as <-. destruct a0 as [v p]. apply ExtractWitnessProgramInfo_inv in Hr1.
  right. exists v, p, s. split_and!; [done|done|]. destruct a.
  - destruct (negb (len scriptSig =? 0)) eqn:Hl; [done|]. injection Hr0 as ->. left. split; [done|].
    apply len_0. by bool_to_prop.
  - destruct (negb _ && b) eqn:Hb; [|done]. bool_to_prop. right. split; [done|].
    destruct scriptSig as [|op d]; [done|]. destruct (_ && _); [|done]. inv_bind Hr0.
    destruct a; [|done]. injection Hr0 as ->. by exists op.
Qed.

Lemma witness_program_nosig s v p :
  script_ok s -> extractWitnessProgramInfo (E := ErrorCode) s = Ok (v, p, true) ->
  nosig_script s /\ bytes_ok (slice p) /\ isScriptHashScript s = false.
Proof.
  intros Hs Hp. destruct (witness_program_tokens s v p Hs Hp) as (op & op2 & d & Hs' & Hw & Hop & _ & -> & H2).
  pose proof Hw as [_ [Hw2 _]%Forall_cons_iff]%Forall_cons_iff. split_and!.
  - eexists. split; [done|]. split; [done|]. constructor; [|constructor; [|constructor]]; unfold is_checksig; simpl.
    + unfold IsSmallInt in Hop. destruct (orb_prop _ _ Hop); bool_to_prop; z_test; done.
    + z_test. done.
  - by apply (wf_token_data (mkToken op2 (Some d))).
  - destruct (isScriptHashScript s) eqn:Hh; [|done]. apply script_hash_tokens in Hh as (h & Hh & Hwh); [|apply Hs].
    by rewrite Hs' in Hh; apply enc_tokens_inj in Hh.
Qed.

(** The new engine. *)
Definition initial (scriptSig scriptPubKey : bytes) (c : EngineConfig) (minimal : bool)
    (program : option (Z * option bytes)) : Engine :=
  let idx := if len scriptSig =? 0 then 1 else 0 in
  {| cfg := c; scripts := [scriptSig; scriptPubKey]; scriptIdx := idx; opcodeIdx := 0; lastCodeSep := 0;
     tokenizer := MakeScriptTokenizer 0 (if idx =? 1 then scriptPubKey else scriptSig);
     savedFirstStack := []; dstack := mkStack [] minimal; astack := mkStack [] minimal;
     condStack := []; numOps := 0;
     witnessVersion := match program with Some (v, _) => v | None => 0 end;
     witnessProgram := match program with Some (_, p) => p | None => None end;
     taprootCtx := None |}.

Lemma NewEngine_inv pk tx idx flags sc hc amt assets fetcher vm :
  NewEngine pk tx idx flags sc hc amt assets fetcher = Ok vm ->
  exists ti b minimal program,
    index (TxIns tx) idx = Some ti
    /\ vm = initial (SignatureScript ti) pk (mkEngineConfig flags tx idx 0 b sc hc fetcher amt assets) minimal program
    /\ (b = true -> isScriptHashScript pk = true)
    /\ (SignatureScript ti = [] -> pk <> [])
    /\ checkScript (SignatureScript ti) = Ok tt /\ checkScript pk = Ok tt
    /\ (program = None \/ findWitnessProgram (SignatureScript ti) pk (Witness ti) b = Ok program)
    /\ (Z.land flags ScriptVerifyWitness = ScriptVerifyWitness ->
        findWitnessProgram (SignatureScript ti) pk (Witness ti) b = Ok program).
Proof.
  unfold NewEngine. intros H. destruct (_ || _); [done|]. inv_bind H.
  destruct (index (TxIns tx) idx) as [ti|] eqn:Hti; [|done]. injection Hr as <-.
  destruct ((len (SignatureScript ti) =? 0) && (len pk =? 0)) eqn:Hne; [done|].
  destruct (_ && (_ && _)); [done|]. inv_bind H. destruct (_ && negb a); [done|].
  destruct (_ && negb a); [done|]. inv_bind H. inv_bind H. inv_bind H. inv_bind H.
  destruct a0, a1. injection H as <-.
  eexists ti, _, _, a2. split_and!; [done| | | |done|done| |].
  - unfold initial. f_equal. f_equal. destruct (len (SignatureScript ti) =? 0); by injection Hr3 as <-.
  - intros Hb. by bool_to_prop.
  - intros Hs ->. by rewrite Hs in Hne.
  - destruct (_ =? _) in Hr2; [|left; by injection Hr2 as <-].
    destruct (negb _) in Hr2; [done|]. by right.
  - intros Hw. rewrite Hw, Z.eqb_refl in Hr2. destruct (negb _) in Hr2; [done|exact Hr2].
Qed.

(** The signature script is one push by its length. *)
Definition exact_push (scriptSig : bytes) : Prop :=
  match scriptSig with
  | op :: data => op = len data
  | [] => True
  end.

Definition program_source (scriptSig pk : bytes) (b : bool) (program : option (Z * option bytes)) : Prop :=
  program = None \/ exists v p s, program = Some (v, p) /\ extractWitnessProgramInfo (E := ErrorCode) s = Ok (v, p, true)
    /\ ((s = pk /\ scriptSig = []) \/ (b = true /\ exists op, scriptSig = op :: s)).

Lemma exact_push_tokens op s v p tks :
  script_ok (op :: s) -> extractWitnessProgramInfo (E := ErrorCode) s = Ok (v, p, true) ->
  exact_push (op :: s) -> op :: s = enc_tokens tks -> Forall wf_token tks -> tks = [mkToken op (Some s)].
Proof.
  intros [Hok Hl] Hp Hex Heq Hw. simpl in Hex. apply Forall_cons_iff in Hok as [Hop Hok].
  assert (Hlen : 4 <= len s <= 42).
  { unfold extractWitnessProgramInfo in Hp. destruct (_ || _) eqn:E; [done|]. bool_to_prop. lia. }
  assert (Hc : opcode_length op = op + 1) by (pose proof (opcode_length_cases op); lia).
  apply enc_tokens_inj; [done|constructor; [|constructor]|].
  - unfold wf_token. simpl. rewrite Hc. split_and!; [done|done|]. left. lia.
  - rewrite <- Heq. unfold enc_tokens, enc_token. simpl. rewrite Hc. z_test. by rewrite app_nil_r.
Qed.

Lemma initial_phase scriptSig pk c minimal program tks :
  script_ok scriptSig -> script_ok pk -> (bip16 c = true -> isScriptHashScript pk = true) ->
  program_source scriptSig pk (bip16 c) program ->
  let vm := initial scriptSig pk c minimal program in
  witnessVersion vm = 0 \/ exact_push scriptSig ->
  tok_script (tokenizer vm) = enc_tokens tks -> Forall wf_token tks ->
  bytes_ok (slice (witnessProgram vm)) /\ (has_verifier vm \/ nosig_phase c vm tks).
Proof.
  intros Hs Hpk Hb Hsrc vm Hex Htk Hw. destruct Hsrc as [->|(v & p & s & -> & Hp & Hsrc)].
  { split; [constructor|]. left. left. split; [done|by left]. }
  assert (Hsok : script_ok s).
  { destruct Hsrc as [[-> _]|(_ & op & ->)]; [done|]. destruct Hs as [[_ ?]%Forall_cons_iff Hl].
    split; [done|]. rewrite len_cons in Hl. lia. }
  destruct (witness_program_nosig s v p Hsok Hp) as ((tks' & Henc & Hw' & Hg) & Hpok & Hnh).
  split; [done|]. destruct (Z.eq_dec v 0) as [->|Hv]; [left; left; split; [done|by right]|].
  right. destruct Hsrc as [[-> ->]|(Hb' & op & ->)].
  - simpl in Htk. rewrite Henc in Htk. apply enc_tokens_inj in Htk as <-; [|done|done].
    split_and!; [done|done|]. right. left. split; [done|]. intros Hb'. by rewrite (Hb Hb') in Hnh.
  - destruct Hex as [?|Hex]; [done|]. unfold vm, initial in Htk. rewrite len_cons in Htk.
    pose proof (len_nonneg s). revert Htk. simpl. z_test. intros Htk.
    pose proof (exact_push_tokens _ _ _ _ _ Hs Hp Hex Htk Hw) as ->.
    split_and!; [done|constructor; [|constructor]|left].
    + unfold is_checksig. simpl in *. apply orb_false_iff. apply Forall_cons_iff in Hw as [Hw _].
      apply (wf_data_op _ s) in Hw; [|done]. simpl in Hw. split; apply Z.eqb_neq; lia.
    + split_and!; [done|done|]. exists s.
      split; [by exists tks'|]. left. by exists op.
Qed.

Lemma initial_inv scriptSig pk c ti minimal program :
  cfg_ok c ti -> script_ok scriptSig -> script_ok pk -> parses scriptSig -> parses pk ->
  (scriptSig = [] -> pk <> []) -> (bip16 c = true -> isScriptHashScript pk = true) ->
  program_source scriptSig pk (bip16 c) program ->
  let vm := initial scriptSig pk c minimal program in
  witnessVersion vm = 0 \/ exact_push scriptSig ->
  exists tks, inv c ti vm tks /\ tks <> []
    /\ remaining c ti vm tks <= len scriptSig + len pk + 545 + wit_bytes ti.
Proof.
  intros Hc Hs Hpk Hps Hppk Hne Hb Hsrc vm Hex.
  assert (Hcur : exists tks, tok_script (tokenizer vm) = enc_tokens tks /\ Forall wf_token tks /\ tks <> []
    /\ len (enc_tokens tks) + later c ti vm <= len scriptSig + len pk + 545 + wit_bytes ti
    /\ tok_script (tokenizer vm) = (if scriptIdx vm =? 0 then scriptSig else pk)
    /\ (scriptIdx vm = 0 \/ scriptIdx vm = 1)).
  { unfold vm, initial, later. simpl. pose proof (len_nonneg (concat (Witness ti))) as Hwb. fold (wit_bytes ti) in Hwb.
    destruct (Z.eqb_spec (len scriptSig) 0) as [H0|H0]; simpl.
    - apply len_0 in H0 as ->. destruct Hppk as (tks & -> & Hw). exists tks.
      split_and!; try done; [intros ->; by apply Hne| |by right]. change (len (@nil Z)) with 0. case_match; lia.
    - destruct Hps as (tks & -> & Hw). exists tks.
      split_and!; try done; [by intros ->| |by left]. case_match; lia. }
  destruct Hcur as (tks & Htk & Hw & Htne & Hrem & Hscr & Hidx). exists tks. split_and!; [|done|done].
  destruct (initial_phase scriptSig pk c minimal program tks) as [Hpok Hph]; try done. fold vm in Hpok, Hph.
  assert (Hok : script_ok (tok_script (tokenizer vm))) by (rewrite Hscr; by case_match).
  constructor; try done.
  - constructor; [done|constructor; [done|constructor]].
  - destruct Hidx as [H|H]; [by left|right]. rewrite H. split; [lia|done].
  - intros _. by exists pk.
  - rewrite Hscr. by destruct Hidx as [-> | ->].
  - rewrite <- Htk. apply tok_at_start; apply Hok.
  - constructor; [constructor|constructor|]. unfold items. change (len (stk (dstack vm)) + len (stk (astack vm))) with 0.
    unfold MaxStackSize. lia.
  - split; [constructor|]. unfold items, MaxStackSize. change (len (savedFirstStack vm)) with 0. lia.
  - by intros [].
  - intros Hb' H1. right. split_and!; [done|done|]. rewrite H1 in Hscr. simpl in Hscr.
    destruct (script_hash_tokens pk) as (h & Hh & Hwh); [apply Hpk|auto|].
    eexists. apply enc_tokens_inj; [done|exact Hwh|]. by rewrite <- Htk, <- Hh.
Qed.

End Creation.
