(* ===== verification/EngineRun.v ===== *)
(** * Execution, script by script

    The loop of [Execute] reads one instruction per turn and finds out for itself
    when a script ends.  Here it is shown to do the same as evaluating the list
    of instructions of one script after the other. *)

From Stdlib Require Import ZArith Lia.
From stdpp Require Import base list numbers option strings.
From S2P Require Import Prelude ScriptNum Tokenizer ScriptBuilder ScriptStack ScriptStd Sha Wire SigHash Curve CurveModel EngineState SigValidate Opcodes Engine EngineSafe EngineTotal EngineProps.

Section Run.
Context `{D : DecimalOps} `{C : CurveOps} {CL : CurveLaws C}.

(** One instruction: the tokenizer moves on, the handler runs, and the stacks
    together may not hold more than 1000 elements. *)
Definition run_token (tk : token) (vm : Engine) : outcome Engine :=
  let! vm := executeOpcode (tk_op tk) (tk_data tk)
               (set_tokenizer (tok_step (tokenizer vm) tk (len (enc_token tk))) vm) in
  if MaxStackSize <? int32 (stack_Depth (dstack vm) + stack_Depth (astack vm)) then Err ErrStackOverflow
  else Ok (set_opcodeIdx (opcodeIdx vm + 1) vm).

Fixpoint run_tokens (tks : list token) (vm : Engine) : outcome Engine :=
  match tks with
  | [] => Ok vm
  | tk :: tks => let! vm := run_token tk vm in run_tokens tks vm
  end.

(** What the loop does after the last instruction of a script. *)
Definition continue (fuel : nat) (r : outcome (bool * Engine)) : option (outcome Engine) :=
  match r with
  | Ok (true, vm) => Some (Ok vm)
  | Ok (false, vm) => execute_loop fuel vm
  | Err e => Some (Err e)
  | Panic => Some Panic
  end.

Lemma execute_loop_S fuel vm : execute_loop (S fuel) vm = continue fuel (Step vm).
Proof. simpl. by destruct (Step vm) as [[[] ?]| |]. Qed.

Context (c : EngineConfig) (ti : TxIn) (Hc : cfg_ok c ti).

Lemma run_token_wp vm tk tks :
  inv c ti vm (tk :: tks) -> wp (run_token tk vm) (fun vm' => inv c ti vm' tks).
Proof.
  intros Hi. unfold run_token. eapply wp_bind; [by apply exec_inv|]. intros vm' ([Hd Ha Hl] & _ & Hinv).
  pose proof (items_small _ _ Hc). pose proof (len_nonneg (stk (dstack vm'))). pose proof (len_nonneg (stk (astack vm'))).
  rewrite !depth_len, int32_id by (lia || (unfold is_int32; lia)). case_if; [done|]. apply Hinv.
  constructor; [done|done|unfold items; bool_to_prop; lia].
Qed.

Lemma Step_run_token vm tk tks :
  inv c ti vm (tk :: tks) ->
  Step vm = (let! vm' := run_token tk vm in
             if ScriptTokenizer_Done (tokenizer vm') then next_script vm' else Ok (false, vm')).
Proof.
  intros Hi. unfold Step, checkValidPC, run_token.
  pose proof (i_wf _ _ _ _ Hi) as [Hw _]%Forall_cons_iff.
  assert (Hpc : scriptIdx vm < len (scripts vm)) by (destruct (i_shape _ _ _ _ Hi); lia). z_test. cbn [rbind].
  rewrite (Next_token _ tk (enc_tokens tks)) by (done || apply Hi). cbn [rbind negb].
  unfold ScriptTokenizer_Opcode, ScriptTokenizer_Data. simpl tok_op. simpl tok_data. cbn [unwrap rbind].
  destruct (executeOpcode _ _ _) as [vm'| |]; [|done|done]. cbn [rbind]. by case_if.
Qed.

Lemma run_tokens_wp tks vm : inv c ti vm tks -> wp (run_tokens tks vm) (fun vm' => inv c ti vm' []).
Proof.
  revert vm. induction tks as [|tk tks IH]; intros vm Hi; [done|].
  eapply wp_bind; [by apply run_token_wp|]. apply IH.
Qed.

Lemma execute_loop_tokens tks fuel vm :
  inv c ti vm tks -> tks <> [] ->
  execute_loop (length tks + fuel) vm = continue fuel (let! vm' := run_tokens tks vm in next_script vm').
Proof.
  revert vm. induction tks as [|tk tks IH]; intros vm Hi Hne; [done|]. cbn [length Nat.add].
  rewrite execute_loop_S, (Step_run_token vm tk tks Hi). cbn [run_tokens].
  pose proof (run_token_wp vm tk tks Hi) as Hwp. destruct (run_token tk vm) as [vm'| |]; [|done|done].
  cbn [rbind]. simpl in Hwp. rewrite (tok_at_Done _ _ (i_tok _ _ _ _ Hwp)).
  destruct tks as [|tk' tks]; [done|].
  assert (Hl : (len (enc_tokens (tk' :: tks)) =? 0) = false).
  { apply Z.eqb_neq. intros H. by apply enc_tokens_empty in H. }
  rewrite Hl. cbn [continue]. by apply IH.
Qed.

(** What a script cannot change. *)
Record kept (vm vm' : Engine) : Prop := mkKept {
  k_cfg : cfg vm' = cfg vm;
  k_scripts : scripts vm' = scripts vm;
  k_idx : scriptIdx vm' = scriptIdx vm;
  k_saved : savedFirstStack vm' = savedFirstStack vm;
  k_version : witnessVersion vm' = witnessVersion vm;
  k_program : witnessProgram vm' = witnessProgram vm;
  k_ctx : option_map mustSucceed (taprootCtx vm') = option_map mustSucceed (taprootCtx vm);
}.

Lemma kept_trans vm vm1 vm2 : kept vm vm1 -> kept vm1 vm2 -> kept vm vm2.
Proof. intros [] []. constructor; congruence. Qed.

Lemma run_token_kept vm vm' tk tks : inv c ti vm (tk :: tks) -> run_token tk vm = Ok vm' -> kept vm vm'.
Proof.
  intros Hi H. unfold run_token in H. inv_bind H. pose proof (exec_stepped c ti vm tk tks Hc Hi) as Hs.
  apply (wp_inv _ _ _ Hs) in Hr. destruct (_ <? _); [done|]. injection H as <-. by destruct Hr.
Qed.

Lemma run_tokens_kept tks vm vm' : inv c ti vm tks -> run_tokens tks vm = Ok vm' -> kept vm vm'.
Proof.
  revert vm. induction tks as [|tk tks IH]; intros vm Hi H; [by injection H as <-|].
  cbn [run_tokens] in H. inv_bind H. eapply kept_trans; [by eapply run_token_kept|].
  apply IH; [|done]. by eapply (wp_inv _ _ _ (run_token_wp vm tk tks Hi)).
Qed.

Lemma end_script_Ok vm vm' :
  inv c ti vm [] -> end_script vm = Ok vm' ->
  condStack vm = [] /\ vm' = set_opcodeIdx 0 (set_numOps 0 (set_astack (set_stk (astack vm) []) vm)).
Proof.
  intros Hi. unfold end_script, drop_all. destruct (Z.eqb_spec (len (condStack vm)) 0) as [H0|]; [|done]. simpl.
  destruct (stack_small _ _ _ _ Hc Hi). rewrite DropN_all by lia. apply len_0 in H0. by intros [= <-].
Qed.

(** ** Outputs that are neither a script hash nor a witness program *)

Lemma start_script_some vm s :
  index (scripts vm) (scriptIdx vm) = Some s -> s <> [] ->
  start_script vm
  = Ok (false, set_tokenizer (MakeScriptTokenizer (version (cfg vm)) s) (set_lastCodeSep 0 vm)).
Proof.
  intros Hs Hne. unfold start_script, skip_empty. rewrite Hs. destruct s as [|b s]; [done|].
  cbn [set_lastCodeSep scripts scriptIdx cfg]. rewrite Hs.
  assert (Hl : (len (scripts vm) <=? scriptIdx vm) = false).
  { unfold index in Hs. destruct (_ <? 0) eqn:H0; [done|]. apply lookup_lt_Some in Hs.
    apply Z.leb_gt. apply Z.ltb_ge in H0. unfold len. lia. }
  by rewrite Hl.
Qed.

Lemma start_script_end vm :
  0 <= scriptIdx vm -> len (scripts vm) <= scriptIdx vm -> start_script vm = Ok (true, set_lastCodeSep 0 vm).
Proof.
  intros H0 Hl. unfold start_script, skip_empty.
  assert (Hn : index (scripts vm) (scriptIdx vm) = None).
  { unfold index. z_test. apply lookup_ge_None. unfold len in Hl. lia. }
  rewrite Hn. cbn [set_lastCodeSep scripts scriptIdx]. by z_test.
Qed.

Lemma advance_script_plain vm :
  bip16 (cfg vm) = false -> scriptIdx vm = 0 \/ scriptIdx vm = 2 \/ witnessProgram vm = None ->
  advance_script vm = Ok (set_scriptIdx (scriptIdx vm + 1) vm).
Proof.
  intros Hb Hp. unfold advance_script. rewrite Hb, !andb_false_r.
  destruct Hp as [-> | [-> | ->]]; [done|done|]. cbn [non_nil]. by rewrite !andb_false_r.
Qed.

Lemma next_script_output vm vm' pk :
  inv c ti vm [] -> bip16 c = false -> scriptIdx vm = 0 -> index (scripts vm) 1 = Some pk -> pk <> [] ->
  next_script vm = Ok vm' ->
  vm'.1 = false /\ tokenizer vm'.2 = MakeScriptTokenizer 0 pk
  /\ condStack vm'.2 = [] /\ kept (set_scriptIdx 1 vm) vm'.2.
Proof.
  intros Hi Hb H0 Hpk Hne H. rewrite next_script_start in H. inv_bind H.
  apply end_script_Ok in Hr as [Hcs ->]; [|done].
  rewrite advance_script_plain in H by (simpl; rewrite ?(i_cfg _ _ _ _ Hi); auto). cbn [rbind] in H.
  rewrite (start_script_some _ pk) in H by (simpl; rewrite ?H0; done). injection H as <-. simpl.
  rewrite (i_cfg _ _ _ _ Hi), (co_version _ _ Hc). split_and!; try done. constructor; try done.
  simpl. by rewrite H0.
Qed.

Lemma next_script_done vm vm' :
  inv c ti vm [] -> bip16 c = false -> witnessProgram vm = None -> scriptIdx vm = 1 ->
  next_script vm = Ok vm' ->
  vm'.1 = true /\ condStack vm = [] /\ dstack vm'.2 = dstack vm /\ taprootCtx vm'.2 = taprootCtx vm.
Proof.
  intros Hi Hb Hp H1 H. rewrite next_script_start in H. inv_bind H.
  apply end_script_Ok in Hr as [Hcs ->]; [|done].
  rewrite advance_script_plain in H by (simpl; rewrite ?(i_cfg _ _ _ _ Hi); auto). cbn [rbind] in H.
  destruct (i_shape _ _ _ _ Hi) as [[? _]|[_ Hl]]; [lia|].
  rewrite start_script_end in H by (simpl; lia). by injection H as <-.
Qed.

(** Enough fuel for one script leaves the rest to the next. *)
Lemma execute_loop_split tks fuel vm :
  inv c ti vm tks -> tks <> [] -> remaining c ti vm tks <= Z.of_nat fuel ->
  exists fuel', later c ti vm <= Z.of_nat fuel'
    /\ execute_loop fuel vm = continue fuel' (let! vm' := run_tokens tks vm in next_script vm').
Proof.
  intros Hi Hne Hf. exists (fuel - length tks)%nat. rewrite <- execute_loop_tokens by done.
  pose proof (enc_tokens_length tks). pose proof (later_nonneg c ti vm). unfold remaining in Hf.
  split; [lia|]. f_equal. lia.
Qed.

Lemma tok_start_tokens s vm tks :
  tokenizer vm = MakeScriptTokenizer 0 s -> inv c ti vm tks -> s = enc_tokens tks.
Proof.
  intros Ht Hi. pose proof (i_tok _ _ _ _ Hi) as [_ _ (p & Hp & Hl) _ _]. rewrite Ht in Hp, Hl. simpl in *.
  apply len_0 in Hl as ->. done.
Qed.

Lemma Execute_Ok_loop fuel vm :
  cfg vm = c -> Execute fuel vm = Some (Ok tt) <->
  exists vm' vm'', execute_loop fuel vm = Some (Ok vm') /\ CheckErrorCondition true vm' = Ok vm''.
Proof.
  intros Hcfg. unfold Execute. rewrite Hcfg, (co_version _ _ Hc). simpl.
  destruct (execute_loop fuel vm) as [[vm'| |]|]; simpl; try (split; [done|by intros (? & ? & ? & ?)]).
  destruct (CheckErrorCondition true vm') as [vm''| |] eqn:He; simpl.
  - split; [|done]. intros _. by exists vm', vm''.
  - split; [done|]. intros (? & ? & [= <-] & ?). congruence.
  - split; [done|]. intros (? & ? & [= <-] & ?). congruence.
Qed.

Lemma CheckErrorCondition_Ok b vm vm' :
  taprootCtx vm = None -> CheckErrorCondition b vm = Ok vm' ->
  exists s, stack_PopBool (dstack vm) = Ok (true, s).
Proof.
  intros Hx H. unfold CheckErrorCondition in H. rewrite Hx in H.
  repeat (match type of H with (if ?b then _ else _) = _ => destruct b; [done|] end).
  inv_bind H. destruct a as [[] s]; [|done]. by exists s.
Qed.

Definition output_ran (tks : list token) : Prop :=
  exists vm1 vm2 s, inv c ti vm1 tks /\ condStack vm1 = [] /\ run_tokens tks vm1 = Ok vm2
    /\ inv c ti vm2 [] /\ condStack vm2 = [] /\ stack_PopBool (dstack vm2) = Ok (true, s).

Lemma accepted_output_script vm fuel tks :
  inv c ti vm tks -> tks <> [] -> remaining c ti vm tks <= Z.of_nat fuel ->
  bip16 c = false -> witnessProgram vm = None -> taprootCtx vm = None -> condStack vm = [] ->
  scriptIdx vm = 1 -> Execute fuel vm = Some (Ok tt) -> output_ran tks.
Proof.
  intros Hi Hne Hf Hb Hp Hx Hcs H1 Hex.
  apply Execute_Ok_loop in Hex as (vm' & vm'' & Hl & Hce); [|apply Hi].
  destruct (execute_loop_split tks fuel vm Hi Hne Hf) as (f & _ & Heq). rewrite Heq in Hl.
  pose proof (run_tokens_wp tks vm Hi) as Hwp. destruct (run_tokens tks vm) as [vm2| |] eqn:Hrun; [|done|done].
  simpl in Hwp. cbn [rbind] in Hl. destruct (run_tokens_kept _ _ _ Hi Hrun) as [_ _ Hidx _ _ Hpr Hctx].
  destruct (next_script vm2) as [[d vm3]| |] eqn:Hn; [|done|done].
  destruct (next_script_done vm2 (d, vm3) Hwp Hb) as (Hd & Hc2 & Hds & Hx3); [congruence..|done|].
  simpl in *. subst d. injection Hl as ->. rewrite Hx in Hctx.
  destruct (CheckErrorCondition_Ok true vm' vm'') as [s Hs]; [|done|].
  { rewrite Hx3. by destruct (taprootCtx vm2). }
  exists vm, vm2, s. split_and!; try done. by rewrite <- Hds.
Qed.

(** An accepted input has run its output script from an empty conditional stack
    to a true top element. *)
Lemma accepted_output vm tks0 fuel pk tks :
  inv c ti vm tks0 -> tks0 <> [] -> remaining c ti vm tks0 <= Z.of_nat fuel ->
  bip16 c = false -> witnessProgram vm = None -> taprootCtx vm = None -> condStack vm = [] ->
  index (scripts vm) 1 = Some pk -> pk = enc_tokens tks -> Forall wf_token tks -> tks <> [] ->
  (scriptIdx vm = 0 \/ scriptIdx vm = 1 /\ tokenizer vm = MakeScriptTokenizer 0 pk) ->
  Execute fuel vm = Some (Ok tt) -> output_ran tks.
Proof.
  intros Hi Hne Hf Hb Hp Hx Hcs Hpk Henc Hw Htne Hidx Hex.
  destruct Hidx as [H0|[H1 Htok]].
  2: { apply (tok_start_tokens pk) in Hi as Heq; [|done]. rewrite Henc in Heq.
       apply enc_tokens_inj in Heq as <-; [|done|apply Hi]. by eapply accepted_output_script. }
  apply Execute_Ok_loop in Hex as (vm' & vm'' & Hl & Hce); [|apply Hi].
  destruct (execute_loop_split tks0 fuel vm Hi Hne Hf) as (f & Hfl & Heq). rewrite Heq in Hl.
  pose proof (run_tokens_wp tks0 vm Hi) as Hwp. destruct (run_tokens tks0 vm) as [vm2| |] eqn:Hrun; [|done|done].
  simpl in Hwp. cbn [rbind] in Hl. destruct (run_tokens_kept _ _ _ Hi Hrun) as [Hcf2 Hsc2 Hidx2 _ _ Hpr2 Hctx2].
  pose proof (next_script_wp c ti vm2 Hc Hwp) as Hent.
  destruct (next_script vm2) as [[d vm3]| |] eqn:Hn; [|done|done].
  assert (Hne' : pk <> []) by (rewrite Henc; intros H%(f_equal len); by apply enc_tokens_empty in H).
  destruct (next_script_output vm2 (d, vm3) pk Hwp Hb) as (Hd & Htok3 & Hcs3 & [Hcf3 Hsc3 Hidx3 _ _ Hpr3 Hctx3]);
    [congruence|congruence|done|done|]. simpl in *. subst d.
  destruct Hent as [_ Hent]. destruct (Hent eq_refl) as (tks' & Hi3 & Hne3 & Hrem3). simpl in *.
  pose proof (tok_start_tokens _ _ _ Htok3 Hi3) as Hpk3. rewrite Henc in Hpk3.
  apply enc_tokens_inj in Hpk3 as <-; [|done|apply Hi3].
  apply (accepted_output_script vm3 f); try done.
  - assert (later c ti vm2 = later c ti vm) by (unfold later; by rewrite Hidx2, Hsc2). lia.
  - congruence.
  - rewrite Hx in Hctx2. destruct (taprootCtx vm2); [done|]. by destruct (taprootCtx vm3).
  - apply Execute_Ok_loop; [apply Hi3|]. by exists vm', vm''.
Qed.

End Run.
