(* ===== verification/Outputs.v ===== *)
(** * What the engine makes of the network's output scripts

    Contract outputs and outputs reported by [IsUnspendable] cannot be spent by
    any signature script and witness. *)

From Stdlib Require Import ZArith Lia.
From stdpp Require Import base list numbers option strings.
From S2P Require Import Prelude ScriptNum Tokenizer ScriptBuilder ScriptStack ScriptStd Sha Wire SigHash Curve CurveModel EngineState SigValidate Opcodes Engine EngineSafe EngineTotal EngineProps EngineRun.

Section Outputs.
Context `{D : DecimalOps} `{C : CurveOps} {CL : CurveLaws C}.

(** A script that is neither a script hash nor a witness program. *)
Definition plain_script (pk : bytes) : Prop :=
  isScriptHashScript pk = false /\ forall v p, extractWitnessProgramInfo (E := ErrorCode) pk <> Ok (v, p, true).

Lemma plain_rejected pk tx idx flags sc hc amt assets fetcher vm ti tks :
  NewEngine pk tx idx flags sc (Some hc) amt assets fetcher = Ok vm ->
  index (TxIns tx) idx = Some ti -> input_ok pk tx fetcher ti -> plain_script pk ->
  pk = enc_tokens tks -> Forall wf_token tks -> tks <> [] ->
  (forall c, cfg_ok c ti -> ~ output_ran c ti tks) ->
  exists e, Execute (execute_fuel vm) vm = Some (Err e).
Proof.
  intros Hnew Hti Hin [Hnh Hnw] Henc Hw Hne Hran.
  destruct (NewEngine_inv _ _ _ _ _ _ _ _ _ _ Hnew) as (ti' & b & m & program & Hti' & Hvm & Hb & _ & _ & _ & Hp & _).
  rewrite Hti in Hti'. injection Hti' as <-.
  destruct b; [by rewrite Hb in Hnh|].
  assert (program = None) as ->.
  { destruct Hp as [?|Hp]; [done|].
    apply findWitnessProgram_inv in Hp as [?|(v & p & s & _ & Hs & [[-> _]|[? _]])]; [done|by apply Hnw in Hs|done]. }
  destruct (NewEngine_inv_init _ _ _ _ _ _ _ _ _ _ _ Hnew Hti Hin) as (tks0 & Hc & Hi & Hne0 & Hf); [left; by rewrite Hvm|].
  destruct (Execute_inv _ _ _ _ _ Hc Hi Hne0 Hf) as (r & Hr & Hnp). destruct r as [[]|e|]; [|by exists e|done].
  exfalso. apply (Hran _ Hc). eapply accepted_output; try done; rewrite Hvm; try done.
  unfold initial. simpl. destruct (len (SignatureScript ti) =? 0); [right|left]; done.
Qed.

(** ** Scripts that end in [OP_FALSE] *)

Lemma run_tokens_app l k vm : run_tokens (l ++ k) vm = (let! vm := run_tokens l vm in run_tokens k vm).
Proof.
  revert vm. induction l as [|tk l IH]; intros vm; [done|]. cbn [app run_tokens].
  destruct (run_token tk vm); cbn [rbind]; auto.
Qed.

Lemma run_token_exec tk vm vm' :
  run_token tk vm = Ok vm' ->
  exists t vm1, executeOpcode (tk_op tk) (tk_data tk) (set_tokenizer t vm) = Ok vm1
    /\ vm' = set_opcodeIdx (opcodeIdx vm1 + 1) vm1.
Proof.
  intros H. unfold run_token in H. inv_bind H. destruct (_ <? _); [done|]. injection H as <-. eauto.
Qed.

Lemma exec_false vm vm' :
  executeOpcode OP_0 None vm = Ok vm' ->
  (vm' = vm /\ isBranchExecuting vm = false) \/ vm' = push [] vm.
Proof.
  unfold executeOpcode. change (isOpcodeDisabled OP_0) with false. change (isOpcodeAlwaysIllegal OP_0) with false.
  change (OP_16 <? OP_0) with false. change (MaxScriptElementSize <? len (slice None)) with false.
  rewrite andb_false_r. cbn iota. cbn [rbind]. change (isOpcodeConditional OP_0) with false.
  destruct (isBranchExecuting vm); cbn [negb andb]; intros H; [right|left; by simplify_eq].
  inv_bind H. change (index opcodeArray OP_0) with (Some opcodeFalse) in H. by injection H as <-.
Qed.

Lemma run_false vm vm' :
  run_token (mkToken OP_0 None) vm = Ok vm' -> condStack vm' = [] -> stk (dstack vm') = stk (dstack vm) ++ [[]].
Proof.
  intros H Hcs. apply run_token_exec in H as (t & vm1 & H & ->). simpl in Hcs |- *.
  apply exec_false in H as [[-> Hb]| ->]; [|done].
  unfold isBranchExecuting in Hb. simpl in *. by rewrite Hcs in Hb.
Qed.

Lemma ends_false_rejected c ti tks : cfg_ok c ti -> ~ output_ran c ti (tks ++ [mkToken OP_0 None]).
Proof.
  intros Hc (vm1 & vm2 & s & Hi1 & Hcs1 & Hrun & Hi2 & Hcs2 & Hpop).
  rewrite run_tokens_app in Hrun. inv_bind Hrun. cbn [run_tokens] in Hrun. inv_bind Hrun. injection Hrun as ->.
  apply run_false in Hr0; [|done]. destruct (stack_small _ _ _ _ Hc Hi2).
  unfold stack_PopBool in Hpop. rewrite (pop_snoc (dstack vm2) _ _ ltac:(lia) Hr0) in Hpop. done.
Qed.

Lemma plain_tokens pk tks :
  script_ok pk -> pk = enc_tokens tks -> Forall wf_token tks ->
  (forall op op2 d, IsSmallInt op = true -> tks <> [mkToken op None; mkToken op2 (Some d)]) ->
  (forall h, tks <> [mkToken OP_HASH160 None; mkToken OP_DATA_20 (Some h); mkToken OP_EQUAL None]) ->
  plain_script pk.
Proof.
  intros Hs Henc Hw H2 H3. split.
  - destruct (isScriptHashScript pk) eqn:Hh; [|done]. exfalso.
    apply script_hash_tokens in Hh as (h & Hh & Hwh); [|apply Hs]. rewrite Henc in Hh.
    apply enc_tokens_inj in Hh; [|done|done]. by apply (H3 h).
  - intros v p Hp. destruct (witness_program_tokens _ _ _ Hs Hp) as (op & op2 & d & Hp' & Hwp & Hop & _).
    rewrite Henc in Hp'. apply enc_tokens_inj in Hp'; [|done|done]. by apply (H2 op op2 d).
Qed.

Definition contract_tokens (payload : bytes) : list token :=
  [mkToken OP_0 None; mkToken OP_IF None; mkToken 2 (Some [67; 84]);
   mkToken (len payload) (Some payload); mkToken OP_ENDIF None].

Lemma wf_direct d : bytes_ok d -> 1 <= len d <= 75 -> wf_token (mkToken (len d) (Some d)).
Proof.
  intros Hd Hl. pose proof (opcode_length_cases (len d)). unfold wf_token. simpl.
  split; [unfold is_byte; lia|]. split; [done|]. left. lia.
Qed.

Lemma contract_script_tokens payload :
  bytes_ok payload -> contract_payload payload ->
  contract_script payload = enc_tokens (contract_tokens payload ++ [mkToken OP_0 None])
  /\ Forall wf_token (contract_tokens payload ++ [mkToken OP_0 None]).
Proof.
  intros Hok (Hl & _). split.
  - assert (Hop : opcode_length (len payload) = len payload + 1) by (pose proof (opcode_length_cases (len payload)); lia).
    unfold contract_script, enc_tokens, enc_token. simpl. rewrite Hop. z_test. simpl. by rewrite <- ?app_assoc.
  - assert (Hnone : forall op, is_byte op -> opcode_length op = 1 -> wf_token (mkToken op None)) by done.
    constructor; [by apply Hnone|]. constructor; [by apply Hnone|].
    constructor; [apply (wf_direct [67; 84]); [repeat constructor; lia|done]|].
    constructor; [apply wf_direct; [done|lia]|]. constructor; [by apply Hnone|]. constructor; [by apply Hnone|constructor].
Qed.

(** C19: a contract output is never spent: whatever the signature script and the
    witness of the input are, an engine created for it ends in an error. *)
Theorem contract_unspendable payload pk tx idx flags sc hc amt assets fetcher vm ti :
  bytes_ok payload -> contract_payload payload -> payToContractScript payload = Ok pk ->
  NewEngine pk tx idx flags sc (Some hc) amt assets fetcher = Ok vm ->
  index (TxIns tx) idx = Some ti -> input_ok pk tx fetcher ti ->
  exists e, Execute (execute_fuel vm) vm = Some (Err e).
Proof.
  intros Hok Hp Hpk Hnew Hti Hin. rewrite payToContractScript_eq in Hpk by done. injection Hpk as <-.
  destruct (contract_script_tokens payload Hok Hp) as [Henc Hw].
  eapply plain_rejected; try done; [|intros c Hc; by apply ends_false_rejected].
  eapply plain_tokens; try done. split; [apply Hin|]. rewrite len_contract_script. destruct Hp. lia.
Qed.

(** ** Scripts reported by [IsUnspendable] *)

Lemma starts_return_rejected c ti tks : ~ output_ran c ti (mkToken OP_RETURN None :: tks).
Proof.
  intros (vm1 & vm2 & s & Hi1 & Hcs1 & Hrun & _).
  cbn [run_tokens] in Hrun. inv_bind Hrun. apply run_token_exec in Hr as (t & vm' & H & _).
  simpl tk_op in H. simpl tk_data in H. unfold executeOpcode in H.
  change (isOpcodeDisabled OP_RETURN) with false in H. change (isOpcodeAlwaysIllegal OP_RETURN) with false in H.
  cbn iota in H. inv_bind H.
  assert (Hb : isBranchExecuting a0 = true).
  { assert (condStack a0 = []).
    { revert Hr. repeat case_if; intros; by simplify_eq/=. }
    unfold isBranchExecuting. by rewrite H0. }
  rewrite Hb in H. cbn [negb andb] in H. inv_bind H.
  change (index opcodeArray OP_RETURN) with (Some opcodeReturn) in H. done.
Qed.

(** C20: an output that [IsUnspendable] reports cannot be spent: no engine is
    created for it, or the engine ends in an error. *)
Theorem IsUnspendable_sound pk tx idx flags sc hc amt assets fetcher vm ti :
  IsUnspendable pk = Ok true ->
  NewEngine pk tx idx flags sc (Some hc) amt assets fetcher = Ok vm ->
  index (TxIns tx) idx = Some ti -> input_ok pk tx fetcher ti ->
  exists e, Execute (execute_fuel vm) vm = Some (Err e).
Proof.
  intros Hu Hnew Hti Hin.
  destruct (NewEngine_inv _ _ _ _ _ _ _ _ _ _ Hnew) as (_ & _ & _ & _ & _ & _ & _ & _ & _ & Hck & _).
  destruct (checkScript_inv pk) as [Hs (tks & Henc & Hw)]; [apply Hin|done|].
  assert (Hret : at_is pk 0 OP_RETURN = true).
  { unfold IsUnspendable in Hu. destruct (at_is pk 0 OP_RETURN); [done|].
    unfold checkScript in Hck. destruct (_ <? _); [done|]. by rewrite Hck in Hu. }
  apply at_is_lookup in Hret.
  assert (Htk : exists l, tks = mkToken OP_RETURN None :: l).
  { destruct pk as [|b r]; [done|]. injection Hret as ->.
    destruct (enc_token_inj (mkToken OP_RETURN None) r tks) as (l & -> & _); [by split|done|by rewrite <- Henc|].
    by exists l. }
  destruct Htk as [l ->].
  eapply plain_rejected; try done; [|intros c _; apply starts_return_rejected].
  eapply plain_tokens; try done. by intros op op2 d Hop [= <- ->].
Qed.

End Outputs.

(** ** Concrete spends *)

Definition demo_spend (pk : bytes) : Engine (D := text_decimal) :=
  initial [OP_1] pk
    (mkEngineConfig (D := text_decimal) StandardVerifyFlags (demo_tx [OP_1] []) 0 0 false None
       (Some demo_hashes) (demo_fetcher pk) 1000 []) true None.

Definition demo_spend_in : TxIn := mkTxIn (mkOutPoint (replicate 32 7) 0) [OP_1] [] MaxTxInSequenceNum.

Definition demo_contract : bytes := contract_script [1; 2; 7; 8].

Lemma demo_spend_ok pk :
  bytes_ok pk -> input_ok pk (demo_tx [OP_1] []) (demo_fetcher pk) demo_spend_in.
Proof.
  intros Hpk. constructor; [done|repeat constructor; lia|constructor|vm_compute; reflexivity|].
  constructor; [by eexists|constructor].
Qed.

Lemma contract_unspendable_witness :
  exists e, Execute (execute_fuel (demo_spend demo_contract)) (demo_spend demo_contract) = Some (Err e).
Proof.
  apply (contract_unspendable [1; 2; 7; 8] demo_contract (demo_tx [OP_1] []) 0 StandardVerifyFlags None demo_hashes
    1000 [] (demo_fetcher demo_contract) (demo_spend demo_contract) demo_spend_in).
  - repeat constructor; lia.
  - split_and!; done.
  - vm_compute. reflexivity.
  - vm_compute. reflexivity.
  - reflexivity.
  - apply demo_spend_ok. repeat constructor; vm_compute; congruence.
Defined.

Lemma IsUnspendable_sound_witness :
  exists e, Execute (execute_fuel (demo_spend [OP_RETURN])) (demo_spend [OP_RETURN]) = Some (Err e).
Proof.
  apply (IsUnspendable_sound [OP_RETURN] (demo_tx [OP_1] []) 0 StandardVerifyFlags None demo_hashes
    1000 [] (demo_fetcher [OP_RETURN]) (demo_spend [OP_RETURN]) demo_spend_in).
  - reflexivity.
  - vm_compute. reflexivity.
  - reflexivity.
  - apply demo_spend_ok. repeat constructor; vm_compute; congruence.
Defined.
