(* ===== verification/Spends.v ===== *)
(** * Spending witness outputs

    What [Execute] decides about an input that spends a version 1 (taproot)
    output with its key, and about one that spends a version 0 key hash. *)

From Stdlib Require Import ZArith Lia.
From stdpp Require Import base list numbers option strings.
From S2P Require Import Prelude ScriptNum Tokenizer ScriptBuilder ScriptStack ScriptStd Sha Wire SigHash Curve CurveModel EngineState SigValidate Opcodes Engine EngineSafe EngineTotal EngineProps EngineRun Outputs.

Section Spends.
Context `{D : DecimalOps} `{C : CurveOps} {CL : CurveLaws C}.

(** ** Instructions on an executing branch *)

Lemma executing_nil vm : condStack vm = [] -> isBranchExecuting vm = true.
Proof. intros H. unfold isBranchExecuting. by rewrite H. Qed.

Lemma exec_push_eq op d vm :
  wf_token (mkToken op (Some d)) -> condStack vm = [] -> len d <= 520 -> checkMinimalDataPush op d = Ok tt ->
  executeOpcode op (Some d) vm = Ok (push d vm).
Proof.
  intros Hw Hc Hl Hm. pose proof (wf_data_op _ d Hw eq_refl) as Hop. simpl in Hop.
  assert (Hlow : isOpcodeDisabled op = false /\ isOpcodeAlwaysIllegal op = false).
  { unfold isOpcodeDisabled, isOpcodeAlwaysIllegal. split; z_test; done. }
  destruct Hlow as [Hd Hi]. unfold executeOpcode. rewrite Hd, Hi, (pushdata_handler op d Hw).
  assert (H16 : (OP_16 <? op) = false) by (apply Z.ltb_ge; lia). rewrite H16, andb_false_r. simpl slice.
  unfold MaxScriptElementSize. z_test. cbn [rbind]. rewrite (executing_nil vm Hc). cbn [negb andb].
  rewrite Hm. destruct (_ && _); done.
Qed.

Lemma exec_small_int op vm x :
  condStack vm = [] -> (op = OP_0 /\ x = []) \/ (op = OP_1 /\ x = [1]) ->
  executeOpcode op None vm = Ok (push x vm).
Proof.
  intros Hc Hop. unfold executeOpcode.
  assert (Hcl : isOpcodeDisabled op = false /\ isOpcodeAlwaysIllegal op = false /\ (OP_16 <? op) = false)
    by by destruct Hop as [[-> _]|[-> _]].
  destruct Hcl as (-> & -> & ->). rewrite andb_false_r.
  change (MaxScriptElementSize <? len (slice None)) with false. cbn [rbind].
  rewrite (executing_nil vm Hc). cbn [negb andb].
  destruct Hop as [[-> ->]|[-> ->]]; destruct (verifyMinimalData _); reflexivity.
Qed.

Lemma run_token_Ok tk vm vm' :
  executeOpcode (tk_op tk) (tk_data tk) (set_tokenizer (tok_step (tokenizer vm) tk (len (enc_token tk))) vm) = Ok vm' ->
  len (stk (dstack vm')) + len (stk (astack vm')) <= 1000 ->
  run_token tk vm = Ok (set_opcodeIdx (opcodeIdx vm' + 1) vm').
Proof.
  intros H Hl. unfold run_token. rewrite H. cbn [rbind].
  pose proof (len_nonneg (stk (dstack vm'))). pose proof (len_nonneg (stk (astack vm'))).
  rewrite !depth_len, int32_id by (lia || (unfold is_int32; lia)). unfold MaxStackSize. by z_test.
Qed.

(** ** A native witness program *)

Definition program_tokens (op : Z) (prog : bytes) : list token :=
  [mkToken op None; mkToken (len prog) (Some prog)].

Lemma minimal_program prog : 2 <= len prog <= 40 -> checkMinimalDataPush (len prog) prog = Ok tt.
Proof.
  intros Hl. unfold checkMinimalDataPush. z_test. cbn [andb negb orb]. z_test. done.
Qed.

Lemma program_run op x prog vm :
  bytes_ok prog -> 2 <= len prog <= 40 -> (op = OP_0 /\ x = []) \/ (op = OP_1 /\ x = [1]) ->
  condStack vm = [] -> stk (dstack vm) = [] -> stk (astack vm) = [] ->
  exists vm', run_tokens (program_tokens op prog) vm = Ok vm' /\ condStack vm' = []
    /\ stk (astack vm') = [] /\ taprootCtx vm' = taprootCtx vm.
Proof.
  intros Hok Hl Hop Hc Hd Ha. unfold program_tokens. cbn [run_tokens].
  erewrite run_token_Ok; [|by apply exec_small_int|simpl; rewrite Hd, Ha; done]. cbn [rbind].
  erewrite run_token_Ok; [|apply exec_push_eq; [apply wf_direct; done || lia|done|lia|by apply minimal_program]|].
  - cbn [rbind]. eexists. by split_and!.
  - simpl. rewrite Hd, Ha. done.
Qed.

Context (c : EngineConfig) (ti : TxIn) (Hc : cfg_ok c ti).

(** The engine when the witness of a native program is looked at. *)
Record at_witness (v : Z) (prog : bytes) (vm : Engine) : Prop := mkAtWitness {
  aw_cfg : cfg vm = c;
  aw_bip16 : bip16 c = false;
  aw_scripts : len (scripts vm) = 2;
  aw_scripts_ok : Forall script_ok (scripts vm);
  aw_idx : scriptIdx vm = 2;
  aw_version : witnessVersion vm = v;
  aw_program : witnessProgram vm = Some prog;
  aw_ctx : taprootCtx vm = None;
  aw_cond : condStack vm = [];
  aw_astack : stk (astack vm) = [];
  aw_dstack : len (stk (dstack vm)) < 2 ^ 31 - 64;
  aw_ops : numOps vm = 0;
}.

Lemma program_loop op v x prog vm fuel :
  bytes_ok prog -> 2 <= len prog <= 40 -> (op = OP_0 /\ x = []) \/ (op = OP_1 /\ x = [1]) ->
  inv c ti vm (program_tokens op prog) -> remaining c ti vm (program_tokens op prog) <= Z.of_nat fuel ->
  bip16 c = false -> scriptIdx vm = 1 -> len (scripts vm) = 2 ->
  witnessVersion vm = v -> witnessProgram vm = Some prog -> taprootCtx vm = None ->
  condStack vm = [] -> stk (dstack vm) = [] -> stk (astack vm) = [] ->
  exists fuel' vm', at_witness v prog vm'
    /\ execute_loop fuel vm = continue fuel' (let! vm'' := verifyWitnessProgram (Witness ti) vm' in start_script vm'')
    /\ wp (let! vm'' := verifyWitnessProgram (Witness ti) vm' in start_script vm'') (entered c ti (Z.of_nat fuel')).
Proof.
  intros Hok Hl Hop Hi Hf Hb H1 Hsc Hv Hp Hx Hcs Hd Ha.
  destruct (execute_loop_split c ti Hc _ fuel vm Hi ltac:(done) Hf) as (f & Hfl & ->).
  destruct (program_run op x prog vm) as (vm1 & Hrun & Hcs1 & Ha1 & Hx1); try done.
  destruct (run_tokens_kept c ti Hc _ _ _ Hi Hrun) as [Hcf1 Hsc1 Hidx1 _ Hv1 Hp1 _].
  pose proof (run_tokens_wp c ti Hc _ _ Hi) as Hi1. rewrite Hrun in Hi1 |- *. simpl in Hi1. cbn [rbind].
  destruct (stack_small _ _ _ _ Hc Hi1). rewrite next_script_start.
  set (vm2 := set_opcodeIdx 0 (set_numOps 0 (set_astack (set_stk (astack vm1) []) vm1))).
  assert (He : end_script vm1 = Ok vm2).
  { unfold end_script, drop_all. rewrite Hcs1. simpl. by rewrite DropN_all by lia. }
  pose proof (next_script_wp c ti vm1 Hc Hi1) as Hnext. rewrite next_script_start, He in Hnext. cbn [rbind] in Hnext.
  rewrite He. cbn [rbind]. exists f, (set_scriptIdx 2 vm2).
  assert (Hadv : advance_script vm2 = verifyWitnessProgram (Witness ti) (set_scriptIdx 2 vm2)).
  { unfold advance_script. change (scriptIdx vm2) with (scriptIdx vm1). change (cfg vm2) with (cfg vm1).
    change (witnessProgram vm2) with (witnessProgram vm1). rewrite Hidx1, H1, Hcf1, (i_cfg _ _ _ _ Hi), Hb, Hp1, Hp.
    cbn [Z.eqb Pos.eqb andb orb non_nil]. unfold currentTxIn. change (cfg (set_scriptIdx (1 + 1) vm2)) with (cfg vm1).
    by rewrite Hcf1, (i_cfg _ _ _ _ Hi), (co_in _ _ Hc). }
  rewrite Hadv in Hnext |- *. split_and!; [|done|].
  2: { eapply wp_mono; [exact Hnext|]. intros r [Hs Hr]. split; [done|]. intros Hf'.
       destruct (Hr Hf') as (tks & Hit & Hnt & Hrt). exists tks. split_and!; try done.
       assert (later c ti vm1 = later c ti vm) by (unfold later; by rewrite Hidx1, Hsc1). lia. }
  constructor; simpl; try congruence; try done; [rewrite Hcf1; apply Hi|rewrite Hsc1; apply Hi].
Qed.

(** Without the annex. *)
Definition strip_annex (w : list bytes) : list bytes :=
  if isAnnexedWitness w then take (length w - 1) w else w.

Lemma verifyTaproot_key prog vm sig :
  cfg vm = c -> hasFlag vm ScriptVerifyTaproot = true -> strip_annex (Witness ti) = [sig] ->
  exists ctx, verifyTaproot prog (Witness ti) vm
  = (let! _ := VerifyTaprootKeySpend vm prog sig in Ok (true, set_taprootCtx (Some (set_mustSucceed ctx)) vm)).
Proof.
  intros Hcfg Hfl Hw. unfold verifyTaproot. rewrite Hfl. cbn [negb].
  destruct (Z.eqb_spec (len (Witness ti)) 0) as [H0|H0].
  { apply len_0 in H0. by rewrite H0 in Hw. }
  unfold strip_annex in Hw. set (ctx0 := newTaprootExecutionCtx _).
  assert (Hvs : forall ctx, VerifyTaprootKeySpend (set_taprootCtx (Some ctx) vm) prog sig = VerifyTaprootKeySpend vm prog sig).
  { intros ctx. by apply VerifyTaprootKeySpend_cfg. }
  destruct (isAnnexedWitness (Witness ti)); rewrite Hw; simpl; eexists; rewrite Hvs; done.
Qed.

End Spends.

Section Theorems.
Context `{D : DecimalOps} `{C : CurveOps} {CL : CurveLaws C}.

(** The engine of a native witness program. *)
Lemma NewEngine_native pk tx idx flags sc hc amt assets fetcher vm ti v prog :
  NewEngine pk tx idx flags sc (Some hc) amt assets fetcher = Ok vm ->
  index (TxIns tx) idx = Some ti -> input_ok pk tx fetcher ti ->
  Z.land flags ScriptVerifyWitness = ScriptVerifyWitness ->
  extractWitnessProgramInfo (E := ErrorCode) pk = Ok (v, Some prog, true) ->
  exists m, vm = initial [] pk (mkEngineConfig flags tx idx 0 false sc (Some hc) fetcher amt assets) m (Some (v, Some prog)).
Proof.
  intros Hnew Hti Hin Hfl Hp.
  destruct (NewEngine_inv _ _ _ _ _ _ _ _ _ _ Hnew) as (ti' & b & m & program & Hti' & Hvm & Hb & _ & _ & Hck & _ & Hfind).
  rewrite Hti in Hti'. injection Hti' as <-. specialize (Hfind Hfl).
  destruct (checkScript_inv pk) as [Hs _]; [apply Hin|done|].
  destruct (witness_program_nosig _ _ _ Hs Hp) as (_ & _ & Hnh).
  destruct b; [by rewrite Hb in Hnh|].
  unfold findWitnessProgram, isWitnessProgramScript in Hfind. rewrite Hp in Hfind. cbn [rbind] in Hfind.
  destruct (Z.eqb_spec (len (SignatureScript ti)) 0) as [H0|H0]; [|done]. cbn [negb rbind] in Hfind.
  unfold ExtractWitnessProgramInfo in Hfind. rewrite Hp in Hfind. cbn [rbind negb] in Hfind. injection Hfind as <-.
  apply len_0 in H0. rewrite H0 in Hvm. by exists m.
Qed.

Lemma native_script op prog v :
  bytes_ok prog -> 2 <= len prog <= 40 -> (op = OP_0 /\ v = 0) \/ (op = OP_1 /\ v = 1) ->
  Forall wf_token (program_tokens op prog)
  /\ enc_tokens (program_tokens op prog) = [op; len prog] ++ prog.
Proof.
  intros Hok Hl Hop. split.
  - constructor; [|constructor; [apply wf_direct; done || lia|constructor]].
    by destruct Hop as [[-> _]|[-> _]].
  - assert (Hol : opcode_length (len prog) = len prog + 1) by (pose proof (opcode_length_cases (len prog)); lia).
    unfold enc_tokens, enc_token. simpl. rewrite Hol. z_test. by rewrite app_nil_r.
Qed.

Lemma taproot_script key :
  len key = 32 -> payToWitnessTaprootScript key = Ok ([OP_1; 32] ++ key)
  /\ extractWitnessProgramInfo (E := ErrorCode) ([OP_1; 32] ++ key) = Ok (1, Some key, true).
Proof.
  intros H32. do 32 (destruct key as [|? key]; [done|]). destruct key as [|? key]; [clear H32|exfalso; len_lia].
  split; vm_compute; reflexivity.
Qed.

(** The state of a native program before its first instruction, with fuel. *)
Lemma native_start op v prog pk tx idx flags sc hc amt assets fetcher vm ti :
  NewEngine pk tx idx flags sc (Some hc) amt assets fetcher = Ok vm ->
  index (TxIns tx) idx = Some ti -> input_ok pk tx fetcher ti ->
  Z.land flags ScriptVerifyWitness = ScriptVerifyWitness ->
  bytes_ok prog -> 2 <= len prog <= 40 -> (op = OP_0 /\ v = 0) \/ (op = OP_1 /\ v = 1) ->
  pk = [op; len prog] ++ prog -> extractWitnessProgramInfo (E := ErrorCode) pk = Ok (v, Some prog, true) ->
  cfg_ok (cfg vm) ti /\ flags = EngineState.flags (cfg vm)
  /\ exists fuel' vm', at_witness (cfg vm) v prog vm'
    /\ execute_loop (execute_fuel vm) vm
       = continue fuel' (let! vm'' := verifyWitnessProgram (Witness ti) vm' in start_script vm'')
    /\ wp (let! vm'' := verifyWitnessProgram (Witness ti) vm' in start_script vm'') (entered (cfg vm) ti (Z.of_nat fuel')).
Proof.
  intros Hnew Hti Hin Hw Hok Hl Hop Hpk Hp.
  destruct (NewEngine_native _ _ _ _ _ _ _ _ _ _ _ _ _ Hnew Hti Hin Hw Hp) as [m Hvm].
  destruct (NewEngine_inv _ _ _ _ _ _ _ _ _ _ Hnew) as (ti' & b & m' & program & Hti' & Hvm' & _).
  rewrite Hti in Hti'. injection Hti' as <-.
  assert (Hsig : SignatureScript ti = []).
  { rewrite Hvm in Hvm'. by injection Hvm'. }
  destruct (NewEngine_inv_init _ _ _ _ _ _ _ _ _ _ _ Hnew Hti Hin) as (tks & Hc & Hi & Hne & Hf); [right; by rewrite Hsig|].
  split; [done|]. split; [by rewrite Hvm|].
  destruct (native_script op prog v Hok Hl Hop) as [Hwf Henc].
  assert (tks = program_tokens op prog) as ->.
  { apply enc_tokens_inj; [apply Hi|done|]. rewrite Henc, <- Hpk. symmetry.
    eapply tok_start_tokens; [|exact Hi]. by rewrite Hvm. }
  apply (program_loop _ _ Hc op v (if op =? OP_0 then [] else [1])); try done; try (by rewrite Hvm).
  destruct Hop as [[-> _]|[-> _]]; [left|right]; done.
Qed.

(** C17: spending a taproot output with its key: when the witness without its
    annex is a single signature, [Execute] gives exactly the verdict of
    [VerifyTaprootKeySpend] on the output key and that signature. *)
Theorem taproot_key_spend key pk tx idx flags sc hc amt assets fetcher vm ti sig :
  len key = 32 -> payToWitnessTaprootScript key = Ok pk ->
  NewEngine pk tx idx flags sc (Some hc) amt assets fetcher = Ok vm ->
  index (TxIns tx) idx = Some ti -> input_ok pk tx fetcher ti ->
  Z.land flags ScriptVerifyWitness = ScriptVerifyWitness ->
  Z.land flags ScriptVerifyTaproot = ScriptVerifyTaproot ->
  strip_annex (Witness ti) = [sig] ->
  Execute (execute_fuel vm) vm = Some (VerifyTaprootKeySpend vm key sig).
Proof.
  intros H32 Hpk Hnew Hti Hin Hfw Hft Hsa. destruct (taproot_script key H32) as [Hpk' Hpi].
  rewrite Hpk in Hpk'. injection Hpk' as ->.
  assert (Hok : bytes_ok key) by (pose proof (in_pk _ _ _ _ Hin) as H; by apply Forall_cons_iff in H as [_ [_ ?]%Forall_cons_iff]).
  destruct (native_start OP_1 1 key _ _ _ _ _ _ _ _ _ _ _ Hnew Hti Hin Hfw Hok ltac:(lia)) as (Hc & Hfl & f & vm1 & Haw & Hloop & _);
    [by right|by rewrite H32|done|].
  destruct Haw as [Hcfg Hb Hsc _ Hidx Hv Hp Hx _ _ _ _].
  assert (Hft1 : hasFlag vm1 ScriptVerifyTaproot = true).
  { unfold hasFlag. rewrite Hcfg, <- Hfl, Hft. done. }
  destruct (verifyTaproot_key (cfg vm) ti key vm1 sig Hcfg Hft1 Hsa) as [ctx Htr].
  unfold Execute. rewrite (co_version _ _ Hc), Hloop. cbn [negb Z.eqb].
  assert (Hvp : verifyWitnessProgram (Witness ti) vm1
    = (let! _ := VerifyTaprootKeySpend vm1 key sig in Ok (set_taprootCtx (Some (set_mustSucceed ctx)) vm1))).
  { unfold verifyWitnessProgram, isWitnessVersionActive. rewrite Hp, Hv, Hcfg, Hb.
    change (slice (Some key)) with key. rewrite H32, Htr. simpl. by destruct (VerifyTaprootKeySpend vm1 key sig). }
  rewrite Hvp, (VerifyTaprootKeySpend_cfg vm vm1) by done.
  destruct (VerifyTaprootKeySpend vm key sig) as [[]| |]; cbn [rbind continue]; [|done|done].
  rewrite start_script_end by (simpl; rewrite ?Hsc, ?Hidx; lia). done.
Qed.

End Theorems.
