(* ===== verification/KeyHash.v ===== *)
(** * Spending a version 0 key hash

    The witness of such an input is a signature and a key: the engine accepts it
    when the key hashes to the program and the signature is valid for the
    witness digest of the implied script. *)

From Stdlib Require Import ZArith Lia.
From stdpp Require Import base list numbers option strings.
From S2P Require Import Prelude ScriptNum Tokenizer ScriptBuilder ScriptStack ScriptStd Sha Wire SigHash Curve CurveModel EngineState SigValidate Opcodes Engine EngineSafe EngineTotal EngineProps EngineRun Outputs Spends.

Section Frames.
Context `{D : DecimalOps} `{C : CurveOps} {CL : CurveLaws C}.

(** An engine outside of conditionals, with the stack [l] and an empty alternate
    stack, that has counted [n] operations. *)
Record st_is (base : Engine) (l : list bytes) (n : Z) (vm : Engine) : Prop := mkStIs {
  si_cfg : cfg vm = cfg base;
  si_scripts : scripts vm = scripts base;
  si_idx : scriptIdx vm = scriptIdx base;
  si_sep : lastCodeSep vm = lastCodeSep base;
  si_version : witnessVersion vm = witnessVersion base;
  si_program : witnessProgram vm = witnessProgram base;
  si_ctx : taprootCtx vm = None;
  si_cond : condStack vm = [];
  si_dstack : stk (dstack vm) = l;
  si_astack : stk (astack vm) = [];
  si_ops : numOps vm = n;
}.

Definition counted (op : Z) : Prop :=
  OP_16 < op /\ isOpcodeDisabled op = false /\ isOpcodeAlwaysIllegal op = false.

Lemma exec_counted op f base l n vm :
  counted op -> index opcodeArray op = Some f -> st_is base l n vm -> n < MaxOpsPerScript ->
  executeOpcode op None vm = f op None (set_numOps (n + 1) vm).
Proof.
  intros (H16 & Hd & Hi) Hf Hs Hn. unfold executeOpcode. rewrite Hd, Hi, (si_ctx _ _ _ _ Hs), (si_ops _ _ _ _ Hs), Hf.
  change (MaxOpsPerScript <? numOps (set_numOps (n + 1) vm)) with (MaxOpsPerScript <? n + 1).
  assert (Ho : (OP_16 <? op) = true) by by apply Z.ltb_lt.
  assert (Hm : (MaxOpsPerScript <? n + 1) = false) by (apply Z.ltb_ge; lia).
  assert (Hp : (op <=? OP_PUSHDATA4) = false) by (apply Z.leb_gt; lia).
  rewrite Ho, Hm, Hp. cbn [non_nil negb andb rbind].
  rewrite (executing_nil (set_numOps (n + 1) vm)) by apply Hs. cbn [negb andb]. by rewrite !andb_false_r.
Qed.

Lemma st_is_tokenizer base l n vm t : st_is base l n vm -> st_is base l n (set_tokenizer t vm).
Proof. intros []. by constructor. Qed.

(** An instruction that only changes the data stack. *)
Lemma run_counted op f base l n vm s :
  counted op -> index opcodeArray op = Some f -> st_is base l n vm -> n < MaxOpsPerScript ->
  (forall vm', dstack vm' = dstack vm -> f op None vm' = Ok (set_dstack s vm')) -> len (stk s) <= 1000 ->
  exists vm', run_token (mkToken op None) vm = Ok vm' /\ dstack vm' = s /\ st_is base (stk s) (n + 1) vm'.
Proof.
  intros Hop Hf Hs Hn Hfs Hl. eexists. split; [|split].
  - apply run_token_Ok.
    + simpl tk_op. simpl tk_data. rewrite (exec_counted op f base l n); try done; [|by apply st_is_tokenizer].
      by apply Hfs.
    + simpl. rewrite (si_astack _ _ _ _ Hs). change (len (@nil bytes)) with 0. lia.
  - done.
  - destruct Hs. by constructor.
Qed.

Lemma run_counted_err op f base l n vm e :
  counted op -> index opcodeArray op = Some f -> st_is base l n vm -> n < MaxOpsPerScript ->
  (forall vm', dstack vm' = dstack vm -> f op None vm' = Err e) -> run_token (mkToken op None) vm = Err e.
Proof.
  intros Hop Hf Hs Hn Hfs. unfold run_token. simpl tk_op. simpl tk_data.
  rewrite (exec_counted op f base l n); try done; [|by apply st_is_tokenizer]. by rewrite Hfs.
Qed.

Lemma run_push d base l n vm :
  bytes_ok d -> 2 <= len d <= 40 -> st_is base l n vm -> len l < 1000 ->
  exists vm', run_token (mkToken (len d) (Some d)) vm = Ok vm' /\ st_is base (l ++ [d]) n vm'.
Proof.
  intros Hd Hl Hs Hll. eexists. split.
  - apply run_token_Ok.
    + simpl tk_op. simpl tk_data. apply exec_push_eq; [apply wf_direct; done || lia|apply Hs|lia|by apply minimal_program].
    + simpl. rewrite (si_astack _ _ _ _ Hs), (si_dstack _ _ _ _ Hs), len_app.
      change (len (@nil bytes)) with 0. change (len [d]) with 1. lia.
  - destruct Hs as [? ? ? ? ? ? ? ? Hst ? ?]. constructor; try done. simpl. by rewrite Hst.
Qed.

(** ** The implied script *)

Definition hash160 (b : bytes) : bytes := ripemd160 (sha256 b).

Definition p2pkh_tokens (h : bytes) : list token :=
  [mkToken OP_DUP None; mkToken OP_HASH160 None; mkToken (len h) (Some h);
   mkToken OP_EQUALVERIFY None; mkToken OP_CHECKSIG None].

Definition p2pkh_script (h : bytes) : bytes :=
  [OP_DUP; OP_HASH160; OP_DATA_20] ++ h ++ [OP_EQUALVERIFY; OP_CHECKSIG].

(** What [OP_CHECKSIG] decides in a version 0 script. *)
Definition segwit_checksig (vm : Engine) (script sig pub : bytes) : outcome bool :=
  if len sig <? 1 then Ok false
  else
    match parseBaseSigAndPubkey pub sig vm with
    | Ok (key, rs, hashType) =>
        match witnessSigHash vm script hashType with
        | Ok msg =>
            if cached_or vm msg (take (length sig - 1) sig) pub (ecdsa_Verify rs msg key) then Ok true
            else if hasFlag vm ScriptVerifyNullFail then Err ErrNullFail else Ok false
        | Err _ => if hasFlag vm ScriptVerifyNullFail then Err ErrNullFail else Ok false
        | Panic => Panic
        end
    | Err ErrOther => Ok false
    | Err e => Err e
    | Panic => Panic
    end.

Lemma run_dup base sig pub n vm :
  st_is base [sig; pub] n vm -> n < MaxOpsPerScript ->
  exists vm', run_token (mkToken OP_DUP None) vm = Ok vm' /\ st_is base [sig; pub; pub] (n + 1) vm'.
Proof.
  intros Hs Hn.
  destruct (run_counted OP_DUP opcodeDup base [sig; pub] n vm (set_stk (dstack vm) [sig; pub; pub])) as (vm' & Hr & _ & H');
    [by split_and!|reflexivity|done|done| |done|by exists vm'].
  intros vm1 Hd. unfold opcodeDup, on_dstack. rewrite Hd.
  pose proof (si_dstack _ _ _ _ Hs) as Hst. destruct (dstack vm) as [l m]. simpl in Hst. by subst l.
Qed.

Lemma run_hash160 base sig pub x n vm :
  st_is base [sig; pub; x] n vm -> n < MaxOpsPerScript ->
  exists vm', run_token (mkToken OP_HASH160 None) vm = Ok vm' /\ st_is base [sig; pub; hash160 x] (n + 1) vm'.
Proof.
  intros Hs Hn.
  destruct (run_counted OP_HASH160 opcodeHash160 base [sig; pub; x] n vm (set_stk (dstack vm) [sig; pub; hash160 x]))
    as (vm' & Hr & _ & H'); [by split_and!|reflexivity|done|done| |done|by exists vm'].
  intros vm1 Hd. unfold opcodeHash160, hash_top, on_dstack. rewrite Hd.
  pose proof (si_dstack _ _ _ _ Hs) as Hst. destruct (dstack vm) as [l m]. simpl in Hst. by subst l.
Qed.

Lemma run_equalverify base sig pub x y n vm :
  st_is base [sig; pub; x; y] n vm -> n < MaxOpsPerScript ->
  if bytes_eqb y x then
    exists vm', run_token (mkToken OP_EQUALVERIFY None) vm = Ok vm' /\ st_is base [sig; pub] (n + 1) vm'
  else run_token (mkToken OP_EQUALVERIFY None) vm = Err ErrEqualVerify.
Proof.
  intros Hs Hn. pose proof (si_dstack _ _ _ _ Hs) as Hst. destruct (dstack vm) as [l m] eqn:Hdst. simpl in Hst. subst l.
  destruct (bytes_eqb y x) eqn:Heq.
  - destruct (run_counted OP_EQUALVERIFY opcodeEqualVerify base [sig; pub; x; y] n vm (mkStack [sig; pub] m))
      as (vm' & Hr & _ & H'); [by split_and!|reflexivity|done|done| |done|by exists vm'].
    intros vm1 Hd. unfold opcodeEqualVerify, opcodeEqual, on_dstack. rewrite Hd, Hdst. simpl. by rewrite Heq.
  - apply (run_counted_err OP_EQUALVERIFY opcodeEqualVerify base [sig; pub; x; y] n); try done.
    intros vm1 Hd. unfold opcodeEqualVerify, opcodeEqual, on_dstack. rewrite Hd, Hdst. simpl. by rewrite Heq.
Qed.

Lemma parse_frame vm vm' pub sig :
  cfg vm' = cfg vm -> witnessVersion vm' = witnessVersion vm -> witnessProgram vm' = witnessProgram vm ->
  parseBaseSigAndPubkey pub sig vm' = parseBaseSigAndPubkey pub sig vm.
Proof.
  intros Hc Hv Hp. unfold parseBaseSigAndPubkey, checkHashTypeEncoding, checkSignatureEncoding, checkPubKeyEncoding,
    parseSig, strictEncoding, isWitnessVersionActive, hasFlag. by rewrite Hc, Hv, Hp.
Qed.

Lemma subscript_start vm script :
  index (scripts vm) (scriptIdx vm) = Some script -> lastCodeSep vm = 0 -> subScript vm = Ok script.
Proof.
  intros Hs Hl. unfold subScript, subslice. rewrite Hs, Hl. cbn [unwrap rbind]. pose proof (len_nonneg script). z_test.
  rewrite Z.sub_0_r. simpl drop. f_equal. apply take_ge. unfold len. lia.
Qed.

Lemma checksig_spec base sig pub script vm l :
  st_is base l 0 (set_numOps 0 vm) -> isWitnessVersionActive base BaseSegwitWitnessVersion = true ->
  index (scripts base) (scriptIdx base) = Some script -> lastCodeSep base = 0 ->
  stk (dstack vm) = [sig; pub] ->
  opcodeCheckSig OP_CHECKSIG None vm
  = (let! b := segwit_checksig base script sig pub in Ok (set_dstack (set_stk (dstack vm) [fromBool b]) vm)).
Proof.
  intros [Hcfg Hsc Hidx Hsep Hver Hpr Hx _ _ _ _] Ha Hscript Hl Hst. simpl in *. unfold opcodeCheckSig.
  rewrite (pop_snoc _ [sig] pub) by (rewrite ?Hst; done). cbn [rbind].
  rewrite (pop_snoc _ [] sig) by (done || (rewrite stk_set; done)). cbn [rbind].
  unfold segwit_checksig. cbn [set_dstack taprootCtx witnessProgram]. rewrite Hx. cbn [non_nil negb andb].
  destruct (len sig <? 1) eqn:Hsig; [done|].
  assert (Hact : forall s, isWitnessVersionActive (set_dstack s vm) BaseSegwitWitnessVersion = true).
  { intros s. unfold isWitnessVersionActive in *. simpl. by rewrite Hver, Hpr. }
  assert (Hnn : non_nil (witnessProgram vm) = true).
  { unfold isWitnessVersionActive in Ha. rewrite Hpr. by apply andb_true_iff in Ha as [? _]. }
  rewrite Hnn, Hact. cbn [negb]. unfold checkSig_ecdsa, newBaseSigVerifier.
  set (vm1 := set_dstack _ vm).
  rewrite (parse_frame base vm1) by done. rewrite (subscript_start vm1 script) by (simpl; congruence).
  destruct (parseBaseSigAndPubkey pub sig base) as [[[key rs] ht]|e|]; cbn [rbind]; [|by destruct e|done].
  assert (Hsp : exists x, split_hash_type sig = Ok (x, take (length sig - 1) sig)).
  { unfold split_hash_type. destruct (last_of sig) as [x|] eqn:Hlast; [by exists x|]. by apply last_None in Hlast as ->. }
  destruct Hsp as [x Hsp]. rewrite Hsp. cbn [rbind]. unfold baseSegwitSigVerifier_Verify. simpl bsv_subScript. simpl bsv_hashType.
  assert (Hsh : witnessSigHash vm1 script ht = witnessSigHash base script ht).
  { unfold witnessSigHash, sigHashesV0. simpl. by rewrite Hcfg. }
  assert (Hco : forall a b c d, cached_or vm1 a b c d = cached_or base a b c d).
  { intros. unfold cached_or. simpl. by rewrite Hcfg. }
  assert (Hpos : (0 <? len sig) = true) by (apply Z.ltb_lt; apply Z.ltb_ge in Hsig; lia).
  assert (Hflag : forall f, hasFlag vm1 f = hasFlag base f) by (intros; unfold hasFlag; simpl; by rewrite Hcfg).
  rewrite Hsh. unfold checkSig_result, baseSigVerifier_verifySig.
  destruct (witnessSigHash base script ht) as [msg|e|]; cbn [rbind sigValid sigMatch]; [| |done].
  - rewrite Hco, andb_false_r, Hpos, Hflag. cbn [bsv_sigBytes bsv_pkBytes bsv_sig bsv_pubKey].
    destruct (cached_or base msg _ pub _); [done|]. unfold vm1. cbn [set_dstack taprootCtx non_nil]. rewrite Hx. simpl.
    by destruct (hasFlag base ScriptVerifyNullFail).
  - rewrite andb_false_r, Hpos, Hflag. unfold vm1. cbn [set_dstack taprootCtx non_nil]. rewrite Hx. simpl.
    by destruct (hasFlag base ScriptVerifyNullFail).
Qed.

(** The result of a run, as the boolean it leaves on the stack. *)
Definition leaves (base : Engine) (n : Z) (r : outcome bool) (run : outcome Engine) : Prop :=
  match r with
  | Ok b => exists vm', run = Ok vm' /\ st_is base [fromBool b] n vm'
  | Err e => run = Err e
  | Panic => run = Panic
  end.

Lemma run_checksig base sig pub script n vm :
  st_is base [sig; pub] n vm -> n < MaxOpsPerScript -> isWitnessVersionActive base BaseSegwitWitnessVersion = true ->
  index (scripts base) (scriptIdx base) = Some script -> lastCodeSep base = 0 ->
  leaves base (n + 1) (segwit_checksig base script sig pub) (run_token (mkToken OP_CHECKSIG None) vm).
Proof.
  intros Hs Hn Ha Hscript Hl. set (t := tok_step (tokenizer vm) (mkToken OP_CHECKSIG None) (len (enc_token (mkToken OP_CHECKSIG None)))).
  set (vm1 := set_numOps (n + 1) (set_tokenizer t vm)).
  assert (Hex : executeOpcode OP_CHECKSIG None (set_tokenizer t vm) = opcodeCheckSig OP_CHECKSIG None vm1).
  { apply (exec_counted _ _ base [sig; pub]); [by split_and!|reflexivity|by apply st_is_tokenizer|done]. }
  assert (Hs1 : st_is base [sig; pub] 0 (set_numOps 0 vm1)) by (destruct Hs; by constructor).
  rewrite (checksig_spec base sig pub script vm1 [sig; pub] Hs1 Ha Hscript Hl (si_dstack _ _ _ _ Hs)) in Hex.
  destruct (segwit_checksig base script sig pub) as [b|e|]; cbn [rbind leaves] in *.
  - eexists. split; [apply run_token_Ok; [exact Hex|]|].
    + simpl. rewrite (si_astack _ _ _ _ Hs). done.
    + destruct Hs. by constructor.
  - unfold run_token. simpl tk_op. simpl tk_data. fold t. by rewrite Hex.
  - unfold run_token. simpl tk_op. simpl tk_data. fold t. by rewrite Hex.
Qed.

Lemma key_hash_run base sig pub h script vm :
  bytes_ok h -> len h = 20 ->
  st_is base [sig; pub] 0 vm -> isWitnessVersionActive base BaseSegwitWitnessVersion = true ->
  index (scripts base) (scriptIdx base) = Some script -> lastCodeSep base = 0 ->
  leaves base 4 (if bytes_eqb h (hash160 pub) then segwit_checksig base script sig pub else Err ErrEqualVerify)
    (run_tokens (p2pkh_tokens h) vm).
Proof.
  intros Hok Hl Hs Ha Hscript Hsep. unfold p2pkh_tokens. cbn [run_tokens].
  destruct (run_dup _ _ _ _ _ Hs) as (vm1 & -> & Hs1); [done|]. cbn [rbind].
  destruct (run_hash160 _ _ _ _ _ _ Hs1) as (vm2 & -> & Hs2); [done|]. cbn [rbind].
  destruct (run_push h _ _ _ _ Hok ltac:(lia) Hs2) as (vm3 & -> & Hs3); [done|]. cbn [rbind].
  pose proof (run_equalverify _ _ _ _ _ _ _ Hs3 ltac:(done)) as Heq.
  destruct (bytes_eqb h (hash160 pub)); [|by rewrite Heq]. destruct Heq as (vm4 & -> & Hs4). cbn [rbind].
  pose proof (run_checksig _ _ _ _ _ _ Hs4 ltac:(done) Ha Hscript Hsep) as Hcs.
  destruct (segwit_checksig base script sig pub); cbn [leaves] in *; [|by rewrite Hcs|by rewrite Hcs].
  destruct Hcs as (vm5 & -> & Hs5). by exists vm5.
Qed.

Lemma segwit_checksig_frame vm vm' script sig pub :
  cfg vm' = cfg vm -> witnessVersion vm' = witnessVersion vm -> witnessProgram vm' = witnessProgram vm ->
  segwit_checksig vm' script sig pub = segwit_checksig vm script sig pub.
Proof.
  intros Hc Hv Hp. unfold segwit_checksig. rewrite (parse_frame vm vm') by done.
  unfold witnessSigHash, sigHashesV0, cached_or, hasFlag. by rewrite Hc.
Qed.

(** The verdict on a version 0 key hash [h]. *)
Definition key_hash_verdict (vm : Engine) (h : bytes) (witness : list bytes) : outcome unit :=
  match witness with
  | [sig; pub] =>
      if existsb (fun e => MaxScriptElementSize <? len e) witness then Err ErrElementTooBig
      else
        let! valid := (if bytes_eqb h (hash160 pub) then segwit_checksig vm (p2pkh_script h) sig pub
                       else Err ErrEqualVerify) in
        if (valid : bool) then Ok tt else Err ErrEvalFalse
  | _ => Err ErrWitnessProgramMismatch
  end.

Lemma p2pkh_script_tokens h :
  bytes_ok h -> len h = 20 -> p2pkh_script h = enc_tokens (p2pkh_tokens h) /\ Forall wf_token (p2pkh_tokens h).
Proof.
  intros Hok Hl. split.
  - unfold p2pkh_script, p2pkh_tokens, enc_tokens, enc_token. simpl. rewrite Hl. simpl. done.
  - assert (Hnone : forall op, is_byte op -> opcode_length op = 1 -> wf_token (mkToken op None)) by done.
    constructor; [by apply Hnone|]. constructor; [by apply Hnone|]. constructor; [apply wf_direct; done || lia|].
    constructor; [by apply Hnone|]. constructor; [by apply Hnone|constructor].
Qed.

Lemma checkScriptParses_tokens tks :
  Forall wf_token tks -> len (enc_tokens tks) < 2 ^ 31 -> checkScriptParses 0 (enc_tokens tks) = Ok tt.
Proof.
  intros Hw Hl. unfold checkScriptParses.
  destruct (tokenize_tokens (E := ErrorCode) tks Hw (enc_tokens_ok tks Hw) Hl) as [Ht He].
  unfold tokenize in Ht. rewrite Ht. cbn [rbind]. unfold ScriptTokenizer_Err. by rewrite He.
Qed.

(** The witness of a key hash program. *)
Lemma verifyWitnessProgram_key_hash c h vm w :
  at_witness c 0 h vm -> version c = 0 -> bytes_ok h -> len h = 20 ->
  verifyWitnessProgram w vm
  = match w with
    | [_; _] =>
        if existsb (fun e => MaxScriptElementSize <? len e) w then Err ErrElementTooBig
        else Ok (add_script (p2pkh_script h) w vm)
    | _ => Err ErrWitnessProgramMismatch
    end.
Proof.
  intros [Hcfg Hb Hsc _ Hidx Hv Hp Hx _ _ Hd _] Hver Hok Hl.
  assert (Ha : isWitnessVersionActive vm BaseSegwitWitnessVersion = true).
  { unfold isWitnessVersionActive. by rewrite Hp, Hv. }
  unfold verifyWitnessProgram. rewrite Ha, Hp. change (slice (Some h)) with h. unfold verifyWitnessV0. rewrite Hl.
  change (20 =? payToWitnessPubKeyHashDataSize) with true. cbv iota.
  destruct (Z.eqb_spec (len w) 2) as [H2|H2]; cbn [negb].
  2: { destruct w as [|a [|b [|d w]]]; try done. }
  destruct w as [|a [|b [|d w]]]; try done.
  2: { exfalso. rewrite !len_cons in H2. pose proof (len_nonneg w). lia. }
  rewrite (payToPubKeyHashScript_spec h Hl). fold (p2pkh_script h). cbn [rbind]. rewrite Hcfg, Hver.
  destruct (p2pkh_script_tokens h Hok Hl) as [Henc Hw].
  assert (Hlen : len (enc_tokens (p2pkh_tokens h)) = 25) by (rewrite <- Henc; unfold p2pkh_script; rewrite !len_app, Hl; done).
  rewrite Henc, checkScriptParses_tokens by (done || lia). cbn [rbind]. rewrite enter_script_spec by lia. cbn [rbind].
  unfold checkWitnessStack, GetStack.
  assert (Ht : isWitnessVersionActive (add_script (enc_tokens (p2pkh_tokens h)) [a; b] vm) TaprootWitnessVersion = false).
  { unfold isWitnessVersionActive. simpl. by rewrite Hp, Hv. }
  assert (Ha' : isWitnessVersionActive (add_script (enc_tokens (p2pkh_tokens h)) [a; b] vm) BaseSegwitWitnessVersion = true) by done.
  rewrite Ht, Ha', getStack_spec by done. done.
Qed.

(** The last script of a native program has left one boolean. *)
Lemma witness_script_end c ti vm0 b n vm :
  cfg_ok c ti -> inv c ti vm [] -> st_is vm0 [fromBool b] n vm -> scriptIdx vm0 = 2 -> bip16 c = false ->
  exists vm', next_script vm = Ok (true, vm')
    /\ (let! _ := CheckErrorCondition true vm' in Ok tt) = (if b then Ok tt else Err ErrEvalFalse).
Proof.
  intros Hc Hi [Hcfg Hsc Hidx _ Hver Hpr Hx Hcs Hd Ha _] H2 Hb.
  destruct (i_shape _ _ _ _ Hi) as [[? _]|[_ Hl]]; [lia|].
  set (vm2 := set_opcodeIdx 0 (set_numOps 0 (set_astack (set_stk (astack vm) []) vm))).
  assert (He : end_script vm = Ok vm2).
  { unfold end_script, drop_all. rewrite Hcs. simpl. destruct (stack_small _ _ _ _ Hc Hi). by rewrite DropN_all by lia. }
  rewrite next_script_start, He. cbn [rbind].
  rewrite advance_script_plain by (simpl; rewrite ?(i_cfg _ _ _ _ Hi); auto; right; left; congruence). cbn [rbind].
  rewrite start_script_end by (simpl; lia). eexists. split; [done|].
  unfold CheckErrorCondition. simpl taprootCtx. rewrite Hx. simpl scriptIdx. simpl scripts. simpl dstack.
  assert (Hn : (scriptIdx vm + 1 <? len (scripts vm)) = false) by (apply Z.ltb_ge; lia). rewrite Hn.
  assert (Hdep : stack_Depth (dstack vm) = 1) by (unfold stack_Depth; rewrite Hd; done).
  rewrite Hdep. cbn [negb Z.eqb Pos.eqb]. rewrite !andb_false_r. change (1 <? 1) with false. cbv iota.
  unfold stack_PopBool. rewrite (pop_snoc _ [] (fromBool b)) by (rewrite ?Hd; done). by destruct b.
Qed.

Lemma p2wpkh_script h :
  len h = 20 -> payToWitnessPubKeyHashScript h = Ok ([OP_0; 20] ++ h)
  /\ extractWitnessProgramInfo (E := ErrorCode) ([OP_0; 20] ++ h) = Ok (0, Some h, true).
Proof.
  intros H20. do 20 (destruct h as [|? h]; [done|]). destruct h as [|? h]; [clear H20|exfalso; len_lia].
  split; vm_compute; reflexivity.
Qed.

Lemma key_hash_loop c ti h sig pub script vm fuel :
  cfg_ok c ti -> inv c ti vm (p2pkh_tokens h) -> remaining c ti vm (p2pkh_tokens h) <= Z.of_nat fuel ->
  bip16 c = false -> scriptIdx vm = 2 -> bytes_ok h -> len h = 20 ->
  st_is vm [sig; pub] 0 vm -> isWitnessVersionActive vm BaseSegwitWitnessVersion = true ->
  index (scripts vm) (scriptIdx vm) = Some script -> lastCodeSep vm = 0 ->
  Execute fuel vm
  = Some (let! valid := (if bytes_eqb h (hash160 pub) then segwit_checksig vm script sig pub
                         else Err ErrEqualVerify) in
          if (valid : bool) then Ok tt else Err ErrEvalFalse).
Proof.
  intros Hc Hi Hf Hb H2 Hok Hl Hs Ha Hscript Hsep. unfold Execute. rewrite (i_cfg _ _ _ _ Hi), (co_version _ _ Hc).
  cbn [negb Z.eqb]. destruct (execute_loop_split c ti Hc _ fuel vm Hi ltac:(done) Hf) as (f & _ & ->).
  pose proof (key_hash_run vm sig pub h script vm Hok Hl Hs Ha Hscript Hsep) as Hrun.
  pose proof (run_tokens_wp c ti Hc _ _ Hi) as Hi'.
  destruct (if bytes_eqb h (hash160 pub) then _ else _) as [b|e|]; cbn [leaves rbind] in *;
    [|by rewrite Hrun|by rewrite Hrun].
  destruct Hrun as (vm' & Hrun & Hs'). rewrite Hrun in Hi' |- *. cbn [rbind wp] in *.
  destruct (witness_script_end c ti vm b 4 vm' Hc Hi' Hs' H2 Hb) as (vm'' & -> & Hv). cbn [continue rbind]. by rewrite Hv.
Qed.

(** C16: spending a version 0 key hash: [Execute] gives exactly the verdict
    [key_hash_verdict], on every witness: the witness has to be a signature and a
    key of at most 520 bytes that hashes to the program, and the signature has to
    be valid for the witness digest of the pay-to-pubkey-hash script. *)
Theorem witness_key_hash_spend h pk tx idx flags sc hc amt assets fetcher vm ti :
  len h = 20 -> payToWitnessPubKeyHashScript h = Ok pk ->
  NewEngine pk tx idx flags sc (Some hc) amt assets fetcher = Ok vm ->
  index (TxIns tx) idx = Some ti -> input_ok pk tx fetcher ti ->
  Z.land flags ScriptVerifyWitness = ScriptVerifyWitness ->
  Execute (execute_fuel vm) vm = Some (key_hash_verdict vm h (Witness ti)).
Proof.
  intros H20 Hpk Hnew Hti Hin Hfw. destruct (p2wpkh_script h H20) as [Hpk' Hpi].
  rewrite Hpk in Hpk'. injection Hpk' as ->.
  assert (Hok : bytes_ok h) by (pose proof (in_pk _ _ _ _ Hin) as H; by apply Forall_cons_iff in H as [_ [_ ?]%Forall_cons_iff]).
  destruct (native_start OP_0 0 h _ _ _ _ _ _ _ _ _ _ _ Hnew Hti Hin Hfw Hok ltac:(lia)) as (Hc & Hfl & f & vm1 & Haw & Hloop & Hent);
    [by left|by rewrite H20|done|].
  pose proof (verifyWitnessProgram_key_hash _ h vm1 (Witness ti) Haw (co_version _ _ Hc) Hok H20) as Hvp.
  rewrite Hvp in Hloop, Hent. unfold Execute. rewrite (co_version _ _ Hc), Hloop. cbn [negb Z.eqb]. unfold key_hash_verdict.
  destruct (Witness ti) as [|sig [|pub [|? ?]]]; try done. destruct (existsb _ _); [done|].
  destruct Haw as [Hcfg Hb Hsc Hso Hidx Hv Hp Hx Hcs Ha Hd Hops].
  destruct (NewEngine_native _ _ _ _ _ _ _ _ _ _ _ _ _ Hnew Hti Hin Hfw Hpi) as [m Hvm].
  destruct (p2pkh_script_tokens h Hok H20) as [Henc Hw].
  set (vm2 := add_script (p2pkh_script h) [sig; pub] vm1) in *.
  assert (Hcur : index (scripts vm2) (scriptIdx vm2) = Some (p2pkh_script h)).
  { change (index (scripts vm1 ++ [p2pkh_script h]) (scriptIdx vm1) = Some (p2pkh_script h)).
    rewrite Hidx, <- Hsc. unfold index, len. z_test. rewrite Nat2Z.id. by apply list_lookup_middle. }
  cbn [rbind] in Hent |- *. rewrite (start_script_some vm2 _ Hcur ltac:(done)) in Hent |- *.
  set (vm3 := set_tokenizer _ _) in *. destruct Hent as [_ Hent]. destruct (Hent eq_refl) as (tks & Hi & Hne & Hrem).
  simpl in Hi, Hrem. cbn [continue].
  assert (tks = p2pkh_tokens h) as ->.
  { apply enc_tokens_inj; [apply Hi|done|]. rewrite <- Henc. symmetry.
    eapply tok_start_tokens; [|exact Hi]. unfold vm3, vm2. simpl. by rewrite Hcfg, (co_version _ _ Hc). }
  pose proof (key_hash_loop _ _ h sig pub (p2pkh_script h) vm3 f Hc Hi Hrem Hb Hidx Hok H20) as Hfin.
  rewrite (segwit_checksig_frame vm vm3) in Hfin; [|exact Hcfg|by rewrite Hvm|by rewrite Hvm].
  unfold Execute in Hfin. change (cfg vm3) with (cfg vm1) in Hfin. rewrite Hcfg, (co_version _ _ Hc) in Hfin.
  apply Hfin; [by constructor| |exact Hcur|done].
  change (non_nil (witnessProgram vm1) && (witnessVersion vm1 =? 0) = true). by rewrite Hp, Hv.
Qed.

End Frames.

(** ** Concrete spends *)

Definition demo_native (v : Z) (prog pk : bytes) (w : list bytes) : Engine (D := text_decimal) :=
  initial [] pk
    (mkEngineConfig (D := text_decimal) StandardVerifyFlags (demo_tx [] w) 0 0 false None
       (Some demo_hashes) (demo_fetcher pk) 1000 []) true (Some (v, Some prog)).

Definition demo_native_in (w : list bytes) : TxIn := mkTxIn (mkOutPoint (replicate 32 7) 0) [] w MaxTxInSequenceNum.

Definition demo_key : bytes := replicate 32 9.
Definition demo_sig : bytes := replicate 64 5.
Definition demo_hash : bytes := hash160 (2 :: demo_key).

Lemma demo_native_ok pk w :
  bytes_ok pk -> Forall (fun e => bytes_ok e) w -> len (concat w) + len w < 2 ^ 31 - 2000 ->
  input_ok pk (demo_tx [] w) (demo_fetcher pk) (demo_native_in w).
Proof. intros Hpk Hw Hl. constructor; try done. by repeat constructor. Qed.

Lemma taproot_key_spend_witness :
  let pk := [OP_1; 32] ++ demo_key in
  let vm := demo_native 1 demo_key pk [demo_sig] in
  Execute (execute_fuel vm) vm = Some (VerifyTaprootKeySpend vm demo_key demo_sig).
Proof.
  apply (taproot_key_spend demo_key ([OP_1; 32] ++ demo_key) (demo_tx [] [demo_sig]) 0 StandardVerifyFlags None demo_hashes
    1000 [] (demo_fetcher ([OP_1; 32] ++ demo_key)) (demo_native 1 demo_key ([OP_1; 32] ++ demo_key) [demo_sig])
    (demo_native_in [demo_sig]) demo_sig); try (vm_compute; reflexivity); try reflexivity.
  apply demo_native_ok; [repeat constructor; vm_compute; congruence| |vm_compute; reflexivity].
  constructor; [repeat constructor; vm_compute; congruence|constructor].
Defined.

Lemma witness_key_hash_spend_witness :
  let pk := [OP_0; 20] ++ demo_hash in
  let vm := demo_native 0 demo_hash pk [demo_sig; 2 :: demo_key] in
  Execute (execute_fuel vm) vm = Some (key_hash_verdict vm demo_hash [demo_sig; 2 :: demo_key]).
Proof.
  apply (witness_key_hash_spend demo_hash ([OP_0; 20] ++ demo_hash) (demo_tx [] [demo_sig; 2 :: demo_key]) 0
    StandardVerifyFlags None demo_hashes 1000 [] (demo_fetcher ([OP_0; 20] ++ demo_hash))
    (demo_native 0 demo_hash ([OP_0; 20] ++ demo_hash) [demo_sig; 2 :: demo_key])
    (demo_native_in [demo_sig; 2 :: demo_key])); try (vm_compute; reflexivity); try reflexivity.
  apply demo_native_ok; [|..|vm_compute; reflexivity].
  - constructor; [vm_compute; split; congruence|]. constructor; [vm_compute; split; congruence|apply ripemd160_ok].
  - constructor; [|constructor; [|constructor]]; repeat constructor; vm_compute; congruence.
Defined.
