(* ===== verification/Multisig.v ===== *)
(** * The meaning of [OP_CHECKMULTISIG]

    The loop over keys and signatures, with its early exit and its record of
    parsed signatures, decides whether the signatures can be assigned to keys in
    order. *)

From Stdlib Require Import ZArith Lia.
From stdpp Require Import base list numbers option strings.
From S2P Require Import Prelude ScriptNum Tokenizer ScriptBuilder ScriptStack ScriptStd Sha Wire SigHash Curve CurveModel EngineState SigValidate Opcodes EngineSafe EngineTotal EngineProps.

(** ** Order-preserving assignment *)

Section Matching.
Context {S K : Type} (R : S -> K -> Prop).

(** Every signature is assigned a key, later signatures later keys. *)
Inductive sig_match : list S -> list K -> Prop :=
| match_nil keys : sig_match [] keys
| match_skip sigs k keys : sig_match sigs keys -> sig_match sigs (k :: keys)
| match_use s sigs k keys : R s k -> sig_match sigs keys -> sig_match (s :: sigs) (k :: keys).

Lemma sig_match_length sigs keys : sig_match sigs keys -> (length sigs <= length keys)%nat.
Proof. induction 1; simpl; lia. Qed.

Lemma sig_match_tail s sigs keys : sig_match (s :: sigs) keys -> sig_match sigs keys.
Proof.
  remember (s :: sigs) as l eqn:Hl. intros H. revert s sigs Hl.
  induction H as [|? ? ? _ IH|s' sigs' k keys _ Hm _]; intros s0 sigs0 Hl; [done|constructor; eauto|].
  injection Hl as -> ->. by constructor.
Qed.

(** Taking the first key that verifies is never wrong. *)
Lemma sig_match_greedy s sigs k keys :
  R s k -> sig_match (s :: sigs) (k :: keys) <-> sig_match sigs keys.
Proof.
  intros HR. split; [|by constructor]. intros H. inversion H; subst; [by eapply sig_match_tail|done].
Qed.

Lemma sig_match_skip s sigs k keys :
  ~ R s k -> sig_match (s :: sigs) (k :: keys) <-> sig_match (s :: sigs) keys.
Proof. intros HR. split; [|by constructor]. intros H. by inversion H. Qed.

Lemma sig_match_app s1 k1 s2 k2 : sig_match s1 k1 -> sig_match s2 k2 -> sig_match (s1 ++ s2) (k1 ++ k2).
Proof.
  intros H1 H2. induction H1 as [keys| |]; simpl; [|by constructor|by constructor].
  induction keys; simpl; [done|by constructor].
Qed.

Lemma sig_match_reverse_1 sigs keys : sig_match sigs keys -> sig_match (reverse sigs) (reverse keys).
Proof.
  induction 1 as [keys|sigs k keys _ IH|s sigs k keys HR _ IH]; rewrite ?reverse_cons.
  - constructor.
  - rewrite <- (app_nil_r (reverse sigs)). by apply sig_match_app; [|constructor].
  - apply sig_match_app; [done|]. by repeat constructor.
Qed.

Lemma sig_match_reverse sigs keys : sig_match (reverse sigs) (reverse keys) <-> sig_match sigs keys.
Proof.
  split; [|apply sig_match_reverse_1]. intros H%sig_match_reverse_1. by rewrite !reverse_involutive in H.
Qed.

End Matching.

(** ** The loop *)

Section Loop.
Context `{D : DecimalOps} `{C : CurveOps}.
Context (vm : Engine) (script : bytes).

Definition fresh (sig : bytes) : parsedSigInfo := mkParsedSigInfo sig None false.

(** The key verifies the signature. *)
Definition sig_verifies (sig pub : bytes) : Prop :=
  exists si, multisig_try vm script (fresh sig) pub = Ok (true, si).

(** A record is unused or what parsing its signature gives. *)
Definition coherent (si : parsedSigInfo) : Prop :=
  si = fresh (signature si)
  \/ exists ht sg, split_hash_type (signature si) = Ok (ht, sg) /\ multisig_parse vm (fresh (signature si)) ht sg = Ok si.

Lemma multisig_parse_inv si ht sg si' :
  multisig_parse vm si ht sg = Ok si' -> parsed_ si' = true /\ signature si' = signature si.
Proof.
  unfold multisig_parse. destruct (parsed_ si) eqn:Hp; [by intros [= <-]|]. intros H. inv_bind H. inv_bind H.
  destruct (parseSig vm sg); by simplify_eq.
Qed.

Lemma try_coherent si pub :
  coherent si -> multisig_try vm script si pub = multisig_try vm script (fresh (signature si)) pub.
Proof.
  intros [-> |(ht & sg & Hs & Hp)]; [done|]. unfold multisig_try. simpl signature.
  destruct (len (signature si) =? 0) eqn:Hl.
  { exfalso. apply Z.eqb_eq, len_0 in Hl. by rewrite Hl in Hs. }
  rewrite Hs. cbn [rbind]. rewrite Hp. destruct (multisig_parse_inv _ _ _ _ Hp) as [Hpd _].
  unfold multisig_parse at 1. by rewrite Hpd.
Qed.

Lemma try_keeps sig pub b si :
  multisig_try vm script (fresh sig) pub = Ok (b, si) -> signature si = sig /\ coherent si.
Proof.
  unfold multisig_try. simpl signature. destruct (len sig =? 0); [intros [= _ <-]; split; [done|by left]|].
  destruct (split_hash_type sig) as [[ht sg]| |] eqn:Hs; cbn [rbind]; [|done|done].
  destruct (multisig_parse vm (fresh sig) ht sg) as [si'| |] eqn:Hp; cbn [rbind]; [|done|done].
  destruct (multisig_parse_inv _ _ _ _ Hp) as [_ Hsig]. simpl in Hsig.
  assert (Hok : signature si' = sig /\ coherent si') by (split; [done|right; exists ht, sg; by rewrite Hsig]).
  destruct (parsedSignature si'); [|by intros [= _ <-]]. intros H. inv_bind H.
  destruct (secp_ParsePubKey pub); [|by injection H as _ <-]. inv_bind H. by injection H as _ <-.
Qed.

Lemma drop_index {A} (l : list A) i x :
  0 <= i -> index l i = Some x -> drop (Z.to_nat i) l = x :: drop (Z.to_nat (i + 1)) l.
Proof.
  intros Hi Hx. unfold index in Hx. destruct (i <? 0); [done|].
  rewrite (drop_S _ _ _ Hx). do 2 f_equal. lia.
Qed.

Lemma multisig_loop_match k : forall i j left sigs pks b,
  0 <= i -> 0 <= j -> 0 <= left -> Z.of_nat k + i = len pks -> j + left = len sigs -> Forall coherent sigs ->
  multisig_loop vm script pks k i j left sigs = Ok b ->
  b = true <-> sig_match sig_verifies (map signature (drop (Z.to_nat j) sigs)) (drop (Z.to_nat i) pks).
Proof.
  induction k as [|k IH]; intros i j left sigs pks b Hi Hj Hleft Hk Hl Hco H; cbn [multisig_loop] in H;
    destruct (Z.ltb_spec 0 left) as [Hpos|Hz]; cbn [negb] in H.
  2, 4: injection H as <-; rewrite (drop_ge sigs) by (unfold len in *; lia); split; [constructor|done].
  1: assert (Hfew : Z.of_nat 0 < left) by lia.
  2: destruct (Z.ltb_spec (Z.of_nat (S k)) left) as [Hfew|Hmany].
  1, 2: rewrite ?(proj2 (Z.ltb_lt _ _) Hfew) in H; injection H as <-; split; [done|]; intros Hm%sig_match_length;
    rewrite length_map, !length_drop in Hm; unfold len in *; lia.
  unfold len in *. inv_bind H. inv_bind H. inv_bind H. destruct a1 as [v si'].
  destruct (index sigs j) as [si|] eqn:Hsi; [|done]. injection Hr as <-.
  destruct (index pks i) as [pub|] eqn:Hpub; [|done]. injection Hr0 as <-.
  assert (Hcsi : coherent si) by (unfold index in Hsi; destruct (j <? 0); [done|]; by eapply Forall_lookup_1 in Hco).
  rewrite (try_coherent si pub Hcsi) in Hr1. destruct (try_keeps _ _ _ _ Hr1) as [Hsig Hcsi'].
  rewrite (drop_index sigs j si) by done. rewrite (drop_index pks i pub) by done. cbn [map].
  assert (Hj' : (Z.to_nat j < length sigs)%nat) by (apply Nat2Z.inj_lt; lia).
  assert (Hco' : Forall coherent (<[Z.to_nat j:=si']> sigs)) by by apply list.Forall_insert.
  assert (Hd : drop (Z.to_nat (j + 1)) (<[Z.to_nat j:=si']> sigs) = drop (Z.to_nat (j + 1)) sigs).
  { apply drop_insert_lt. lia. }
  destruct v.
  - apply IH in H; [|lia..|unfold len; rewrite list.length_insert; lia|done]. rewrite Hd in H.
    rewrite sig_match_greedy; [done|]. by exists si'.
  - apply IH in H; [|lia..|unfold len; rewrite list.length_insert; lia|done].
    rewrite (drop_index _ j si') in H; [|done|].
    2: { unfold index. z_test. by apply list_lookup_insert_eq. }
    cbn [map] in H. rewrite Hd, Hsig in H. rewrite sig_match_skip; [done|]. intros [si'' Ht]. congruence.
Qed.

End Loop.

(** ** The handler *)

Section Handler.
Context `{D : DecimalOps} `{C : CurveOps}.

Lemma len_one {A} (x : A) : len [x] = 1.
Proof. done. Qed.

Ltac stack_fits := rewrite stk_set, ?len_app, ?len_one; lia.

Lemma popMany_spec l k s :
  len (stk s) < 2 ^ 31 -> stk s = l ++ k -> popMany (length k) s = Ok (reverse k, set_stk s l).
Proof.
  revert l s. induction k as [|x k IH] using rev_ind; intros l s Hl Hs.
  - simpl. rewrite app_nil_r in Hs. subst l. by destruct s.
  - rewrite length_app, Nat.add_comm. simpl. rewrite app_assoc in Hs. rewrite (pop_snoc s (l ++ k) x Hl Hs). cbn [rbind].
    rewrite (IH l (set_stk s (l ++ k))); [|simpl; rewrite Hs, len_app in Hl; pose proof (len_nonneg [x]); lia|done].
    cbn [rbind]. by rewrite reverse_app.
Qed.

Lemma PopInt_spec s l b n :
  len (stk s) < 2 ^ 31 -> stk s = l ++ [b] -> MakeScriptNum b (verifyMinimalData s) maxScriptNumLen = Ok n ->
  stack_PopInt s = Ok (n, set_stk s l).
Proof. intros Hl Hs Hn. unfold stack_PopInt. rewrite (pop_snoc s l b Hl Hs). cbn [rbind]. simpl verifyMinimalData. by rewrite Hn. Qed.

Lemma scriptNum_Int32_small n : 0 <= n <= 1000 -> scriptNum_Int32 n = n.
Proof. intros Hn. unfold scriptNum_Int32, maxInt32, minInt32. z_test. apply int32_id. unfold is_int32. lia. Qed.

(** C18: [OP_CHECKMULTISIG] on a stack that holds, from the bottom, a dummy, the
    signatures, their number, the keys and their number: when the handler
    returns no error, it replaces them by one boolean, which is true exactly when
    the signatures can be assigned, in order, to keys that verify them. *)
Theorem checkmultisig_matches op data vm vm' l dummy sigs mb keys nb :
  len (stk (dstack vm)) <= 1000 ->
  stk (dstack vm) = l ++ [dummy] ++ sigs ++ [mb] ++ keys ++ [nb] ->
  MakeScriptNum mb (verifyMinimalData (dstack vm)) maxScriptNumLen = Ok (len sigs) ->
  MakeScriptNum nb (verifyMinimalData (dstack vm)) maxScriptNumLen = Ok (len keys) ->
  opcodeCheckMultiSig op data vm = Ok vm' ->
  exists script b, multisig_script vm (reverse sigs) = Ok script
    /\ stk (dstack vm') = l ++ [fromBool b]
    /\ (b = true <-> sig_match (sig_verifies vm script) sigs keys).
Proof.
  intros Hsmall Hst Hmb Hnb H. unfold opcodeCheckMultiSig in H. destruct (non_nil _); [done|].
  pose proof (len_nonneg keys). pose proof (len_nonneg sigs). pose proof (len_nonneg l).
  assert (Hfit : len l + 1 + len sigs + 1 + len keys + 1 <= 1000).
  { rewrite Hst in Hsmall. rewrite !len_app, !len_one in Hsmall. lia. }
  rewrite (PopInt_spec (dstack vm) (l ++ [dummy] ++ sigs ++ [mb] ++ keys) nb (len keys)) in H;
    [|lia|by rewrite Hst, <- !app_assoc|done].
  cbn [rbind] in H. rewrite scriptNum_Int32_small in H by lia. do 3 (destruct (_ <? _) in H; [done|]).
  replace (Z.to_nat (len keys)) with (length keys) in H by (unfold len; lia).
  rewrite (popMany_spec (l ++ [dummy] ++ sigs ++ [mb]) keys) in H; [|stack_fits|by rewrite stk_set, <- !app_assoc].
  cbn [rbind] in H.
  rewrite (PopInt_spec _ (l ++ [dummy] ++ sigs) mb (len sigs)) in H; [|stack_fits|by rewrite stk_set, <- !app_assoc|done].
  cbn [rbind] in H. rewrite scriptNum_Int32_small in H by lia. do 2 (destruct (_ <? _) in H; [done|]).
  replace (Z.to_nat (len sigs)) with (length sigs) in H by (unfold len; lia).
  rewrite (popMany_spec (l ++ [dummy]) sigs) in H; [|stack_fits|by rewrite stk_set, <- !app_assoc].
  cbn [rbind] in H. rewrite (pop_snoc _ l dummy) in H; [|stack_fits|done].
  cbn [rbind] in H. destruct (_ && negb _) in H; [done|]. inv_bind H. inv_bind H.
  destruct (negb _ && _ && _) in H; [done|]. injection H as <-.
  exists a, a0. split_and!; [exact Hr|done|].
  apply multisig_loop_match in Hr0; [|lia..|unfold len; rewrite length_reverse; lia| |].
  - rewrite Hr0. change (Z.to_nat 0) with 0%nat. rewrite !drop_0, map_map. cbn [signature]. rewrite map_id. apply sig_match_reverse.
  - unfold len. rewrite length_map, length_reverse. lia.
  - apply Forall_map. apply Forall_true. intros sig. by left.
Qed.

End Handler.

(** ** A concrete stack *)

(** One signature and two keys; the cache knows every signature. *)
Definition demo_der : bytes := [0x30; 6; 2; 1; 1; 2; 1; 1; 1].
Definition demo_pub (x : Z) : bytes := 2 :: replicate 32 x.

Definition demo_multisig : Engine (D := text_decimal) :=
  set_dstack (mkStack [[]; demo_der; [1]; demo_pub 3; demo_pub 4; [2]] true)
    (initial [OP_1] [OP_CHECKMULTISIG]
       (mkEngineConfig (D := text_decimal) StandardVerifyFlags (demo_tx [OP_1] []) 0 0 false (Some (fun _ _ _ => true))
          (Some demo_hashes) (demo_fetcher [OP_CHECKMULTISIG]) 1000 []) true None).

Lemma demo_multisig_runs :
  exists vm', opcodeCheckMultiSig OP_CHECKMULTISIG None demo_multisig = Ok vm' /\ stk (dstack vm') = [[1]].
Proof. eexists. split; vm_compute; reflexivity. Qed.

Lemma checkmultisig_matches_witness :
  exists (vm' : Engine (D := text_decimal)) script b, multisig_script demo_multisig [demo_der] = Ok script
    /\ stk (dstack vm') = [] ++ [fromBool b]
    /\ (b = true <-> sig_match (sig_verifies demo_multisig script) [demo_der] [demo_pub 3; demo_pub 4]).
Proof.
  destruct demo_multisig_runs as (vm' & Hrun & _). exists vm'.
  apply (checkmultisig_matches OP_CHECKMULTISIG None demo_multisig vm' [] [] [demo_der] [1] [demo_pub 3; demo_pub 4] [2]);
    [vm_compute; congruence|reflexivity|vm_compute; reflexivity|vm_compute; reflexivity|exact Hrun].
Defined.
