(* ===== verification/Der.v ===== *)
(** * Strict signature encodings

    The signatures that pass [checkSignatureEncoding] under the strict flags are
    exactly the DER encodings of pairs of non-negative integers; so a third party
    cannot re-encode a signature. *)

From Stdlib Require Import ZArith Lia.
From stdpp Require Import base list numbers option strings.
From S2P Require Import Prelude ScriptNum Tokenizer ScriptStack ScriptStd Sha Curve CurveModel SigValidate EngineSafe.

(** ** Big-endian integers *)

Lemma be_decode_acc_spec b acc : be_decode_acc acc b = acc * 256 ^ len b + be_decode_acc 0 b.
Proof.
  revert acc. induction b as [|x b IH]; intros acc; cbn [be_decode_acc]; [change (256 ^ len (@nil Z)) with 1; lia|].
  rewrite IH, (IH (0 * 256 + x)), len_cons, Z.pow_add_r by (pose proof (len_nonneg b); lia). lia.
Qed.

Lemma be_decode_cons x b : be_decode (x :: b) = x * 256 ^ len b + be_decode b.
Proof. unfold be_decode at 1. cbn [be_decode_acc]. rewrite be_decode_acc_spec. done. Qed.

Lemma be_decode_le b : be_decode b = le_decode (reverse b).
Proof.
  induction b as [|x b IH]; [done|]. rewrite be_decode_cons, reverse_cons, le_decode_snoc, IH.
  unfold len at 2. rewrite length_reverse. fold (len b). lia.
Qed.

Lemma be_decode_bound b : bytes_ok b -> 0 <= be_decode b < 256 ^ len b.
Proof.
  intros Hb. rewrite be_decode_le. pose proof (le_decode_bound (reverse b)) as H.
  unfold len in *. rewrite length_reverse in H. apply H. by apply Forall_reverse.
Qed.

Lemma be_encode_decode b : bytes_ok b -> be_encode (length b) (be_decode b) = b.
Proof.
  intros Hb. unfold be_encode. rewrite be_decode_le, <- (length_reverse b), le_encode_decode by by apply Forall_reverse.
  apply reverse_involutive.
Qed.

Lemma be_decode_encode n v : 0 <= v < 256 ^ Z.of_nat n -> be_decode (be_encode n v) = v.
Proof. intros Hv. unfold be_encode. rewrite be_decode_le, reverse_involutive. by apply le_decode_encode. Qed.

(** ** Minimal two's complement of a non-negative integer *)

(** The number of bytes that hold the value and a sign bit. *)
Definition der_size (v : Z) : nat := Z.to_nat ((if v =? 0 then 0 else Z.log2 v + 1) / 8 + 1).

Definition der_int (v : Z) : bytes := be_encode (der_size v) v.

(** No sign bit and no superfluous leading zero. *)
Definition minimal_int (b : bytes) : Prop :=
  match b with
  | [] => False
  | [x] => x < 128
  | x :: y :: _ => x < 128 /\ (x = 0 -> 128 <= y)
  end.

Lemma pow256 n : 0 <= n -> 256 ^ n = 2 ^ (8 * n).
Proof. intros Hn. rewrite Z.pow_mul_r by lia. done. Qed.

Lemma der_size_unique v n :
  0 <= n -> 0 <= v < 128 * 256 ^ n -> n = 0 \/ 128 * 256 ^ (n - 1) <= v -> Z.of_nat (der_size v) = n + 1.
Proof.
  intros Hn [H0 Hv] Hlow. unfold der_size. rewrite Z2Nat.id.
  2: { case_match; [done|]. pose proof (Z.log2_nonneg v). pose proof (Z.div_pos (Z.log2 v + 1) 8). lia. }
  f_equal. destruct (Z.eqb_spec v 0) as [->|Hne].
  { destruct Hlow as [->|Hlow]; [done|]. pose proof (Z.pow_pos_nonneg 256 (n - 1)).
    destruct (Z.eq_dec n 0) as [->|]; [done|]. lia. }
  assert (Hup : Z.log2 v < 8 * n + 7).
  { apply Z.log2_lt_pow2; [lia|]. rewrite Z.pow_add_r, <- pow256 by lia. lia. }
  assert (Hlo : 8 * n <= Z.log2 v + 1).
  { destruct Hlow as [->|Hlow]; [pose proof (Z.log2_nonneg v); lia|].
    destruct (Z.eq_dec n 0) as [->|]; [pose proof (Z.log2_nonneg v); lia|].
    assert (8 * n - 1 <= Z.log2 v); [|lia]. apply Z.log2_le_pow2; [lia|].
    replace (8 * n - 1) with (7 + 8 * (n - 1)) by lia. rewrite Z.pow_add_r, <- pow256 by lia. exact Hlow. }
  symmetry. apply (Z.div_unique (Z.log2 v + 1) 8 n (Z.log2 v + 1 - 8 * n)); lia.
Qed.

Lemma der_size_spec v :
  0 <= v ->
  exists n, 0 <= n /\ Z.of_nat (der_size v) = n + 1 /\ v < 128 * 256 ^ n /\ (n = 0 \/ 128 * 256 ^ (n - 1) <= v).
Proof.
  intros Hv. destruct (Z.eqb_spec v 0) as [->|Hne]; [exists 0; split_and!; [done|done|done|by left]|].
  exists ((Z.log2 v + 1) / 8). pose proof (Z.log2_nonneg v) as Hl. pose proof (Z.log2_spec v ltac:(lia)) as [Hlo Hup].
  pose proof (Z.div_pos (Z.log2 v + 1) 8 ltac:(lia) ltac:(lia)) as Hn.
  pose proof (Z.mul_div_le (Z.log2 v + 1) 8 ltac:(lia)). pose proof (Z.mul_succ_div_gt (Z.log2 v + 1) 8 ltac:(lia)).
  set (n := (Z.log2 v + 1) / 8) in *. split_and!; [done| | |].
  - unfold der_size. rewrite (proj2 (Z.eqb_neq v 0) Hne). fold n. lia.
  - rewrite pow256 by done. change 128 with (2 ^ 7). rewrite <- Z.pow_add_r by lia.
    eapply Z.lt_le_trans; [exact Hup|]. apply Z.pow_le_mono_r; lia.
  - destruct (Z.eq_dec n 0) as [->|]; [by left|right]. rewrite pow256 by lia. change 128 with (2 ^ 7).
    rewrite <- Z.pow_add_r by lia. etransitivity; [|exact Hlo]. apply Z.pow_le_mono_r; lia.
Qed.

Lemma minimal_bounds x b :
  bytes_ok (x :: b) ->
  minimal_int (x :: b) <->
  be_decode (x :: b) < 128 * 256 ^ len b /\ (len b = 0 \/ 128 * 256 ^ (len b - 1) <= be_decode (x :: b)).
Proof.
  intros [Hx Hb]%Forall_cons_iff. unfold is_byte in Hx. rewrite be_decode_cons.
  pose proof (be_decode_bound b Hb) as Hbd. pose proof (len_nonneg b).
  destruct b as [|y b]; simpl minimal_int.
  - change (len (@nil Z)) with 0. change (256 ^ 0) with 1 in *. change (be_decode []) with 0. split; [intros; split; [lia|by left]|lia].
  - apply Forall_cons_iff in Hb as [Hy Hb]. unfold is_byte in Hy. pose proof (be_decode_bound b Hb).
    rewrite be_decode_cons in *. rewrite len_cons in *. pose proof (len_nonneg b).
    replace (1 + len b - 1) with (len b) by lia. rewrite Z.pow_add_r in * by lia. change (256 ^ 1) with 256 in *.
    pose proof (Z.pow_pos_nonneg 256 (len b)). set (p := 256 ^ len b) in *. split.
    + intros [Hx' Hy']. split; [nia|right]. destruct (Z.eq_dec x 0) as [->|]; [specialize (Hy' eq_refl); nia|nia].
    + intros [Hup [?|Hlow]]; [lia|]. split; [nia|]. intros ->. nia.
Qed.

Lemma minimal_int_der b : bytes_ok b -> minimal_int b <-> b <> [] /\ b = der_int (be_decode b).
Proof.
  intros Hb. destruct b as [|x b]; [split; [done|by intros [? _]]|].
  rewrite minimal_bounds by done. pose proof (be_decode_bound _ Hb) as Hbd. pose proof (len_nonneg b).
  split.
  - intros [Hup Hlow]. split; [done|]. unfold der_int.
    pose proof (der_size_unique (be_decode (x :: b)) (len b) ltac:(lia) ltac:(lia) Hlow) as Hs.
    replace (der_size _) with (length (x :: b)) by (unfold len in Hs; simpl length; lia). by rewrite be_encode_decode.
  - intros [_ Heq]. destruct (der_size_spec (be_decode (x :: b)) ltac:(lia)) as (n & Hn & Hs & Hup & Hlow).
    assert (Hl : len (x :: b) = n + 1).
    { rewrite Heq. unfold der_int. by rewrite be_encode_len. }
    rewrite len_cons in Hl. replace (len b) with n by lia. done.
Qed.

(** ** The layout *)

Definition der_layout (r s : bytes) : bytes :=
  [0x30; 4 + len r + len s; 0x02; len r] ++ r ++ [0x02; len s] ++ s.

(** The DER encoding of two non-negative integers. *)
Definition der_encode (r s : Z) : bytes := der_layout (der_int r) (der_int s).

Lemma len_der_layout r s : len (der_layout r s) = 6 + len r + len s.
Proof. unfold der_layout. rewrite !len_app. change (len [0x30; 4 + len r + len s; 0x02; len r]) with 4. change (len [0x02; len s]) with 2. lia. Qed.

(** The sign and padding checks on one integer. *)
Definition int_checks (b : bytes) (neg pad : ErrorCode) : outcome unit :=
  let! b0 := byte_at b 0 in
  let! _ := check (negb (Z.land b0 0x80 =? 0)) neg in
  if (1 <? len b) && (b0 =? 0x00) then
    let! b1 := byte_at b 1 in
    check (Z.land b1 0x80 =? 0) pad
  else Ok tt.

Lemma int_checks_iff b neg pad :
  bytes_ok b -> 1 <= len b -> int_checks b neg pad = Ok tt <-> minimal_int b.
Proof.
  intros Hb Hl. destruct b as [|x b]; [done|]. apply Forall_cons_iff in Hb as [Hx Hb].
  unfold int_checks. change (byte_at (x :: b) 0) with (Ok (E := ErrorCode) x). cbn [rbind].
  rewrite (land_80 x Hx), len_cons. unfold check. destruct b as [|y b]; simpl minimal_int.
  - change (1 <? 1 + len (@nil Z)) with false. destruct (Z.ltb_spec x 128); simpl; split; (done || lia).
  - apply Forall_cons_iff in Hb as [Hy _]. rewrite len_cons. pose proof (len_nonneg b).
    change (byte_at (x :: y :: b) 1) with (Ok (E := ErrorCode) y). z_test. rewrite (land_80 y Hy).
    destruct (Z.ltb_spec x 128), (Z.eqb_spec x 0), (Z.ltb_spec y 128); simpl; split; try done; try lia.
Qed.

Lemma byte_at_mid a x b i : i = len a -> byte_at (a ++ x :: b) i = Ok x.
Proof. intros Hi. unfold byte_at. by rewrite index_mid. Qed.

(** Bytes of a part of a list. *)
Lemma byte_at_part a b c i j : 0 <= j < len b -> i = len a + j -> byte_at (a ++ b ++ c) i = byte_at b j.
Proof.
  intros Hj ->. unfold byte_at, index. pose proof (len_nonneg a). z_test. f_equal. unfold len in *.
  rewrite lookup_app_r by lia. rewrite lookup_app_l by lia. f_equal. lia.
Qed.

Lemma check_pass {B} bad e (k : unit -> outcome B) : bad = false -> rbind (check bad e) k = k tt.
Proof. by intros ->. Qed.

Ltac passes :=
  rewrite check_pass
    by (rewrite ?negb_false_iff; first [apply Z.ltb_ge | apply Z.leb_gt | apply Z.eqb_eq | apply Z.eqb_neq]; lia).

Lemma if_byte (b l : bytes) off x c e :
  (forall j, 0 <= j < len b -> byte_at l (off + j) = byte_at b j) ->
  (if (1 <? len b) && c then let! y := byte_at l (off + 1) in check (x y) e else Ok tt)
  = (if (1 <? len b) && c then let! y := byte_at b 1 in check (x y) e else Ok tt).
Proof. intros Hb. destruct (Z.ltb_spec 1 (len b)); [|done]. by rewrite Hb by lia. Qed.

(** Where the bytes of the layout are. *)
Lemma layout_facts r s :
  byte_at (der_layout r s) 0 = Ok 0x30 /\ byte_at (der_layout r s) 1 = Ok (4 + len r + len s)
  /\ byte_at (der_layout r s) 2 = Ok 0x02 /\ byte_at (der_layout r s) 3 = Ok (len r)
  /\ byte_at (der_layout r s) (4 + len r) = Ok 0x02 /\ byte_at (der_layout r s) (4 + len r + 1) = Ok (len s)
  /\ (forall j, 0 <= j < len r -> byte_at (der_layout r s) (4 + j) = byte_at r j)
  /\ (forall j, 0 <= j < len s -> byte_at (der_layout r s) (4 + len r + 1 + 1 + j) = byte_at s j)
  /\ subslice (E := ErrorCode) (der_layout r s) 4 (4 + len r) = Ok r
  /\ (forall i, i = 6 + len r -> subslice (E := ErrorCode) (der_layout r s) i (i + len s) = Ok s).
Proof.
  assert (Hhead : der_layout r s = [0x30; 4 + len r + len s; 0x02; len r] ++ r ++ ([0x02; len s] ++ s)) by done.
  assert (Htype : der_layout r s = ([0x30; 4 + len r + len s; 0x02; len r] ++ r) ++ 0x02 :: (len s :: s)).
  { by rewrite Hhead, <- app_assoc. }
  assert (Hslen : der_layout r s = (([0x30; 4 + len r + len s; 0x02; len r] ++ r) ++ [0x02]) ++ len s :: s).
  { by rewrite Hhead, <- !app_assoc. }
  assert (Htail : der_layout r s = (([0x30; 4 + len r + len s; 0x02; len r] ++ r) ++ [0x02; len s]) ++ s ++ []).
  { by rewrite Hhead, app_nil_r, <- !app_assoc. }
  assert (Hlen4 : len ([0x30; 4 + len r + len s; 0x02; len r] ++ r) = 4 + len r) by (rewrite len_app; done).
  pose proof (len_nonneg r). pose proof (len_nonneg s).
  assert (B0 : byte_at (der_layout r s) 0 = Ok 0x30) by done.
  assert (B1 : byte_at (der_layout r s) 1 = Ok (4 + len r + len s)) by done.
  assert (B2 : byte_at (der_layout r s) 2 = Ok 0x02) by done.
  assert (B3 : byte_at (der_layout r s) 3 = Ok (len r)) by done.
  assert (Bt : byte_at (der_layout r s) (4 + len r) = Ok 0x02) by (rewrite Htype; apply byte_at_mid; lia).
  assert (Bs : byte_at (der_layout r s) (4 + len r + 1) = Ok (len s)).
  { rewrite Hslen. apply byte_at_mid. rewrite len_app, Hlen4. done. }
  assert (Br : forall j, 0 <= j < len r -> byte_at (der_layout r s) (4 + j) = byte_at r j).
  { intros j Hj. rewrite Hhead. by apply byte_at_part. }
  assert (Bss : forall j, 0 <= j < len s -> byte_at (der_layout r s) (4 + len r + 1 + 1 + j) = byte_at s j).
  { intros j Hj. rewrite Htail. apply byte_at_part; [done|]. rewrite len_app, Hlen4. change (len [0x02; len s]) with 2. lia. }
  split_and!; try done.
  - rewrite Hhead. apply (subslice_mid [0x30; 4 + len r + len s; 0x02; len r] r).
  - intros i ->. rewrite Htail. replace (6 + len r) with (len (([0x30; 4 + len r + len s; 0x02; len r] ++ r) ++ [0x02; len s])).
    + apply subslice_mid.
    + rewrite len_app, Hlen4. change (len [0x02; len s]) with 2. lia.
Qed.

Lemma checkSignatureDER_layout r s lowS :
  bytes_ok r -> bytes_ok s -> 1 <= len r -> 1 <= len s -> len r + len s <= 66 ->
  checkSignatureDER (der_layout r s) lowS
  = (let! _ := int_checks r ErrSigNegativeR ErrSigTooMuchRPadding in
     let! _ := int_checks s ErrSigNegativeS ErrSigTooMuchSPadding in
     if lowS then check (halfOrder <? be_decode s) ErrSigHighS else Ok tt).
Proof.
  intros Hr Hs Hlr Hls Hl. unfold checkSignatureDER. rewrite len_der_layout. cbv zeta.
  destruct (layout_facts r s) as (B0 & B1 & B2 & B3 & Bt & Bs & Br & Bss & _ & Hsub).
  rewrite B0, B1, B2, B3. cbn [rbind]. rewrite Bt, Bs. cbn [rbind]. do 9 passes.
  assert (Br0 : byte_at (der_layout r s) 4 = byte_at r 0) by (apply (Br 0); lia).
  assert (Bs0 : byte_at (der_layout r s) (4 + len r + 1 + 1) = byte_at s 0).
  { rewrite <- (Bss 0) by lia. f_equal. lia. }
  rewrite Br0, Bs0.
  unfold int_checks. destruct (byte_at r 0) as [r0| |]; cbn [rbind]; [|done|done].
  destruct (check (negb (Z.land r0 0x80 =? 0)) ErrSigNegativeR); cbn [rbind]; [|done|done].
  rewrite (if_byte r (der_layout r s) 4 (fun y => Z.land y 0x80 =? 0) _ _ Br). destruct (if (1 <? len r) && _ then _ else _); cbn [rbind]; [|done|done].
  do 2 passes. destruct (byte_at s 0) as [s0| |]; cbn [rbind]; [|done|done].
  destruct (check (negb (Z.land s0 0x80 =? 0)) ErrSigNegativeS); cbn [rbind]; [|done|done].
  rewrite (if_byte s (der_layout r s) _ (fun y => Z.land y 0x80 =? 0) _ _ Bss). destruct (if (1 <? len s) && _ then _ else _); cbn [rbind]; [|done|done].
  destruct lowS; [|done]. by rewrite (Hsub (4 + len r + 1 + 1)) by lia.
Qed.

(** Every byte string that passes has the layout. *)
Lemma check_inv bad e u : check bad e = Ok u -> bad = false.
Proof. by destruct bad. Qed.

Lemma byte_at_inv b i x : byte_at b i = Ok x -> 0 <= i /\ b !! Z.to_nat i = Some x.
Proof.
  unfold byte_at, index. destruct (Z.ltb_spec i 0); [done|]. destruct (b !! _); [|done]. by intros [= ->].
Qed.

Lemma split_layout rest n m :
  0 <= n -> len rest = n + 2 + m -> rest !! Z.to_nat n = Some 2 -> rest !! Z.to_nat (n + 1) = Some m ->
  exists r s, rest = r ++ [2; m] ++ s /\ len r = n /\ len s = m.
Proof.
  intros Hn Hl H0 H1. pose proof (len_nonneg rest).
  exists (take (Z.to_nat n) rest), (drop (Z.to_nat (n + 2)) rest).
  rewrite <- (take_drop (Z.to_nat n) rest) at 1.
  rewrite (drop_S _ _ _ H0). replace (S (Z.to_nat n)) with (Z.to_nat (n + 1)) by lia.
  rewrite (drop_S _ _ _ H1). replace (S (Z.to_nat (n + 1))) with (Z.to_nat (n + 2)) by lia.
  apply lookup_lt_Some in H1. unfold len in *. rewrite length_take, length_drop. split_and!; [done|lia|lia].
Qed.

Lemma lookup_skip4 {A} (a b c d : A) l n : 0 <= n -> (a :: b :: c :: d :: l) !! Z.to_nat (4 + n) = l !! Z.to_nat n.
Proof. intros Hn. by replace (Z.to_nat (4 + n)) with (4 + Z.to_nat n)%nat by lia. Qed.

Lemma der_int_ok v :
  0 <= v ->
  bytes_ok (der_int v) /\ 1 <= len (der_int v) /\ minimal_int (der_int v) /\ be_decode (der_int v) = v.
Proof.
  intros Hv. destruct (der_size_spec v Hv) as (n & Hn & Hs & Hup & _).
  assert (Hdec : be_decode (der_int v) = v).
  { unfold der_int. apply be_decode_encode. rewrite Hs, Z.pow_add_r by lia. lia. }
  assert (Hl : len (der_int v) = n + 1) by (unfold der_int; by rewrite be_encode_len).
  split_and!; [apply be_encode_ok|lia| |done]. apply minimal_int_der; [apply be_encode_ok|].
  split; [|by rewrite Hdec]. intros H0. rewrite H0 in Hl. change (len (@nil Z)) with 0 in Hl. lia.
Qed.

Lemma checkSignatureDER_shape sig lowS :
  bytes_ok sig -> checkSignatureDER sig lowS = Ok tt ->
  exists r s, bytes_ok r /\ bytes_ok s /\ 1 <= len r /\ 1 <= len s /\ len r + len s <= 66 /\ sig = der_layout r s.
Proof.
  intros Hok H. unfold checkSignatureDER in H. cbv zeta in H.
  repeat (apply rbind_ok_inv in H as (? & ? & H); cbv beta in H; lazymatch type of H with rbind _ _ = _ => idtac end).
  clear H. repeat match goal with H : check _ _ = Ok _ |- _ => apply check_inv in H end. bool_to_prop.
  destruct sig as [|a0 [|a1 [|a2 [|rLen rest]]]]; try (exfalso; unfold len in *; simpl in *; lia).
  repeat match goal with H : byte_at (_ :: _) _ = Ok ?x |- _ =>
    first [change (Ok (E := ErrorCode) a0 = Ok x) in H | change (Ok (E := ErrorCode) a1 = Ok x) in H
          |change (Ok (E := ErrorCode) a2 = Ok x) in H | change (Ok (E := ErrorCode) rLen = Ok x) in H
          |apply byte_at_inv in H as [? H]] end.
  repeat match goal with H : Ok _ = Ok _ |- _ => injection H as <- end. pose proof Hok as Hrest. do 4 apply Forall_cons_iff in Hrest as [? Hrest].
  assert (HrLen : 0 <= rLen) by (unfold is_byte in *; lia).
  assert (Htype : rest !! Z.to_nat rLen = Some 2).
  { rewrite <- (lookup_skip4 a0 a1 a2 rLen) by done. congruence. }
  assert (Hslen : rest !! Z.to_nat (rLen + 1) = Some x8).
  { rewrite <- (lookup_skip4 a0 a1 a2 rLen), Z.add_assoc by lia. done. }
  rewrite !len_cons in *.
  destruct (split_layout rest rLen x8) as (r & s & -> & Hlr & Hls); [done|lia|done|done|].
  apply bytes_ok_app in Hrest as [Hr [Hmid Hs]%bytes_ok_app]. apply Forall_cons_iff in Hmid as [_ [Hx8 _]%Forall_cons_iff].
  unfold is_byte in Hx8. exists r, s. rewrite !len_app in *. change (len [2; x8]) with 2 in *.
  split_and!; try done; [lia..|]. unfold der_layout. rewrite Hlr, Hls. simpl. repeat f_equal; lia.
Qed.

(** C24: under the strict flags a signature is accepted exactly when it is the DER
    encoding of two non-negative integers, of at most 72 bytes, with [s] at most
    half the group order when low [s] is required. *)
Theorem checkSignatureDER_iff sig lowS :
  bytes_ok sig ->
  checkSignatureDER sig lowS = Ok tt
  <-> exists r s, 0 <= r /\ 0 <= s /\ sig = der_encode r s /\ len sig <= 72 /\ (lowS = true -> s <= halfOrder).
Proof.
  intros Hok. split.
  - intros H. destruct (checkSignatureDER_shape sig lowS Hok H) as (r & s & Hr & Hs & Hlr & Hls & Hl & ->).
    rewrite checkSignatureDER_layout in H by done. inv_bind H. inv_bind H. destruct a, a0.
    apply int_checks_iff, minimal_int_der in Hr0 as [_ Hr0]; [|done..].
    apply int_checks_iff, minimal_int_der in Hr1 as [_ Hr1]; [|done..].
    exists (be_decode r), (be_decode s). unfold der_encode. rewrite <- Hr0, <- Hr1, len_der_layout.
    split_and!; [apply be_decode_bound; done|apply be_decode_bound; done|done|lia|].
    intros ->. apply check_inv in H. apply Z.ltb_ge in H. done.
  - intros (r & s & Hr & Hs & -> & Hl & Hlow). unfold der_encode in *. rewrite len_der_layout in Hl.
    destruct (der_int_ok r Hr) as (Hr1 & Hr2 & Hr3 & _). destruct (der_int_ok s Hs) as (Hs1 & Hs2 & Hs3 & Hs4).
    rewrite checkSignatureDER_layout by (done || lia).
    rewrite (proj2 (int_checks_iff _ _ _ Hr1 Hr2) Hr3), (proj2 (int_checks_iff _ _ _ Hs1 Hs2) Hs3). cbn [rbind].
    destruct lowS; [|done]. unfold check. rewrite Hs4. specialize (Hlow eq_refl). by z_test.
Qed.

Lemma checkSignatureDER_iff_witness :
  checkSignatureDER [0x30; 6; 2; 1; 1; 2; 1; 1] true = Ok tt
  <-> exists r s, 0 <= r /\ 0 <= s /\ [0x30; 6; 2; 1; 1; 2; 1; 1] = der_encode r s
      /\ len [0x30; 6; 2; 1; 1; 2; 1; 1] <= 72 /\ (true = true -> s <= halfOrder).
Proof. apply (checkSignatureDER_iff [0x30; 6; 2; 1; 1; 2; 1; 1] true). repeat constructor; lia. Defined.

(** ** Parsing *)

Section Parsing.
Context `{C : CurveOps} {CL : CurveLaws C}.

Lemma strip_zeroes_decode b : be_decode (strip_zeroes b) = be_decode b.
Proof.
  induction b as [|x b IH]; [done|]. cbn [strip_zeroes]. destruct (Z.eqb_spec x 0) as [->|]; [|done].
  rewrite IH, be_decode_cons. lia.
Qed.

Lemma strip_zeroes_ok b : bytes_ok b -> bytes_ok (strip_zeroes b).
Proof. induction 1 as [|x b Hx Hb IH]; [constructor|]. cbn [strip_zeroes]. case_match; [done|by constructor]. Qed.

(** The scalar of an integer is its value, which is below the group order. *)
Lemma parseInt_val der b a : bytes_ok b -> parseInt der b = Ok a -> scalar_val a = be_decode b /\ be_decode b < curve_n.
Proof.
  intros Hb H. unfold parseInt in H. inv_bind H. inv_bind H. apply check_inv in Hr0. apply Z.ltb_ge in Hr0.
  destruct (scalar_SetByteSlice_spec (strip_zeroes b)) as [Hv Ho]; [by apply strip_zeroes_ok|lia|].
  destruct (scalar_SetByteSlice (strip_zeroes b)) as [v o]. simpl in Hv, Ho. inv_bind H. inv_bind H. injection H as <-.
  apply check_inv in Hr1. rewrite Hr1, strip_zeroes_decode in *. symmetry in Ho. apply Z.leb_gt in Ho.
  rewrite Hv, Z.mod_small by (pose proof (be_decode_bound b Hb); lia). done.
Qed.

Lemma ecdsa_parse_layout r s p :
  bytes_ok r -> bytes_ok s -> 1 <= len r -> 1 <= len s -> len r + len s <= 66 ->
  ecdsa_parseSig (der_layout r s) true = Ok p ->
  scalar_val p.1 = be_decode r /\ scalar_val p.2 = be_decode s.
Proof.
  intros Hr Hs Hlr Hls Hl H. unfold ecdsa_parseSig in H. rewrite len_der_layout in H. cbv zeta in H.
  destruct (layout_facts r s) as (B0 & B1 & B2 & B3 & Bt & Bs & _ & _ & Hsr & Hss).
  rewrite B0, B1 in H. cbn [rbind] in H. inv_bind H. inv_bind H. inv_bind H. inv_bind H.
  rewrite uint8_id in H by (unfold is_byte; lia).
  replace (4 + len r + len s + 2) with (len (der_layout r s)) in H by (rewrite len_der_layout; lia).
  rewrite <- (app_nil_r (der_layout r s)) in H at 1. rewrite subslice_prefix in H. cbn [rbind] in H.
  rewrite B2, B3 in H. cbn [rbind] in H. inv_bind H. inv_bind H. rewrite Hsr in H. cbn [rbind] in H. inv_bind H.
  rewrite Bt, Bs in H. cbn [rbind] in H. inv_bind H. inv_bind H. rewrite (Hss (4 + len r + 2)) in H by lia.
  cbn [rbind] in H. inv_bind H. inv_bind H. injection H as <-. simpl.
  apply parseInt_val in Hr6 as [? _]; [|done]. apply parseInt_val in Hr9 as [? _]; [|done]. done.
Qed.

(** C25: a strictly encoded signature is the only strict encoding of the pair it
    parses to, so a third party cannot change the encoding of a signature. *)
Theorem strict_signature_unique sig sig' low low' p :
  bytes_ok sig -> bytes_ok sig' ->
  checkSignatureDER sig low = Ok tt -> checkSignatureDER sig' low' = Ok tt ->
  ecdsa_ParseDERSignature sig = Ok p -> ecdsa_ParseDERSignature sig' = Ok p -> sig = sig'.
Proof.
  intros Hok Hok' H H' Hp Hp'.
  destruct (checkSignatureDER_shape _ _ Hok H) as (r & s & Hr & Hs & Hlr & Hls & Hl & ->).
  destruct (checkSignatureDER_shape _ _ Hok' H') as (r' & s' & Hr' & Hs' & Hlr' & Hls' & Hl' & ->).
  apply ecdsa_parse_layout in Hp as [E1 E2]; [|done..]. apply ecdsa_parse_layout in Hp' as [E1' E2']; [|done..].
  rewrite checkSignatureDER_layout in H, H' by done. inv_bind H. inv_bind H. inv_bind H'. inv_bind H'.
  destruct a, a0, a1, a2.
  apply int_checks_iff, minimal_int_der in Hr0 as [_ ->]; [|done..].
  apply int_checks_iff, minimal_int_der in Hr1 as [_ ->]; [|done..].
  apply int_checks_iff, minimal_int_der in Hr2 as [_ ->]; [|done..].
  apply int_checks_iff, minimal_int_der in Hr3 as [_ ->]; [|done..]. congruence.
Qed.

(** The scalar of a Schnorr signature is reduced, not refused, when it is not
    below the group order: [s] and [s] plus the order parse alike. *)
Lemma schnorr_s_wraps r s :
  len r = 32 -> 0 <= s -> s + curve_n < 2 ^ 256 ->
  schnorr_ParseSignature (r ++ be_encode 32 s) = schnorr_ParseSignature (r ++ be_encode 32 (s + curve_n)).
Proof.
  intros Hr Hs Hb. assert (Hn : 0 < curve_n) by done. unfold schnorr_ParseSignature. rewrite !len_app, !be_encode_len.
  assert (Ht : forall x, take 32 (r ++ be_encode 32 x) = r).
  { intros x. apply take_app_length'. unfold len in Hr. lia. }
  assert (Hd : forall x, drop 32 (r ++ be_encode 32 x) = be_encode 32 x).
  { intros x. apply drop_app_length'. unfold len in Hr. lia. }
  rewrite !Ht, !Hd. assert (Hv : (scalar_SetByteSlice (be_encode 32 s)).1 = (scalar_SetByteSlice (be_encode 32 (s + curve_n))).1).
  { apply scalar_val_inj.
    destruct (scalar_SetByteSlice_spec (be_encode 32 s)) as [-> _]; [apply be_encode_ok|by rewrite be_encode_len|].
    destruct (scalar_SetByteSlice_spec (be_encode 32 (s + curve_n))) as [-> _]; [apply be_encode_ok|by rewrite be_encode_len|].
    rewrite !be_decode_encode by (change (256 ^ Z.of_nat 32) with (2 ^ 256); lia).
    replace (s + curve_n) with (s + 1 * curve_n) by lia. by rewrite Z_mod_plus_full. }
  by rewrite Hv.
Qed.

End Parsing.

Lemma strict_signature_unique_witness : [0x30; 6; 2; 1; 1; 2; 1; 1] = [0x30; 6; 2; 1; 1; 2; 1; 1].
Proof.
  apply (strict_signature_unique (CL := model_laws) [0x30; 6; 2; 1; 1; 2; 1; 1] [0x30; 6; 2; 1; 1; 2; 1; 1] true false (1, 1));
    first [vm_compute; reflexivity | repeat constructor; lia].
Defined.
