(* ===== verification/Block.v ===== *)
(** * Blocks ([wire/blockheader.go], [wire/msgblock.go], [btcutil/tx.go], [btcutil/block.go])

    The codec of block headers and blocks, and the wrappers that cache
    serializations and hashes.  A wrapper is a record of its cache fields; each
    method returns its result and the wrapper after the call.  The wrapped
    transactions of a block are shared with the caller in the code; the model
    writes the updated wrapper back into the block. *)

From Stdlib Require Import ZArith Lia.
From stdpp Require Import base list numbers option strings.
From S2P Require Import Prelude ScriptNum Tokenizer Sha Wire.

Section Block.
Context `{D : DecimalOps}.

(** ** Headers *)

(** [Timestamp] is kept as its [Unix] seconds. *)
Record BlockHeader : Type := mkBlockHeader {
  bh_Version : Z;
  PrevBlock : bytes;
  MerkleRoot : bytes;
  Timestamp : Z;
  Bits : Z;
  Nonce : Z;
}.

Definition blockHeaderLen : Z := 80.
Definition MaxBlockPayload : Z := 4000000.
Definition minTxPayload : Z := 10.
Definition maxTxPerBlock : Z := MaxBlockPayload / minTxPayload + 1.

Definition writeBlockHeader (bh : BlockHeader) : writer :=
  wput (put_uint32 (uint32 (bh_Version bh))) >>>
  wput (PrevBlock bh) >>>
  wput (MerkleRoot bh) >>>
  wput (put_uint32 (uint32 (Timestamp bh))) >>>
  wput (put_uint32 (Bits bh)) >>>
  wput (put_uint32 (Nonce bh)).

Definition readBlockHeader : reader BlockHeader := fun r =>
  let! '(version, r) := read_uint 4 r in
  let! '(prev, r) := ReadFull 32 r in
  let! '(root, r) := ReadFull 32 r in
  let! '(time, r) := read_uint 4 r in
  let! '(bits, r) := read_uint 4 r in
  let! '(nonce, r) := read_uint 4 r in
  Ok (mkBlockHeader (int32 version) prev root time bits nonce, r).

Definition BlockHash (h : BlockHeader) : bytes := DoubleHashRaw (writeBlockHeader h).

(** ** Blocks *)

Record MsgBlock : Type := mkMsgBlock { Header : BlockHeader; Transactions : list MsgTx }.

Record TxLoc : Type := mkTxLoc { TxStart : Z; TxLen : Z }.

Definition MsgBlock_BtcEncode (msg : MsgBlock) (enc : MessageEncoding) : writer :=
  writeBlockHeader (Header msg) >>>
  WriteVarInt (len (Transactions msg)) >>>
  wfor (fun tx => BtcEncode tx enc) (Transactions msg).

Definition MsgBlock_BtcDecode (enc : MessageEncoding) : reader MsgBlock := fun r =>
  let! '(header, r) := readBlockHeader r in
  let! '(txCount, r) := ReadVarInt r in
  if maxTxPerBlock <? txCount then Err ErrMessage
  else
    let! '(txs, r) := read_many txCount (btcDecode enc) r in
    Ok (mkMsgBlock header txs, r).

Definition MsgBlock_Serialize (msg : MsgBlock) : writer := MsgBlock_BtcEncode msg WitnessEncoding.
Definition MsgBlock_SerializeNoWitness (msg : MsgBlock) : writer := MsgBlock_BtcEncode msg BaseEncoding.
Definition MsgBlock_Deserialize : reader MsgBlock := MsgBlock_BtcDecode WitnessEncoding.
Definition MsgBlock_DeserializeNoWitness : reader MsgBlock := MsgBlock_BtcDecode BaseEncoding.

(** One turn of the loop of [DeserializeTxLoc]: [fullLen] is the length of the
    buffer before anything was read. *)
Definition readTxLoc (fullLen : Z) : reader (MsgTx * TxLoc) := fun r =>
  let start := fullLen - len r in
  let! '(tx, r) := btcDecode WitnessEncoding r in
  Ok ((tx, mkTxLoc start (fullLen - len r - start)), r).

Definition DeserializeTxLoc : reader (MsgBlock * list TxLoc) := fun r =>
  let fullLen := len r in
  let! '(header, r) := readBlockHeader r in
  let! '(txCount, r) := ReadVarInt r in
  if maxTxPerBlock <? txCount then Err ErrMessage
  else
    let! '(txs, r) := read_many txCount (readTxLoc fullLen) r in
    Ok ((mkMsgBlock header (map fst txs), map snd txs), r).

Definition MsgBlock_SerializeSize (msg : MsgBlock) : Z :=
  blockHeaderLen + VarIntSerializeSize (len (Transactions msg)) + sum_of SerializeSize (Transactions msg).

Definition MsgBlock_SerializeSizeStripped (msg : MsgBlock) : Z :=
  blockHeaderLen + VarIntSerializeSize (len (Transactions msg)) + sum_of SerializeSizeStripped (Transactions msg).

Definition MsgBlock_BlockHash (msg : MsgBlock) : bytes := BlockHash (Header msg).

Definition TxHashes (msg : MsgBlock) : list bytes := map TxHash (Transactions msg).

(** ** Wrapped transactions *)

Record Tx : Type := mkTx {
  msgTx : MsgTx;
  txHash : option bytes;
  txHashWitness : option bytes;
  txHasWitness : option bool;
  txIndex : Z;
  rawBytes : option bytes;
}.

Definition TxIndexUnknown : Z := -1.

Definition NewTx (m : MsgTx) : Tx := mkTx m None None None TxIndexUnknown None.

Definition SetIndex (t : Tx) (index : Z) : Tx :=
  mkTx (msgTx t) (txHash t) (txHashWitness t) (txHasWitness t) index (rawBytes t).

Definition setBytes (t : Tx) (b : bytes) : Tx :=
  mkTx (msgTx t) (txHash t) (txHashWitness t) (txHasWitness t) (txIndex t) (Some b).

Definition ClearHashCache (t : Tx) : Tx :=
  mkTx (msgTx t) None None (txHasWitness t) (txIndex t) (rawBytes t).

Definition Tx_HasWitness (t : Tx) : bool * Tx :=
  match txHasWitness t with
  | Some b => (b, t)
  | None =>
      let hasWitness := HasWitness (msgTx t) in
      (hasWitness, mkTx (msgTx t) (txHash t) (txHashWitness t) (Some hasWitness) (txIndex t) (rawBytes t))
  end.

Definition set_txHash (t : Tx) (h : bytes) : Tx :=
  mkTx (msgTx t) (Some h) (txHashWitness t) (txHasWitness t) (txIndex t) (rawBytes t).

Definition set_txHashWitness (t : Tx) (h : bytes) : Tx :=
  mkTx (msgTx t) (txHash t) (Some h) (txHasWitness t) (txIndex t) (rawBytes t).

(** The raw bytes without the two marker bytes and the witnesses.  The code
    only gets here with raw bytes of [SerializeSize] bytes, so no slice goes
    past their length. *)
Definition nonWitnessBytes {E : Type} (m : MsgTx) (raw : bytes) : result E bytes :=
  let baseSize := SerializeSizeStripped m in
  let! version := subslice raw 0 4 in
  let! body := subslice raw 6 (6 + baseSize - 8) in
  let! locktime := subslice raw (len raw - 4) (len raw) in
  Ok (version ++ body ++ locktime).

Definition Tx_Hash {E : Type} (t : Tx) : result E (bytes * Tx) :=
  match txHash t with
  | Some h => Ok (h, t)
  | None =>
      match rawBytes t with
      | None => let hash := TxHash (msgTx t) in Ok (hash, set_txHash t hash)
      | Some raw =>
          let '(hasWitness, t) := Tx_HasWitness t in
          let! b := (if hasWitness then nonWitnessBytes (msgTx t) raw else Ok raw) in
          let hash := DoubleHashRaw (wput b) in
          Ok (hash, set_txHash t hash)
      end
  end.

Definition Tx_WitnessHash (t : Tx) : bytes * Tx :=
  match txHashWitness t with
  | Some h => (h, t)
  | None =>
      let hash := match rawBytes t with
                  | Some (b :: raw) => DoubleHashB (b :: raw)
                  | _ => WitnessHash (msgTx t)
                  end in
      (hash, set_txHashWitness t hash)
  end.

Definition NewTxFromBytes (serializedTx : bytes) : result WireError Tx :=
  let! '(m, _) := Deserialize serializedTx in
  Ok (NewTx m).

(** ** Wrapped blocks *)

Record Block : Type := mkBlock {
  msgBlock : MsgBlock;
  serializedBlock : bytes;
  serializedBlockNoWitness : bytes;
  blockHash : option bytes;
  blockHeight : Z;
  transactions : list (option Tx);
  txnsGenerated : bool;
}.

Inductive BlockError : Type :=
| OutOfRangeError
| WireErr (e : WireError).

Definition BlockHeightUnknown : Z := -1.

Definition NewBlock (m : MsgBlock) : Block := mkBlock m [] [] None BlockHeightUnknown [] false.

Definition SetHeight (b : Block) (height : Z) : Block :=
  mkBlock (msgBlock b) (serializedBlock b) (serializedBlockNoWitness b) (blockHash b) height
    (transactions b) (txnsGenerated b).

Definition set_serialized (b : Block) (s : bytes) : Block :=
  mkBlock (msgBlock b) s (serializedBlockNoWitness b) (blockHash b) (blockHeight b)
    (transactions b) (txnsGenerated b).

Definition set_transactions (b : Block) (txs : list (option Tx)) (gen : bool) : Block :=
  mkBlock (msgBlock b) (serializedBlock b) (serializedBlockNoWitness b) (blockHash b) (blockHeight b) txs gen.

(** The result of a [Serialize] into a buffer. *)
Definition serialized_to (w : writer) : result BlockError bytes :=
  if w.2 then Ok w.1 else Err (WireErr ErrFormat).

Definition Block_Bytes (b : Block) : result BlockError (bytes * Block) :=
  if negb (len (serializedBlock b) =? 0) then Ok (serializedBlock b, b)
  else
    let! s := serialized_to (MsgBlock_Serialize (msgBlock b)) in
    Ok (s, set_serialized b s).

Definition Block_BytesNoWitness (b : Block) : result BlockError (bytes * Block) :=
  if negb (len (serializedBlockNoWitness b) =? 0) then Ok (serializedBlockNoWitness b, b)
  else
    let! s := serialized_to (MsgBlock_SerializeNoWitness (msgBlock b)) in
    Ok (s, mkBlock (msgBlock b) (serializedBlock b) s (blockHash b) (blockHeight b)
             (transactions b) (txnsGenerated b)).

Definition Block_Hash (b : Block) : bytes * Block :=
  match blockHash b with
  | Some h => (h, b)
  | None =>
      let hash := MsgBlock_BlockHash (msgBlock b) in
      (hash, mkBlock (msgBlock b) (serializedBlock b) (serializedBlockNoWitness b) (Some hash)
               (blockHeight b) (transactions b) (txnsGenerated b))
  end.

(** The slice of wrapped transactions, made when it is empty. *)
Definition alloc_transactions (b : Block) : list (option Tx) :=
  if len (transactions b) =? 0 then replicate (length (Transactions (msgBlock b))) None
  else transactions b.

Definition Block_Tx (b : Block) (txNum : Z) : result BlockError (Tx * Block) :=
  if (txNum <? 0) || (len (Transactions (msgBlock b)) <=? txNum) then Err OutOfRangeError
  else
    let txs := alloc_transactions b in
    let! slot := unwrap (txs !! Z.to_nat txNum) in
    match slot with
    | Some tx => Ok (tx, set_transactions b txs (txnsGenerated b))
    | None =>
        let! m := unwrap (Transactions (msgBlock b) !! Z.to_nat txNum) in
        let newTx := SetIndex (NewTx m) txNum in
        Ok (newTx, set_transactions b (<[Z.to_nat txNum := Some newTx]> txs) (txnsGenerated b))
    end.

(** The loop of [Transactions]: the offset moves on only past transactions that
    are wrapped here. *)
Fixpoint transactions_loop (serialized : bytes) (msgs : list MsgTx) (i : nat) (offset : Z)
    (txs : list (option Tx)) : result BlockError (list (option Tx)) :=
  match txs with
  | [] => Ok []
  | Some tx :: txs =>
      let! rest := transactions_loop serialized msgs (S i) offset txs in
      Ok (Some tx :: rest)
  | None :: txs =>
      let! m := unwrap (msgs !! i) in
      let newTx := SetIndex (NewTx m) (Z.of_nat i) in
      let size := SerializeSize m in
      let! '(newTx, offset) :=
        (if 0 <? len serialized then
           let! raw := subslice serialized offset (offset + size) in
           Ok (setBytes newTx raw, offset + size)
         else Ok (newTx, offset)) in
      let! rest := transactions_loop serialized msgs (S i) offset txs in
      Ok (Some newTx :: rest)
  end.

Definition Block_Transactions (b : Block) : result BlockError (list (option Tx) * Block) :=
  if txnsGenerated b then Ok (transactions b, b)
  else
    let offset := 80 + VarIntSerializeSize (len (Transactions (msgBlock b))) in
    let! txs := transactions_loop (serializedBlock b) (Transactions (msgBlock b)) 0 offset
                  (alloc_transactions b) in
    Ok (txs, set_transactions b txs true).

(** [f] applied to the wrapped transaction [txNum], which stays in the block. *)
Definition with_tx {A : Type} (f : Tx -> result BlockError (A * Tx)) (b : Block) (txNum : Z)
    : result BlockError (A * Block) :=
  let! '(tx, b) := Block_Tx b txNum in
  let! '(a, tx) := f tx in
  Ok (a, set_transactions b (<[Z.to_nat txNum := Some tx]> (transactions b)) (txnsGenerated b)).

Definition Block_TxHash (b : Block) (txNum : Z) : result BlockError (bytes * Block) :=
  with_tx Tx_Hash b txNum.

Definition lift_wire {A : Type} (r : result WireError A) : result BlockError A :=
  match r with
  | Ok a => Ok a
  | Err e => Err (WireErr e)
  | Panic => Panic
  end.

Definition Block_TxLoc (b : Block) : result BlockError (list TxLoc * Block) :=
  let! '(rawMsg, b) := Block_Bytes b in
  let! '((_, txLocs), _) := lift_wire (DeserializeTxLoc rawMsg) in
  Ok (txLocs, b).

Definition NewBlockFromReader (r : bytes) : result BlockError Block :=
  let! '(m, _) := lift_wire (MsgBlock_Deserialize r) in
  Ok (NewBlock m).

Definition NewBlockFromBlockAndBytes (m : MsgBlock) (serialized : bytes) : result BlockError Block :=
  let! '(_, b) := Block_Transactions (set_serialized (NewBlock m) serialized) in
  Ok b.

Definition NewBlockFromBytes (serialized : bytes) : result BlockError Block :=
  let! b := NewBlockFromReader serialized in
  let! '(_, b) := Block_Transactions (set_serialized b serialized) in
  Ok b.

End Block.

Section BlockProofs.
Context `{D : DecimalOps} {DL : DecimalLaws D}.

(** ** The codec *)

Definition enc_header (h : BlockHeader) : bytes :=
  le_encode 4 (uint32 (bh_Version h)) ++ PrevBlock h ++ MerkleRoot h
  ++ le_encode 4 (uint32 (Timestamp h)) ++ le_encode 4 (Bits h) ++ le_encode 4 (Nonce h).

Definition wf_header (h : BlockHeader) : Prop :=
  is_int32 (bh_Version h) /\ len (PrevBlock h) = 32 /\ len (MerkleRoot h) = 32
  /\ is_uint32 (Timestamp h) /\ is_uint32 (Bits h) /\ is_uint32 (Nonce h).

Lemma enc_header_len h : wf_header h -> len (enc_header h) = 80.
Proof.
  intros (_ & Hp & Hr & _). unfold enc_header. rewrite !len_app, !le_encode_len, Hp, Hr. lia.
Qed.

Lemma writeBlockHeader_put h : writeBlockHeader h = wput (enc_header h).
Proof. done. Qed.

Lemma readBlockHeader_app h rest : wf_header h -> readBlockHeader (enc_header h ++ rest) = Ok (h, rest).
Proof.
  intros (Hv & Hp & Hr & Ht & Hb & Hn). unfold enc_header, readBlockHeader. rewrite <- !app_assoc.
  rewrite (read_uint_app 4 4) by (done || apply Z.mod_pos_bound; lia). cbn [rbind].
  rewrite ReadFull_app by done. cbn [rbind]. rewrite ReadFull_app by done. cbn [rbind].
  rewrite uint32_id by done.
  do 3 (rewrite (read_uint_app 4 4) by done; cbn [rbind]).
  rewrite int32_uint32 by done. by destruct h.
Qed.

(** A transaction the decoder accepts again. *)
Definition bounded_tx (m : MsgTx) : Prop :=
  wf_tx m /\ TxIns m <> [] /\ SerializeSize m <= maxWitnessItemSize.

Definition wf_block (b : MsgBlock) : Prop :=
  wf_header (Header b) /\ Forall bounded_tx (Transactions b) /\ len (Transactions b) <= maxTxPerBlock.

Definition enc_block (b : MsgBlock) : bytes :=
  enc_header (Header b) ++ varint (len (Transactions b)) ++ concat (map enc_full (Transactions b)).

Lemma enc_full_pos m : 1 <= len (enc_full m).
Proof. unfold enc_full, enc_tx. rewrite len_app, le_encode_len. pose proof (len_nonneg (A := Z)). len_lia. Qed.

Lemma count_uint64 b : wf_block b -> is_uint64 (len (Transactions b)).
Proof.
  intros (_ & _ & Hn). pose proof (len_nonneg (Transactions b)). unfold is_uint64.
  change maxTxPerBlock with 400001 in Hn. lia.
Qed.

Lemma MsgBlock_Serialize_put b : wf_block b -> MsgBlock_Serialize b = wput (enc_block b).
Proof.
  intros Hb. pose proof (count_uint64 b Hb) as Hc. destruct Hb as (Hh & Ht & _).
  unfold MsgBlock_Serialize, MsgBlock_BtcEncode, enc_block.
  rewrite writeBlockHeader_put, WriteVarInt_put by done.
  rewrite (wfor_put _ enc_full); [by rewrite !wseq_put|].
  eapply Forall_impl; [exact Ht|]. intros m (Hw & Hne & Hs). by apply full_codec.
Qed.

Lemma enc_block_len b : wf_block b -> len (enc_block b) = MsgBlock_SerializeSize b.
Proof.
  intros (Hh & Ht & _). unfold enc_block, MsgBlock_SerializeSize, blockHeaderLen.
  rewrite !len_app, enc_header_len, varint_len by done. rewrite (sum_of_concat _ enc_full); [lia|].
  eapply Forall_impl; [exact Ht|]. intros m (Hw & Hne & Hs). by apply full_codec.
Qed.

(** Where the transactions of a block lie. *)
Fixpoint locations (start : Z) (msgs : list MsgTx) : list TxLoc :=
  match msgs with
  | [] => []
  | m :: msgs => mkTxLoc start (SerializeSize m) :: locations (start + SerializeSize m) msgs
  end.

Definition first_tx (b : MsgBlock) : Z := 80 + VarIntSerializeSize (len (Transactions b)).

Lemma read_locs_app msgs start rest fuel :
  Forall bounded_tx msgs -> (length msgs < fuel)%nat ->
  read_loop fuel (len msgs) (readTxLoc (start + len (concat (map enc_full msgs) ++ rest)))
    (concat (map enc_full msgs) ++ rest) = Ok (zip msgs (locations start msgs), rest).
Proof.
  intros Hm. revert start fuel. induction Hm as [|m msgs (Hw & Hne & Hs) Hm IH]; intros start fuel Hf;
    (destruct fuel as [|fuel]; [simpl in Hf; lia|]); [done|].
  cbn [read_loop map concat locations zip zip_with]. rewrite len_cons. pose proof (len_nonneg msgs).
  destruct (Z.leb_spec (1 + len msgs) 0) as [?|_]; [lia|].
  destruct (full_codec m Hw Hne Hs) as (_ & Hl & Hd). unfold Deserialize in Hd.
  rewrite <- !app_assoc. unfold readTxLoc at 1.
  rewrite Hd. cbn [rbind].
  rewrite len_app, Hl. simpl in Hf.
  replace (1 + len msgs - 1) with (len msgs) by lia.
  replace (start + (SerializeSize m + len (concat (map enc_full msgs) ++ rest)))
    with (start + SerializeSize m + len (concat (map enc_full msgs) ++ rest)) by lia.
  rewrite IH by lia. cbn [rbind].
  match goal with |- Ok ((m, ?loc) :: _, _) = _ => replace loc with (mkTxLoc start (SerializeSize m)) by (f_equal; lia) end.
  done.
Qed.

Lemma MsgBlock_Deserialize_app b rest :
  wf_block b -> MsgBlock_Deserialize (enc_block b ++ rest) = Ok (b, rest).
Proof.
  intros Hb. pose proof (count_uint64 b Hb) as Hc. destruct Hb as (Hh & Ht & Hn).
  unfold MsgBlock_Deserialize, MsgBlock_BtcDecode, enc_block. rewrite <- !app_assoc.
  rewrite readBlockHeader_app by done. cbn [rbind].
  rewrite ReadVarInt_app by done. cbn [rbind].
  destruct (Z.ltb_spec maxTxPerBlock (len (Transactions b))) as [?|_]; [lia|].
  rewrite read_many_app; [by destruct b| |by apply Forall_true, enc_full_pos].
  eapply Forall_impl; [exact Ht|]. intros m (Hw & Hne & Hs). by apply full_codec.
Qed.

Lemma zip_locations msgs start :
  map fst (zip msgs (locations start msgs)) = msgs
  /\ map snd (zip msgs (locations start msgs)) = locations start msgs.
Proof.
  revert start. induction msgs as [|m msgs IH]; intros start; [done|].
  cbn [locations zip zip_with map fst snd]. destruct (IH (start + SerializeSize m)) as [-> ->]. done.
Qed.

Lemma DeserializeTxLoc_app b rest :
  wf_block b -> DeserializeTxLoc (enc_block b ++ rest)
    = Ok ((b, locations (first_tx b) (Transactions b)), rest).
Proof.
  intros Hb. pose proof (count_uint64 b Hb) as Hc. destruct Hb as (Hh & Ht & Hn).
  unfold DeserializeTxLoc, enc_block. rewrite <- !app_assoc, readBlockHeader_app by done. cbn [rbind].
  rewrite ReadVarInt_app by done. cbn [rbind].
  destruct (Z.ltb_spec maxTxPerBlock (len (Transactions b))) as [?|_]; [lia|].
  rewrite !(len_app (enc_header _)), enc_header_len, (len_app (varint _)), varint_len by done.
  rewrite Z.add_assoc. fold (first_tx b). unfold read_many. rewrite read_locs_app; [|done|].
  - cbn [rbind]. destruct (zip_locations (Transactions b) (first_tx b)) as [-> ->]. by destruct b.
  - pose proof (concat_len_ge enc_full (Transactions b) 1 (Forall_true _ _ enc_full_pos)). len_lia.
Qed.

(** C28: Block codec: a well-formed block serializes into exactly [SerializeSize]
    bytes, those bytes, whatever follows them, decode to the same block, and
    [DeserializeTxLoc] finds for each transaction the slice of the bytes that
    is its own serialization. *)
Theorem block_roundtrip (b : MsgBlock) (rest : bytes) :
  wf_block b ->
  exists raw, MsgBlock_Serialize b = (raw, true) /\ len raw = MsgBlock_SerializeSize b
  /\ MsgBlock_Deserialize (raw ++ rest) = Ok (b, rest)
  /\ exists locs, DeserializeTxLoc (raw ++ rest) = Ok ((b, locs), rest)
     /\ length locs = length (Transactions b)
     /\ forall i loc m, locs !! i = Some loc -> Transactions b !! i = Some m ->
          take (Z.to_nat (TxLen loc)) (drop (Z.to_nat (TxStart loc)) raw) = (Serialize m).1.
Proof.
  intros Hb. exists (enc_block b). rewrite MsgBlock_Serialize_put by done.
  split_and!; [done|by apply enc_block_len|by apply MsgBlock_Deserialize_app|].
  exists (locations (first_tx b) (Transactions b)). split; [by apply DeserializeTxLoc_app|].
  assert (Hlen : forall msgs start, length (locations start msgs) = length msgs)
    by (induction msgs; simpl; auto).
  split; [apply Hlen|]. clear Hlen. destruct Hb as (Hh & Ht & Hn). unfold enc_block.
  assert (Hstart : first_tx b = len (enc_header (Header b) ++ varint (len (Transactions b)))).
  { rewrite len_app, enc_header_len, varint_len by done. done. }
  rewrite app_assoc, Hstart. revert Ht. generalize (enc_header (Header b) ++ varint (len (Transactions b))) as pre.
  generalize (Transactions b) as msgs. intros msgs pre Ht. revert pre.
  induction Ht as [|m msgs (Hw & Hne & Hs) Ht IH]; intros pre [|i] loc m' Hl Hm; [done|done| |];
    destruct (full_codec m Hw Hne Hs) as (Hser & Hsz & _); cbn [locations map concat lookup list_lookup] in *.
  - simplify_eq. cbn [TxLen TxStart]. rewrite Hser, <- Hsz. unfold len. rewrite !Nat2Z.id, drop_app_length.
    by rewrite take_app_length.
  - rewrite <- Hsz, <- len_app in Hl. rewrite app_assoc. by apply (IH _ i).
Qed.

(** ** The wrappers *)

Lemma subslice_at {E} (a m c : bytes) lo hi :
  lo = len a -> hi = len a + len m -> subslice (E := E) (a ++ m ++ c) lo hi = Ok m.
Proof.
  intros -> ->. unfold subslice. rewrite !len_app. pose proof (len_nonneg a). pose proof (len_nonneg m).
  pose proof (len_nonneg c). z_test. unfold len. replace (Z.to_nat _) with (length m) by lia.
  by rewrite Nat2Z.id, drop_app_length, take_app_length.
Qed.

(** Cutting the marker and the witnesses out of the raw bytes. *)
Lemma nonWitnessBytes_strip {E} m :
  wf_tx m -> nonWitnessBytes (E := E) m (enc_tx true m) = Ok (enc_tx false m).
Proof.
  intros Hw. pose proof (enc_tx_size m BaseEncoding Hw) as Hl. cbn [witness_flag] in Hl. cbv iota in Hl.
  unfold nonWitnessBytes. rewrite <- Hl. unfold enc_tx. cbn [app].
  set (v := le_encode 4 (uint32 (Version m))). set (lt := le_encode 4 (LockTime m)).
  set (body := varint (len (TxIns m)) ++ concat (map enc_txin (TxIns m))
     ++ varint (len (TxOuts m)) ++ concat (map enc_txout (TxOuts m))).
  set (w := concat (map (fun ti => enc_witness (Witness ti)) (TxIns m))).
  replace (v ++ TxFlagMarker :: WitnessFlag :: varint (len (TxIns m)) ++ concat (map enc_txin (TxIns m))
     ++ varint (len (TxOuts m)) ++ concat (map enc_txout (TxOuts m)) ++ w ++ lt)
    with (v ++ [TxFlagMarker; WitnessFlag] ++ body ++ w ++ lt) by (unfold body; by rewrite <- !app_assoc).
  replace (v ++ varint (len (TxIns m)) ++ concat (map enc_txin (TxIns m))
     ++ varint (len (TxOuts m)) ++ concat (map enc_txout (TxOuts m)) ++ lt)
    with (v ++ body ++ lt) by (unfold body; by rewrite <- !app_assoc).
  assert (Hv : len v = 4) by apply le_encode_len. assert (Hlt : len lt = 4) by apply le_encode_len.
  clearbody v lt body w.
  assert (Hn : len (v ++ body ++ lt) = 8 + len body) by (rewrite !len_app; lia). rewrite Hn.
  set (raw := v ++ [TxFlagMarker; WitnessFlag] ++ body ++ w ++ lt).
  assert (Hraw : len raw = 10 + len body + len w).
  { unfold raw. rewrite !len_app, Hv, Hlt. change (len [TxFlagMarker; WitnessFlag]) with 2. lia. }
  assert (H1 : raw = [] ++ v ++ [TxFlagMarker; WitnessFlag] ++ body ++ w ++ lt) by done.
  assert (H2 : raw = (v ++ [TxFlagMarker; WitnessFlag]) ++ body ++ w ++ lt) by (unfold raw; by rewrite <- app_assoc).
  assert (H3 : raw = (v ++ [TxFlagMarker; WitnessFlag] ++ body ++ w) ++ lt ++ [])
    by (unfold raw; by rewrite app_nil_r, <- !app_assoc).
  rewrite Hraw. rewrite H1 at 1. rewrite (subslice_at [] v) by (rewrite ?Hv; done). cbn [rbind].
  rewrite H2 at 1. rewrite subslice_at
    by (rewrite len_app, Hv; change (len [TxFlagMarker; WitnessFlag]) with 2; lia). cbn [rbind].
  rewrite H3, subslice_at; [done|..];
    rewrite !len_app, Hv; change (len [TxFlagMarker; WitnessFlag]) with 2; lia.
Qed.

(** A cache field that is empty or holds the value it caches. *)
Definition caches {A : Type} (o : option A) (a : A) : Prop := o = None \/ o = Some a.

(** [t] wraps the transaction [m] at index [i], and its caches are exact. *)
Definition tx_ok (i : Z) (m : MsgTx) (t : Tx) : Prop :=
  msgTx t = m /\ txIndex t = i /\ caches (txHash t) (TxHash m) /\ caches (txHashWitness t) (WitnessHash m)
  /\ caches (txHasWitness t) (HasWitness m) /\ caches (rawBytes t) (enc_full m).

Lemma TxHash_stripped m : bounded_tx m -> TxHash m = sha256 (sha256 (enc_tx false m)).
Proof.
  intros (Hw & Hne & Hs). unfold TxHash, SerializeNoWitness, DoubleHashRaw.
  pose proof (enc_tx_size m BaseEncoding Hw) as Hl. cbn [witness_flag] in Hl. cbv iota in Hl.
  assert (SerializeSizeStripped m <= SerializeSize m).
  { unfold SerializeSizeStripped, SerializeSize. destruct (HasWitness m); [|lia].
    rewrite (sum_of_concat _ (fun ti => enc_witness (Witness ti)))
      by (apply Forall_true; intros ti; apply enc_witness_len).
    pose proof (len_nonneg (concat (map (fun ti => enc_witness (Witness ti)) (TxIns m)))). lia. }
  unfold maxWitnessItemSize in *. rewrite BtcEncode_put by (done || cbn [witness_flag]; lia). done.
Qed.

Lemma Tx_HasWitness_ok i m t :
  tx_ok i m t -> exists t', Tx_HasWitness t = (HasWitness m, t') /\ tx_ok i m t'.
Proof.
  intros (Hm & Hi & Hh & Hw & Hb & Hr). unfold Tx_HasWitness.
  destruct Hb as [Hb | Hb]; rewrite Hb, ?Hm; eexists; (split; [done|]); unfold tx_ok; simpl;
    rewrite ?Hb; split_and!; try done; by right.
Qed.

Lemma Tx_Hash_ok {E} i m t :
  bounded_tx m -> tx_ok i m t -> exists t', Tx_Hash (E := E) t = Ok (TxHash m, t') /\ tx_ok i m t'.
Proof.
  intros Hb Ht. assert (Hset : forall t, tx_ok i m t -> tx_ok i m (set_txHash t (TxHash m))).
  { intros t0 (? & ? & ? & ? & ? & ?). unfold tx_ok; simpl. split_and!; try done. by right. }
  pose proof Ht as (Hm & Hi & Hh & Hw & Hhw & Hr). unfold Tx_Hash.
  destruct Hh as [Hh | Hh]; rewrite Hh; [|by exists t]. destruct Hr as [Hr | Hr]; rewrite Hr.
  { rewrite Hm. eexists. split; [done|]. by apply Hset. }
  destruct (Tx_HasWitness_ok i m t Ht) as (t' & -> & Ht'). pose proof Ht' as (Hm' & _).
  eexists. split; [|by apply Hset]. rewrite Hm'. unfold enc_full. rewrite (TxHash_stripped m Hb).
  destruct (HasWitness m); [|done]. by rewrite nonWitnessBytes_strip by apply Hb.
Qed.

Lemma Tx_WitnessHash_ok i m t :
  bounded_tx m -> tx_ok i m t -> exists t', Tx_WitnessHash t = (WitnessHash m, t') /\ tx_ok i m t'.
Proof.
  intros Hb Ht. assert (Hset : forall t, tx_ok i m t -> tx_ok i m (set_txHashWitness t (WitnessHash m))).
  { intros t0 (? & ? & ? & ? & ? & ?). unfold tx_ok; simpl. split_and!; try done. by right. }
  pose proof Ht as (Hm & Hi & Hh & Hw & Hhw & Hr). unfold Tx_WitnessHash.
  destruct Hw as [Hw | Hw]; rewrite Hw; [|by exists t].
  assert (Hv : match rawBytes t with Some (b :: raw) => DoubleHashB (b :: raw) | _ => WitnessHash (msgTx t) end
               = WitnessHash m).
  { destruct Hr as [Hr | Hr]; rewrite Hr, Hm; [done|].
    assert (He : WitnessHash m = DoubleHashB (enc_full m)).
    { unfold WitnessHash, enc_full. destruct (HasWitness m) eqn:Hwit; [|by rewrite TxHash_stripped by done].
      destruct Hb as (? & ? & ?). destruct (full_codec m) as (-> & _); try done.
      unfold enc_full. by rewrite Hwit. }
    by destruct (enc_full m). }
  rewrite Hv. eexists. split; [done|]. by apply Hset.
Qed.

(** *** Calls on a block *)

Inductive block_call : Type :=
| CBytes | CBytesNoWitness | CHash | CTx (i : Z) | CTransactions | CTxHash (i : Z) | CTxWitnessHash (i : Z)
| CTxLoc.

Inductive reply : Type :=
| RBytes (b : bytes) | RHash (h : bytes) | RTx (m : MsgTx) (i : Z) | RTxs (l : list (option MsgTx))
| RLocs (l : list TxLoc).

Definition run_call (b : Block) (c : block_call) : result BlockError (reply * Block) :=
  match c with
  | CBytes => let! '(s, b) := Block_Bytes b in Ok (RBytes s, b)
  | CBytesNoWitness => let! '(s, b) := Block_BytesNoWitness b in Ok (RBytes s, b)
  | CHash => let '(h, b) := Block_Hash b in Ok (RHash h, b)
  | CTx i => let! '(t, b) := Block_Tx b i in Ok (RTx (msgTx t) (txIndex t), b)
  | CTransactions => let! '(l, b) := Block_Transactions b in Ok (RTxs (map (fmap msgTx) l), b)
  | CTxHash i => let! '(h, b) := Block_TxHash b i in Ok (RHash h, b)
  | CTxWitnessHash i => let! '(h, b) := with_tx (fun t => Ok (Tx_WitnessHash t)) b i in Ok (RHash h, b)
  | CTxLoc => let! '(l, b) := Block_TxLoc b in Ok (RLocs l, b)
  end.

(** A call that fails leaves the block as it is. *)
Fixpoint run_calls (b : Block) (cs : list block_call) : list (result BlockError reply) :=
  match cs with
  | [] => []
  | c :: cs =>
      match run_call b c with
      | Ok (r, b') => Ok r :: run_calls b' cs
      | Err e => Err e :: run_calls b cs
      | Panic => [Panic]
      end
  end.

(** What the calls answer according to their documentation: the method of the
    underlying message, computed anew. *)
Definition at_index (m : MsgBlock) (i : Z) (f : MsgTx -> reply) : result BlockError reply :=
  if i <? 0 then Err OutOfRangeError
  else match Transactions m !! Z.to_nat i with Some t => Ok (f t) | None => Err OutOfRangeError end.

Definition reference (m : MsgBlock) (c : block_call) : result BlockError reply :=
  match c with
  | CBytes => let! s := serialized_to (MsgBlock_Serialize m) in Ok (RBytes s)
  | CBytesNoWitness => let! s := serialized_to (MsgBlock_SerializeNoWitness m) in Ok (RBytes s)
  | CHash => Ok (RHash (MsgBlock_BlockHash m))
  | CTx i => at_index m i (fun t => RTx t i)
  | CTransactions => Ok (RTxs (map Some (Transactions m)))
  | CTxHash i => at_index m i (fun t => RHash (TxHash t))
  | CTxWitnessHash i => at_index m i (fun t => RHash (WitnessHash t))
  | CTxLoc => let! '((_, l), _) := lift_wire (DeserializeTxLoc (MsgBlock_Serialize m).1) in Ok (RLocs l)
  end.

(** The state of a block made from its bytes. *)
Definition block_ok (m : MsgBlock) (b : Block) : Prop :=
  msgBlock b = m /\ serializedBlock b = enc_block m
  /\ (serializedBlockNoWitness b = [] \/ MsgBlock_SerializeNoWitness m = wput (serializedBlockNoWitness b))
  /\ caches (blockHash b) (MsgBlock_BlockHash m) /\ txnsGenerated b = true
  /\ length (transactions b) = length (Transactions m)
  /\ forall i mi, Transactions m !! i = Some mi ->
       exists t, transactions b !! i = Some (Some t) /\ tx_ok (Z.of_nat i) mi t.

Lemma at_index_out m i f :
  (i <? 0) || (len (Transactions m) <=? i) = true -> at_index m i f = Err OutOfRangeError.
Proof.
  unfold at_index. destruct (Z.ltb_spec i 0) as [?|Hi]; [done|]. simpl. intros Hl%Z.leb_le.
  rewrite lookup_ge_None_2; [done|]. len_lia.
Qed.

Lemma at_index_in m i :
  (i <? 0) || (len (Transactions m) <=? i) = false ->
  exists mi, Transactions m !! Z.to_nat i = Some mi /\ forall f, at_index m i f = Ok (f mi).
Proof.
  intros Hi. bool_to_prop. destruct (lookup_lt_is_Some_2 (Transactions m) (Z.to_nat i)) as [mi Hmi]; [len_lia|].
  exists mi. split; [done|]. intros f. unfold at_index. rewrite Hmi. by z_test.
Qed.

Lemma block_ok_set m b i t mi :
  block_ok m b -> Transactions m !! i = Some mi -> tx_ok (Z.of_nat i) mi t ->
  block_ok m (set_transactions b (<[i := Some t]> (transactions b)) (txnsGenerated b)).
Proof.
  intros (Hm & Hs & Hn & Hh & Hg & Hlen & Ht) Hi Hok. unfold block_ok; simpl.
  split_and!; try done; [by rewrite list.length_insert|]. intros j mj Hj.
  destruct (decide (i = j)) as [->|Hne].
  - simplify_eq. exists t. split; [|done]. apply list_lookup_insert_eq. rewrite Hlen. by eapply lookup_lt_Some.
  - rewrite list_lookup_insert_ne by done. by apply Ht.
Qed.

Lemma alloc_same m b : block_ok m b -> alloc_transactions b = transactions b.
Proof.
  intros (Hm & _ & _ & _ & _ & Hlen & _). unfold alloc_transactions. rewrite Hm. case_if; [|done].
  unfold len in *. by destruct (transactions b), (Transactions m).
Qed.

(** Looking up a transaction of such a block. *)
Lemma Block_Tx_ok m b i :
  block_ok m b ->
  if (i <? 0) || (len (Transactions m) <=? i) then Block_Tx b i = Err OutOfRangeError
  else exists mi t, Transactions m !! Z.to_nat i = Some mi /\ tx_ok i mi t /\ Block_Tx b i = Ok (t, b).
Proof.
  intros Hb. unfold Block_Tx. rewrite (alloc_same m b Hb).
  pose proof Hb as (-> & _ & _ & _ & _ & Hlen & Ht). destruct (_ || _) eqn:Hi; [done|].
  destruct (at_index_in m i Hi) as (mi & Hmi & _). destruct (Ht _ _ Hmi) as (t & Hti & Hok). bool_to_prop.
  exists mi, t. rewrite Z2Nat.id in Hok by done. rewrite Hti. split_and!; try done. simpl.
  do 2 f_equal. by destruct b.
Qed.

Lemma with_tx_ok {A} m b i (f : Tx -> result BlockError (A * Tx)) (g : MsgTx -> A) (mk : A -> reply) :
  Forall bounded_tx (Transactions m) -> block_ok m b ->
  (forall mi t, bounded_tx mi -> tx_ok i mi t -> exists t', f t = Ok (g mi, t') /\ tx_ok i mi t') ->
  match (let! '(a, b) := with_tx f b i in Ok (mk a, b)) with
  | Ok (r, b') => block_ok m b' /\ at_index m i (fun t => mk (g t)) = Ok r
  | Err e => at_index m i (fun t => mk (g t)) = Err e
  | Panic => False
  end.
Proof.
  intros Hbt Hb Hf. unfold with_tx. pose proof (Block_Tx_ok m b i Hb) as HT.
  destruct (_ || _) eqn:Hi; [rewrite HT; simpl; by apply at_index_out|].
  destruct HT as (mi & t & Hmi & Hok & ->). cbn [rbind].
  destruct (at_index_in m i Hi) as (mi' & Hmi' & Hat). simplify_eq.
  destruct (Hf mi t) as (t' & -> & Hok'); [by eapply Forall_lookup_1|done|]. cbn [rbind].
  split; [|by rewrite Hat]. bool_to_prop. eapply block_ok_set; try done. by rewrite Z2Nat.id.
Qed.

(** The loop on a block none of whose transactions is wrapped yet. *)
Lemma transactions_loop_ok pre seen msgs :
  Forall bounded_tx msgs ->
  exists txs, transactions_loop (pre ++ concat (map enc_full msgs)) (seen ++ msgs) (length seen) (len pre)
      (replicate (length msgs) None) = Ok txs
    /\ length txs = length msgs
    /\ forall j mj, msgs !! j = Some mj ->
         exists t, txs !! j = Some (Some t) /\ tx_ok (Z.of_nat (length seen + j)) mj t.
Proof.
  intros Hm. revert pre seen. induction Hm as [|m msgs Hb Hm IH]; intros pre seen; [by exists []|].
  cbn [length replicate transactions_loop]. rewrite list_lookup_middle by done. cbn [unwrap rbind map concat].
  pose proof Hb as (Hw & Hne & Hs). destruct (full_codec m Hw Hne Hs) as (_ & Hsz & _).
  assert (Hpos : (0 <? len (pre ++ enc_full m ++ concat (map enc_full msgs))) = true).
  { apply Z.ltb_lt. pose proof (enc_full_pos m). rewrite !len_app.
    pose proof (len_nonneg pre). pose proof (len_nonneg (concat (map enc_full msgs))). lia. }
  rewrite Hpos, subslice_at by (done || lia). cbn [rbind].
  destruct (IH (pre ++ enc_full m) (seen ++ [m])) as (txs & Htx & Hlen & Hall).
  rewrite <- !app_assoc, len_app, Hsz, length_app, Nat.add_comm in Htx. cbn [length app Nat.add] in Htx.
  change ([m] ++ msgs) with (m :: msgs) in Htx. rewrite Htx.
  cbn [rbind]. eexists. split; [done|]. split; [simpl; lia|]. intros [|j] mj Hj; simpl in Hj; simplify_eq.
  - eexists. split; [done|]. rewrite Nat.add_0_r. unfold tx_ok; simpl. split_and!; try done; by (left + right).
  - destruct (Hall j mj Hj) as (t & Ht & Hok). exists t. split; [done|]. rewrite length_app in Hok. simpl in Hok.
    by replace (length seen + S j)%nat with (length seen + 1 + j)%nat by lia.
Qed.

Lemma made_block_ok m :
  wf_block m ->
  exists b, NewBlockFromBytes (enc_block m) = Ok b /\ NewBlockFromBlockAndBytes m (enc_block m) = Ok b
  /\ block_ok m b.
Proof.
  intros Hb. pose proof (MsgBlock_Deserialize_app m [] Hb) as Hd. rewrite app_nil_r in Hd.
  destruct Hb as (Hh & Ht & Hn).
  destruct (transactions_loop_ok (enc_header (Header m) ++ varint (len (Transactions m))) [] (Transactions m) Ht)
    as (txs & Htx & Hlen & Hall).
  rewrite len_app, enc_header_len, varint_len, <- app_assoc in Htx by done. cbn [length app] in Htx.
  unfold NewBlockFromBytes, NewBlockFromBlockAndBytes, NewBlockFromReader. rewrite Hd. cbn [lift_wire rbind].
  fold (enc_block m) in Htx. unfold Block_Transactions.
  change (alloc_transactions (set_serialized (NewBlock m) (enc_block m)))
    with (replicate (length (Transactions m)) (@None Tx)).
  cbn [set_serialized NewBlock txnsGenerated msgBlock serializedBlock].
  change ([] ++ Transactions m) with (Transactions m) in Htx. rewrite Htx. cbn [rbind].
  eexists. split; [done|]. split; [done|]. unfold block_ok; simpl. split_and!; try done; by left.
Qed.

Lemma run_call_ok m b c :
  wf_block m -> block_ok m b ->
  match run_call b c with
  | Ok (r, b') => block_ok m b' /\ reference m c = Ok r
  | Err e => reference m c = Err e
  | Panic => False
  end.
Proof.
  intros Hw Hb. pose proof Hw as (Hh & Ht & Hn). pose proof Hb as (Hm & Hs & Hnw & Hbh & Hg & Hlen & Hall).
  assert (Hbytes : Block_Bytes b = Ok (enc_block m, b)).
  { unfold Block_Bytes. rewrite Hs, enc_block_len by done. unfold MsgBlock_SerializeSize, blockHeaderLen.
    pose proof (varint_size (len (Transactions m))).
    rewrite (sum_of_concat _ enc_full); [|eapply Forall_impl; [exact Ht|]; intros x (? & ? & ?); by apply full_codec].
    pose proof (len_nonneg (concat (map enc_full (Transactions m)))). by z_test. }
  destruct c as [| | |i| |i|i|]; cbn [run_call reference].
  - rewrite Hbytes, MsgBlock_Serialize_put by done. done.
  - unfold Block_BytesNoWitness. rewrite Hm. destruct (Z.eqb_spec (len (serializedBlockNoWitness b)) 0) as [H0|H0]; simpl.
    + destruct (MsgBlock_SerializeNoWitness m) as [s [|]] eqn:Hser; [|done]. cbn. split; [|done].
      unfold block_ok; simpl. split_and!; try done. by right.
    + destruct Hnw as [Hnw | Hnw]; [by rewrite Hnw in H0|]. by rewrite Hnw.
  - unfold Block_Hash. destruct Hbh as [Hbh | Hbh]; rewrite Hbh, ?Hm; [|done]. split; [|done].
    unfold block_ok; simpl. split_and!; try done. by right.
  - pose proof (Block_Tx_ok m b i Hb) as HT. destruct (_ || _) eqn:Hi; [rewrite HT; by apply at_index_out|].
    destruct HT as (mi & t & Hmi & (Hmt & Hit & _) & ->). cbn [rbind].
    destruct (at_index_in m i Hi) as (mi' & Hmi' & Hat). simplify_eq. by rewrite Hat.
  - unfold Block_Transactions. rewrite Hg. cbn [rbind]. split; [done|]. do 2 f_equal. apply list_eq.
    intros j. rewrite !list_lookup_fmap. destruct (Transactions m !! j) as [mj|] eqn:Hj.
    + destruct (Hall j mj Hj) as (t & -> & (<- & _)). done.
    + apply lookup_ge_None in Hj. by rewrite (lookup_ge_None_2 (transactions b)) by lia.
  - apply (with_tx_ok m b i Tx_Hash TxHash RHash Ht Hb). intros mi t. apply Tx_Hash_ok.
  - apply (with_tx_ok m b i (fun t => Ok (Tx_WitnessHash t)) WitnessHash RHash Ht Hb). intros mi t Hmi Hok.
    destruct (Tx_WitnessHash_ok i mi t Hmi Hok) as (t' & -> & Hok'). by exists t'.
  - unfold Block_TxLoc. rewrite Hbytes, MsgBlock_Serialize_put by done. cbn [rbind wput fst].
    destruct (lift_wire (DeserializeTxLoc (enc_block m))) as [[[m' l] rest]|e|] eqn:Hloc; cbn [rbind]; try done.
    pose proof (DeserializeTxLoc_app m [] Hw) as Hd. rewrite app_nil_r in Hd. by rewrite Hd in Hloc.
Qed.

(** C29: The wrapper of a block made from its serialization is transparent:
    whatever methods are called on it, in whatever order and however often, each
    returns what the method of the underlying message computes anew.  The cached
    raw bytes of the transactions, with the witnesses cut out by offsets, hash
    to the transaction identifiers. *)
Theorem block_wrapper_transparent (m : MsgBlock) :
  wf_block m ->
  exists b, NewBlockFromBytes (MsgBlock_Serialize m).1 = Ok b
  /\ NewBlockFromBlockAndBytes m (MsgBlock_Serialize m).1 = Ok b
  /\ forall calls, run_calls b calls = map (reference m) calls.
Proof.
  intros Hw. rewrite MsgBlock_Serialize_put by done. destruct (made_block_ok m Hw) as (b & H1 & H2 & Hb).
  exists b. split_and!; try done. clear H1 H2. intros calls. revert b Hb.
  induction calls as [|c calls IH]; intros b Hb; [done|]. cbn [run_calls map].
  pose proof (run_call_ok m b c Hw Hb) as Hc. destruct (run_call b c) as [[r b']|e|]; [| |done].
  - destruct Hc as [Hb' ->]. f_equal. by apply IH.
  - rewrite Hc. f_equal. by apply IH.
Qed.

End BlockProofs.

(** ** Concrete blocks *)

Definition sample_header : BlockHeader :=
  mkBlockHeader 2 (replicate 32 1) (replicate 32 2) 1700000000 0x207fffff 5.

(** A second transaction, with the first one's size. *)
Definition other_tx : MsgTx (D := text_decimal) :=
  mkMsgTx (D := text_decimal) 2 (TxIns sample_tx) (TxOuts sample_tx) 0.

Definition sample_block : MsgBlock (D := text_decimal) :=
  mkMsgBlock (D := text_decimal) sample_header [sample_tx; other_tx].

Lemma sample_block_wf : wf_block sample_block.
Proof.
  split_and!; [repeat split; vm_compute; congruence| |vm_compute; congruence].
  repeat constructor; try (vm_compute; congruence).
Qed.

Lemma block_roundtrip_witness :
  exists raw, MsgBlock_Serialize sample_block = (raw, true) /\ len raw = MsgBlock_SerializeSize sample_block
  /\ MsgBlock_Deserialize (raw ++ [9]) = Ok (sample_block, [9])
  /\ exists locs, DeserializeTxLoc (raw ++ [9]) = Ok ((sample_block, locs), [9])
     /\ length locs = length (Transactions sample_block)
     /\ forall i loc m, locs !! i = Some loc -> Transactions sample_block !! i = Some m ->
          take (Z.to_nat (TxLen loc)) (drop (Z.to_nat (TxStart loc)) raw) = (Serialize m).1.
Proof. exact (block_roundtrip (DL := text_decimal_laws) sample_block [9] sample_block_wf). Defined.

Lemma block_wrapper_transparent_witness :
  exists b, NewBlockFromBytes (MsgBlock_Serialize sample_block).1 = Ok b
  /\ NewBlockFromBlockAndBytes sample_block (MsgBlock_Serialize sample_block).1 = Ok b
  /\ forall calls, run_calls b calls = map (reference sample_block) calls.
Proof. exact (block_wrapper_transparent (DL := text_decimal_laws) sample_block sample_block_wf). Defined.

(** [Transactions] moves its offset only past the transactions it wraps itself.
    When the block was made from its message, serialized by [Bytes] and had its
    first transaction looked up before, the second one gets the first one's bytes
    and its hash. *)
Example transactions_skip_offset :
  run_calls (NewBlock sample_block) [CBytes; CTx 0; CTransactions; CTxHash 1]
  = [reference sample_block CBytes; reference sample_block (CTx 0); reference sample_block CTransactions;
     reference sample_block (CTxHash 0)]
  /\ reference sample_block (CTxHash 0) <> reference sample_block (CTxHash 1).
Proof. split; [vm_compute; reflexivity|vm_compute; discriminate]. Qed.

(** A block whose asset binding is written as [2^32 + 1]: it decodes to the
    transaction with binding 1, but the identifier of the wrapped transaction is
    not the one of that transaction. *)
Definition long_binding : bytes :=
  let tx := enc_full sample_tx in
  let cut := 75%nat in
  enc_header sample_header ++ varint 1 ++ take cut tx ++ varint (2 ^ 32 + 1) ++ drop (S cut) tx.

Example long_binding_misread :
  MsgBlock_Deserialize long_binding = Ok (mkMsgBlock sample_header [sample_tx], [])
  /\ exists b, NewBlockFromBytes long_binding = Ok b
     /\ msgBlock b = mkMsgBlock sample_header [sample_tx]
     /\ forall h b', run_call b (CTxHash 0) = Ok (RHash h, b') -> h <> TxHash sample_tx.
Proof.
  split; [vm_compute; reflexivity|]. eexists. split; [vm_compute; reflexivity|].
  split; [reflexivity|]. intros h b' H.
  vm_compute in H. injection H as <- _. vm_compute. congruence.
Qed.
