(* ===== verification/Merkle.v ===== *)
(** * Merkle trees ([blockchain/merkle.go], [blockchain/rolling_merkle.go])

    The two ways the code computes a merkle root: the linear array of
    [BuildMerkleTreeStore] and the rolling store of [CalcMerkleRoot], which keeps
    one root per set bit of the number of leaves.  Both are proved equal to the
    row-by-row definition, and the root is proved to determine the leaves. *)

From Stdlib Require Import ZArith Lia.
From stdpp Require Import base list numbers option strings.
From S2P Require Import Prelude ScriptNum Tokenizer Sha Wire SigHash Block.

(** [math.Log2] of a [float64] is exact enough for its integer part below
    [2^48], far above any number of transactions. *)
Definition nextPowerOfTwo (n : Z) : Z :=
  if Z.land n (n - 1) =? 0 then n
  else
    let exponent := Z.log2 n + 1 in
    Z.shiftl 1 exponent.

Definition HashMerkleBranches (left right : bytes) : bytes := DoubleHashRaw (wput (left ++ right)).

Section Store.
Context `{D : DecimalOps}.
Context {E : Type}.

(** *** The linear array *)

Definition store_leaf (witness : bool) (i : nat) (tx : Tx) : result E bytes :=
  if witness && (Z.of_nat i =? 0) then Ok zeroHash
  else if witness then Ok (WitnessHash (msgTx tx))
  else let! '(h, _) := Tx_Hash tx in Ok h.

(** [l[i] = v]. *)
Definition assign {A : Type} (l : list A) (i : nat) (v : A) : result E (list A) :=
  if (i <? length l)%nat then Ok (<[i := v]> l) else Panic.

Fixpoint store_leaves (witness : bool) (i : nat) (txs : list Tx) (merkles : list (option bytes))
    : result E (list (option bytes)) :=
  match txs with
  | [] => Ok merkles
  | tx :: txs =>
      let! h := store_leaf witness i tx in
      let! merkles := assign merkles i (Some h) in
      store_leaves witness (S i) txs merkles
  end.

(** The loop [for i := 0; i < arraySize-1; i += 2]; every turn takes two
    entries, so the length of the array is enough fuel. *)
Fixpoint store_loop (fuel : nat) (i offset : nat) (merkles : list (option bytes))
    : result E (list (option bytes)) :=
  if (length merkles - 1 <=? i)%nat then Ok merkles
  else
    match fuel with
    | O => Panic
    | S fuel =>
        let! left := unwrap (merkles !! i) in
        let! parent :=
          match left with
          | None => Ok None
          | Some l =>
              let! right := unwrap (merkles !! S i) in
              Ok (Some (HashMerkleBranches l (default l right)))
          end in
        let! merkles := assign merkles offset parent in
        store_loop fuel (S (S i)) (S offset) merkles
    end.

Definition BuildMerkleTreeStore (transactions : list Tx) (witness : bool)
    : result E (list (option bytes)) :=
  let nextPoT := nextPowerOfTwo (len transactions) in
  let arraySize := nextPoT * 2 - 1 in
  if arraySize <? 0 then Panic
  else
    let merkles := replicate (Z.to_nat arraySize) None in
    let! merkles := store_leaves witness 0 transactions merkles in
    store_loop (length merkles) 0 (Z.to_nat nextPoT) merkles.

(** *** The rolling store *)

Record rollingMerkleTreeStore : Type := mkRolling { roots : list bytes; numLeaves : Z }.

Definition newRollingMerkleTreeStore : rollingMerkleTreeStore := mkRolling [] 0.

(** The loop of [add].  A [uint64] shifted by 64 or more is 0, so 65 turns are
    enough. *)
Fixpoint add_loop (fuel : nat) (h : Z) (n : Z) (roots : list bytes) (newRoot : bytes)
    : result E (list bytes * bytes) :=
  if Z.land (Z.shiftr n h) 1 =? 1 then
    match fuel with
    | O => Panic
    | S fuel =>
        let! root := unwrap (last_of roots) in
        add_loop fuel (h + 1) n (take (length roots - 1) roots) (HashMerkleBranches root newRoot)
    end
  else Ok (roots, newRoot).

Definition rolling_add (s : rollingMerkleTreeStore) (add : bytes) : result E rollingMerkleTreeStore :=
  let! '(rs, newRoot) := add_loop 65 0 (numLeaves s) (roots s) add in
  Ok (mkRolling (rs ++ [newRoot]) (uint64 (numLeaves s + 1))).

Definition rolling_leaf (witness : bool) (i : nat) (tx : Tx) : result E bytes :=
  if witness && (Z.of_nat i =? 0) then Ok zeroHash
  else if witness then Ok (Tx_WitnessHash tx).1
  else let! '(h, _) := Tx_Hash tx in Ok h.

Fixpoint rolling_leaves (witness : bool) (i : nat) (txs : list Tx) (s : rollingMerkleTreeStore)
    : result E rollingMerkleTreeStore :=
  match txs with
  | [] => Ok s
  | tx :: txs =>
      let! h := rolling_leaf witness i tx in
      let! s := rolling_add s h in
      rolling_leaves witness (S i) txs s
  end.

(** The loop that moves up to the row with an odd number of nodes. *)
Fixpoint shift_loop (fuel : nat) (h currentLeaves n : Z) : result E Z :=
  if Z.land (Z.shiftr currentLeaves h) 1 =? 0 then
    match fuel with
    | O => Panic
    | S fuel => shift_loop fuel (h + 1) currentLeaves (Z.shiftr n 1)
    end
  else Ok n.

(** The loop [for len(s.roots) > 1]: each turn at least halves the row. *)
Fixpoint root_loop (fuel : nat) (s : rollingMerkleTreeStore) : result E rollingMerkleTreeStore :=
  if (1 <? length (roots s))%nat then
    match fuel with
    | O => Panic
    | S fuel =>
        let! n := shift_loop 64 0 (numLeaves s) (numLeaves s) in
        let! h := unwrap (last_of (roots s)) in
        let! s := rolling_add (mkRolling (roots s) n) h in
        root_loop fuel s
    end
  else Ok s.

Definition calcMerkleRoot (s : rollingMerkleTreeStore) (adds : list Tx) (witness : bool) : result E bytes :=
  let! s := rolling_leaves witness 0 adds s in
  if numLeaves s =? 1 then unwrap (roots s !! 0%nat)
  else
    let! s :=
      (if (0 <? len adds) && negb (len adds mod 2 =? 0) then
         let! tx := unwrap (last_of adds) in
         let! h := (if witness then Ok (Tx_WitnessHash tx).1
                    else let! '(h, _) := Tx_Hash tx in Ok h) in
         rolling_add s h
       else Ok s) in
    let! s := root_loop 65 s in
    unwrap (roots s !! 0%nat).

Definition CalcMerkleRoot (transactions : list Tx) (witness : bool) : result E bytes :=
  calcMerkleRoot newRollingMerkleTreeStore transactions witness.

End Store.

(** ** The tree row by row *)

Fixpoint row_up (l : list bytes) : list bytes :=
  match l with
  | [] => []
  | [a] => [HashMerkleBranches a a]
  | a :: b :: r => HashMerkleBranches a b :: row_up r
  end.

Fixpoint root_of (fuel : nat) (l : list bytes) : option bytes :=
  match l with
  | [] => None
  | [a] => Some a
  | _ =>
      match fuel with
      | O => None
      | S fuel => root_of fuel (row_up l)
      end
  end.

Definition merkle_root (l : list bytes) : option bytes := root_of (length l) l.

(** Induction two elements at a time. *)
Lemma list_pair_ind {A} (P : list A -> Prop) :
  P [] -> (forall a, P [a]) -> (forall a b l, P l -> P (a :: b :: l)) -> forall l, P l.
Proof.
  intros H0 H1 H2. fix IH 1. intros [|a [|b l]]; [exact H0|apply H1|]. apply H2, IH.
Qed.

Lemma row_up_length l : length (row_up l) = Nat.div2 (S (length l)).
Proof. induction l using list_pair_ind; simpl in *; [done|done|]. by rewrite IHl. Qed.

Lemma row_up_double l : (2 * length (row_up l) = length l \/ 2 * length (row_up l) = S (length l))%nat.
Proof. induction l using list_pair_ind; simpl in *; lia. Qed.

Lemma root_of_fuel f g l : (length l <= f -> length l <= g -> root_of f l = root_of g l)%nat.
Proof.
  revert g l. induction f as [|f IH]; intros [|g] [|a [|b l]] Hf Hg; simpl in Hf, Hg; try lia; try done.
  cbn [root_of]. apply IH; simpl; pose proof (row_up_double l); lia.
Qed.

Lemma merkle_root_up l : (2 <= length l)%nat -> merkle_root l = merkle_root (row_up l).
Proof.
  intros Hl. destruct l as [|a [|b l]]; simpl in Hl; try lia.
  change (merkle_root (a :: b :: l)) with (root_of (S (length l)) (row_up (a :: b :: l))).
  apply root_of_fuel; [|done]. simpl. pose proof (row_up_double l). lia.
Qed.

Lemma row_up_app l k : Nat.even (length l) = true -> row_up (l ++ k) = row_up l ++ row_up k.
Proof.
  induction l as [|a|a b l IH] using list_pair_ind; intros He; [done|done|].
  cbn [app row_up]. f_equal. by apply IH.
Qed.

(** *** The array *)

Fixpoint row_up_opt (l : list (option bytes)) : list (option bytes) :=
  match l with
  | Some a :: b :: r => Some (HashMerkleBranches a (default a b)) :: row_up_opt r
  | None :: _ :: r => None :: row_up_opt r
  | _ => []
  end.

Definition pad (n : nat) (l : list bytes) : list (option bytes) :=
  map Some l ++ replicate (n - length l) None.

Lemma row_up_opt_none n : row_up_opt (replicate (2 * n) None) = replicate n None.
Proof. induction n as [|n IH]; [done|]. replace (2 * S n)%nat with (S (S (2 * n))) by lia. cbn [replicate row_up_opt]. by rewrite IH. Qed.

Lemma row_up_opt_pad n l : (length l <= 2 * n)%nat -> row_up_opt (pad (2 * n) l) = pad n (row_up l).
Proof.
  revert n. induction l as [|a|a b l IH] using list_pair_ind; intros n Hn.
  - unfold pad. simpl length. rewrite !Nat.sub_0_r. apply row_up_opt_none.
  - destruct n as [|n]; simpl in Hn; [lia|]. unfold pad. simpl length.
    replace (2 * S n - 1)%nat with (S (2 * n)) by lia. replace (S n - 1)%nat with n by lia.
    cbn [map app replicate row_up_opt row_up default]. by rewrite row_up_opt_none.
  - destruct n as [|n]; simpl in Hn; [lia|]. unfold pad in *. cbn [map app length row_up row_up_opt default].
    replace (2 * S n - S (S (length l)))%nat with (2 * n - length l)%nat by lia.
    rewrite IH by lia. done.
Qed.

Lemma assign_app {E A} (pre : list A) x v rest :
  assign (E := E) (pre ++ x :: rest) (length pre) v = Ok (pre ++ v :: rest).
Proof.
  unfold assign. rewrite length_app. simpl. destruct (Nat.ltb_spec (length pre) (length pre + S (length rest))); [|lia].
  rewrite (insert_app_r_alt _ _ (length pre)) by lia. by rewrite Nat.sub_diag.
Qed.

(** One row of the array is turned into the next one. *)
Lemma store_loop_row {E} m R pre mid rest fuel :
  length R = (2 * m)%nat -> (m <= length rest)%nat -> (m <= fuel)%nat ->
  store_loop (E := E) fuel (length pre) (length (pre ++ R ++ mid)) (pre ++ R ++ mid ++ rest)
  = store_loop (fuel - m) (length (pre ++ R)) (length (pre ++ R ++ mid) + m)
      (pre ++ R ++ mid ++ row_up_opt R ++ drop m rest).
Proof.
  revert R pre mid rest fuel. induction m as [|m IH]; intros R pre mid rest fuel HR Hm Hf.
  { destruct R; [|done]. simpl. by rewrite app_nil_r, Nat.sub_0_r, Nat.add_0_r. }
  destruct R as [|a [|b R]]; simpl in HR; try lia. destruct rest as [|r rest]; simpl in Hm; [lia|].
  destruct fuel as [|fuel]; [lia|]. cbn [store_loop].
  destruct (Nat.leb_spec (length (pre ++ (a :: b :: R) ++ mid ++ r :: rest) - 1) (length pre)) as [Hle|_].
  { len_lia. }
  change ((a :: b :: R) ++ mid ++ r :: rest) with (a :: b :: R ++ mid ++ r :: rest).
  rewrite list_lookup_middle by done. cbn [unwrap rbind].
  assert (Hb : (pre ++ (a :: b :: R) ++ mid ++ r :: rest) !! S (length pre) = Some b).
  { change ((a :: b :: R) ++ ?x) with ([a] ++ b :: R ++ x). rewrite app_assoc.
    rewrite list_lookup_middle; [done|]. rewrite length_app. simpl. lia. }
  set (par := match a with None => None | Some l => Some (HashMerkleBranches l (default l b)) end).
  assert (Hpar : match a with
                 | None => Ok None
                 | Some l => let! right := unwrap ((pre ++ (a :: b :: R) ++ mid ++ r :: rest) !! S (length pre)) in
                             Ok (Some (HashMerkleBranches l (default l right)))
                 end = Ok (E := E) par) by (rewrite Hb; by destruct a).
  cbn [app] in Hpar. cbn [app]. rewrite Hpar. cbn [rbind].
  replace (pre ++ a :: b :: R ++ mid ++ r :: rest) with ((pre ++ a :: b :: R ++ mid) ++ r :: rest)
    by (by rewrite <- app_assoc, !app_comm_cons, <- app_assoc).
  rewrite assign_app. cbn [rbind].
  replace (S (S (length pre))) with (length (pre ++ [a; b])) by (rewrite length_app; simpl; lia).
  replace (S (length (pre ++ a :: b :: R ++ mid))) with (length ((pre ++ [a; b]) ++ R ++ (mid ++ [par])))
    by len_lia.
  replace ((pre ++ a :: b :: R ++ mid) ++ par :: rest) with ((pre ++ [a; b]) ++ R ++ (mid ++ [par]) ++ rest)
    by (by rewrite <- !app_assoc, !app_comm_cons, <- !app_assoc).
  rewrite IH by lia. cbn [Nat.sub]. f_equal.
  - rewrite <- app_assoc. done.
  - len_lia.
  - rewrite <- !app_assoc. cbn [app]. do 2 f_equal. unfold par. by destruct a.
Qed.

(** [2^d] is the least power of two that is at least [n]. *)
Definition least_power (d : nat) (n : nat) : Prop :=
  (n <= 2 ^ d)%nat /\ match d with O => (1 <= n)%nat | S e => (2 ^ e < n)%nat end.

Lemma pow2_nat_pos d : (1 <= 2 ^ d)%nat.
Proof. induction d; simpl; lia. Qed.

Lemma least_power_up d l : least_power (S d) (length l) -> least_power d (length (row_up l)).
Proof.
  intros [H1 H2]. pose proof (row_up_double l). pose proof (pow2_nat_pos d). simpl in H1.
  split; [lia|]. destruct d as [|e]; [lia|]. simpl in *. lia.
Qed.

Lemma store_loop_rows {E} d l pre fuel :
  least_power d (length l) -> (2 ^ d <= S fuel)%nat ->
  exists rows r,
    store_loop (E := E) fuel (length pre) (length pre + 2 ^ d) (pre ++ pad (2 ^ d) l ++ replicate (2 ^ d - 1) None)
    = Ok (rows ++ [Some r]) /\ merkle_root l = Some r.
Proof.
  revert l pre fuel. induction d as [|d IH]; intros l pre fuel Hl Hf.
  - destruct Hl as [H1 H2]. simpl in H1. destruct l as [|a [|]]; simpl in H1, H2; try lia.
    exists pre, a. split; [|done].
    destruct fuel; cbn [store_loop]; (destruct (Nat.leb_spec (length (pre ++ pad (2 ^ 0) [a] ++ replicate (2 ^ 0 - 1) None) - 1) (length pre)) as [_|Hgt];
      [done|rewrite length_app in Hgt; simpl in Hgt; lia]).
  - pose proof (pow2_nat_pos d) as Hp. pose proof (least_power_up d l Hl) as Hup. destruct Hl as [Hl1 Hl2].
    assert (Hlen : length (pad (2 ^ S d) l) = (2 * 2 ^ d)%nat).
    { unfold pad. rewrite length_app, length_map, length_replicate. simpl in *. lia. }
    replace (length pre + 2 ^ S d)%nat with (length (pre ++ pad (2 ^ S d) l ++ []))
      by (rewrite app_nil_r, length_app, Hlen; simpl; lia).
    pose proof (store_loop_row (E := E) (2 ^ d) (pad (2 ^ S d) l) pre [] (replicate (2 ^ S d - 1) None) fuel Hlen) as Hrow.
    rewrite length_replicate in Hrow. cbn [app] in Hrow. rewrite Hrow by (simpl in *; lia). clear Hrow.
    rewrite drop_replicate. change (2 ^ S d)%nat with (2 * 2 ^ d)%nat at 4. rewrite row_up_opt_pad by (simpl in *; lia).
    replace (2 ^ S d - 1 - 2 ^ d)%nat with (2 ^ d - 1)%nat by (simpl; lia).
    rewrite app_nil_r, app_assoc.
    destruct (IH (row_up l) (pre ++ pad (2 ^ S d) l) (fuel - 2 ^ d)%nat Hup) as (rows & r & Hs & Hr); [simpl in *; lia|].
    exists rows, r. split; [exact Hs|]. rewrite merkle_root_up; [done|]. destruct d; simpl in *; lia.
Qed.

Lemma nextPowerOfTwo_least n :
  (1 <= n)%nat -> exists d, nextPowerOfTwo (Z.of_nat n) = Z.of_nat (2 ^ d) /\ least_power d n.
Proof.
  intros Hn. set (z := Z.of_nat n). set (k := Z.log2 z).
  assert (Hk : 2 ^ k <= z < 2 ^ (k + 1)) by (apply Z.log2_spec; unfold z; lia).
  assert (Hk0 : 0 <= k) by apply Z.log2_nonneg. pose proof (Z.pow_pos_nonneg 2 k) as Hpk.
  assert (Hpow : forall d, Z.of_nat (2 ^ d) = 2 ^ Z.of_nat d) by (intros; by rewrite Nat2Z.inj_pow).
  unfold nextPowerOfTwo. fold z k. destruct (Z.eqb_spec (Z.land z (z - 1)) 0) as [H0|H0].
  - assert (Hz : z = 2 ^ k).
    { destruct (Z.eq_dec z (2 ^ k)) as [|Hne]; [done|].
      assert (Hb : Z.testbit (Z.land z (z - 1)) k = true); [|by rewrite H0, Z.bits_0 in Hb].
      assert (Hbit : forall x, 2 ^ k <= x < 2 ^ (k + 1) -> Z.testbit x k = true).
      { intros x Hx. replace k with (Z.log2 x); [apply Z.bit_log2; lia|]. apply Z.log2_unique; done. }
      rewrite Z.land_spec, !Hbit by lia. done. }
    exists (Z.to_nat k). rewrite Hpow, Z2Nat.id by done. split; [done|].
    assert (Hn' : n = (2 ^ Z.to_nat k)%nat).
    { apply Nat2Z.inj. rewrite Hpow, Z2Nat.id by done. done. }
    split; [lia|]. destruct (Z.to_nat k) as [|e]; [simpl in Hn'; lia|]. pose proof (pow2_nat_pos e). simpl in Hn'. lia.
  - assert (Hne : z <> 2 ^ k).
    { intros Hz. apply H0. rewrite Hz, Z.sub_1_r, <- Z.ones_equiv, Z.land_ones by done. apply Z.mod_same. lia. }
    exists (S (Z.to_nat k)). rewrite Z.shiftl_1_l, Hpow, Nat2Z.inj_succ, Z2Nat.id by done. split; [done|].
    split; [apply Nat2Z.inj_le; rewrite Hpow, Nat2Z.inj_succ|apply Nat2Z.inj_lt; rewrite Hpow];
      rewrite Z2Nat.id by done; fold z; unfold Z.succ; lia.
Qed.

(** *** The rolling store *)

(** The roots the store keeps for a row of nodes: one for each set bit of the
    number of nodes. *)
Inductive peaks : list bytes -> list bytes -> Prop :=
| peaks_nil : peaks [] []
| peaks_even l ps : l <> [] -> Nat.even (length l) = true -> peaks (row_up l) ps -> peaks l ps
| peaks_odd l ps x : Nat.even (length l) = true -> peaks (row_up l) ps -> peaks (l ++ [x]) (ps ++ [x]).

Lemma even_half l : Nat.even (length l) = true -> len l = 2 * len (row_up l).
Proof.
  intros He. apply Nat.even_spec in He as [k Hk]. pose proof (row_up_double l). unfold len. lia.
Qed.

Lemma low_bit n : Z.land n 1 = n mod 2.
Proof. apply (Z.land_ones n 1). lia. Qed.

Lemma shiftr_next n h : 0 <= h -> Z.shiftr n (h + 1) = Z.shiftr n h / 2.
Proof. intros Hh. by rewrite <- Z.shiftr_shiftr, <- Z.div2_spec, Z.div2_div by lia. Qed.

(** Adding a node to a row: the roots become those of the longer row. *)
Lemma add_loop_peaks {E} l ps x n h fuel :
  peaks l ps -> 0 <= h -> Z.shiftr n h = len l -> len l < 2 ^ Z.of_nat fuel ->
  exists ps' x', add_loop (E := E) fuel h n ps x = Ok (ps', x') /\ peaks (l ++ [x]) (ps' ++ [x']).
Proof.
  intros Hp. revert x h fuel. induction Hp as [|l ps Hne He Hp IH|l ps y He Hp IH]; intros x h fuel Hh Hn Hf.
  - exists [], x. destruct fuel; cbn [add_loop]; rewrite Hn; (split; [done|]); by apply (peaks_odd [] []); constructor.
  - exists ps, x. destruct fuel; cbn [add_loop]; rewrite Hn, low_bit, (even_half l He), Z.mul_comm, Z.mod_mul by done;
      (split; [done|]); by apply peaks_odd.
  - rewrite len_app in Hn, Hf. change (len [y]) with 1 in *. rewrite (even_half l He) in Hn, Hf.
    pose proof (len_nonneg (row_up l)).
    destruct fuel as [|fuel]; [change (2 ^ Z.of_nat 0) with 1 in Hf; lia|].
    cbn [add_loop]. rewrite Hn, low_bit, Z.add_comm, Z.mul_comm, Z.mod_add by done.
    change (1 mod 2 =? 1) with true. cbv iota. rewrite last_snoc. cbn [unwrap rbind].
    rewrite length_app, Nat.add_sub, take_app_length.
    rewrite Nat2Z.inj_succ, Z.pow_succ_r in Hf by lia.
    destruct (IH (HashMerkleBranches y x) (h + 1) fuel) as (ps' & x' & Ha & Hp'); [lia| |lia|].
    { rewrite shiftr_next, Hn by done. rewrite Z.mul_comm, Z.div_add_l by done. change (1 / 2) with 0. lia. }
    exists ps', x'. split; [exact Ha|]. apply peaks_even; [by destruct l| |].
    + rewrite !length_app. simpl. by rewrite <- Nat.add_assoc, Nat.even_add, He.
    + rewrite <- app_assoc, row_up_app by done. exact Hp'.
Qed.

Definition rolling_ok (l : list bytes) (s : rollingMerkleTreeStore) : Prop :=
  peaks l (roots s) /\ numLeaves s = len l.

Lemma rolling_add_ok {E} l s x :
  rolling_ok l s -> len l + 1 < 2 ^ 64 -> exists s', rolling_add (E := E) s x = Ok s' /\ rolling_ok (l ++ [x]) s'.
Proof.
  intros [Hp Hn] Hl. unfold rolling_add. pose proof (len_nonneg l).
  destruct (add_loop_peaks (E := E) l (roots s) x (numLeaves s) 0 65 Hp) as (ps' & x' & -> & Hp');
    [lia|by rewrite Z.shiftr_0_r|change (2 ^ Z.of_nat 65) with (2 ^ 65); lia|].
  eexists. split; [done|]. split; [done|]. simpl. rewrite Hn, len_app. change (len [x]) with 1.
  apply uint64_id. unfold is_uint64. lia.
Qed.

Lemma row_up_nil l : row_up l = [] -> l = [].
Proof. by destruct l as [|a [|b l]]. Qed.

Lemma peaks_empty l ps : peaks l ps -> ps = [] -> l = [].
Proof.
  induction 1 as [|l ps Hne He Hp IH|l ps x He Hp IH]; intros Hps; [done| |by destruct ps].
  by apply row_up_nil, IH.
Qed.

Lemma even_two (l : list bytes) : l <> [] -> Nat.even (length l) = true -> (2 <= length l)%nat.
Proof. destruct l as [|a [|b l]]; simpl; [done|done|lia]. Qed.

Lemma peaks_one x ps : peaks [x] ps -> ps = [x].
Proof.
  intros Hp. inversion Hp as [|? ? ? He|l qs y He Hq Hl]; [done|]. simplify_eq.
  apply app_singleton in Hl as [[-> Hx]|[_ ?]]; [|done]. simplify_eq.
  simpl in Hq. inversion Hq as [| |l ? ? ? ? Hnil]; [done|done|]. by destruct l.
Qed.

Lemma peaks_single l ps r : peaks l ps -> ps = [r] -> merkle_root l = Some r.
Proof.
  induction 1 as [|l ps Hne He Hp IH|l ps x He Hp IH]; intros Hps; [done| |].
  - rewrite merkle_root_up; [by apply IH|]. by apply even_two.
  - apply (app_singleton ps [x] r) in Hps as [[-> Hx]|[_ ?]]; [|done].
    assert (l = []) as -> by (by apply row_up_nil, (peaks_empty _ _ Hp)). by simplify_eq.
Qed.

(** Moving up to the first odd row keeps the roots and the tree. *)
Lemma shift_loop_peaks {E} l ps n h fuel :
  peaks l ps -> l <> [] -> 0 <= h -> Z.shiftr n h = len l -> len l < 2 ^ Z.of_nat fuel ->
  exists l0 x ps0, ps = ps0 ++ [x] /\ shift_loop (E := E) fuel h n (len l) = Ok (len (l0 ++ [x]))
    /\ Nat.even (length l0) = true /\ peaks (l0 ++ [x]) ps /\ merkle_root (l0 ++ [x]) = merkle_root l
    /\ len (l0 ++ [x]) <= len l /\ (Nat.even (length l) = true -> 2 * len (l0 ++ [x]) <= len l).
Proof.
  intros Hp. revert h fuel. induction Hp as [|l ps Hne He Hp IH|l ps x He Hp IH]; intros h fuel Hl Hh Hn Hf; [done| |].
  - pose proof (even_half l He) as Hhalf. pose proof (len_nonneg (row_up l)).
    assert (Hne' : row_up l <> []) by (intros ?%row_up_nil; done).
    assert (len (row_up l) <> 0) by (intros ?%len_0; done).
    destruct fuel as [|fuel]; [change (2 ^ Z.of_nat 0) with 1 in Hf; lia|].
    cbn [shift_loop]. rewrite Hn, low_bit, Hhalf, Z.mul_comm, Z.mod_mul by done. cbn [Z.eqb].
    rewrite Nat2Z.inj_succ, Z.pow_succ_r in Hf by lia.
    destruct (IH (h + 1) fuel Hne') as (l0 & x & ps0 & Hps & Hs & He0 & Hp0 & Hr & Hle & _); [lia| |lia|].
    { rewrite shiftr_next, Hn, Hhalf, Z.mul_comm, Z.div_mul by done. done. }
    exists l0, x, ps0. rewrite Z.shiftr_div_pow2 by lia. change (2 ^ 1) with 2. rewrite Z.div_mul by done.
    split_and!; try done; try lia. rewrite Hr. symmetry. apply merkle_root_up. by apply even_two.
  - exists l, x, ps. assert (Hodd : Z.shiftr n h mod 2 = 1).
    { rewrite Hn, len_app, (even_half l He), Z.add_comm, Z.mul_comm, Z.mod_add by done. done. }
    split_and!; try done; [|by apply peaks_odd|].
    + destruct fuel; cbn [shift_loop]; by rewrite low_bit, Hodd.
    + rewrite length_app, Nat.even_add, He. done.
Qed.

Lemma even_snoc l (x : bytes) : Nat.even (length l) = true -> Nat.even (length ((l ++ [x]) ++ [x])) = true.
Proof. intros He. rewrite !length_app. simpl. by rewrite <- Nat.add_assoc, Nat.even_add, He. Qed.

(** Repeating the last node of an odd row of more than one node keeps the root. *)
Lemma merkle_root_repeat l x :
  Nat.even (length l) = true -> l <> [] -> merkle_root ((l ++ [x]) ++ [x]) = merkle_root (l ++ [x]).
Proof.
  intros He Hne. assert (1 <= length l)%nat by (destruct l; simpl; [done|lia]).
  rewrite (merkle_root_up ((l ++ [x]) ++ [x])), (merkle_root_up (l ++ [x])) by len_lia.
  rewrite <- app_assoc, (row_up_app l ([x] ++ [x])), (row_up_app l [x]) by done. done.
Qed.

Lemma root_loop_ok {E} fuel l s :
  rolling_ok l s -> l <> [] -> Nat.even (length l) = true -> len l <= 2 ^ Z.of_nat fuel + 2 -> len l < 2 ^ 63 ->
  exists s' r, root_loop (E := E) fuel s = Ok s' /\ roots s' = [r] /\ merkle_root l = Some r.
Proof.
  revert l s. induction fuel as [|fuel IH]; intros l s [Hp Hn] Hne He Hf Hl; cbn [root_loop].
  all: destruct (Nat.ltb_spec 1 (length (roots s))) as [Hgt|Hle].
  2,4: destruct (roots s) as [|r [|? ?]] eqn:Hroots; [by apply (peaks_empty l []) in Hp| |simpl in Hle; lia];
    exists s, r; split_and!; [done|done|by eapply peaks_single].
  - destruct (shift_loop_peaks (E := E) l (roots s) (numLeaves s) 0 64 Hp Hne)
      as (l0 & x & ps0 & Hps & _ & He0 & Hp0 & _ & Hle & Hhalf); [lia|by rewrite Z.shiftr_0_r|lia|].
    specialize (Hhalf He). change (2 ^ Z.of_nat 0 + 2) with 3 in Hf. rewrite len_app in Hhalf.
    change (len [x]) with 1 in Hhalf. pose proof (len_nonneg l0).
    assert (l0 = []) as -> by (apply len_0; lia). apply peaks_one in Hp0. rewrite Hp0 in Hgt. simpl in Hgt. lia.
  - destruct (shift_loop_peaks (E := E) l (roots s) (numLeaves s) 0 64 Hp Hne)
      as (l0 & x & ps0 & Hps & Hs & He0 & Hp0 & Hr & Hle & Hhalf); [lia|by rewrite Z.shiftr_0_r|lia|].
    rewrite Hn in Hs |- *. rewrite Hs. cbn [rbind]. rewrite Hps, last_snoc. cbn [unwrap rbind].
    specialize (Hhalf He).
    assert (Hl0 : l0 <> []).
    { intros ->. apply peaks_one in Hp0. rewrite Hp0 in Hgt. simpl in Hgt. lia. }
    destruct (rolling_add_ok (E := E) (l0 ++ [x]) (mkRolling (ps0 ++ [x]) (len (l0 ++ [x]))) x) as (s' & -> & Hok);
      [split; [by rewrite <- Hps|done]|lia|]. cbn [rbind].
    assert (Hlen : len ((l0 ++ [x]) ++ [x]) = len (l0 ++ [x]) + 1) by (rewrite len_app; done).
    destruct (IH ((l0 ++ [x]) ++ [x]) s' Hok) as (s'' & r & Hroot & Hr1 & Hr2).
    + by destruct l0.
    + by apply even_snoc.
    + rewrite Nat2Z.inj_succ, Z.pow_succ_r in Hf by lia. lia.
    + lia.
    + exists s'', r. split_and!; [done|done|]. by rewrite <- Hr, <- merkle_root_repeat.
Qed.

(** *** What the root determines *)

(** The pairs hashed in a row, and in the whole tree. *)
Fixpoint pairs (l : list bytes) : list (bytes * bytes) :=
  match l with
  | [] => []
  | [a] => [(a, a)]
  | a :: b :: r => (a, b) :: pairs r
  end.

Fixpoint branches (fuel : nat) (l : list bytes) : list (bytes * bytes) :=
  match fuel with
  | O => []
  | S fuel => if (length l <=? 1)%nat then [] else pairs l ++ branches fuel (row_up l)
  end.

(** No two different pairs of [ps] hash to the same value. *)
Definition collision_free (ps : list (bytes * bytes)) : Prop :=
  forall p q, In p ps -> In q ps -> HashMerkleBranches p.1 p.2 = HashMerkleBranches q.1 q.2 -> p = q.

Lemma row_up_pairs l : row_up l = map (fun p => HashMerkleBranches p.1 p.2) (pairs l).
Proof. induction l as [|a|a b l IH] using list_pair_ind; simpl; [done|done|]. by rewrite IH. Qed.

Lemma pairs_in l p : In p (pairs l) -> In p.1 l /\ In p.2 l.
Proof.
  induction l as [|a|a b l IH] using list_pair_ind; simpl; [done|intros [<- | []]; simpl; tauto|].
  intros [<- | H]; simpl; [tauto|]. destruct (IH H). tauto.
Qed.

Lemma pairs_NoDup l : List.NoDup l -> List.NoDup (pairs l).
Proof.
  induction l as [|a|a b l IH] using list_pair_ind; simpl; intros Hl.
  { apply List.NoDup_nil. }
  { apply List.NoDup_cons; [by intros []|apply List.NoDup_nil]. }
  inversion_clear Hl as [|? ? Ha Hl']. inversion_clear Hl' as [|? ? Hb Hl]. constructor; [|by apply IH].
  intros Hin%pairs_in. simpl in *. tauto.
Qed.

Lemma pairs_inj l l' : List.NoDup l -> List.NoDup l' -> pairs l = pairs l' -> l = l'.
Proof.
  revert l'. induction l as [|a|a b l IH] using list_pair_ind; intros [|a' [|b' l']] Hl Hl' Heq; simpl in Heq; simplify_eq; try done.
  - inversion_clear Hl' as [|? ? Ha _]. simpl in Ha. tauto.
  - inversion_clear Hl as [|? ? Ha _]. simpl in Ha. tauto.
  - inversion_clear Hl as [|? ? _ H1]. inversion_clear H1 as [|? ? _ H2].
    inversion_clear Hl' as [|? ? _ H3]. inversion_clear H3 as [|? ? _ H4]. by rewrite (IH l').
Qed.

Lemma map_inj_on {A B} (f : A -> B) l l' :
  (forall x y, In x l -> In y l' -> f x = f y -> x = y) -> map f l = map f l' -> l = l'.
Proof.
  revert l'. induction l as [|a l IH]; intros [|a' l'] Hf Heq; simpl in Heq; simplify_eq; [done|].
  f_equal; [apply Hf; simpl; auto|]. apply IH; [|done]. intros x y Hx Hy. apply Hf; simpl; auto.
Qed.

Lemma row_up_NoDup l : List.NoDup l -> collision_free (pairs l) -> List.NoDup (row_up l).
Proof.
  intros Hl Hc. rewrite row_up_pairs. pose proof (pairs_NoDup l Hl) as Hp. clear Hl. revert Hc Hp.
  generalize (pairs l) as ps. induction ps as [|p ps IH]; intros Hc Hp; [apply List.NoDup_nil|]. simpl.
  inversion_clear Hp as [|? ? Hn Hp']. apply List.NoDup_cons.
  - intros (q & Heq & Hq)%in_map_iff. apply Hn. replace p with q; [done|]. apply (Hc q p); simpl; auto.
  - apply IH; [|done]. intros x y Hx Hy. apply Hc; simpl; auto.
Qed.

Lemma branches_incl f g l : (f <= g)%nat -> incl (branches f l) (branches g l).
Proof.
  revert g l. induction f as [|f IH]; intros [|g] l Hfg; [by intros ? []|by intros ? []|lia|]. cbn [branches].
  destruct (length l <=? 1)%nat; [apply incl_refl|]. apply incl_app; [apply incl_appl, incl_refl|]. apply incl_appr, IH. lia.
Qed.

Lemma least_power_fuel d n : least_power d n -> (d <= n)%nat.
Proof.
  intros [_ H]. destruct d as [|e]; [lia|]. pose proof (Nat.pow_gt_lin_r 2 e). lia.
Qed.

Lemma root_binds d l l' :
  least_power d (length l) -> least_power d (length l') -> List.NoDup l -> List.NoDup l' ->
  collision_free (branches d l ++ branches d l') -> merkle_root l = merkle_root l' -> l = l'.
Proof.
  revert l l'. induction d as [|d IH]; intros l l' Hd Hd' Hl Hl' Hc Hr.
  { destruct Hd as [H1 H2], Hd' as [H3 H4]. simpl in *. destruct l as [|a [|]], l' as [|b [|]]; simpl in *; try lia.
    by injection Hr as ->. }
  assert (Hbig : forall k : list bytes, least_power (S d) (length k) -> (2 <= length k)%nat)
    by (intros k [_ Hk]; pose proof (pow2_nat_pos d); lia).
  assert (Hbr : forall k, least_power (S d) (length k) -> branches (S d) k = pairs k ++ branches d (row_up k)).
  { intros k Hk%Hbig. cbn [branches]. by destruct (Nat.leb_spec (length k) 1); [lia|]. }
  rewrite !Hbr in Hc by done. rewrite (merkle_root_up l), (merkle_root_up l') in Hr by auto.
  assert (Hcf : forall ps, incl ps (pairs l ++ branches d (row_up l) ++ pairs l' ++ branches d (row_up l')) -> collision_free ps).
  { intros ps Hi p q Hp Hq. rewrite <- app_assoc in Hc. apply Hc; by apply Hi. }
  apply pairs_inj; [done|done|]. assert (Hup : row_up l = row_up l').
  { apply IH; [by apply least_power_up|by apply least_power_up| | | |exact Hr];
      [apply row_up_NoDup; [done|]|apply row_up_NoDup; [done|]|]; apply Hcf;
      intros p Hp; clear -Hp; rewrite ?in_app_iff in *; tauto. }
  rewrite !row_up_pairs in Hup. eapply map_inj_on; [|exact Hup]. intros p q Hp Hq.
  apply (Hc p q); apply in_or_app; [left|right]; apply in_or_app; left; [exact Hp|exact Hq].
Qed.

(** *** Both computations on wrapped transactions *)

Section Roots.
Context `{D : DecimalOps} {DL : DecimalLaws D}.

(** The leaf of the transaction at index [i]. *)
Definition merkle_leaf (witness : bool) (i : nat) (m : MsgTx) : bytes :=
  if witness && (Z.of_nat i =? 0) then zeroHash else if witness then WitnessHash m else TxHash m.

Fixpoint merkle_leaves (witness : bool) (i : nat) (txs : list Tx) : list bytes :=
  match txs with
  | [] => []
  | tx :: txs => merkle_leaf witness i (msgTx tx) :: merkle_leaves witness (S i) txs
  end.

(** A wrapped transaction with exact caches. *)
Definition cached_tx (tx : Tx) : Prop := bounded_tx (msgTx tx) /\ tx_ok (txIndex tx) (msgTx tx) tx.

Lemma store_leaf_ok {E} w i tx : cached_tx tx -> store_leaf (E := E) w i tx = Ok (merkle_leaf w i (msgTx tx)).
Proof.
  intros [Hb Ht]. unfold store_leaf, merkle_leaf. destruct (Tx_Hash_ok (E := E) _ _ tx Hb Ht) as (t' & -> & _).
  destruct w; simpl; [|done]. by case_if.
Qed.

Lemma rolling_leaf_ok {E} w i tx : cached_tx tx -> rolling_leaf (E := E) w i tx = Ok (merkle_leaf w i (msgTx tx)).
Proof.
  intros [Hb Ht]. unfold rolling_leaf, merkle_leaf. destruct (Tx_Hash_ok (E := E) _ _ tx Hb Ht) as (t' & -> & _).
  destruct (Tx_WitnessHash_ok _ _ tx Hb Ht) as (t2 & -> & _). destruct w; simpl; [|done]. by case_if.
Qed.

Lemma merkle_leaves_length w i txs : length (merkle_leaves w i txs) = length txs.
Proof. revert i. induction txs as [|tx txs IH]; intros i; [done|]. simpl. by rewrite IH. Qed.

Lemma merkle_leaves_snoc w i txs tx :
  merkle_leaves w i (txs ++ [tx]) = merkle_leaves w i txs ++ [merkle_leaf w (i + length txs) (msgTx tx)].
Proof.
  revert i. induction txs as [|t txs IH]; intros i; simpl; [by rewrite Nat.add_0_r|].
  rewrite IH. do 4 f_equal. lia.
Qed.

Lemma store_leaves_ok {E} w txs seen k :
  Forall cached_tx txs -> (length txs <= k)%nat ->
  store_leaves (E := E) w (length seen) txs (map Some seen ++ replicate k None)
  = Ok (map Some (seen ++ merkle_leaves w (length seen) txs) ++ replicate (k - length txs) None).
Proof.
  intros Ht. revert seen k. induction Ht as [|tx txs Hc Ht IH]; intros seen k Hk.
  { simpl. by rewrite app_nil_r, Nat.sub_0_r. }
  destruct k as [|k]; simpl in Hk; [lia|]. cbn [store_leaves merkle_leaves replicate]. rewrite store_leaf_ok by done.
  cbn [rbind]. rewrite <- (length_map Some seen) at 1. rewrite assign_app. cbn [rbind].
  specialize (IH (seen ++ [merkle_leaf w (length seen) (msgTx tx)]) k).
  rewrite length_app, map_app, <- !app_assoc, Nat.add_comm in IH. simpl in IH. rewrite IH by lia. done.
Qed.

Lemma rolling_leaves_ok {E} w txs seen s :
  Forall cached_tx txs -> rolling_ok seen s -> len seen + len txs < 2 ^ 64 ->
  exists s', rolling_leaves (E := E) w (length seen) txs s = Ok s'
    /\ rolling_ok (seen ++ merkle_leaves w (length seen) txs) s'.
Proof.
  intros Ht. revert seen s. induction Ht as [|tx txs Hc Ht IH]; intros seen s Hs Hl.
  { exists s. simpl. by rewrite app_nil_r. }
  rewrite len_cons in Hl. pose proof (len_nonneg txs). cbn [rolling_leaves merkle_leaves].
  rewrite rolling_leaf_ok by done. cbn [rbind].
  destruct (rolling_add_ok (E := E) seen s (merkle_leaf w (length seen) (msgTx tx)) Hs) as (s' & -> & Hs'); [lia|].
  cbn [rbind]. destruct (IH _ s' Hs') as (s'' & Hr & Hok); [rewrite len_app, len_cons, len_nil; lia|].
  rewrite length_app, Nat.add_comm in Hr. simpl in Hr. exists s''. split; [done|].
  rewrite length_app, Nat.add_comm, <- app_assoc in Hok. exact Hok.
Qed.

Lemma BuildMerkleTreeStore_root {E} txs w :
  Forall cached_tx txs -> txs <> [] ->
  exists rows r, BuildMerkleTreeStore (E := E) txs w = Ok (rows ++ [Some r])
    /\ merkle_root (merkle_leaves w 0 txs) = Some r.
Proof.
  intros Ht Hne. destruct (nextPowerOfTwo_least (length txs)) as (d & Hd & Hl); [by destruct txs; simpl; [|lia]|].
  unfold BuildMerkleTreeStore, len. rewrite Hd. pose proof (pow2_nat_pos d) as Hp. z_test.
  replace (Z.to_nat _) with (2 ^ d + (2 ^ d - 1))%nat by lia. rewrite replicate_add.
  pose proof (store_leaves_ok (E := E) w txs [] (2 ^ d + (2 ^ d - 1)) Ht) as Hs.
  destruct Hl as [Hl1 Hl2]. simpl in Hs. rewrite <- replicate_add, Hs by lia. cbn [rbind].
  replace (2 ^ d + (2 ^ d - 1) - length txs)%nat with ((2 ^ d - length txs) + (2 ^ d - 1))%nat by lia.
  rewrite replicate_add, app_assoc.
  assert (Hpad : map Some (merkle_leaves w 0 txs) ++ replicate (2 ^ d - length txs) None
                 = pad (2 ^ d) (merkle_leaves w 0 txs)) by (unfold pad; by rewrite merkle_leaves_length).
  rewrite Hpad, Nat2Z.id. apply (store_loop_rows d (merkle_leaves w 0 txs) []).
  - rewrite merkle_leaves_length. by split.
  - rewrite length_app, length_replicate. unfold pad.
    rewrite length_app, length_map, length_replicate, merkle_leaves_length. lia.
Qed.

Lemma CalcMerkleRoot_root {E} txs w :
  Forall cached_tx txs -> txs <> [] -> len txs < 2 ^ 62 ->
  exists r, CalcMerkleRoot (E := E) txs w = Ok r /\ merkle_root (merkle_leaves w 0 txs) = Some r.
Proof.
  intros Ht Hne Hl. unfold CalcMerkleRoot, calcMerkleRoot.
  destruct (rolling_leaves_ok (E := E) w txs [] newRollingMerkleTreeStore Ht) as (s & Hr & Hs);
    [split; [apply peaks_nil|done]|rewrite len_nil; lia|].
  cbn [app length] in Hr, Hs. rewrite Hr. clear Hr. cbn [rbind]. set (leaves := merkle_leaves w 0 txs) in *.
  assert (Hlen : len leaves = len txs) by (unfold len, leaves; by rewrite merkle_leaves_length).
  assert (Hlne : leaves <> []) by (intros Hn; apply (f_equal len) in Hn; rewrite Hlen, len_nil in Hn; by apply len_0 in Hn).
  pose proof Hs as [Hp Hn]. rewrite Hn, Hlen. destruct (Z.eqb_spec (len txs) 1) as [H1|H1].
  { clearbody leaves. destruct leaves as [|x [|y l]]; [done| |].
    - apply peaks_one in Hp. rewrite Hp. by exists x.
    - rewrite !len_cons in Hlen. pose proof (len_nonneg l). lia. }
  pose proof (len_nonneg txs). assert (len txs <> 0) by (intros ?%len_0; done).
  assert (Hpar : len txs mod 2 = 0 <-> Nat.even (length leaves) = true).
  { rewrite <- Hlen. unfold len. rewrite Nat.even_spec. split.
    - intros Hz%Z.mod_divide; [|done]. destruct Hz as [k Hk]. exists (Z.to_nat k). lia.
    - intros [k ->]. rewrite Nat2Z.inj_mul, Z.mul_comm. by apply Z.mod_mul. }
  replace (0 <? len txs) with true by (symmetry; apply Z.ltb_lt; lia).
  destruct (Z.eqb_spec (len txs mod 2) 0) as [H2|H2]; cbn [andb negb rbind].
  - destruct (root_loop_ok (E := E) 65 leaves s Hs Hlne) as (s' & r & -> & Hr & Hm); [by apply Hpar| |lia|].
    { change (2 ^ Z.of_nat 65) with (2 ^ 65). lia. }
    cbn [rbind]. rewrite Hr. by exists r.
  - destruct (exists_last Hne) as (txs0 & tx & ->). rewrite last_snoc. cbn [unwrap rbind].
    assert (Hx : (if w then Ok (Tx_WitnessHash tx).1 else let! '(h, _) := Tx_Hash tx in Ok h)
                 = Ok (E := E) (merkle_leaf w (length txs0) (msgTx tx))).
    { apply Forall_app in Ht as [_ Ht]. apply Forall_inv in Ht. rewrite <- (rolling_leaf_ok w (length txs0) tx Ht).
      unfold rolling_leaf. destruct w; [|done]. rewrite len_app in H1. change (len [tx]) with 1 in H1. unfold len in H1.
      by z_test. }
    rewrite Hx. cbn [rbind]. unfold leaves in *. rewrite merkle_leaves_snoc in *. simpl plus in *.
    set (l0 := merkle_leaves w 0 txs0) in *. set (x := merkle_leaf w (length txs0) (msgTx tx)) in *.
    destruct (rolling_add_ok (E := E) (l0 ++ [x]) s x Hs) as (s1 & -> & Hs1); [lia|]. cbn [rbind].
    assert (Hodd : Nat.even (length l0) = true).
    { rewrite length_app in Hpar. simpl in Hpar. rewrite Nat.add_1_r, Nat.even_succ in Hpar.
      destruct (Nat.even (length l0)) eqn:He; [done|]. rewrite <- Nat.negb_even, He in Hpar. exfalso. by apply H2, Hpar. }
    assert (Hl0 : l0 <> []) by (intros ->; rewrite <- Hlen in H1; done).
    destruct (root_loop_ok (E := E) 65 ((l0 ++ [x]) ++ [x]) s1 Hs1) as (s' & r & -> & Hr & Hm);
      [by destruct l0|by apply even_snoc| | |].
    1,2: rewrite len_app, Hlen; change (len [x]) with 1; change (2 ^ Z.of_nat 65) with (2 ^ 65); lia.
    cbn [rbind]. rewrite Hr. exists r. split; [done|]. by rewrite <- merkle_root_repeat.
Qed.

(** C30: The rolling computation of the merkle root and the array agree: on every
    list of wrapped transactions, for the plain and for the witness tree, the root
    [CalcMerkleRoot] returns is the last entry of [BuildMerkleTreeStore] and the
    root of the tree built row by row; without transactions both panic. *)
Theorem merkle_roots_agree {E} (txs : list Tx) (witness : bool) :
  Forall cached_tx txs -> len txs < 2 ^ 48 ->
  match txs with
  | [] => BuildMerkleTreeStore (E := E) txs witness = Panic /\ CalcMerkleRoot (E := E) txs witness = Panic
  | _ => exists rows r, BuildMerkleTreeStore (E := E) txs witness = Ok (rows ++ [Some r])
         /\ CalcMerkleRoot (E := E) txs witness = Ok r
         /\ merkle_root (merkle_leaves witness 0 txs) = Some r
  end.
Proof.
  intros Ht Hl. destruct txs as [|tx txs]; [done|].
  destruct (BuildMerkleTreeStore_root (E := E) (tx :: txs) witness Ht) as (rows & r & Hb & Hr); [done|].
  destruct (CalcMerkleRoot_root (E := E) (tx :: txs) witness Ht) as (r' & Hc & Hr'); [done|lia|].
  rewrite Hr in Hr'. simplify_eq. by exists rows, r'.
Qed.

Lemma merkle_leaves_txids i txs : merkle_leaves false i txs = map (fun tx => TxHash (msgTx tx)) txs.
Proof. revert i. induction txs as [|tx txs IH]; intros i; [done|]. simpl. by rewrite IH. Qed.

(** C31: The merkle root commits to the transactions of a block: two lists of
    transactions without repeated identifiers whose trees have the same height
    and the same root have the same identifiers in the same order, as long as
    the hashes computed in the two trees do not collide. *)
Theorem merkle_root_binds {E} (txs txs' : list Tx) (root : bytes) :
  let ids := map (fun tx => TxHash (msgTx tx)) in
  Forall cached_tx txs -> Forall cached_tx txs' -> txs <> [] -> txs' <> [] ->
  len txs < 2 ^ 48 -> len txs' < 2 ^ 48 ->
  List.NoDup (ids txs) -> List.NoDup (ids txs') ->
  nextPowerOfTwo (len txs) = nextPowerOfTwo (len txs') ->
  collision_free (branches (length txs) (ids txs) ++ branches (length txs') (ids txs')) ->
  CalcMerkleRoot (E := E) txs false = Ok root -> CalcMerkleRoot (E := E) txs' false = Ok root ->
  ids txs = ids txs'.
Proof.
  intros ids Ht Ht' Hne Hne' Hl Hl' Hnd Hnd' Hpow Hc Hr Hr'.
  destruct (CalcMerkleRoot_root (E := E) txs false Ht Hne) as (r & Hr1 & Hm); [lia|].
  destruct (CalcMerkleRoot_root (E := E) txs' false Ht' Hne') as (r' & Hr1' & Hm'); [lia|].
  rewrite Hr in Hr1. rewrite Hr' in Hr1'. simplify_eq. rewrite merkle_leaves_txids in Hm, Hm'. fold (ids txs) in Hm.
  fold (ids txs') in Hm'.
  destruct (nextPowerOfTwo_least (length txs)) as (d & Hd & Hleast); [by destruct txs; simpl; [|lia]|].
  destruct (nextPowerOfTwo_least (length txs')) as (d' & Hd' & Hleast'); [by destruct txs'; simpl; [|lia]|].
  unfold len in Hpow. rewrite Hd, Hd' in Hpow. apply Nat2Z.inj, Nat.pow_inj_r in Hpow as <-; [|lia].
  apply (root_binds d); try (unfold ids; rewrite length_map; done); try done; [|by rewrite Hm, Hm'].
  pose proof (branches_incl d (length txs) (ids txs) (least_power_fuel _ _ Hleast)) as Hi.
  pose proof (branches_incl d (length txs') (ids txs') (least_power_fuel _ _ Hleast')) as Hi'.
  intros p q Hp Hq. apply (Hc p q); [destruct (in_app_or _ _ _ Hp)|destruct (in_app_or _ _ _ Hq)]; apply in_or_app; auto.
Qed.

End Roots.

(** ** Concrete trees *)

Definition third_tx : MsgTx (D := text_decimal) :=
  mkMsgTx (D := text_decimal) 2 (TxIns sample_tx) [] 7.

Definition sample_txs : list (Tx (D := text_decimal)) := map NewTx [sample_tx; other_tx; third_tx].

Lemma NewTx_cached `{D : DecimalOps} m : bounded_tx m -> cached_tx (NewTx m).
Proof. intros Hm. split; [done|]. unfold tx_ok; simpl. split_and!; try done; by left. Qed.

Lemma sample_txs_cached : Forall cached_tx sample_txs.
Proof.
  repeat constructor; apply NewTx_cached || idtac; repeat split; repeat constructor; vm_compute; congruence.
Qed.

Lemma merkle_roots_agree_witness :
  exists rows r, BuildMerkleTreeStore (E := WireError) sample_txs true = Ok (rows ++ [Some r])
  /\ CalcMerkleRoot (E := WireError) sample_txs true = Ok r
  /\ merkle_root (merkle_leaves true 0 sample_txs) = Some r.
Proof.
  exact (merkle_roots_agree (DL := text_decimal_laws) (E := WireError) sample_txs true sample_txs_cached eq_refl).
Defined.

Definition collision_freeb (ps : list (bytes * bytes)) : bool :=
  let hashed := map (fun p => (HashMerkleBranches p.1 p.2, p)) ps in
  forallb (fun p => forallb (fun q => implb (bytes_eqb p.1 q.1) (bool_decide (p.2 = q.2))) hashed) hashed.

Lemma collision_freeb_sound ps : collision_freeb ps = true -> collision_free ps.
Proof.
  unfold collision_freeb. rewrite forallb_forall. intros H p q Hp Hq Heq.
  specialize (H _ (in_map _ _ _ Hp)). rewrite forallb_forall in H. specialize (H _ (in_map _ _ _ Hq)).
  cbn [fst snd] in H. rewrite Heq, bytes_eqb_refl in H. by apply bool_decide_eq_true in H.
Qed.

(** The same transactions, wrapped once fresh and once with the hashes cached. *)
Definition hashed_txs : list (Tx (D := text_decimal)) :=
  map (fun m => set_txHash (NewTx m) (TxHash m)) [sample_tx; other_tx; third_tx].

Lemma hashed_tx_cached `{D : DecimalOps} m : bounded_tx m -> cached_tx (set_txHash (NewTx m) (TxHash m)).
Proof. intros Hm. split; [done|]. unfold tx_ok; simpl. split_and!; try done; by (left + right). Qed.

Lemma hashed_txs_cached : Forall cached_tx hashed_txs.
Proof.
  pose proof sample_txs_cached as Hs. unfold sample_txs in Hs. rewrite Forall_map in Hs. apply Forall_map.
  eapply Forall_impl; [exact Hs|]. intros m [Hm _]. by apply hashed_tx_cached.
Qed.

Lemma sample_txs_NoDup : List.NoDup (map (fun tx => TxHash (msgTx tx)) sample_txs).
Proof. vm_compute. repeat (apply List.NoDup_cons; [simpl; intuition discriminate|]). apply List.NoDup_nil. Qed.

Lemma sample_txs_collision_free :
  collision_free (branches (length sample_txs) (map (fun tx => TxHash (msgTx tx)) sample_txs)
    ++ branches (length hashed_txs) (map (fun tx => TxHash (msgTx tx)) hashed_txs)).
Proof. apply collision_freeb_sound. vm_compute. reflexivity. Qed.

Lemma hashed_txs_root :
  CalcMerkleRoot (E := WireError) hashed_txs false = CalcMerkleRoot (E := WireError) sample_txs false.
Proof. vm_compute. reflexivity. Qed.

Lemma merkle_root_binds_witness :
  map (fun tx => TxHash (msgTx tx)) sample_txs = map (fun tx => TxHash (msgTx tx)) hashed_txs.
Proof.
  destruct (CalcMerkleRoot_root (DL := text_decimal_laws) (E := WireError) sample_txs false sample_txs_cached)
    as (root & Hroot & _); [discriminate|reflexivity|].
  exact (merkle_root_binds (DL := text_decimal_laws) (E := WireError) sample_txs hashed_txs root
    sample_txs_cached hashed_txs_cached ltac:(discriminate) ltac:(discriminate) eq_refl eq_refl
    sample_txs_NoDup sample_txs_NoDup eq_refl sample_txs_collision_free Hroot (eq_trans hashed_txs_root Hroot)).
Defined.
