(* ===== verification/Utxo.v ===== *)
(** * Views of the unspent outputs ([blockchain/utxoviewpoint.go])

    A view maps outpoints to entries; a present but nil entry records that the
    chain has no such output.  The operations are those of the code: adding the
    outputs of a transaction, spending its inputs into the spend journal, and
    undoing a block from the journal.  A transaction's hash is [TxHash] of its
    message, which the wrappers return. *)

From Stdlib Require Import ZArith Lia.
From stdpp Require Import base list numbers option strings gmap.
From S2P Require Import Prelude ScriptNum Tokenizer ScriptBuilder ScriptStd Sha Wire SigHash Block.

#[global] Instance OutPoint_eq_dec : EqDecision OutPoint.
Proof. solve_decision. Defined.

#[global] Program Instance OutPoint_countable : Countable OutPoint :=
  inj_countable' (fun o => (Hash o, Index o)) (fun p => mkOutPoint p.1 p.2) _.
Next Obligation. by intros []. Qed.

#[global] Instance AssetName_eq_dec : EqDecision AssetName.
Proof. solve_decision. Defined.

#[global] Program Instance AssetName_countable : Countable AssetName :=
  inj_countable' (fun n => (Protocol n, Type_ n, Ticker n)) (fun p => mkAssetName p.1.1 p.1.2 p.2) _.
Next Obligation. by intros []. Qed.

(** ** Errors *)

(** The codes of [blockchain/error.go] that the modelled rules use. *)
Inductive RuleErrorCode : Type :=
| ErrBlockTooBig | ErrInvalidTime | ErrTimeTooNew | ErrBadMerkleRoot | ErrNoTransactions
| ErrNoTxInputs | ErrNoTxOutputs | ErrTxTooBig | ErrBadTxOutValue | ErrDuplicateTxInputs | ErrBadTxInput
| ErrMissingTxOut | ErrDuplicateTx | ErrOverwriteTx | ErrImmatureSpend | ErrSpendTooHigh | ErrBadFees
| ErrTooManySigOps | ErrFirstTxNotCoinbase | ErrMultipleCoinbases | ErrBadCoinbaseScriptLen
| ErrBadCoinbaseValue | ErrMissingCoinbaseHeight | ErrBadCoinbaseHeight | ErrUnexpectedWitness
| ErrInvalidWitnessCommitment | ErrWitnessCommitmentMismatch | ErrAnchorTXVerifyFailed
| ErrOrdinalsNotAllowed.

Inductive ChainError : Type :=
| RuleError (c : RuleErrorCode)
| AssertError
| OtherChainError.

Section Utxo.
Context `{D : DecimalOps}.

(** ** Kinds of transactions ([blockchain/validate.go]) *)

Definition IsCoinBaseTx (tx : MsgTx) : bool :=
  match TxIns tx with
  | [ti] => (Index (PreviousOutPoint ti) =? MaxPrevOutIndex) && bytes_eqb (Hash (PreviousOutPoint ti)) zeroHash
  | _ => false
  end.

Definition IsAnchorTx (tx : MsgTx) : bool :=
  match TxIns tx with
  | [ti] => (Index (PreviousOutPoint ti) =? AnchorTxOutIndex) && bytes_eqb (Hash (PreviousOutPoint ti)) zeroHash
  | _ => false
  end.

Definition transactionConsumesSpendJournal (tx : MsgTx) (isCoinbase : bool) : bool :=
  negb isCoinbase && negb (IsAnchorTx tx).

(** [txscript.IsUnspendable] returns a plain boolean. *)
Definition unspendable (pkScript : bytes) : bool :=
  match IsUnspendable pkScript with
  | Ok b => b
  | _ => true
  end.

(** ** Entries *)

Definition tfCoinBase : Z := 1.
Definition tfSpent : Z := 2.
Definition tfModified : Z := 4.
Definition tfFresh : Z := 8.

Record UtxoEntry : Type := mkUtxoEntry {
  amount : Z;
  txAssets : list AssetInfo;
  pkScript : bytes;
  entryHeight : Z;
  packedFlags : Z;
}.

Definition has_flag (f : Z) (e : UtxoEntry) : bool := Z.land (packedFlags e) f =? f.

Definition isModified (e : UtxoEntry) : bool := has_flag tfModified e.
Definition isFresh (e : UtxoEntry) : bool := has_flag tfFresh e.
Definition IsCoinBase (e : UtxoEntry) : bool := has_flag tfCoinBase e.
Definition IsSpent (e : UtxoEntry) : bool := has_flag tfSpent e.

Definition set_flags (e : UtxoEntry) (f : Z) : UtxoEntry :=
  mkUtxoEntry (amount e) (txAssets e) (pkScript e) (entryHeight e) f.

Definition Spend (e : UtxoEntry) : UtxoEntry :=
  if IsSpent e then e else set_flags e (Z.lor (packedFlags e) (Z.lor tfSpent tfModified)).

Definition NewUtxoEntry (txOut : TxOut) (blockHeight : Z) (isCoinbase : bool) : UtxoEntry :=
  mkUtxoEntry (Value txOut) (Assets txOut) (PkScript txOut) blockHeight (if isCoinbase then tfCoinBase else 0).

(** [SpentTxOut] of [blockchain/chainio.go]. *)
Record SpentTxOut : Type := mkSpentTxOut {
  st_Amount : Z;
  st_Assets : list AssetInfo;
  st_PkScript : bytes;
  st_Height : Z;
  st_IsCoinBase : bool;
}.

(** ** Views *)

Record UtxoViewpoint : Type := mkView {
  entries : gmap OutPoint (option UtxoEntry);
  bestHash : bytes;
}.

Definition NewUtxoViewpoint : UtxoViewpoint := mkView ∅ zeroHash.

Definition SetBestHash (view : UtxoViewpoint) (h : bytes) : UtxoViewpoint := mkView (entries view) h.

Definition set_entry (view : UtxoViewpoint) (o : OutPoint) (e : option UtxoEntry) : UtxoViewpoint :=
  mkView (<[o := e]> (entries view)) (bestHash view).

Definition LookupEntry (view : UtxoViewpoint) (o : OutPoint) : option UtxoEntry := mjoin (entries view !! o).

Definition FetchPrevOutput (view : UtxoViewpoint) (o : OutPoint) : option TxOut :=
  e ← LookupEntry view o; Some (mkTxOut (amount e) (txAssets e) (pkScript e)).

Definition addTxOut (view : UtxoViewpoint) (outpoint : OutPoint) (txOut : TxOut) (isCoinBase : bool)
    (blockHeight : Z) : UtxoViewpoint :=
  if unspendable (PkScript txOut) then view
  else
    let flags := Z.lor tfFresh tfModified in
    set_entry view outpoint
      (Some (mkUtxoEntry (Value txOut) (Assets txOut) (PkScript txOut) blockHeight
               (if isCoinBase then Z.lor flags tfCoinBase else flags))).

(** The loop over the outputs, from index [i]. *)
Fixpoint addTxOuts_from (view : UtxoViewpoint) (hash : bytes) (i : Z) (outs : list TxOut)
    (isCoinBase : bool) (blockHeight : Z) : UtxoViewpoint :=
  match outs with
  | [] => view
  | txOut :: outs =>
      addTxOuts_from (addTxOut view (mkOutPoint hash (uint32 i)) txOut isCoinBase blockHeight)
        hash (i + 1) outs isCoinBase blockHeight
  end.

Definition AddTxOuts (view : UtxoViewpoint) (tx : MsgTx) (blockHeight : Z) : UtxoViewpoint :=
  addTxOuts_from view (TxHash tx) 0 (TxOuts tx) (IsCoinBaseTx tx) blockHeight.

Definition AddTxOut (view : UtxoViewpoint) (tx : MsgTx) (txOutIdx : Z) (blockHeight : Z) : UtxoViewpoint :=
  match TxOuts tx !! Z.to_nat txOutIdx with
  | None => view
  | Some txOut => addTxOut view (mkOutPoint (TxHash tx) txOutIdx) txOut (IsCoinBaseTx tx) blockHeight
  end.

Definition spent_txout (e : UtxoEntry) : SpentTxOut :=
  mkSpentTxOut (amount e) (txAssets e) (pkScript e) (entryHeight e) (IsCoinBase e).

(** The loop over the inputs of [connectTransaction]; [stxos] is [None] when no
    journal is asked for. *)
Fixpoint spend_inputs (view : UtxoViewpoint) (ins : list TxIn) (stxos : option (list SpentTxOut))
    : result ChainError (UtxoViewpoint * option (list SpentTxOut)) :=
  match ins with
  | [] => Ok (view, stxos)
  | ti :: ins =>
      match LookupEntry view (PreviousOutPoint ti) with
      | None => Err AssertError
      | Some entry =>
          let stxos := option_map (fun l => l ++ [spent_txout entry]) stxos in
          spend_inputs (set_entry view (PreviousOutPoint ti) (Some (Spend entry))) ins stxos
      end
  end.

Definition connectTransaction (view : UtxoViewpoint) (tx : MsgTx) (blockHeight : Z)
    (stxos : option (list SpentTxOut)) : result ChainError (UtxoViewpoint * option (list SpentTxOut)) :=
  if negb (transactionConsumesSpendJournal tx (IsCoinBaseTx tx)) then Ok (AddTxOuts view tx blockHeight, stxos)
  else
    let! '(view, stxos) := spend_inputs view (TxIns tx) stxos in
    Ok (AddTxOuts view tx blockHeight, stxos).

Fixpoint connect_all (view : UtxoViewpoint) (txs : list MsgTx) (blockHeight : Z)
    (stxos : option (list SpentTxOut)) : result ChainError (UtxoViewpoint * option (list SpentTxOut)) :=
  match txs with
  | [] => Ok (view, stxos)
  | tx :: txs =>
      let! '(view, stxos) := connectTransaction view tx blockHeight stxos in
      connect_all view txs blockHeight stxos
  end.

Definition connectTransactions (view : UtxoViewpoint) (block : MsgBlock) (blockHeight : Z)
    (stxos : option (list SpentTxOut)) : result ChainError (UtxoViewpoint * option (list SpentTxOut)) :=
  let! '(view, stxos) := connect_all view (Transactions block) blockHeight stxos in
  Ok (SetBestHash view (MsgBlock_BlockHash block), stxos).

(** *** Undoing a block *)

Definition MaxBlockWeight : Z := 4000000.
Definition WitnessScaleFactor : Z := 4.
Definition MinTxOutputWeight : Z := WitnessScaleFactor * MinTxOutPayload.
Definition MaxOutputsPerBlock : Z := MaxBlockWeight / MinTxOutputWeight.

(** [countSpentOutputs] of [blockchain/chain.go]. *)
Definition countSpentOutputs (txs : list MsgTx) : Z :=
  sum_of id (imap (fun i tx =>
    if transactionConsumesSpendJournal tx (Z.of_nat i =? 0) then len (TxIns tx) else 0) txs).

(** The first output of [hash] in the view, from index [idx] on. *)
Fixpoint find_entry (fuel : nat) (view : UtxoViewpoint) (hash : bytes) (idx : Z) : option UtxoEntry :=
  match fuel with
  | O => None
  | S fuel =>
      match LookupEntry view (mkOutPoint hash idx) with
      | Some e => Some e
      | None => find_entry fuel view hash (idx + 1)
      end
  end.

(** The database lookup behind [fetchEntryByHash]. *)
Context (dbFetchUtxoEntryByHash : bytes -> result ChainError (option UtxoEntry)).

Definition fetchEntryByHash (view : UtxoViewpoint) (hash : bytes) : result ChainError (option UtxoEntry) :=
  match find_entry (Z.to_nat MaxOutputsPerBlock) view hash 0 with
  | Some e => Ok (Some e)
  | None => dbFetchUtxoEntryByHash hash
  end.

(** Marking the outputs of a transaction spent. *)
Fixpoint undo_outputs (view : UtxoViewpoint) (hash : bytes) (i : Z) (outs : list TxOut)
    (isCoinBase : bool) (blockHeight : Z) : UtxoViewpoint :=
  match outs with
  | [] => view
  | txOut :: outs =>
      let view :=
        if unspendable (PkScript txOut) then view
        else
          let o := mkOutPoint hash (uint32 i) in
          let entry := match LookupEntry view o with
                       | Some e => e
                       | None => mkUtxoEntry (Value txOut) (Assets txOut) (PkScript txOut) blockHeight
                                   (if isCoinBase then tfCoinBase else 0)
                       end in
          set_entry view o (Some (Spend entry)) in
      undo_outputs view hash (i + 1) outs isCoinBase blockHeight
  end.

(** Restoring the inputs of a transaction, last input first.  [rev] holds the
    inputs and [stxos] the journal in reverse order; [txHash] is the hash of the
    spending transaction. *)
Fixpoint undo_inputs (view : UtxoViewpoint) (txHash : bytes) (rev_ins : list TxIn) (rev_stxos : list SpentTxOut)
    : result ChainError (UtxoViewpoint * list SpentTxOut) :=
  match rev_ins with
  | [] => Ok (view, rev_stxos)
  | ti :: rev_ins =>
      match rev_stxos with
      | [] => Panic
      | stxo :: rev_stxos =>
          let originOut := PreviousOutPoint ti in
          let view0 := match LookupEntry view originOut with
                       | Some _ => view
                       | None => set_entry view originOut (Some (mkUtxoEntry 0 [] [] 0 0))
                       end in
          let! stxo :=
            (if st_Height stxo =? 0 then
               let! utxo := fetchEntryByHash view0 txHash in
               match utxo with
               | None => Err AssertError
               | Some u => Ok (mkSpentTxOut (st_Amount stxo) (st_Assets stxo) (st_PkScript stxo)
                                 (entryHeight u) (IsCoinBase u))
               end
             else Ok stxo) in
          let entry := mkUtxoEntry (st_Amount stxo) (st_Assets stxo) (st_PkScript stxo) (st_Height stxo)
                         (if st_IsCoinBase stxo then Z.lor tfModified tfCoinBase else tfModified) in
          undo_inputs (set_entry view0 originOut (Some entry)) txHash rev_ins rev_stxos
      end
  end.

(** The loop over the transactions, last one first; the list holds each with its
    index. *)
Fixpoint undo_txs (view : UtxoViewpoint) (rev_txs : list (nat * MsgTx)) (blockHeight : Z)
    (rev_stxos : list SpentTxOut) : result ChainError (UtxoViewpoint * list SpentTxOut) :=
  match rev_txs with
  | [] => Ok (view, rev_stxos)
  | (txIdx, tx) :: rev_txs =>
      let isCoinBase := Z.of_nat txIdx =? 0 in
      let view := undo_outputs view (TxHash tx) 0 (TxOuts tx) isCoinBase blockHeight in
      let! '(view, rev_stxos) :=
        (if transactionConsumesSpendJournal tx isCoinBase
         then undo_inputs view (TxHash tx) (reverse (TxIns tx)) rev_stxos
         else Ok (view, rev_stxos)) in
      undo_txs view rev_txs blockHeight rev_stxos
  end.

Definition indexed {A : Type} (l : list A) : list (nat * A) := imap pair l.

Definition disconnectTransactions (view : UtxoViewpoint) (block : MsgBlock) (blockHeight : Z)
    (stxos : list SpentTxOut) : result ChainError UtxoViewpoint :=
  if negb (len stxos =? countSpentOutputs (Transactions block)) then Err AssertError
  else
    let! '(view, _) := undo_txs view (reverse (indexed (Transactions block))) blockHeight (reverse stxos) in
    Ok (SetBestHash view (PrevBlock (Header block))).

Definition RemoveEntry (view : UtxoViewpoint) (o : OutPoint) : UtxoViewpoint :=
  mkView (delete o (entries view)) (bestHash view).

(** [commit]: the flag is toggled by an exclusive or. *)
Definition commit_entry (e : option UtxoEntry) : option (option UtxoEntry) :=
  match e with
  | None => None
  | Some e => if isModified e && IsSpent e then None
              else Some (Some (set_flags e (Z.lxor (packedFlags e) tfModified)))
  end.

Definition commit (view : UtxoViewpoint) : UtxoViewpoint :=
  mkView (omap commit_entry (entries view)) (bestHash view).

End Utxo.

Section UtxoProofs.
Context `{D : DecimalOps}.

(** ** The unspent outputs of a view *)

Definition coin_of (e : option UtxoEntry) : option SpentTxOut :=
  e ← e; if IsSpent e then None else Some (spent_txout e).

(** Entries over a set of coins: a nil or spent entry hides the coin. *)
Definition overlay (es : gmap OutPoint (option UtxoEntry)) (U : gmap OutPoint SpentTxOut) : gmap OutPoint SpentTxOut :=
  merge (fun e c => match e with Some e => coin_of e | None => c end) es U.

Lemma lookup_overlay es U o :
  overlay es U !! o = match es !! o with Some e => coin_of e | None => U !! o end.
Proof. unfold overlay. rewrite lookup_merge. by destruct (es !! o), (U !! o). Qed.

(** The coins of a view over the coins [B] of the chain, and of the view alone. *)
Definition over (B : gmap OutPoint SpentTxOut) (view : UtxoViewpoint) : gmap OutPoint SpentTxOut :=
  overlay (entries view) B.

Definition utxos (view : UtxoViewpoint) : gmap OutPoint SpentTxOut := omap coin_of (entries view).

Lemma utxos_over view : utxos view = over ∅ view.
Proof.
  apply map_eq. intros o. unfold utxos, over. rewrite lookup_overlay, lookup_omap.
  by destruct (entries view !! o) as [[e|]|].
Qed.

Lemma utxos_lookup view o : utxos view !! o = coin_of (LookupEntry view o).
Proof. unfold utxos, LookupEntry. rewrite lookup_omap. by destruct (entries view !! o) as [[e|]|]. Qed.

Lemma over_set B view o e : over B (set_entry view o e) = partial_alter (fun _ => coin_of e) o (over B view).
Proof.
  apply map_eq. intros o'. unfold over, set_entry. cbn [entries]. rewrite lookup_overlay.
  destruct (decide (o = o')) as [->|Hne].
  - by rewrite lookup_partial_alter_eq, lookup_insert_eq.
  - by rewrite lookup_partial_alter_ne, lookup_overlay, lookup_insert_ne by done.
Qed.

Lemma flag_lor f g : Z.land (Z.lor f g) g = g.
Proof. apply Z.bits_inj'. intros n Hn. rewrite Z.land_spec, Z.lor_spec. by destruct (Z.testbit f n), (Z.testbit g n). Qed.

Lemma flag_lor_keep f g h : Z.land h g = 0 -> Z.land (Z.lor f h) g = Z.land f g.
Proof. intros Hh. by rewrite Z.land_lor_distr_l, Hh, Z.lor_0_r. Qed.

Lemma IsSpent_Spend e : IsSpent (Spend e) = true.
Proof.
  unfold Spend. destruct (IsSpent e) eqn:Hs; [done|]. unfold IsSpent, has_flag, set_flags. cbn [packedFlags].
  apply Z.eqb_eq. replace (Z.lor (packedFlags e) (Z.lor tfSpent tfModified))
    with (Z.lor (Z.lor (packedFlags e) tfModified) tfSpent) by (by rewrite <- Z.lor_assoc, (Z.lor_comm tfModified)).
  apply flag_lor.
Qed.

Lemma over_spend B view o e : over B (set_entry view o (Some (Spend e))) = delete o (over B view).
Proof. rewrite over_set. cbn [coin_of mbind option_bind]. by rewrite IsSpent_Spend. Qed.

Lemma over_unspent B view o e :
  IsSpent e = false -> over B (set_entry view o (Some e)) = <[o := spent_txout e]> (over B view).
Proof. intros He. rewrite over_set. cbn [coin_of mbind option_bind]. by rewrite He. Qed.

(** The coin of an output. *)
Definition new_coin (txOut : TxOut) (isCoinBase : bool) (blockHeight : Z) : SpentTxOut :=
  mkSpentTxOut (Value txOut) (Assets txOut) (PkScript txOut) blockHeight isCoinBase.

Lemma over_addTxOut B view o out cb h :
  over B (addTxOut view o out cb h)
  = if unspendable (PkScript out) then over B view else <[o := new_coin out cb h]> (over B view).
Proof.
  unfold addTxOut. destruct (unspendable _); [done|]. rewrite over_unspent; [|by destruct cb].
  f_equal. unfold spent_txout, new_coin, IsCoinBase, has_flag. by destruct cb.
Qed.

Fixpoint add_coins (U : gmap OutPoint SpentTxOut) (hash : bytes) (i : Z) (outs : list TxOut) (cb : bool) (h : Z)
    : gmap OutPoint SpentTxOut :=
  match outs with
  | [] => U
  | out :: outs =>
      add_coins (if unspendable (PkScript out) then U else <[mkOutPoint hash (uint32 i) := new_coin out cb h]> U)
        hash (i + 1) outs cb h
  end.

Lemma over_addTxOuts B view hash i outs cb h :
  over B (addTxOuts_from view hash i outs cb h) = add_coins (over B view) hash i outs cb h.
Proof.
  revert view i. induction outs as [|out outs IH]; intros view i; [done|]. simpl.
  by rewrite IH, over_addTxOut.
Qed.

Definition spend_coins (U : gmap OutPoint SpentTxOut) (ins : list TxIn) : gmap OutPoint SpentTxOut :=
  foldl (fun U ti => delete (PreviousOutPoint ti) U) U ins.

(** The coins of the inputs, all of them unspent and different. *)
Fixpoint input_coins (U : gmap OutPoint SpentTxOut) (ins : list TxIn) : option (list SpentTxOut) :=
  match ins with
  | [] => Some []
  | ti :: ins =>
      c ← U !! PreviousOutPoint ti;
      cs ← input_coins (delete (PreviousOutPoint ti) U) ins;
      Some (c :: cs)
  end.

Lemma utxos_spend_inputs view ins J cs :
  input_coins (utxos view) ins = Some cs ->
  exists view', spend_inputs view ins J = Ok (view', option_map (fun l => l ++ cs) J)
    /\ utxos view' = spend_coins (utxos view) ins.
Proof.
  revert view J cs. induction ins as [|ti ins IH]; intros view J cs Hcs; cbn [spend_inputs input_coins] in *.
  { simplify_eq. exists view. destruct J; cbn [option_map]; by rewrite ?app_nil_r. }
  apply bind_Some in Hcs as (c & Hc & Hcs). apply bind_Some in Hcs as (cs' & Hcs' & ?). simplify_eq.
  rewrite utxos_lookup in Hc. destruct (LookupEntry view (PreviousOutPoint ti)) as [e|]; [|done].
  cbn [coin_of mbind option_bind] in Hc. destruct (IsSpent e) eqn:He; [done|]. injection Hc as <-.
  assert (Hsp : utxos (set_entry view (PreviousOutPoint ti) (Some (Spend e))) = delete (PreviousOutPoint ti) (utxos view))
    by (rewrite !utxos_over; apply over_spend).
  rewrite <- Hsp in Hcs'. destruct (IH _ (option_map (fun l => l ++ [spent_txout e]) J) _ Hcs') as (view' & Hs & Hu).
  rewrite Hs. exists view'. split; [|by rewrite Hu, Hsp].
  destruct J; cbn [option_map]; [by rewrite <- app_assoc|done].
Qed.

(** ** Undoing *)

Fixpoint del_coins (U : gmap OutPoint SpentTxOut) (hash : bytes) (i : Z) (outs : list TxOut)
    : gmap OutPoint SpentTxOut :=
  match outs with
  | [] => U
  | out :: outs =>
      del_coins (if unspendable (PkScript out) then U else delete (mkOutPoint hash (uint32 i)) U) hash (i + 1) outs
  end.

(** The entries of a view that are not marked modified say what [B] has. *)
Definition faithful (B : gmap OutPoint SpentTxOut) (view : UtxoViewpoint) : Prop :=
  forall o e, entries view !! o = Some e -> (forall e', e = Some e' -> isModified e' = false) -> coin_of e = B !! o.

Lemma faithful_set B view o e :
  faithful B view -> isModified e = true -> faithful B (set_entry view o (Some e)).
Proof.
  intros Hf Hm o' e' He' Hn. unfold set_entry in He'. cbn [entries] in He'.
  apply lookup_insert_Some in He' as [[<- <-]|[_ He']]; [|by apply Hf]. specialize (Hn e eq_refl). congruence.
Qed.

Lemma isModified_Spend e : isModified (Spend e) = isModified e || negb (IsSpent e).
Proof.
  unfold Spend. destruct (IsSpent e); [by rewrite orb_false_r|]. rewrite orb_true_r.
  unfold isModified, has_flag, set_flags. cbn [packedFlags]. rewrite Z.lor_assoc. apply Z.eqb_eq. apply flag_lor.
Qed.

Lemma faithful_spend B view o e :
  faithful B view -> LookupEntry view o = Some e \/ IsSpent e = false -> faithful B (set_entry view o (Some (Spend e))).
Proof.
  intros Hf He. destruct (IsSpent e) eqn:Hs.
  - destruct He as [He|He]; [|done]. unfold Spend. rewrite Hs. intros o' e'. unfold set_entry. cbn [entries].
    intros [[<- <-]|[_ He']]%lookup_insert_Some; [|by apply Hf]. apply Hf. unfold LookupEntry in He.
    destruct (entries view !! o) as [[e1|]|]; cbn in He; congruence.
  - apply faithful_set; [done|]. by rewrite isModified_Spend, Hs, orb_true_r.
Qed.

Lemma undo_outputs_spec B outs view hash i cb h :
  over B (undo_outputs view hash i outs cb h) = del_coins (over B view) hash i outs
  /\ (faithful B view -> faithful B (undo_outputs view hash i outs cb h)).
Proof.
  revert view i. induction outs as [|out outs IH]; intros view i; [done|]. cbn [undo_outputs del_coins].
  destruct (unspendable _); [apply IH|]. set (e := match LookupEntry view _ with Some e => e | None => _ end).
  destruct (IH (set_entry view (mkOutPoint hash (uint32 i)) (Some (Spend e))) (i + 1)) as [-> Hf].
  rewrite over_spend. split; [done|]. intros Hv. apply Hf, faithful_spend; [done|]. unfold e.
  destruct (LookupEntry view _); [by left|right]. by destruct cb.
Qed.

Definition restore_coins (U : gmap OutPoint SpentTxOut) (l : list (TxIn * SpentTxOut)) : gmap OutPoint SpentTxOut :=
  foldl (fun U p => <[PreviousOutPoint p.1 := p.2]> U) U l.

Lemma undo_inputs_spec db B view hash l R :
  Forall (fun p => st_Height p.2 <> 0) l ->
  exists view', undo_inputs db view hash (map fst l) (map snd l ++ R) = Ok (view', R)
    /\ over B view' = restore_coins (over B view) l /\ (faithful B view -> faithful B view').
Proof.
  revert view. induction l as [|[ti st] l IH]; intros view Hl; [by exists view|].
  apply Forall_cons_iff in Hl as [Hh Hl]. cbn [map fst snd app undo_inputs].
  destruct (Z.eqb_spec (st_Height st) 0) as [?|_]; [done|]. cbn [rbind]. set (o := PreviousOutPoint ti).
  set (view0 := match LookupEntry view o with Some _ => view
                | None => set_entry view o (Some (mkUtxoEntry 0 [] [] 0 0)) end).
  set (e := mkUtxoEntry _ _ _ _ _).
  destruct (IH (set_entry view0 o (Some e)) Hl) as (view' & -> & Hu & Hf). exists view'. split; [done|].
  assert (He : IsSpent e = false /\ isModified e = true /\ spent_txout e = st).
  { unfold IsSpent, isModified, spent_txout, IsCoinBase, has_flag, e. destruct st as [? ? ? ? []]; done. }
  destruct He as (He & Hm & Hst).
  assert (Hset : forall v : UtxoViewpoint, (exists e0, v = set_entry view o e0) \/ v = view ->
    set_entry v o (Some e) = set_entry view o (Some e)).
  { intros v [[e0 ->]| ->]; [|done]. unfold set_entry. cbn [entries bestHash]. by rewrite insert_insert_eq. }
  assert (Hv0 : set_entry view0 o (Some e) = set_entry view o (Some e)).
  { apply Hset. unfold view0. destruct (LookupEntry view o); [by right|left; by eexists]. }
  rewrite Hv0 in Hu, Hf. rewrite over_unspent, Hst in Hu by done. split; [exact Hu|].
  intros Hv. by apply Hf, faithful_set.
Qed.

(** ** Connecting and disconnecting a block *)

Definition outpoint_at (hash : bytes) (i : Z) : OutPoint := mkOutPoint hash (uint32 i).

Lemma outpoint_at_inj hash i j :
  0 <= i < 2 ^ 32 -> 0 <= j < 2 ^ 32 -> outpoint_at hash i = outpoint_at hash j -> i = j.
Proof. intros Hi Hj [= H]. by rewrite !uint32_id in H by done. Qed.

Lemma add_coins_delete U o hash i outs cb h :
  (forall j, 0 <= j < len outs -> o <> outpoint_at hash (i + j)) ->
  delete o (add_coins U hash i outs cb h) = add_coins (delete o U) hash i outs cb h.
Proof.
  revert U i. induction outs as [|out outs IH]; intros U i Ho; [done|]. cbn [add_coins]. pose proof (len_nonneg outs).
  rewrite len_cons in Ho. rewrite IH.
  - destruct (unspendable _); [done|]. rewrite delete_insert_ne; [done|].
    specialize (Ho 0). rewrite Z.add_0_r in Ho. apply Ho. lia.
  - intros j Hj. replace (i + 1 + j) with (i + (1 + j)) by lia. apply Ho. lia.
Qed.

Lemma del_add_coins U hash i outs cb h :
  0 <= i -> i + len outs <= 2 ^ 32 ->
  (forall j, 0 <= j < len outs -> U !! outpoint_at hash (i + j) = None) ->
  del_coins (add_coins U hash i outs cb h) hash i outs = U.
Proof.
  revert U i. induction outs as [|out outs IH]; intros U i Hi Hl Hf; [done|]. cbn [add_coins del_coins].
  rewrite len_cons in Hl, Hf. pose proof (len_nonneg outs).
  assert (Hf' : forall j, 0 <= j < len outs -> U !! outpoint_at hash (i + 1 + j) = None).
  { intros j Hj. replace (i + 1 + j) with (i + (1 + j)) by lia. apply Hf. lia. }
  destruct (unspendable _); [apply IH; (lia || done)|].
  fold (outpoint_at hash i). rewrite add_coins_delete.
  - rewrite delete_insert_id by (specialize (Hf 0); rewrite Z.add_0_r in Hf; apply Hf; lia). apply IH; (lia || done).
  - intros j Hj Heq. apply outpoint_at_inj in Heq; lia.
Qed.

Lemma restore_spend_coins U ins cs :
  input_coins U ins = Some cs -> restore_coins (spend_coins U ins) (reverse (zip ins cs)) = U.
Proof.
  revert U cs. induction ins as [|ti ins IH]; intros U cs Hcs; cbn [input_coins] in Hcs; simplify_eq; [done|].
  apply bind_Some in Hcs as (c & Hc & Hcs). apply bind_Some in Hcs as (cs' & Hcs' & ?). simplify_eq.
  cbn [zip zip_with]. rewrite reverse_cons. unfold restore_coins. rewrite foldl_app.
  change (spend_coins U (ti :: ins)) with (spend_coins (delete (PreviousOutPoint ti) U) ins).
  fold (restore_coins (spend_coins (delete (PreviousOutPoint ti) U) ins) (reverse (zip ins cs'))).
  rewrite IH by done. cbn [foldl fst snd]. by rewrite insert_delete_id.
Qed.

Lemma input_coins_length U ins cs : input_coins U ins = Some cs -> length cs = length ins.
Proof.
  revert U cs. induction ins as [|ti ins IH]; intros U cs Hcs; cbn [input_coins] in Hcs; simplify_eq; [done|].
  apply bind_Some in Hcs as (c & Hc & Hcs). apply bind_Some in Hcs as (cs' & Hcs' & ?). simplify_eq. simpl.
  f_equal. by eapply IH.
Qed.

(** The unspent outputs after a transaction. *)
Definition after_tx (U : gmap OutPoint SpentTxOut) (tx : MsgTx) (h : Z) : gmap OutPoint SpentTxOut :=
  add_coins (if transactionConsumesSpendJournal tx (IsCoinBaseTx tx) then spend_coins U (TxIns tx) else U)
    (TxHash tx) 0 (TxOuts tx) (IsCoinBaseTx tx) h.

(** A transaction that fits the unspent outputs [U]: its inputs are unspent and
    different, none of its outputs exists yet.  [first] tells whether it is the
    first of its block, the only coinbase. *)
Definition fits (first : bool) (U : gmap OutPoint SpentTxOut) (tx : MsgTx) : Prop :=
  IsCoinBaseTx tx = first /\ len (TxOuts tx) <= 2 ^ 32
  /\ (forall j, 0 <= j < len (TxOuts tx) -> U !! outpoint_at (TxHash tx) j = None)
  /\ (transactionConsumesSpendJournal tx first = true ->
      exists cs, input_coins U (TxIns tx) = Some cs /\ Forall (fun c => st_Height c <> 0) cs).

Fixpoint all_fit (first : bool) (U : gmap OutPoint SpentTxOut) (txs : list MsgTx) (h : Z) : Prop :=
  match txs with
  | [] => True
  | tx :: txs => fits first U tx /\ all_fit false (after_tx U tx h) txs h
  end.

Fixpoint after_txs (U : gmap OutPoint SpentTxOut) (txs : list MsgTx) (h : Z) : gmap OutPoint SpentTxOut :=
  match txs with
  | [] => U
  | tx :: txs => after_txs (after_tx U tx h) txs h
  end.

Lemma spend_coins_lookup U ins o : U !! o = None -> spend_coins U ins !! o = None.
Proof.
  revert U. induction ins as [|ti ins IH]; intros U Ho; [done|]. simpl. apply IH.
  rewrite lookup_delete. by case_decide.
Qed.

(** *** The journal *)

Definition spent_coins (U : gmap OutPoint SpentTxOut) (tx : MsgTx) : list SpentTxOut :=
  if transactionConsumesSpendJournal tx (IsCoinBaseTx tx) then default [] (input_coins U (TxIns tx)) else [].

(** Each transaction of a block with the coins it spends. *)
Fixpoint journal (U : gmap OutPoint SpentTxOut) (txs : list MsgTx) (h : Z) : list (MsgTx * list SpentTxOut) :=
  match txs with
  | [] => []
  | tx :: txs => (tx, spent_coins U tx) :: journal (after_tx U tx h) txs h
  end.

Definition block_journal (U : gmap OutPoint SpentTxOut) (txs : list MsgTx) (h : Z) : list SpentTxOut :=
  concat (map snd (journal U txs h)).

Lemma connectTransaction_coins view tx h J :
  (transactionConsumesSpendJournal tx (IsCoinBaseTx tx) = true -> exists cs, input_coins (utxos view) (TxIns tx) = Some cs) ->
  exists view', connectTransaction view tx h J = Ok (view', option_map (fun l => l ++ spent_coins (utxos view) tx) J)
    /\ utxos view' = after_tx (utxos view) tx h.
Proof.
  intros Hin. unfold connectTransaction, after_tx, spent_coins.
  destruct (transactionConsumesSpendJournal _ _); cbn [negb].
  - destruct (Hin eq_refl) as (cs & Hcs). rewrite Hcs.
    destruct (utxos_spend_inputs view (TxIns tx) J cs Hcs) as (view1 & -> & Hu). cbn [rbind].
    eexists. split; [done|]. unfold AddTxOuts. by rewrite utxos_over, over_addTxOuts, <- utxos_over, Hu.
  - eexists. split; [by destruct J; cbn [option_map]; rewrite ?app_nil_r|].
    unfold AddTxOuts. by rewrite utxos_over, over_addTxOuts, <- utxos_over.
Qed.

Lemma connectTransaction_spec first view tx h J :
  fits first (utxos view) tx ->
  exists view', connectTransaction view tx h (Some J) = Ok (view', Some (J ++ spent_coins (utxos view) tx))
    /\ utxos view' = after_tx (utxos view) tx h.
Proof.
  intros (Hcb & Hl & Hfresh & Hin). apply (connectTransaction_coins view tx h (Some J)). rewrite Hcb.
  intros Hc. destruct (Hin Hc) as (cs & Hcs & _). by exists cs.
Qed.

Lemma connect_all_spec txs first view h J :
  all_fit first (utxos view) txs h ->
  exists view', connect_all view txs h (Some J) = Ok (view', Some (J ++ block_journal (utxos view) txs h))
    /\ utxos view' = after_txs (utxos view) txs h.
Proof.
  revert first view J. induction txs as [|tx txs IH]; intros first view J Hfit.
  { exists view. by rewrite app_nil_r. }
  destruct Hfit as [Hf Hfit]. destruct (connectTransaction_spec first view tx h J Hf) as (view1 & Hc1 & Hu1).
  rewrite <- Hu1 in Hfit. cbn [connect_all]. rewrite Hc1. cbn [rbind].
  destruct (IH false view1 (J ++ spent_coins (utxos view) tx) Hfit) as (view2 & -> & Hu2).
  exists view2. unfold block_journal. cbn [journal map snd concat after_txs]. by rewrite <- app_assoc, Hu2, Hu1.
Qed.

(** *** Rewinding *)

(** Undoing one transaction and, last transaction first, a list of them. *)
Definition before_tx (U : gmap OutPoint SpentTxOut) (p : MsgTx * list SpentTxOut) : gmap OutPoint SpentTxOut :=
  restore_coins (del_coins U (TxHash p.1) 0 (TxOuts p.1)) (reverse (zip (TxIns p.1) p.2)).

Definition rewind (U : gmap OutPoint SpentTxOut) (l : list (MsgTx * list SpentTxOut)) : gmap OutPoint SpentTxOut :=
  foldl before_tx U l.

(** A journalled transaction: with all its coins, or with none. *)
Definition journalled (first : bool) (p : MsgTx * list SpentTxOut) : Prop :=
  if transactionConsumesSpendJournal p.1 first
  then length p.2 = length (TxIns p.1) /\ Forall (fun c => st_Height c <> 0) p.2
  else p.2 = [].

Lemma spent_coins_journalled first U tx : fits first U tx -> journalled first (tx, spent_coins U tx).
Proof.
  intros (Hcb & _ & _ & Hin). unfold journalled, spent_coins. cbn [fst snd]. rewrite Hcb.
  destruct (transactionConsumesSpendJournal tx first); [|done]. destruct (Hin eq_refl) as (cs & Hcs & Hh).
  rewrite Hcs. split; [by eapply input_coins_length|done].
Qed.

Lemma before_after_tx first U tx h : fits first U tx -> before_tx (after_tx U tx h) (tx, spent_coins U tx) = U.
Proof.
  intros (Hcb & Hl & Hfresh & Hin). unfold before_tx, after_tx, spent_coins. cbn [fst snd]. rewrite Hcb.
  destruct (transactionConsumesSpendJournal tx first).
  - destruct (Hin eq_refl) as (cs & Hcs & _). rewrite Hcs, del_add_coins; [by apply restore_spend_coins|lia|lia|].
    intros j Hj. apply spend_coins_lookup. by apply Hfresh.
  - rewrite del_add_coins; [|lia|lia|intros j Hj; by apply Hfresh]. by destruct (TxIns tx).
Qed.

Lemma rewind_after_txs txs first U h :
  all_fit first U txs h -> rewind (after_txs U txs h) (reverse (journal U txs h)) = U.
Proof.
  revert first U. induction txs as [|tx txs IH]; intros first U; [done|]. intros [Hf Hfit]. cbn [after_txs journal].
  rewrite reverse_cons. unfold rewind. rewrite foldl_app. cbn [foldl].
  fold (rewind (after_txs (after_tx U tx h) txs h) (reverse (journal (after_tx U tx h) txs h))).
  rewrite (IH false) by done. by eapply before_after_tx.
Qed.

Lemma zip_reverse {A B : Type} (l : list A) (k : list B) :
  length k = length l -> map fst (reverse (zip l k)) = reverse l /\ map snd (reverse (zip l k)) = reverse k.
Proof.
  intros H0. split; [change (fst <$> reverse (zip l k) = reverse l)|change (snd <$> reverse (zip l k) = reverse k)];
    rewrite fmap_reverse; f_equal; [apply fst_zip|apply snd_zip]; lia.
Qed.

Lemma undo_tx_spec db B first view p h R :
  journalled first p ->
  exists view', (let v := undo_outputs view (TxHash p.1) 0 (TxOuts p.1) first h in
                 if transactionConsumesSpendJournal p.1 first
                 then undo_inputs db v (TxHash p.1) (reverse (TxIns p.1)) (reverse p.2 ++ R)
                 else Ok (v, reverse p.2 ++ R)) = Ok (view', R)
    /\ over B view' = before_tx (over B view) p /\ (faithful B view -> faithful B view').
Proof.
  destruct p as [tx cs]. unfold journalled, before_tx. cbn [fst snd].
  destruct (undo_outputs_spec B (TxOuts tx) view (TxHash tx) 0 first h) as [Ho Hf].
  destruct (transactionConsumesSpendJournal tx first).
  - intros [Hlen Hh]. destruct (undo_inputs_spec db B (undo_outputs view (TxHash tx) 0 (TxOuts tx) first h) (TxHash tx)
      (reverse (zip (TxIns tx) cs)) R) as (view' & Hr & Hu & Hf').
    { apply Forall_reverse. apply Forall_forall. intros [ti c] Hin'. apply elem_of_zip_r in Hin'.
      rewrite Forall_forall in Hh. by apply Hh. }
    destruct (zip_reverse (TxIns tx) cs Hlen) as [Hz1 Hz2]. rewrite Hz1, Hz2 in Hr. exists view'.
    split; [exact Hr|]. rewrite Hu, Ho. split; [done|]. intros Hv. by apply Hf', Hf.
  - intros ->. eexists. split; [done|]. rewrite Ho. split; [by destruct (TxIns tx)|done].
Qed.

Lemma undo_txs_spec db B L view h R :
  Forall (fun q => journalled (Z.of_nat q.1 =? 0) q.2) L ->
  exists view', undo_txs db view (map (fun q => (q.1, q.2.1)) L) h (concat (map (fun q => reverse q.2.2) L) ++ R) = Ok (view', R)
    /\ over B view' = rewind (over B view) (map snd L) /\ (faithful B view -> faithful B view').
Proof.
  revert view. induction L as [|[i p] L IH]; intros view HL; [by exists view|].
  apply Forall_cons_iff in HL as [Hp HL]. cbn [map fst snd concat undo_txs]. rewrite <- app_assoc.
  destruct (undo_tx_spec db B _ view p h (concat (map (fun q => reverse q.2.2) L) ++ R) Hp) as (v1 & Hr1 & Hu1 & Hf1).
  cbn zeta in Hr1. cbn [fst snd] in Hr1. rewrite Hr1. cbn [rbind]. destruct (IH v1 HL) as (view' & -> & Hu & Hf). exists view'. split; [done|].
  rewrite Hu, Hu1. split; [done|]. intros Hv. by apply Hf, Hf1.
Qed.

Lemma journal_txs U txs h : map fst (journal U txs h) = txs.
Proof. revert U. induction txs as [|tx txs IH]; intros U; [done|]. cbn [journal map fst]. by rewrite IH. Qed.

Lemma journal_journalled txs U k h :
  all_fit (Z.of_nat k =? 0) U txs h ->
  Forall (fun q => journalled (Z.of_nat q.1 =? 0) q.2) (imap (fun i p => ((k + i)%nat, p)) (journal U txs h)).
Proof.
  revert U k. induction txs as [|tx txs IH]; intros U k; [constructor|]. intros [Hf Hfit]. cbn [journal imap].
  rewrite Nat.add_0_r. apply List.Forall_cons; [by apply spent_coins_journalled|].
  specialize (IH (after_tx U tx h) (S k) Hfit). erewrite imap_ext; [exact IH|].
  intros i p _. unfold compose. f_equal. lia.
Qed.

Lemma journal_count txs U k h :
  all_fit (Z.of_nat k =? 0) U txs h ->
  len (block_journal U txs h) = sum_of id (imap (fun i tx =>
    if transactionConsumesSpendJournal tx (Z.of_nat (k + i) =? 0) then len (TxIns tx) else 0) txs).
Proof.
  revert U k. induction txs as [|tx txs IH]; intros U k; [done|]. intros [Hf Hfit].
  unfold block_journal. cbn [journal map snd concat imap sum_of foldr]. rewrite len_app, Nat.add_0_r. unfold id at 1.
  f_equal.
  - pose proof (spent_coins_journalled _ _ _ Hf) as Hj. unfold journalled in Hj. cbn [fst snd] in Hj.
    destruct (transactionConsumesSpendJournal tx (Z.of_nat k =? 0)); [|by rewrite Hj]. unfold len. by rewrite (proj1 Hj).
  - fold (block_journal (after_tx U tx h) txs h). rewrite (IH _ (S k) Hfit). unfold sum_of. f_equal. apply imap_ext.
    intros i x _. unfold compose. replace (k + S i)%nat with (S k + i)%nat by lia. done.
Qed.

Lemma map_imap {A B C : Type} (f : B -> C) (g : nat -> A -> B) (l : list A) : map f (imap g l) = imap (fun i x => f (g i x)) l.
Proof. revert g. induction l as [|x l IH]; intros g; [done|]. cbn [imap map]. by rewrite IH. Qed.

Lemma concat_reverse {A : Type} (l : list (list A)) : reverse (concat l) = concat (map reverse (reverse l)).
Proof.
  induction l as [|x l IH]; [done|]. cbn [concat]. rewrite reverse_app, IH, reverse_cons.
  change (map reverse (reverse l ++ [x])) with (reverse <$> (reverse l ++ [x])). rewrite fmap_app, concat_app.
  f_equal. simpl. by rewrite app_nil_r.
Qed.

(** Disconnecting a block with the journal of its connection rewinds the coins. *)
Lemma disconnectTransactions_spec db B U view block h :
  all_fit true U (Transactions block) h ->
  exists view', disconnectTransactions db view block h (block_journal U (Transactions block) h) = Ok view'
    /\ over B view' = rewind (over B view) (reverse (journal U (Transactions block) h))
    /\ bestHash view' = PrevBlock (Header block) /\ (faithful B view -> faithful B view').
Proof.
  intros Hfit. set (J := journal U (Transactions block) h). pose proof (journal_count _ U 0 h Hfit) as Hcount.
  unfold disconnectTransactions, countSpentOutputs. change (fun i tx => if transactionConsumesSpendJournal tx
    (Z.of_nat (0 + i) =? 0) then len (TxIns tx) else 0) with (fun i tx => if transactionConsumesSpendJournal tx
    (Z.of_nat i =? 0) then len (TxIns tx) else 0) in Hcount. rewrite Hcount, Z.eqb_refl. cbn [negb].
  pose proof (journal_journalled _ U 0 h Hfit) as Hj. change (imap (fun i p => ((0 + i)%nat, p)) _) with (indexed J) in Hj.
  destruct (undo_txs_spec db B (reverse (indexed J)) view h [] (proj2 (Forall_reverse _ _) Hj)) as (view' & Hu & Ho & Hf).
  assert (H1 : map (fun q => (q.1, q.2.1)) (reverse (indexed J)) = reverse (indexed (Transactions block))).
  { change (map ?f ?l) with (f <$> l). rewrite fmap_reverse. f_equal. unfold indexed. rewrite <- (journal_txs U _ h).
    fold J. rewrite imap_fmap. change (?f <$> ?l) with (map f l). by rewrite map_imap. }
  assert (Hsnd : map snd (indexed J) = J).
  { unfold indexed. rewrite map_imap. clear. induction J as [|x J IH]; [done|]. cbn [imap]. f_equal. exact IH. }
  assert (H2 : concat (map (fun q => reverse q.2.2) (reverse (indexed J))) = reverse (block_journal U (Transactions block) h)).
  { unfold block_journal. fold J. rewrite concat_reverse. f_equal. rewrite <- Hsnd at 2.
    change (map ?f ?l) with (f <$> l). rewrite <- !fmap_reverse, <- !list_fmap_compose. done. }
  assert (H3 : map snd (reverse (indexed J)) = reverse J).
  { change (map ?f ?l) with (f <$> l). rewrite fmap_reverse. f_equal. exact Hsnd. }
  rewrite H1, H2, app_nil_r in Hu. rewrite H3 in Ho. rewrite Hu. cbn [rbind]. eexists. split; [done|].
  split; [exact Ho|]. split; [done|]. intros Hv. by apply Hf.
Qed.

(** C8: A reorganisation restores the unspent outputs: connecting a block whose
    transactions fit the view succeeds and records every spent output, and
    disconnecting it again with the recorded journal, in whatever state the other
    entries of the view are, gives back exactly the unspent outputs of before,
    with their amounts, assets, scripts, heights and coinbase marks. *)
Theorem reorg_restores (db : bytes -> result ChainError (option UtxoEntry)) (view : UtxoViewpoint)
    (block : MsgBlock) (h : Z) :
  all_fit true (utxos view) (Transactions block) h ->
  exists view' stxos, connectTransactions view block h (Some []) = Ok (view', Some stxos)
  /\ utxos view' = after_txs (utxos view) (Transactions block) h /\ bestHash view' = MsgBlock_BlockHash block
  /\ forall w, utxos w = utxos view' ->
      exists view'', disconnectTransactions db w block h stxos = Ok view''
        /\ utxos view'' = utxos view /\ bestHash view'' = PrevBlock (Header block).
Proof.
  intros Hfit. destruct (connect_all_spec (Transactions block) true view h [] Hfit) as (view' & Hc & Hu).
  unfold connectTransactions. rewrite Hc. cbn [rbind]. eexists _, _. split; [done|]. split; [exact Hu|].
  split; [done|]. intros w Hw.
  destruct (disconnectTransactions_spec db ∅ (utxos view) w block h Hfit) as (view'' & Hd & Ho & Hb & _).
  exists view''. cbn [app]. split; [exact Hd|]. split; [|done].
  rewrite utxos_over, Ho, <- utxos_over, Hw. unfold utxos, SetBestHash. cbn [entries]. fold (utxos view').
  rewrite Hu. by eapply rewind_after_txs.
Qed.

(** *** Executable form of [all_fit]

    The transactions come with their hashes, so that a proof computes each once. *)

Definition fitsb (first : bool) (U : gmap OutPoint SpentTxOut) (hash : bytes) (tx : MsgTx) : bool :=
  Bool.eqb (IsCoinBaseTx tx) first && (len (TxOuts tx) <=? 2 ^ 32)
  && forallb (fun j => negb (non_nil (U !! outpoint_at hash (Z.of_nat j)))) (seq 0 (length (TxOuts tx)))
  && (negb (transactionConsumesSpendJournal tx first)
      || match input_coins U (TxIns tx) with
         | Some cs => forallb (fun c => negb (st_Height c =? 0)) cs
         | None => false
         end).

Definition after_hashed (U : gmap OutPoint SpentTxOut) (hash : bytes) (tx : MsgTx) (h : Z) : gmap OutPoint SpentTxOut :=
  add_coins (if transactionConsumesSpendJournal tx (IsCoinBaseTx tx) then spend_coins U (TxIns tx) else U)
    hash 0 (TxOuts tx) (IsCoinBaseTx tx) h.

Fixpoint all_fitb (first : bool) (U : gmap OutPoint SpentTxOut) (txs : list (bytes * MsgTx)) (h : Z) : bool :=
  match txs with
  | [] => true
  | (hash, tx) :: txs => fitsb first U hash tx && all_fitb false (after_hashed U hash tx h) txs h
  end.

Lemma fitsb_sound first U tx : fitsb first U (TxHash tx) tx = true -> fits first U tx.
Proof.
  unfold fitsb, fits. intros H. apply andb_true_iff in H as [H H4]. apply andb_true_iff in H as [H H3].
  apply andb_true_iff in H as [H1 H2]. split; [by apply Bool.eqb_prop|]. split; [by apply Z.leb_le|]. split.
  - intros j Hj. rewrite forallb_forall in H3. specialize (H3 (Z.to_nat j)). rewrite Z2Nat.id in H3 by lia.
    destruct (U !! outpoint_at (TxHash tx) j); [|done]. discriminate H3. apply in_seq. unfold len in Hj. lia.
  - intros Hc. rewrite Hc in H4. simpl in H4. destruct (input_coins U (TxIns tx)) as [cs|]; [|done].
    exists cs. split; [done|]. apply Forall_forall. intros c Hin. rewrite forallb_forall in H4.
    specialize (H4 c). apply list_elem_of_In in Hin. specialize (H4 Hin). by bool_to_prop.
Qed.

Lemma all_fitb_sound first U hashes txs h :
  hashes = map TxHash txs -> all_fitb first U (zip hashes txs) h = true -> all_fit first U txs h.
Proof.
  intros ->. revert first U. induction txs as [|tx txs IH]; intros first U H; [done|]. cbn [map zip zip_with all_fitb] in H.
  apply andb_true_iff in H as [H1 H2]. split; [by apply fitsb_sound|]. by apply IH.
Qed.

End UtxoProofs.

(** ** A concrete block *)

Definition true_out (v : Z) : TxOut (D := text_decimal) := mkTxOut (D := text_decimal) v [] [OP_1].

Definition origin : OutPoint := mkOutPoint (replicate 32 7) 3.

Definition demo_coinbase : MsgTx (D := text_decimal) :=
  mkMsgTx (D := text_decimal) 1 [mkTxIn (mkOutPoint zeroHash MaxPrevOutIndex) [1; 2] [] MaxTxInSequenceNum] [true_out 5] 0.

Definition demo_spend : MsgTx (D := text_decimal) :=
  mkMsgTx (D := text_decimal) 1 [mkTxIn origin [] [] MaxTxInSequenceNum]
    [true_out 600; mkTxOut (D := text_decimal) 0 [] [OP_RETURN]] 0.

Definition demo_spend_hash : bytes := Eval vm_compute in TxHash demo_spend.

(** Spends the output of the transaction before it. *)
Definition demo_chained : MsgTx (D := text_decimal) :=
  mkMsgTx (D := text_decimal) 1 [mkTxIn (mkOutPoint demo_spend_hash 0) [] [] MaxTxInSequenceNum] [true_out 590] 0.

Definition demo_ledger_block : MsgBlock (D := text_decimal) :=
  mkMsgBlock (D := text_decimal) sample_header [demo_coinbase; demo_spend; demo_chained].

Definition demo_view : UtxoViewpoint (D := text_decimal) :=
  set_entry NewUtxoViewpoint origin (Some (NewUtxoEntry (true_out 605) 90 false)).

Definition demo_hashes : list bytes := Eval vm_compute in map TxHash (Transactions demo_ledger_block).

Lemma demo_hashes_ok : demo_hashes = map TxHash (Transactions demo_ledger_block).
Proof. vm_compute. reflexivity. Qed.

Lemma demo_fits : all_fit true (utxos demo_view) (Transactions demo_ledger_block) 100.
Proof. apply (all_fitb_sound _ _ demo_hashes); [exact demo_hashes_ok|]. vm_compute. reflexivity. Qed.

Lemma reorg_restores_witness :
  exists view' stxos, connectTransactions demo_view demo_ledger_block 100 (Some []) = Ok (view', Some stxos)
  /\ utxos view' = after_txs (utxos demo_view) (Transactions demo_ledger_block) 100
  /\ bestHash view' = MsgBlock_BlockHash demo_ledger_block
  /\ forall w, utxos w = utxos view' ->
      exists view'', disconnectTransactions (fun _ => Ok None) w demo_ledger_block 100 stxos = Ok view''
        /\ utxos view'' = utxos demo_view /\ bestHash view'' = PrevBlock (Header demo_ledger_block).
Proof. exact (reorg_restores (fun _ => Ok None) demo_view demo_ledger_block 100 demo_fits). Defined.

(** [commit] toggles the modified flag: an entry that was not modified comes out
    marked modified. *)
Example commit_marks_unmodified :
  (e ← LookupEntry (commit demo_view) origin; Some (isModified e)) = Some true
  /\ (e ← LookupEntry demo_view origin; Some (isModified e)) = Some false.
Proof. split; vm_compute; reflexivity. Qed.

(** A journal entry of height 0 gets the height of the spending transaction, not
    of the transaction whose output it restores. *)
Example legacy_height_of_spender :
  let view := AddTxOuts NewUtxoViewpoint demo_spend 100 in
  let journal := [mkSpentTxOut 605 [] [OP_1] 0 false] in
  match undo_inputs (fun _ => Ok None) view (TxHash demo_spend) (TxIns demo_spend) journal with
  | Ok (v, _) => e ← LookupEntry v origin; Some (entryHeight e)
  | _ => None
  end = Some 100.
Proof. vm_compute. reflexivity. Qed.
