(* ===== verification/AnchorStore.v ===== *)
(** * The store of anchored outputs ([blockchain/chainio.go], [anchorTxInfo] bucket)

    For every anchor transaction of the best chain the bucket holds, under the
    locked output of the other chain, the serialized [AnchorTxInfo].  Strings are
    their bytes. *)

From Stdlib Require Import ZArith Lia.
From stdpp Require Import base list numbers option strings gmap.
From S2P Require Import Prelude ScriptNum Tokenizer ScriptBuilder ScriptStd Sha Wire SigHash Block Utxo.

(** What [anchortx.GetLockedTxInfo] reads of an anchor transaction, as far as the
    chain uses it. *)
Record AnchorInfo : Type := mkAnchorInfo {
  ai_Utxo : bytes;
  ai_WitnessScript : bytes;
  ai_Value : Z;
}.

Record AnchorTxInfo : Type := mkAnchorTxInfo {
  LockedUtxo : bytes;
  AnchorTxid : bytes;
  WitnessScript : bytes;
  AnchorValue : Z;
}.

Definition serializeAnchorTxInfo (i : AnchorTxInfo) : bytes :=
  le_encode 4 (uint32 (len (LockedUtxo i))) ++ LockedUtxo i
  ++ le_encode 4 (uint32 (len (AnchorTxid i))) ++ AnchorTxid i
  ++ le_encode 4 (uint32 (len (WitnessScript i))) ++ WitnessScript i
  ++ le_encode 8 (uint64 (AnchorValue i)).

Definition serializedMinLen : Z := 4 + 66 + 4 + 64 + 4 + 8 + 26.

(** A length prefix at [pos] and the bytes it announces. *)
Definition read_field (data : bytes) (pos : Z) : result ChainError (bytes * Z) :=
  let! n := subslice data pos (pos + 4) in
  let pos := pos + 4 in
  let! s := subslice data pos (pos + le_decode n) in
  Ok (s, pos + le_decode n).

Definition deserializeAnchorTxInfo (data : bytes) : result ChainError AnchorTxInfo :=
  if len data <? serializedMinLen then Err OtherChainError
  else
    let! '(utxo, pos) := read_field data 0 in
    let! '(txid, pos) := read_field data pos in
    let! '(script, pos) := read_field data pos in
    let! amount := subslice data pos (pos + 8) in
    Ok (mkAnchorTxInfo utxo txid script (int64 (le_decode amount))).

Definition dbPutAnchorTxInfo (bucket : gmap bytes bytes) (i : AnchorTxInfo) : gmap bytes bytes :=
  <[LockedUtxo i := serializeAnchorTxInfo i]> bucket.

Definition dbDeleteAnchorTxInfo (bucket : gmap bytes bytes) (lockedUtxo anchorTxid : bytes)
    : result ChainError (gmap bytes bytes) :=
  match bucket !! lockedUtxo with
  | None => Ok bucket
  | Some value =>
      let! i := deserializeAnchorTxInfo value in
      if negb (bytes_eqb (AnchorTxid i) anchorTxid) then Ok bucket
      else Ok (delete lockedUtxo bucket)
  end.

Definition dbFetchAnchorTxInfo (bucket : gmap bytes bytes) (lockedUtxo : bytes) : result ChainError AnchorTxInfo :=
  match bucket !! lockedUtxo with
  | None => Err OtherChainError
  | Some value => deserializeAnchorTxInfo value
  end.

(** A hash is printed with its bytes reversed. *)
Definition TxID `{D : DecimalOps} (tx : MsgTx) : bytes := hex_encode (reverse (TxHash tx)).

(** The entry [addTxIns] records. *)
Definition anchor_entry `{D : DecimalOps} (tx : MsgTx) (i : AnchorInfo) : AnchorTxInfo :=
  mkAnchorTxInfo (ai_Utxo i) (TxID tx) (ai_WitnessScript i) (ai_Value i).

(** ** Round trip *)

Record wf_anchor (i : AnchorTxInfo) : Prop := {
  wfa_utxo : 66 <= len (LockedUtxo i) < 2 ^ 32;
  wfa_txid : 64 <= len (AnchorTxid i) < 2 ^ 32;
  wfa_script : 26 <= len (WitnessScript i) < 2 ^ 32;
  wfa_value : - 2 ^ 63 <= AnchorValue i < 2 ^ 63;
}.

Lemma read_field_app a s c pos :
  pos = len a -> len s < 2 ^ 32 ->
  read_field (a ++ le_encode 4 (uint32 (len s)) ++ s ++ c) pos = Ok (s, pos + 4 + len s).
Proof.
  intros -> Hs. unfold read_field. pose proof (len_nonneg s).
  assert (H4 : len (le_encode 4 (uint32 (len s))) = 4) by (unfold len at 1; by rewrite le_encode_length).
  rewrite subslice_at by (rewrite ?H4; done). cbn [rbind]. rewrite uint32_id by (unfold is_uint32; lia).
  rewrite le_decode_encode by (simpl; lia). rewrite uint32_id in H4 by (unfold is_uint32; lia).
  rewrite app_assoc, subslice_at; [done|rewrite len_app; lia|rewrite len_app; lia].
Qed.

Lemma anchor_roundtrip i : wf_anchor i -> deserializeAnchorTxInfo (serializeAnchorTxInfo i) = Ok i.
Proof.
  intros [Hu Ht Hs Hv]. unfold deserializeAnchorTxInfo.
  assert (Hlen : len (serializeAnchorTxInfo i) = 20 + len (LockedUtxo i) + len (AnchorTxid i) + len (WitnessScript i)).
  { unfold serializeAnchorTxInfo. rewrite !len_app. unfold len. rewrite !le_encode_length. lia. }
  destruct (Z.ltb_spec (len (serializeAnchorTxInfo i)) serializedMinLen) as [Hlt|_].
  { unfold serializedMinLen in Hlt. lia. }
  set (a1 := le_encode 4 (uint32 (len (LockedUtxo i))) ++ LockedUtxo i).
  set (a2 := le_encode 4 (uint32 (len (AnchorTxid i))) ++ AnchorTxid i).
  set (a3 := le_encode 4 (uint32 (len (WitnessScript i))) ++ WitnessScript i).
  assert (H1 : len a1 = 0 + 4 + len (LockedUtxo i)) by (unfold a1; rewrite len_app; unfold len; rewrite le_encode_length; lia).
  assert (H2 : len a2 = 4 + len (AnchorTxid i)) by (unfold a2; rewrite len_app; unfold len; rewrite le_encode_length; lia).
  assert (H3 : len a3 = 4 + len (WitnessScript i)) by (unfold a3; rewrite len_app; unfold len; rewrite le_encode_length; lia).
  set (v := le_encode 8 (uint64 (AnchorValue i))).
  replace (serializeAnchorTxInfo i) with ([] ++ le_encode 4 (uint32 (len (LockedUtxo i))) ++ LockedUtxo i ++ a2 ++ a3 ++ v) at 1
    by (unfold serializeAnchorTxInfo, a2, a3, v; by rewrite <- !app_assoc).
  rewrite read_field_app by (done || lia). cbn [rbind].
  replace (serializeAnchorTxInfo i) with (a1 ++ le_encode 4 (uint32 (len (AnchorTxid i))) ++ AnchorTxid i ++ a3 ++ v) at 1
    by (unfold serializeAnchorTxInfo, a1, a3, v; by rewrite <- !app_assoc).
  rewrite read_field_app by (done || lia). cbn [rbind].
  replace (serializeAnchorTxInfo i) with ((a1 ++ a2) ++ le_encode 4 (uint32 (len (WitnessScript i))) ++ WitnessScript i ++ v) at 1
    by (unfold serializeAnchorTxInfo, a1, a2, v; by rewrite <- !app_assoc).
  rewrite read_field_app by (rewrite ?len_app; lia). cbn [rbind].
  replace (serializeAnchorTxInfo i) with ((a1 ++ a2 ++ a3) ++ v ++ [])
    by (unfold serializeAnchorTxInfo, a1, a2, a3, v; by rewrite app_nil_r, <- !app_assoc).
  assert (Hv8 : len v = 8) by (unfold v, len; by rewrite le_encode_length).
  rewrite subslice_at by (rewrite !len_app; lia). cbn [rbind]. unfold v.
  rewrite le_decode_encode by (unfold uint64, wrap_u; apply Z.mod_pos_bound; lia).
  rewrite int64_uint64 by (unfold is_int64; lia). by destruct i.
Qed.
