(* ===== verification/UtxoCache.v ===== *)
(** * The cache of unspent outputs ([blockchain/utxocache.go], [blockchain/sizehelper.go])

    The cache keeps entries in a slice of maps in front of the database and is
    flushed by size, time or request.  The database's set of unspent outputs is a
    map of coins: what [dbPutUtxoEntry] stores of an entry and
    [dbFetchUtxoEntry] gives back.  Memory figures are those of a 64-bit system,
    as in the code. *)

From Stdlib Require Import ZArith Lia.
From stdpp Require Import base list numbers option strings gmap.
From S2P Require Import Prelude ScriptNum Tokenizer ScriptBuilder ScriptStd Sha Wire SigHash Block Utxo AnchorStore.

(** ** Sizes of maps *)

Definition outpointSize : Z := 36.
Definition uint64Size : Z := 8.
Definition bucketSize : Z := 16 + uint64Size * outpointSize + uint64Size * uint64Size.
Definition baseEntrySize : Z := 40.
Definition pubKeyHashLen : Z := 25.
Definition avgEntrySize : Z := baseEntrySize + (pubKeyHashLen + 7).
Definition MaxSmallSize : Z := 32768.
Definition smallSizeDiv : Z := 8.
Definition smallSizeMax : Z := 1024.
Definition largeSizeDiv : Z := 128.
Definition PageSize : Z := 2 ^ 13.
Definition bucketCnt : Z := 8.
Definition loadFactorNum : Z := 13.
Definition loadFactorDen : Z := 2.
Definition maxAlloc : Z := 2 ^ 40.

Definition class_to_size : list Z :=
    [0; 8; 16; 24; 32; 48; 64; 80; 96; 112; 128; 144; 160; 176; 192; 208; 224; 240; 256; 288; 320; 352; 384;
    416; 448; 480; 512; 576; 640; 704; 768; 896; 1024; 1152; 1280; 1408; 1536; 1792; 2048; 2304; 2688; 3072;
    3200; 3456; 4096; 4864; 5376; 6144; 6528; 6784; 6912; 8192; 9472; 9728; 10240; 10880; 12288; 13568;
    14336; 16384; 18432; 19072; 20480; 21760; 24576; 27264; 28672; 32768].
Definition size_to_class8 : list Z :=
    [0; 1; 2; 3; 4; 5; 5; 6; 6; 7; 7; 8; 8; 9; 9; 10; 10; 11; 11; 12; 12; 13; 13; 14; 14; 15; 15; 16; 16;
    17; 17; 18; 18; 19; 19; 19; 19; 20; 20; 20; 20; 21; 21; 21; 21; 22; 22; 22; 22; 23; 23; 23; 23; 24; 24;
    24; 24; 25; 25; 25; 25; 26; 26; 26; 26; 27; 27; 27; 27; 27; 27; 27; 27; 28; 28; 28; 28; 28; 28; 28; 28;
    29; 29; 29; 29; 29; 29; 29; 29; 30; 30; 30; 30; 30; 30; 30; 30; 31; 31; 31; 31; 31; 31; 31; 31; 31; 31;
    31; 31; 31; 31; 31; 31; 32; 32; 32; 32; 32; 32; 32; 32; 32; 32; 32; 32; 32; 32; 32; 32].
Definition size_to_class128 : list Z :=
    [32; 33; 34; 35; 36; 37; 37; 38; 38; 39; 39; 40; 40; 40; 41; 41; 41; 42; 43; 43; 44; 44; 44; 44; 44; 45;
    45; 45; 45; 45; 45; 46; 46; 46; 46; 47; 47; 47; 47; 47; 47; 48; 48; 48; 49; 49; 50; 51; 51; 51; 51; 51;
    51; 51; 51; 51; 51; 52; 52; 52; 52; 52; 52; 52; 52; 52; 52; 53; 53; 54; 54; 54; 54; 55; 55; 55; 55; 55;
    56; 56; 56; 56; 56; 56; 56; 56; 56; 56; 56; 57; 57; 57; 57; 57; 57; 57; 57; 57; 57; 58; 58; 58; 58; 58;
    58; 59; 59; 59; 59; 59; 59; 59; 59; 59; 59; 59; 59; 59; 59; 59; 59; 60; 60; 60; 60; 60; 60; 60; 60; 60;
    60; 60; 60; 60; 60; 60; 60; 61; 61; 61; 61; 61; 62; 62; 62; 62; 62; 62; 62; 62; 62; 62; 62; 63; 63; 63;
    63; 63; 63; 63; 63; 63; 63; 64; 64; 64; 64; 64; 64; 64; 64; 64; 64; 64; 64; 64; 64; 64; 64; 64; 64; 64;
    64; 64; 64; 65; 65; 65; 65; 65; 65; 65; 65; 65; 65; 65; 65; 65; 65; 65; 65; 65; 65; 65; 65; 65; 66; 66;
    66; 66; 66; 66; 66; 66; 66; 66; 66; 67; 67; 67; 67; 67; 67; 67; 67; 67; 67; 67; 67; 67; 67; 67; 67; 67;
    67; 67; 67; 67; 67; 67; 67; 67; 67; 67; 67; 67; 67; 67; 67].

Definition bucketShift (b : Z) : Z := uint64 (Z.shiftl 1 (Z.land b 63)).

Definition overLoadFactor (count B : Z) : bool :=
  (bucketCnt <? count) && (uint64 (loadFactorNum * (bucketShift B / loadFactorDen)) <? uint64 count).

Definition mulUintptr (a b : Z) : Z * bool :=
  if (Z.lor a b <? 2 ^ 32) || (a =? 0) then (uint64 (a * b), false)
  else (uint64 (a * b), (2 ^ 64 - 1) / a <? b).

Definition divRoundUp (n a : Z) : Z := uint64 (n + a - 1) / a.
Definition alignUp (n a : Z) : Z := Z.ldiff (uint64 (n + a - 1)) (a - 1).

Definition roundupsize {E : Type} (size : Z) : result E Z :=
  if size <? MaxSmallSize then
    let! class :=
      (if size <=? smallSizeMax - 8 then unwrap (size_to_class8 !! Z.to_nat (divRoundUp size smallSizeDiv))
       else unwrap (size_to_class128 !! Z.to_nat (divRoundUp (size - smallSizeMax) largeSizeDiv))) in
    unwrap (class_to_size !! Z.to_nat class)
  else if uint64 (size + PageSize) <? size then Ok size
  else Ok (alignUp size PageSize).

(** The loop [for overLoadFactor(hint, B) { B++ }]; the hint is below 2^32
    (see [load_loop_stops]). *)
Fixpoint load_loop (fuel : nat) (hint B : Z) : Z :=
  match fuel with
  | O => B
  | S fuel => if overLoadFactor hint B then load_loop fuel hint (B + 1) else B
  end.

Definition calculateRoughMapSize {E : Type} (hint bucketSize : Z) : result E Z :=
  let '(mem, overflow) := mulUintptr (uint64 hint) bucketSize in
  let hint := if overflow || (maxAlloc <? mem) then 0 else hint in
  let B := load_loop 64 hint 0 in
  let base := bucketShift B in
  let! numBuckets :=
    (if 4 <=? B then
       let n := uint64 (base + bucketShift (B - 4)) in
       let sz := uint64 (bucketSize * n) in
       let! up := roundupsize sz in
       Ok (if negb (up =? sz) then up / bucketSize else n)
     else Ok base) in
  let total := (mulUintptr bucketSize numBuckets).1 in
  let total := if negb (base =? numBuckets) then uint64 (total + 24) else total in
  Ok (int64 (uint64 (total + 48))).

(** [uint8(math.Log2(float64(x)))].  Below 2^40 the floating-point logarithm
    truncates to the integer one; for [x <= 0] it is NaN or an infinity, which
    converts to 0 on amd64. *)
Definition log2_uint8 (x : Z) : Z := if x <=? 0 then 0 else uint8 (Z.log2 x).

Definition calculateMinEntries (totalBytes bucketSize : Z) : Z :=
  let numBuckets := Z.quot (totalBytes - 48) bucketSize in
  let B := log2_uint8 numBuckets in
  if B <? 4 then
    if B =? 0 then 0 else if B =? 1 then 9 else if B =? 2 then 14 else 27
  else int64 (int64 (uint64 (loadFactorNum * (bucketShift (B - 1) / loadFactorDen))) + 1).

Section Cache.
Context `{D : DecimalOps}.

(** ** The slice of maps *)

Record mapSlice : Type := mkMapSlice {
  maps : list (gmap OutPoint (option UtxoEntry));
  maxEntries : list Z;
  ms_maxTotalMemoryUsage : Z;
}.

Definition ms_length (ms : mapSlice) : Z := sum_of (fun m => Z.of_nat (size m)) (maps ms).

Fixpoint ms_size_from {E : Type} (l : list Z) : result E Z :=
  match l with
  | [] => Ok 0
  | num :: l =>
      let! s := calculateRoughMapSize num bucketSize in
      let! rest := ms_size_from l in
      Ok (s + rest)
  end.

Definition ms_size {E : Type} (ms : mapSlice) : result E Z := ms_size_from (maxEntries ms).

(** [None]: not found; [Some None]: a nil entry. *)
Fixpoint get_in (l : list (gmap OutPoint (option UtxoEntry))) (op : OutPoint) : option (option UtxoEntry) :=
  match l with
  | [] => None
  | m :: l => match m !! op with Some e => Some e | None => get_in l op end
  end.

Definition ms_get (ms : mapSlice) (op : OutPoint) : option (option UtxoEntry) := get_in (maps ms) op.

(** The first loop of [put]: overwrite the key where it is. *)
Fixpoint overwrite (l : list (gmap OutPoint (option UtxoEntry))) (op : OutPoint) (e : option UtxoEntry)
    : option (list (gmap OutPoint (option UtxoEntry))) :=
  match l with
  | [] => None
  | m :: l =>
      match m !! op with
      | Some _ => Some (<[op := e]> m :: l)
      | None => option_map (cons m) (overwrite l op e)
      end
  end.

(** The second loop: the first map with room. *)
Fixpoint insert_room (l : list (gmap OutPoint (option UtxoEntry))) (max : list Z) (op : OutPoint)
    (e : option UtxoEntry) : option (list (gmap OutPoint (option UtxoEntry))) :=
  match l, max with
  | m :: l, maxNum :: max =>
      if maxNum <=? Z.of_nat (size m) then option_map (cons m) (insert_room l max op e)
      else Some (<[op := e]> m :: l)
  | _, _ => None
  end.

Definition makeNewMap {E : Type} (ms : mapSlice) (totalEntryMemory : Z) : result E Z :=
  let! used := ms_size_from (maxEntries ms) in
  let memSize := uint64 (ms_maxTotalMemoryUsage ms - totalEntryMemory - used) in
  Ok (calculateMinEntries (int64 memSize) (bucketSize + avgEntrySize) - 1).

Definition ms_put {E : Type} (ms : mapSlice) (op : OutPoint) (e : option UtxoEntry) (totalEntryMemory : Z)
    : result E mapSlice :=
  match overwrite (maps ms) op e with
  | Some l => Ok (mkMapSlice l (maxEntries ms) (ms_maxTotalMemoryUsage ms))
  | None =>
      match insert_room (maps ms) (maxEntries ms) op e with
      | Some l => Ok (mkMapSlice l (maxEntries ms) (ms_maxTotalMemoryUsage ms))
      | None =>
          let! numMaxElements := makeNewMap ms totalEntryMemory in
          Ok (mkMapSlice (maps ms ++ [{[op := e]}]) (maxEntries ms ++ [numMaxElements])
                (ms_maxTotalMemoryUsage ms))
      end
  end.

Definition ms_delete (ms : mapSlice) (op : OutPoint) : mapSlice :=
  mkMapSlice (map (delete op) (maps ms)) (maxEntries ms) (ms_maxTotalMemoryUsage ms).

Definition deleteMaps (ms : mapSlice) : mapSlice :=
  mkMapSlice (take 1 (maps ms)) (take 1 (maxEntries ms)) (ms_maxTotalMemoryUsage ms).

(** ** The cache *)

Inductive FlushMode : Type := FlushRequired | FlushPeriodic | FlushIfNeeded.

Record utxoCache : Type := mkUtxoCache {
  db : gmap OutPoint SpentTxOut;
  (* the block the database is consistent with, under [utxoStateConsistencyKeyName] *)
  utxoStateConsistency : option bytes;
  uc_maxTotalMemoryUsage : Z;
  cachedEntries : mapSlice;
  totalEntryMemory : Z;
  lastFlushHash : bytes;
  lastFlushTime : Z;
}.

Definition set_cached (s : utxoCache) (ms : mapSlice) (mem : Z) : utxoCache :=
  mkUtxoCache (db s) (utxoStateConsistency s) (uc_maxTotalMemoryUsage s) ms mem (lastFlushHash s) (lastFlushTime s).

Definition newUtxoCache (database : gmap OutPoint SpentTxOut) (status : option bytes) (maxTotalMemoryUsage : Z)
    : utxoCache :=
  let numMaxElements := calculateMinEntries (int64 maxTotalMemoryUsage) (bucketSize + avgEntrySize) - 1 in
  mkUtxoCache database status maxTotalMemoryUsage (mkMapSlice [∅] [numMaxElements] maxTotalMemoryUsage) 0 zeroHash 0.

Definition totalMemoryUsage {E : Type} (s : utxoCache) : result E Z :=
  let! size := ms_size (cachedEntries s) in
  Ok (uint64 (size + totalEntryMemory s)).

(** [memoryUsage]; the scripts of entries have no spare capacity. *)
Definition memoryUsage (e : option UtxoEntry) : Z :=
  match e with
  | None => 0
  | Some e => baseEntrySize + len (pkScript e)
  end.

(** The entry read back from the database: its only flag is the coinbase one. *)
Definition db_entry (c : SpentTxOut) : UtxoEntry :=
  mkUtxoEntry (st_Amount c) (st_Assets c) (st_PkScript c) (st_Height c) (if st_IsCoinBase c then tfCoinBase else 0).

(** The loops of [fetchEntries]: the cached entries, the misses read from the
    database, and the misses put into the cache. *)
Definition missing (ms : mapSlice) (ops : list OutPoint) : list OutPoint :=
  List.filter (fun op => negb (non_nil (ms_get ms op))) ops.

Fixpoint put_all {E : Type} (s : utxoCache) (ops : list OutPoint) : result E utxoCache :=
  match ops with
  | [] => Ok s
  | op :: ops =>
      let e := db_entry <$> (db s !! op) in
      let! ms := ms_put (cachedEntries s) op e (totalEntryMemory s) in
      put_all (set_cached s ms (uint64 (totalEntryMemory s + memoryUsage e))) ops
  end.

Definition fetchEntries {E : Type} (s : utxoCache) (ops : list OutPoint)
    : result E (list (option UtxoEntry) * utxoCache) :=
  let fetched := map (fun op => match ms_get (cachedEntries s) op with
                                | Some e => e
                                | None => db_entry <$> (db s !! op)
                                end) ops in
  let! s := put_all s (missing (cachedEntries s) ops) in
  Ok (fetched, s).

Definition cache_addTxOut {E : Type} (s : utxoCache) (outpoint : OutPoint) (txOut : TxOut) (isCoinBase : bool)
    (blockHeight : Z) : result E utxoCache :=
  if unspendable (PkScript txOut) then Ok s
  else
    let flags := Z.lor tfFresh tfModified in
    let entry := mkUtxoEntry (Value txOut) (Assets txOut) (PkScript txOut) blockHeight
                   (if isCoinBase then Z.lor flags tfCoinBase else flags) in
    let! ms := ms_put (cachedEntries s) outpoint (Some entry) (totalEntryMemory s) in
    Ok (set_cached s ms (uint64 (totalEntryMemory s + memoryUsage (Some entry)))).

Fixpoint cache_addTxOuts {E : Type} (s : utxoCache) (hash : bytes) (i : Z) (outs : list TxOut)
    (isCoinBase : bool) (blockHeight : Z) : result E utxoCache :=
  match outs with
  | [] => Ok s
  | txOut :: outs =>
      let! s := cache_addTxOut s (mkOutPoint hash (uint32 i)) txOut isCoinBase blockHeight in
      cache_addTxOuts s hash (i + 1) outs isCoinBase blockHeight
  end.

Definition addTxIn (s : utxoCache) (txIn : TxIn) (stxos : option (list SpentTxOut))
    : result ChainError (utxoCache * option (list SpentTxOut)) :=
  let op := PreviousOutPoint txIn in
  let! '(fetched, s) := fetchEntries s [op] in
  match fetched with
  | [Some entry] =>
      let stxos := option_map (fun l => l ++ [spent_txout entry]) stxos in
      let entryMemory := memoryUsage (Some entry) in
      let spent := Spend entry in
      (* the entry is shared with the cache *)
      let! ms := ms_put (cachedEntries s) op (Some spent) (totalEntryMemory s) in
      let ms := if isFresh spent then ms_delete ms op else ms in
      Ok (set_cached s ms (uint64 (totalEntryMemory s - entryMemory)), stxos)
  | _ => Err AssertError
  end.

Fixpoint addTxIn_all (s : utxoCache) (ins : list TxIn) (stxos : option (list SpentTxOut))
    : result ChainError (utxoCache * option (list SpentTxOut)) :=
  match ins with
  | [] => Ok (s, stxos)
  | ti :: ins =>
      let! '(s, stxos) := addTxIn s ti stxos in
      addTxIn_all s ins stxos
  end.

(** [anchortx.GetLockedTxInfo] of the transaction and [bindOutputs], for the journal
    of anchors. *)
Context (GetLockedTxInfo : MsgTx -> bool -> result ChainError AnchorInfo).

Definition addTxIns (s : utxoCache) (tx : MsgTx) (stxos : option (list SpentTxOut))
    (anchors : option (list AnchorTxInfo)) (bindOutputs : bool)
    : result ChainError (utxoCache * option (list SpentTxOut) * option (list AnchorTxInfo)) :=
  if negb (transactionConsumesSpendJournal tx (IsCoinBaseTx tx)) then
    if negb (IsAnchorTx tx) then Ok (s, stxos, anchors)
    else
      match anchors with
      | None => Ok (s, stxos, None)
      | Some l =>
          let! info := GetLockedTxInfo tx bindOutputs in
          Ok (s, stxos, Some (l ++ [anchor_entry tx info]))
      end
  else
    let! '(s, stxos) := addTxIn_all s (TxIns tx) stxos in
    Ok (s, stxos, anchors).

Definition cache_connectTransaction (s : utxoCache) (tx : MsgTx) (blockHeight : Z)
    (stxos : option (list SpentTxOut)) (anchors : option (list AnchorTxInfo)) (bindOutputs : bool)
    : result ChainError (utxoCache * option (list SpentTxOut) * option (list AnchorTxInfo)) :=
  let! '(s, stxos, anchors) := addTxIns s tx stxos anchors bindOutputs in
  let! s := cache_addTxOuts s (TxHash tx) 0 (TxOuts tx) (IsCoinBaseTx tx) blockHeight in
  Ok (s, stxos, anchors).

Fixpoint cache_connectTransactions (s : utxoCache) (txs : list MsgTx) (blockHeight : Z)
    (stxos : option (list SpentTxOut)) (anchors : option (list AnchorTxInfo)) (bindOutputs : bool)
    : result ChainError (utxoCache * option (list SpentTxOut) * option (list AnchorTxInfo)) :=
  match txs with
  | [] => Ok (s, stxos, anchors)
  | tx :: txs =>
      let! '(s, stxos, anchors) := cache_connectTransaction s tx blockHeight stxos anchors bindOutputs in
      cache_connectTransactions s txs blockHeight stxos anchors bindOutputs
  end.

(** One entry of [writeCache].  The entries of a map have different keys, so the
    order of the iteration does not matter. *)
Definition write_entry (op : OutPoint) (e : option UtxoEntry) (database : gmap OutPoint SpentTxOut)
    : gmap OutPoint SpentTxOut :=
  match e with
  | None => delete op database
  | Some e => if IsSpent e then delete op database
              else if negb (isModified e) then database
              else <[op := spent_txout e]> database
  end.

Definition write_maps (l : list (gmap OutPoint (option UtxoEntry))) (database : gmap OutPoint SpentTxOut)
    : gmap OutPoint SpentTxOut :=
  foldl (fun database m => map_fold write_entry database m) database l.

Definition writeCache (s : utxoCache) (best : bytes) (now : Z) : utxoCache :=
  let emptied := mkMapSlice (map (fun _ => ∅) (maps (cachedEntries s))) (maxEntries (cachedEntries s))
                   (ms_maxTotalMemoryUsage (cachedEntries s)) in
  mkUtxoCache (write_maps (maps (cachedEntries s)) (db s)) (Some best) (uc_maxTotalMemoryUsage s)
    (deleteMaps emptied) 0 best now.

(** Times are in nanoseconds. *)
Definition utxoFlushPeriodicInterval : Z := 5 * 60 * 10 ^ 9.

Definition flush {E : Type} (s : utxoCache) (mode : FlushMode) (best : bytes) (now : Z) : result E utxoCache :=
  let run threshold :=
    let! usage := totalMemoryUsage s in
    Ok (if threshold <=? usage then writeCache s best now else s) in
  match mode with
  | FlushRequired => run 0
  | FlushIfNeeded => if bytes_eqb best (lastFlushHash s) then Ok s else run (uc_maxTotalMemoryUsage s)
  | FlushPeriodic =>
      run (if utxoFlushPeriodicInterval <? now - lastFlushTime s then 0 else uc_maxTotalMemoryUsage s)
  end.

End Cache.

(** ** The sizes are computed without running off a table *)

Lemma load_loop_stops hint :
  hint < 2 ^ 32 -> overLoadFactor hint (load_loop 64 hint 0) = false.
Proof.
  intros Hh.
  assert (Hmono : forall fuel B, 0 <= B -> 32 <= B + Z.of_nat fuel -> B <= 32 ->
            overLoadFactor hint (load_loop fuel hint B) = false).
  { induction fuel as [|fuel IH]; intros B HB Hf HB'; cbn [load_loop].
    - assert (B = 32) as -> by lia. unfold overLoadFactor. destruct (Z.ltb_spec bucketCnt hint) as [Hc|_]; [|done].
      cbn [andb]. apply Z.ltb_ge. unfold bucketCnt in Hc. rewrite (uint64_id hint) by (unfold is_uint64; lia).
      change (hint <= uint64 (loadFactorNum * (bucketShift 32 / loadFactorDen))).
      transitivity (2 ^ 32); [lia|]. vm_compute. discriminate.
    - destruct (overLoadFactor hint B) eqn:Ho; [|done]. destruct (Z.eq_dec B 32) as [->|]; [|apply IH; lia].
      exfalso. unfold overLoadFactor in Ho. apply andb_true_iff in Ho as [Hc Ho]. apply Z.ltb_lt in Hc, Ho.
      unfold bucketCnt in Hc. rewrite (uint64_id hint) in Ho by (unfold is_uint64; lia).
      assert (Hb : 2 ^ 32 <= uint64 (loadFactorNum * (bucketShift 32 / loadFactorDen))) by (vm_compute; discriminate).
      lia. }
  apply Hmono; lia.
Qed.

Lemma class8_ok i : 0 <= i < 129 -> exists c, size_to_class8 !! Z.to_nat i = Some c /\ 0 <= c < 68.
Proof.
  intros Hi. destruct (lookup_lt_is_Some_2 size_to_class8 (Z.to_nat i)) as [c Hc]; [simpl; lia|].
  exists c. split; [done|]. assert (Hall : Forall (fun c => 0 <= c < 68) size_to_class8) by (repeat constructor; lia).
  by eapply Forall_lookup_1 in Hall; [|exact Hc].
Qed.

Lemma class128_ok i : 0 <= i < 249 -> exists c, size_to_class128 !! Z.to_nat i = Some c /\ 0 <= c < 68.
Proof.
  intros Hi. destruct (lookup_lt_is_Some_2 size_to_class128 (Z.to_nat i)) as [c Hc]; [simpl; lia|].
  exists c. split; [done|]. assert (Hall : Forall (fun c => 0 <= c < 68) size_to_class128) by (repeat constructor; lia).
  by eapply Forall_lookup_1 in Hall; [|exact Hc].
Qed.

Lemma roundupsize_ok {E : Type} size : 0 <= size -> exists r, roundupsize (E := E) size = Ok r.
Proof.
  intros Hs. unfold roundupsize. destruct (Z.ltb_spec size MaxSmallSize) as [Hlt|_].
  2: { destruct (_ <? size); by eexists. }
  unfold MaxSmallSize in Hlt.
  assert (Hc : exists c, (if size <=? smallSizeMax - 8
      then unwrap (E := E) (size_to_class8 !! Z.to_nat (divRoundUp size smallSizeDiv))
      else unwrap (size_to_class128 !! Z.to_nat (divRoundUp (size - smallSizeMax) largeSizeDiv))) = Ok c /\ 0 <= c < 68).
  { unfold smallSizeMax, smallSizeDiv, largeSizeDiv, divRoundUp.
    destruct (Z.leb_spec size (1024 - 8)).
    - rewrite uint64_id by (unfold is_uint64; lia). destruct (class8_ok ((size + 8 - 1) / 8)) as (c & -> & Hc); [|by exists c].
      split; [apply Z.div_pos; lia|]. apply Z.div_lt_upper_bound; lia.
    - rewrite uint64_id by (unfold is_uint64; lia). destruct (class128_ok ((size - 1024 + 128 - 1) / 128)) as (c & -> & Hc); [|by exists c].
      split; [apply Z.div_pos; lia|]. apply Z.div_lt_upper_bound; lia. }
  destruct Hc as (c & -> & Hc). cbn [rbind].
  destruct (lookup_lt_is_Some_2 class_to_size (Z.to_nat c)) as [r Hr]; [simpl; lia|]. exists r. by rewrite Hr.
Qed.

Lemma calculateRoughMapSize_ok {E : Type} hint bs : exists r, calculateRoughMapSize (E := E) hint bs = Ok r.
Proof.
  unfold calculateRoughMapSize. destruct (mulUintptr _ _) as [mem o].
  set (B := load_loop _ _ _). destruct (4 <=? B); cbn [rbind]; [|by eexists].
  destruct (roundupsize_ok (E := E) (uint64 (bs * uint64 (bucketShift B + bucketShift (B - 4))))) as [r Hr].
  { unfold uint64, wrap_u. apply Z.mod_pos_bound. lia. }
  unfold bucketShift in *. rewrite Hr. cbn [rbind]. by eexists.
Qed.

Lemma ms_size_from_ok {E : Type} l : exists r, ms_size_from (E := E) l = Ok r.
Proof.
  induction l as [|n l [r IH]]; [by eexists|]. cbn [ms_size_from].
  destruct (calculateRoughMapSize_ok (E := E) n bucketSize) as [q ->]. cbn [rbind]. rewrite IH. by eexists.
Qed.

Section CacheProofs.
Context `{D : DecimalOps}.

(** ** The slice of maps as one map *)

(** Every key is in at most one of the maps. *)
Fixpoint one_place (l : list (gmap OutPoint (option UtxoEntry))) : Prop :=
  match l with
  | [] => True
  | m :: l => (forall o e, m !! o = Some e -> get_in l o = None) /\ one_place l
  end.

Record wf_slice (ms : mapSlice) : Prop := {
  wfs_place : one_place (maps ms);
  wfs_length : length (maps ms) = length (maxEntries ms);
  wfs_some : maps ms <> [];
}.

Lemma overwrite_None l o e : overwrite l o e = None -> get_in l o = None.
Proof.
  induction l as [|m l IH]; [done|]. cbn [overwrite get_in]. destruct (m !! o); [done|].
  destruct (overwrite l o e); [done|]. intros _. by apply IH.
Qed.

Lemma overwrite_spec l o e l' :
  overwrite l o e = Some l' -> one_place l ->
  one_place l' /\ length l' = length l /\ get_in l o <> None
  /\ forall o', get_in l' o' = if decide (o' = o) then Some e else get_in l o'.
Proof.
  revert l'. induction l as [|m l IH]; intros l'; [done|]. cbn [overwrite one_place]. intros Ho [Hm Hl].
  destruct (m !! o) as [e0|] eqn:Hmo.
  - simplify_eq. cbn [one_place get_in]. rewrite Hmo. split_and!; [|done|done|done|].
    + intros o' e1. destruct (decide (o = o')) as [<-|Hne]; [intros _; by eapply Hm|].
      rewrite lookup_insert_ne by done. apply Hm.
    + intros o'. case_decide as Hd; [subst o'; by rewrite lookup_insert_eq|by rewrite lookup_insert_ne].
  - destruct (overwrite l o e) as [l1|]; [|done]. simplify_eq/=.
    destruct (IH l1 eq_refl Hl) as (Hp & Hlen & Hsome & Hget). rewrite Hmo. split_and!; [|done|lia|done|].
    + intros o' e1 He1. rewrite Hget. case_decide as Hd; [congruence|]. by eapply Hm.
    + intros o'. rewrite Hget. case_decide as Hd; [subst o'; by rewrite Hmo|done].
Qed.

Lemma insert_room_spec l max o e l' :
  insert_room l max o e = Some l' -> one_place l -> get_in l o = None ->
  one_place l' /\ length l' = length l
  /\ forall o', get_in l' o' = if decide (o' = o) then Some e else get_in l o'.
Proof.
  revert max l'. induction l as [|m l IH]; intros [|n max] l'; try done. cbn [insert_room one_place get_in].
  intros Ho [Hm Hl] Hnone. destruct (m !! o) as [e0|] eqn:Hmo; [done|].
  destruct (n <=? Z.of_nat (size m)).
  - destruct (insert_room l max o e) as [l1|] eqn:Hr; [|done]. simplify_eq/=.
    destruct (IH max l1 Hr Hl Hnone) as (Hp & Hlen & Hget). split_and!; [|done|lia|].
    + intros o' e1 He1. rewrite Hget. case_decide as Hd; [congruence|]. by eapply Hm.
    + intros o'. rewrite Hget. case_decide as Hd; [subst o'; by rewrite Hmo|done].
  - simplify_eq. cbn [one_place get_in]. split_and!; [|done|done|].
    + intros o' e1. destruct (decide (o = o')) as [<-|Hne]; [done|].
      rewrite lookup_insert_ne by done. apply Hm.
    + intros o'. case_decide as Hd; [subst o'; by rewrite lookup_insert_eq|by rewrite lookup_insert_ne].
Qed.

Lemma get_in_app l l2 o :
  get_in (l ++ l2) o = match get_in l o with Some e => Some e | None => get_in l2 o end.
Proof. induction l as [|m l IH]; [done|]. cbn [app get_in]. by destruct (m !! o). Qed.

Lemma one_place_snoc l o e : one_place l -> get_in l o = None -> one_place (l ++ [{[o := e]}]).
Proof.
  induction l as [|m l IH]; cbn [app one_place get_in].
  - intros _ _. split; [|done]. intros; done.
  - intros [Hm Hl] Hn. destruct (m !! o) eqn:Hmo; [done|]. split; [|by apply IH].
    intros o' e' Ho'. rewrite get_in_app, (Hm o' e' Ho'). cbn [get_in].
    rewrite lookup_singleton_ne; [done|]. congruence.
Qed.

Lemma ms_put_spec {E : Type} ms o e mem :
  wf_slice ms -> exists ms', ms_put (E := E) ms o e mem = Ok ms' /\ wf_slice ms'
  /\ forall o', ms_get ms' o' = if decide (o' = o) then Some e else ms_get ms o'.
Proof.
  intros [Hp Hl Hs]. unfold ms_put, ms_get. destruct (overwrite (maps ms) o e) as [l|] eqn:Ho.
  - destruct (overwrite_spec _ _ _ _ Ho Hp) as (Hp' & Hl' & _ & Hg). eexists. split; [done|]. split; [|done].
    split; cbn; [done|lia|]. intros ->. destruct (maps ms); [done|discriminate].
  - apply overwrite_None in Ho. destruct (insert_room _ _ o e) as [l|] eqn:Hr.
    + destruct (insert_room_spec _ _ _ _ _ Hr Hp Ho) as (Hp' & Hl' & Hg). eexists. split; [done|]. split; [|done].
      split; cbn; [done|lia|]. intros ->. destruct (maps ms); [done|discriminate].
    + unfold makeNewMap. destruct (ms_size_from_ok (E := E) (maxEntries ms)) as [r ->]. cbn [rbind].
      eexists. split; [done|]. cbn [maps]. split.
      * split; cbn [maps maxEntries]; [by apply one_place_snoc|rewrite !length_app; simpl; lia|by destruct (maps ms)].
      * intros o'. rewrite get_in_app. cbn [get_in]. case_decide as Hd; [subst o'; by rewrite Ho, lookup_singleton_eq|].
        rewrite lookup_singleton_ne by done. by destruct (get_in _ o').
Qed.

Lemma get_in_delete l o o' : get_in (map (delete o) l) o' = if decide (o' = o) then None else get_in l o'.
Proof.
  induction l as [|m l IH]; cbn [map get_in]; [by destruct (decide (o' = o))|].
  rewrite IH, lookup_delete. destruct (decide (o' = o)) as [->|Hd].
  - by rewrite decide_True by done.
  - by rewrite decide_False by done.
Qed.

Lemma ms_delete_spec ms o :
  wf_slice ms -> wf_slice (ms_delete ms o)
  /\ forall o', ms_get (ms_delete ms o) o' = if decide (o' = o) then None else ms_get ms o'.
Proof.
  intros [Hp Hl Hs]. split; [|intros o'; apply get_in_delete].
  split; cbn; [|by rewrite length_map|by destruct (maps ms)].
  revert Hp. generalize (maps ms) as l. induction l as [|m l IH]; [done|]. cbn [map one_place]. intros [Hm Hp].
  split; [|by apply IH]. intros o' e He. apply lookup_delete_Some in He as [Hne He].
  rewrite get_in_delete. rewrite decide_False by done. by eapply Hm.
Qed.

(** ** The unspent outputs the cache stands for *)

Definition flat (l : list (gmap OutPoint (option UtxoEntry))) : gmap OutPoint (option UtxoEntry) :=
  foldr (fun m acc => m ∪ acc) ∅ l.

Lemma lookup_flat l o : flat l !! o = get_in l o.
Proof.
  induction l as [|m l IH]; [done|]. cbn [flat foldr get_in]. rewrite lookup_union, <- IH. unfold flat.
  by destruct (m !! o), (foldr _ _ l !! o).
Qed.

Definition chain_utxos (s : utxoCache) : gmap OutPoint SpentTxOut := overlay (flat (maps (cachedEntries s))) (db s).

Lemma lookup_chain s o :
  chain_utxos s !! o = match ms_get (cachedEntries s) o with Some e => coin_of e | None => db s !! o end.
Proof. unfold chain_utxos. by rewrite lookup_overlay, lookup_flat. Qed.

(** What an entry of the cache says of the database: a nil entry, and a fresh one,
    that it has no such output; an unmodified one that it has exactly this. *)
Definition entry_ok (c : option SpentTxOut) (e : option UtxoEntry) : Prop :=
  match e with
  | None => c = None
  | Some e => (isModified e = false -> IsSpent e = false /\ c = Some (spent_txout e))
              /\ (isFresh e = true -> c = None)
  end.

Record wf_cache (s : utxoCache) : Prop := {
  wfc_slice : wf_slice (cachedEntries s);
  wfc_entry : forall o e, ms_get (cachedEntries s) o = Some e -> entry_ok (db s !! o) e;
}.

Lemma wf_set s o e ms mem :
  wf_cache s -> wf_slice ms ->
  (forall o', ms_get ms o' = if decide (o' = o) then e else ms_get (cachedEntries s) o') ->
  match e with Some e => entry_ok (db s !! o) e | None => True end ->
  wf_cache (set_cached s ms mem).
Proof.
  intros [_ Hw] Hms Hg He. split; [done|]. intros o' e'. cbn [set_cached cachedEntries db]. rewrite Hg.
  case_decide as Hd; [subst o'; by intros ->|apply Hw].
Qed.

Lemma chain_set s o e ms mem :
  (forall o', ms_get ms o' = if decide (o' = o) then e else ms_get (cachedEntries s) o') ->
  chain_utxos (set_cached s ms mem)
  = partial_alter (fun _ => match e with Some e => coin_of e | None => db s !! o end) o (chain_utxos s).
Proof.
  intros Hg. apply map_eq. intros o'. rewrite lookup_chain. cbn [set_cached cachedEntries db]. rewrite Hg.
  rewrite lookup_partial_alter. destruct (decide (o' = o)) as [->|Hd].
  - by rewrite decide_True by done.
  - rewrite decide_False by done. by rewrite lookup_chain.
Qed.

Lemma db_entry_ok (c : option SpentTxOut) : entry_ok c (db_entry <$> c) /\ coin_of (db_entry <$> c) = c.
Proof.
  destruct c as [[a l p h []]|]; unfold entry_ok, coin_of, db_entry, spent_txout, IsCoinBase, IsSpent, isModified,
    isFresh, has_flag; simpl; split; try done; split; done.
Qed.

(** What the operations keep: the database and the data of the last flush. *)
Record same_disk (s s' : utxoCache) : Prop := {
  sd_db : db s' = db s;
  sd_status : utxoStateConsistency s' = utxoStateConsistency s;
  sd_hash : lastFlushHash s' = lastFlushHash s;
  sd_time : lastFlushTime s' = lastFlushTime s;
}.

(** Filling the cache does not change what it stands for. *)
Lemma put_all_spec {E : Type} ops s :
  wf_cache s -> Forall (fun o => chain_utxos s !! o = db s !! o) ops ->
  exists s', put_all (E := E) s ops = Ok s' /\ wf_cache s' /\ chain_utxos s' = chain_utxos s /\ same_disk s s'
    /\ (forall o, ms_get (cachedEntries s') o
         = if decide (o ∈ ops) then Some (db_entry <$> db s !! o) else ms_get (cachedEntries s) o).
Proof.
  revert s. induction ops as [|o ops IH]; intros s Hw Hf; cbn [put_all].
  { exists s. by split_and!. }
  apply Forall_cons_iff in Hf as [Ho Hf].
  destruct (ms_put_spec (E := E) _ o (db_entry <$> db s !! o) (totalEntryMemory s) (wfc_slice _ Hw)) as (ms & -> & Hms & Hg).
  cbn [rbind]. destruct (db_entry_ok (db s !! o)) as [Hok Hcoin]. set (s1 := set_cached _ _ _).
  assert (Hw1 : wf_cache s1) by exact (wf_set s o (Some (db_entry <$> db s !! o)) ms _ Hw Hms Hg Hok).
  assert (Hc1 : chain_utxos s1 = chain_utxos s).
  { unfold s1. rewrite (chain_set s o (Some (db_entry <$> db s !! o)) ms _ Hg), Hcoin, <- Ho.
    apply partial_alter_self. }
  destruct (IH s1 Hw1) as (s' & -> & Hw' & Hc' & Hd' & Hg'); [by rewrite Hc1|].
  exists s'. split_and!; [done|done|by rewrite Hc'|by destruct Hd'|]. intros o'. rewrite Hg'. cbn [s1 set_cached db cachedEntries].
  rewrite Hg. destruct (decide (o' ∈ ops)) as [Hin|Hin].
  - rewrite decide_True; [done|]. by apply elem_of_cons; right.
  - destruct (decide (o' = o)) as [->|Hne].
    + rewrite decide_True; [done|]. by apply elem_of_cons; left.
    + rewrite decide_False; [done|]. intros [?|?]%elem_of_cons; done.
Qed.

Lemma missing_in ms ops o : o ∈ missing ms ops <-> o ∈ ops /\ ms_get ms o = None.
Proof.
  unfold missing. rewrite !list_elem_of_In, filter_In. destruct (ms_get ms o); simpl; split; intros [? ?]; done.
Qed.

(** Fetched entries are those of the chain. *)
Lemma fetchEntries_spec {E : Type} s ops :
  wf_cache s ->
  exists es s', fetchEntries (E := E) s ops = Ok (es, s') /\ wf_cache s' /\ chain_utxos s' = chain_utxos s
    /\ same_disk s s' /\ map coin_of es = map (fun o => chain_utxos s !! o) ops
    /\ map Some es = map (ms_get (cachedEntries s')) ops.
Proof.
  intros Hw. unfold fetchEntries.
  destruct (put_all_spec (E := E) (missing (cachedEntries s) ops) s Hw) as (s' & -> & Hw' & Hc' & Hd' & Hg').
  { apply Forall_forall. intros o [_ Ho]%missing_in. by rewrite lookup_chain, Ho. }
  cbn [rbind]. eexists _, s'. split_and!; try done.
  - rewrite map_map. apply map_ext. intros o. rewrite lookup_chain. destruct (ms_get _ o); [done|].
    apply (proj2 (db_entry_ok _)).
  - rewrite map_map. apply map_ext_in. intros o Hin%list_elem_of_In. rewrite Hg'.
    destruct (ms_get (cachedEntries s) o) eqn:Ho.
    + rewrite decide_False; [done|]. intros [_ ?]%missing_in. congruence.
    + rewrite decide_True; [done|]. by apply missing_in.
Qed.

(** ** Connecting transactions *)

Lemma cache_addTxOut_spec {E : Type} s o out cb h :
  wf_cache s -> db s !! o = None ->
  exists s', cache_addTxOut (E := E) s o out cb h = Ok s' /\ wf_cache s' /\ same_disk s s'
    /\ chain_utxos s' = if unspendable (PkScript out) then chain_utxos s
                        else <[o := new_coin out cb h]> (chain_utxos s).
Proof.
  intros Hw Ho. unfold cache_addTxOut. destruct (unspendable (PkScript out)); [by exists s|].
  set (e := mkUtxoEntry _ _ _ _ _).
  destruct (ms_put_spec (E := E) _ o (Some e) (totalEntryMemory s) (wfc_slice _ Hw)) as (ms & -> & Hms & Hg).
  cbn [rbind]. eexists. split; [done|].
  assert (He : isModified e = true /\ IsSpent e = false /\ spent_txout e = new_coin out cb h).
  { unfold e, new_coin, spent_txout, IsCoinBase, isModified, IsSpent, has_flag. by destruct cb. }
  destruct He as (Hm & Hsp & Hcoin). split_and!; [|done|].
  - eapply (wf_set s o (Some (Some e))); [done|done|exact Hg|]. split; [by rewrite Hm|done].
  - rewrite (chain_set s o (Some (Some e)) ms _ Hg). cbn [coin_of mbind option_bind]. by rewrite Hsp, Hcoin.
Qed.

Lemma same_disk_trans s1 s2 s3 : same_disk s1 s2 -> same_disk s2 s3 -> same_disk s1 s3.
Proof. intros [] []. split; congruence. Qed.

Lemma cache_addTxOuts_spec {E : Type} outs s hash i cb h :
  wf_cache s -> (forall j, 0 <= j < len outs -> db s !! outpoint_at hash (i + j) = None) ->
  exists s', cache_addTxOuts (E := E) s hash i outs cb h = Ok s' /\ wf_cache s' /\ same_disk s s'
    /\ chain_utxos s' = add_coins (chain_utxos s) hash i outs cb h.
Proof.
  revert s i. induction outs as [|out outs IH]; intros s i Hw Hf; cbn [cache_addTxOuts]; [by exists s|].
  rewrite len_cons in Hf. pose proof (len_nonneg outs).
  destruct (cache_addTxOut_spec (E := E) s (outpoint_at hash i) out cb h Hw) as (s1 & Hs1 & Hw1 & Hd1 & Hc1).
  { specialize (Hf 0). rewrite Z.add_0_r in Hf. apply Hf. lia. }
  unfold outpoint_at in Hs1. rewrite Hs1. cbn [rbind].
  destruct (IH s1 (i + 1) Hw1) as (s' & -> & Hw' & Hd' & Hc').
  { intros j Hj. rewrite (sd_db _ _ Hd1). replace (i + 1 + j) with (i + (1 + j)) by lia. apply Hf. lia. }
  exists s'. split_and!; [done|done|by eapply same_disk_trans|]. rewrite Hc', Hc1. cbn [add_coins]. done.
Qed.

Lemma isFresh_Spend e : isFresh (Spend e) = isFresh e.
Proof.
  unfold Spend. destruct (IsSpent e); [done|]. unfold isFresh, has_flag, set_flags. cbn [packedFlags].
  by rewrite flag_lor_keep.
Qed.

Lemma addTxIn_spec s ti J c :
  wf_cache s -> chain_utxos s !! PreviousOutPoint ti = Some c ->
  exists s', addTxIn s ti J = Ok (s', option_map (fun l => l ++ [c]) J) /\ wf_cache s' /\ same_disk s s'
    /\ chain_utxos s' = delete (PreviousOutPoint ti) (chain_utxos s).
Proof.
  intros Hw Hc. unfold addTxIn. set (o := PreviousOutPoint ti) in *.
  destruct (fetchEntries_spec (E := ChainError) s [o] Hw) as (es & s1 & -> & Hw1 & Hc1 & Hd1 & Hes & Hget). cbn [rbind].
  destruct es as [|e [|]]; try done. cbn [map] in Hes, Hget. injection Hes as Hes. injection Hget as Hget.
  rewrite Hc in Hes. destruct e as [e|]; [|done]. cbn [coin_of mbind option_bind] in Hes.
  destruct (IsSpent e) eqn:Hsp; [done|]. injection Hes as <-.
  destruct (ms_put_spec (E := ChainError) _ o (Some (Spend e)) (totalEntryMemory s1) (wfc_slice _ Hw1)) as (ms & -> & Hms & Hg).
  cbn [rbind]. rewrite isFresh_Spend. pose proof (wfc_entry _ Hw1 o (Some e)) as Hok. rewrite Hget in Hok.
  destruct (Hok eq_refl) as [_ Hfresh].
  assert (Hdel : match isFresh e with
    | true => partial_alter (fun _ => db s1 !! o) o (chain_utxos s1) = delete o (chain_utxos s1)
    | false => True end).
  { destruct (isFresh e); [|done]. by rewrite (Hfresh eq_refl). }
  destruct (isFresh e) eqn:Hf.
  - destruct (ms_delete_spec ms o Hms) as [Hms' Hg'].
    assert (Hg2 : forall o', ms_get (ms_delete ms o) o' = if decide (o' = o) then None else ms_get (cachedEntries s1) o').
    { intros o'. rewrite Hg'. destruct (decide (o' = o)) as [->|Hne]; [done|]. rewrite Hg. by rewrite decide_False by done. }
    eexists. split; [done|]. split_and!.
    + by eapply (wf_set s1 o None).
    + by eapply same_disk_trans.
    + rewrite (chain_set s1 o None _ _ Hg2), Hdel, Hc1. done.
  - eexists. split; [done|]. split_and!.
    + eapply (wf_set s1 o (Some (Some (Spend e)))); [done|done|exact Hg|]. cbn [entry_ok].
      rewrite isModified_Spend, Hsp, isFresh_Spend, Hf, orb_true_r. done.
    + by eapply same_disk_trans.
    + rewrite (chain_set s1 o (Some (Some (Spend e))) _ _ Hg). cbn [coin_of mbind option_bind].
      by rewrite IsSpent_Spend, Hc1.
Qed.

Lemma addTxIn_all_spec ins s J cs :
  wf_cache s -> input_coins (chain_utxos s) ins = Some cs ->
  exists s', addTxIn_all s ins J = Ok (s', option_map (fun l => l ++ cs) J) /\ wf_cache s' /\ same_disk s s'
    /\ chain_utxos s' = spend_coins (chain_utxos s) ins.
Proof.
  revert s J cs. induction ins as [|ti ins IH]; intros s J cs Hw Hcs; cbn [addTxIn_all input_coins] in *.
  { simplify_eq. exists s. split_and!; try done. destruct J; cbn [option_map]; by rewrite ?app_nil_r. }
  apply bind_Some in Hcs as (c & Hc & Hcs). apply bind_Some in Hcs as (cs' & Hcs' & ?). simplify_eq.
  destruct (addTxIn_spec s ti J c Hw Hc) as (s1 & -> & Hw1 & Hd1 & Hc1). cbn [rbind].
  rewrite <- Hc1 in Hcs'. destruct (IH s1 (option_map (fun l => l ++ [c]) J) cs' Hw1 Hcs') as (s' & -> & Hw' & Hd' & Hc').
  exists s'. split_and!; [|done|by eapply same_disk_trans|by rewrite Hc', Hc1].
  destruct J as [J|]; cbn [option_map]; [|done]. by rewrite <- app_assoc.
Qed.

Context (GetLockedTxInfo : MsgTx -> bool -> result ChainError AnchorInfo) (bindOutputs : bool).

(** The entries of the anchor transactions of a block. *)
Definition tx_anchor (tx : MsgTx) : list AnchorTxInfo :=
  if IsAnchorTx tx then match GetLockedTxInfo tx bindOutputs with Ok i => [anchor_entry tx i] | _ => [] end else [].

Definition block_anchors (txs : list MsgTx) : list AnchorTxInfo := concat (map tx_anchor txs).

(** The locked output of the transaction can be read, when the entries of anchors
    are recorded. *)
Definition anchor_known (anchors : option (list AnchorTxInfo)) (tx : MsgTx) : Prop :=
  anchors = None \/ (IsAnchorTx tx = true -> exists i, GetLockedTxInfo tx bindOutputs = Ok i).

Lemma anchor_consumes tx first : transactionConsumesSpendJournal tx first = true -> IsAnchorTx tx = false.
Proof. unfold transactionConsumesSpendJournal. by destruct (IsAnchorTx tx), first. Qed.

Lemma option_map_snoc_nil {A : Type} (J : option (list A)) : J = option_map (fun l => l ++ []) J.
Proof. destruct J; cbn [option_map]; by rewrite ?app_nil_r. Qed.

Lemma cache_connectTransaction_spec first s tx h J A :
  wf_cache s -> fits first (chain_utxos s) tx -> anchor_known A tx ->
  (forall j, 0 <= j < len (TxOuts tx) -> db s !! outpoint_at (TxHash tx) j = None) ->
  exists s', cache_connectTransaction GetLockedTxInfo s tx h J A bindOutputs
      = Ok (s', option_map (fun l => l ++ spent_coins (chain_utxos s) tx) J, option_map (fun l => l ++ tx_anchor tx) A)
    /\ wf_cache s' /\ same_disk s s' /\ chain_utxos s' = after_tx (chain_utxos s) tx h.
Proof.
  intros Hw (Hcb & Hl & Hfresh & Hin) HA Hdb.
  unfold cache_connectTransaction, addTxIns, after_tx, spent_coins, tx_anchor.
  rewrite Hcb. destruct (transactionConsumesSpendJournal tx first) eqn:Hc; cbn [negb].
  - destruct (Hin eq_refl) as (cs & Hcs & _). rewrite Hcs, (anchor_consumes _ _ Hc). cbn [default].
    destruct (addTxIn_all_spec (TxIns tx) s J cs Hw Hcs) as (s1 & -> & Hw1 & Hd1 & Hc1). cbn [rbind].
    destruct (cache_addTxOuts_spec (E := ChainError) (TxOuts tx) s1 (TxHash tx) 0 first h Hw1) as (s' & -> & Hw' & Hd' & Hc').
    { intros j Hj. rewrite (sd_db _ _ Hd1). by apply Hdb. }
    exists s'. cbn [rbind]. rewrite <- (option_map_snoc_nil A).
    split_and!; [done|done|by eapply same_disk_trans|by rewrite Hc', Hc1].
  - destruct (cache_addTxOuts_spec (E := ChainError) (TxOuts tx) s (TxHash tx) 0 first h Hw) as (s' & Hs' & Hw' & Hd' & Hc').
    { intros j Hj. by apply Hdb. }
    exists s'. rewrite <- (option_map_snoc_nil J). split_and!; [|done|done|done].
    destruct (IsAnchorTx tx) eqn:Hat; cbn [negb].
    + destruct A as [A|]; cbn [option_map]; [|cbn [rbind]; by rewrite Hs'].
      destruct HA as [?|HA]; [done|]. destruct (HA Hat) as [i ->].
      cbn [rbind]. by rewrite Hs'.
    + cbn [rbind]. rewrite Hs'. cbn [rbind]. by rewrite <- (option_map_snoc_nil A).
Qed.

(** Connecting a block: the cache stands for the outputs after the block, the
    database is not touched, the journal holds the coins spent. *)
Lemma cache_connect_spec txs first s h J A :
  wf_cache s -> all_fit first (chain_utxos s) txs h -> Forall (anchor_known A) txs ->
  Forall (fun tx => forall j, 0 <= j < len (TxOuts tx) -> db s !! outpoint_at (TxHash tx) j = None) txs ->
  exists s', cache_connectTransactions GetLockedTxInfo s txs h J A bindOutputs
      = Ok (s', option_map (fun l => l ++ block_journal (chain_utxos s) txs h) J,
            option_map (fun l => l ++ block_anchors txs) A)
    /\ wf_cache s' /\ same_disk s s' /\ chain_utxos s' = after_txs (chain_utxos s) txs h.
Proof.
  revert first s J A. induction txs as [|tx txs IH]; intros first s J A Hw Hfit HA Hdb.
  { exists s. split_and!; try done. cbn. by rewrite <- !option_map_snoc_nil. }
  destruct Hfit as [Hf Hfit]. apply Forall_cons_iff in HA as [Ha HA]. apply Forall_cons_iff in Hdb as [Hd Hdb].
  destruct (cache_connectTransaction_spec first s tx h J A Hw Hf Ha Hd) as (s1 & Hs1 & Hw1 & Hd1 & Hc1).
  cbn [cache_connectTransactions]. rewrite Hs1. cbn [rbind]. rewrite <- Hc1 in Hfit.
  destruct (IH false s1 (option_map (fun l => l ++ spent_coins (chain_utxos s) tx) J)
    (option_map (fun l => l ++ tx_anchor tx) A) Hw1 Hfit) as (s' & -> & Hw' & Hd' & Hc').
  { eapply Forall_impl; [exact HA|]. intros t [->|Ht]; [by left|by right]. }
  { rewrite (sd_db _ _ Hd1). done. }
  exists s'. split_and!; [|done|by eapply same_disk_trans|by rewrite Hc', Hc1].
  unfold block_journal, block_anchors. cbn [journal map snd concat]. rewrite Hc1.
  destruct J, A; cbn [option_map]; by rewrite <- ?app_assoc.
Qed.

(** ** Flushing *)

Definition written_coin (e : option UtxoEntry) (c : option SpentTxOut) : option SpentTxOut :=
  match e with
  | None => None
  | Some e => if IsSpent e then None else if negb (isModified e) then c else Some (spent_txout e)
  end.

Lemma lookup_write_entry o e d o' :
  write_entry o e d !! o' = if decide (o' = o) then written_coin e (d !! o) else d !! o'.
Proof.
  unfold write_entry, written_coin. destruct e as [e|]; [destruct (IsSpent e); [|destruct (negb (isModified e))]|];
    rewrite ?lookup_delete, ?lookup_insert; destruct (decide (o' = o)) as [->|Hne];
    rewrite ?decide_True by done; rewrite ?decide_False by done; done.
Qed.

Lemma lookup_fold_write m d o :
  map_fold write_entry d m !! o = match m !! o with Some e => written_coin e (d !! o) | None => d !! o end.
Proof.
  revert o. apply (map_fold_weak_ind (fun r m => forall o,
    r !! o = match m !! o with Some e => written_coin e (d !! o) | None => d !! o end)).
  - done.
  - intros i x m0 r Hi IH o. rewrite lookup_write_entry. destruct (decide (o = i)) as [->|Hne].
    + rewrite lookup_insert_eq, IH. by rewrite Hi.
    + rewrite lookup_insert_ne by done. apply IH.
Qed.

Lemma lookup_write_maps l d o :
  one_place l ->
  write_maps l d !! o = match get_in l o with Some e => written_coin e (d !! o) | None => d !! o end.
Proof.
  revert d. induction l as [|m l IH]; intros d; [done|]. cbn [one_place get_in]. intros [Hm Hl].
  unfold write_maps. cbn [foldl]. fold (write_maps l (map_fold write_entry d m)). rewrite IH, lookup_fold_write by done.
  destruct (m !! o) as [e|] eqn:He; [by rewrite (Hm o e He)|done].
Qed.

Lemma written_coin_ok c e : entry_ok c e -> written_coin e c = coin_of e.
Proof.
  destruct e as [e|]; [|done]. intros [Hm _]. unfold written_coin, coin_of. cbn [mbind option_bind].
  destruct (IsSpent e); [done|]. destruct (isModified e); [done|]. by destruct (Hm eq_refl) as [_ ->].
Qed.

Lemma get_in_empty (l : list (gmap OutPoint (option UtxoEntry))) o : get_in (map (fun _ => ∅) l) o = None.
Proof. induction l as [|m l IH]; [done|]. cbn [map get_in]. by rewrite lookup_empty. Qed.

(** A flush makes the database equal to what the cache stood for, and leaves an
    empty cache that stands for the same. *)
Lemma writeCache_spec s best now :
  wf_cache s ->
  wf_cache (writeCache s best now) /\ db (writeCache s best now) = chain_utxos s
  /\ chain_utxos (writeCache s best now) = chain_utxos s.
Proof.
  intros [[Hp Hl Hs] Hw].
  assert (Hdb : db (writeCache s best now) = chain_utxos s).
  { apply map_eq. intros o. cbn [writeCache db]. rewrite lookup_write_maps, lookup_chain by done. unfold ms_get.
    destruct (get_in (maps (cachedEntries s)) o) as [e|] eqn:He; [|done]. apply written_coin_ok. by apply Hw. }
  assert (Hget : forall o, ms_get (cachedEntries (writeCache s best now)) o = None).
  { intros o. unfold ms_get, writeCache, deleteMaps. cbn [cachedEntries maps].
    destruct (maps (cachedEntries s)) as [|m l]; [done|]. cbn [map take get_in]. by rewrite lookup_empty. }
  split_and!; [|done|].
  - split; [|intros o e; by rewrite Hget]. unfold writeCache, deleteMaps. cbn [cachedEntries].
    destruct (cachedEntries s) as [l n t]. cbn [maps maxEntries] in *. destruct l as [|m l], n as [|k n]; try done.
  - apply map_eq. intros o. by rewrite lookup_chain, Hget, Hdb.
Qed.

Lemma flush_spec {E : Type} s mode best now :
  exists s', flush (E := E) s mode best now = Ok s'
    /\ (s' = writeCache s best now \/ (s' = s /\ mode <> FlushRequired)).
Proof.
  assert (Hrun : forall t, exists u : Z, 0 <= u
    /\ (let! usage := totalMemoryUsage s in Ok (if t <=? usage then writeCache s best now else s))
       = Ok (E := E) (if t <=? u then writeCache s best now else s)).
  { intros t. unfold totalMemoryUsage, ms_size. destruct (ms_size_from_ok (E := E) (maxEntries (cachedEntries s))) as [r ->].
    cbn [rbind]. eexists. split; [|done]. unfold uint64, wrap_u. apply Z.mod_pos_bound. lia. }
  unfold flush. destruct mode.
  - destruct (Hrun 0) as (u & Hu & ->). eexists. split; [done|]. left. by destruct (Z.leb_spec 0 u); [|lia].
  - destruct (Hrun (if utxoFlushPeriodicInterval <? now - lastFlushTime s then 0 else uc_maxTotalMemoryUsage s)) as (u & _ & ->).
    eexists. split; [done|]. destruct (_ <=? u); [by left|by right].
  - destruct (bytes_eqb best (lastFlushHash s)); [eexists; split; [done|by right]|].
    destruct (Hrun (uc_maxTotalMemoryUsage s)) as (u & _ & ->).
    eexists. split; [done|]. destruct (_ <=? u); [by left|by right].
Qed.

Lemma newUtxoCache_wf d status max :
  wf_cache (newUtxoCache d status max) /\ chain_utxos (newUtxoCache d status max) = d.
Proof.
  split.
  - split; [split; [|done|done]|]; cbn; [|intros o e; by rewrite lookup_empty]. by split.
  - apply map_eq. intros o. rewrite lookup_chain. unfold ms_get. cbn. by rewrite lookup_empty.
Qed.

End CacheProofs.
