(* ===== verification/ChainState.v ===== *)
(** * The chain's set of unspent outputs ([blockchain/chain.go], [blockchain/utxoviewpoint.go],
      [blockchain/utxocache.go], [blockchain/chainio.go])

    How the chain connects and disconnects blocks: views are filled from the
    cache, connected blocks go through the cache, disconnected ones through a view
    written straight to the database, and after an unclean shutdown the set is
    rebuilt from the last flush.  Of the chain's state this file has the cache with
    its database, the spend journal, the anchored outputs and the best chain; block index, contract
    state, optional indexes and notifications are not part of it. *)

From Stdlib Require Import ZArith Lia.
From stdpp Require Import base list numbers option strings gmap sets.
From S2P Require Import Prelude ScriptNum Tokenizer ScriptBuilder ScriptStd Sha Wire SigHash Block Utxo AnchorStore UtxoCache.

Section Chain.
Context `{D : DecimalOps}.

(** ** Filling views from the cache *)

Definition set_entries (view : UtxoViewpoint) (l : list (OutPoint * option UtxoEntry)) : UtxoViewpoint :=
  foldl (fun view p => set_entry view p.1 p.2) view l.

Definition fetchUtxosFromCache {E : Type} (view : UtxoViewpoint) (cache : utxoCache) (outpoints : list OutPoint)
    : result E (UtxoViewpoint * utxoCache) :=
  if len outpoints =? 0 then Ok (view, cache)
  else
    let! '(entries, cache) := fetchEntries cache outpoints in
    Ok (set_entries view (zip outpoints entries), cache).

Definition fetchUtxos {E : Type} (view : UtxoViewpoint) (cache : utxoCache) (outpoints : list OutPoint)
    : result E (UtxoViewpoint * utxoCache) :=
  if len outpoints =? 0 then Ok (view, cache)
  else fetchUtxosFromCache view cache (List.filter (fun o => negb (non_nil (entries view !! o))) outpoints).

(** [txInFlight]: the index of each transaction of the block by its hash. *)
Definition in_flight (txs : list MsgTx) : gmap bytes nat :=
  foldl (fun m p => <[TxHash p.2 := p.1]> m) ∅ (indexed txs).

(** The state of the scan: the view, the parents already loaded and the outpoints
    to fetch. *)
Definition scan : Type := UtxoViewpoint * gset nat * list OutPoint.

(** The loop over the inputs of the transaction of index [i] after the coinbase. *)
Fixpoint scan_inputs (txs : list MsgTx) (flight : gmap bytes nat) (height : Z) (i : nat) (ins : list TxIn)
    (st : scan) : scan :=
  match ins with
  | [] => st
  | ti :: ins =>
      let o := PreviousOutPoint ti in
      let '(view, loaded, needed) := st in
      let request := if non_nil (entries view !! o) then st else (view, loaded, needed ++ [o]) in
      let st :=
        match flight !! Hash o with
        | Some k =>
            if bool_decide (k <= i)%nat then
              if bool_decide (k ∈ loaded) then st
              else
                match txs !! k with
                | Some originTx => (AddTxOuts view originTx height, {[k]} ∪ loaded, needed)
                | None => st
                end
            else request
        | None => request
        end in
      scan_inputs txs flight height i ins st
  end.

Fixpoint scan_txs (txs : list MsgTx) (flight : gmap bytes nat) (height : Z) (i : nat) (rest : list MsgTx)
    (st : scan) : scan :=
  match rest with
  | [] => st
  | tx :: rest =>
      let st := if negb (transactionConsumesSpendJournal tx false) then st
                else scan_inputs txs flight height i (TxIns tx) st in
      scan_txs txs flight height (S i) rest st
  end.

(** The slice [transactions[1:]] panics on an empty block. *)
Definition findInputsToFetch {E : Type} (view : UtxoViewpoint) (txs : list MsgTx) (height : Z)
    : result E (UtxoViewpoint * list OutPoint) :=
  match txs with
  | [] => Panic
  | _ :: rest =>
      let '(view, _, needed) := scan_txs txs (in_flight txs) height 0 rest (view, ∅, []) in
      Ok (view, needed)
  end.

Definition fetchInputUtxos {E : Type} (view : UtxoViewpoint) (cache : utxoCache) (txs : list MsgTx) (height : Z)
    : result E (UtxoViewpoint * utxoCache) :=
  let! '(view, needed) := findInputsToFetch view txs height in
  fetchUtxosFromCache view cache needed.

Definition FetchUtxoView {E : Type} (cache : utxoCache) (tx : MsgTx) : result E (UtxoViewpoint * utxoCache) :=
  let outs := imap (fun i _ => mkOutPoint (TxHash tx) (uint32 (Z.of_nat i))) (TxOuts tx) in
  let ins := if negb (IsCoinBaseTx tx) && negb (IsAnchorTx tx) then map PreviousOutPoint (TxIns tx) else [] in
  fetchUtxosFromCache NewUtxoViewpoint cache (outs ++ ins).

Definition FetchUtxoEntry {E : Type} (cache : utxoCache) (outpoint : OutPoint)
    : result E (option UtxoEntry * utxoCache) :=
  let! '(entries, cache) := fetchEntries cache [outpoint] in
  let! e := unwrap (entries !! 0%nat) in
  Ok (e, cache).

(** ** Writing a view *)

Definition put_view_entry (o : OutPoint) (e : option UtxoEntry) (database : gmap OutPoint SpentTxOut)
    : gmap OutPoint SpentTxOut :=
  match e with
  | None => database
  | Some e => if negb (isModified e) then database
              else if IsSpent e then delete o database
              else <[o := spent_txout e]> database
  end.

(** The keys of a view are different, so the order of the iteration does not
    matter. *)
Definition dbPutUtxoView (view : UtxoViewpoint) (database : gmap OutPoint SpentTxOut) : gmap OutPoint SpentTxOut :=
  map_fold put_view_entry database (entries view).

(** ** Connecting and disconnecting *)

(** A block of the best chain with its height. *)
Definition chainBlock : Type := MsgBlock * Z.
Definition block_hash (b : chainBlock) : bytes := MsgBlock_BlockHash b.1.

(** [baseHash] is the block below the blocks of [bestChain]. *)
Record ChainState : Type := mkChainState {
  cache : utxoCache;
  spendJournal : gmap bytes (list SpentTxOut);
  anchorTxs : gmap bytes bytes;
  baseHash : bytes;
  bestChain : list chainBlock;
}.

Definition tip_hash (base : bytes) (chain : list chainBlock) : bytes := default base (block_hash <$> last chain).

(** [chaincfg.Params.POSV2Active] with its activation height. *)
Context (POSV2Height : Z).
Definition POSV2Active (height : Z) : bool := (0 <? POSV2Height) && (POSV2Height <=? height).

Context (GetLockedTxInfo : MsgTx -> bool -> result ChainError AnchorInfo).
Context (dbFetchUtxoEntryByHash : bytes -> result ChainError (option UtxoEntry)).

Definition with_cache (st : ChainState) (c : utxoCache) : ChainState :=
  mkChainState c (spendJournal st) (anchorTxs st) (baseHash st) (bestChain st).

(** [connectBlock], with pruning off.  What it also does acts on state this model
    does not have: block index, best-state record, contract states, optional
    indexes, the asset indexer, notifications.  From POS v2 on the database also
    syncs its files once the block is connected; a failure of that sync, which stops
    the node until it is repaired, is not modelled. *)
Definition connectBlock (st : ChainState) (b : chainBlock) (stxos : list SpentTxOut) (anchorTxInfos : list AnchorTxInfo)
    (now : Z) : result ChainError ChainState :=
  if negb (bytes_eqb (PrevBlock (Header b.1)) (tip_hash (baseHash st) (bestChain st))) then Err AssertError
  else if negb (len stxos =? countSpentOutputs (Transactions b.1)) then Err AssertError
  else
    let! c := (if POSV2Active b.2 then flush (cache st) FlushRequired (block_hash b) now else Ok (cache st)) in
    let journal := <[block_hash b := stxos]> (spendJournal st) in
    let anchors := foldl dbPutAnchorTxInfo (anchorTxs st) anchorTxInfos in
    let! c := flush c FlushIfNeeded (block_hash b) now in
    Ok (mkChainState c journal anchors (baseHash st) (bestChain st ++ [b])).

(** The block goes into the cache and then into the best chain: the last steps of
    [connectBestChain] and of [reorganizeChain]. *)
Definition attachBlock (st : ChainState) (b : chainBlock) (now : Z) : result ChainError ChainState :=
  let! '(c, stxos, anchors) :=
    cache_connectTransactions GetLockedTxInfo (cache st) (Transactions b.1) b.2 (Some []) (Some [])
      (POSV2Active b.2) in
  connectBlock (with_cache st c) b (default [] stxos) (default [] anchors) now.

(** The last loop of [disconnectBlock]. *)
Fixpoint delete_anchors (bucket : gmap bytes bytes) (bindOutputs : bool) (txs : list MsgTx) : result ChainError (gmap bytes bytes) :=
  match txs with
  | [] => Ok bucket
  | tx :: txs =>
      if negb (IsAnchorTx tx) then delete_anchors bucket bindOutputs txs
      else
        let! lockedInfo := GetLockedTxInfo tx bindOutputs in
        let! bucket := dbDeleteAnchorTxInfo bucket (ai_Utxo lockedInfo) (TxID tx) in
        delete_anchors bucket bindOutputs txs
  end.

(** [disconnectBlock] of the last block of the best chain, with the same parts left
    out. *)
Definition disconnectBlock (st : ChainState) (b : chainBlock) (view : UtxoViewpoint) (now : Z)
    : result ChainError (ChainState * UtxoViewpoint) :=
  if negb (bytes_eqb (block_hash b) (tip_hash (baseHash st) (bestChain st))) then Err AssertError
  else
    let! c := flush (cache st) FlushRequired (PrevBlock (Header b.1)) now in
    let c := mkUtxoCache (dbPutUtxoView view (db c)) (utxoStateConsistency c) (uc_maxTotalMemoryUsage c)
               (cachedEntries c) (totalEntryMemory c) (lastFlushHash c) (lastFlushTime c) in
    let! anchors := delete_anchors (anchorTxs st) (POSV2Active b.2) (Transactions b.1) in
    Ok (mkChainState c (delete (block_hash b) (spendJournal st)) anchors (baseHash st) (removelast (bestChain st)),
        commit view).

(** The first loop of [reorganizeChain], with the journal entries loaded before. *)
Fixpoint detachBlocks (st : ChainState) (view : UtxoViewpoint) (l : list (chainBlock * list SpentTxOut)) (now : Z)
    : result ChainError ChainState :=
  match l with
  | [] => Ok st
  | (b, stxos) :: l =>
      let! '(view, c) := fetchInputUtxos view (cache st) (Transactions b.1) b.2 in
      let! view := disconnectTransactions dbFetchUtxoEntryByHash view b.1 b.2 stxos in
      let! '(st, view) := disconnectBlock (with_cache st c) b view now in
      detachBlocks st view l now
  end.

Fixpoint attachBlocks (st : ChainState) (l : list chainBlock) (now : Z) : result ChainError ChainState :=
  match l with
  | [] => Ok st
  | b :: l =>
      let! st := attachBlock st b now in
      attachBlocks st l now
  end.

(** The journal entry of a block; a block that spends nothing needs none.  The repair
    of entries that older nodes wrote without assets is not modelled. *)
Definition dbFetchSpendJournalEntry (journal : gmap bytes (list SpentTxOut)) (b : chainBlock)
    : result ChainError (list SpentTxOut) :=
  match Transactions b.1 with
  | [] => Panic
  | _ :: _ =>
      let stxos := default [] (journal !! block_hash b) in
      if (len stxos =? 0) && negb (countSpentOutputs (Transactions b.1) =? 0) then Err AssertError else Ok stxos
  end.

(** What [verifyReorganizationValidity] loads for the blocks to detach. *)
Fixpoint load_journals (journal : gmap bytes (list SpentTxOut)) (l : list chainBlock)
    : result ChainError (list (chainBlock * list SpentTxOut)) :=
  match l with
  | [] => Ok []
  | b :: l =>
      let! stxos := dbFetchSpendJournalEntry journal b in
      let! l := load_journals journal l in
      Ok ((b, stxos) :: l)
  end.

(** Its first checks: the blocks to detach end the best chain, and both branches
    leave the same block. *)
Definition reorg_matches (st : ChainState) (detach attach : list chainBlock) : bool :=
  match detach with
  | [] => true
  | b :: _ => bytes_eqb (block_hash b) (tip_hash (baseHash st) (bestChain st))
  end
  && match attach, last detach with
     | a :: _, Some b => bytes_eqb (PrevBlock (Header a.1)) (PrevBlock (Header b.1))
     | _, _ => true
     end.

(** [reorganizeChain], the detached blocks last block first.  That the blocks to
    attach are valid, which [verifyReorganizationValidity] checks as well, is left to
    the rules for blocks. *)
Definition reorganizeChain (st : ChainState) (detach attach : list chainBlock) (now : Z) : result ChainError ChainState :=
  if negb (reorg_matches st detach attach) then Err AssertError
  else
    let! journals := load_journals (spendJournal st) detach in
    let view := SetBestHash NewUtxoViewpoint (tip_hash (baseHash st) (bestChain st)) in
    let! st := detachBlocks st view journals now in
    attachBlocks st attach now.

(** ** Recovery after a shutdown *)

(** The blocks after the one with hash [h], walking back from the tip; [base] is
    the block below the chain. *)
Fixpoint blocks_after (h : bytes) (l : list chainBlock) : option (list chainBlock) :=
  match l with
  | [] => None
  | b :: l => if bytes_eqb (block_hash b) h then Some l else blocks_after h l
  end.

Definition attachNodes (base h : bytes) (l : list chainBlock) : option (list chainBlock) :=
  if bytes_eqb h base then Some l else blocks_after h l.

Fixpoint replay (c : utxoCache) (l : list chainBlock) (now : Z) : result ChainError utxoCache :=
  match l with
  | [] => Ok c
  | b :: l =>
      let! '(c, _, _) := cache_connectTransactions GetLockedTxInfo c (Transactions b.1) b.2 None None (POSV2Active b.2) in
      let! c := flush c FlushIfNeeded (block_hash b) now in
      replay c l now
  end.

Definition set_flushed (c : utxoCache) (h : bytes) (now : Z) : utxoCache :=
  mkUtxoCache (db c) (utxoStateConsistency c) (uc_maxTotalMemoryUsage c) (cachedEntries c) (totalEntryMemory c) h now.

(** [InitConsistentState] on a new cache; a status hash that is not on the best
    chain is an error here. *)
Definition InitConsistentState (base : bytes) (c : utxoCache) (chain : list chainBlock) (now : Z)
    : result ChainError utxoCache :=
  let tip := tip_hash base chain in
  match utxoStateConsistency c with
  | None =>
      Ok (set_flushed (mkUtxoCache (db c) (Some tip) (uc_maxTotalMemoryUsage c) (cachedEntries c)
                         (totalEntryMemory c) (lastFlushHash c) (lastFlushTime c)) tip now)
  | Some statusHash =>
      if bytes_eqb statusHash tip then Ok (set_flushed c tip now)
      else
        match attachNodes base statusHash chain with
        | None => Err AssertError
        | Some nodes =>
            let! c := replay c nodes now in
            Ok (set_flushed c tip now)
        end
  end.

(** [flushNeededAfterPrune]: [height_of] is the block index. *)
Definition flushNeededAfterPrune (height_of : bytes -> option Z) (c : utxoCache) (deletedBlockHashes : list bytes) : bool :=
  match height_of (lastFlushHash c) with
  | None => true
  | Some lastFlushHeight =>
      let highest := foldl (fun m h => match height_of h with Some x => if m <? x then x else m | None => m end)
                       (-1) deletedBlockHashes in
      lastFlushHeight <=? highest
  end.

End Chain.

Section ChainProofs.
Context `{D : DecimalOps}.

(** ** Views over the chain's coins *)

(** The outpoints of the spendable outputs. *)
Fixpoint out_points (hash : bytes) (i : Z) (outs : list TxOut) : list OutPoint :=
  match outs with
  | [] => []
  | out :: outs => if unspendable (PkScript out) then out_points hash (i + 1) outs
                   else outpoint_at hash i :: out_points hash (i + 1) outs
  end.

Definition tx_points (tx : MsgTx) : list OutPoint := out_points (TxHash tx) 0 (TxOuts tx).
Definition block_points (txs : list MsgTx) : list OutPoint := concat (map tx_points txs).

Lemma lookup_add_coins U hash i outs cb h o :
  o ∉ out_points hash i outs -> add_coins U hash i outs cb h !! o = U !! o.
Proof.
  revert U i. induction outs as [|out outs IH]; intros U i Ho; [done|]. cbn [add_coins out_points] in *.
  destruct (unspendable (PkScript out)); [by apply IH|]. apply not_elem_of_cons in Ho as [Hne Ho].
  rewrite IH by done. rewrite lookup_insert_ne; [done|]. intros He. by apply Hne.
Qed.

Lemma lookup_del_coins U hash i outs o :
  del_coins U hash i outs !! o = if decide (o ∈ out_points hash i outs) then None else U !! o.
Proof.
  revert U i. induction outs as [|out outs IH]; intros U i; [done|]. cbn [del_coins out_points].
  destruct (unspendable (PkScript out)); rewrite IH; [done|].
  destruct (decide (o ∈ out_points hash (i + 1) outs)) as [Hin|Hin].
  - rewrite decide_True; [done|]. by apply elem_of_cons; right.
  - destruct (decide (o = outpoint_at hash i)) as [->|Hne].
    + rewrite decide_True by (by apply elem_of_cons; left). by rewrite lookup_delete_eq.
    + rewrite lookup_delete_ne by (intros He; by apply Hne). rewrite decide_False; [done|]. intros [?|?]%elem_of_cons; done.
Qed.

Lemma restore_coins_agree l U W o : U !! o = W !! o -> restore_coins U l !! o = restore_coins W l !! o.
Proof.
  revert U W. induction l as [|p l IH]; intros U W Ho; [done|]. cbn [restore_coins foldl]. apply IH.
  rewrite !lookup_insert. by destruct (decide _).
Qed.

(** Rewinding a block does not depend on what is under the outputs it made. *)
Lemma rewind_agree L U W :
  (forall o, o ∉ concat (map (fun p => tx_points p.1) L) -> U !! o = W !! o) -> rewind U L = rewind W L.
Proof.
  revert U W. induction L as [|p L IH]; intros U W Ho; [by apply map_eq; intros o; apply Ho, not_elem_of_nil|].
  cbn [rewind foldl]. apply IH. intros o Hin. unfold before_tx. apply restore_coins_agree.
  rewrite !lookup_del_coins. fold (tx_points p.1). destruct (decide (o ∈ tx_points p.1)) as [|Hp]; [done|].
  apply Ho. cbn [map concat]. intros [?|?]%elem_of_app; done.
Qed.

Lemma faithful_addTxOuts B outs view hash i cb h :
  faithful B view -> faithful B (addTxOuts_from view hash i outs cb h).
Proof.
  revert view i. induction outs as [|out outs IH]; intros view i Hf; [done|]. cbn [addTxOuts_from]. apply IH.
  unfold addTxOut. destruct (unspendable _); [done|]. apply faithful_set; [done|]. by destruct cb.
Qed.

(** [view] says what [B] says except under the outpoints [P]. *)
Definition agrees_but (P : list OutPoint) (B : gmap OutPoint SpentTxOut) (view : UtxoViewpoint) : Prop :=
  faithful B view /\ forall o, o ∉ P -> over B view !! o = B !! o.

Lemma tx_points_in txs k tx o : txs !! k = Some tx -> o ∈ tx_points tx -> o ∈ block_points txs.
Proof.
  intros Hk Ho. unfold block_points. apply list_elem_of_In, in_concat. exists (tx_points tx).
  split; [|by apply list_elem_of_In]. apply in_map, list_elem_of_In. by eapply list_elem_of_lookup_2.
Qed.

Lemma scan_inputs_agrees txs flight h i ins B st :
  agrees_but (block_points txs) B st.1.1 -> agrees_but (block_points txs) B (scan_inputs txs flight h i ins st).1.1.
Proof.
  revert st. induction ins as [|ti ins IH]; intros [[view loaded] needed] Hv; [done|]. cbn [scan_inputs]. apply IH.
  assert (Hr : agrees_but (block_points txs) B (if non_nil (entries view !! PreviousOutPoint ti)
    then (view, loaded, needed) else (view, loaded, needed ++ [PreviousOutPoint ti])).1.1) by (by destruct (non_nil _)).
  destruct (flight !! _) as [k|]; [|done]. destruct (bool_decide (k <= i)%nat); [|done].
  destruct (bool_decide (k ∈ loaded)); [done|]. destruct (txs !! k) as [tx|] eqn:Hk; [|done]. cbn [fst].
  destruct Hv as [Hf Ho]. split; [by apply faithful_addTxOuts|]. intros o Hin. unfold AddTxOuts.
  rewrite over_addTxOuts, lookup_add_coins; [by apply Ho|]. intros Hp. apply Hin. by eapply tx_points_in.
Qed.

Lemma scan_txs_agrees txs flight h i rest B st :
  agrees_but (block_points txs) B st.1.1 -> agrees_but (block_points txs) B (scan_txs txs flight h i rest st).1.1.
Proof.
  revert i st. induction rest as [|tx rest IH]; intros i st Hv; [done|]. cbn [scan_txs]. apply IH.
  destruct (negb _); [done|]. by apply scan_inputs_agrees.
Qed.

Lemma set_entries_agrees P B view ops es :
  map coin_of es = map (fun o => B !! o) ops -> agrees_but P B view -> agrees_but P B (set_entries view (zip ops es)).
Proof.
  revert view es. induction ops as [|o ops IH]; intros view [|e es] Hes Hv; try done.
  cbn [map] in Hes. injection Hes as He Hes. cbn [zip zip_with set_entries foldl fst snd]. apply IH; [done|].
  destruct Hv as [Hf Ho]. split.
  - intros o' e'. unfold set_entry. cbn [entries]. intros [[<- <-]|[_ He']]%lookup_insert_Some; [done|by apply Hf].
  - intros o' Ho'. rewrite over_set, lookup_partial_alter, He. destruct (decide _) as [->|]; [done|by apply Ho].
Qed.

(** Filling a view for a block keeps what it says outside the block's outputs, and
    what the cache stands for. *)
Lemma fetchInputUtxos_spec {E : Type} view c tx txs h :
  wf_cache c -> agrees_but [] (chain_utxos c) view ->
  exists view' c', fetchInputUtxos (E := E) view c (tx :: txs) h = Ok (view', c')
    /\ agrees_but (block_points (tx :: txs)) (chain_utxos c) view'
    /\ wf_cache c' /\ chain_utxos c' = chain_utxos c /\ same_disk c c'.
Proof.
  intros Hw [Hf Ho]. unfold fetchInputUtxos, findInputsToFetch.
  pose proof (scan_txs_agrees (tx :: txs) (in_flight (tx :: txs)) h 0 txs (chain_utxos c) (view, ∅, [])) as Hs.
  destruct (scan_txs _ _ _ _ _ _) as [[view1 loaded] needed]. cbn [rbind fst] in *.
  assert (H1 : agrees_but (block_points (tx :: txs)) (chain_utxos c) view1).
  { apply Hs. split; [done|]. intros o _. apply Ho, not_elem_of_nil. }
  unfold fetchUtxosFromCache. destruct (len needed =? 0); [by exists view1, c|].
  destruct (fetchEntries_spec (E := E) c needed Hw) as (es & c' & -> & Hw' & Hc' & Hd' & Hes & _). cbn [rbind].
  eexists _, c'. split; [done|]. split; [by apply set_entries_agrees|done].
Qed.

(** ** Writing and committing a view *)

Lemma lookup_put_view view B o :
  dbPutUtxoView view B !! o
  = match entries view !! o with
    | Some (Some e) => if isModified e then coin_of (Some e) else B !! o
    | _ => B !! o
    end.
Proof.
  unfold dbPutUtxoView. generalize (entries view) as m. intros m. revert o.
  apply (map_fold_weak_ind (fun r m => forall o, r !! o = match m !! o with
    | Some (Some e) => if isModified e then coin_of (Some e) else B !! o | _ => B !! o end)); [done|].
  intros i x m0 r Hi IH o. unfold put_view_entry. destruct (decide (o = i)) as [->|Hne].
  - rewrite lookup_insert_eq. specialize (IH i). rewrite Hi in IH. destruct x as [e|]; [|done].
    unfold coin_of. cbn [mbind option_bind]. destruct (isModified e); cbn [negb]; [|done].
    destruct (IsSpent e); [apply lookup_delete_eq|apply lookup_insert_eq].
  - rewrite lookup_insert_ne by done. destruct x as [e|]; [|apply IH]. destruct (negb _); [apply IH|].
    destruct (IsSpent e); [rewrite lookup_delete_ne by done|rewrite lookup_insert_ne by done]; apply IH.
Qed.

Lemma dbPutUtxoView_over view B : faithful B view -> dbPutUtxoView view B = over B view.
Proof.
  intros Hf. apply map_eq. intros o. rewrite lookup_put_view. unfold over. rewrite lookup_overlay.
  destruct (entries view !! o) as [[e|]|] eqn:He; [|symmetry; by apply (Hf o None)|done].
  destruct (isModified e) eqn:Hm; [done|]. symmetry. apply (Hf o (Some e)); [done|]. congruence.
Qed.

Lemma coin_commit e e' : commit_entry e = Some e' -> coin_of e' = coin_of e.
Proof.
  destruct e as [e|]; [|done]. cbn [commit_entry]. destruct (isModified e && IsSpent e); [done|]. intros [= <-].
  unfold coin_of. cbn [mbind option_bind]. unfold IsSpent, spent_txout, IsCoinBase, has_flag, set_flags. cbn [packedFlags amount txAssets pkScript entryHeight].
  assert (Hl : forall f, Z.land tfModified f = 0 -> Z.land (Z.lxor (packedFlags e) tfModified) f = Z.land (packedFlags e) f).
  { intros f Hf. apply Z.bits_inj'. intros n Hn. rewrite !Z.land_spec, Z.lxor_spec.
    assert (Hb : Z.testbit (Z.land tfModified f) n = false) by (rewrite Hf; apply Z.bits_0). rewrite Z.land_spec in Hb.
    by destruct (Z.testbit (packedFlags e) n), (Z.testbit tfModified n), (Z.testbit f n). }
  rewrite !Hl by done. done.
Qed.

Lemma commit_agrees B U view : over B view = U -> agrees_but [] U (commit view).
Proof.
  intros Hu.
  assert (Ha : forall o e, entries (commit view) !! o = Some e -> coin_of e = U !! o).
  { intros o e. unfold commit. cbn [entries]. rewrite lookup_omap. destruct (entries view !! o) as [e0|] eqn:He; [|done].
    cbn [mbind option_bind]. intros Hc. rewrite (coin_commit _ _ Hc), <- Hu. unfold over. by rewrite lookup_overlay, He. }
  split; [intros o e He _; by apply Ha|]. intros o _. unfold over. rewrite lookup_overlay.
  destruct (entries (commit view) !! o) eqn:He; [by apply Ha|done].
Qed.

(** ** The ledger *)

(** What the best chain stands for: its tip, its unspent outputs, the entries of
    its anchors, and the transactions and blocks it has. *)
Record Ledger : Type := mkLedger {
  l_tip : bytes;
  l_utxos : gmap OutPoint SpentTxOut;
  l_anchors : gmap bytes bytes;
  l_txs : gset bytes;
  l_blocks : gset bytes;
}.

Context (GetLockedTxInfo : MsgTx -> bool -> result ChainError AnchorInfo) (POSV2Height : Z).

(** The entries of the anchors of a block. *)
Definition anchors_of (b : chainBlock) : list AnchorTxInfo :=
  block_anchors GetLockedTxInfo (POSV2Active POSV2Height b.2) (Transactions b.1).

Definition next (L : Ledger) (b : chainBlock) : Ledger :=
  mkLedger (block_hash b) (after_txs (l_utxos L) (Transactions b.1) b.2)
    (foldl dbPutAnchorTxInfo (l_anchors L) (anchors_of b))
    (list_to_set (map TxHash (Transactions b.1)) ∪ l_txs L) ({[block_hash b]} ∪ l_blocks L).

Definition ledger (L : Ledger) (chain : list chainBlock) : Ledger := foldl next L chain.

(** The anchor transactions of a block can be read and have records of the
    expected size. *)
Definition anchors_readable (bindOutputs : bool) (txs : list MsgTx) : Prop :=
  Forall (fun tx => IsAnchorTx tx = true -> exists i, GetLockedTxInfo tx bindOutputs = Ok i /\ wf_anchor (anchor_entry tx i)) txs.

(** A block that extends the ledger: new, on the tip, with transactions that fit
    the unspent outputs, that the ledger does not have, and that anchor outputs
    it has not anchored. *)
Record accepts (L : Ledger) (b : chainBlock) : Prop := {
  acc_prev : PrevBlock (Header b.1) = l_tip L;
  acc_new : block_hash b ∉ l_blocks L;
  acc_fit : all_fit true (l_utxos L) (Transactions b.1) b.2;
  acc_some : Transactions b.1 <> [];
  acc_txs : Forall (fun tx => TxHash tx ∉ l_txs L) (Transactions b.1);
  acc_anchors : anchors_readable (POSV2Active POSV2Height b.2) (Transactions b.1);
  acc_locked : NoDup (map LockedUtxo (anchors_of b));
  acc_unlocked : Forall (fun a => l_anchors L !! LockedUtxo a = None) (anchors_of b);
}.

Fixpoint valid_chain (L : Ledger) (chain : list chainBlock) : Prop :=
  match chain with
  | [] => True
  | b :: chain => accepts L b /\ valid_chain (next L b) chain
  end.

(** The ledger knows the transactions of its outputs, and its tip. *)
Record covers (L : Ledger) : Prop := {
  cov_txs : forall o c, l_utxos L !! o = Some c -> Hash o ∈ l_txs L;
  cov_tip : l_tip L ∈ l_blocks L;
}.

Lemma valid_chain_app L c1 c2 : valid_chain L (c1 ++ c2) <-> valid_chain L c1 /\ valid_chain (ledger L c1) c2.
Proof.
  revert L. induction c1 as [|b c1 IH]; intros L; cbn [app valid_chain ledger foldl]; [tauto|].
  rewrite IH. unfold ledger. tauto.
Qed.

Lemma ledger_app L c1 c2 : ledger L (c1 ++ c2) = ledger (ledger L c1) c2.
Proof. apply foldl_app. Qed.

Lemma add_coins_hash U hash i outs cb h o c :
  add_coins U hash i outs cb h !! o = Some c -> Hash o = hash \/ U !! o = Some c.
Proof.
  revert U i. induction outs as [|out outs IH]; intros U i; cbn [add_coins]; [by right|].
  intros [?|Ho]%IH; [by left|]. destruct (unspendable _); [by right|].
  apply lookup_insert_Some in Ho as [[<- _]|[_ ?]]; [by left|by right].
Qed.

Lemma spend_coins_subset U ins o c : spend_coins U ins !! o = Some c -> U !! o = Some c.
Proof.
  revert U. induction ins as [|ti ins IH]; intros U; [done|]. cbn [spend_coins foldl]. intros [_ H]%IH%lookup_delete_Some.
  exact H.
Qed.

Lemma after_txs_hash txs U h o c :
  after_txs U txs h !! o = Some c -> Hash o ∈ map TxHash txs \/ U !! o = Some c.
Proof.
  revert U. induction txs as [|tx txs IH]; intros U; cbn [after_txs map]; [by right|].
  intros [?|Ho]%IH; [left; by apply elem_of_cons; right|].
  unfold after_tx in Ho. apply add_coins_hash in Ho as [->|Ho]; [left; by apply elem_of_cons; left|].
  right. destruct (transactionConsumesSpendJournal _ _); [by eapply spend_coins_subset|done].
Qed.

Lemma covers_next L b : covers L -> covers (next L b).
Proof.
  intros [Ht Hb]. split; cbn [next l_utxos l_txs l_tip l_blocks]; [|set_solver].
  intros o c [Hin|Ho]%after_txs_hash; [|by apply elem_of_union; right; eapply Ht].
  apply elem_of_union. left. by apply elem_of_list_to_set.
Qed.

Lemma covers_ledger L chain : covers L -> covers (ledger L chain).
Proof. revert L. induction chain as [|b chain IH]; intros L Hc; [done|]. by apply IH, covers_next. Qed.

Lemma ledger_mono L chain : l_txs L ⊆ l_txs (ledger L chain) /\ l_blocks L ⊆ l_blocks (ledger L chain).
Proof.
  revert L. induction chain as [|b chain IH]; intros L; [done|]. destruct (IH (next L b)) as [H1 H2].
  split; (etransitivity; [|eassumption]); apply union_subseteq_r.
Qed.

Lemma tip_ledger L chain : l_tip (ledger L chain) = tip_hash (l_tip L) chain.
Proof.
  destruct (decide (chain = [])) as [->|Hne]; [done|]. destruct (exists_last Hne) as (pre & b & ->).
  rewrite ledger_app. unfold tip_hash. by rewrite last_snoc.
Qed.

(** *** The anchors of a block, put and deleted *)

Lemma lookup_put_anchors l A k : k ∉ map LockedUtxo l -> foldl dbPutAnchorTxInfo A l !! k = A !! k.
Proof.
  revert A. induction l as [|a l IH]; intros A Hk; [done|]. cbn [map] in Hk. apply not_elem_of_cons in Hk as [Hne Hk].
  cbn [foldl]. rewrite IH by done. unfold dbPutAnchorTxInfo. by rewrite lookup_insert_ne by congruence.
Qed.

Lemma put_anchors_delete l A k :
  k ∉ map LockedUtxo l -> delete k (foldl dbPutAnchorTxInfo A l) = foldl dbPutAnchorTxInfo (delete k A) l.
Proof.
  revert A. induction l as [|a l IH]; intros A Hk; [done|]. cbn [map] in Hk. apply not_elem_of_cons in Hk as [Hne Hk].
  cbn [foldl]. rewrite IH by done. unfold dbPutAnchorTxInfo. by rewrite delete_insert_ne by congruence.
Qed.

Lemma block_anchors_cons bind tx txs :
  block_anchors GetLockedTxInfo bind (tx :: txs)
  = tx_anchor GetLockedTxInfo bind tx ++ block_anchors GetLockedTxInfo bind txs.
Proof. done. Qed.

Lemma delete_put_anchors bind txs A :
  anchors_readable bind txs -> NoDup (map LockedUtxo (block_anchors GetLockedTxInfo bind txs)) ->
  Forall (fun a => A !! LockedUtxo a = None) (block_anchors GetLockedTxInfo bind txs) ->
  delete_anchors GetLockedTxInfo (foldl dbPutAnchorTxInfo A (block_anchors GetLockedTxInfo bind txs)) bind txs = Ok A.
Proof.
  induction txs as [|tx txs IH]; intros Hr Hn Hf; [done|]. apply Forall_cons_iff in Hr as [Ha Hr].
  rewrite block_anchors_cons in *. cbn [delete_anchors].
  assert (Hta : tx_anchor GetLockedTxInfo bind tx = if IsAnchorTx tx then match GetLockedTxInfo tx bind with
    Ok i => [anchor_entry tx i] | _ => [] end else []) by done.
  destruct (IsAnchorTx tx); cbn [negb]; [|rewrite Hta in *; by apply IH].
  destruct (Ha eq_refl) as (i & Hi & Hw). rewrite Hi in *. rewrite Hta in *. cbn [rbind app map foldl] in *.
  apply NoDup_cons in Hn as [Hnin Hn]. apply Forall_cons_iff in Hf as [Hfa Hf].
  unfold dbDeleteAnchorTxInfo. change (ai_Utxo i) with (LockedUtxo (anchor_entry tx i)).
  set (a := anchor_entry tx i) in *.
  assert (Hlk : dbPutAnchorTxInfo A a !! LockedUtxo a = Some (serializeAnchorTxInfo a)) by apply lookup_insert_eq.
  assert (Hdel : delete (LockedUtxo a) (dbPutAnchorTxInfo A a) = A) by (by apply delete_insert_id).
  rewrite lookup_put_anchors, Hlk by done.
  rewrite anchor_roundtrip by done. cbn [rbind]. change (AnchorTxid a) with (TxID tx).
  rewrite bytes_eqb_refl. cbn [negb rbind]. rewrite put_anchors_delete, Hdel by done. by apply IH.
Qed.

(** ** The chain implements the ledger *)

(** The state stands for the ledger of its best chain; the database is that of a
    shorter chain, whose tip is recorded with it. *)
Record chain_inv (L0 : Ledger) (st : ChainState) : Prop := {
  ci_base : baseHash st = l_tip L0;
  ci_valid : valid_chain L0 (bestChain st);
  ci_wf : wf_cache (cache st);
  ci_utxos : chain_utxos (cache st) = l_utxos (ledger L0 (bestChain st));
  ci_anchors : anchorTxs st = l_anchors (ledger L0 (bestChain st));
  ci_disk : exists pre post, bestChain st = pre ++ post /\ db (cache st) = l_utxos (ledger L0 pre)
    /\ utxoStateConsistency (cache st) = Some (l_tip (ledger L0 pre));
  ci_journal : forall pre b post, bestChain st = pre ++ b :: post ->
    spendJournal st !! block_hash b = Some (block_journal (l_utxos (ledger L0 pre)) (Transactions b.1) b.2);
}.

Lemma flush_keeps {E : Type} c mode best now :
  wf_cache c ->
  exists c', flush (E := E) c mode best now = Ok c' /\ wf_cache c' /\ chain_utxos c' = chain_utxos c
    /\ ((db c' = db c /\ utxoStateConsistency c' = utxoStateConsistency c /\ mode <> FlushRequired)
        \/ (db c' = chain_utxos c /\ utxoStateConsistency c' = Some best /\ cachedEntries c' = cachedEntries (writeCache c best now))).
Proof.
  intros Hw. destruct (flush_spec (E := E) c mode best now) as (c' & -> & Hc). exists c'. split; [done|].
  destruct (writeCache_spec c best now Hw) as (Hw' & Hd & Hu). destruct Hc as [->|[-> ?]]; split_and!; try done; [right|left]; done.
Qed.

Lemma chain_blocks L pre b post : block_hash b ∈ l_blocks (ledger L (pre ++ b :: post)).
Proof.
  rewrite ledger_app. cbn [ledger foldl]. apply (proj2 (ledger_mono (next (ledger L pre) b) post)).
  cbn [next l_blocks]. set_solver.
Qed.

(** New transactions are not in an older database. *)
Lemma new_not_on_disk L0 pre post txs :
  covers L0 -> Forall (fun tx => TxHash tx ∉ l_txs (ledger L0 (pre ++ post))) txs ->
  Forall (fun tx => forall j, 0 <= j < len (TxOuts tx) -> l_utxos (ledger L0 pre) !! outpoint_at (TxHash tx) j = None) txs.
Proof.
  intros Hc Hn. eapply Forall_impl; [exact Hn|]. intros tx Htx j _.
  destruct (l_utxos (ledger L0 pre) !! outpoint_at (TxHash tx) j) as [c|] eqn:Ho; [|done]. exfalso. apply Htx.
  rewrite ledger_app. apply (proj1 (ledger_mono (ledger L0 pre) post)).
  exact (cov_txs _ (covers_ledger L0 pre Hc) _ _ Ho).
Qed.

Lemma not_on_disk L0 pre post b :
  covers L0 -> accepts (ledger L0 (pre ++ post)) b ->
  Forall (fun tx => forall j, 0 <= j < len (TxOuts tx) -> l_utxos (ledger L0 pre) !! outpoint_at (TxHash tx) j = None)
    (Transactions b.1).
Proof. intros Hc Ha. eapply new_not_on_disk; [exact Hc|exact (acc_txs _ _ Ha)]. Qed.

(** A cache that stands for the same outputs over the same database serves as well. *)
Lemma chain_inv_cache L0 st c :
  chain_inv L0 st -> wf_cache c -> chain_utxos c = chain_utxos (cache st) -> same_disk (cache st) c ->
  chain_inv L0 (with_cache st c).
Proof.
  intros [H1 H2 H3 H4 H5 H6 H7] Hw Hc Hd. split; try done; cbn [with_cache cache bestChain].
  - by rewrite Hc.
  - destruct H6 as (pre & post & ? & ? & ?). exists pre, post. by rewrite (sd_db _ _ Hd), (sd_status _ _ Hd).
Qed.

Lemma readable_known bind txs A : anchors_readable bind txs -> Forall (anchor_known GetLockedTxInfo bind A) txs.
Proof.
  intros Hr. eapply Forall_impl; [exact Hr|]. intros tx Htx. right. intros Ha.
  destruct (Htx Ha) as (i & Hi & _). by exists i.
Qed.

Lemma default_Some {A : Type} (d x : A) : default d (Some x) = x.
Proof. done. Qed.

(** The journal after a block is put. *)
Lemma journal_snoc L0 st b J :
  chain_inv L0 st -> accepts (ledger L0 (bestChain st)) b ->
  J = block_journal (l_utxos (ledger L0 (bestChain st))) (Transactions b.1) b.2 ->
  forall pre b' post, bestChain st ++ [b] = pre ++ b' :: post ->
    <[block_hash b := J]> (spendJournal st) !! block_hash b'
    = Some (block_journal (l_utxos (ledger L0 pre)) (Transactions b'.1) b'.2).
Proof.
  intros Hi Ha -> pre b' post Heq. destruct (decide (post = [])) as [->|Hne].
  - apply app_inj_tail in Heq as [<- <-]. apply lookup_insert_eq.
  - destruct (exists_last Hne) as (post' & x & ->). rewrite app_comm_cons, app_assoc in Heq.
    apply app_inj_tail in Heq as [Heq <-]. rewrite lookup_insert_ne; [by eapply (ci_journal _ _ Hi)|].
    intros Hh. apply (acc_new _ _ Ha). rewrite Hh, Heq. apply chain_blocks.
Qed.

Lemma attachBlock_spec L0 st b now :
  covers L0 -> chain_inv L0 st -> accepts (ledger L0 (bestChain st)) b ->
  exists st', attachBlock POSV2Height GetLockedTxInfo st b now = Ok st' /\ chain_inv L0 st'
    /\ bestChain st' = bestChain st ++ [b].
Proof.
  intros Hcov Hi Ha. destruct (ci_disk _ _ Hi) as (pre & post & Hpp & Hdb & Hst). unfold attachBlock.
  destruct (cache_connect_spec GetLockedTxInfo (POSV2Active POSV2Height b.2) (Transactions b.1) true (cache st) b.2 (Some []) (Some []) (ci_wf _ _ Hi))
    as (c & -> & Hwc & Hdc & Hcc).
  { rewrite (ci_utxos _ _ Hi). apply (acc_fit _ _ Ha). }
  { apply readable_known, (acc_anchors _ _ Ha). }
  { rewrite Hdb. rewrite Hpp in Ha. by eapply not_on_disk. }
  rewrite (ci_utxos _ _ Hi) in *. cbn [rbind option_map app]. rewrite !default_Some. unfold connectBlock. cbn [with_cache baseHash bestChain cache].
  rewrite (ci_base _ _ Hi), <- tip_ledger, (acc_prev _ _ Ha), bytes_eqb_refl. cbn [negb].
  pose proof (journal_count _ _ 0 _ (acc_fit _ _ Ha)) as Hcount. cbn [Nat.add] in Hcount. unfold countSpentOutputs.
  rewrite Hcount, Z.eqb_refl. cbn [negb].
  assert (H1 : exists c1, (if POSV2Active POSV2Height b.2 then flush c FlushRequired (block_hash b) now else Ok c) = Ok (E := ChainError) c1
    /\ wf_cache c1 /\ chain_utxos c1 = chain_utxos c
    /\ ((db c1 = db c /\ utxoStateConsistency c1 = utxoStateConsistency c)
        \/ (db c1 = chain_utxos c /\ utxoStateConsistency c1 = Some (block_hash b)))).
  { destruct (POSV2Active POSV2Height b.2); [|exists c; split_and!; try done; by left].
    destruct (flush_keeps (E := ChainError) c FlushRequired (block_hash b) now Hwc) as (c1 & -> & ? & ? & Hd).
    exists c1. split_and!; try done. destruct Hd as [(? & ? & ?)|(? & ? & ?)]; [by left|by right]. }
  destruct H1 as (c1 & -> & Hw1 & Hu1 & Hd1). cbn [rbind].
  destruct (flush_keeps (E := ChainError) c1 FlushIfNeeded (block_hash b) now Hw1) as (c2 & -> & Hw2 & Hu2 & Hd2). cbn [rbind].
  eexists. split; [done|]. split; [|done].
  assert (Hled : ledger L0 (bestChain st ++ [b]) = next (ledger L0 (bestChain st)) b) by apply ledger_app.
  split; cbn [baseHash bestChain cache anchorTxs spendJournal with_cache].
  - done.
  - apply valid_chain_app. split; [apply (ci_valid _ _ Hi)|]. by split.
  - done.
  - by rewrite Hled, Hu2, Hu1, Hcc.
  - by rewrite Hled, (ci_anchors _ _ Hi).
  - assert (Hnew : forall d s, d = chain_utxos c -> s = Some (block_hash b) -> exists pre0 post0,
      bestChain st ++ [b] = pre0 ++ post0 /\ d = l_utxos (ledger L0 pre0) /\ s = Some (l_tip (ledger L0 pre0))).
    { intros d s -> ->. exists (bestChain st ++ [b]), []. rewrite app_nil_r, Hled, Hcc. done. }
    destruct Hd2 as [(Hd2 & Hs2 & _)|(Hd2 & Hs2 & _)]; [|apply Hnew; congruence].
    destruct Hd1 as [[Hd1 Hs1]|[Hd1 Hs1]]; [|apply Hnew; congruence].
    exists pre, (post ++ [b]). rewrite Hpp, <- app_assoc. split; [done|].
    rewrite Hd2, Hs2, Hd1, Hs1, (sd_db _ _ Hdc), (sd_status _ _ Hdc). done.
  - by eapply journal_snoc.
Qed.

Context (dbFetchUtxoEntryByHash : bytes -> result ChainError (option UtxoEntry)).

Lemma block_points_journal U txs h :
  forall o, o ∉ concat (map (fun p => tx_points p.1) (reverse (journal U txs h))) -> o ∉ block_points txs.
Proof.
  intros o Ho Hin. apply Ho. unfold block_points in Hin. rewrite <- (journal_txs U txs h), map_map in Hin.
  apply list_elem_of_In, in_concat in Hin as (l & Hl & Hol). apply in_map_iff in Hl as (p & <- & Hp).
  apply list_elem_of_In, in_concat. exists (tx_points p.1). split; [|done].
  apply (in_map (fun q => tx_points q.1)). apply list_elem_of_In, elem_of_reverse. by apply list_elem_of_In.
Qed.

Lemma agrees_over B view : agrees_but [] B view -> over B view = B.
Proof. intros [_ Ho]. apply map_eq. intros o. apply Ho, not_elem_of_nil. Qed.

(** One block detached: the state of the chain below it, and a view that says what
    that chain says. *)
Lemma detachBlock_spec L0 st chain b view now :
  chain_inv L0 st -> bestChain st = chain ++ [b] -> agrees_but [] (chain_utxos (cache st)) view ->
  exists view1 c view2 st' view',
    fetchInputUtxos (E := ChainError) view (cache st) (Transactions b.1) b.2 = Ok (view1, c)
    /\ disconnectTransactions dbFetchUtxoEntryByHash view1 b.1 b.2
         (block_journal (l_utxos (ledger L0 chain)) (Transactions b.1) b.2) = Ok view2
    /\ disconnectBlock POSV2Height GetLockedTxInfo (with_cache st c) b view2 now = Ok (st', view')
    /\ chain_inv L0 st' /\ bestChain st' = chain /\ agrees_but [] (chain_utxos (cache st')) view'.
Proof.
  intros Hi Hchain Hv. pose proof (ci_valid _ _ Hi) as Hvalid. rewrite Hchain in Hvalid.
  apply valid_chain_app in Hvalid as [Hvalid [Ha _]].
  assert (Hled : ledger L0 (bestChain st) = next (ledger L0 chain) b) by (rewrite Hchain; apply ledger_app).
  pose proof (ci_utxos _ _ Hi) as Hu. rewrite Hled in Hu. cbn [next l_utxos] in Hu. set (B := chain_utxos (cache st)) in *.
  destruct (Transactions b.1) as [|tx txs] eqn:Htxs; [by destruct (acc_some _ _ Ha)|].
  destruct (fetchInputUtxos_spec (E := ChainError) view (cache st) tx txs b.2 (ci_wf _ _ Hi) Hv)
    as (view1 & c & Hf & [Hf1 Ho1] & Hwc & Hcc & Hdc).
  rewrite <- Htxs in *. fold B in Hf1, Ho1, Hcc.
  destruct (disconnectTransactions_spec dbFetchUtxoEntryByHash B (l_utxos (ledger L0 chain)) view1 b.1 b.2 (acc_fit _ _ Ha))
    as (view2 & Hd & Ho2 & _ & Hf2). specialize (Hf2 Hf1).
  rewrite (rewind_agree _ (over B view1) B) in Ho2 by (intros o Hin; apply Ho1; by eapply block_points_journal).
  rewrite Hu in Ho2 at 2. rewrite (rewind_after_txs _ true) in Ho2 by apply (acc_fit _ _ Ha).
  exists view1, c, view2. unfold disconnectBlock. cbn [with_cache baseHash bestChain cache anchorTxs spendJournal].
  rewrite Hchain. unfold tip_hash. rewrite last_snoc. cbn [fmap option_fmap option_map]. rewrite default_Some, bytes_eqb_refl.
  cbn [negb]. destruct (flush_keeps (E := ChainError) c FlushRequired (PrevBlock (Header b.1)) now Hwc)
    as (c1 & -> & Hw1 & Hu1 & Hd1). destruct Hd1 as [(_ & _ & ?)|(Hdb1 & Hst1 & Hce1)]; [done|]. cbn [rbind].
  rewrite (ci_anchors _ _ Hi), Hled. cbn [next l_anchors].
  unfold anchors_of. rewrite delete_put_anchors by (apply (acc_anchors _ _ Ha) || apply (acc_locked _ _ Ha) || apply (acc_unlocked _ _ Ha)).
  cbn [rbind]. eexists _, _. split; [done|]. split; [done|]. split; [done|].
  rewrite removelast_last, Hdb1, Hcc, dbPutUtxoView_over, Ho2 by done.
  assert (Hget : forall o, ms_get (cachedEntries c1) o = None).
  { intros o. rewrite Hce1. unfold ms_get, writeCache, deleteMaps. cbn [cachedEntries maps].
    destruct (maps (cachedEntries c)); [done|]. cbn [map take get_in]. by rewrite lookup_empty. }
  set (c2 := mkUtxoCache _ _ _ _ _ _ _).
  assert (Hu2 : chain_utxos c2 = l_utxos (ledger L0 chain)).
  { apply map_eq. intros o. rewrite lookup_chain. unfold c2. cbn [cachedEntries db]. by rewrite Hget. }
  split; [|split; [done|cbn [cache]; rewrite Hu2; by eapply commit_agrees]].
  split; cbn [baseHash bestChain cache anchorTxs spendJournal]; try done.
  - apply (ci_base _ _ Hi).
  - split; [apply (wfc_slice _ Hw1)|]. intros o e. unfold c2. cbn [cachedEntries]. by rewrite Hget.
  - exists chain, []. rewrite app_nil_r. split_and!; [done|done|]. unfold c2. cbn [utxoStateConsistency].
    by rewrite Hst1, (acc_prev _ _ Ha).
  - intros pre b' post Heq. rewrite lookup_delete_ne.
    + apply (ci_journal _ _ Hi pre b' (post ++ [b])). by rewrite Hchain, Heq, <- app_assoc.
    + intros Hh. apply (acc_new _ _ Ha). rewrite Hh, Heq. apply chain_blocks.
Qed.

Lemma detachBlocks_spec (L0 : Ledger) (detach : list chainBlock) (st : ChainState) (pre : list chainBlock)
    (view : UtxoViewpoint) (J0 : gmap bytes (list SpentTxOut)) (now : Z) :
  chain_inv L0 st -> bestChain st = pre ++ reverse detach -> agrees_but [] (chain_utxos (cache st)) view ->
  (forall pre b post, bestChain st = pre ++ b :: post ->
     J0 !! block_hash b = Some (block_journal (l_utxos (ledger L0 pre)) (Transactions b.1) b.2)) ->
  exists st', detachBlocks POSV2Height GetLockedTxInfo dbFetchUtxoEntryByHash st view
      (map (fun b => (b, default [] (J0 !! block_hash b))) detach) now = Ok st'
    /\ chain_inv L0 st' /\ bestChain st' = pre.
Proof.
  revert st view. induction detach as [|b detach IH]; intros st view Hi Hc Hv HJ.
  { exists st. rewrite reverse_nil, app_nil_r in Hc. done. }
  rewrite reverse_cons, app_assoc in Hc. cbn [map detachBlocks]. rewrite (HJ _ _ [] Hc), default_Some.
  destruct (detachBlock_spec L0 st _ b view now Hi Hc Hv) as (v1 & c & v2 & st' & v' & -> & Hd & Hb & Hi' & Hc' & Hv').
  cbn [rbind]. rewrite Hd. cbn [rbind]. rewrite Hb. cbn [rbind]. apply IH; [done|done|done|].
  intros pre0 b0 post0 Heq. apply (HJ pre0 b0 (post0 ++ [b])). by rewrite Hc, <- Hc', Heq, <- app_assoc.
Qed.

Lemma attachBlocks_spec L0 attach st now :
  covers L0 -> chain_inv L0 st -> valid_chain (ledger L0 (bestChain st)) attach ->
  exists st', attachBlocks POSV2Height GetLockedTxInfo st attach now = Ok st' /\ chain_inv L0 st'
    /\ bestChain st' = bestChain st ++ attach.
Proof.
  intros Hcov. revert st. induction attach as [|b attach IH]; intros st Hi Hv; cbn [attachBlocks valid_chain] in *.
  { exists st. by rewrite app_nil_r. }
  destruct Hv as [Ha Hv]. destruct (attachBlock_spec L0 st b now Hcov Hi Ha) as (st1 & -> & Hi1 & Hc1). cbn [rbind].
  destruct (IH st1 Hi1) as (st' & -> & Hi' & Hc'); [by rewrite Hc1, ledger_app|].
  exists st'. by rewrite Hc', Hc1, <- app_assoc.
Qed.

Lemma load_journals_spec L0 st pre detach :
  chain_inv L0 st -> bestChain st = pre ++ reverse detach ->
  load_journals (spendJournal st) detach = Ok (map (fun b => (b, default [] (spendJournal st !! block_hash b))) detach).
Proof.
  intros Hi Hc. assert (Hin : Forall (fun b => b ∈ bestChain st) detach).
  { apply Forall_forall. intros b Hb. rewrite Hc. apply elem_of_app. right. by rewrite elem_of_reverse. }
  clear Hc. induction detach as [|b detach IH]; [done|]. apply Forall_cons in Hin as [Hb Hin]. cbn [load_journals map].
  apply list_elem_of_split in Hb as (pre' & post & Hc). pose proof (ci_valid _ _ Hi) as Hv. rewrite Hc in Hv.
  apply valid_chain_app in Hv as [_ [Ha _]].
  assert (Hf : dbFetchSpendJournalEntry (spendJournal st) b = Ok (default [] (spendJournal st !! block_hash b))).
  { unfold dbFetchSpendJournalEntry. rewrite (ci_journal _ _ Hi _ _ _ Hc), default_Some.
    pose proof (journal_count _ _ 0 _ (acc_fit _ _ Ha)) as Hn. cbn [Nat.add] in Hn. fold (countSpentOutputs (Transactions b.1)) in Hn.
    rewrite Hn. destruct (Transactions b.1) eqn:Ht; [by destruct (acc_some _ _ Ha)|]. by destruct (countSpentOutputs _ =? 0). }
  rewrite Hf. cbn [rbind]. by rewrite IH.
Qed.

Lemma reorg_matches_spec L0 st keep attach :
  chain_inv L0 st -> valid_chain (ledger L0 (take keep (bestChain st))) attach ->
  reorg_matches st (reverse (drop keep (bestChain st))) attach = true.
Proof.
  intros Hi Ha. pose proof (ci_valid _ _ Hi) as Hv. unfold reorg_matches.
  pose proof (take_drop keep (bestChain st)) as Hc. rewrite <- Hc in Hv. apply valid_chain_app in Hv as [_ Hv].
  set (l := drop keep (bestChain st)) in *. clearbody l. apply andb_true_iff. split.
  - clear Hv. destruct l as [|x l _] using rev_ind; [by rewrite reverse_nil|].
    rewrite reverse_snoc, <- Hc, app_assoc. unfold tip_hash. rewrite last_snoc. cbn. apply bytes_eqb_refl.
  - destruct attach as [|a attach]; [done|]. destruct l as [|b l]; [by rewrite reverse_nil|].
    rewrite reverse_cons, last_snoc. destruct Ha as [Ha _], Hv as [Hb _]. rewrite (acc_prev _ _ Ha), (acc_prev _ _ Hb).
    apply bytes_eqb_refl.
Qed.

Lemma reorganizeChain_spec L0 st keep attach now :
  covers L0 -> chain_inv L0 st -> valid_chain L0 (take keep (bestChain st) ++ attach) ->
  exists st', reorganizeChain POSV2Height GetLockedTxInfo dbFetchUtxoEntryByHash st
      (reverse (drop keep (bestChain st))) attach now = Ok st'
    /\ chain_inv L0 st' /\ bestChain st' = take keep (bestChain st) ++ attach.
Proof.
  intros Hcov Hi Hv. unfold reorganizeChain. apply valid_chain_app in Hv as [_ Hv].
  rewrite (reorg_matches_spec L0 st keep attach Hi Hv). cbn [negb].
  rewrite (load_journals_spec L0 st (take keep (bestChain st))) by (by rewrite ?reverse_involutive, ?take_drop). cbn [rbind].
  destruct (detachBlocks_spec L0 (reverse (drop keep (bestChain st))) st (take keep (bestChain st))
    (SetBestHash NewUtxoViewpoint (tip_hash (baseHash st) (bestChain st))) (spendJournal st) now Hi)
    as (st1 & -> & Hi1 & Hc1).
  { by rewrite reverse_involutive, take_drop. }
  { cbn. split; [intros o e; cbn; by rewrite lookup_empty|]. intros o _. unfold over. rewrite lookup_overlay. cbn. by rewrite lookup_empty. }
  { apply (ci_journal _ _ Hi). }
  cbn [rbind]. destruct (attachBlocks_spec L0 attach st1 now Hcov Hi1) as (st' & -> & Hi' & Hc'); [by rewrite Hc1|].
  exists st'. by rewrite Hc', Hc1.
Qed.

(** ** Recovery *)

(** The database is that of a prefix of [chain] whose tip is recorded. *)
Definition disk_of (L0 : Ledger) (chain : list chainBlock) (c : utxoCache) : Prop :=
  exists pre post, chain = pre ++ post /\ db c = l_utxos (ledger L0 pre)
    /\ utxoStateConsistency c = Some (l_tip (ledger L0 pre)).

Lemma replay_spec L0 todo prev c now :
  covers L0 -> wf_cache c -> chain_utxos c = l_utxos (ledger L0 prev) -> disk_of L0 prev c ->
  valid_chain (ledger L0 prev) todo ->
  exists c', replay POSV2Height GetLockedTxInfo c todo now = Ok c' /\ wf_cache c'
    /\ chain_utxos c' = l_utxos (ledger L0 (prev ++ todo)) /\ disk_of L0 (prev ++ todo) c'.
Proof.
  intros Hcov. revert prev c. induction todo as [|b todo IH]; intros prev c Hw Hu Hd Hv; cbn [replay valid_chain] in *.
  { exists c. by rewrite app_nil_r. }
  destruct Hv as [Ha Hv]. destruct Hd as (pre & post & Hpp & Hdb & Hst).
  destruct (cache_connect_spec GetLockedTxInfo (POSV2Active POSV2Height b.2) (Transactions b.1) true c b.2 None None Hw) as (c1 & -> & Hw1 & Hd1 & Hu1).
  { rewrite Hu. apply (acc_fit _ _ Ha). }
  { apply Forall_true. intros tx. by left. }
  { rewrite Hdb. subst prev. by eapply not_on_disk. }
  cbn [rbind option_map].
  destruct (flush_keeps (E := ChainError) c1 FlushIfNeeded (block_hash b) now Hw1) as (c2 & -> & Hw2 & Hu2 & Hd2). cbn [rbind].
  assert (Hled : ledger L0 (prev ++ [b]) = next (ledger L0 prev) b) by apply ledger_app.
  assert (Hc2 : chain_utxos c2 = l_utxos (ledger L0 (prev ++ [b]))) by (by rewrite Hled, Hu2, Hu1, Hu).
  destruct (IH (prev ++ [b]) c2 Hw2 Hc2) as (c' & -> & Hw' & Hu' & Hd').
  - destruct Hd2 as [(Hd2 & Hs2 & _)|(Hd2 & Hs2 & _)].
    + exists pre, (post ++ [b]). rewrite Hpp, <- app_assoc. split; [done|].
      by rewrite Hd2, Hs2, (sd_db _ _ Hd1), (sd_status _ _ Hd1).
    + exists (prev ++ [b]), []. rewrite app_nil_r. split; [done|]. by rewrite Hd2, Hs2, <- Hu2, Hc2, Hled.
  - by rewrite Hled.
  - exists c'. rewrite <- app_assoc in Hu', Hd'. done.
Qed.

Lemma blocks_after_app pre b post h :
  block_hash b = h -> Forall (fun x => block_hash x <> h) pre -> blocks_after h (pre ++ b :: post) = Some post.
Proof.
  intros Hb Hpre. induction Hpre as [|x pre Hx _ IH]; cbn [app blocks_after].
  - by rewrite Hb, bytes_eqb_refl.
  - destruct (bytes_eqb (block_hash x) h) eqn:He; [|done]. by apply bytes_eqb_eq in He.
Qed.

(** The recorded hash identifies the prefix the database is of. *)
Lemma attachNodes_prefix L0 pre post :
  covers L0 -> valid_chain L0 (pre ++ post) ->
  attachNodes (l_tip L0) (l_tip (ledger L0 pre)) (pre ++ post) = Some post.
Proof.
  intros Hcov Hv. apply valid_chain_app in Hv as [Hv _]. unfold attachNodes.
  destruct (decide (pre = [])) as [->|Hne]; [cbn [ledger foldl app]; by rewrite bytes_eqb_refl|].
  destruct (exists_last Hne) as (pre' & b & ->). apply valid_chain_app in Hv as [_ [Ha _]].
  rewrite ledger_app. cbn [ledger foldl next l_tip]. fold (ledger L0 pre').
  destruct (bytes_eqb (block_hash b) (l_tip L0)) eqn:He.
  - exfalso. apply bytes_eqb_eq in He. apply (acc_new _ _ Ha). rewrite He.
    apply (proj2 (ledger_mono L0 pre')), (cov_tip _ Hcov).
  - rewrite <- app_assoc. apply blocks_after_app; [done|]. apply Forall_forall. intros x Hx Hh.
    apply list_elem_of_split in Hx as (l1 & l2 & ->). apply (acc_new _ _ Ha). rewrite <- Hh. apply chain_blocks.
Qed.

Lemma tip_prefix L0 pre post :
  covers L0 -> valid_chain L0 (pre ++ post) -> l_tip (ledger L0 pre) = l_tip (ledger L0 (pre ++ post)) -> post = [].
Proof.
  intros Hcov Hv Ht. destruct (decide (post = [])) as [->|Hne]; [done|]. destruct (exists_last Hne) as (post' & b & ->).
  rewrite app_assoc in Hv, Ht. apply valid_chain_app in Hv as [_ [Ha _]]. exfalso. apply (acc_new _ _ Ha).
  rewrite (ledger_app L0 (pre ++ post')) in Ht. cbn [ledger foldl next l_tip] in Ht. rewrite <- Ht, ledger_app.
  apply (proj2 (ledger_mono (ledger L0 pre) post')), (cov_tip _ (covers_ledger L0 pre Hcov)).
Qed.

(** Restarting on the database of a prefix of the chain rebuilds what the chain
    stands for. *)
Lemma InitConsistentState_spec L0 chain c max now :
  covers L0 -> valid_chain L0 chain -> disk_of L0 chain c ->
  exists c', InitConsistentState POSV2Height GetLockedTxInfo (l_tip L0) (newUtxoCache (db c) (utxoStateConsistency c) max) chain now = Ok c'
    /\ wf_cache c' /\ chain_utxos c' = l_utxos (ledger L0 chain) /\ disk_of L0 chain c'.
Proof.
  intros Hcov Hv (pre & post & Hpp & Hdb & Hst). destruct (newUtxoCache_wf (db c) (utxoStateConsistency c) max) as [Hw Hu].
  unfold InitConsistentState. set (c0 := newUtxoCache _ _ _) in *. change (utxoStateConsistency c0) with (utxoStateConsistency c).
  rewrite Hst, <- tip_ledger. subst chain.
  assert (Hset : forall c h, wf_cache c -> wf_cache (set_flushed c h now)) by (intros ? ? []; by split).
  destruct (bytes_eqb (l_tip (ledger L0 pre)) (l_tip (ledger L0 (pre ++ post)))) eqn:He.
  - apply bytes_eqb_eq, tip_prefix in He; [|done|done]. subst post. rewrite app_nil_r in *.
    eexists. split; [done|]. split; [by apply Hset|]. split.
    + change (chain_utxos (set_flushed c0 _ now)) with (chain_utxos c0). by rewrite Hu.
    + exists pre, []. by rewrite app_nil_r.
  - rewrite attachNodes_prefix by done. pose proof Hv as Hv'. apply valid_chain_app in Hv' as [_ Hpost].
    destruct (replay_spec L0 post pre c0 now Hcov Hw) as (c' & -> & Hw' & Hu' & Hd').
    + by rewrite Hu.
    + exists pre, []. by rewrite app_nil_r.
    + done.
    + cbn [rbind]. eexists. split; [done|]. split; [by apply Hset|]. split; [exact Hu'|exact Hd'].
Qed.

(** ** Histories *)

(** What happens to a chain: a block extends it, it is reorganised to another one
    that keeps its first [keep] blocks, or the process stops without a flush and
    starts again with a cache of [max] bytes.  The last argument is the time. *)
Inductive chain_op : Type :=
| Extend (b : chainBlock) (now : Z)
| Reorganize (keep : nat) (attach : list chainBlock) (now : Z)
| Restart (max : Z) (now : Z).

Definition run_op (st : ChainState) (op : chain_op) : result ChainError ChainState :=
  match op with
  | Extend b now => attachBlock POSV2Height GetLockedTxInfo st b now
  | Reorganize keep attach now =>
      reorganizeChain POSV2Height GetLockedTxInfo dbFetchUtxoEntryByHash st (reverse (drop keep (bestChain st))) attach now
  | Restart max now =>
      let! c := InitConsistentState POSV2Height GetLockedTxInfo (baseHash st)
                  (newUtxoCache (db (cache st)) (utxoStateConsistency (cache st)) max) (bestChain st) now in
      Ok (with_cache st c)
  end.

Fixpoint run_ops (st : ChainState) (ops : list chain_op) : result ChainError ChainState :=
  match ops with
  | [] => Ok st
  | op :: ops => let! st := run_op st op in run_ops st ops
  end.

Definition chain_after (chain : list chainBlock) (op : chain_op) : list chainBlock :=
  match op with
  | Extend b _ => chain ++ [b]
  | Reorganize keep attach _ => take keep chain ++ attach
  | Restart _ _ => chain
  end.

(** Every chain of the history is valid. *)
Fixpoint history_ok (L0 : Ledger) (chain : list chainBlock) (ops : list chain_op) : Prop :=
  match ops with
  | [] => True
  | op :: ops => valid_chain L0 (chain_after chain op) /\ history_ok L0 (chain_after chain op) ops
  end.

Definition initial_state (L0 : Ledger) (max : Z) : ChainState :=
  mkChainState (newUtxoCache (l_utxos L0) (Some (l_tip L0)) max) ∅ (l_anchors L0) (l_tip L0) [].

Lemma genesis_inv L0 max : chain_inv L0 (initial_state L0 max).
Proof.
  destruct (newUtxoCache_wf (l_utxos L0) (Some (l_tip L0)) max) as [Hw Hu].
  split; cbn [initial_state baseHash bestChain cache anchorTxs]; try done; [by exists [], []|].
  intros pre b post Heq. by destruct pre.
Qed.

Lemma run_op_spec L0 st op :
  covers L0 -> chain_inv L0 st -> valid_chain L0 (chain_after (bestChain st) op) ->
  exists st', run_op st op = Ok st' /\ chain_inv L0 st' /\ bestChain st' = chain_after (bestChain st) op.
Proof.
  intros Hcov Hi Hv. destruct op as [b now|keep attach now|max now]; cbn [run_op chain_after] in *.
  - apply attachBlock_spec; [done|done|]. apply valid_chain_app in Hv as [_ [Ha _]]. done.
  - by apply reorganizeChain_spec.
  - destruct (InitConsistentState_spec L0 (bestChain st) (cache st) max now Hcov Hv) as (c & Hc & Hw & Hu & Hd).
    { apply (ci_disk _ _ Hi). }
    rewrite (ci_base _ _ Hi), Hc. cbn [rbind]. eexists. split; [done|]. split; [|done].
    destruct Hi. by split.
Qed.

Lemma run_ops_spec L0 ops st :
  covers L0 -> chain_inv L0 st -> history_ok L0 (bestChain st) ops ->
  exists st', run_ops st ops = Ok st' /\ chain_inv L0 st' /\ bestChain st' = foldl chain_after (bestChain st) ops.
Proof.
  intros Hcov. revert st. induction ops as [|op ops IH]; intros st Hi Hh; cbn [run_ops history_ok foldl] in *; [by exists st|].
  destruct Hh as [Hv Hh]. destruct (run_op_spec L0 st op Hcov Hi Hv) as (st1 & -> & Hi1 & Hc1). cbn [rbind].
  rewrite <- Hc1 in Hh |- *. by apply IH.
Qed.

(** C6: The chain implements its ledger: through any history of blocks connected
    through the cache, reorganisations that write views to the database and
    restarts without a flush, no operation fails, and whatever outpoints are then
    looked up, the entries fetched are exactly the unspent outputs of the ledger of
    the blocks of the best chain; so are the anchored outputs on record. *)
Theorem chain_implements_ledger (L0 : Ledger) (max : Z) (ops : list chain_op) :
  covers L0 -> history_ok L0 [] ops ->
  exists st, run_ops (initial_state L0 max) ops = Ok st
    /\ bestChain st = foldl chain_after [] ops
    /\ (forall outpoints, exists es c, fetchEntries (E := ChainError) (cache st) outpoints = Ok (es, c)
          /\ map coin_of es = map (fun o => l_utxos (ledger L0 (bestChain st)) !! o) outpoints)
    /\ anchorTxs st = l_anchors (ledger L0 (bestChain st)).
Proof.
  intros Hcov Hh. destruct (run_ops_spec L0 ops (initial_state L0 max) Hcov (genesis_inv L0 max) Hh) as (st & Hr & Hi & Hc).
  exists st. split; [done|]. split; [done|]. split; [|apply (ci_anchors _ _ Hi)]. intros outpoints.
  destruct (fetchEntries_spec (E := ChainError) (cache st) outpoints (ci_wf _ _ Hi)) as (es & c & Hf & _ & _ & _ & He & _).
  exists es, c. by rewrite <- (ci_utxos _ _ Hi).
Qed.

(** C7: A flush is durable: after any such history a required flush makes the
    database itself equal to the unspent outputs of the best chain, records the
    given block with it, and empties the cache. *)
Theorem required_flush_durable (L0 : Ledger) (max : Z) (ops : list chain_op) (best : bytes) (now : Z) :
  covers L0 -> history_ok L0 [] ops ->
  exists st c, run_ops (initial_state L0 max) ops = Ok st
    /\ flush (E := ChainError) (cache st) FlushRequired best now = Ok c
    /\ db c = l_utxos (ledger L0 (foldl chain_after [] ops)) /\ utxoStateConsistency c = Some best
    /\ ms_length (cachedEntries c) = 0.
Proof.
  intros Hcov Hh. destruct (run_ops_spec L0 ops (initial_state L0 max) Hcov (genesis_inv L0 max) Hh) as (st & Hr & Hi & Hc).
  destruct (flush_keeps (E := ChainError) (cache st) FlushRequired best now (ci_wf _ _ Hi)) as (c & Hf & _ & _ & Hd).
  destruct Hd as [(_ & _ & ?)|(Hdb & Hs & Hce)]; [done|]. exists st, c. split_and!; [done|done| |done|].
  - by rewrite Hdb, (ci_utxos _ _ Hi), Hc.
  - rewrite Hce. unfold ms_length, writeCache, deleteMaps. cbn [cachedEntries maps].
    destruct (maps (cachedEntries (cache st))); [done|]. cbn [map take sum_of foldr]. by rewrite map_size_empty.
Qed.

(** *** Executable form of the conditions *)

Definition wf_anchorb (i : AnchorTxInfo) : bool :=
  (66 <=? len (LockedUtxo i)) && (len (LockedUtxo i) <? 2 ^ 32) && (64 <=? len (AnchorTxid i))
  && (len (AnchorTxid i) <? 2 ^ 32) && (26 <=? len (WitnessScript i)) && (len (WitnessScript i) <? 2 ^ 32)
  && (- 2 ^ 63 <=? AnchorValue i) && (AnchorValue i <? 2 ^ 63).

Definition readableb (bind : bool) (hash : bytes) (tx : MsgTx) : bool :=
  negb (IsAnchorTx tx)
  || match GetLockedTxInfo tx bind with
     | Ok i => wf_anchorb (mkAnchorTxInfo (ai_Utxo i) (hex_encode (reverse hash)) (ai_WitnessScript i) (ai_Value i))
     | _ => false
     end.

Definition acceptsb (hashes : list bytes) (bh : bytes) (L : Ledger) (b : chainBlock) : bool :=
  bytes_eqb (PrevBlock (Header b.1)) (l_tip L) && bool_decide (bh ∉ l_blocks L)
  && all_fitb true (l_utxos L) (zip hashes (Transactions b.1)) b.2 && negb (len (Transactions b.1) =? 0)
  && forallb (fun hash => bool_decide (hash ∉ l_txs L)) hashes
  && forallb (fun p => readableb (POSV2Active POSV2Height b.2) p.1 p.2) (zip hashes (Transactions b.1))
  && bool_decide (NoDup (map LockedUtxo (anchors_of b)))
  && forallb (fun a => negb (non_nil (l_anchors L !! LockedUtxo a))) (anchors_of b).

Lemma wf_anchorb_sound i : wf_anchorb i = true -> wf_anchor i.
Proof. unfold wf_anchorb. rewrite !andb_true_iff, !Z.leb_le, !Z.ltb_lt. intros. by split; lia. Qed.

Lemma acceptsb_sound hashes bh L b :
  hashes = map TxHash (Transactions b.1) -> bh = block_hash b -> acceptsb hashes bh L b = true -> accepts L b.
Proof.
  intros Hh ->. unfold acceptsb. rewrite !andb_true_iff, !forallb_forall. intros [[[[[[[H1 H2] H3] H4] H5] H6] H7] H8]. split.
  - by apply bytes_eqb_eq.
  - by apply bool_decide_eq_true in H2.
  - by eapply all_fitb_sound.
  - intros H0. by rewrite H0 in H4.
  - apply Forall_forall. intros tx Htx. specialize (H5 (TxHash tx)). apply bool_decide_eq_true in H5; [done|].
    rewrite Hh. by apply in_map, list_elem_of_In.
  - apply Forall_forall. intros tx Htx Ha. specialize (H6 (TxHash tx, tx)). unfold readableb in H6. cbn [fst snd] in H6.
    rewrite Ha in H6. cbn [negb orb] in H6.
    assert (Hin : In (TxHash tx, tx) (zip hashes (Transactions b.1))).
    { rewrite Hh. clear -Htx. induction (Transactions b.1) as [|t l IH]; [by apply elem_of_nil in Htx|].
      cbn. apply elem_of_cons in Htx as [->|Htx]; [by left|right; by apply IH]. }
    specialize (H6 Hin). destruct (GetLockedTxInfo tx _) as [i| |]; [|done|done]. exists i. split; [done|by apply wf_anchorb_sound].
  - by apply bool_decide_eq_true in H7.
  - apply Forall_forall. intros a Ha%list_elem_of_In%H8. by destruct (l_anchors L !! LockedUtxo a).
Qed.

End ChainProofs.

(** ** A concrete history *)

(** An anchor transaction, and a reader of anchors for it. *)
Definition demo_anchor : MsgTx (D := text_decimal) :=
  mkMsgTx (D := text_decimal) 1 [mkTxIn (mkOutPoint zeroHash AnchorTxOutIndex) [3; 4] [] MaxTxInSequenceNum] [true_out 900] 0.

Definition demo_locked (tx : MsgTx (D := text_decimal)) (bindOutputs : bool) : result ChainError AnchorInfo :=
  if IsAnchorTx tx then Ok (mkAnchorInfo (replicate 66 97) (replicate 71 1) 900) else Err OtherChainError.

Definition demo_base : Ledger (D := text_decimal) :=
  mkLedger (D := text_decimal) (PrevBlock sample_header) (utxos demo_view) ∅ {[Hash origin]} {[PrevBlock sample_header]}.

Definition other_coinbase : MsgTx (D := text_decimal) :=
  mkMsgTx (D := text_decimal) 1 [mkTxIn (mkOutPoint zeroHash MaxPrevOutIndex) [9; 9] [] MaxTxInSequenceNum] [true_out 4] 0.

Definition header_on (prev : bytes) (nonce : Z) : BlockHeader :=
  mkBlockHeader (bh_Version sample_header) prev (MerkleRoot sample_header) (Timestamp sample_header) (Bits sample_header) nonce.

Definition first_block : chainBlock (D := text_decimal) := (demo_ledger_block, 100).

(** Competes with the first block: it anchors an output and does not have the last
    transaction of the other. *)
Definition fork_block : chainBlock (D := text_decimal) :=
  (mkMsgBlock (D := text_decimal) (header_on (PrevBlock sample_header) 6) [other_coinbase; demo_anchor; demo_spend], 100).

Definition demo_history : list (chain_op (D := text_decimal)) :=
  [Extend first_block 1; Restart 500000 2; Reorganize 0 [fork_block] 3; Restart 500000 4].

Definition first_block_hash : bytes := Eval vm_compute in block_hash first_block.
Definition fork_block_hash : bytes := Eval vm_compute in block_hash fork_block.
Definition fork_hashes : list bytes := Eval vm_compute in map TxHash (Transactions fork_block.1).

Lemma first_block_hash_ok : first_block_hash = block_hash first_block.
Proof. vm_compute. reflexivity. Qed.

Lemma fork_hashes_ok : fork_hashes = map TxHash (Transactions fork_block.1) /\ fork_block_hash = block_hash fork_block.
Proof. split; vm_compute; reflexivity. Qed.

Lemma first_block_accepted posv : accepts demo_locked posv demo_base first_block.
Proof.
  apply (acceptsb_sound _ _ demo_hashes first_block_hash); [exact demo_hashes_ok|exact first_block_hash_ok|].
  vm_compute. reflexivity.
Qed.

Lemma fork_block_accepted posv : accepts demo_locked posv demo_base fork_block.
Proof.
  apply (acceptsb_sound _ _ fork_hashes fork_block_hash); [exact (proj1 fork_hashes_ok)|exact (proj2 fork_hashes_ok)|].
  vm_compute. reflexivity.
Qed.

Lemma demo_history_ok posv : history_ok demo_locked posv demo_base [] demo_history.
Proof.
  pose proof (first_block_accepted posv). pose proof (fork_block_accepted posv).
  cbn [demo_history history_ok chain_after app take valid_chain]. tauto.
Qed.

Lemma demo_covers : covers demo_base.
Proof.
  split; [|by apply elem_of_singleton]. intros o c Ho. cbn [demo_base l_utxos l_txs] in *.
  rewrite utxos_lookup in Ho. unfold demo_view, set_entry, LookupEntry, NewUtxoViewpoint in Ho. cbn [entries] in Ho.
  destruct (decide (o = origin)) as [->|Hne]; [by apply elem_of_singleton|].
  rewrite lookup_insert_ne, lookup_empty in Ho by done. done.
Qed.

Definition no_height (h : bytes) : result ChainError (option (UtxoEntry (D := text_decimal))) := Ok None.

Lemma chain_implements_ledger_witness :
  exists st, run_ops demo_locked 0 no_height (initial_state demo_base 500000) demo_history = Ok st
    /\ bestChain st = [fork_block]
    /\ (forall outpoints, exists es c, fetchEntries (E := ChainError) (cache st) outpoints = Ok (es, c)
          /\ map coin_of es = map (fun o => l_utxos (ledger demo_locked 0 demo_base (bestChain st)) !! o) outpoints)
    /\ anchorTxs st = l_anchors (ledger demo_locked 0 demo_base (bestChain st)).
Proof. exact (chain_implements_ledger demo_locked 0 no_height demo_base 500000 demo_history demo_covers (demo_history_ok 0)). Defined.

Lemma required_flush_durable_witness :
  exists st c, run_ops demo_locked 101 no_height (initial_state demo_base 500000) demo_history = Ok st
    /\ flush (E := ChainError) (cache st) FlushRequired (block_hash fork_block) 6 = Ok c
    /\ db c = l_utxos (ledger demo_locked 101 demo_base [fork_block]) /\ utxoStateConsistency c = Some (block_hash fork_block)
    /\ ms_length (cachedEntries c) = 0.
Proof.
  exact (required_flush_durable demo_locked 101 no_height demo_base 500000 demo_history (block_hash fork_block) 6
           demo_covers (demo_history_ok 101)).
Defined.

(** Two blocks with only a coinbase. *)
Definition lone_block (prev : bytes) (tag : Z) : chainBlock (D := text_decimal) :=
  (mkMsgBlock (D := text_decimal) (header_on prev tag)
     [mkMsgTx (D := text_decimal) 1 [mkTxIn (mkOutPoint zeroHash MaxPrevOutIndex) [tag] [] MaxTxInSequenceNum] [true_out 5] 0],
   100 + tag).

Definition lone_first : chainBlock (D := text_decimal) := lone_block (PrevBlock sample_header) 0.
Definition lone_first_hash : bytes := Eval vm_compute in block_hash lone_first.
Definition lone_second : chainBlock (D := text_decimal) := lone_block lone_first_hash 1.
Definition lone_second_hash : bytes := Eval vm_compute in block_hash lone_second.

(** After a recovery the cache remembers the tip as its last flush although the
    database is still that of the base: deleting the first block, which a further
    recovery needs, does not ask for a flush. *)
Example prune_after_recovery :
  match run_ops demo_locked 0 no_height (initial_state demo_base 500000)
          [Extend lone_first 1; Extend lone_second 2; Restart 500000 3] with
  | Ok st =>
      let height_of h := if bytes_eqb h lone_first_hash then Some 100
                         else if bytes_eqb h lone_second_hash then Some 101 else None in
      (utxoStateConsistency (cache st), flushNeededAfterPrune height_of (cache st) [lone_first_hash])
      = (Some (PrevBlock sample_header), false)
  | _ => False
  end.
Proof. vm_compute. reflexivity. Qed.
