(* ===== verification/Anchor.v ===== *)
(** * The input of an anchor ([anchortx/anchortx.go], [anchortx/nativeproof/proof.go],
      [indexer/common/nativeproof.go], [indexer/common/transcend.go])

    An anchor transaction brings an output locked on the other chain.  Its input
    carries the signed invoice; a native asset has besides a proof in the witness,
    whose hash an output of the transaction commits to. *)

From Stdlib Require Import ZArith Lia.
From stdpp Require Import base list numbers option strings.
From S2P Require Import Prelude ScriptNum Tokenizer ScriptBuilder ScriptStd Sha Wire SigHash Block Utxo AnchorStore.

#[local] Open Scope Z_scope.

Record AscendInfo `{D : DecimalOps} : Type := mkAscendInfo {
  as_AnchorInfo : AnchorInfo;
  as_TxAssets : list AssetInfo;
}.

Arguments mkAscendInfo {D} _ _.

(** What reading an anchor depends on besides the transaction: the imported module
    of native assets, the keys of the core nodes, the indexer of the other chain. *)
Class AnchorEnv (D : DecimalOps) : Type := {
  (* [seals.DecodeGraphBlindSeal], and the canonical bytes of the seal *)
  GraphBlindSeal : bytes -> option bytes;
  (* of the script, [current], the outputs, [bindOutputs], [nativeProof] *)
  checkAnchorPkScriptWithCoreCheck : bytes -> bool -> list TxOut -> bool -> bool -> result ChainError AscendInfo;
  (* [nativeproof.Validate] of the proof, the locked output and its script, with the
     configured resolver and network; [false] also when these are missing *)
  nativeproof_Validate : bytes -> AscendInfo -> bytes -> bool -> bool;
  checkAscendingTickerInfo : MsgTx -> AscendInfo -> bool;
}.

Section Anchor.
Context `{D : DecimalOps} {AE : AnchorEnv D}.

Definition SAT20_MAGIC_NUMBER : Z := OP_16.
Definition CONTENT_TYPE_MIN : Z := 0.
Definition CONTENT_TYPE_MAX : Z := 75.
Definition CONTENT_TYPE_ASCENDING : Z := 1.
Definition CONTENT_TYPE_DESCENDING : Z := 2.
Definition CONTENT_TYPE_UNSTAKE : Z := 5.
Definition CONTENT_TYPE_BINDREFERRER : Z := 42.
Definition CONTENT_TYPE_NATIVE_ASSET : Z := 9.
Definition MAX_PAYLOAD_LEN : Z := 512 - 8.
Definition TxVersion : Z := 1.

(** [ReadDataFromNullDataScript] of [indexer/common/transcend.go]. *)
Definition ReadDataFromNullDataScript (script : bytes) : result ChainError (Z * bytes) :=
  let! '(ok, t) := ScriptTokenizer_Next (MakeScriptTokenizer 0 script) in
  let! op := (if ok then ScriptTokenizer_Opcode t else Ok 0) in
  if negb ok || negb (op =? OP_RETURN) then Err OtherChainError
  else
    let! '(ok, t) := ScriptTokenizer_Next t in
    let! op := (if ok then ScriptTokenizer_Opcode t else Ok 0) in
    if negb ok || negb (op =? SAT20_MAGIC_NUMBER) then Err OtherChainError
    else
      let! '(ok, t) := ScriptTokenizer_Next t in
      if negb ok || non_nil (ScriptTokenizer_Err t) then Err OtherChainError
      else if 8 <? len (slice (ScriptTokenizer_Data t)) then Err OtherChainError
      else
        let! n := ScriptTokenizer_ExtractInt64 t in
        let ctype := uint8 n in
        if (CONTENT_TYPE_MAX <? ctype) || (ctype <? CONTENT_TYPE_MIN) then Err OtherChainError
        else
          let! '(ok, t) := ScriptTokenizer_Next t in
          match ScriptTokenizer_Data t with
          | Some data => if ok then Ok (ctype, data) else Err OtherChainError
          | None => Err OtherChainError
          end.

(** The script of an [OP_RETURN] output of the protocol. *)
Definition NullDataScript (ctype : Z) (data : bytes) : result ChainError bytes :=
  if MAX_PAYLOAD_LEN <? len data then Err OtherChainError
  else
    let! b := ScriptBuilder_AddInt64 ctype
                (ScriptBuilder_AddOp SAT20_MAGIC_NUMBER (ScriptBuilder_AddOp OP_RETURN NewScriptBuilder)) in
    match ScriptBuilder_Script (ScriptBuilder_AddData data b) with
    | Some script => Ok script
    | None => Err OtherChainError
    end.

(** ** The envelope of a native proof *)

Definition MaxProofSize : Z := 4000000.
Definition maxReveals : Z := 1024.
Definition maxRevealSize : Z := 64.
Definition proofMagic : bytes := str "STPN".

Definition IsProof (raw : bytes) : bool := bytes_eqb (take (length proofMagic) raw) proofMagic.

Definition checkReveal (raw : bytes) : bool :=
  (0 <? len raw) && (len raw <=? maxRevealSize)
  && match GraphBlindSeal raw with Some canonical => bytes_eqb canonical raw | None => false end.

(** The loop over the reveals: [n] are left, [last] is the one before. *)
Fixpoint decode_reveals (n : nat) (raw : bytes) (cursor : Z) (last : option bytes) : result ChainError unit :=
  match n with
  | O => if negb (cursor =? len raw) then Err OtherChainError else Ok tt
  | S n =>
      if len raw <=? cursor then Err OtherChainError
      else
        let! size := unwrap (index raw cursor) in
        let cursor := cursor + 1 in
        if len raw - cursor <? size then Err OtherChainError
        else
          let! reveal := subslice raw cursor (cursor + size) in
          if negb (checkReveal reveal) then Err OtherChainError
          else if match last with Some prev => 0 <=? Compare prev reveal | None => false end then Err OtherChainError
          else decode_reveals n raw (cursor + size) (Some reveal)
  end.

(** [nativeproof.Decode], as far as its caller looks: whether the envelope is well
    formed. *)
Definition Decode (raw : bytes) : result ChainError unit :=
  if (len raw <? 12) || (MaxProofSize <? len raw) || negb (IsProof raw) || negb (at_is raw 4 1) || negb (at_is raw 5 1)
  then Err OtherChainError
  else
    let! field := subslice raw 6 10 in
    let n := le_decode field in
    if (n =? 0) || (len raw - 12 <? n) then Err OtherChainError
    else
      let cursor := 10 + n in
      let! field := subslice raw cursor (cursor + 2) in
      let count := le_decode field in
      if maxReveals <? count then Err OtherChainError
      else decode_reveals (Z.to_nat count) raw (cursor + 2) None.

(** ** The proof of an anchor *)

(** The script starts as a commitment to a native proof. *)
Definition native_marker (script : bytes) : result ChainError bool :=
  let! '(ok, t) := ScriptTokenizer_Next (MakeScriptTokenizer 0 script) in
  let! op := (if ok then ScriptTokenizer_Opcode t else Ok 0) in
  if negb ok || negb (op =? OP_RETURN) then Ok false
  else
    let! '(ok, t) := ScriptTokenizer_Next t in
    let! op := (if ok then ScriptTokenizer_Opcode t else Ok 0) in
    if negb ok || negb (op =? SAT20_MAGIC_NUMBER) then Ok false
    else
      let! '(ok, t) := ScriptTokenizer_Next t in
      if negb ok || (8 <? len (slice (ScriptTokenizer_Data t))) then Ok false
      else
        let! n := ScriptTokenizer_ExtractInt64 t in
        Ok (n =? CONTENT_TYPE_NATIVE_ASSET).

(** The loop over the outputs: [digest] is what the commitment found so far holds. *)
Fixpoint native_digest (outs : list TxOut) (digest : option bytes) : result ChainError (option bytes) :=
  match outs with
  | [] => Ok digest
  | output :: outs =>
      let! data :=
        match ReadDataFromNullDataScript (PkScript output) with
        | Ok (kind, data) => Ok (if kind =? CONTENT_TYPE_NATIVE_ASSET then Some data else None)
        | Err _ => Ok None
        | Panic => Panic
        end in
      match data with
      | None =>
          let! malformed := native_marker (PkScript output) in
          if (malformed : bool) then Err OtherChainError else native_digest outs digest
      | Some data =>
          if non_nil digest then Err OtherChainError
          else
            let! canonical := NullDataScript CONTENT_TYPE_NATIVE_ASSET data in
            if negb (len data =? 32) || negb (bytes_eqb canonical (PkScript output)) || negb (Value output =? 0)
               || negb (len (Assets output) =? 0) then Err OtherChainError
            else native_digest outs (Some data)
      end
  end.

(** The proof of a native anchor; [None] for an anchor without one. *)
Definition NativeAssetProof (tx : MsgTx) : result ChainError (option bytes) :=
  let! marker := native_digest (TxOuts tx) None in
  let found := existsb (fun input => existsb IsProof (Witness input)) (TxIns tx) in
  match marker with
  | None => if found then Err OtherChainError else Ok None
  | Some digest =>
      match map Witness (TxIns tx) with
      | [[proof]] =>
          let! _ := Decode proof in
          if negb (bytes_eqb (sha256 proof) digest) then Err OtherChainError else Ok (Some proof)
      | _ => Err OtherChainError
      end
  end.

(** ** Reading the input *)

Definition CheckAnchorTxEncoding (tx : MsgTx) : bool :=
  match TxIns tx with
  | [input] =>
      (Version tx =? TxVersion) && (LockTime tx =? 0) && bytes_eqb (Hash (PreviousOutPoint input)) zeroHash
      && (Index (PreviousOutPoint input) =? AnchorTxOutIndex) && (Sequence input =? AnchorTxOutIndex)
  | _ => false
  end.

Definition WitnessScriptHash (witnessScript : bytes) : result ChainError bytes :=
  match ScriptBuilder_Script (ScriptBuilder_AddData (sha256 witnessScript) (ScriptBuilder_AddOp OP_0 NewScriptBuilder)) with
  | Some script => Ok script
  | None => Err OtherChainError
  end.

Definition checkAnchorInput (tx : MsgTx) (current bindOutputs nativeActive : bool) : result ChainError AscendInfo :=
  match TxIns tx with
  | [input] =>
      let! proof := NativeAssetProof tx in
      let native := non_nil proof in
      if native && negb nativeActive then Err OtherChainError
      else
        let bindOutputs := bindOutputs || native in
        if bindOutputs && negb (CheckAnchorTxEncoding tx) then Err OtherChainError
        else
          let! info := checkAnchorPkScriptWithCoreCheck (SignatureScript input) (current && negb native) (TxOuts tx)
                         bindOutputs native in
          match proof with
          | None => Ok info
          | Some proof =>
              let! pkScript := WitnessScriptHash (ai_WitnessScript (as_AnchorInfo info)) in
              if nativeproof_Validate proof info pkScript current then Ok info else Err OtherChainError
          end
  | _ => Err OtherChainError
  end.

(** The optional last argument counts as [false] when it is left out. *)
Definition GetLockedTxInfo (tx : MsgTx) (bCheckUtxoAssets bindOutputs nativeActive : bool) : result ChainError AnchorInfo :=
  let! lockedTxInfo := checkAnchorInput tx bCheckUtxoAssets bindOutputs nativeActive in
  Ok (as_AnchorInfo lockedTxInfo).

(** [addTxIns] and [disconnectBlock] leave the last argument out. *)
Definition locked_info (tx : MsgTx) (bindOutputs : bool) : result ChainError AnchorInfo :=
  GetLockedTxInfo tx false bindOutputs false.

(** ** Native anchors and the optional argument *)

Lemma plain_anchor_read tx bind active :
  NativeAssetProof tx = Ok None -> locked_info tx bind = GetLockedTxInfo tx false bind active.
Proof. intros Hp. unfold locked_info, GetLockedTxInfo, checkAnchorInput. destruct (TxIns tx) as [|? []]; [done| |done]. by rewrite Hp. Qed.

Lemma native_anchor_unread tx bind proof :
  NativeAssetProof tx = Ok (Some proof) -> locked_info tx bind = Err OtherChainError.
Proof. intros Hp. unfold locked_info, GetLockedTxInfo, checkAnchorInput. destruct (TxIns tx) as [|? []]; [done| |done]. by rewrite Hp. Qed.

Lemma read_anchor_proof tx bind active info :
  GetLockedTxInfo tx false bind active = Ok info -> exists proof, NativeAssetProof tx = Ok proof.
Proof.
  unfold GetLockedTxInfo, checkAnchorInput. destruct (TxIns tx) as [|? []]; [done| |done].
  destruct (NativeAssetProof tx); [by eexists|done|done].
Qed.

End Anchor.
