(* ===== verification/Validate.v ===== *)
(** * Rules of transactions and blocks ([blockchain/validate.go], [blockchain/asset_validation.go],
      [blockchain/weight.go], [contract/funding_safety.go])

    The context-free checks of a transaction, the checks of its inputs against a
    view with the fees they leave, the coinbase's claim on the fees, anchors, and
    the loop that checks and connects the transactions of a block.  Lists of assets
    and their decimal amounts belong to the imported asset module: its operations
    are parameters. *)

From Stdlib Require Import ZArith Lia QArith Qcanon.
From stdpp Require Import base list numbers option strings gmap sets.
From S2P Require Import Prelude ScriptNum Tokenizer ScriptBuilder ScriptStd Sha Wire SigHash Block Merkle Utxo AnchorStore.
From S2P Require Import UtxoCache ChainState Anchor.

#[local] Open Scope Z_scope.

(** ** The imported asset module

    [Merge] and [Split] change their receiver, so each gives the list after the
    call and whether it succeeded. *)
Class AssetOps (D : DecimalOps) : Type := {
  Decimal_Sign : Decimal -> Z;
  (* numerator and denominator of the amount, as [big.Rat] reads its text *)
  Decimal_Rat : Decimal -> option (Z * Z);
  TxAssets_Merge : list AssetInfo -> list AssetInfo -> list AssetInfo * bool;
  TxAssets_Split : list AssetInfo -> list AssetInfo -> list AssetInfo * bool;
  TxAssets_Find : list AssetInfo -> AssetName -> option AssetInfo;
  TxAssets_Equal : list AssetInfo -> list AssetInfo -> bool;
}.

Section Validate.
Context `{D : DecimalOps} {AO : AssetOps D} {AE : AnchorEnv D}.

Definition rule {A : Type} (c : RuleErrorCode) : result ChainError A := Err (RuleError c).

(** ** Assets of outputs *)

Definition plainName : AssetName := mkAssetName [] [] [].

Definition MaxInt64 : Z := 2 ^ 63 - 1.

(** [RequiredBindingSats] of [contract/funding_safety.go]. *)
Fixpoint binding_sats (assets : list AssetInfo) (total : Z) : result ChainError Z :=
  match assets with
  | [] => Ok total
  | asset :: assets =>
      if negb (Decimal_Validate (Amount asset)) then Err OtherChainError
      else if Decimal_Sign (Amount asset) <? 0 then Err OtherChainError
      else if BindingSat asset =? 0 then binding_sats assets total
      else
        match Decimal_Rat (Amount asset) with
        | None => Err OtherChainError
        | Some (num, denom) =>
            let groups := Z.quot num (denom * BindingSat asset) in
            if negb ((- 2 ^ 63 <=? groups) && (groups <=? MaxInt64)) || (groups <? 0) then Err OtherChainError
            else if MaxInt64 - total <? groups then Err OtherChainError
            else binding_sats assets (total + groups)
        end
  end.

Definition RequiredBindingSats (assets : list AssetInfo) : result ChainError Z := binding_sats assets 0.

Definition checkAssetOutput (output : TxOut) : result ChainError unit :=
  if existsb (fun asset => bool_decide (Name asset = plainName)) (Assets output) then rule ErrBadTxOutValue
  else
    match RequiredBindingSats (Assets output) with
    | Err _ => rule ErrBadTxOutValue
    | Panic => Panic
    | Ok carrier => if Value output <? carrier then rule ErrBadTxOutValue else Ok tt
    end.

(** Go's [>] on strings. *)
Fixpoint string_gt (a b : bytes) : bool :=
  match a, b with
  | x :: a, y :: b => if x =? y then string_gt a b else y <? x
  | _ :: _, [] => true
  | [], _ => false
  end.

Definition name_gt (prev curr : AssetName) : bool :=
  string_gt (Protocol prev) (Protocol curr)
  || (bytes_eqb (Protocol prev) (Protocol curr) && string_gt (Type_ prev) (Type_ curr))
  || (bytes_eqb (Protocol prev) (Protocol curr) && bytes_eqb (Type_ prev) (Type_ curr)
      && string_gt (Ticker prev) (Ticker curr)).

(** The loop over neighbouring assets of an output. *)
Fixpoint check_sorted (prev : AssetName) (assets : list AssetInfo) : result ChainError unit :=
  match assets with
  | [] => Ok tt
  | asset :: assets =>
      if bool_decide (prev = Name asset) then rule ErrBadTxOutValue
      else if name_gt prev (Name asset) then rule ErrBadTxOutValue
      else check_sorted (Name asset) assets
  end.

(** ** Sanity of a transaction *)

Definition MaxBlockBaseSize : Z := 1000000.
Definition MaxSatoshi : Z := 21000000 * 100000000.
Definition MinCoinbaseScriptLen : Z := 2.
Definition MaxCoinbaseScriptLen : Z := 100.

Definition isNullOutpoint (o : OutPoint) : bool := (Index o =? MaxPrevOutIndex) && bytes_eqb (Hash o) zeroHash.

Fixpoint sanity_outputs (outs : list TxOut) (totalSatoshi : Z) : result ChainError unit :=
  match outs with
  | [] => Ok tt
  | txOut :: outs =>
      let! _ := checkAssetOutput txOut in
      let satoshi := Value txOut in
      if satoshi <? 0 then rule ErrBadTxOutValue
      else if MaxSatoshi <? satoshi then rule ErrBadTxOutValue
      else
        let totalSatoshi := int64 (totalSatoshi + satoshi) in
        if totalSatoshi <? 0 then rule ErrBadTxOutValue
        else if MaxSatoshi <? totalSatoshi then rule ErrBadTxOutValue
        else
          let! _ := match Assets txOut with
                    | [] => Ok tt
                    | asset :: assets => check_sorted (Name asset) assets
                    end in
          sanity_outputs outs totalSatoshi
  end.

Fixpoint duplicate_input (seen : gset OutPoint) (ins : list TxIn) : bool :=
  match ins with
  | [] => false
  | ti :: ins =>
      if bool_decide (PreviousOutPoint ti ∈ seen) then true
      else duplicate_input ({[PreviousOutPoint ti]} ∪ seen) ins
  end.

(** [txscript.IsEnvelope] returns a plain boolean. *)
Definition envelope (script : bytes) : result ChainError bool :=
  match IsEnvelope script with
  | Ok b => Ok b
  | Err _ => Ok false
  | Panic => Panic
  end.

Fixpoint any_envelope (scripts : list bytes) : result ChainError bool :=
  match scripts with
  | [] => Ok false
  | s :: scripts =>
      let! b := envelope s in
      if b then Ok true else any_envelope scripts
  end.

Fixpoint check_envelopes (ins : list TxIn) : result ChainError unit :=
  match ins with
  | [] => Ok tt
  | ti :: ins =>
      let! b := any_envelope (SignatureScript ti :: Witness ti) in
      if b then rule ErrOrdinalsNotAllowed else check_envelopes ins
  end.

Definition CheckTransactionSanity (tx : MsgTx) : result ChainError unit :=
  if len (TxIns tx) =? 0 then rule ErrNoTxInputs
  else if len (TxOuts tx) =? 0 then rule ErrNoTxOutputs
  else if MaxBlockBaseSize <? SerializeSizeStripped tx then rule ErrTxTooBig
  else
    let! _ := sanity_outputs (TxOuts tx) 0 in
    if duplicate_input ∅ (TxIns tx) then rule ErrDuplicateTxInputs
    else
      let! _ :=
        (if IsCoinBaseTx tx then
           match TxIns tx with
           | ti :: _ =>
               let slen := len (SignatureScript ti) in
               if (slen <? MinCoinbaseScriptLen) || (MaxCoinbaseScriptLen <? slen)
               then rule ErrBadCoinbaseScriptLen else Ok tt
           | [] => Panic
           end
         else if existsb (fun ti => isNullOutpoint (PreviousOutPoint ti)) (TxIns tx)
         then rule ErrBadTxInput else Ok tt) in
      check_envelopes (TxIns tx).

(** ** Inputs *)

(** The bindings of the assets of the inputs. *)
Fixpoint collect_assets (metadata : gmap AssetName Z) (assets : list AssetInfo)
    : result ChainError (gmap AssetName Z) :=
  match assets with
  | [] => Ok metadata
  | asset :: assets =>
      if bool_decide (Name asset = plainName) then rule ErrBadTxOutValue
      else if negb (Decimal_Validate (Amount asset)) || (Decimal_Sign (Amount asset) <? 0)
      then rule ErrBadTxOutValue
      else
        match metadata !! Name asset with
        | Some binding =>
            if negb (binding =? BindingSat asset) then rule ErrBadTxOutValue
            else collect_assets (<[Name asset := BindingSat asset]> metadata) assets
        | None => collect_assets (<[Name asset := BindingSat asset]> metadata) assets
        end
  end.

Fixpoint collect_inputs (view : UtxoViewpoint) (metadata : gmap AssetName Z) (ins : list TxIn)
    : result ChainError (gmap AssetName Z) :=
  match ins with
  | [] => Ok metadata
  | ti :: ins =>
      match LookupEntry view (PreviousOutPoint ti) with
      | None => rule ErrMissingTxOut
      | Some entry =>
          if IsSpent entry then rule ErrMissingTxOut
          else
            let! metadata := collect_assets metadata (txAssets entry) in
            collect_inputs view metadata ins
      end
  end.

Definition bound_as (metadata : gmap AssetName Z) (asset : AssetInfo) : bool :=
  match metadata !! Name asset with
  | Some binding => binding =? BindingSat asset
  | None => false
  end.

Definition checkTransactionAssetBindings (tx : MsgTx) (view : UtxoViewpoint) : result ChainError unit :=
  let! metadata := collect_inputs view ∅ (TxIns tx) in
  if forallb (fun out => forallb (bound_as metadata) (Assets out)) (TxOuts tx) then Ok tt
  else rule ErrBadTxOutValue.

(** The parameters of the chain the rules use. *)
Record Params : Type := mkParams {
  TestNet : bool;
  GenesisHash : bytes;
  CoinbaseMaturity : Z;
  SubsidyReductionInterval : Z;
  BIP0034Height : Z;
  p_POSV2Height : Z;
  NativeAssetHeight : Z;
}.

Definition NativeAssetsActive (p : Params) (height : Z) : bool :=
  (0 <? NativeAssetHeight p) && (NativeAssetHeight p <=? height).

(** The loop over the inputs: the satoshis and the assets they bring. *)
Fixpoint sum_inputs (params : Params) (view : UtxoViewpoint) (txHeight : Z) (ins : list TxIn) (totalSatoshiIn : Z)
    (totalInTxAssets : list AssetInfo) : result ChainError (Z * list AssetInfo) :=
  match ins with
  | [] => Ok (totalSatoshiIn, totalInTxAssets)
  | ti :: ins =>
      match LookupEntry view (PreviousOutPoint ti) with
      | None => rule ErrMissingTxOut
      | Some utxo =>
          if IsSpent utxo then rule ErrMissingTxOut
          else if IsCoinBase utxo && (int32 (txHeight - entryHeight utxo) <? CoinbaseMaturity params)
          then rule ErrImmatureSpend
          else if amount utxo <? 0 then rule ErrBadTxOutValue
          else if MaxSatoshi <? amount utxo then rule ErrBadTxOutValue
          else
            let lastSatoshiIn := totalSatoshiIn in
            let totalSatoshiIn := int64 (totalSatoshiIn + amount utxo) in
            let '(totalInTxAssets, ok) := TxAssets_Merge totalInTxAssets (txAssets utxo) in
            if negb ok then rule ErrBadTxOutValue
            else if (totalSatoshiIn <? lastSatoshiIn) || (MaxSatoshi <? totalSatoshiIn) then rule ErrBadTxOutValue
            else sum_inputs params view txHeight ins totalSatoshiIn totalInTxAssets
      end
  end.

(** The loop over the outputs: what they take from the assets of the inputs. *)
Fixpoint split_outputs (assets : list AssetInfo) (outs : list TxOut) (totalSatoshiOut : Z)
    : result ChainError (Z * list AssetInfo) :=
  match outs with
  | [] => Ok (totalSatoshiOut, assets)
  | txOut :: outs =>
      let '(assets, ok) := TxAssets_Split assets (Assets txOut) in
      if negb ok then rule ErrBadFees
      else split_outputs assets outs (int64 (totalSatoshiOut + Value txOut))
  end.

(** ** Anchors ([anchortx/anchortx.go]) *)

Definition same_binding (assets : list AssetInfo) (asset : AssetInfo) : bool :=
  match TxAssets_Find assets (Name asset) with
  | Some original => BindingSat original =? BindingSat asset
  | None => false
  end.

(** The loop over the outputs of an anchor; the result of [Merge] is not looked at. *)
Fixpoint anchor_outputs (locked : AscendInfo) (outs : list TxOut) (anchorValue : Z) (anchorAssets : list AssetInfo)
    : result ChainError (Z * list AssetInfo) :=
  match outs with
  | [] => Ok (anchorValue, anchorAssets)
  | out :: outs =>
      let! refused :=
        match ReadDataFromNullDataScript (PkScript out) with
        | Ok (operation, _) =>
            Ok ((operation =? CONTENT_TYPE_DESCENDING) || (operation =? CONTENT_TYPE_BINDREFERRER)
                || (operation =? CONTENT_TYPE_UNSTAKE))
        | Err _ => Ok false
        | Panic => Panic
        end in
      if (refused : bool) then Err OtherChainError
      else if negb (forallb (same_binding (as_TxAssets locked)) (Assets out)) then Err OtherChainError
      else anchor_outputs locked outs (int64 (anchorValue + Value out)) (TxAssets_Merge anchorAssets (Assets out)).1
  end.

Definition CheckAnchorTxValid (tx : MsgTx) (bCheckUtxoAssets bindOutputs nativeActive : bool)
    : result ChainError AscendInfo :=
  let! lockedInfo := checkAnchorInput tx bCheckUtxoAssets bindOutputs nativeActive in
  let! '(anchorValue, anchorAssets) := anchor_outputs lockedInfo (TxOuts tx) 0 [] in
  if negb (anchorValue =? ai_Value (as_AnchorInfo lockedInfo)) then Err OtherChainError
  else if negb (TxAssets_Equal anchorAssets (as_TxAssets lockedInfo)) then Err OtherChainError
  else if negb (checkAscendingTickerInfo tx lockedInfo) then Err OtherChainError
  else Ok lockedInfo.

(** ** The inputs of a transaction *)

(** [checkContractBaseGasFee] depends on the classification of contract
    transactions; it can only refuse. *)
Context (checkContractBaseGasFee : MsgTx -> list AssetInfo -> Z -> result ChainError unit).

Definition CheckTransactionInputs (params : Params) (tx : MsgTx) (isNew : bool) (txHeight : Z) (view : UtxoViewpoint)
    : result ChainError (Z * list AssetInfo) :=
  if IsCoinBaseTx tx then Ok (0, [])
  else if IsAnchorTx tx then
    match CheckAnchorTxValid tx isNew (POSV2Active (p_POSV2Height params) txHeight) (NativeAssetsActive params txHeight) with
    | Ok _ => Ok (0, [])
    | Err _ => rule ErrAnchorTXVerifyFailed
    | Panic => Panic
    end
  else
    let! _ := checkTransactionAssetBindings tx view in
    let! '(totalSatoshiIn, assets) := sum_inputs params view txHeight (TxIns tx) 0 [] in
    let! '(totalSatoshiOut, assets) := split_outputs assets (TxOuts tx) 0 in
    if totalSatoshiIn <? totalSatoshiOut then rule ErrSpendTooHigh
    else
      let! _ := checkContractBaseGasFee tx assets txHeight in
      Ok (int64 (totalSatoshiIn - totalSatoshiOut), assets).

(** ** Fees *)

Definition baseSubsidy : Z := 0.

Definition CalcBlockSubsidy (params : Params) (height : Z) : Z :=
  if SubsidyReductionInterval params =? 0 then baseSubsidy
  else Z.shiftr baseSubsidy (uint64 (Z.quot height (SubsidyReductionInterval params))).

Definition checkCoinbaseAssetBindings (actual expected : list AssetInfo) : result ChainError unit :=
  if forallb (same_binding expected) actual then Ok tt else rule ErrBadCoinbaseValue.

Fixpoint coinbase_outputs (expected : list AssetInfo) (outs : list TxOut) (totalSatoshiOut : Z)
    (totalAssetOut : list AssetInfo) : result ChainError (Z * list AssetInfo) :=
  match outs with
  | [] => Ok (totalSatoshiOut, totalAssetOut)
  | txOut :: outs =>
      let! _ := checkCoinbaseAssetBindings (Assets txOut) expected in
      let '(totalAssetOut, ok) := TxAssets_Merge totalAssetOut (Assets txOut) in
      if negb ok then rule ErrBadCoinbaseValue
      else coinbase_outputs expected outs (int64 (totalSatoshiOut + Value txOut)) totalAssetOut
  end.

Definition checkCoinbaseFees (coinbaseTx : MsgTx) (expectedSatoshiOut : Z) (expectedFeeAssets : list AssetInfo)
    : result ChainError unit :=
  let! '(totalSatoshiOut, totalAssetOut) := coinbase_outputs expectedFeeAssets (TxOuts coinbaseTx) 0 [] in
  if expectedSatoshiOut <? totalSatoshiOut then rule ErrBadCoinbaseValue
  else if negb (TxAssets_Split expectedFeeAssets totalAssetOut).2 then rule ErrBadCoinbaseValue
  else Ok tt.

(** ** Signature operations ([blockchain/weight.go]) *)

Definition MaxBlockSigOpsCost : Z := 80000.

Fixpoint sum_sigops (scripts : list bytes) (total : Z) : result ChainError Z :=
  match scripts with
  | [] => Ok total
  | s :: scripts =>
      let! n := GetSigOpCount s in
      sum_sigops scripts (int64 (total + n))
  end.

Definition CountSigOps (tx : MsgTx) : result ChainError Z :=
  let! n := sum_sigops (map SignatureScript (TxIns tx)) 0 in
  sum_sigops (map PkScript (TxOuts tx)) n.

Fixpoint p2sh_sigops (view : UtxoViewpoint) (ins : list TxIn) (totalSigOps : Z) : result ChainError Z :=
  match ins with
  | [] => Ok totalSigOps
  | ti :: ins =>
      match LookupEntry view (PreviousOutPoint ti) with
      | None => rule ErrMissingTxOut
      | Some utxo =>
          if IsSpent utxo then rule ErrMissingTxOut
          else if negb (isScriptHashScript (pkScript utxo)) then p2sh_sigops view ins totalSigOps
          else
            let! numSigOps := GetPreciseSigOpCount (SignatureScript ti) (pkScript utxo) in
            let total := int64 (totalSigOps + numSigOps) in
            if total <? totalSigOps then rule ErrTooManySigOps else p2sh_sigops view ins total
      end
  end.

Definition CountP2SHSigOps (tx : MsgTx) (isCoinBaseTx : bool) (view : UtxoViewpoint) : result ChainError Z :=
  if isCoinBaseTx then Ok 0 else p2sh_sigops view (TxIns tx) 0.

Fixpoint witness_sigops (view : UtxoViewpoint) (ins : list TxIn) (numSigOps : Z) : result ChainError Z :=
  match ins with
  | [] => Ok numSigOps
  | ti :: ins =>
      match LookupEntry view (PreviousOutPoint ti) with
      | None => rule ErrMissingTxOut
      | Some utxo =>
          if IsSpent utxo then rule ErrMissingTxOut
          else
            let! n := GetWitnessSigOpCount (SignatureScript ti) (pkScript utxo) (Witness ti) in
            witness_sigops view ins (int64 (numSigOps + n))
      end
  end.

(** An error of [CountP2SHSigOps] is dropped: the cost is then 0. *)
Definition GetSigOpCost (tx : MsgTx) (isCoinBaseTx : bool) (view : UtxoViewpoint) (bip16 segWit : bool)
    : result ChainError Z :=
  let! n := CountSigOps tx in
  let numSigOps := int64 (n * WitnessScaleFactor) in
  let rest numSigOps := if segWit && negb isCoinBaseTx then witness_sigops view (TxIns tx) numSigOps else Ok numSigOps in
  if bip16 then
    match CountP2SHSigOps tx isCoinBaseTx view with
    | Err _ => Ok 0
    | Panic => Panic
    | Ok p => rest (int64 (numSigOps + int64 (p * WitnessScaleFactor)))
    end
  else rest numSigOps.

Fixpoint sigop_loop (txs : list (nat * MsgTx)) (view : UtxoViewpoint) (bip16 segWit : bool) (totalSigOpCost : Z)
    : result ChainError unit :=
  match txs with
  | [] => Ok tt
  | (i, tx) :: txs =>
      let! sigOpCost := GetSigOpCost tx (Z.of_nat i =? 0) view bip16 segWit in
      let total := int64 (totalSigOpCost + sigOpCost) in
      if (total <? totalSigOpCost) || (MaxBlockSigOpsCost <? total) then rule ErrTooManySigOps
      else sigop_loop txs view bip16 segWit total
  end.

(** ** Sanity of a block *)

Fixpoint sanity_all (txs : list MsgTx) : result ChainError unit :=
  match txs with
  | [] => Ok tt
  | tx :: txs =>
      let! _ := CheckTransactionSanity tx in
      sanity_all txs
  end.

Fixpoint duplicate_tx (seen : gset bytes) (txs : list MsgTx) : bool :=
  match txs with
  | [] => false
  | tx :: txs =>
      if bool_decide (TxHash tx ∈ seen) then true else duplicate_tx ({[TxHash tx]} ∪ seen) txs
  end.

Fixpoint sanity_sigops (txs : list MsgTx) (totalSigOps : Z) : result ChainError unit :=
  match txs with
  | [] => Ok tt
  | tx :: txs =>
      let! n := CountSigOps tx in
      let total := int64 (totalSigOps + int64 (n * WitnessScaleFactor)) in
      if (total <? totalSigOps) || (MaxBlockSigOpsCost <? total) then rule ErrTooManySigOps
      else sanity_sigops txs total
  end.

Definition MaxTimeOffsetSeconds : Z := 2 * 60 * 60.

(** The call of [checkProofOfWork] is commented out, and a time stamp here is a
    number of seconds, so the precision check cannot fail. *)
Definition CheckBlockHeaderSanity (adjustedTime : Z) (header : BlockHeader) : result ChainError unit :=
  if adjustedTime + MaxTimeOffsetSeconds <? Timestamp header then rule ErrTimeTooNew else Ok tt.

Definition checkBlockSanity (adjustedTime : Z) (block : MsgBlock) : result ChainError unit :=
  let! _ := CheckBlockHeaderSanity adjustedTime (Header block) in
  let numTx := len (Transactions block) in
  if numTx =? 0 then rule ErrNoTransactions
  else if MaxBlockBaseSize <? numTx then rule ErrBlockTooBig
  else if MaxBlockBaseSize <? MsgBlock_SerializeSizeStripped block then rule ErrBlockTooBig
  else
    match Transactions block with
    | [] => Panic
    | tx0 :: rest =>
        if negb (IsCoinBaseTx tx0) then rule ErrFirstTxNotCoinbase
        else if existsb IsCoinBaseTx rest then rule ErrMultipleCoinbases
        else
          let! _ := sanity_all (Transactions block) in
          let! root := CalcMerkleRoot (map NewTx (Transactions block)) false in
          if negb (bytes_eqb (MerkleRoot (Header block)) root) then rule ErrBadMerkleRoot
          else if duplicate_tx ∅ (Transactions block) then rule ErrDuplicateTx
          else sanity_sigops (Transactions block) 0
    end.

(** ** Anchors of a block *)

(** The exceptions [checkAnchorTxsUnique] makes for old blocks of the test
    network, by block and transaction identifiers in text. *)
Definition legacySameAnchor (params : Params) (height : Z) (hash : bytes) : bool :=
  TestNet params
  && (((height =? 1708) && bytes_eqb hash (str "ac11b5d39e67af3ea2177150be8021a969383c7528675e97a4c6c93ce4785964"))
      || ((height =? 1709) && bytes_eqb hash (str "7120c6cb241034f458893b38d7a01e8c8b65fd7962c0b42ac76e526ea355ef30"))).

Definition legacy1748 (params : Params) (height : Z) (hash : bytes) : bool :=
  TestNet params && (height =? 1748)
  && bytes_eqb hash (str "af898ea0b898e1e93024aef9e39aefd26077421666eabbac37f14f7743fa712e").

Definition approved1748Anchor (params : Params) (height : Z) (hash txid : bytes) : bool :=
  legacy1748 params height hash
  && (bytes_eqb txid (str "12818525d7a1a6801dce1143e03c2b4bea6f59c8e76c2e7dad1cb6f2fff094e7")
      || bytes_eqb txid (str "ffd55194f0dae8daf18b1831fda96257cd73ad835869838cc49c1cf1f6bcbd49")).

Definition reused_ok (params : Params) (height : Z) (hash txid anchored : bytes) : bool :=
  (legacySameAnchor params height hash
   && bytes_eqb txid (str "2025513a5ad2bdb180bc1d239915fa813237f9c6724acfcaf5ae02971d803215") && bytes_eqb anchored txid)
  || (approved1748Anchor params height hash anchored && approved1748Anchor params height hash txid)
  || (legacy1748 params height hash
      && bytes_eqb txid (str "5da834f2e726daac5341dec4d7ce20c906969ac8517fb3b7f776b703b72030e9")
      && (bytes_eqb anchored (str "5387e75dbb0b585ee6aa43cef65fe55854485202ca2cd4b6c10fb36fea04d89e")
          || bytes_eqb anchored txid)).

(** The loop over the transactions; [seen] holds the transaction of each locked
    output.  An error of [FetchAnchorTx] counts as not anchored. *)
Fixpoint anchors_unique (params : Params) (bucket : gmap bytes bytes) (height : Z) (hash : bytes)
    (seen : gmap bytes bytes) (txs : list MsgTx) : result ChainError unit :=
  match txs with
  | [] => Ok tt
  | tx :: txs =>
      if negb (IsAnchorTx tx) then anchors_unique params bucket height hash seen txs
      else
        match GetLockedTxInfo tx false (POSV2Active (p_POSV2Height params) height) (NativeAssetsActive params height) with
        | Err _ => rule ErrAnchorTXVerifyFailed
        | Panic => Panic
        | Ok lockedInfo =>
            let duplicate :=
              match seen !! ai_Utxo lockedInfo with
              | Some prev => bytes_eqb prev (TxID tx) || negb (approved1748Anchor params height hash prev)
                             || negb (approved1748Anchor params height hash (TxID tx))
              | None => false
              end in
            if duplicate then rule ErrAnchorTXVerifyFailed
            else
              let seen := <[ai_Utxo lockedInfo := TxID tx]> seen in
              match dbFetchAnchorTxInfo bucket (ai_Utxo lockedInfo) with
              | Panic => Panic
              | Err _ => anchors_unique params bucket height hash seen txs
              | Ok info =>
                  if reused_ok params height hash (TxID tx) (AnchorTxid info)
                  then anchors_unique params bucket height hash seen txs
                  else rule ErrAnchorTXVerifyFailed
              end
        end
  end.

Definition checkAnchorTxsUnique (params : Params) (bucket : gmap bytes bytes) (block : MsgBlock) (height : Z)
    : result ChainError unit :=
  anchors_unique params bucket height (hex_encode (reverse (MsgBlock_BlockHash block))) ∅ (Transactions block).

(** ** Connecting a block *)

Definition isBIP0030Node (height : Z) (hash : bytes) : bool :=
  ((height =? 91842)
   && bytes_eqb hash (str "00000000000a4d0a398161ffc163c503763b1f4360639393e0e4c8e300e0caec"))
  || ((height =? 91880)
      && bytes_eqb hash (str "00000000000743f190a18c5577a3c2d2a1f610ae9601ac046a38084ccb7cd721")).

Definition checkBIP0030 (txs : list MsgTx) (view : UtxoViewpoint) (c : utxoCache)
    : result ChainError (UtxoViewpoint * utxoCache) :=
  let fetch := concat (map (fun tx => imap (fun i _ => mkOutPoint (TxHash tx) (uint32 (Z.of_nat i))) (TxOuts tx)) txs) in
  let! '(view, c) := fetchUtxos view c fetch in
  if existsb (fun o => match LookupEntry view o with Some e => negb (IsSpent e) | None => false end) fetch
  then rule ErrOverwriteTx
  else Ok (view, c).

(** The loop that checks the inputs of each transaction, adds up the fees and
    connects the transaction to the view. *)
Fixpoint connect_loop (params : Params) (height : Z) (txs : list MsgTx) (view : UtxoViewpoint)
    (stxos : option (list SpentTxOut)) (totalFees : Z) (totalFeeAssets : list AssetInfo)
    : result ChainError (UtxoViewpoint * option (list SpentTxOut) * Z * list AssetInfo) :=
  match txs with
  | [] => Ok (view, stxos, totalFees, totalFeeAssets)
  | tx :: txs =>
      let! '(txFee, feeAssets) := CheckTransactionInputs params tx false height view in
      let lastTotalFees := totalFees in
      let totalFees := int64 (totalFees + txFee) in
      let '(totalFeeAssets, ok) := TxAssets_Merge totalFeeAssets feeAssets in
      if negb ok then rule ErrBadFees
      else if totalFees <? lastTotalFees then rule ErrBadFees
      else
        let! '(view, stxos) := connectTransaction view tx height stxos in
        connect_loop params height txs view stxos totalFees totalFeeAssets
  end.

(** The contract rules of the block, and what follows the coinbase check: sequence
    locks and scripts.  They can only refuse. *)
Context (validateContractBlock : MsgBlock -> UtxoViewpoint -> result ChainError unit).
Context (checkScripts : MsgBlock -> UtxoViewpoint -> result ChainError unit).

Definition checkConnectBlock (params : Params) (enforceBIP0016 enforceSegWit : bool) (bucket : gmap bytes bytes)
    (c : utxoCache) (block : MsgBlock) (height : Z) (view : UtxoViewpoint) (stxos : option (list SpentTxOut))
    : result ChainError (UtxoViewpoint * option (list SpentTxOut) * utxoCache) :=
  let hash := MsgBlock_BlockHash block in
  let txs := Transactions block in
  if bytes_eqb hash (GenesisHash params) then rule ErrMissingTxOut
  else if negb (bytes_eqb (bestHash view) (PrevBlock (Header block))) then Err AssertError
  else
    let! '(view, c) :=
      (if negb (isBIP0030Node height (hex_encode (reverse hash))) && (height <? BIP0034Height params)
       then checkBIP0030 txs view c else Ok (view, c)) in
    let! '(view, c) := fetchInputUtxos view c txs height in
    let! _ := validateContractBlock block view in
    let! _ := checkAnchorTxsUnique params bucket block height in
    let! _ := sigop_loop (indexed txs) view enforceBIP0016 enforceSegWit 0 in
    let! '(view, stxos, totalFees, totalFeeAssets) := connect_loop params height txs view stxos 0 [] in
    let expectedSatoshiOut := int64 (CalcBlockSubsidy params height + totalFees) in
    let! tx0 := unwrap (txs !! 0%nat) in
    let! _ := checkCoinbaseFees tx0 expectedSatoshiOut totalFeeAssets in
    let! _ := checkScripts block view in
    Ok (SetBestHash view hash, stxos, c).

End Validate.
