(* ===== verification/Supply.v ===== *)
(** * Conservation of satoshis and assets

    A block that [checkConnectBlock] accepts spends outputs that exist and are
    unspent where it spends them, and creates nothing: what the chain holds of
    satoshis and of every asset grows only by what anchor transactions bring. *)

From Stdlib Require Import ZArith Lia QArith Qcanon Lqa.
From stdpp Require Import base list numbers option strings gmap sets.
From S2P Require Import Prelude ScriptNum Tokenizer ScriptBuilder ScriptStd Sha Wire SigHash Block Merkle Utxo AnchorStore.
From S2P Require Import UtxoCache ChainState Anchor Validate.

#[local] Open Scope Z_scope.

(** ** Rational amounts *)

Lemma this_plus (a b : Qc) : (this (a + b)%Qc == this a + this b)%Q.
Proof. apply Qred_correct. Qed.

Lemma this_eq (a b : Qc) : a = b -> (this a == this b)%Q.
Proof. by intros ->. Qed.

Lemma this_zero : (this 0%Qc == 0)%Q.
Proof. done. Qed.

(** Linear arithmetic on canonical rationals. *)
Ltac qc_lra :=
  repeat match goal with H : @eq Qc _ _ |- _ => apply this_eq in H end;
  try apply Qc_is_canon;
  unfold Qcle in *;
  repeat match goal with
         | H : context [this (?a + ?b)%Qc] |- _ => rewrite (this_plus a b) in H
         | |- context [this (?a + ?b)%Qc] => rewrite (this_plus a b)
         end;
  pose proof this_zero; Lqa.lra.

Definition Qcsum (l : list Qc) : Qc := foldr Qcplus 0%Qc l.

Lemma Qcsum_app l k : Qcsum (l ++ k) = (Qcsum l + Qcsum k)%Qc.
Proof.
  induction l as [|x l IH]; unfold Qcsum in *; cbn [app foldr].
  - qc_lra.
  - rewrite IH. qc_lra.
Qed.

Definition of_Z (z : Z) : Qc := Q2Qc (inject_Z z).

Lemma of_Z_plus a b : of_Z (a + b) = (of_Z a + of_Z b)%Qc.
Proof. apply Qc_is_canon. rewrite this_plus. unfold of_Z. cbn [this Q2Qc]. rewrite !Qred_correct. by rewrite inject_Z_plus. Qed.

Lemma of_Z_le a b : (of_Z a <= of_Z b)%Qc <-> a <= b.
Proof. unfold Qcle, of_Z. cbn [this Q2Qc]. rewrite !Qred_correct. by rewrite Zle_Qle. Qed.

(** ** Laws of the asset module

    What a list of assets holds of an asset, the value of an amount given. *)

Section Held.
Context `{D : DecimalOps} (value : Decimal -> Qc).

Definition held (l : list AssetInfo) (n : AssetName) : Qc :=
  Qcsum (map (fun a => if bool_decide (Name a = n) then value (Amount a) else 0%Qc) l).

End Held.

(** Merging adds up, splitting takes away and only what is there, and a valid
    amount whose sign is not negative is not negative. *)
Class AssetLaws `{D : DecimalOps} (AO : AssetOps D) : Type := {
  Decimal_value : Decimal -> Qc;
  value_sign d : Decimal_Validate d = true -> 0 <= Decimal_Sign d -> (0 <= Decimal_value d)%Qc;
  merge_held a b c n : TxAssets_Merge a b = (c, true) ->
    held Decimal_value c n = (held Decimal_value a n + held Decimal_value b n)%Qc;
  split_held a b c n : TxAssets_Split a b = (c, true) ->
    held Decimal_value a n = (held Decimal_value b n + held Decimal_value c n)%Qc;
  split_enough a b c n : TxAssets_Split a b = (c, true) ->
    (0 <= held Decimal_value a n)%Qc -> (0 <= held Decimal_value b n)%Qc ->
    (held Decimal_value b n <= held Decimal_value a n)%Qc;
}.

(** ** What coins amount to *)

(** What is counted: satoshis, or one asset. *)
Inductive unit_of : Type :=
| Satoshi
| AssetUnit (n : AssetName).

Section Total.
Context `{D : DecimalOps} {AO : AssetOps D} {AL : AssetLaws AO}.

Definition worth (u : unit_of) (v : Z) (l : list AssetInfo) : Qc :=
  match u with
  | Satoshi => of_Z v
  | AssetUnit n => held Decimal_value l n
  end.

Definition coin_worth (u : unit_of) (c : SpentTxOut) : Qc := worth u (st_Amount c) (st_Assets c).
Definition outs_worth (u : unit_of) (outs : list TxOut) : Qc :=
  Qcsum (map (fun out => worth u (Value out) (Assets out)) outs).
Definition coins_worth (u : unit_of) (cs : list SpentTxOut) : Qc := Qcsum (map (coin_worth u) cs).

(** What a set of coins amounts to. *)
Definition supply (u : unit_of) (U : gmap OutPoint SpentTxOut) : Qc :=
  map_fold (fun _ c acc => (coin_worth u c + acc)%Qc) 0%Qc U.

Definition sound_coin (c : SpentTxOut) : Prop := forall u, (0 <= coin_worth u c)%Qc.
Definition sound_coins (U : gmap OutPoint SpentTxOut) : Prop := forall o c, U !! o = Some c -> sound_coin c.
Definition sound_out (out : TxOut) : Prop := forall u, (0 <= worth u (Value out) (Assets out))%Qc.

Lemma supply_insert u U o c : U !! o = None -> supply u (<[o := c]> U) = (coin_worth u c + supply u U)%Qc.
Proof. intros Ho. unfold supply. rewrite map_fold_insert_L; [done| |done]. intros. qc_lra. Qed.

Lemma supply_delete u U o c : U !! o = Some c -> supply u U = (coin_worth u c + supply u (delete o U))%Qc.
Proof.
  intros Ho. rewrite <- (insert_delete_id U o c Ho) at 1. apply supply_insert. by rewrite lookup_delete_eq.
Qed.

Lemma supply_insert_le u U o c : sound_coins U -> (supply u (<[o := c]> U) <= coin_worth u c + supply u U)%Qc.
Proof.
  intros HU. destruct (U !! o) as [c'|] eqn:Ho; [|rewrite supply_insert by done; qc_lra].
  rewrite (supply_delete u U o c' Ho), <- insert_delete_eq, supply_insert by (by rewrite lookup_delete_eq).
  pose proof (HU o c' Ho u). qc_lra.
Qed.

Lemma sound_insert U o c : sound_coins U -> sound_coin c -> sound_coins (<[o := c]> U).
Proof. intros HU Hc o' c' [[<- <-]|[_ Ho]]%lookup_insert_Some; [done|by apply (HU o')]. Qed.

(** Outputs add at most their worth. *)
Lemma supply_add_coins u outs U hash i cb h :
  sound_coins U -> Forall sound_out outs ->
  sound_coins (add_coins U hash i outs cb h)
  /\ (supply u (add_coins U hash i outs cb h) <= supply u U + outs_worth u outs)%Qc.
Proof.
  intros HU Ho. revert U i HU. induction Ho as [|out outs Hout Ho IH]; intros U i HU.
  { split; [done|]. unfold outs_worth. cbn [add_coins map Qcsum foldr]. qc_lra. }
  cbn [add_coins]. unfold outs_worth in *. cbn [map Qcsum foldr].
  destruct (unspendable (PkScript out)).
  - destruct (IH U (i + 1) HU) as [Hs Hle]. split; [done|]. pose proof (Hout u). unfold Qcsum in *. qc_lra.
  - destruct (IH (<[mkOutPoint hash (uint32 i) := new_coin out cb h]> U) (i + 1)) as [Hs Hle].
    { apply sound_insert; [done|exact Hout]. }
    split; [done|]. pose proof (supply_insert_le u U (mkOutPoint hash (uint32 i)) (new_coin out cb h) HU) as Hi.
    change (coin_worth u (new_coin out cb h)) with (worth u (Value out) (Assets out)) in Hi. unfold Qcsum in *. qc_lra.
Qed.

(** Spending takes exactly the worth of the coins. *)
Lemma supply_spend_coins u ins U cs :
  input_coins U ins = Some cs -> supply u U = (supply u (spend_coins U ins) + coins_worth u cs)%Qc.
Proof.
  revert U cs. induction ins as [|ti ins IH]; intros U cs Hcs; cbn [input_coins] in Hcs.
  { simplify_eq. unfold coins_worth. cbn [spend_coins foldl map Qcsum foldr]. qc_lra. }
  apply bind_Some in Hcs as (c & Hc & Hcs). apply bind_Some in Hcs as (cs' & Hcs' & ?). simplify_eq.
  rewrite (supply_delete u _ _ _ Hc), (IH _ _ Hcs'). unfold coins_worth. cbn [map Qcsum foldr spend_coins foldl].
  unfold spend_coins, Qcsum. qc_lra.
Qed.

Lemma sound_spend_coins U ins : sound_coins U -> sound_coins (spend_coins U ins).
Proof. intros HU o c Ho. apply (HU o). by eapply spend_coins_subset. Qed.

(** The supply after a transaction. *)
Lemma supply_after_tx u U tx h :
  sound_coins U -> Forall sound_out (TxOuts tx) ->
  (transactionConsumesSpendJournal tx (IsCoinBaseTx tx) = true -> exists cs, input_coins U (TxIns tx) = Some cs) ->
  sound_coins (after_tx U tx h)
  /\ (supply u (after_tx U tx h) + coins_worth u (spent_coins U tx) <= supply u U + outs_worth u (TxOuts tx))%Qc.
Proof.
  intros HU Ho Hin. unfold after_tx, spent_coins. destruct (transactionConsumesSpendJournal _ _).
  - destruct (Hin eq_refl) as (cs & Hcs). rewrite Hcs. cbn [default]. unfold id.
    destruct (supply_add_coins u (TxOuts tx) (spend_coins U (TxIns tx)) (TxHash tx) 0 (IsCoinBaseTx tx) h) as [Hs Hle];
      [by apply sound_spend_coins|done|]. split; [done|]. pose proof (supply_spend_coins u _ _ _ Hcs). qc_lra.
  - destruct (supply_add_coins u (TxOuts tx) U (TxHash tx) 0 (IsCoinBaseTx tx) h HU Ho) as [Hs Hle].
    split; [done|]. unfold coins_worth. cbn [map Qcsum foldr]. qc_lra.
Qed.

End Total.

(** ** The checks of amounts *)

Section Amounts.
Context `{D : DecimalOps} {AO : AssetOps D} {AL : AssetLaws AO}.

(** Satoshis of the outputs. *)
Definition out_sats (outs : list TxOut) : Z := sum_of Value outs.

Lemma outs_sats outs : outs_worth Satoshi outs = of_Z (out_sats outs).
Proof.
  unfold outs_worth, out_sats. induction outs as [|out outs IH]; [by apply Qc_is_canon|].
  cbn [map Qcsum foldr sum_of worth] in *. unfold Qcsum, sum_of in *. by rewrite IH, of_Z_plus.
Qed.

Lemma held_nonneg l n :
  Forall (fun a => Decimal_Validate (Amount a) = true /\ 0 <= Decimal_Sign (Amount a)) l ->
  (0 <= held Decimal_value l n)%Qc.
Proof.
  induction 1 as [|a l [Hv Hs] _ IH]; unfold held in *; cbn [map Qcsum foldr] in *; [qc_lra|].
  pose proof (value_sign _ Hv Hs). unfold Qcsum in *. destruct (bool_decide _); qc_lra.
Qed.

Lemma binding_sats_signs l t r :
  binding_sats l t = Ok r -> Forall (fun a => Decimal_Validate (Amount a) = true /\ 0 <= Decimal_Sign (Amount a)) l.
Proof.
  revert t. induction l as [|a l IH]; intros t Hr; [constructor|]. cbn [binding_sats] in Hr.
  destruct (Decimal_Validate (Amount a)) eqn:Hv; cbn [negb] in Hr; [|done].
  destruct (Z.ltb_spec (Decimal_Sign (Amount a)) 0); [done|].
  constructor; [done|]. destruct (BindingSat a =? 0); [by eapply IH|].
  destruct (Decimal_Rat (Amount a)) as [[num denom]|]; [|done]. cbv zeta in Hr.
  destruct (_ || _); [done|]. destruct (_ <? _); [done|]. by eapply IH.
Qed.

Lemma checkAssetOutput_held out n : checkAssetOutput out = Ok tt -> (0 <= held Decimal_value (Assets out) n)%Qc.
Proof.
  unfold checkAssetOutput, RequiredBindingSats. destruct (existsb _ _); [done|].
  destruct (binding_sats (Assets out) 0) as [r| |] eqn:Hr; [|done|done]. intros _.
  apply held_nonneg. by eapply binding_sats_signs.
Qed.

(** A transaction that passed the sanity checks. *)
Record sane (tx : MsgTx) : Prop := {
  sane_outs : Forall (fun out => 0 <= Value out /\ forall n, (0 <= held Decimal_value (Assets out) n)%Qc) (TxOuts tx);
  sane_total : out_sats (TxOuts tx) <= MaxSatoshi;
  sane_ins : NoDup (map PreviousOutPoint (TxIns tx));
}.

Lemma sanity_outputs_spec outs t :
  sanity_outputs outs t = Ok tt -> 0 <= t <= MaxSatoshi ->
  Forall (fun out => 0 <= Value out /\ forall n, (0 <= held Decimal_value (Assets out) n)%Qc) outs
  /\ t + out_sats outs <= MaxSatoshi.
Proof.
  revert t. induction outs as [|out outs IH]; intros t Ht Hb.
  { split; [constructor|]. unfold out_sats. cbn [sum_of foldr]. lia. }
  cbn [sanity_outputs] in Ht. apply rbind_ok_inv in Ht as ([] & Ha & Ht).
  destruct (Z.ltb_spec (Value out) 0); [done|]. destruct (Z.ltb_spec MaxSatoshi (Value out)); [done|].
  rewrite int64_id in Ht by (unfold is_int64, MaxSatoshi in *; lia).
  destruct (Z.ltb_spec (t + Value out) 0); [done|]. destruct (Z.ltb_spec MaxSatoshi (t + Value out)); [done|].
  apply rbind_ok_inv in Ht as ([] & _ & Ht). destruct (IH _ Ht ltac:(lia)) as [Ho Hs].
  unfold out_sats in *. cbn [sum_of foldr] in *. unfold sum_of in *.
  split; [constructor; [split; [done|]; intros n; by apply checkAssetOutput_held|done]|lia].
Qed.

Lemma duplicate_input_spec seen ins :
  duplicate_input seen ins = false ->
  NoDup (map PreviousOutPoint ins) /\ Forall (fun o => o ∉ seen) (map PreviousOutPoint ins).
Proof.
  revert seen. induction ins as [|ti ins IH]; intros seen Hd; cbn [duplicate_input map] in *; [by split; constructor|].
  destruct (bool_decide_reflect (PreviousOutPoint ti ∈ seen)) as [|Hn]; [done|].
  destruct (IH _ Hd) as [Hnd Hf]. rewrite Forall_forall in Hf. split; constructor; try done.
  - intros Hin. apply (Hf _ Hin), elem_of_union_l, elem_of_singleton_2, eq_refl.
  - apply Forall_forall. intros o Ho Hs. by apply (Hf _ Ho), elem_of_union_r.
Qed.

Lemma CheckTransactionSanity_ins tx : CheckTransactionSanity tx = Ok tt -> NoDup (map PreviousOutPoint (TxIns tx)).
Proof.
  unfold CheckTransactionSanity. do 3 (case_match; [done|]). intros Hs. apply rbind_ok_inv in Hs as ([] & _ & Hs).
  destruct (duplicate_input ∅ (TxIns tx)) eqn:Hd; [done|]. by apply (duplicate_input_spec ∅).
Qed.

Lemma CheckTransactionSanity_sane tx : CheckTransactionSanity tx = Ok tt -> sane tx.
Proof.
  intros Hs. pose proof (CheckTransactionSanity_ins tx Hs) as Hi. revert Hs.
  unfold CheckTransactionSanity. do 3 (case_match; [done|]). intros Hs. apply rbind_ok_inv in Hs as ([] & Ho & _).
  destruct (sanity_outputs_spec _ _ Ho) as [Hout Ht]; [unfold MaxSatoshi; lia|]. by split.
Qed.

Lemma sane_sound tx : sane tx -> Forall sound_out (TxOuts tx).
Proof.
  intros [Ho _ _]. eapply Forall_impl; [exact Ho|]. intros out [Hv Hh] [|n]; [|apply Hh].
  cbn [worth]. change 0%Qc with (of_Z 0). by apply of_Z_le.
Qed.

Lemma sane_sats tx : sane tx -> 0 <= out_sats (TxOuts tx).
Proof.
  intros [Ho _ _]. unfold out_sats. induction Ho as [|out outs [Hv _] _ IH]; cbn [sum_of foldr] in *; [lia|].
  unfold sum_of in *. lia.
Qed.

Lemma worth_plus u v l v' l' m :
  TxAssets_Merge l l' = (m, true) -> worth u (v + v') m = (worth u v l + worth u v' l')%Qc.
Proof. intros Hm. destruct u as [|n]; cbn [worth]; [apply of_Z_plus|by apply merge_held]. Qed.

(** Coinbase outputs are spent only when they are old enough. *)
Definition mature (params : Params) (txHeight : Z) (c : SpentTxOut) : Prop :=
  st_IsCoinBase c = true -> CoinbaseMaturity params <= int32 (txHeight - st_Height c).

Lemma sum_inputs_spec params view h ins v l v' l' :
  sum_inputs params view h ins v l = Ok (v', l') -> 0 <= v <= MaxSatoshi ->
  exists cs, Forall2 (fun ti c => utxos view !! PreviousOutPoint ti = Some c) ins cs /\ Forall (mature params h) cs
    /\ 0 <= v' <= MaxSatoshi /\ forall u, worth u v' l' = (worth u v l + coins_worth u cs)%Qc.
Proof.
  revert v l. induction ins as [|ti ins IH]; intros v l Hs Hv; cbn [sum_inputs] in Hs.
  { simplify_eq. exists []. split_and!; try done; try constructor; try lia. intros u. unfold coins_worth. cbn [map Qcsum foldr]. qc_lra. }
  destruct (LookupEntry view (PreviousOutPoint ti)) as [e|] eqn:He; [|done].
  destruct (IsSpent e) eqn:Hsp; [done|]. destruct (IsCoinBase e && _) eqn:Hm; [done|].
  destruct (Z.ltb_spec (amount e) 0); [done|]. destruct (Z.ltb_spec MaxSatoshi (amount e)); [done|]. cbv zeta in Hs.
  destruct (TxAssets_Merge l (txAssets e)) as [m []] eqn:Hmerge; cbn [negb] in Hs; [|done].
  rewrite int64_id in Hs by (unfold is_int64, MaxSatoshi in *; lia).
  destruct (_ || _) eqn:Hb; [done|]. bool_to_prop. destruct (IH _ _ Hs ltac:(lia)) as (cs & Hcs & Hmat & Hv' & Hw).
  exists (spent_txout e :: cs). split_and!; [|constructor; [|done]|lia|lia|].
  - constructor; [|done]. rewrite utxos_lookup, He. unfold coin_of. cbn [mbind option_bind]. by rewrite Hsp.
  - intros Hcb. cbn [spent_txout st_IsCoinBase st_Height] in *. rewrite Hcb in Hm. cbn [andb] in Hm. bool_to_prop. lia.
  - intros u. rewrite Hw, (worth_plus u _ _ _ _ _ Hmerge). unfold coins_worth, coin_worth.
    cbn [map Qcsum foldr spent_txout st_Amount st_Assets]. unfold Qcsum. qc_lra.
Qed.

Lemma split_outputs_spec outs l v v' l' :
  split_outputs l outs v = Ok (v', l') ->
  Forall (fun out => 0 <= Value out /\ forall n, (0 <= held Decimal_value (Assets out) n)%Qc) outs ->
  0 <= v -> v + out_sats outs <= MaxSatoshi ->
  v' = v + out_sats outs
  /\ forall n, held Decimal_value l n = (outs_worth (AssetUnit n) outs + held Decimal_value l' n)%Qc
     /\ ((0 <= held Decimal_value l n)%Qc -> (0 <= held Decimal_value l' n)%Qc).
Proof.
  intros Hs Ho. revert l v Hs. induction Ho as [|out outs [Hv Hh] Ho IH]; intros l v Hs Hp Hb; cbn [split_outputs] in Hs.
  { simplify_eq. unfold out_sats, outs_worth. cbn [sum_of map foldr Qcsum]. split; [lia|]. intros n. split; [qc_lra|done]. }
  destruct (TxAssets_Split l (Assets out)) as [m []] eqn:Hsplit; cbn [negb] in Hs; [|done].
  assert (Hr : 0 <= out_sats outs).
  { clear -Ho. unfold out_sats. induction Ho as [|? ? [? _] _ IH]; cbn [sum_of foldr] in *; [lia|]. unfold sum_of in *. lia. }
  unfold out_sats, outs_worth in *. cbn [sum_of map foldr Qcsum] in *. unfold sum_of, Qcsum in *.
  rewrite int64_id in Hs by (unfold is_int64, MaxSatoshi in *; lia).
  destruct (IH _ _ Hs ltac:(lia) ltac:(lia)) as [-> Hn]. split; [lia|]. intros n. destruct (Hn n) as [He Hpos].
  pose proof (split_held _ _ _ n Hsplit) as Hh1. cbn [worth] in *. split; [qc_lra|]. intros Hl. apply Hpos.
  pose proof (split_enough _ _ _ n Hsplit Hl (Hh n)). qc_lra.
Qed.

Context {AE : AnchorEnv D} (checkContractBaseGasFee : MsgTx -> list AssetInfo -> Z -> result ChainError unit).

Abbreviation CheckInputs := (CheckTransactionInputs checkContractBaseGasFee).

(** The fee of an ordinary transaction is what its inputs bring beyond its outputs. *)
Lemma CheckTransactionInputs_spec params tx isNew h view fee fa :
  CheckInputs params tx isNew h view = Ok (fee, fa) -> sane tx -> IsCoinBaseTx tx = false -> IsAnchorTx tx = false ->
  exists cs, Forall2 (fun ti c => utxos view !! PreviousOutPoint ti = Some c) (TxIns tx) cs /\ Forall (mature params h) cs
    /\ 0 <= fee <= MaxSatoshi
    /\ (forall u, coins_worth u cs = (outs_worth u (TxOuts tx) + worth u fee fa)%Qc)
    /\ (Forall sound_coin cs -> forall n, (0 <= held Decimal_value fa n)%Qc).
Proof.
  intros Hc Hsane Hcb Ha. unfold CheckTransactionInputs in Hc. rewrite Hcb, Ha in Hc. inv_bind Hc. inv_bind Hc.
  destruct a0 as [vin lin]. inv_bind Hc. destruct a0 as [vout lout].
  destruct (Z.ltb_spec vin vout); [done|]. inv_bind Hc. simplify_eq.
  destruct (sum_inputs_spec _ _ _ _ _ _ _ _ Hr0) as (cs & Hcs & Hm & Hv & Hw); [unfold MaxSatoshi; lia|].
  pose proof (sane_sats _ Hsane). pose proof (sane_total _ Hsane).
  destruct (split_outputs_spec _ _ _ _ _ Hr1 (sane_outs _ Hsane)) as [-> Hn]; [lia|lia|].
  assert (Hw0 : forall u, worth u 0 [] = 0%Qc) by (intros [|n]; [by apply Qc_is_canon|done]).
  exists cs. rewrite int64_id by (unfold is_int64, MaxSatoshi in *; lia). split_and!; [done|done|lia|lia| |].
  - intros u. pose proof (Hw u) as Hu. rewrite Hw0 in Hu. destruct u as [|n].
    + rewrite outs_sats. cbn [worth] in *. rewrite <- of_Z_plus. replace (out_sats (TxOuts tx) + _) with vin by lia. qc_lra.
    + cbn [worth] in *. pose proof (proj1 (Hn n)). qc_lra.
  - intros Hs n. apply (Hn n). pose proof (Hw (AssetUnit n)) as Hu. rewrite Hw0 in Hu. cbn [worth] in Hu.
    assert (Hpos : (0 <= coins_worth (AssetUnit n) cs)%Qc); [|qc_lra].
    clear -Hs. unfold coins_worth. induction Hs as [|c cs Hc _ IH]; cbn [map Qcsum foldr]; [qc_lra|].
    pose proof (Hc (AssetUnit n)). unfold Qcsum in *. qc_lra.
Qed.

Definition out_amounts_ok (outs : list TxOut) : Prop :=
  Forall (fun out => 0 <= Value out) outs /\ out_sats outs <= MaxSatoshi.

Lemma sane_amounts tx : sane tx -> out_amounts_ok (TxOuts tx).
Proof. intros [Ho Ht _]. split; [|done]. eapply Forall_impl; [exact Ho|]. by intros out [? _]. Qed.

Lemma out_sats_step out outs v :
  0 <= v -> Forall (fun out => 0 <= Value out) (out :: outs) -> v + out_sats (out :: outs) <= MaxSatoshi ->
  int64 (v + Value out) = v + Value out /\ 0 <= v + Value out
  /\ v + Value out + out_sats outs = v + out_sats (out :: outs).
Proof.
  intros Hv Hf Ht. inversion_clear Hf as [|? ? Ho Hf']. assert (Hr : 0 <= out_sats outs).
  { clear -Hf'. unfold out_sats. induction Hf' as [|? ? ? _ IH]; cbn [sum_of foldr] in *; [lia|]. unfold sum_of in *. lia. }
  unfold out_sats in *. cbn [sum_of foldr] in *. unfold sum_of in *.
  rewrite int64_id by (unfold is_int64, MaxSatoshi in *; lia). lia.
Qed.

Lemma coinbase_outputs_spec expected outs v l v' l' :
  coinbase_outputs expected outs v l = Ok (v', l') ->
  0 <= v -> Forall (fun out => 0 <= Value out) outs -> v + out_sats outs <= MaxSatoshi ->
  forall u, worth u v' l' = (worth u v l + outs_worth u outs)%Qc.
Proof.
  revert v l. induction outs as [|out outs IH]; intros v l Hc Hv Hf Ht u; cbn [coinbase_outputs] in Hc.
  { simplify_eq. unfold outs_worth. cbn [map Qcsum foldr]. qc_lra. }
  inv_bind Hc. destruct (TxAssets_Merge l (Assets out)) as [m []] eqn:Hm; cbn [negb] in Hc; [|done].
  destruct (out_sats_step _ _ _ Hv Hf Ht) as (Hi & Hv1 & Ht1). rewrite Hi in Hc. inversion_clear Hf.
  rewrite (IH _ _ Hc Hv1) by (done || lia). rewrite (worth_plus u _ _ _ _ _ Hm).
  unfold outs_worth. cbn [map Qcsum foldr]. unfold Qcsum. qc_lra.
Qed.

Lemma checkCoinbaseFees_spec tx expected fa u :
  checkCoinbaseFees tx expected fa = Ok tt -> sane tx -> (forall n, (0 <= held Decimal_value fa n)%Qc) ->
  (outs_worth u (TxOuts tx) <= worth u expected fa)%Qc.
Proof.
  intros Hc Hs Hfa. destruct (sane_amounts _ Hs) as [Hf Ht]. unfold checkCoinbaseFees in Hc. inv_bind Hc.
  destruct a as [v l]. destruct (Z.ltb_spec expected v); [done|].
  destruct (TxAssets_Split fa l) as [m []] eqn:Hsp; [|done].
  pose proof (coinbase_outputs_spec _ _ _ _ _ _ Hr ltac:(lia) Hf ltac:(lia)) as Hw.
  assert (Hw0 : forall u, worth u 0 [] = 0%Qc) by (intros [|n]; [by apply Qc_is_canon|done]).
  pose proof (Hw u) as Hu. rewrite Hw0 in Hu. destruct u as [|n]; cbn [worth] in *.
  - pose proof (proj2 (of_Z_le v expected) ltac:(lia)). qc_lra.
  - assert (Hl : (0 <= held Decimal_value l n)%Qc); [|pose proof (split_enough _ _ _ n Hsp (Hfa n) Hl); qc_lra].
    rewrite Hu. pose proof (sane_sound _ Hs) as Hso. clear -Hso. unfold outs_worth.
    induction Hso as [|out outs Ho _ IH]; cbn [map Qcsum foldr] in *; [qc_lra|].
    pose proof (Ho (AssetUnit n)). unfold Qcsum in *. qc_lra.
Qed.

Lemma anchor_outputs_sats locked outs v l v' l' :
  anchor_outputs locked outs v l = Ok (v', l') ->
  0 <= v -> Forall (fun out => 0 <= Value out) outs -> v + out_sats outs <= MaxSatoshi -> v' = v + out_sats outs.
Proof.
  revert v l. induction outs as [|out outs IH]; intros v l Hc Hv Hf Ht; cbn [anchor_outputs] in Hc.
  { simplify_eq. unfold out_sats. cbn [sum_of foldr]. lia. }
  inv_bind Hc. destruct a; [done|]. destruct (negb _); [done|].
  destruct (out_sats_step _ _ _ Hv Hf Ht) as (Hi & Hv1 & Ht1). rewrite Hi in Hc. inversion_clear Hf.
  rewrite (IH _ _ Hc Hv1) by (done || lia). lia.
Qed.

(** An anchor creates the satoshis that were locked for it. *)
Lemma CheckAnchorTxValid_sats tx current bind native info :
  CheckAnchorTxValid tx current bind native = Ok info -> sane tx ->
  checkAnchorInput tx current bind native = Ok info /\ out_sats (TxOuts tx) = ai_Value (as_AnchorInfo info).
Proof.
  intros Hc Hs. destruct (sane_amounts _ Hs) as [Hf Ht]. unfold CheckAnchorTxValid in Hc.
  destruct (checkAnchorInput _ _ _ _) as [i| |]; [|done|done]. cbn [rbind] in Hc. inv_bind Hc. destruct a as [v l].
  pose proof (anchor_outputs_sats _ _ _ _ _ _ Hr ltac:(lia) Hf ltac:(lia)).
  destruct (Z.eqb_spec v (ai_Value (as_AnchorInfo i))); cbn [negb] in Hc; [|done].
  do 2 (destruct (negb _); [done|]). simplify_eq. split; [done|lia].
Qed.

End Amounts.
