(* ===== verification/Accept.v ===== *)
(** * Blocks the rules accept

    The view a block is checked against starts empty.  It says of every output the
    block can spend what the chain says at that point of the block, so a block
    that [checkConnectBlock] accepts spends unspent, mature outputs, each once,
    and conserves satoshis and assets. *)

From Stdlib Require Import ZArith Lia QArith Qcanon Lqa.
From stdpp Require Import base list numbers option strings gmap sets.
From S2P Require Import Prelude ScriptNum Tokenizer ScriptBuilder ScriptStd Sha Wire SigHash Block Merkle Utxo AnchorStore.
From S2P Require Import UtxoCache ChainState Anchor Validate Supply.

#[local] Open Scope Z_scope.

(** ** The view of a block *)

Section Tracking.
Context `{D : DecimalOps}.

Lemma out_points_hash hash i outs o : o ∈ out_points hash i outs -> Hash o = hash.
Proof.
  revert i. induction outs as [|out outs IH]; intros i Ho; cbn [out_points] in Ho; [by apply not_elem_of_nil in Ho|].
  destruct (unspendable _); [by eapply IH|]. apply elem_of_cons in Ho as [->|Ho]; [done|by eapply IH].
Qed.

Lemma block_points_in txs o : o ∈ block_points txs -> exists tx, tx ∈ txs /\ o ∈ tx_points tx.
Proof.
  unfold block_points. rewrite list_elem_of_In, in_concat. intros (l & Hl & Ho).
  apply in_map_iff in Hl as (tx & <- & Htx). exists tx. by rewrite !list_elem_of_In.
Qed.

Lemma block_points_hash txs o : o ∈ block_points txs -> Hash o ∈ map TxHash txs.
Proof.
  intros (tx & Htx & Ho)%block_points_in. apply out_points_hash in Ho. rewrite Ho.
  apply list_elem_of_In, in_map, list_elem_of_In, Htx.
Qed.

Lemma block_points_app l k o : o ∈ block_points (l ++ k) <-> o ∈ block_points l \/ o ∈ block_points k.
Proof. unfold block_points. by rewrite map_app, concat_app, elem_of_app. Qed.

(** What a transaction does to an outpoint depends only on that outpoint. *)
Lemma spend_coins_at U W ins o : U !! o = W !! o -> spend_coins U ins !! o = spend_coins W ins !! o.
Proof.
  revert U W. induction ins as [|ti ins IH]; intros U W Ho; [done|]. cbn [spend_coins foldl]. apply IH.
  rewrite !lookup_delete. by destruct (decide _).
Qed.

Lemma add_coins_at U W hash i outs cb h o :
  U !! o = W !! o \/ o ∈ out_points hash i outs ->
  add_coins U hash i outs cb h !! o = add_coins W hash i outs cb h !! o.
Proof.
  revert U W i. induction outs as [|out outs IH]; intros U W i Ho; cbn [add_coins out_points] in *.
  { destruct Ho as [|Ho]; [done|]. by apply not_elem_of_nil in Ho. }
  apply IH. destruct (unspendable _); [done|]. destruct (decide (o = outpoint_at hash i)) as [->|Hne].
  - left. by rewrite !lookup_insert_eq.
  - rewrite !lookup_insert_ne by (intros He; by apply Hne). destruct Ho as [|[|]%elem_of_cons]; [by left|done|by right].
Qed.

Lemma after_tx_at U W tx h o :
  U !! o = W !! o \/ o ∈ tx_points tx -> after_tx U tx h !! o = after_tx W tx h !! o.
Proof.
  intros Ho. unfold after_tx. apply add_coins_at. destruct Ho as [Ho|]; [left|by right].
  destruct (transactionConsumesSpendJournal _ _); [by apply spend_coins_at|done].
Qed.

Lemma after_tx_dom U tx h o : is_Some (after_tx U tx h !! o) -> is_Some (U !! o) \/ o ∈ tx_points tx.
Proof.
  intros Ho. destruct (decide (o ∈ tx_points tx)) as [|Hp]; [by right|left]. unfold after_tx in Ho.
  rewrite lookup_add_coins in Ho by done. destruct (transactionConsumesSpendJournal _ _); [|done].
  destruct Ho as [c Ho]. exists c. by eapply spend_coins_subset.
Qed.

(** The outputs requested from the chain are [needed], the transactions connected
    so far [done_].  The view agrees with the coins [V] of the chain on both, and
    says nothing else but of the block's own outputs. *)
Record tracks (needed : list OutPoint) (done_ todo : list MsgTx) (V : gmap OutPoint SpentTxOut)
    (view : UtxoViewpoint) : Prop := {
  tr_agree : forall o, o ∈ needed \/ o ∈ block_points done_ -> utxos view !! o = V !! o;
  tr_dom : forall o, is_Some (utxos view !! o) -> o ∈ needed \/ o ∈ block_points (done_ ++ todo);
}.

Definition covers_point (needed : list OutPoint) (done_ : list MsgTx) (o : OutPoint) : Prop :=
  o ∈ needed \/ Hash o ∈ map TxHash done_.

(** Each input was requested, or belongs to a transaction before. *)
Fixpoint covered (needed : list OutPoint) (done_ todo : list MsgTx) : Prop :=
  match todo with
  | [] => True
  | tx :: todo =>
      (transactionConsumesSpendJournal tx (IsCoinBaseTx tx) = true ->
       Forall (fun ti => covers_point needed done_ (PreviousOutPoint ti)) (TxIns tx))
      /\ covered needed (done_ ++ [tx]) todo
  end.

(** An output that a covered input finds in the view is the chain's. *)
Lemma tracked_input needed done_ todo V view o c :
  tracks needed done_ todo V view -> NoDup (map TxHash (done_ ++ todo)) -> covers_point needed done_ o ->
  utxos view !! o = Some c -> V !! o = Some c.
Proof.
  intros [Ha Hd] Hnd Hc Ho. rewrite <- Ha; [done|]. destruct Hc as [|Hc]; [by left|].
  destruct (Hd o (ex_intro _ c Ho)) as [|[|Hp]%block_points_app]; [by left|by right|].
  apply block_points_hash in Hp. rewrite map_app in Hnd. apply NoDup_app in Hnd as (_ & Hdis & _). by destruct (Hdis _ Hc).
Qed.

Lemma tracks_step needed done_ tx todo V view view' h :
  tracks needed done_ (tx :: todo) V view -> utxos view' = after_tx (utxos view) tx h ->
  tracks needed (done_ ++ [tx]) todo (after_tx V tx h) view'.
Proof.
  intros [Ha Hd] Hu. split.
  - intros o Ho. rewrite Hu. apply after_tx_at. destruct (decide (o ∈ tx_points tx)) as [|Hp]; [by right|left].
    apply Ha. rewrite block_points_app in Ho. destruct Ho as [|[|Ho]]; [by left|by right|].
    unfold block_points in Ho. cbn [map concat] in Ho. by rewrite app_nil_r in Ho.
  - intros o Ho. rewrite Hu in Ho. rewrite <- app_assoc. cbn [app].
    apply after_tx_dom in Ho as [Ho|Ho]; [by apply Hd|right]. rewrite block_points_app. right.
    unfold block_points. cbn [map concat]. apply elem_of_app. by left.
Qed.

(** ** Filling the view *)

Lemma in_flight_lookup txs h k : in_flight txs !! h = Some k -> exists tx, txs !! k = Some tx /\ TxHash tx = h.
Proof.
  unfold in_flight, indexed.
  assert (Hgen : forall l (m : gmap bytes nat), (forall k tx, (k, tx) ∈ l -> txs !! k = Some tx) ->
    (forall h k, m !! h = Some k -> exists tx, txs !! k = Some tx /\ TxHash tx = h) ->
    forall h k, foldl (fun m p => <[TxHash p.2 := p.1]> m) m l !! h = Some k ->
    exists tx, txs !! k = Some tx /\ TxHash tx = h).
  { induction l as [|[i tx] l IH]; intros m Hl Hm; [done|]. cbn [foldl fst snd]. apply IH.
    - intros k' tx' Hin. apply Hl, elem_of_cons. by right.
    - intros h' k' [[<- <-]|[_ Hk]]%lookup_insert_Some; [|by apply Hm]. exists tx. split; [|done].
      apply Hl, elem_of_cons. by left. }
  apply Hgen; [|intros ? ? ?; by rewrite lookup_empty in *].
  intros i tx (j & y & [= <- <-] & Hy)%elem_of_lookup_imap. done.
Qed.

Lemma addTxOuts_dom view hash i outs cb h o :
  is_Some (entries (addTxOuts_from view hash i outs cb h) !! o) -> is_Some (entries view !! o) \/ o ∈ out_points hash i outs.
Proof.
  revert view i. induction outs as [|out outs IH]; intros view i Ho; cbn [addTxOuts_from out_points] in *; [by left|].
  apply IH in Ho. unfold addTxOut in Ho. destruct (unspendable _); [done|]. rewrite elem_of_cons.
  destruct Ho as [Ho|]; [|by right; right]. cbn [set_entry entries] in Ho.
  destruct (decide (o = outpoint_at hash i)) as [->|Hne]; [by right; left|left].
  by rewrite lookup_insert_ne in Ho by (intros He; by apply Hne).
Qed.

(** While the block is scanned the view only knows outputs of transactions before. *)
Definition known (done_ : list MsgTx) (view : UtxoViewpoint) : Prop :=
  forall o, is_Some (entries view !! o) -> o ∈ block_points done_.

Lemma scan_inputs_covers txs done_ todo h i ins st :
  txs = done_ ++ todo -> length done_ = S i -> known done_ st.1.1 ->
  let st' := scan_inputs txs (in_flight txs) h i ins st in
  known done_ st'.1.1 /\ st.2 ⊆ st'.2 /\ Forall (fun ti => covers_point st'.2 done_ (PreviousOutPoint ti)) ins.
Proof.
  intros Htxs Hlen. revert st. induction ins as [|ti ins IH]; intros [[view loaded] needed] Hk; [by split_and!|].
  cbn [scan_inputs fst snd] in *. set (o := PreviousOutPoint ti).
  assert (Hkeep : forall st1, known done_ st1.1.1 -> needed ⊆ st1.2 -> covers_point st1.2 done_ o ->
    let st' := scan_inputs txs (in_flight txs) h i ins st1 in known done_ st'.1.1 /\ needed ⊆ st'.2
    /\ Forall (fun ti => covers_point st'.2 done_ (PreviousOutPoint ti)) (ti :: ins)).
  { intros st1 Hk1 Hn1 Hc1. destruct (IH st1 Hk1) as (Hk' & Hs' & Hf'). split_and!; [done|by etrans|].
    constructor; [|done]. destruct Hc1 as [Hc1|]; [left; by apply Hs'|by right]. }
  assert (Hreq : let st1 := if non_nil (entries view !! o) then (view, loaded, needed) else (view, loaded, needed ++ [o]) in
    known done_ st1.1.1 /\ needed ⊆ st1.2 /\ covers_point st1.2 done_ o).
  { destruct (entries view !! o) as [e|] eqn:He; cbn [non_nil fst snd].
    - split_and!; [done|done|]. right. apply block_points_hash, Hk. by exists e.
    - split_and!; [done|by intros ? ?; apply elem_of_app; left|]. left. apply elem_of_app. right. by apply list_elem_of_singleton. }
  destruct Hreq as (Hr1 & Hr2 & Hr3).
  destruct (in_flight txs !! Hash o) as [k|] eqn:Hfl; [|by apply Hkeep].
  destruct (bool_decide_reflect (k <= i)%nat) as [Hle|]; [|by apply Hkeep].
  apply in_flight_lookup in Hfl as (tx & Htx & Hh).
  assert (Hin : tx ∈ done_).
  { rewrite Htxs, lookup_app_l in Htx by lia. by eapply list_elem_of_lookup_2. }
  assert (Hcov : forall l, covers_point l done_ o)
    by (intros l; right; rewrite <- Hh; by apply list_elem_of_In, in_map, list_elem_of_In).
  destruct (bool_decide (k ∈ loaded)); [by apply Hkeep|]. rewrite Htx. apply Hkeep; [|done|done].
  intros o' [?|Ho']%addTxOuts_dom; [by apply Hk|]. apply list_elem_of_lookup in Hin as [k' Hk'].
  by eapply tx_points_in.
Qed.

Lemma scan_txs_covers txs done_ todo h i st :
  txs = done_ ++ todo -> length done_ = S i -> known done_ st.1.1 -> Forall (fun tx => IsCoinBaseTx tx = false) todo ->
  let st' := scan_txs txs (in_flight txs) h i todo st in
  known txs st'.1.1 /\ st.2 ⊆ st'.2 /\ covered st'.2 done_ todo.
Proof.
  intros Htxs Hlen Hk Hcb. revert done_ i st Htxs Hlen Hk.
  induction Hcb as [|tx todo Htx Hcb IH]; intros done_ i st Htxs Hlen Hk; cbn [scan_txs].
  { rewrite app_nil_r in Htxs. by subst. }
  set (st1 := if negb _ then _ else _).
  assert (H1 : known (done_ ++ [tx]) st1.1.1 /\ st.2 ⊆ st1.2
    /\ (transactionConsumesSpendJournal tx (IsCoinBaseTx tx) = true ->
        Forall (fun ti => covers_point st1.2 done_ (PreviousOutPoint ti)) (TxIns tx))).
  { rewrite Htx. subst st1. destruct (transactionConsumesSpendJournal tx false); cbn [negb].
    - destruct (scan_inputs_covers txs done_ (tx :: todo) h i (TxIns tx) st Htxs Hlen Hk) as (Hk' & Hs & Hf).
      split_and!; [|done|done]. intros o Ho. apply block_points_app. left. by apply Hk'.
    - split_and!; [|done|done]. intros o Ho. apply block_points_app. left. by apply Hk. }
  destruct H1 as (Hk1 & Hs1 & Hc1).
  destruct (IH (done_ ++ [tx]) (S i) st1) as (Hk' & Hs' & Hc'); [by rewrite <- app_assoc|rewrite length_app; simpl; lia|done|].
  split_and!; [done|by etrans|]. split; [|done]. intros Ht. eapply Forall_impl; [by apply Hc1|].
  intros ti [Hn|]; [left; by apply Hs'|by right].
Qed.

Lemma utxos_set_entries (U : gmap OutPoint SpentTxOut) view ops es o :
  map coin_of es = map (fun o => U !! o) ops ->
  utxos (set_entries view (zip ops es)) !! o = if bool_decide (o ∈ ops) then U !! o else utxos view !! o.
Proof.
  revert view es. induction ops as [|o' ops IH]; intros view [|e es] Hes; try done.
  cbn [map] in Hes. injection Hes as He Hes. cbn [zip zip_with set_entries foldl fst snd].
  change (foldl _ ?v ?l) with (set_entries v l). rewrite IH by done.
  destruct (decide (o ∈ ops)) as [Hin|Hin].
  - rewrite !bool_decide_eq_true_2; [done|by apply elem_of_cons; right|done].
  - rewrite (bool_decide_eq_false_2 (o ∈ ops)) by done. rewrite utxos_lookup. unfold LookupEntry, set_entry. cbn [entries].
    destruct (decide (o = o')) as [->|Hne].
    + rewrite bool_decide_eq_true_2 by (by apply elem_of_cons; left). by rewrite lookup_insert_eq, <- He.
    + rewrite bool_decide_eq_false_2 by (by intros [?|?]%elem_of_cons). rewrite lookup_insert_ne by done.
      symmetry. apply utxos_lookup.
Qed.

(** The view filled for a block from an empty one. *)
Lemma fetchInputUtxos_tracks {E : Type} best c tx txs h :
  wf_cache c -> IsCoinBaseTx tx = true -> Forall (fun tx => IsCoinBaseTx tx = false) txs ->
  exists view c' needed, fetchInputUtxos (E := E) (mkView ∅ best) c (tx :: txs) h = Ok (view, c')
    /\ wf_cache c' /\ chain_utxos c' = chain_utxos c /\ same_disk c c'
    /\ tracks needed [] (tx :: txs) (chain_utxos c) view /\ covered needed [] (tx :: txs).
Proof.
  intros Hw Htx Hcb. unfold fetchInputUtxos, findInputsToFetch.
  pose proof (scan_txs_covers (tx :: txs) [tx] txs h 0 (mkView ∅ best, ∅, []) eq_refl eq_refl) as Hs.
  destruct (scan_txs _ _ _ _ _ _) as [[view needed_] needed]. cbn [rbind fst snd] in *.
  destruct Hs as (Hk & _ & Hc); [intros o [e He]; cbn [entries] in He; by rewrite lookup_empty in He|done|].
  assert (Hcov : covered needed [] (tx :: txs)).
  { split; [|done]. rewrite Htx. unfold transactionConsumesSpendJournal. by cbn [negb andb]. }
  assert (Hdom : forall o, is_Some (utxos view !! o) -> o ∈ block_points (tx :: txs)).
  { intros o Ho. apply Hk. rewrite utxos_lookup in Ho. unfold LookupEntry in Ho.
    destruct (entries view !! o) as [e|]; [by exists e|by destruct Ho]. }
  unfold fetchUtxosFromCache. destruct (len needed =? 0) eqn:Hn.
  - apply Z.eqb_eq, len_0 in Hn as ->. exists view, c, []. split_and!; try done. split; [|by intros o Ho; right; apply Hdom].
    intros o [Ho|Ho]; by apply not_elem_of_nil in Ho.
  - destruct (fetchEntries_spec (E := E) c needed Hw) as (es & c' & -> & Hw' & Hc' & Hd' & Hes & _). cbn [rbind].
    eexists _, c', needed. split_and!; try done. split.
    + intros o [Ho|Ho]; [|by apply not_elem_of_nil in Ho].
      rewrite (utxos_set_entries _ _ _ _ _ Hes). by rewrite bool_decide_eq_true_2.
    + intros o. rewrite (utxos_set_entries _ _ _ _ _ Hes). case_bool_decide; [by left|]. intros Ho. right. by apply Hdom.
Qed.

End Tracking.

(** ** The loop over the transactions *)

Section Loop.
Context `{D : DecimalOps} {AO : AssetOps D} {AL : AssetLaws AO}.
Context {AE : AnchorEnv D} (checkContractBaseGasFee : MsgTx -> list AssetInfo -> Z -> result ChainError unit).

Lemma input_coins_lookups U ins cs :
  NoDup (map PreviousOutPoint ins) -> Forall2 (fun ti c => U !! PreviousOutPoint ti = Some c) ins cs ->
  input_coins U ins = Some cs.
Proof.
  intros Hnd Hf. revert U Hf. revert cs.
  induction ins as [|ti ins IH]; intros cs U Hf; cbn [input_coins]; [by inversion_clear Hf|].
  inversion Hf as [|? c ? cs' Hc Hcs]; subst. cbn [map] in Hnd. apply NoDup_cons in Hnd as [Hni Hnd].
  rewrite Hc. cbn [mbind option_bind]. rewrite (IH Hnd cs'); [done|]. clear -Hni Hcs.
  induction Hcs as [|ti' c' ins cs' Hc _ IH]; constructor.
  - rewrite lookup_delete_ne; [done|]. intros He. apply Hni. rewrite He. by apply elem_of_cons; left.
  - apply IH. intros Hin. apply Hni. by apply elem_of_cons; right.
Qed.

Lemma input_coins_sound U ins cs : sound_coins U -> input_coins U ins = Some cs -> Forall sound_coin cs.
Proof.
  revert U cs. induction ins as [|ti ins IH]; intros U cs HU Hcs; cbn [input_coins] in Hcs; [by simplify_eq|].
  apply bind_Some in Hcs as (c & Hc & Hcs). apply bind_Some in Hcs as (cs' & Hcs' & ?). simplify_eq.
  constructor; [by eapply HU|]. eapply IH; [|exact Hcs']. intros o c' Ho. apply lookup_delete_Some in Ho as [_ Ho]. by eapply HU.
Qed.

(** Every ordinary transaction finds its inputs among the coins at that point,
    each once and old enough. *)
Fixpoint spends_unspent (params : Params) (V : gmap OutPoint SpentTxOut) (txs : list MsgTx) (h : Z) : Prop :=
  match txs with
  | [] => True
  | tx :: txs =>
      (transactionConsumesSpendJournal tx (IsCoinBaseTx tx) = true ->
       exists cs, input_coins V (TxIns tx) = Some cs /\ Forall (mature params h) cs)
      /\ spends_unspent params (after_tx V tx h) txs h
  end.

(** The anchors bring what the check of their input read. *)
Definition anchor_backed (params : Params) (h : Z) (tx : MsgTx) : Prop :=
  IsAnchorTx tx = true ->
  exists info, checkAnchorInput tx false (POSV2Active (p_POSV2Height params) h) (NativeAssetsActive params h) = Ok info
    /\ out_sats (TxOuts tx) = ai_Value (as_AnchorInfo info).

(** What transactions without inputs to spend bring. *)
Definition brought (u : unit_of) (txs : list MsgTx) : Qc :=
  Qcsum (map (fun tx => if transactionConsumesSpendJournal tx (IsCoinBaseTx tx) then 0%Qc else outs_worth u (TxOuts tx)) txs).

Lemma coinbase_not_anchor tx : IsCoinBaseTx tx = true -> IsAnchorTx tx = false.
Proof.
  unfold IsCoinBaseTx, IsAnchorTx. destruct (TxIns tx) as [|ti [|]]; try done. intros [Hi _]%andb_true_iff.
  apply Z.eqb_eq in Hi. rewrite Hi. done.
Qed.

(** The coins the checks of a transaction's inputs found in the view. *)
Lemma sum_inputs_coins params view h ins v l r :
  sum_inputs params view h ins v l = Ok r ->
  exists cs, Forall2 (fun ti c => utxos view !! PreviousOutPoint ti = Some c) ins cs /\ Forall (mature params h) cs.
Proof.
  revert v l. induction ins as [|ti ins IH]; intros v l Hs; cbn [sum_inputs] in Hs; [by exists []; split; constructor|].
  destruct (LookupEntry view (PreviousOutPoint ti)) as [e|] eqn:He; [|done].
  destruct (IsSpent e) eqn:Hsp; [done|]. destruct (IsCoinBase e && _) eqn:Hm; [done|].
  destruct (amount e <? 0); [done|]. destruct (MaxSatoshi <? amount e); [done|]. cbv zeta in Hs. destruct (TxAssets_Merge l (txAssets e)) as [m []]; cbn [negb] in Hs; [|done].
  destruct (_ || _); [done|]. destruct (IH _ _ Hs) as (cs & Hcs & Hmat).
  exists (spent_txout e :: cs). split; constructor; try done.
  - rewrite utxos_lookup, He. unfold coin_of. cbn [mbind option_bind]. by rewrite Hsp.
  - intros Hcb. cbn [spent_txout st_IsCoinBase st_Height] in *. rewrite Hcb in Hm. cbn [andb] in Hm. by bool_to_prop.
Qed.

(** One transaction of the loop: the coins it spends are the chain's. *)
Lemma connect_spends params h needed done_ tx todo V view r J :
  CheckTransactionInputs checkContractBaseGasFee params tx false h view = Ok r ->
  NoDup (map PreviousOutPoint (TxIns tx)) -> tracks needed done_ (tx :: todo) V view ->
  NoDup (map TxHash (done_ ++ tx :: todo)) ->
  (transactionConsumesSpendJournal tx (IsCoinBaseTx tx) = true ->
   Forall (fun ti => covers_point needed done_ (PreviousOutPoint ti)) (TxIns tx)) ->
  (transactionConsumesSpendJournal tx (IsCoinBaseTx tx) = true ->
   exists cs, Forall2 (fun ti c => utxos view !! PreviousOutPoint ti = Some c) (TxIns tx) cs
     /\ input_coins V (TxIns tx) = Some cs /\ Forall (mature params h) cs)
  /\ exists view', connectTransaction view tx h J = Ok (view', option_map (fun l => l ++ spent_coins V tx) J)
     /\ tracks needed (done_ ++ [tx]) todo (after_tx V tx h) view'.
Proof.
  intros Hchk Hins Htr Hnd Hcov.
  assert (Hin : transactionConsumesSpendJournal tx (IsCoinBaseTx tx) = true ->
    exists cs, Forall2 (fun ti c => utxos view !! PreviousOutPoint ti = Some c) (TxIns tx) cs
      /\ input_coins V (TxIns tx) = Some cs /\ Forall (mature params h) cs).
  { intros Ht. specialize (Hcov Ht). unfold transactionConsumesSpendJournal in Ht. apply andb_true_iff in Ht as [Hcb Ha].
    apply negb_true_iff in Hcb, Ha. unfold CheckTransactionInputs in Hchk. rewrite Hcb, Ha in Hchk.
    inv_bind Hchk. inv_bind Hchk. destruct (sum_inputs_coins _ _ _ _ _ _ _ Hr0) as (cs & Hcs & Hm). exists cs.
    split_and!; [done| |done]. apply input_coins_lookups; [done|]. clear -Hcs Hcov Htr Hnd.
    induction Hcs as [|ti c ins cs Hc _ IH]; constructor; inversion_clear Hcov; [by eapply tracked_input|by apply IH]. }
  split; [done|]. destruct (connectTransaction_coins view tx h J) as (view' & Hv' & Hu').
  { intros Hc. destruct (Hin Hc) as (cs & Hcs & _). exists cs. by apply input_coins_lookups. }
  exists view'. split; [|by eapply tracks_step]. rewrite Hv'. do 2 f_equal. unfold spent_coins.
  destruct (transactionConsumesSpendJournal _ _); [|done]. destruct (Hin eq_refl) as (cs & Hcs & -> & _).
  by rewrite (input_coins_lookups _ _ _ Hins Hcs).
Qed.

(** What it brings, and its fee. *)
Record step_ok (params : Params) (h : Z) (V : gmap OutPoint SpentTxOut) (tx : MsgTx) (fee : Z) (fa : list AssetInfo)
    : Prop := {
  so_anchor : anchor_backed params h tx;
  so_fee : 0 <= fee <= MaxSatoshi;
  so_assets n : (0 <= held Decimal_value fa n)%Qc;
  so_sound : sound_coins (after_tx V tx h);
  so_supply u : (supply u (after_tx V tx h) + worth u fee fa <= supply u V + brought u [tx])%Qc;
}.

Lemma connect_step params h V tx view fee fa :
  CheckTransactionInputs checkContractBaseGasFee params tx false h view = Ok (fee, fa) ->
  sane tx -> sound_coins V ->
  (transactionConsumesSpendJournal tx (IsCoinBaseTx tx) = true ->
   exists cs, Forall2 (fun ti c => utxos view !! PreviousOutPoint ti = Some c) (TxIns tx) cs
     /\ input_coins V (TxIns tx) = Some cs /\ Forall (mature params h) cs) ->
  step_ok params h V tx fee fa.
Proof.
  intros Hchk Hsane HV Hin.
  assert (Hin1 : transactionConsumesSpendJournal tx (IsCoinBaseTx tx) = true -> exists cs, input_coins V (TxIns tx) = Some cs)
    by (intros Hc; destruct (Hin Hc) as (cs & _ & ? & _); by exists cs).
  assert (Hso := proj1 (supply_after_tx Satoshi V tx h HV (sane_sound _ Hsane) Hin1)).
  assert (Hsu := fun u => proj2 (supply_after_tx u V tx h HV (sane_sound _ Hsane) Hin1)).
  assert (Hfree : transactionConsumesSpendJournal tx (IsCoinBaseTx tx) = false -> fee = 0 -> fa = [] ->
    anchor_backed params h tx -> step_ok params h V tx fee fa).
  { intros Hc -> -> Hab. split; [done|unfold MaxSatoshi; lia|by intros n|done|]. intros u. pose proof (Hsu u) as Hu.
    unfold brought, spent_coins, coins_worth in *. cbn [map Qcsum foldr] in *. rewrite Hc in *. cbn [map Qcsum foldr] in *.
    assert (worth u 0 [] = 0%Qc) by (destruct u; by apply Qc_is_canon). qc_lra. }
  destruct (IsCoinBaseTx tx) eqn:Hcb.
  { unfold CheckTransactionInputs in Hchk. rewrite Hcb in Hchk. simplify_eq. apply Hfree; try done.
    unfold anchor_backed. by rewrite coinbase_not_anchor. }
  destruct (IsAnchorTx tx) eqn:Ha.
  { unfold CheckTransactionInputs in Hchk. rewrite Hcb, Ha in Hchk.
    destruct (CheckAnchorTxValid _ _ _ _) as [i| |] eqn:Hi; [|done|done]. simplify_eq.
    apply Hfree; try done; [unfold transactionConsumesSpendJournal; by rewrite Ha|].
    intros _. exists i. by eapply CheckAnchorTxValid_sats. }
  clear Hfree. destruct (CheckTransactionInputs_spec _ _ _ _ _ _ _ _ Hchk Hsane Hcb Ha) as (cs & Hcs & _ & Hfee & Hw & Hs).
  assert (Ht : transactionConsumesSpendJournal tx false = true)
    by (unfold transactionConsumesSpendJournal; by rewrite Ha).
  destruct (Hin Ht) as (cs' & Hcs' & HinV & _).
  assert (cs' = cs) as ->.
  { clear -Hcs Hcs'. revert cs' Hcs'. induction Hcs; intros cs' Hcs'; inversion Hcs'; subst; [done|]. f_equal; [congruence|by apply IHHcs]. }
  split; [unfold anchor_backed; by rewrite Ha|done| |done|].
  - apply Hs. eapply input_coins_sound; [exact HV|exact HinV].
  - intros u. pose proof (Hsu u) as Hu. pose proof (Hw u). unfold brought, spent_coins in *.
    cbn [map Qcsum foldr] in *. rewrite Hcb, Ht in *. rewrite HinV, default_Some in Hu. qc_lra.
Qed.

Lemma connect_loop_spends params h needed done_ todo V view J fees ffa view' J' fees' ffa' :
  connect_loop checkContractBaseGasFee params h todo view J fees ffa
    = Ok (view', J', fees', ffa') ->
  Forall (fun tx => NoDup (map PreviousOutPoint (TxIns tx))) todo -> tracks needed done_ todo V view ->
  NoDup (map TxHash (done_ ++ todo)) -> covered needed done_ todo ->
  spends_unspent params V todo h /\ J' = option_map (fun l => l ++ block_journal V todo h) J
  /\ tracks needed (done_ ++ todo) [] (after_txs V todo h) view'.
Proof.
  intros Hl Hins. revert done_ V view J fees ffa Hl.
  induction Hins as [|tx todo Htx Hins IH]; intros done_ V view J fees ffa Hl Htr Hnd Hcov; cbn [connect_loop] in Hl.
  { simplify_eq. split_and!; [done| |by rewrite app_nil_r]. destruct J'; cbn [option_map]; [|done].
    unfold block_journal. cbn [journal map concat]. by rewrite app_nil_r. }
  inv_bind Hl. destruct a as [fee fa]. cbv zeta in Hl. destruct (TxAssets_Merge ffa fa) as [m []]; cbn [negb] in Hl; [|done].
  destruct (_ <? _); [done|]. destruct Hcov as [Hc Hcov].
  destruct (connect_spends _ _ _ _ _ _ _ _ _ J Hr Htx Htr Hnd Hc) as (Hsp & view1 & Hv1 & Htr1).
  rewrite Hv1 in Hl. cbn [rbind] in Hl.
  destruct (IH _ _ _ _ _ _ Hl Htr1) as (Hs & -> & Htr'); [by rewrite <- app_assoc|done|].
  split_and!; [split; [|done]| |by rewrite <- app_assoc in Htr'].
  - intros Ht. destruct (Hsp Ht) as (cs & _ & ? & ?). by exists cs.
  - destruct J; cbn [option_map]; [|done]. unfold block_journal. cbn [journal map concat snd]. by rewrite <- app_assoc.
Qed.

Lemma int64_no_wrap a b :
  0 <= a < 2 ^ 63 -> 0 <= b <= MaxSatoshi -> a <= int64 (a + b) -> int64 (a + b) = a + b /\ a + b < 2 ^ 63.
Proof.
  unfold MaxSatoshi. intros Ha Hb Hle. destruct (Z.ltb_spec (a + b) (2 ^ 63)).
  - split; [|done]. apply int64_id. unfold is_int64. lia.
  - unfold int64, wrap_s in Hle. replace (a + b + 2 ^ (64 - 1)) with (a + b - 2 ^ 63 + 1 * 2 ^ 64) in Hle by lia.
    rewrite Z.mod_add, Z.mod_small in Hle by lia. lia.
Qed.

Lemma brought_cons u tx txs : brought u (tx :: txs) = (brought u [tx] + brought u txs)%Qc.
Proof. unfold brought. cbn [map Qcsum foldr]. unfold Qcsum. qc_lra. Qed.

(** Fees and supply add up along the loop. *)
Lemma connect_loop_supply params h needed done_ todo V view J fees ffa view' J' fees' ffa' :
  connect_loop checkContractBaseGasFee params h todo view J fees ffa
    = Ok (view', J', fees', ffa') ->
  Forall sane todo -> tracks needed done_ todo V view -> NoDup (map TxHash (done_ ++ todo)) -> covered needed done_ todo ->
  sound_coins V -> 0 <= fees < 2 ^ 63 -> (forall n, (0 <= held Decimal_value ffa n)%Qc) ->
  Forall (anchor_backed params h) todo /\ sound_coins (after_txs V todo h)
  /\ 0 <= fees' < 2 ^ 63 /\ (forall n, (0 <= held Decimal_value ffa' n)%Qc)
  /\ forall u, (supply u (after_txs V todo h) + worth u fees' ffa' <= supply u V + worth u fees ffa + brought u todo)%Qc.
Proof.
  intros Hl Hs. revert done_ V view J fees ffa Hl.
  induction Hs as [|tx todo Htx Hs IH]; intros done_ V view J fees ffa Hl Htr Hnd Hcov HV Hf Hfa; cbn [connect_loop] in Hl.
  { simplify_eq. split_and!; try done; try lia. intros u. unfold brought. cbn [after_txs map Qcsum foldr]. qc_lra. }
  inv_bind Hl. destruct a as [fee fa]. cbv zeta in Hl.
  destruct (TxAssets_Merge ffa fa) as [m []] eqn:Hm; cbn [negb] in Hl; [|done].
  destruct (Z.ltb_spec (int64 (fees + fee)) fees); [done|]. destruct Hcov as [Hc Hcov].
  destruct (connect_spends _ _ _ _ _ _ _ _ _ J Hr (sane_ins _ Htx) Htr Hnd Hc) as (Hsp & view1 & Hv1 & Htr1).
  destruct (connect_step _ _ _ _ _ _ _ Hr Htx HV Hsp) as [Hab Hfee Hfn Hso Hsu].
  destruct (int64_no_wrap fees fee Hf Hfee ltac:(lia)) as [Hi Hlt]. rewrite Hv1, Hi in Hl. cbn [rbind] in Hl.
  destruct (IH _ _ _ _ _ _ Hl Htr1) as (Habs & Hso' & Hf' & Hfa' & Hsu'); [by rewrite <- app_assoc|done|done|lia| |].
  { intros n. rewrite (merge_held _ _ _ n Hm). pose proof (Hfa n). pose proof (Hfn n). qc_lra. }
  split_and!; [by constructor|done|lia|lia|done|]. intros u. cbn [after_txs]. rewrite brought_cons.
  pose proof (Hsu' u) as H1. rewrite (worth_plus u _ _ _ _ _ Hm) in H1. pose proof (Hsu u). qc_lra.
Qed.

End Loop.

(** ** Blocks *)

Section Blocks.
Context `{D : DecimalOps} {AO : AssetOps D} {AL : AssetLaws AO}.
Context {AE : AnchorEnv D} (checkContractBaseGasFee : MsgTx -> list AssetInfo -> Z -> result ChainError unit)
  (adjustedTime : Z)
  (validateContractBlock checkScripts : MsgBlock -> UtxoViewpoint -> result ChainError unit).

Abbreviation connects := (checkConnectBlock checkContractBaseGasFee
  validateContractBlock checkScripts).

Lemma sanity_all_spec txs : sanity_all txs = Ok tt -> Forall (fun tx => CheckTransactionSanity tx = Ok tt) txs.
Proof.
  induction txs as [|tx txs IH]; intros Hs; [constructor|]. cbn [sanity_all] in Hs. inv_bind Hs. destruct a.
  constructor; [done|by apply IH].
Qed.

Lemma duplicate_tx_spec seen txs :
  duplicate_tx seen txs = false -> NoDup (map TxHash txs) /\ Forall (fun h => h ∉ seen) (map TxHash txs).
Proof.
  revert seen. induction txs as [|tx txs IH]; intros seen Hd; cbn [duplicate_tx map] in *; [by split; constructor|].
  destruct (bool_decide_reflect (TxHash tx ∈ seen)) as [|Hn]; [done|].
  destruct (IH _ Hd) as [Hnd Hf]. rewrite Forall_forall in Hf. split; constructor; try done.
  - intros Hin. apply (Hf _ Hin), elem_of_union_l, elem_of_singleton_2, eq_refl.
  - apply Forall_forall. intros o Ho Hs. by apply (Hf _ Ho), elem_of_union_r.
Qed.

(** What the context-free checks leave of a block. *)
Record sane_block (block : MsgBlock) (tx0 : MsgTx) (rest : list MsgTx) : Prop := {
  sb_txs : Transactions block = tx0 :: rest;
  sb_first : IsCoinBaseTx tx0 = true;
  sb_rest : Forall (fun tx => IsCoinBaseTx tx = false) rest;
  sb_sane : Forall (fun tx => CheckTransactionSanity tx = Ok tt) (tx0 :: rest);
  sb_hashes : NoDup (map TxHash (tx0 :: rest));
}.

Lemma checkBlockSanity_spec block :
  checkBlockSanity adjustedTime block = Ok tt -> exists tx0 rest, sane_block block tx0 rest.
Proof.
  unfold checkBlockSanity. intros Hs. inv_bind Hs. cbv zeta in Hs. do 3 (destruct (_ : bool) in Hs; [done|]).
  destruct (Transactions block) as [|tx0 rest] eqn:Ht; [done|].
  destruct (IsCoinBaseTx tx0) eqn:Hcb; cbn [negb] in Hs; [|done].
  destruct (existsb IsCoinBaseTx rest) eqn:Hex; [done|]. inv_bind Hs. destruct a0. inv_bind Hs.
  destruct (negb _); [done|]. destruct (duplicate_tx ∅ (tx0 :: rest)) eqn:Hd; [done|].
  exists tx0, rest. split; try done; [|by apply sanity_all_spec|by apply (duplicate_tx_spec ∅)].
  apply Forall_forall. intros tx Hin. destruct (IsCoinBaseTx tx) eqn:Htx; [|done].
  rewrite <- Hex. symmetry. apply existsb_exists. exists tx. by rewrite <- list_elem_of_In.
Qed.

(** The steps of a successful [checkConnectBlock] from an empty view. *)
Lemma checkConnectBlock_steps params b16 sw bucket c block h best J view' J' c' :
  connects params b16 sw bucket c block h (mkView ∅ best) J = Ok (view', J', c') ->
  BIP0034Height params <= h ->
  exists view1 view2 fees ffa tx0,
    PrevBlock (Header block) = best
    /\ fetchInputUtxos (E := ChainError) (mkView ∅ best) c (Transactions block) h = Ok (view1, c')
    /\ checkAnchorTxsUnique params bucket block h = Ok tt
    /\ connect_loop checkContractBaseGasFee params h (Transactions block) view1 J 0 []
       = Ok (view2, J', fees, ffa)
    /\ Transactions block !! 0%nat = Some tx0
    /\ checkCoinbaseFees tx0 (int64 fees) ffa = Ok tt
    /\ view' = SetBestHash view2 (MsgBlock_BlockHash block).
Proof.
  unfold checkConnectBlock. cbv zeta. intros Hc Hb. destruct (bytes_eqb _ (GenesisHash params)); [done|].
  cbn [bestHash] in Hc. destruct (bytes_eqb best _) eqn:Hbest; cbn [negb] in Hc; [|done].
  apply bytes_eqb_eq in Hbest as ->. rewrite (proj2 (Z.ltb_ge h (BIP0034Height params)) Hb), andb_false_r in Hc.
  cbn [rbind] in Hc. inv_bind Hc. destruct a as [view1 c1]. inv_bind Hc. inv_bind Hc. inv_bind Hc. inv_bind Hc.
  destruct a2 as [[[view2 J2] fees] ffa]. inv_bind Hc. inv_bind Hc. inv_bind Hc. simplify_eq.
  destruct (Transactions block !! 0%nat) as [tx0|] eqn:H0; cbn [unwrap] in *; [|done]. simplify_eq. destruct a0, a3.
  assert (Hsub : CalcBlockSubsidy params h = 0) by (unfold CalcBlockSubsidy, baseSubsidy; destruct (_ =? 0); [done|apply Z.shiftr_0_l]).
  rewrite Hsub, Z.add_0_l in *. by eexists view1, view2, fees, ffa, a2.
Qed.

Lemma checked_spends params b16 sw bucket c block h best J view' J' c' :
  wf_cache c -> BIP0034Height params <= h -> checkBlockSanity adjustedTime block = Ok tt ->
  connects params b16 sw bucket c block h (mkView ∅ best) J = Ok (view', J', c') ->
  spends_unspent params (chain_utxos c) (Transactions block) h
  /\ J' = option_map (fun l => l ++ block_journal (chain_utxos c) (Transactions block) h) J
  /\ (exists needed, tracks needed (Transactions block) [] (after_txs (chain_utxos c) (Transactions block) h) view')
  /\ PrevBlock (Header block) = best /\ bestHash view' = MsgBlock_BlockHash block
  /\ wf_cache c' /\ chain_utxos c' = chain_utxos c /\ same_disk c c'.
Proof.
  intros Hw Hb Hs Hc. apply checkBlockSanity_spec in Hs as (tx0 & rest & [Ht Hf Hr Hsane Hh]).
  apply checkConnectBlock_steps in Hc as (view1 & view2 & fees & ffa & tx & Hbest & Hfetch & _ & Hl & _ & _ & ->); [|done].
  rewrite Ht in *.
  destruct (fetchInputUtxos_tracks (E := ChainError) best c tx0 rest h Hw Hf Hr)
    as (v & c1 & needed & Hfe & Hw' & Hc' & Hd' & Htr & Hcov).
  rewrite Hfe in Hfetch. simplify_eq.
  assert (Hins : Forall (fun tx => NoDup (map PreviousOutPoint (TxIns tx))) (tx0 :: rest))
    by (eapply Forall_impl; [exact Hsane|apply CheckTransactionSanity_ins]).
  destruct (connect_loop_spends _ _ _ needed [] _ _ _ _ _ _ _ _ _ _ Hl Hins Htr Hh Hcov) as (Hsp & -> & Htr').
  split_and!; try done. exists needed. destruct Htr' as [Ha Hd]. by split.
Qed.

(** C4: A block that passes [checkBlockSanity] and, against an empty view of the
    tip, [checkConnectBlock], spends in order only outputs that are unspent on the
    chain at that point of the block, each once, and coinbase outputs only after the
    maturity: no double spend within the block, no spend of an output of a later
    transaction.  The journal returned is exactly the coins spent, the view says of
    the block's outputs what the chain says after the block, and checking changes
    nothing of what the cache stands for. *)
Theorem accepted_block_spends (params : Params) (b16 sw : bool) (bucket : gmap bytes bytes) (c : utxoCache)
    (block : MsgBlock) (h : Z) (best : bytes) (J : option (list SpentTxOut)) (view' : UtxoViewpoint) (J' : option (list SpentTxOut))
    (c' : utxoCache) :
  wf_cache c -> BIP0034Height params <= h ->
  checkBlockSanity adjustedTime block = Ok tt ->
  connects params b16 sw bucket c block h (mkView ∅ best) J = Ok (view', J', c') ->
  spends_unspent params (chain_utxos c) (Transactions block) h
  /\ J' = option_map (fun l => l ++ block_journal (chain_utxos c) (Transactions block) h) J
  /\ (forall o, o ∈ block_points (Transactions block) ->
       utxos view' !! o = after_txs (chain_utxos c) (Transactions block) h !! o)
  /\ PrevBlock (Header block) = best /\ bestHash view' = MsgBlock_BlockHash block
  /\ wf_cache c' /\ chain_utxos c' = chain_utxos c /\ same_disk c c'.
Proof.
  intros Hw Hb Hs Hc.
  destruct (checked_spends _ _ _ _ _ _ _ _ _ _ _ _ Hw Hb Hs Hc) as (? & ? & (needed & Htr) & ? & ? & ? & ? & ?).
  split_and!; try done. intros o Ho. apply (tr_agree _ _ _ _ _ Htr). by right.
Qed.

(** What the anchors of a block bring. *)
Definition anchored (u : unit_of) (txs : list MsgTx) : Qc :=
  Qcsum (map (fun tx => if IsAnchorTx tx then outs_worth u (TxOuts tx) else 0%Qc) txs).

Lemma brought_anchored u tx0 rest :
  IsCoinBaseTx tx0 = true -> Forall (fun tx => IsCoinBaseTx tx = false) rest ->
  brought u (tx0 :: rest) = (outs_worth u (TxOuts tx0) + anchored u (tx0 :: rest))%Qc.
Proof.
  intros Hf Hr. unfold brought, anchored. cbn [map Qcsum foldr]. rewrite (coinbase_not_anchor _ Hf), Hf.
  unfold transactionConsumesSpendJournal at 1. cbn [negb andb].
  assert (He : map (fun tx => if transactionConsumesSpendJournal tx (IsCoinBaseTx tx) then 0%Qc else outs_worth u (TxOuts tx)) rest
    = map (fun tx => if IsAnchorTx tx then outs_worth u (TxOuts tx) else 0%Qc) rest).
  { induction Hr as [|tx rest Htx _ IH]; [done|]. cbn [map]. rewrite IH, Htx. unfold transactionConsumesSpendJournal.
    by destruct (IsAnchorTx tx). }
  rewrite He. unfold Qcsum. qc_lra.
Qed.

(** C3: Such a block creates nothing.  Of satoshis, and of every asset, the chain
    holds after it at most what it held before plus what the outputs of the block's
    anchors carry, the coinbase's fees included; each anchor carries exactly the
    satoshis that the check of its input found locked; and all amounts stay
    non-negative, so this holds along the chain. *)
Theorem accepted_block_conserves (params : Params) (b16 sw : bool) (bucket : gmap bytes bytes) (c : utxoCache)
    (block : MsgBlock) (h : Z) (best : bytes) (J : option (list SpentTxOut)) (view' : UtxoViewpoint) (J' : option (list SpentTxOut))
    (c' : utxoCache) :
  wf_cache c -> BIP0034Height params <= h -> sound_coins (chain_utxos c) ->
  checkBlockSanity adjustedTime block = Ok tt ->
  connects params b16 sw bucket c block h (mkView ∅ best) J = Ok (view', J', c') ->
  (forall u, (supply u (after_txs (chain_utxos c) (Transactions block) h)
              <= supply u (chain_utxos c) + anchored u (Transactions block))%Qc)
  /\ Forall (anchor_backed params h) (Transactions block)
  /\ sound_coins (after_txs (chain_utxos c) (Transactions block) h).
Proof.
  intros Hw Hb HU Hs Hc. apply checkBlockSanity_spec in Hs as (tx0 & rest & [Ht Hf Hr Hsane Hh]).
  apply checkConnectBlock_steps in Hc as (view1 & view2 & fees & ffa & tx & Hbest & Hfetch & _ & Hl & H0 & Hfee & ->); [|done].
  rewrite Ht in *. cbn [lookup list_lookup] in H0. injection H0 as <-.
  destruct (fetchInputUtxos_tracks (E := ChainError) best c tx0 rest h Hw Hf Hr)
    as (v & c1 & needed & Hfe & Hw' & Hc' & Hd' & Htr & Hcov).
  rewrite Hfe in Hfetch. simplify_eq.
  assert (Hsn : Forall sane (tx0 :: rest)) by (eapply Forall_impl; [exact Hsane|apply CheckTransactionSanity_sane]).
  destruct (connect_loop_supply _ _ _ needed [] _ _ _ _ _ _ _ _ _ _ Hl Hsn Htr Hh Hcov HU) as (Hab & Hso & Hfb & Hfn & Hsu);
    [lia|done|].
  split_and!; [|done|done]. intros u. rewrite int64_id in Hfee by (unfold is_int64; lia).
  pose proof (checkCoinbaseFees_spec _ _ _ u Hfee (Forall_inv Hsn) Hfn). pose proof (Hsu u) as Hu.
  rewrite brought_anchored in Hu by done.
  assert (worth u 0 [] = 0%Qc) by (destruct u; by apply Qc_is_canon). qc_lra.
Qed.

(** *** Accepted blocks extend the ledger *)

Lemma sum_of_ge {A : Type} (f : A -> Z) (k : Z) l : (forall a, k <= f a) -> k * len l <= sum_of f l.
Proof.
  intros Hf. induction l as [|a l IH]; [rewrite len_nil; cbn; lia|].
  rewrite len_cons. cbn [sum_of foldr]. unfold sum_of in IH. specialize (Hf a). lia.
Qed.

Lemma varint_size_pos x : 1 <= VarIntSerializeSize x.
Proof. unfold VarIntSerializeSize. repeat case_if; lia. Qed.

Lemma sanity_outs_count tx : CheckTransactionSanity tx = Ok tt -> len (TxOuts tx) <= 2 ^ 32.
Proof.
  unfold CheckTransactionSanity. do 2 (case_match; [done|]).
  destruct (Z.ltb_spec MaxBlockBaseSize (SerializeSizeStripped tx)) as [|Hs]; [done|]. intros _.
  unfold SerializeSizeStripped, baseSize, MaxBlockBaseSize in Hs.
  pose proof (varint_size_pos (len (TxIns tx))). pose proof (varint_size_pos (len (TxOuts tx))).
  assert (0 <= sum_of TxIn_SerializeSize (TxIns tx)).
  { pose proof (sum_of_ge TxIn_SerializeSize 0 (TxIns tx)) as Hi. apply Hi. intros ti. unfold TxIn_SerializeSize.
    pose proof (varint_size_pos (len (SignatureScript ti))). pose proof (len_nonneg (SignatureScript ti)). lia. }
  assert (1 * len (TxOuts tx) <= sum_of TxOut_SerializeSize (TxOuts tx)); [|lia].
  apply sum_of_ge. intros o. unfold TxOut_SerializeSize, txAssetsSerializeSize.
  pose proof (varint_size_pos (len (PkScript o))). pose proof (len_nonneg (PkScript o)). pose proof (varint_size_pos (len (Assets o))).
  match goal with |- context [sum_of ?f (Assets o)] => assert (0 <= sum_of f (Assets o)) end; [|lia].
  eapply Z.le_trans; [|apply (sum_of_ge _ 0)]; [lia|]. intros a.
  pose proof (varint_size_pos (len (Protocol (Name a)))). pose proof (varint_size_pos (len (Type_ (Name a)))).
  pose proof (varint_size_pos (len (Ticker (Name a)))). pose proof (varint_size_pos (len (ToFormatString (Amount a)))).
  pose proof (varint_size_pos (BindingSat a)). pose proof (len_nonneg (Protocol (Name a))). pose proof (len_nonneg (Type_ (Name a))).
  pose proof (len_nonneg (Ticker (Name a))). pose proof (len_nonneg (ToFormatString (Amount a))). lia.
Qed.

Lemma add_coins_height U hash i outs cb h o c :
  add_coins U hash i outs cb h !! o = Some c -> st_Height c = h \/ U !! o = Some c.
Proof.
  revert U i. induction outs as [|out outs IH]; intros U i; cbn [add_coins]; [by right|].
  intros [?|Ho]%IH; [by left|]. destruct (unspendable _); [by right|].
  apply lookup_insert_Some in Ho as [[_ <-]|[_ ?]]; [by left|by right].
Qed.

(** Every coin has a height: the journal gives it back when the coin is restored. *)
Definition coins_dated (U : gmap OutPoint SpentTxOut) : Prop := forall o c, U !! o = Some c -> st_Height c <> 0.

Lemma coins_dated_after U tx h : h <> 0 -> coins_dated U -> coins_dated (after_tx U tx h).
Proof.
  intros Hh HU o c Ho. unfold after_tx in Ho. apply add_coins_height in Ho as [->|Ho]; [done|].
  destruct (transactionConsumesSpendJournal _ _); [|by eapply HU]. by eapply HU, spend_coins_subset.
Qed.

Lemma input_coins_dated U ins cs : coins_dated U -> input_coins U ins = Some cs -> Forall (fun c => st_Height c <> 0) cs.
Proof.
  revert U cs. induction ins as [|ti ins IH]; intros U cs HU Hcs; cbn [input_coins] in Hcs; [by simplify_eq|].
  apply bind_Some in Hcs as (c & Hc & Hcs). apply bind_Some in Hcs as (cs' & Hcs' & ?). simplify_eq.
  constructor; [by eapply HU|]. eapply IH; [|exact Hcs']. intros o c' Ho. apply lookup_delete_Some in Ho as [_ Ho]. by eapply HU.
Qed.

Lemma spends_fit params V txs h first :
  spends_unspent params V txs h -> h <> 0 -> coins_dated V -> NoDup (map TxHash txs) ->
  (forall o c, V !! o = Some c -> Hash o ∉ map TxHash txs) -> Forall (fun tx => len (TxOuts tx) <= 2 ^ 32) txs ->
  match txs with [] => True | tx :: rest => IsCoinBaseTx tx = first /\ Forall (fun tx => IsCoinBaseTx tx = false) rest end ->
  all_fit first V txs h.
Proof.
  revert V first. induction txs as [|tx txs IH]; intros V first Hsp Hh HV Hnd Hnew Hlen Hcb; [done|].
  destruct Hsp as [Hin Hsp], Hcb as [Hcb Hrest]. cbn [map] in Hnd. apply NoDup_cons in Hnd as [Hni Hnd].
  inversion_clear Hlen as [|? ? Hl Hlen']. split.
  - split_and!; [done|done| |].
    + intros j _. destruct (V !! outpoint_at (TxHash tx) j) eqn:Hj; [|done]. apply Hnew in Hj. exfalso. apply Hj.
      cbn [map outpoint_at Hash]. by apply elem_of_cons; left.
    + rewrite <- Hcb. intros Ht. destruct (Hin Ht) as (cs & Hcs & _). exists cs. split; [done|by eapply input_coins_dated].
  - apply IH; try done; [by apply coins_dated_after| |].
    + intros o c Ho. apply (after_txs_hash [tx]) in Ho as [Ho|Ho].
      * cbn [map] in Ho. apply list_elem_of_singleton in Ho as ->. done.
      * apply Hnew in Ho. cbn [map] in Ho. by apply not_elem_of_cons in Ho as [_ Ho].
    + destruct txs as [|tx' txs]; [done|]. by inversion_clear Hrest.
Qed.

(** The records of the bucket can be read. *)
Definition records_readable (bucket : gmap bytes bytes) : Prop :=
  forall k v, bucket !! k = Some v -> exists i, deserializeAnchorTxInfo v = Ok i.

(** No anchor among the transactions has a native proof. *)
Definition plain_anchors (txs : list MsgTx) : Prop :=
  Forall (fun tx => IsAnchorTx tx = true -> NativeAssetProof tx = Ok None) txs.

Definition native_anchor (tx : MsgTx) : Prop :=
  IsAnchorTx tx = true /\ exists proof, NativeAssetProof tx = Ok (Some proof).

(** The reading of an anchor by the check at height [h]. *)
Definition checked_info (params : Params) (h : Z) (tx : MsgTx) : result ChainError AnchorInfo :=
  GetLockedTxInfo tx false (POSV2Active (p_POSV2Height params) h) (NativeAssetsActive params h).

(** Its outputs of the other chain and its scripts are of a size records can have. *)
Definition anchors_sized (params : Params) (h : Z) (txs : list MsgTx) : Prop :=
  Forall (fun tx => IsAnchorTx tx = true -> forall i, checked_info params h tx = Ok i -> wf_anchor (anchor_entry tx i)) txs.

(** The check has read every anchor. *)
Lemma anchors_unique_read params bucket h hash seen txs :
  anchors_unique params bucket h hash seen txs = Ok tt ->
  Forall (fun tx => IsAnchorTx tx = true -> exists i, checked_info params h tx = Ok i) txs.
Proof.
  revert seen. induction txs as [|tx txs IH]; intros seen Hu; constructor; cbn [anchors_unique] in Hu.
  - intros Ha. rewrite Ha in Hu. cbn [negb] in Hu. unfold checked_info. destruct (GetLockedTxInfo _ _ _ _); [by eexists|done|done].
  - destruct (IsAnchorTx tx); cbn [negb] in Hu; [|by eapply IH].
    destruct (GetLockedTxInfo _ _ _ _) as [i| |]; [|done|done]. cbv zeta in Hu.
    destruct (match seen !! _ with Some _ => _ | None => _ end); [done|].
    destruct (dbFetchAnchorTxInfo _ _) as [info| |]; [|by eapply IH|done]. destruct (reused_ok _ _ _ _ _); [by eapply IH|done].
Qed.

Lemma plain_or_native params h txs :
  Forall (fun tx => IsAnchorTx tx = true -> exists i, checked_info params h tx = Ok i) txs ->
  plain_anchors txs \/ Exists native_anchor txs.
Proof.
  induction 1 as [|tx txs Hr _ IH]; [by left; constructor|]. destruct (IsAnchorTx tx) eqn:Ha.
  - destruct (Hr eq_refl) as [i Hi]. destruct (read_anchor_proof _ _ _ _ Hi) as [[p|] Hp].
    + right. left. split; [done|by exists p].
    + destruct IH as [IH|IH]; [left; by constructor|by right; right].
  - destruct IH as [IH|IH]; [left|by right; right]. constructor; [by rewrite Ha|done].
Qed.

Lemma plain_readable params h txs :
  plain_anchors txs -> anchors_sized params h txs ->
  Forall (fun tx => IsAnchorTx tx = true -> exists i, checked_info params h tx = Ok i) txs ->
  anchors_readable locked_info (POSV2Active (p_POSV2Height params) h) txs.
Proof.
  unfold plain_anchors, anchors_sized, anchors_readable. rewrite !Forall_forall. intros Hp Hz Hr tx Hin Ha.
  destruct (Hr tx Hin Ha) as [i Hi]. exists i. split; [|by apply (Hz tx Hin Ha)].
  by rewrite (plain_anchor_read _ _ (NativeAssetsActive params h) (Hp tx Hin Ha)).
Qed.

(** On the main network the anchors of a block lock outputs that no other anchor of
    the block locks, and none of the chain. *)
Lemma anchors_unique_spec params bucket h hash seen txs :
  TestNet params = false -> records_readable bucket -> plain_anchors txs ->
  anchors_unique params bucket h hash seen txs = Ok tt ->
  let locked := block_anchors locked_info (POSV2Active (p_POSV2Height params) h) txs in
  NoDup (map LockedUtxo locked)
  /\ Forall (fun a => seen !! LockedUtxo a = None /\ bucket !! LockedUtxo a = None) locked.
Proof.
  intros Hnet Hrec HG. cbv zeta. revert seen.
  assert (Hap : forall hh t, approved1748Anchor params h hh t = false)
    by (intros; unfold approved1748Anchor, legacy1748; by rewrite Hnet).
  assert (Hre : forall hh t a, reused_ok params h hh t a = false)
    by (intros; unfold reused_ok, legacySameAnchor, legacy1748; by rewrite Hnet, Hap).
  induction HG as [|tx txs Htx HG IH]; intros seen Hu; [by split; constructor|]. cbn [anchors_unique] in Hu.
  rewrite block_anchors_cons. unfold tx_anchor.
  destruct (IsAnchorTx tx); cbn [negb app] in *; [|by apply IH].
  rewrite (plain_anchor_read _ _ (NativeAssetsActive params h) (Htx eq_refl)).
  destruct (GetLockedTxInfo _ _ _ _) as [i| |]; [|done|done]. cbn [app map anchor_entry LockedUtxo] in *. cbv zeta in Hu.
  destruct (seen !! ai_Utxo i) as [prev|] eqn:Hseen.
  { by rewrite !Hap, orb_true_r in Hu. }
  assert (Hb : bucket !! ai_Utxo i = None /\
    anchors_unique params bucket h hash (<[ai_Utxo i := TxID tx]> seen) txs = Ok tt).
  { unfold dbFetchAnchorTxInfo in Hu. destruct (bucket !! ai_Utxo i) as [v|] eqn:Hv; [|done].
    destruct (Hrec _ _ Hv) as (info & Hi). by rewrite Hi, Hre in Hu. }
  destruct Hb as [Hb Hu']. destruct (IH _ Hu') as [Hnd Hf]. split; constructor; try done.
  - intros (a & Ha & Hin)%list_elem_of_In%in_map_iff. rewrite Forall_forall in Hf. apply list_elem_of_In in Hin.
    destruct (Hf _ Hin) as [Hs _]. by rewrite Ha, lookup_insert_eq in Hs.
  - eapply Forall_impl; [exact Hf|]. intros a [Hs ?]. split; [|done]. by apply lookup_insert_None in Hs as [? _].
Qed.

(** The transactions of a checked block fit the unspent outputs of the ledger. *)
Lemma checked_block_fits params b16 sw c block h J view' J' c' (L : Ledger) :
  chain_utxos c = l_utxos L -> wf_cache c -> BIP0034Height params <= h -> h <> 0 ->
  covers L -> coins_dated (l_utxos L) -> Forall (fun tx => TxHash tx ∉ l_txs L) (Transactions block) ->
  checkBlockSanity adjustedTime block = Ok tt ->
  connects params b16 sw (l_anchors L) c block h (mkView ∅ (l_tip L)) J = Ok (view', J', c') ->
  all_fit true (l_utxos L) (Transactions block) h /\ Transactions block <> [].
Proof.
  intros HU Hw Hb Hh Hcov Hdate Htxs Hs Hc.
  destruct (checked_spends _ _ _ _ _ _ _ _ _ _ _ _ Hw Hb Hs Hc) as (Hsp & _).
  apply checkBlockSanity_spec in Hs as (tx0 & rest & [Ht Hf Hr Hsane Hnd]). rewrite <- HU in *. rewrite Ht in *.
  split; [|done]. apply spends_fit with params; try done.
  - intros o c0 Ho Hin. rewrite HU in Ho. apply (cov_txs _ Hcov) in Ho. rewrite Forall_forall in Htxs.
    apply list_elem_of_In, in_map_iff in Hin as (t & Heq & Hin). apply (Htxs t); [by apply list_elem_of_In|]. by rewrite Heq.
  - eapply Forall_impl; [exact Hsane|]. apply sanity_outs_count.
Qed.

(** Without native anchors it extends the ledger. *)
Lemma plain_block_extends params b16 sw c block h J view' J' c' (L : Ledger) :
  chain_utxos c = l_utxos L -> wf_cache c -> BIP0034Height params <= h -> TestNet params = false -> h <> 0 ->
  covers L -> coins_dated (l_utxos L) -> records_readable (l_anchors L) ->
  block_hash (block, h) ∉ l_blocks L -> Forall (fun tx => TxHash tx ∉ l_txs L) (Transactions block) ->
  anchors_sized params h (Transactions block) -> plain_anchors (Transactions block) ->
  checkBlockSanity adjustedTime block = Ok tt ->
  connects params b16 sw (l_anchors L) c block h (mkView ∅ (l_tip L)) J = Ok (view', J', c') ->
  accepts locked_info (p_POSV2Height params) L (block, h).
Proof.
  intros HU Hw Hb Hnet Hh Hcov Hdate Hrec Hnew Htxs Hsz Hplain Hs Hc.
  destruct (checked_block_fits _ _ _ _ _ _ _ _ _ _ _ HU Hw Hb Hh Hcov Hdate Htxs Hs Hc) as [Hfit Hsome].
  apply checkConnectBlock_steps in Hc as (view1 & view2 & fees & ffa & tx & Hbest & _ & Hu & _); [|done].
  destruct (anchors_unique_spec _ _ _ _ _ _ Hnet Hrec Hplain Hu) as [Hl Hun].
  split; try done; cbn [fst snd].
  - apply plain_readable; [done|done|]. by eapply anchors_unique_read.
  - eapply Forall_impl; [exact Hun|]. by intros a [_ ?].
Qed.

(** With one it does not reach the chain: the cache refuses the first of them. *)
Lemma native_anchor_refused bind txs first s h J l :
  wf_cache s -> all_fit first (chain_utxos s) txs h ->
  Forall (fun tx => forall j, 0 <= j < len (TxOuts tx) -> db s !! outpoint_at (TxHash tx) j = None) txs ->
  Forall (fun tx => IsAnchorTx tx = true -> native_anchor tx \/ exists i, locked_info tx bind = Ok i) txs ->
  Exists native_anchor txs ->
  cache_connectTransactions locked_info s txs h J (Some l) bind = Err OtherChainError.
Proof.
  revert first s J l. induction txs as [|tx txs IH]; intros first s J l Hw Hfit Hdb Hr Hex; [by inversion Hex|].
  destruct Hfit as [Hf Hfit]. apply Forall_cons_iff in Hdb as [Hd Hdb]. apply Forall_cons_iff in Hr as [Hr Hrs].
  cbn [cache_connectTransactions].
  assert (Hcase : native_anchor tx \/ anchor_known locked_info bind (Some l) tx /\ Exists native_anchor txs).
  { inversion Hex as [? ? Hn|? ? Hn]; subst; [by left|]. destruct (IsAnchorTx tx) eqn:Ha.
    - destruct (Hr eq_refl) as [?|?]; [by left|]. right. split; [by right|done].
    - right. split; [right; by rewrite Ha|done]. }
  destruct Hcase as [[Ha [proof Hp]]|[Hk Hn]].
  - unfold cache_connectTransaction, addTxIns, transactionConsumesSpendJournal. rewrite Ha, andb_false_r. cbn [negb].
    by rewrite (native_anchor_unread _ _ _ Hp).
  - destruct (cache_connectTransaction_spec locked_info bind first s tx h J (Some l) Hw Hf Hk Hd) as (s1 & -> & Hw1 & Hd1 & Hc1).
    cbn [rbind option_map]. apply (IH false); [done|by rewrite Hc1|by rewrite (sd_db _ _ Hd1)|done|done].
Qed.

Lemma checked_readable params bucket h hash txs :
  anchors_unique params bucket h hash ∅ txs = Ok tt ->
  Forall (fun tx => IsAnchorTx tx = true ->
    native_anchor tx \/ exists i, locked_info tx (POSV2Active (p_POSV2Height params) h) = Ok i) txs.
Proof.
  intros Hu. eapply Forall_impl; [by eapply anchors_unique_read|]. intros tx Hr Ha. destruct (Hr Ha) as [i Hi].
  destruct (read_anchor_proof _ _ _ _ Hi) as [[p|] Hp]; [left; split; [done|by exists p]|right].
  exists i. by rewrite (plain_anchor_read _ _ (NativeAssetsActive params h) Hp).
Qed.

(** C5: What connecting does with a checked block.  On a state that stands for its
    chain, in which no unspent output has height 0 and all anchor records can be
    read, outside the test network and from the BIP0034 height on, take a block that
    is new, with transactions that are new, and that passes [checkBlockSanity] and,
    against an empty view of the tip, [checkConnectBlock], and whose anchors name
    outputs and scripts of the sizes their records have.  When none of its anchors
    has a native proof, the steps that follow the check connect it without an error
    on the cache the check left; the state then stands for the chain with the block,
    and the journal stored for it is the one the check made.  When one has, these
    steps fail: connecting reads the anchors as if native assets were not active. *)
Theorem checked_block_connects (params : Params) (b16 sw : bool) (L0 : Ledger)
    (st : ChainState) (block : MsgBlock) (h now : Z) (view' : UtxoViewpoint) (J' : list SpentTxOut) (c' : utxoCache) :
  let posv := p_POSV2Height params in
  let L := ledger locked_info posv L0 (bestChain st) in
  let attached := attachBlock posv locked_info (with_cache st c') (block, h) now in
  covers L0 -> chain_inv locked_info posv L0 st ->
  BIP0034Height params <= h -> TestNet params = false -> h <> 0 ->
  coins_dated (l_utxos L) -> records_readable (l_anchors L) ->
  block_hash (block, h) ∉ l_blocks L -> Forall (fun tx => TxHash tx ∉ l_txs L) (Transactions block) ->
  anchors_sized params h (Transactions block) ->
  checkBlockSanity adjustedTime block = Ok tt ->
  connects params b16 sw (anchorTxs st) (cache st) block h (mkView ∅ (l_tip L)) (Some []) = Ok (view', Some J', c') ->
  (plain_anchors (Transactions block)
   /\ exists st', attached = Ok st'
      /\ bestChain st' = bestChain st ++ [(block, h)]
      /\ chain_utxos (cache st') = after_txs (chain_utxos (cache st)) (Transactions block) h
      /\ spendJournal st' !! block_hash (block, h) = Some J'
      /\ chain_inv locked_info posv L0 st')
  \/ (Exists native_anchor (Transactions block) /\ attached = Err OtherChainError).
Proof.
  cbv zeta. intros Hcov Hi Hb Hnet Hh Hdate Hrec Hnew Htxs Hsz Hs Hc. rewrite (ci_anchors _ _ _ _ Hi) in Hc.
  set (L := ledger _ _ L0 (bestChain st)) in *.
  destruct (checked_spends _ _ _ _ _ _ _ _ _ _ _ _ (ci_wf _ _ _ _ Hi) Hb Hs Hc) as (Hsp & HJ & _ & _ & _ & Hw' & Hc' & Hd').
  assert (HcovL : covers L) by (by apply covers_ledger).
  assert (Hi' : chain_inv locked_info (p_POSV2Height params) L0 (with_cache st c')) by (by apply chain_inv_cache).
  destruct (checkConnectBlock_steps _ _ _ _ _ _ _ _ _ _ _ _ Hc Hb) as (_ & _ & _ & _ & _ & _ & _ & Hu & _).
  destruct (plain_or_native _ _ _ (anchors_unique_read _ _ _ _ _ _ Hu)) as [Hplain|Hnative]; [left|right]; (split; [done|]).
  - assert (Hacc : accepts locked_info (p_POSV2Height params) L (block, h)).
    { apply (plain_block_extends params b16 sw (cache st) block h (Some []) view' (Some J') c'); try done;
        [apply (ci_utxos _ _ _ _ Hi)|apply Hi]. }
    destruct (attachBlock_spec locked_info _ L0 (with_cache st c') (block, h) now Hcov Hi' Hacc) as (st' & Hst & Hinv & Hbc).
    exists st'. split_and!; try done.
    + rewrite (ci_utxos _ _ _ _ Hinv), Hbc, ledger_app, (ci_utxos _ _ _ _ Hi). done.
    + rewrite (ci_journal _ _ _ _ Hinv (bestChain st) (block, h) []) by done. cbn [option_map app] in HJ.
      injection HJ as ->. by rewrite (ci_utxos _ _ _ _ Hi).
  - unfold attachBlock. cbn [fst snd]. rewrite (native_anchor_refused _ _ true); [done|done| | |by eapply checked_readable|done].
    + cbn [with_cache cache]. rewrite Hc', (ci_utxos _ _ _ _ Hi).
      by destruct (checked_block_fits _ _ _ _ _ _ _ _ _ _ _ (ci_utxos _ _ _ _ Hi) (ci_wf _ _ _ _ Hi) Hb Hh HcovL Hdate Htxs Hs Hc).
    + cbn [with_cache cache]. rewrite (sd_db _ _ Hd'). destruct (ci_disk _ _ _ _ Hi) as (pre & post & Hpp & -> & _).
      eapply new_not_on_disk; [exact Hcov|]. by rewrite <- Hpp.
Qed.

End Blocks.

(** ** A concrete block

    Whole amounts of assets, with merging and splitting of lists. *)

Definition int_decimal : DecimalOps := {|
  Decimal := Z;
  ToFormatString z := le_encode 8 (uint64 z);
  NewDecimalFromFormatString b := Some (int64 (le_decode b));
  Decimal_Validate _ := true;
|}.

Abbreviation IntAsset := (AssetInfo (D := int_decimal)).
Definition int_asset (n : AssetName) (z b : Z) : IntAsset := mkAssetInfo (D := int_decimal) n z b.
Definition units (a : IntAsset) : Z := Amount (D := int_decimal) a.

Fixpoint add_asset (a : IntAsset) (l : list IntAsset) : list IntAsset :=
  match l with
  | [] => [a]
  | b :: l => if bool_decide (Name b = Name a) then int_asset (Name b) (units b + units a) (BindingSat b) :: l
              else b :: add_asset a l
  end.

Definition add_assets (l k : list IntAsset) : list IntAsset := foldl (fun l a => add_asset a l) l k.

Definition take_assets (l k : list IntAsset) : list IntAsset :=
  add_assets l (map (fun a => int_asset (Name a) (- units a) (BindingSat a)) k).

Definition same_asset (a b : IntAsset) : bool :=
  bool_decide (Name a = Name b) && (units a =? units b) && (BindingSat a =? BindingSat b).

#[local] Instance int_assets : AssetOps int_decimal := {|
  Decimal_Sign := (Z.sgn : @Decimal int_decimal -> Z);
  Decimal_Rat := (fun z : Z => Some (z, 1) : option (Z * Z)) : @Decimal int_decimal -> option (Z * Z);
  TxAssets_Merge l k := (add_assets l k, true);
  TxAssets_Split l k := (List.filter (fun a => negb (units a =? 0)) (take_assets l k),
                         forallb (fun a => 0 <=? units a) (take_assets l k));
  TxAssets_Find l n := find (fun a => bool_decide (Name a = n)) l;
  TxAssets_Equal l k := (len l =? len k) && forallb (fun p => same_asset p.1 p.2) (zip l k);
|}.

Definition int_value (z : @Decimal int_decimal) : Qc := of_Z z.

Abbreviation int_held := (held (D := int_decimal) int_value).

Lemma int_held_cons a l n : int_held (a :: l) n = ((if bool_decide (Name a = n) then of_Z (units a) else 0) + int_held l n)%Qc.
Proof. done. Qed.

Lemma held_add_asset a l n : int_held (add_asset a l) n = (int_held l n + int_held [a] n)%Qc.
Proof.
  induction l as [|b l IH]; cbn [add_asset]; [unfold held; cbn [map Qcsum foldr]; qc_lra|].
  destruct (bool_decide_reflect (Name b = Name a)) as [He|Hne].
  - rewrite !int_held_cons. cbn [int_asset Name]. rewrite He. change (units (int_asset _ ?z _)) with z.
    change (int_held [] n) with 0%Qc. destruct (bool_decide (Name a = n)); rewrite ?of_Z_plus; qc_lra.
  - rewrite (int_held_cons b), IH, (int_held_cons b). qc_lra.
Qed.

Lemma held_add_assets k l n : int_held (add_assets l k) n = (int_held l n + int_held k n)%Qc.
Proof.
  revert l. induction k as [|a k IH]; intros l; [change (int_held [] n) with 0%Qc; cbn [add_assets foldl]; qc_lra|].
  cbn [add_assets foldl]. change (foldl _ ?x k) with (add_assets x k). rewrite IH, held_add_asset, (int_held_cons a k).
  rewrite int_held_cons. change (int_held [] n) with 0%Qc. qc_lra.
Qed.

Lemma held_neg k n : (int_held (map (fun a => int_asset (Name a) (- units a) (BindingSat a)) k) n + int_held k n = 0)%Qc.
Proof.
  induction k as [|a k IH]; cbn [map]; [by apply Qc_is_canon|]. rewrite !int_held_cons. cbn [int_asset Name].
  change (units (int_asset _ ?z _)) with z. assert (H0 : (of_Z (- units a) + of_Z (units a) = 0)%Qc).
  { rewrite <- of_Z_plus. replace (- units a + units a) with 0 by lia. by apply Qc_is_canon. }
  destruct (bool_decide (Name a = n)); qc_lra.
Qed.

Lemma held_nonzero l n : int_held (List.filter (fun a => negb (units a =? 0)) l) n = int_held l n.
Proof.
  induction l as [|a l IH]; [done|]. cbn [List.filter]. destruct (Z.eqb_spec (units a) 0) as [H0|]; cbn [negb].
  - rewrite IH, int_held_cons, H0. assert (of_Z 0 = 0%Qc) by (by apply Qc_is_canon). destruct (bool_decide _); qc_lra.
  - by rewrite !int_held_cons, IH.
Qed.

Lemma held_take l k n : int_held l n = (int_held k n + int_held (take_assets l k) n)%Qc.
Proof. unfold take_assets. rewrite held_add_assets. pose proof (held_neg k n). qc_lra. Qed.

#[local] Instance int_laws : AssetLaws int_assets.
Proof.
  refine {| Decimal_value := int_value |}.
  - intros d _ Hd. unfold int_value. change 0%Qc with (of_Z 0). apply of_Z_le. by apply Z.sgn_nonneg.
  - intros a b c n [= <-]. apply held_add_assets.
  - intros a b c n [= <- _]. rewrite held_nonzero. apply held_take.
  - intros a b c n [= _ Hall] _ _. rewrite (held_take a b n).
    assert (Hpos : (0 <= int_held (take_assets a b) n)%Qc); [|qc_lra].
    induction (take_assets a b) as [|x l IH]; [done|]. cbn [forallb] in Hall. apply andb_true_iff in Hall as [Hx Hl].
    rewrite int_held_cons. specialize (IH Hl). apply Z.leb_le, of_Z_le in Hx. change (of_Z 0) with 0%Qc in Hx.
    destruct (bool_decide _); qc_lra.
Defined.

#[local] Existing Instance int_decimal.
#[local] Existing Instance int_assets.
#[local] Existing Instance int_laws.

Definition gold : AssetName := mkAssetName (str "ord") (str "f") (str "gold").
Definition silver : AssetName := mkAssetName (str "ord") (str "f") (str "silver").
Definition pay (v : Z) (l : list IntAsset) : TxOut := mkTxOut v l [OP_1].

(** A coin of 605 satoshis and 100 gold. *)
Definition asset_origin : OutPoint := mkOutPoint (replicate 32 7) 3.

(** Pays 10 gold and 3 satoshis of fees, which the coinbase takes. *)
Definition asset_spend : MsgTx :=
  mkMsgTx 1 [mkTxIn asset_origin [] [] MaxTxInSequenceNum] [pay 600 [int_asset gold 60 0]; pay 2 [int_asset gold 30 0]] 0.
Definition asset_coinbase : MsgTx :=
  mkMsgTx 1 [mkTxIn (mkOutPoint zeroHash MaxPrevOutIndex) [1; 2] [] MaxTxInSequenceNum] [pay 3 [int_asset gold 10 0]] 0.
(** Brings 900 satoshis and 5 silver. *)
Definition asset_anchor : MsgTx :=
  mkMsgTx 1 [mkTxIn (mkOutPoint zeroHash AnchorTxOutIndex) [3; 4] [] MaxTxInSequenceNum] [pay 900 [int_asset silver 5 0]] 0.

Definition asset_txs : list MsgTx := [asset_coinbase; asset_anchor; asset_spend].
Definition asset_root : bytes := Eval vm_compute in
  match CalcMerkleRoot (E := ChainError) (map NewTx asset_txs) false with Ok r => r | _ => [] end.
Definition asset_tip : bytes := replicate 32 1.
Definition asset_block : MsgBlock := mkMsgBlock (mkBlockHeader 1 asset_tip asset_root 0 0 0) asset_txs.

Definition asset_params : Params := mkParams false zeroHash 100 210000 1 0 0.
Definition asset_utxos : gmap OutPoint SpentTxOut :=
  {[asset_origin := mkSpentTxOut 605 [int_asset gold 100 0] [OP_1] 90 false]}.
Definition asset_cache : utxoCache := newUtxoCache asset_utxos (Some asset_tip) 500000.

#[local] Instance asset_env : AnchorEnv int_decimal := {|
  GraphBlindSeal raw := Some raw;
  checkAnchorPkScriptWithCoreCheck _ _ _ _ _ :=
    Ok (mkAscendInfo (mkAnchorInfo (replicate 66 97) (replicate 71 1) 900) [int_asset silver 5 0]);
  nativeproof_Validate _ _ _ _ := true;
  checkAscendingTickerInfo _ _ := true;
|}.

Definition any_view (b : MsgBlock) (v : UtxoViewpoint) : result ChainError unit := Ok tt.

Lemma asset_block_sane : checkBlockSanity 0 asset_block = Ok tt.
Proof. vm_compute. reflexivity. Qed.

Abbreviation asset_check :=
  (checkConnectBlock (fun _ _ _ => Ok tt) any_view any_view asset_params true true
    ∅ asset_cache asset_block 100 (mkView ∅ asset_tip) (Some [])).

Lemma asset_block_checked : match asset_check with Ok (_, Some _, _) => true | _ => false end = true.
Proof. vm_compute. reflexivity. Qed.

Lemma asset_block_connects : exists view' J' c', asset_check = Ok (view', Some J', c').
Proof.
  pose proof asset_block_checked as H. destruct asset_check as [[[v [J|]] c]| |]; try discriminate H. by exists v, J, c.
Qed.

Lemma asset_cache_ok : wf_cache asset_cache /\ chain_utxos asset_cache = asset_utxos.
Proof. exact (newUtxoCache_wf asset_utxos (Some asset_tip) 500000). Qed.

Lemma accepted_block_spends_witness :
  exists view' J' c', asset_check = Ok (view', Some J', c')
  /\ spends_unspent asset_params (chain_utxos asset_cache) asset_txs 100
  /\ Some J' = Some (block_journal (chain_utxos asset_cache) asset_txs 100).
Proof.
  destruct asset_block_connects as (view' & J' & c' & Hc). exists view', J', c'. split; [exact Hc|].
  destruct (accepted_block_spends (fun _ _ _ => Ok tt) 0 any_view any_view
    asset_params true true ∅ asset_cache asset_block 100 asset_tip (Some []) view' (Some J') c') as (H1 & H2 & _);
    [exact (proj1 asset_cache_ok)|apply Z.leb_le; reflexivity|exact asset_block_sane|exact Hc|].
  split; [exact H1|exact H2].
Defined.

Lemma asset_sound : sound_coins (chain_utxos asset_cache).
Proof.
  rewrite (proj2 asset_cache_ok). unfold asset_utxos. intros o c [_ <-]%lookup_singleton_Some [|n]; unfold coin_worth; cbn [worth st_Amount st_Assets].
  - apply (of_Z_le 0). lia.
  - unfold held. cbn [map Qcsum foldr]. assert (H : (0 <= Decimal_value (Amount (int_asset gold 100 0)))%Qc) by (apply (of_Z_le 0 100); lia).
    destruct (bool_decide _); qc_lra.
Qed.

Lemma accepted_block_conserves_witness :
  exists view' J' c', asset_check = Ok (view', Some J', c')
  /\ (forall u, (supply u (after_txs (chain_utxos asset_cache) asset_txs 100)
                 <= supply u (chain_utxos asset_cache) + anchored u asset_txs)%Qc).
Proof.
  destruct asset_block_connects as (view' & J' & c' & Hc). exists view', J', c'. split; [exact Hc|].
  destruct (accepted_block_conserves (fun _ _ _ => Ok tt) 0 any_view any_view
    asset_params true true ∅ asset_cache asset_block 100 asset_tip (Some []) view' (Some J') c') as [H _];
    [exact (proj1 asset_cache_ok)|apply Z.leb_le; reflexivity|exact asset_sound|exact asset_block_sane|exact Hc|].
  exact H.
Defined.

Definition asset_ledger : Ledger := mkLedger asset_tip asset_utxos ∅ {[Hash asset_origin]} {[asset_tip]}.

Lemma asset_covers : covers asset_ledger.
Proof.
  split; [|by apply elem_of_singleton]. intros o c Ho. cbn [asset_ledger l_utxos l_txs] in *. unfold asset_utxos in Ho.
  apply lookup_singleton_Some in Ho as [<- _]. by apply elem_of_singleton.
Qed.

(** The hashes of the block and of its transactions are new, and the record of its
    anchor has the expected size. *)
Lemma asset_hashes_new :
  bytes_eqb (block_hash (asset_block, 100)) asset_tip = false
  /\ forallb (fun tx => negb (bytes_eqb (TxHash tx) (Hash asset_origin))) asset_txs = true
  /\ wf_anchorb (anchor_entry asset_anchor (mkAnchorInfo (replicate 66 97) (replicate 71 1) 900)) = true.
Proof. vm_compute. repeat split. Qed.

Lemma asset_anchors_sized : anchors_sized asset_params 100 asset_txs.
Proof.
  assert (H : forall tx i, checked_info asset_params 100 tx = Ok i -> i = mkAnchorInfo (replicate 66 97) (replicate 71 1) 900).
  { intros tx i. unfold checked_info, GetLockedTxInfo, checkAnchorInput. destruct (TxIns tx) as [|? []]; [done| |done]. intros Hi.
    inv_bind Hi. inv_bind Hr. cbv zeta in Hr. do 2 (destruct (_ && _); [done|]).
    cbn [checkAnchorPkScriptWithCoreCheck asset_env rbind] in Hr. injection Hi as <-.
    destruct a0; [inv_bind Hr; cbn [nativeproof_Validate asset_env] in Hr|]; injection Hr as <-; reflexivity. }
  apply Forall_cons; split; [intros Ha; discriminate Ha|].
  apply Forall_cons; split; [|apply Forall_cons; split; [intros Ha; discriminate Ha|apply Forall_nil_2]].
  intros _ i Hi. rewrite (H _ _ Hi). apply wf_anchorb_sound, asset_hashes_new.
Qed.

Lemma asset_anchors_plain : ~ Exists native_anchor asset_txs.
Proof.
  assert (H : forallb (fun tx => match NativeAssetProof tx with Ok (Some _) => false | _ => true end) asset_txs = true)
    by (vm_compute; reflexivity).
  intros (tx & Hin & _ & p & Hp)%List.Exists_exists. rewrite forallb_forall in H. specialize (H tx Hin). by rewrite Hp in H.
Qed.

Lemma checked_block_connects_witness :
  exists view' J' c', asset_check = Ok (view', Some J', c')
  /\ exists st', attachBlock 0 locked_info (with_cache (initial_state asset_ledger 500000) c') (asset_block, 100) 5 = Ok st'
    /\ chain_utxos (cache st') = after_txs (chain_utxos asset_cache) asset_txs 100
    /\ spendJournal st' !! block_hash (asset_block, 100) = Some J'.
Proof.
  destruct asset_block_connects as (view' & J' & c' & Hc). exists view', J', c'. split; [exact Hc|].
  destruct (checked_block_connects (fun _ _ _ => Ok tt) 0 any_view any_view
    asset_params true true asset_ledger (initial_state asset_ledger 500000) asset_block 100 5 view' J' c')
    as [(_ & st' & H1 & _ & H2 & H3 & _)|[Hn _]].
  - exact asset_covers.
  - exact (genesis_inv locked_info 0 asset_ledger 500000).
  - apply Z.leb_le. reflexivity.
  - reflexivity.
  - discriminate.
  - intros o c Ho. change (asset_utxos !! o = Some c) in Ho. unfold asset_utxos in Ho.
    apply lookup_singleton_Some in Ho as [_ <-]. discriminate.
  - intros k v Hk. change ((∅ : gmap bytes bytes) !! k = Some v) in Hk. by rewrite lookup_empty in Hk.
  - intros Hin. change (block_hash (asset_block, 100) ∈ ({[asset_tip]} : gset bytes)) in Hin. apply elem_of_singleton in Hin.
    apply bytes_eqb_eq in Hin. rewrite (proj1 asset_hashes_new) in Hin. discriminate.
  - apply Forall_forall. intros tx Htx Hin. change (TxHash tx ∈ ({[Hash asset_origin]} : gset bytes)) in Hin.
    apply elem_of_singleton, bytes_eqb_eq in Hin. pose proof (proj1 (proj2 asset_hashes_new)) as H.
    rewrite forallb_forall in H. specialize (H tx (proj1 (list_elem_of_In _ _) Htx)). rewrite Hin in H. discriminate.
  - exact asset_anchors_sized.
  - exact asset_block_sane.
  - exact Hc.
  - exists st'. split; [exact H1|]. split; [exact H2|exact H3].
  - exfalso. exact (asset_anchors_plain Hn).
Defined.

(** The same block with a native anchor: the proof in its witness is committed to by
    its second output.  It passes the checks once native assets are active, and
    cannot be connected. *)
Definition native_proof : bytes := str "STPN" ++ [1; 1] ++ le_encode 4 3 ++ [7; 7; 7] ++ le_encode 2 0.
Definition native_commitment : bytes := Eval vm_compute in
  match NullDataScript CONTENT_TYPE_NATIVE_ASSET (sha256 native_proof) with Ok script => script | _ => [] end.
Definition native_tx : MsgTx :=
  mkMsgTx 1 [mkTxIn (mkOutPoint zeroHash AnchorTxOutIndex) [3; 4] [native_proof] AnchorTxOutIndex]
    [pay 900 [int_asset silver 5 0]; mkTxOut 0 [] native_commitment] 0.
Definition native_txs : list MsgTx := [asset_coinbase; native_tx; asset_spend].
Definition native_root : bytes := Eval vm_compute in
  match CalcMerkleRoot (E := ChainError) (map NewTx native_txs) false with Ok r => r | _ => [] end.
Definition native_block : MsgBlock := mkMsgBlock (mkBlockHeader 1 asset_tip native_root 0 0 0) native_txs.
Definition native_params : Params := mkParams false zeroHash 100 210000 1 0 50.

Example native_block_unconnectable :
  match checkBlockSanity 0 native_block,
        checkConnectBlock (fun _ _ _ => Ok tt) any_view any_view native_params true true
          ∅ asset_cache native_block 100 (mkView ∅ asset_tip) (Some []) with
  | Ok tt, Ok (_, Some _, c') =>
      match attachBlock 0 locked_info (with_cache (initial_state asset_ledger 500000) c') (native_block, 100) 5 with
      | Err OtherChainError => true
      | _ => false
      end
  | _, _ => false
  end = true.
Proof. vm_compute. reflexivity. Qed.

(** ** Consequences of details of the code *)

(** The input of an anchor is never in the view: an error of [CountP2SHSigOps] makes
    [GetSigOpCost] return 0, so the signature operations of an anchor's outputs are
    not counted. *)
Example anchor_sigops_uncounted :
  let tx := mkMsgTx 1 (TxIns asset_anchor) [mkTxOut 900 [] (replicate 100 OP_CHECKMULTISIG)] 0 in
  CountSigOps tx = Ok 2000 /\ GetSigOpCost tx false NewUtxoViewpoint true true = Ok 0.
Proof. split; vm_compute; reflexivity. Qed.

(** When blocks are attached after others were detached, the view already has keys
    for the outputs of detached transactions.  [later] is such a transaction, [early]
    comes before it in the new block and spends its first output, [last] its second:
    the checks pass, connecting the block to the cache then fails. *)
Definition later : MsgTx :=
  mkMsgTx 1 [mkTxIn asset_origin [] [] MaxTxInSequenceNum] [pay 300 []; pay 300 []] 0.
Definition later_hash : bytes := Eval vm_compute in TxHash later.
Definition spend_later (i : Z) : MsgTx :=
  mkMsgTx 1 [mkTxIn (mkOutPoint later_hash i) [] [] MaxTxInSequenceNum] [pay 290 []] 0.
Definition forward_txs : list MsgTx := [asset_coinbase; spend_later 0; later; spend_later 1].
Definition plain_cache : utxoCache :=
  newUtxoCache {[asset_origin := mkSpentTxOut 605 [] [OP_1] 90 false]} (Some asset_tip) 500000.

Definition check_result (view : UtxoViewpoint)
    : result ChainError (UtxoViewpoint * option (list SpentTxOut) * Z * list AssetInfo) :=
  let! '(view, _) := fetchInputUtxos view plain_cache forward_txs 100 in
  connect_loop (fun _ _ _ => Ok tt) asset_params 100 forward_txs view None 0 [].

Definition check_txs (view : UtxoViewpoint) : bool := is_ok (check_result view).

Example forward_reference_checked :
  check_txs (mkView ∅ asset_tip) = false
  /\ check_txs (mkView {[mkOutPoint later_hash 0 := Some (Spend (NewUtxoEntry (pay 300 []) 99 false))]} asset_tip) = true
  /\ match cache_connectTransactions locked_info plain_cache forward_txs 100 None None false with
     | Err AssertError => true
     | _ => false
     end = true.
Proof. split; [|split]; vm_compute; reflexivity. Qed.
