(* ===== verification/Treap.v ===== *)
(** * Treaps ([database/internal/treap])

    The ordered maps behind the database cache: a mutable treap, and an immutable
    one whose versions share nodes.  Nodes live in a store and are linked by
    pointers, as in the code, so that sharing and mutation are visible.  Priorities,
    which the code draws at random, are arguments. *)

From Stdlib Require Import ZArith Lia.
From stdpp Require Import base list numbers option gmap.
From S2P Require Import Prelude.

#[local] Open Scope Z_scope.

(** ** Nodes and stacks of parents ([common.go]) *)

Abbreviation loc := positive.
Abbreviation pointer := (option loc).

Record treapNode : Type := mkTreapNode {
  tn_key : bytes;
  tn_value : bytes;
  tn_priority : Z;
  tn_left : pointer;
  tn_right : pointer;
}.

Abbreviation store := (gmap loc treapNode).

(** A loop of the model that has not ended within its fuel. *)
Inductive TreapError : Type := OutOfFuel.

Abbreviation outcome := (result TreapError).

Definition load (s : store) (p : pointer) : outcome treapNode :=
  let! l := unwrap p in
  unwrap (s !! l).

Definition alloc (s : store) (n : treapNode) : loc * store :=
  let l := fresh (dom s) in (l, <[l := n]> s).

Definition set_left (n : treapNode) (p : pointer) : treapNode :=
  mkTreapNode (tn_key n) (tn_value n) (tn_priority n) p (tn_right n).
Definition set_right (n : treapNode) (p : pointer) : treapNode :=
  mkTreapNode (tn_key n) (tn_value n) (tn_priority n) (tn_left n) p.
Definition set_value (n : treapNode) (v : bytes) : treapNode :=
  mkTreapNode (tn_key n) v (tn_priority n) (tn_left n) (tn_right n).

(** Assignments through a pointer. *)
Definition update (s : store) (p : pointer) (f : treapNode -> treapNode) : outcome store :=
  let! l := unwrap p in
  let! n := unwrap (s !! l) in
  Ok (<[l := f n]> s).

Definition staticDepth : Z := 128.
Definition nodeFieldsSize : Z := 72.

Definition nodeSize (n : treapNode) : Z := uint64 (nodeFieldsSize + uint64 (len (tn_key n) + len (tn_value n))).

Definition newTreapNode (key value : bytes) (priority : Z) : treapNode := mkTreapNode key value priority None None.

Record parentStack : Type := mkParentStack {
  ps_index : Z;
  ps_items : list pointer;
  ps_overflow : list pointer;
}.

Definition emptyStack : parentStack := mkParentStack 0 (replicate (Z.to_nat staticDepth) None) [].

Definition parentStack_Len (s : parentStack) : Z := ps_index s.

Definition parentStack_At (s : parentStack) (n : Z) : outcome pointer :=
  let index := ps_index s - n - 1 in
  if index <? 0 then Ok None
  else if index <? staticDepth then unwrap (ps_items s !! Z.to_nat index)
  else unwrap (ps_overflow s !! Z.to_nat (index - staticDepth)).

(** An assignment [a[i] = x], which panics out of range. *)
Definition assign {A : Type} (l : list A) (i : Z) (x : A) : outcome (list A) :=
  if (0 <=? i) && (i <? len l) then Ok (<[Z.to_nat i := x]> l) else Panic.

Definition parentStack_Pop (s : parentStack) : outcome (pointer * parentStack) :=
  if ps_index s =? 0 then Ok (None, s)
  else
    let index := ps_index s - 1 in
    if index <? staticDepth then
      let! node := unwrap (ps_items s !! Z.to_nat index) in
      let! items := assign (ps_items s) index None in
      Ok (node, mkParentStack index items (ps_overflow s))
    else
      let! node := unwrap (ps_overflow s !! Z.to_nat (index - staticDepth)) in
      let! overflow := assign (ps_overflow s) (index - staticDepth) None in
      Ok (node, mkParentStack index (ps_items s) overflow).

(** The overflow slice is always as long as its capacity. *)
Definition parentStack_Push (s : parentStack) (node : pointer) : outcome parentStack :=
  if ps_index s <? staticDepth then
    let! items := assign (ps_items s) (ps_index s) node in
    Ok (mkParentStack (ps_index s + 1) items (ps_overflow s))
  else
    let index := ps_index s - staticDepth in
    let overflow := if len (ps_overflow s) <? index + 1
                    then ps_overflow s ++ replicate (Z.to_nat (index + 1 - len (ps_overflow s))) None
                    else ps_overflow s in
    let! overflow := assign overflow index node in
    Ok (mkParentStack (ps_index s + 1) (ps_items s) overflow).

(** Enough steps for a walk down a tree of the store. *)
Definition enough (s : store) : nat := S (size s).

(** ** Operations both kinds share *)

(** The loop of [get]. *)
Fixpoint get_loop (fuel : nat) (s : store) (node : pointer) (key : bytes) : outcome pointer :=
  match node, fuel with
  | None, _ => Ok None
  | Some _, O => Err OutOfFuel
  | Some _, S fuel =>
      let! n := load s node in
      let compareResult := Compare key (tn_key n) in
      if compareResult <? 0 then get_loop fuel s (tn_left n) key
      else if 0 <? compareResult then get_loop fuel s (tn_right n) key
      else Ok node
  end.

(** The parent's link to [old] becomes [new]; nothing when there is no parent. *)
Definition relink (s : store) (parent old new : pointer) : outcome store :=
  match parent with
  | None => Ok s
  | Some _ =>
      update s parent (fun p => if bool_decide (tn_left p = old) then set_left p new else set_right p new)
  end.

(** [relinkGrandparent]: with no grandparent the node is the new root. *)
Definition relinkGrandparent (s : store) (node parent grandparent root : pointer) : outcome (store * pointer) :=
  match grandparent with
  | None => Ok (s, node)
  | Some _ => let! s := relink s grandparent parent node in Ok (s, root)
  end.

(** One rotation: [child] goes above [node], whose parent is [parent]. *)
Definition rotate_child (s : store) (node child parent root : pointer) (isLeft : bool)
    : outcome (store * pointer) :=
  let! c := load s child in
  let! s :=
    (if isLeft then
       let! s := update s child (fun c => set_right c node) in
       update s node (fun d => set_left d (tn_right c))
     else
       let! s := update s child (fun c => set_left c node) in
       update s node (fun d => set_right d (tn_left c))) in
  relinkGrandparent s child node parent root.

(** The rotations after an insertion. *)
Fixpoint rotate_up (fuel : nat) (s : store) (node : loc) (parents : parentStack) (root : pointer)
    : outcome (store * pointer) :=
  if negb (0 <? parentStack_Len parents) then Ok (s, root)
  else
    match fuel with
    | O => Err OutOfFuel
    | S fuel =>
        let! '(parent, parents) := parentStack_Pop parents in
        let! n := load s (Some node) in
        let! p := load s parent in
        if tn_priority p <=? tn_priority n then Ok (s, root)
        else
          let! grandparent := parentStack_At parents 0 in
          let! '(s, root) :=
            rotate_child s parent (Some node) grandparent root (bool_decide (tn_left p = Some node)) in
          rotate_up fuel s node parents root
    end.

(** The child that takes the place of the node to delete, and whether it is the
    left one. *)
Definition choose_child (s : store) (n : treapNode) : outcome (pointer * bool) :=
  match tn_left n, tn_right n with
  | None, r => Ok (r, false)
  | l, None => Ok (l, true)
  | l, r =>
      let! ln := load s l in
      let! rn := load s r in
      if tn_priority rn <=? tn_priority ln then Ok (l, true) else Ok (r, false)
  end.

(** Disconnects the leaf from its parent. *)
Definition unlink (s : store) (parent node : pointer) : outcome store :=
  update s parent (fun p => if bool_decide (tn_right p = node) then set_right p None else set_left p None).

(** The traversal of [ForEach]: the pairs the function was called with. *)
Fixpoint push_left (fuel : nat) (s : store) (node : pointer) (parents : parentStack) : outcome parentStack :=
  match node, fuel with
  | None, _ => Ok parents
  | Some _, O => Err OutOfFuel
  | Some _, S fuel =>
      let! parents := parentStack_Push parents node in
      let! n := load s node in
      push_left fuel s (tn_left n) parents
  end.

Fixpoint each_loop (fuel : nat) (s : store) (parents : parentStack) (fn : bytes -> bytes -> bool)
    : outcome (list (bytes * bytes)) :=
  if negb (0 <? parentStack_Len parents) then Ok []
  else
    match fuel with
    | O => Err OutOfFuel
    | S fuel =>
        let! '(node, parents) := parentStack_Pop parents in
        let! n := load s node in
        if negb (fn (tn_key n) (tn_value n)) then Ok [(tn_key n, tn_value n)]
        else
          let! parents := push_left (enough s) s (tn_right n) parents in
          let! rest := each_loop fuel s parents fn in
          Ok ((tn_key n, tn_value n) :: rest)
    end.

Definition forEach (s : store) (root : pointer) (fn : bytes -> bytes -> bool) : outcome (list (bytes * bytes)) :=
  let! parents := push_left (enough s) s root emptyStack in
  each_loop (enough s) s parents fn.

(** ** The immutable treap ([immutable.go]) *)

Record Immutable : Type := mkImmutable {
  im_root : pointer;
  im_count : Z;
  im_totalSize : Z;
}.

Definition NewImmutable : Immutable := mkImmutable None 0 0.

Definition Immutable_Len (t : Immutable) : Z := im_count t.
Definition Immutable_Size (t : Immutable) : Z := im_totalSize t.

Definition Immutable_get (s : store) (t : Immutable) (key : bytes) : outcome pointer :=
  get_loop (enough s) s (im_root t) key.

Definition Immutable_Has (s : store) (t : Immutable) (key : bytes) : outcome bool :=
  let! node := Immutable_get s t key in
  Ok (non_nil node).

Definition Immutable_Get (s : store) (t : Immutable) (key : bytes) : outcome (option bytes) :=
  let! node := Immutable_get s t key in
  match node with
  | None => Ok None
  | Some _ => let! n := load s node in Ok (Some (tn_value n))
  end.

(** The search of [Put]: copies of the nodes on the way go onto the stack.  The last
    component is the copy of the node that has the key, if there is one. *)
Fixpoint copy_search (fuel : nat) (s : store) (node : pointer) (key : bytes) (parents : parentStack)
    (compareResult : Z) : outcome (store * parentStack * Z * pointer) :=
  match node, fuel with
  | None, _ => Ok (s, parents, compareResult, None)
  | Some _, O => Err OutOfFuel
  | Some _, S fuel =>
      let! n := load s node in
      let '(nodeCopy, s) := alloc s n in
      let! oldParent := parentStack_At parents 0 in
      let! s := relink s oldParent node (Some nodeCopy) in
      let! parents := parentStack_Push parents (Some nodeCopy) in
      let compareResult := Compare key (tn_key n) in
      if compareResult <? 0 then copy_search fuel s (tn_left n) key parents compareResult
      else if 0 <? compareResult then copy_search fuel s (tn_right n) key parents compareResult
      else Ok (s, parents, compareResult, Some nodeCopy)
  end.

(** Links the new node under its parent. *)
Definition attach (s : store) (parent : pointer) (compareResult : Z) (node : loc) : outcome store :=
  update s parent (fun p => if compareResult <? 0 then set_left p (Some node) else set_right p (Some node)).

Definition Immutable_Put (s : store) (t : Immutable) (key : bytes) (value : option bytes) (priority : Z)
    : outcome (store * Immutable) :=
  let value := default [] value in
  match im_root t with
  | None =>
      let root := newTreapNode key value priority in
      let '(l, s) := alloc s root in
      Ok (s, mkImmutable (Some l) 1 (nodeSize root))
  | Some _ =>
      let! '(s, parents, compareResult, found) := copy_search (enough s) s (im_root t) key emptyStack 0 in
      match found with
      | Some _ =>
          let! n := load s found in
          let! s := update s found (fun n => set_value n value) in
          let! newRoot := parentStack_At parents (parentStack_Len parents - 1) in
          let newTotalSize := uint64 (uint64 (im_totalSize t - len (tn_value n)) + len value) in
          Ok (s, mkImmutable newRoot (im_count t) newTotalSize)
      | None =>
          let n := newTreapNode key value priority in
          let '(node, s) := alloc s n in
          let! parent := parentStack_At parents 0 in
          let! s := attach s parent compareResult node in
          let! newRoot := parentStack_At parents (parentStack_Len parents - 1) in
          let! '(s, newRoot) := rotate_up (Z.to_nat (parentStack_Len parents)) s node parents newRoot in
          Ok (s, mkImmutable newRoot (int64 (im_count t + 1)) (uint64 (im_totalSize t + nodeSize n)))
      end
  end.

(** The search of [Delete]; the node found is on top of the stack. *)
Fixpoint find_path (fuel : nat) (s : store) (node : pointer) (key : bytes) (parents : parentStack)
    : outcome (parentStack * pointer) :=
  match node, fuel with
  | None, _ => Ok (parents, None)
  | Some _, O => Err OutOfFuel
  | Some _, S fuel =>
      let! parents := parentStack_Push parents node in
      let! n := load s node in
      let compareResult := Compare key (tn_key n) in
      if compareResult <? 0 then find_path fuel s (tn_left n) key parents
      else if 0 <? compareResult then find_path fuel s (tn_right n) key parents
      else Ok (parents, node)
  end.

(** Copies of the nodes of [parents], from the root down; [i] is the loop index. *)
Fixpoint copy_path (i : nat) (s : store) (parents newParents : parentStack) : outcome (store * parentStack) :=
  match i with
  | O => Ok (s, newParents)
  | S i =>
      let! node := parentStack_At parents (Z.of_nat i) in
      let! n := load s node in
      let '(nodeCopy, s) := alloc s n in
      let! oldParent := parentStack_At newParents 0 in
      let! s := relink s oldParent node (Some nodeCopy) in
      let! newParents := parentStack_Push newParents (Some nodeCopy) in
      copy_path i s parents newParents
  end.

(** The rotations of [Delete]: children are copied before they change. *)
Fixpoint copy_down (fuel : nat) (s : store) (delNode parent root : pointer) : outcome (store * pointer * pointer) :=
  let! d := load s delNode in
  if negb (non_nil (tn_left d) || non_nil (tn_right d)) then Ok (s, parent, root)
  else
    match fuel with
    | O => Err OutOfFuel
    | S fuel =>
        let! '(child, isLeft) := choose_child s d in
        let! c := load s child in
        let '(l, s) := alloc s c in
        let! '(s, root) := rotate_child s delNode (Some l) parent root isLeft in
        copy_down fuel s delNode (Some l) root
    end.

Definition Immutable_Delete (s : store) (t : Immutable) (key : bytes) : outcome (store * Immutable) :=
  let! '(parents, delNode) := find_path (enough s) s (im_root t) key emptyStack in
  match delNode with
  | None => Ok (s, t)
  | Some _ =>
      let! parent := parentStack_At parents 1 in
      let! d := load s delNode in
      if negb (non_nil parent) && negb (non_nil (tn_left d)) && negb (non_nil (tn_right d)) then Ok (s, NewImmutable)
      else
        let! '(s, newParents) := copy_path (Z.to_nat (parentStack_Len parents)) s parents emptyStack in
        let! '(delNode, newParents) := parentStack_Pop newParents in
        let! parent := parentStack_At newParents 0 in
        let! newRoot := parentStack_At newParents (parentStack_Len newParents - 1) in
        let! '(s, parent, newRoot) := copy_down (enough s) s delNode parent newRoot in
        let! s := unlink s parent delNode in
        Ok (s, mkImmutable newRoot (int64 (im_count t - 1)) (uint64 (im_totalSize t - nodeSize d)))
  end.

Definition Immutable_ForEach (s : store) (t : Immutable) (fn : bytes -> bytes -> bool)
    : outcome (list (bytes * bytes)) := forEach s (im_root t) fn.

(** ** The mutable treap ([mutable.go]) *)

Record Mutable : Type := mkMutable {
  mu_root : pointer;
  mu_count : Z;
  mu_totalSize : Z;
}.

Definition NewMutable : Mutable := mkMutable None 0 0.

Definition Mutable_Len (t : Mutable) : Z := mu_count t.
Definition Mutable_Size (t : Mutable) : Z := mu_totalSize t.
Definition Mutable_Reset (t : Mutable) : Mutable := mkMutable None 0 0.

(** [get] also returns the parent. *)
Fixpoint find_parent (fuel : nat) (s : store) (node parent : pointer) (key : bytes) : outcome (pointer * pointer) :=
  match node, fuel with
  | None, _ => Ok (None, None)
  | Some _, O => Err OutOfFuel
  | Some _, S fuel =>
      let! n := load s node in
      let compareResult := Compare key (tn_key n) in
      if compareResult <? 0 then find_parent fuel s (tn_left n) node key
      else if 0 <? compareResult then find_parent fuel s (tn_right n) node key
      else Ok (node, parent)
  end.

Definition Mutable_get (s : store) (t : Mutable) (key : bytes) : outcome (pointer * pointer) :=
  find_parent (enough s) s (mu_root t) None key.

Definition Mutable_Has (s : store) (t : Mutable) (key : bytes) : outcome bool :=
  let! '(node, _) := Mutable_get s t key in
  Ok (non_nil node).

Definition Mutable_Get (s : store) (t : Mutable) (key : bytes) : outcome (option bytes) :=
  let! '(node, _) := Mutable_get s t key in
  match node with
  | None => Ok None
  | Some _ => let! n := load s node in Ok (Some (tn_value n))
  end.

(** The search of [Put]. *)
Fixpoint push_search (fuel : nat) (s : store) (node : pointer) (key : bytes) (parents : parentStack)
    (compareResult : Z) : outcome (parentStack * Z * pointer) :=
  match node, fuel with
  | None, _ => Ok (parents, compareResult, None)
  | Some _, O => Err OutOfFuel
  | Some _, S fuel =>
      let! parents := parentStack_Push parents node in
      let! n := load s node in
      let compareResult := Compare key (tn_key n) in
      if compareResult <? 0 then push_search fuel s (tn_left n) key parents compareResult
      else if 0 <? compareResult then push_search fuel s (tn_right n) key parents compareResult
      else Ok (parents, compareResult, node)
  end.

Definition Mutable_Put (s : store) (t : Mutable) (key : bytes) (value : option bytes) (priority : Z)
    : outcome (store * Mutable) :=
  let value := default [] value in
  match mu_root t with
  | None =>
      let n := newTreapNode key value priority in
      let '(l, s) := alloc s n in
      Ok (s, mkMutable (Some l) 1 (nodeSize n))
  | Some _ =>
      let! '(parents, compareResult, found) := push_search (enough s) s (mu_root t) key emptyStack 0 in
      match found with
      | Some _ =>
          let! n := load s found in
          let! s := update s found (fun n => set_value n value) in
          Ok (s, mkMutable (mu_root t) (mu_count t) (uint64 (uint64 (mu_totalSize t - len (tn_value n)) + len value)))
      | None =>
          let n := newTreapNode key value priority in
          let '(node, s) := alloc s n in
          let! parent := parentStack_At parents 0 in
          let! s := attach s parent compareResult node in
          let! '(s, root) := rotate_up (Z.to_nat (parentStack_Len parents)) s node parents (mu_root t) in
          Ok (s, mkMutable root (int64 (mu_count t + 1)) (uint64 (mu_totalSize t + nodeSize n)))
      end
  end.

(** The rotations of [Delete], in place. *)
Fixpoint move_down (fuel : nat) (s : store) (node parent root : pointer) : outcome (store * pointer * pointer) :=
  let! d := load s node in
  if negb (non_nil (tn_left d) || non_nil (tn_right d)) then Ok (s, parent, root)
  else
    match fuel with
    | O => Err OutOfFuel
    | S fuel =>
        let! '(child, isLeft) := choose_child s d in
        let! '(s, root) := rotate_child s node child parent root isLeft in
        move_down fuel s node child root
    end.

Definition Mutable_Delete (s : store) (t : Mutable) (key : bytes) : outcome (store * Mutable) :=
  let! '(node, parent) := Mutable_get s t key in
  match node with
  | None => Ok (s, t)
  | Some _ =>
      let! d := load s node in
      if negb (non_nil parent) && negb (non_nil (tn_left d)) && negb (non_nil (tn_right d))
      then Ok (s, mkMutable None 0 0)
      else
        let! '(s, parent, root) := move_down (enough s) s node parent (mu_root t) in
        let! s := unlink s parent node in
        Ok (s, mkMutable root (int64 (mu_count t - 1)) (uint64 (mu_totalSize t - nodeSize d)))
  end.

Definition Mutable_ForEach (s : store) (t : Mutable) (fn : bytes -> bytes -> bool)
    : outcome (list (bytes * bytes)) := forEach s (mu_root t) fn.

(** ** A deletion can break the heap order

    The rotations of an insertion keep a min-heap: no node has a smaller priority
    than its parent.  A deletion brings up the child with the larger priority. *)

Fixpoint heap_from (fuel : nat) (s : store) (least : Z) (node : pointer) : bool :=
  match node, fuel with
  | None, _ => true
  | Some _, O => false
  | Some l, S fuel =>
      match s !! l with
      | None => false
      | Some n => (least <=? tn_priority n) && heap_from fuel s (tn_priority n) (tn_left n)
                  && heap_from fuel s (tn_priority n) (tn_right n)
      end
  end.

Definition is_heap (s : store) (root : pointer) : bool := heap_from (enough s) s 0 root.

Example delete_breaks_heap :
  match (let! '(s, t) := Mutable_Put ∅ NewMutable [2] None 1 in
         let! '(s, t) := Mutable_Put s t [1] None 9 in
         let! '(s, t) := Mutable_Put s t [3] None 5 in
         let! '(s1, t1) := Mutable_Delete s t [2] in
         Ok (is_heap s (mu_root t), is_heap s1 (mu_root t1))) with
  | Ok r => r
  | _ => (false, true)
  end = (true, false).
Proof. vm_compute. reflexivity. Qed.
