(* ===== verification/TreapProofs.v ===== *)
(** * Treaps implement ordered maps

    A tree of the store is described by a [tree] that names the cells of its nodes.
    The loops walk it as a zipper: frames for the nodes on the stack of parents and
    the subtree below. *)

From Stdlib Require Import ZArith Lia Sorted.
From stdpp Require Import base list numbers option gmap sets.
From S2P Require Import Prelude Treap.

#[local] Open Scope Z_scope.

(** ** Stacks of parents *)

(** Arithmetic on lengths. *)
Ltac sized := unfold len, staticDepth in *; cbn [length] in *; lia.

(** The stack holds the nodes [l], the top first. *)
Record stack_of (s : parentStack) (l : list loc) : Prop := {
  so_index : ps_index s = len l;
  so_static : length (ps_items s) = Z.to_nat staticDepth;
  so_nodes : take (length l) (ps_items s ++ ps_overflow s) = map Some (reverse l);
  so_free : forall i, (length l <= i < Z.to_nat staticDepth)%nat -> ps_items s !! i = Some None;
}.

Lemma stack_room s l : stack_of s l -> (length l <= length (ps_items s ++ ps_overflow s))%nat.
Proof. intros [_ _ Hn _]. apply (f_equal length) in Hn. rewrite length_take, length_map, length_reverse in Hn. lia. Qed.

Lemma emptyStack_of : stack_of emptyStack [].
Proof.
  split; [done|apply length_replicate|done|]. intros i Hi. apply lookup_replicate_2. cbn [length] in Hi. lia.
Qed.

Lemma stack_lookup s l i : stack_of s l -> (i < length l)%nat ->
  (ps_items s ++ ps_overflow s) !! i = Some (l !! (length l - S i)%nat).
Proof.
  intros Hs Hi. rewrite <- (lookup_take_lt _ (length l)) by done. rewrite (so_nodes _ _ Hs).
  rewrite list_lookup_fmap, reverse_lookup by done.
  destruct (lookup_lt_is_Some_2 l (length l - S i)%nat) as [x ->]; [lia|]. done.
Qed.

Lemma stack_cell s l (i : Z) : stack_of s l -> 0 <= i ->
  (if i <? staticDepth then ps_items s !! Z.to_nat i else ps_overflow s !! Z.to_nat (i - staticDepth))
  = (ps_items s ++ ps_overflow s) !! Z.to_nat i.
Proof.
  intros Hs Hi. pose proof (so_static _ _ Hs) as Hl. unfold staticDepth in *. destruct (Z.ltb_spec i 128).
  - rewrite lookup_app_l by lia. done.
  - rewrite lookup_app_r by lia. f_equal. lia.
Qed.

Lemma At_stack s l n : stack_of s l -> 0 <= n -> parentStack_At s n = Ok (l !! Z.to_nat n).
Proof.
  intros Hs Hn. unfold parentStack_At. rewrite (so_index _ _ Hs). unfold len. set (i := Z.of_nat (length l) - n - 1).
  destruct (Z.ltb_spec i 0) as [H0|H0].
  - rewrite lookup_ge_None_2 by lia. done.
  - pose proof (stack_cell s l i Hs H0) as Hc. rewrite (stack_lookup s l (Z.to_nat i)) in Hc by (done || lia).
    replace (length l - S (Z.to_nat i))%nat with (Z.to_nat n) in Hc by lia. destruct (i <? staticDepth); by rewrite Hc.
Qed.

(** The bottom of the stack; nil when it is empty. *)
Lemma At_bottom s l : stack_of s l -> parentStack_At s (parentStack_Len s - 1) = Ok (last l).
Proof.
  intros Hs. destruct l as [|x l].
  - unfold parentStack_At, parentStack_Len. rewrite (so_index _ _ Hs).
    change (unwrap (ps_items s !! 0%nat) = Ok (E := TreapError) (@None loc)). rewrite (so_free _ _ Hs 0%nat); [done|].
    unfold staticDepth. cbn [length]. lia.
  - unfold parentStack_Len. rewrite (so_index _ _ Hs), (At_stack _ _ _ Hs) by (rewrite len_cons; pose proof (len_nonneg l); lia).
    rewrite last_lookup. do 2 f_equal. unfold len. cbn [length]. lia.
Qed.

Lemma assign_ok {A : Type} (l : list A) i x : 0 <= i < len l -> assign l i x = Ok (<[Z.to_nat i := x]> l).
Proof.
  intros Hi. unfold assign. destruct (Z.leb_spec 0 i); [|lia]. destruct (Z.ltb_spec i (len l)); [done|lia].
Qed.

Lemma take_insert_snoc {A : Type} (l : list A) n x : (n < length l)%nat -> take (S n) (<[n := x]> l) = take n l ++ [x].
Proof.
  intros Hn. rewrite (take_S_r _ _ x) by (by apply list_lookup_insert_eq). by rewrite take_insert_ge.
Qed.

Lemma Push_stack s l x : stack_of s l -> exists s', parentStack_Push s (Some x) = Ok s' /\ stack_of s' (x :: l).
Proof.
  intros Hs. pose proof (so_static _ _ Hs) as Hst. pose proof (so_index _ _ Hs) as Hi. pose proof (stack_room _ _ Hs) as Hr.
  pose proof (len_nonneg l). unfold parentStack_Push. rewrite Hi. destruct (Z.ltb_spec (len l) staticDepth) as [Hlt|Hge].
  - rewrite assign_ok by (sized). cbn [rbind]. eexists. split; [done|]. split; cbn [ps_index ps_items ps_overflow].
    + rewrite len_cons. lia.
    + by rewrite length_insert.
    + unfold len. rewrite Nat2Z.id. rewrite <- insert_app_l by sized. cbn [length].
      rewrite take_insert_snoc by (rewrite length_app; sized). by rewrite (so_nodes _ _ Hs), reverse_cons, map_app.
    + intros i Hr'. cbn [length] in Hr'. rewrite list_lookup_insert_ne by (unfold len; lia). apply (so_free _ _ Hs). lia.
  - set (o := if _ <? _ then _ else _). assert (Ho : exists k, o = ps_overflow s ++ k /\ len l - staticDepth < len o).
    { subst o. destruct (Z.ltb_spec (len (ps_overflow s)) (len l - staticDepth + 1)).
      - eexists. split; [done|]. rewrite len_app. unfold len at 3. rewrite length_replicate. lia.
      - exists []. rewrite app_nil_r. split; [done|lia]. }
    destruct Ho as (k & Ho & Hlen). rewrite assign_ok by lia. cbn [rbind]. eexists. split; [done|].
    split; cbn [ps_index ps_items ps_overflow].
    + rewrite len_cons. lia.
    + done.
    + replace (Z.to_nat (len l - staticDepth)) with (length l - length (ps_items s))%nat by (sized).
      rewrite <- insert_app_r_alt by (sized). cbn [length]. rewrite take_insert_snoc.
      * rewrite Ho, app_assoc, take_app_le by done. by rewrite (so_nodes _ _ Hs), reverse_cons, map_app.
      * rewrite length_app. sized.
    + intros i Hr'. cbn [length] in Hr'. sized.
Qed.

Lemma Pop_stack s x l : stack_of s (x :: l) -> exists s', parentStack_Pop s = Ok (Some x, s') /\ stack_of s' l.
Proof.
  intros Hs. pose proof (so_static _ _ Hs) as Hst. pose proof (so_index _ _ Hs) as Hi. pose proof (stack_room _ _ Hs) as Hr.
  pose proof (len_nonneg l). rewrite len_cons in Hi. cbn [length] in Hr. rewrite length_app in Hr.
  pose proof (stack_cell s _ (len l) Hs ltac:(lia)) as Hc.
  rewrite (stack_lookup s _ (Z.to_nat (len l)) Hs) in Hc by (cbn [length]; unfold len; lia).
  replace (length (x :: l) - S (Z.to_nat (len l)))%nat with 0%nat in Hc by (cbn [length]; unfold len; lia).
  cbn [lookup list_lookup] in Hc. assert (Ht : take (length l) (ps_items s ++ ps_overflow s) = map Some (reverse l)).
  { pose proof (so_nodes _ _ Hs) as Hn. cbn [length] in Hn. rewrite reverse_cons, map_app in Hn.
    apply (f_equal (take (length l))) in Hn. rewrite take_take in Hn. rewrite Nat.min_l in Hn by lia. rewrite Hn.
    rewrite take_app_le by (rewrite length_map, length_reverse; done). apply take_ge. by rewrite length_map, length_reverse. }
  unfold parentStack_Pop. rewrite Hi. destruct (Z.eqb_spec (1 + len l) 0); [lia|]. replace (1 + len l - 1) with (len l) by lia.
  destruct (Z.ltb_spec (len l) staticDepth) as [Hlt|Hge].
  - rewrite Hc. cbn [unwrap rbind]. rewrite assign_ok by (sized). cbn [rbind]. eexists. split; [done|].
    split; cbn [ps_index ps_items ps_overflow]; [done|by rewrite length_insert| |].
    + rewrite <- insert_app_l by (sized). unfold len. rewrite Nat2Z.id, take_insert_ge by done. exact Ht.
    + intros i Hr'. unfold len. rewrite Nat2Z.id. destruct (decide (i = length l)) as [->|].
      * apply list_lookup_insert_eq. sized.
      * rewrite list_lookup_insert_ne by done. apply (so_free _ _ Hs). cbn [length]. lia.
  - rewrite Hc. cbn [unwrap rbind]. rewrite assign_ok by (sized). cbn [rbind]. eexists. split; [done|].
    split; cbn [ps_index ps_items ps_overflow]; [done|done| |].
    + replace (Z.to_nat (len l - staticDepth)) with (length l - length (ps_items s))%nat by (sized).
      rewrite <- insert_app_r_alt by (sized). rewrite take_insert_ge by done. exact Ht.
    + intros i Hr'. sized.
Qed.

(** ** The order of keys *)

Definition key_lt (a b : bytes) : Prop := Compare a b < 0.

Lemma Compare_range a b : Compare a b = -1 \/ Compare a b = 0 \/ Compare a b = 1.
Proof.
  revert b. induction a as [|x a IH]; intros [|y b]; cbn [Compare]; try tauto.
  destruct (Z.ltb_spec x y); [tauto|]. destruct (Z.ltb_spec y x); [tauto|]. apply IH.
Qed.

Lemma Compare_anti a b : Compare b a = - Compare a b.
Proof.
  revert b. induction a as [|x a IH]; intros [|y b]; cbn [Compare]; try done.
  destruct (Z.ltb_spec x y), (Z.ltb_spec y x); try lia; try done.
Qed.

Lemma Compare_eq a b : Compare a b = 0 <-> a = b.
Proof.
  split; [|intros <-; induction a as [|x a IH]; cbn [Compare]; [done|by rewrite Z.ltb_irrefl]].
  revert b. induction a as [|x a IH]; intros [|y b]; cbn [Compare]; try done.
  destruct (Z.ltb_spec x y); [done|]. destruct (Z.ltb_spec y x); [done|]. intros Hab%IH. f_equal; [lia|done].
Qed.

Lemma key_lt_trans a b c : key_lt a b -> key_lt b c -> key_lt a c.
Proof.
  unfold key_lt. revert b c. induction a as [|x a IH]; intros [|y b] [|z c]; cbn [Compare]; try lia.
  destruct (Z.ltb_spec x y), (Z.ltb_spec y z), (Z.ltb_spec x z), (Z.ltb_spec z y), (Z.ltb_spec y x), (Z.ltb_spec z x); try lia.
  apply IH.
Qed.

Lemma key_lt_ne a b : key_lt a b -> a <> b.
Proof. unfold key_lt. intros H ->. rewrite (proj2 (Compare_eq b b) eq_refl) in H. lia. Qed.

Definition pair_lt (x y : bytes * bytes) : Prop := key_lt x.1 y.1.
Definition sorted (l : list (bytes * bytes)) : Prop := StronglySorted pair_lt l.

Lemma sorted_app l k :
  sorted (l ++ k) <-> sorted l /\ sorted k /\ (forall x y, x ∈ l -> y ∈ k -> pair_lt x y).
Proof.
  unfold sorted. induction l as [|x l IH]; cbn [app].
  - split; [intros H; split_and!; [constructor|done|intros ? ? Hx; by apply not_elem_of_nil in Hx]|tauto].
  - split.
    + intros H. apply StronglySorted_inv in H as [H Hx]. apply IH in H as (Hl & Hk & Hlk). rewrite Forall_forall in Hx.
      split_and!; [|done|].
      * constructor; [done|]. apply Forall_forall. intros y Hy. apply Hx, elem_of_app. by left.
      * intros y z [->|Hy]%elem_of_cons Hz; [apply Hx, elem_of_app; by right|by apply Hlk].
    + intros (Hl & Hk & Hlk). apply StronglySorted_inv in Hl as [Hl Hx]. constructor.
      * apply IH. split_and!; [done|done|]. intros y z Hy Hz. apply Hlk; [by apply elem_of_cons; right|done].
      * rewrite Forall_forall in Hx |- *. intros y [Hy|Hy]%elem_of_app; [by apply Hx|]. apply Hlk; [by apply elem_of_cons; left|done].
Qed.

Lemma sorted_mid l x k :
  sorted (l ++ x :: k) <-> sorted l /\ sorted k /\ Forall (fun y => pair_lt y x) l /\ Forall (pair_lt x) k
    /\ (forall y z, y ∈ l -> z ∈ k -> pair_lt y z).
Proof.
  rewrite sorted_app. unfold sorted. rewrite !Forall_forall. split.
  - intros (Hl & Hk & Hlk). apply StronglySorted_inv in Hk as [Hk Hx]. rewrite Forall_forall in Hx.
    split_and!; try done; [intros y Hy; apply Hlk; [done|by apply elem_of_cons; left]|].
    intros y z Hy Hz. apply Hlk; [done|by apply elem_of_cons; right].
  - intros (Hl & Hk & Hx & Hy & Hlk). split_and!; [done|by constructor; [|apply Forall_forall]|].
    intros y z Hy' [->|Hz]%elem_of_cons; [by apply Hx|by apply Hlk].
Qed.

(** Sorted lists on both sides of a key. *)
Definition between (key : bytes) (l k : list (bytes * bytes)) : Prop :=
  Forall (fun x => key_lt x.1 key) l /\ Forall (fun x => key_lt key x.1) k.

Lemma sorted_insert l key v k : sorted (l ++ k) -> between key l k -> sorted (l ++ (key, v) :: k).
Proof. intros (? & ? & ?)%sorted_app [? ?]. by apply sorted_mid. Qed.

Lemma sorted_delete l x k : sorted (l ++ x :: k) -> sorted (l ++ k).
Proof. intros (? & ? & _ & _ & ?)%sorted_mid. by apply sorted_app. Qed.

Lemma sorted_between l key v k : sorted (l ++ (key, v) :: k) -> between key l k.
Proof. intros (_ & _ & Hl & Hk & _)%sorted_mid. split; done. Qed.

(** ** Contents *)

Definition contents (l : list (bytes * bytes)) : gmap bytes bytes := list_to_map l.

Lemma contents_mid l key v k :
  Forall (fun x => key_lt x.1 key) l -> contents (l ++ (key, v) :: k) = <[key := v]> (contents (l ++ k)).
Proof.
  unfold contents. induction 1 as [|[a b] l Hx _ IH]; [done|]. cbn [app fst] in *.
  rewrite !list_to_map_cons, IH. apply insert_insert_ne. intros ->. by apply (key_lt_ne key key).
Qed.

Lemma contents_absent l key k : between key l k -> contents (l ++ k) !! key = None.
Proof.
  intros [Hl Hk]. apply not_elem_of_list_to_map_1. rewrite fmap_app, elem_of_app.
  rewrite Forall_forall in Hl, Hk. intros [([a b] & Ha & Hin)%list_elem_of_fmap|([a b] & Ha & Hin)%list_elem_of_fmap];
    cbn [fst] in *; subst.
  - apply (key_lt_ne a a); [by apply (Hl (a, b))|done].
  - apply (key_lt_ne a a); [by apply (Hk (a, b))|done].
Qed.

Lemma contents_delete l key v k : between key l k -> contents (l ++ k) = delete key (contents (l ++ (key, v) :: k)).
Proof.
  intros Hb. rewrite (contents_mid l key v k) by apply Hb. symmetry. apply delete_insert_id. by apply contents_absent.
Qed.

Lemma sorted_size l : sorted l -> size (contents l) = length l.
Proof.
  intros Hs. induction Hs as [|[k v] l Hs IH Hx]; [apply map_size_empty|]. unfold contents in *. cbn [length].
  rewrite list_to_map_cons, map_size_insert_None; [by rewrite IH|].
  apply (contents_absent [] k l). split; [constructor|]. exact Hx.
Qed.

(** ** Trees of the store *)

Inductive tree : Type :=
| Empty
| Tree (l : loc) (k v : bytes) (p : Z) (a b : tree).

Definition root (t : tree) : pointer :=
  match t with
  | Empty => None
  | Tree l _ _ _ _ _ => Some l
  end.

Fixpoint locs (t : tree) : list loc :=
  match t with
  | Empty => []
  | Tree l _ _ _ a b => l :: locs a ++ locs b
  end.

Fixpoint pairs (t : tree) : list (bytes * bytes) :=
  match t with
  | Empty => []
  | Tree _ k v _ a b => pairs a ++ (k, v) :: pairs b
  end.

(** The cells of the tree hold its nodes. *)
Fixpoint rep (s : store) (t : tree) : Prop :=
  match t with
  | Empty => True
  | Tree l k v p a b => s !! l = Some (mkTreapNode k v p (root a) (root b)) /\ rep s a /\ rep s b
  end.

Lemma rep_dom s t l : rep s t -> l ∈ locs t -> l ∈ dom s.
Proof.
  induction t as [|l' k v p a IHa b IHb]; cbn [rep locs]; [intros _ H; by apply not_elem_of_nil in H|].
  intros (Hl & Ha & Hb) [->|[H|H]%elem_of_app]%elem_of_cons; [apply elem_of_dom; by rewrite Hl|auto|auto].
Qed.

Lemma rep_insert s t l n : rep s t -> l ∉ locs t -> rep (<[l := n]> s) t.
Proof.
  induction t as [|l' k v p a IHa b IHb]; cbn [rep locs]; [done|]. rewrite elem_of_cons, elem_of_app.
  intros (Hl & Ha & Hb) Hn. split_and!; [rewrite lookup_insert_ne; [done|]; intros ->; tauto|apply IHa; tauto|apply IHb; tauto].
Qed.

Lemma rep_mono s s' t : s ⊆ s' -> rep s t -> rep s' t.
Proof.
  intros Hs. induction t as [|l k v p a IHa b IHb]; cbn [rep]; [done|]. intros (Hl & Ha & Hb).
  split_and!; [by eapply lookup_weaken|auto|auto].
Qed.

Lemma rep_locs_size s t : rep s t -> NoDup (locs t) -> (length (locs t) <= size s)%nat.
Proof.
  intros Hr Hnd. rewrite <- size_dom, <- (size_list_to_set (C := gset loc)) by done.
  apply subseteq_size. intros l Hl%elem_of_list_to_set. by eapply rep_dom.
Qed.

(** In a tree of the store with different keys the cells are different. *)
Lemma rep_key s t l : rep s t -> l ∈ locs t -> exists n, s !! l = Some n /\ tn_key n ∈ map fst (pairs t).
Proof.
  induction t as [|l' k v p a IHa b IHb]; cbn [rep locs pairs]; [intros _ H; by apply not_elem_of_nil in H|].
  intros (Hl & Ha & Hb). rewrite map_app. cbn [map fst].
  intros [->|[H|H]%elem_of_app]%elem_of_cons.
  - eexists. split; [exact Hl|]. apply elem_of_app. right. by apply elem_of_cons; left.
  - destruct (IHa Ha H) as (n & ? & ?). exists n. split; [done|]. apply elem_of_app. by left.
  - destruct (IHb Hb H) as (n & ? & ?). exists n. split; [done|]. apply elem_of_app. right. by apply elem_of_cons; right.
Qed.

Lemma sorted_keys l : sorted l -> NoDup (map fst l).
Proof.
  induction 1 as [|x l _ IH Hx]; constructor; [|done]. rewrite Forall_forall in Hx.
  intros (y & Hy & Hin)%list_elem_of_fmap. apply Hx in Hin. unfold pair_lt in Hin. rewrite Hy in Hin. by apply (key_lt_ne y.1 y.1).
Qed.

Lemma rep_NoDup s t : rep s t -> NoDup (map fst (pairs t)) -> NoDup (locs t).
Proof.
  induction t as [|l k v p a IHa b IHb]; cbn [rep locs pairs]; [constructor|]. intros (Hl & Ha & Hb).
  rewrite map_app. cbn [map fst]. intros (Hna & Hab & [Hk Hnb]%NoDup_cons)%NoDup_app.
  assert (Hin : forall l', l' ∈ locs a -> l' ∉ l :: locs b).
  { intros l' Hla. destruct (rep_key _ _ _ Ha Hla) as (n & Hn & Hkey). apply Hab in Hkey.
    apply not_elem_of_cons in Hkey as [Hne Hnb']. rewrite not_elem_of_cons. split.
    - intros ->. rewrite Hl in Hn. by simplify_eq.
    - intros Hlb. destruct (rep_key _ _ _ Hb Hlb) as (n' & Hn' & Hk'). by simplify_eq. }
  constructor.
  - intros [Hla|Hlb]%elem_of_app; [apply (Hin l Hla); by apply elem_of_cons; left|].
    destruct (rep_key _ _ _ Hb Hlb) as (n' & Hn' & Hk'). by simplify_eq.
  - apply NoDup_app. split_and!; [auto| |auto]. intros l' Hla Hlb. apply (Hin l' Hla). by apply elem_of_cons; right.
Qed.

(** ** Zippers *)

(** A node on the way down: which child is taken, the node, and the other child. *)
Record frame : Type := mkFrame {
  f_left : bool;
  f_loc : loc;
  f_key : bytes;
  f_value : bytes;
  f_priority : Z;
  f_other : tree;
}.

Definition plug (t : tree) (f : frame) : tree :=
  if f_left f then Tree (f_loc f) (f_key f) (f_value f) (f_priority f) t (f_other f)
  else Tree (f_loc f) (f_key f) (f_value f) (f_priority f) (f_other f) t.

(** The frames are given from the innermost outwards. *)
Definition fill (fs : list frame) (t : tree) : tree := foldl plug t fs.

Definition frame_node (f : frame) (hole : pointer) : treapNode :=
  if f_left f then mkTreapNode (f_key f) (f_value f) (f_priority f) hole (root (f_other f))
  else mkTreapNode (f_key f) (f_value f) (f_priority f) (root (f_other f)) hole.

Fixpoint ctx (s : store) (fs : list frame) (hole : pointer) : Prop :=
  match fs with
  | [] => True
  | f :: fs => s !! f_loc f = Some (frame_node f hole) /\ rep s (f_other f) /\ ctx s fs (Some (f_loc f))
  end.

Definition frame_locs (f : frame) : list loc := f_loc f :: locs (f_other f).
Definition ctx_locs (fs : list frame) : list loc := concat (map frame_locs fs).

Definition before (f : frame) : list (bytes * bytes) :=
  if f_left f then [] else pairs (f_other f) ++ [(f_key f, f_value f)].
Definition after (f : frame) : list (bytes * bytes) :=
  if f_left f then (f_key f, f_value f) :: pairs (f_other f) else [].

Fixpoint befores (fs : list frame) : list (bytes * bytes) :=
  match fs with
  | [] => []
  | f :: fs => befores fs ++ before f
  end.
Fixpoint afters (fs : list frame) : list (bytes * bytes) :=
  match fs with
  | [] => []
  | f :: fs => after f ++ afters fs
  end.

Lemma pairs_fill fs t : pairs (fill fs t) = befores fs ++ pairs t ++ afters fs.
Proof.
  revert t. induction fs as [|f fs IH]; intros t; cbn [fill foldl befores afters]; [by rewrite app_nil_r|].
  change (foldl plug (plug t f) fs) with (fill fs (plug t f)). rewrite IH. unfold plug, before, after.
  destruct (f_left f); cbn [pairs]; rewrite ?app_nil_r, <- ?app_assoc; cbn [app]; by rewrite <- ?app_assoc.
Qed.

Lemma ctx_insert s fs h l n : ctx s fs h -> l ∉ ctx_locs fs -> ctx (<[l := n]> s) fs h.
Proof.
  revert h. induction fs as [|f fs IH]; intros h; cbn [ctx]; [done|]. unfold ctx_locs. cbn [map concat].
  unfold frame_locs at 1. rewrite elem_of_app, elem_of_cons.
  intros (Hl & Ho & Hc) Hn. split_and!; [rewrite lookup_insert_ne; [done|]; intros ->; tauto|apply rep_insert; tauto|].
  apply IH; [done|]. unfold ctx_locs. tauto.
Qed.

Lemma rep_plug s t f : s !! f_loc f = Some (frame_node f (root t)) -> rep s (f_other f) -> rep s t -> rep s (plug t f).
Proof. intros Hl Ho Ht. unfold plug, frame_node in *. by destruct (f_left f). Qed.

Lemma root_plug t f : root (plug t f) = Some (f_loc f).
Proof. unfold plug. by destruct (f_left f). Qed.

Lemma rep_fill s fs t : ctx s fs (root t) -> rep s t -> rep s (fill fs t).
Proof.
  revert t. induction fs as [|f fs IH]; intros t Hc Ht; [done|]. destruct Hc as (Hl & Ho & Hc). cbn [fill foldl].
  apply IH; [by rewrite root_plug|by apply rep_plug].
Qed.

Lemma root_fill fs t : root (fill fs t) = match last (map f_loc fs) with Some l => Some l | None => root t end.
Proof.
  revert t. induction fs as [|f fs IH]; intros t; [done|]. cbn [fill foldl map].
  change (foldl plug (plug t f) fs) with (fill fs (plug t f)). rewrite IH, last_cons, root_plug.
  by destruct (last (map f_loc fs)).
Qed.

Lemma locs_fill fs t : locs (fill fs t) ≡ₚ locs t ++ ctx_locs fs.
Proof.
  revert t. induction fs as [|f fs IH]; intros t; [by rewrite app_nil_r|]. cbn [fill foldl].
  change (foldl plug (plug t f) fs) with (fill fs (plug t f)). rewrite IH. unfold ctx_locs, frame_locs, plug.
  destruct (f_left f); cbn [locs map concat]; solve_Permutation.
Qed.

(** [s'] differs from [s] at most in the cells [W]. *)
Definition changes (W : list loc) (s s' : store) : Prop := forall l, l ∉ W -> s' !! l = s !! l.

Lemma changes_refl W s : changes W s s.
Proof. done. Qed.

Lemma changes_trans W V s s' s'' : changes W s s' -> changes V s' s'' -> changes (W ++ V) s s''.
Proof. intros H H' l Hl. rewrite elem_of_app in Hl. rewrite H', H by tauto. done. Qed.

Lemma changes_mono W V s s' : changes W s s' -> W ⊆ V -> changes V s s'.
Proof. intros H Hs l Hl. apply H. set_solver. Qed.

Lemma changes_insert l n s : changes [l] s (<[l := n]> s).
Proof. intros l' Hl. apply lookup_insert_ne. set_solver. Qed.

Lemma rep_changes W s s' t : changes W s s' -> (forall l, l ∈ locs t -> l ∉ W) -> rep s t -> rep s' t.
Proof.
  intros Hc. induction t as [|l k v p a IHa b IHb]; cbn [rep locs]; [done|]. intros Hw (Hl & Ha & Hb).
  split_and!; [rewrite Hc; [done|]; apply Hw; set_solver|apply IHa; [set_solver|done]|apply IHb; [set_solver|done]].
Qed.

Lemma ctx_changes W s s' fs h : changes W s s' -> (forall l, l ∈ ctx_locs fs -> l ∉ W) -> ctx s fs h -> ctx s' fs h.
Proof.
  intros Hc. revert h. induction fs as [|f fs IH]; intros h; [done|]. unfold ctx_locs. cbn [ctx map concat]. unfold frame_locs at 1.
  intros Hw (Hl & Ho & Hr). split_and!.
  - rewrite Hc; [done|]. apply Hw. by apply elem_of_cons; left.
  - apply (rep_changes W s); [done| |done]. intros l Hin. apply Hw. apply elem_of_cons. right. apply elem_of_app. by left.
  - apply IH; [|done]. intros l Hin. apply Hw. apply elem_of_cons. right. apply elem_of_app. by right.
Qed.

Lemma changes_keep W s0 s s' : s0 ⊆ s -> changes W s s' -> (forall l, l ∈ W -> l ∉ dom s0) -> s0 ⊆ s'.
Proof.
  intros Hs Hc Hw. apply map_subseteq_spec. intros l n Hl. rewrite Hc; [by eapply lookup_weaken|].
  intros Hin. apply (Hw l Hin). by apply elem_of_dom_2 in Hl.
Qed.

(** ** Links *)

(** The innermost node of the way down points to [new]. *)
Definition relinked (s : store) (fs : list frame) (new : pointer) : store :=
  match fs with
  | [] => s
  | f :: _ => <[f_loc f := frame_node f new]> s
  end.

Definition top (fs : list frame) : pointer := head (map f_loc fs).

Lemma relinked_changes s fs new : changes (map f_loc fs) s (relinked s fs new).
Proof.
  destruct fs as [|f fs]; [apply changes_refl|]. apply (changes_mono [f_loc f]); [apply changes_insert|]. intros l [->|[]%not_elem_of_nil]%elem_of_cons. by apply elem_of_cons; left.
Qed.

Lemma ctx_relinked s fs old new : ctx s fs old -> NoDup (ctx_locs fs) -> ctx (relinked s fs new) fs new.
Proof.
  destruct fs as [|f fs]; [done|]. unfold ctx_locs. cbn [ctx relinked map concat]. unfold frame_locs at 1.
  cbn [app]. intros (Hl & Ho & Hc) [Hn (Hno & Hoc & Hnc)%NoDup_app]%NoDup_cons. apply not_elem_of_app in Hn as [? ?]. split_and!.
  - apply lookup_insert_eq.
  - by apply rep_insert.
  - by apply ctx_insert.
Qed.

Lemma relink_ok s fs old new : ctx s fs (Some old) -> NoDup (old :: ctx_locs fs) ->
  relink s (top fs) (Some old) new = Ok (relinked s fs new).
Proof.
  destruct fs as [|f fs]; [done|]. unfold top, ctx_locs. cbn [ctx map head concat relink relinked]. unfold frame_locs at 1.
  intros (Hl & Ho & Hc) [Hn _]%NoDup_cons. unfold update. cbn [unwrap rbind]. rewrite Hl. cbn [unwrap rbind].
  do 2 f_equal. unfold frame_node. destruct (f_left f); cbn [tn_left].
  - by rewrite bool_decide_eq_true_2.
  - rewrite bool_decide_eq_false_2; [done|]. intros Hr. apply Hn. cbn [app]. apply elem_of_cons. right.
    apply elem_of_app. left. destruct (f_other f); cbn [root] in Hr; [done|]. simplify_eq. cbn [locs]. by apply elem_of_cons; left.
Qed.

Lemma relinkGrandparent_ok s fs old new rt : ctx s fs (Some old) -> NoDup (old :: ctx_locs fs) ->
  relinkGrandparent s new (Some old) (top fs) rt
  = Ok (relinked s fs new, match fs with [] => new | _ => rt end).
Proof.
  intros Hc Hn. unfold relinkGrandparent. destruct fs as [|f fs]; [done|].
  cbn [top map head]. change (Some (f_loc f)) with (top (f :: fs)). by rewrite (relink_ok _ _ _ _ Hc Hn).
Qed.

(** ** Rotations *)

(** The child [c] of the node of [f] takes its place. *)
Definition rotated (f : frame) (c : loc) (k v : bytes) (p : Z) (a b : tree) : tree :=
  if f_left f then Tree c k v p a (plug b f) else Tree c k v p (plug a f) b.

Lemma pairs_rotated f c k v p a b : pairs (rotated f c k v p a b) = pairs (plug (Tree c k v p a b) f).
Proof. unfold rotated, plug. destruct (f_left f); cbn [pairs]; by rewrite <- app_assoc. Qed.

Lemma locs_rotated f c k v p a b : locs (rotated f c k v p a b) ≡ₚ locs (plug (Tree c k v p a b) f).
Proof. unfold rotated, plug. destruct (f_left f); cbn [locs]; solve_Permutation. Qed.

Lemma update_ok s l n g : s !! l = Some n -> update s (Some l) g = Ok (<[l := g n]> s).
Proof. intros Hl. unfold update. cbn [unwrap rbind]. by rewrite Hl. Qed.

Lemma load_ok s l n : s !! l = Some n -> load s (Some l) = Ok n.
Proof. intros Hl. unfold load. cbn [unwrap rbind]. by rewrite Hl. Qed.

Lemma ctx_locs_spine fs l : l ∈ map f_loc fs -> l ∈ ctx_locs fs.
Proof.
  intros (f & -> & Hf)%list_elem_of_fmap. apply list_elem_of_In, in_concat. exists (frame_locs f).
  split; [by apply in_map, list_elem_of_In|]. by left.
Qed.

(** The node of the rotated child and the hole left under the node of [f]. *)
Definition risen (f : frame) (k v : bytes) (p : Z) (a b : tree) : treapNode :=
  if f_left f then mkTreapNode k v p (root a) (Some (f_loc f)) else mkTreapNode k v p (Some (f_loc f)) (root b).
Definition handed (f : frame) (a b : tree) : tree := if f_left f then b else a.

Lemma rep_rotated s f c k v p a b :
  s !! c = Some (risen f k v p a b) -> s !! f_loc f = Some (frame_node f (root (handed f a b))) ->
  rep s a -> rep s b -> rep s (f_other f) -> rep s (rotated f c k v p a b).
Proof.
  unfold risen, handed, frame_node, rotated, plug. intros Hc Hd Ha Hb Ho. by destruct (f_left f).
Qed.

Lemma rotate_child_writes s f c k v p a b fs h rt :
  s !! f_loc f = Some (frame_node f h) -> s !! c = Some (mkTreapNode k v p (root a) (root b)) -> f_loc f <> c ->
  rotate_child s (Some (f_loc f)) (Some c) (top fs) rt (f_left f)
  = relinkGrandparent (<[f_loc f := frame_node f (root (handed f a b))]> (<[c := risen f k v p a b]> s))
      (Some c) (Some (f_loc f)) (top fs) rt.
Proof.
  intros Hd Hc Hne. unfold rotate_child. rewrite (load_ok _ _ _ Hc). cbn [rbind tn_left tn_right].
  destruct (f_left f) eqn:Hl; rewrite (update_ok _ _ _ _ Hc); cbn [rbind];
    erewrite update_ok by (rewrite lookup_insert_ne by done; exact Hd); cbn [rbind];
    unfold risen, handed, frame_node, set_left, set_right; by rewrite Hl.
Qed.

Lemma rotate_child_ok s f c k v p a b fs h rt :
  s !! f_loc f = Some (frame_node f h) -> s !! c = Some (mkTreapNode k v p (root a) (root b)) ->
  rep s a -> rep s b -> rep s (f_other f) -> ctx s fs (Some (f_loc f)) ->
  NoDup (c :: f_loc f :: locs a ++ locs b ++ locs (f_other f) ++ ctx_locs fs) ->
  exists s', rotate_child s (Some (f_loc f)) (Some c) (top fs) rt (f_left f)
             = Ok (s', match fs with [] => Some c | _ => rt end)
    /\ rep s' (rotated f c k v p a b) /\ ctx s' fs (Some c) /\ changes (c :: f_loc f :: map f_loc fs) s s'.
Proof.
  intros Hd Hc Ha Hb Ho Hfs Hn. apply NoDup_cons in Hn as [Hnc [Hnd Hn]%NoDup_cons].
  rewrite not_elem_of_cons, !not_elem_of_app in Hnc. rewrite !not_elem_of_app in Hnd. rewrite !NoDup_app in Hn.
  destruct Hn as (_ & Ha' & _ & Hb' & _ & Ho' & Hnfs). setoid_rewrite elem_of_app in Ha'. setoid_rewrite elem_of_app in Ha'.
  setoid_rewrite elem_of_app in Hb'.
  assert (Hne : f_loc f <> c) by (intros E; by apply (proj1 Hnc)).
  set (s2 := <[f_loc f := frame_node f (root (handed f a b))]> (<[c := risen f k v p a b]> s)).
  assert (Hs2 : changes [c; f_loc f] s s2).
  { apply (changes_trans [c] [f_loc f] _ (<[c := risen f k v p a b]> s)); apply changes_insert. }
  assert (Hfs2 : ctx s2 fs (Some (f_loc f))).
  { apply (ctx_changes _ _ _ _ _ Hs2); [|done]. intros l Hl [->|[->|[]%not_elem_of_nil]%elem_of_cons]%elem_of_cons; tauto. }
  assert (Hnd' : NoDup (f_loc f :: ctx_locs fs)) by (constructor; [tauto|done]).
  assert (Hch : changes (c :: f_loc f :: map f_loc fs) s (relinked s2 fs (Some c))).
  { apply (changes_trans _ _ _ _ _ Hs2). apply relinked_changes. }
  exists (relinked s2 fs (Some c)). split_and!; [| |by eapply ctx_relinked|done].
  - rewrite (rotate_child_writes s f c k v p a b fs h rt) by done. by apply relinkGrandparent_ok.
  - assert (Hkeep : forall t, rep s t -> (forall l, l ∈ locs t -> l <> c /\ l <> f_loc f /\ l ∉ ctx_locs fs) -> rep (relinked s2 fs (Some c)) t).
    { intros t Ht Hl. apply (rep_changes _ _ _ _ Hch); [|done]. intros l (H1 & H2 & H3)%Hl.
      rewrite !not_elem_of_cons. split_and!; [done|done|]. by intros ?%ctx_locs_spine. }
    apply rep_rotated.
    + rewrite (relinked_changes s2); [|intros ?%ctx_locs_spine; tauto]. unfold s2. rewrite lookup_insert_ne by tauto. apply lookup_insert_eq.
    + rewrite (relinked_changes s2); [|intros ?%ctx_locs_spine; tauto]. apply lookup_insert_eq.
    + apply Hkeep; [done|]. intros l Hl. pose proof (Ha' l Hl). split_and!; [intros ->|intros ->|]; tauto.
    + apply Hkeep; [done|]. intros l Hl. pose proof (Hb' l Hl). split_and!; [intros ->|intros ->|]; tauto.
    + apply Hkeep; [done|]. intros l Hl. pose proof (Ho' l Hl). split_and!; [intros ->|intros ->|]; tauto.
Qed.

Lemma rotated_tree f c k v p a b : exists a' b', rotated f c k v p a b = Tree c k v p a' b'.
Proof. unfold rotated. destruct (f_left f); by eauto. Qed.

Lemma root_not_in t l : l ∉ locs t -> root t <> Some l.
Proof. destruct t; cbn [root locs]; [done|]. rewrite not_elem_of_cons. intros [? _] ?. by simplify_eq. Qed.

Lemma which_child f c : c ∉ locs (f_other f) -> bool_decide (tn_left (frame_node f (Some c)) = Some c) = f_left f.
Proof.
  intros Hc. unfold frame_node. destruct (f_left f); cbn [tn_left]; [by apply bool_decide_eq_true_2|].
  apply bool_decide_eq_false_2. by apply root_not_in.
Qed.

Lemma fill_cons f fs t : fill (f :: fs) t = fill fs (plug t f).
Proof. done. Qed.

Lemma stack_Len s l : stack_of s l -> parentStack_Len s = len l.
Proof. apply so_index. Qed.

Lemma At_top s fs : stack_of s (map f_loc fs) -> parentStack_At s 0 = Ok (top fs).
Proof. intros Hs. rewrite (At_stack _ _ _ Hs) by lia. by destruct fs. Qed.

Lemma rotation_separate f fs c k v p a b :
  NoDup (locs (fill (f :: fs) (Tree c k v p a b))) ->
  NoDup (c :: f_loc f :: locs a ++ locs b ++ locs (f_other f) ++ ctx_locs fs).
Proof.
  rewrite locs_fill. unfold ctx_locs. cbn [map concat locs]. unfold frame_locs at 1. intros Hn.
  eapply NoDup_Permutation_proper; [|exact Hn]. solve_Permutation.
Qed.

Lemma root_above f fs t u rt : root u = rt ->
  match fs with [] => rt | _ => root (fill (f :: fs) t) end = root (fill fs u).
Proof.
  intros Hu. destruct fs as [|g fs]; [done|]. rewrite !root_fill. cbn [map].
  rewrite last_cons. by destruct (last (f_loc g :: map f_loc fs)) eqn:E; [|apply last_None in E].
Qed.

Lemma rotate_up_ok fs s c k v p a b parents : ctx s fs (Some c) -> rep s (Tree c k v p a b) ->
  NoDup (locs (fill fs (Tree c k v p a b))) -> stack_of parents (map f_loc fs) ->
  exists s' t, rotate_up (length fs) s c parents (root (fill fs (Tree c k v p a b))) = Ok (s', root t)
    /\ rep s' t /\ pairs t = pairs (fill fs (Tree c k v p a b)) /\ changes (c :: map f_loc fs) s s'.
Proof.
  revert s a b parents. induction fs as [|f fs IH]; intros s a b parents Hfs Hr Hn Hp.
  - exists s, (Tree c k v p a b). cbn [length rotate_up]. rewrite (stack_Len _ _ Hp). done.
  - cbn [length rotate_up]. rewrite (stack_Len _ _ Hp). cbn [map]. rewrite len_cons.
    destruct (Z.ltb_spec 0 (1 + len (map f_loc fs))) as [_|H]; [cbn [negb]|pose proof (len_nonneg (map f_loc fs)); lia].
    destruct (Pop_stack _ _ _ Hp) as (parents' & -> & Hp'). cbn [rbind].
    pose proof (rotation_separate _ _ _ _ _ _ _ _ Hn) as Hn'. destruct Hfs as (Hf & Ho & Hfs), Hr as (Hc & Ha & Hb).
    rewrite (load_ok _ _ _ Hc), (load_ok _ _ _ Hf). cbn [rbind]. destruct (_ <=? _).
    { exists s. eexists. split; [done|]. split_and!; [by apply rep_fill|done|apply changes_refl]. }
    rewrite (At_top _ _ Hp'), which_child by (apply NoDup_cons in Hn' as [Hc' _]; set_solver). cbn [rbind].
    destruct (rotate_child_ok s f c k v p a b fs _ (root (fill (f :: fs) (Tree c k v p a b))) Hf Hc Ha Hb Ho Hfs Hn')
      as (s1 & -> & Hr1 & Hfs1 & Hch). cbn [rbind].
    rewrite (root_above f fs _ (rotated f c k v p a b) (Some c)) by (by destruct (rotated_tree f c k v p a b) as (? & ? & ->)).
    destruct (rotated_tree f c k v p a b) as (a' & b' & Hrot). rewrite Hrot in *.
    destruct (IH s1 a' b' parents' Hfs1 Hr1) as (s2 & t & Hup & Hr2 & Hpairs & Hch2); [|done|].
    { rewrite locs_fill, <- Hrot, locs_rotated, <- locs_fill. exact Hn. }
    exists s2, t. split_and!; [done|done| |].
    + rewrite Hpairs, <- Hrot, pairs_fill, pairs_rotated, <- pairs_fill. done.
    + eapply changes_mono; [exact (changes_trans _ _ _ _ _ Hch Hch2)|].
      intros l. cbn [map]. rewrite !elem_of_app, !elem_of_cons. tauto.
Qed.

(** ** Searches *)

Fixpoint search (key : bytes) (fs : list frame) (t : tree) : list frame * tree :=
  match t with
  | Empty => (fs, Empty)
  | Tree l k v p a b =>
      if Compare key k <? 0 then search key (mkFrame true l k v p b :: fs) a
      else if 0 <? Compare key k then search key (mkFrame false l k v p a :: fs) b
      else (fs, t)
  end.

(** The nodes on the stack when the search has ended. *)
Definition path (fs : list frame) (t : tree) : list loc :=
  match t with
  | Empty => map f_loc fs
  | Tree l _ _ _ _ _ => l :: map f_loc fs
  end.

(** The last comparison tells on which side the search went on. *)
Definition went (compareResult : Z) (fs : list frame) : Prop :=
  match fs with
  | [] => True
  | f :: _ => (compareResult <? 0) = f_left f
  end.

(** Where a key is, or would be, in a tree with the pairs [all]; the cells of [s0]
    are not on the way. *)
Record located (s0 s : store) (key : bytes) (all : list (bytes * bytes)) (fs : list frame) (t : tree) : Prop := {
  lo_keeps : s0 ⊆ s;
  lo_rep : rep s t;
  lo_ctx : ctx s fs (root t);
  lo_pairs : pairs (fill fs t) = all;
  lo_sorted : sorted all;
  lo_between : between key (befores fs) (afters fs);
  lo_fresh : forall l, l ∈ map f_loc fs -> l ∉ dom s0;
}.

(** The search has ended. *)
Definition arrived (s0 : store) (key : bytes) (t : tree) : Prop :=
  match t with
  | Empty => True
  | Tree l k _ _ _ _ => k = key /\ l ∉ dom s0
  end.

Lemma located_NoDup s0 s key all fs t : located s0 s key all fs t -> NoDup (locs (fill fs t)).
Proof.
  intros [_ Hr Hc Hp Hs _ _]. apply (rep_NoDup s); [by apply rep_fill|]. rewrite Hp. by apply sorted_keys.
Qed.

Lemma located_step s0 s s' key all fs g t :
  located s0 s key all fs (plug t g) -> (if f_left g then key_lt key (f_key g) else key_lt (f_key g) key) ->
  s0 ⊆ s' -> rep s' t -> forall g', f_left g' = f_left g -> f_key g' = f_key g -> f_value g' = f_value g -> f_other g' = f_other g ->
  ctx s' (g' :: fs) (root t) -> f_loc g' ∉ dom s0 -> located s0 s' key all (g' :: fs) t.
Proof.
  intros [Hk Hr Hc Hp Hs Hb Hf] Hkey Hk' Hr' g' El Ek Ev Eo Hc' Hf'. rewrite pairs_fill in Hp.
  assert (Eb : before g' = before g) by (unfold before; by rewrite El, Ek, Ev, Eo).
  assert (Ea : after g' = after g) by (unfold after; by rewrite El, Ek, Ev, Eo).
  assert (Hp' : pairs (fill (g' :: fs) t) = all).
  { rewrite <- Hp, pairs_fill. cbn [befores afters]. rewrite Eb, Ea. unfold plug, before, after.
    destruct (f_left g); cbn [pairs]; rewrite ?app_nil_r, <- ?app_assoc; cbn [app]; by rewrite <- ?app_assoc. }
  split; try done.
  - cbn [befores afters]. rewrite Eb, Ea. destruct Hb as [Hb Ha]. rewrite <- Hp in Hs. unfold plug in Hs. unfold before, after, between.
    destruct (f_left g); cbn [pairs] in Hs; rewrite ?app_nil_r; split; try done; apply Forall_app; split; try done.
    + rewrite <- app_assoc in Hs. apply sorted_app in Hs as (_ & (_ & Hs & _)%sorted_app & _). cbn [app] in Hs.
      apply StronglySorted_inv in Hs as [_ [Hs _]%Forall_app]. constructor; [done|]. eapply Forall_impl; [exact Hs|].
      intros x Hx. exact (key_lt_trans _ _ _ Hkey Hx).
    + apply Forall_app. split; [|by constructor]. rewrite <- app_assoc in Hs. apply sorted_app in Hs as (_ & Hs & _).
      cbn [app] in Hs. apply sorted_mid in Hs as (_ & _ & Hs & _). eapply Forall_impl; [exact Hs|]. intros x Hx. exact (key_lt_trans _ _ _ Hx Hkey).
  - intros l [->|Hl]%elem_of_cons; [done|by apply Hf].
Qed.

(** One step down, in place. *)
Lemma located_down s key all fs g t :
  located ∅ s key all fs (plug t g) -> (if f_left g then key_lt key (f_key g) else key_lt (f_key g) key) ->
  located ∅ s key all (g :: fs) t.
Proof.
  intros H Hkey. pose proof (lo_rep _ _ _ _ _ _ H) as Hr. pose proof (lo_ctx _ _ _ _ _ _ H) as Hc. rewrite root_plug in Hc.
  assert (Hg : s !! f_loc g = Some (frame_node g (root t)) /\ rep s (f_other g) /\ rep s t).
  { unfold plug, frame_node in *. destruct (f_left g); cbn [rep] in Hr; tauto. }
  apply (located_step ∅ s s key all fs g t H Hkey); try done; [apply H|tauto|cbn [ctx]; tauto].
Qed.

Lemma search_located s key all t fs :
  located ∅ s key all fs t ->
  located ∅ s key all (search key fs t).1 (search key fs t).2 /\ arrived ∅ key (search key fs t).2.
Proof.
  revert fs. induction t as [|l k v p a IHa b IHb]; intros fs H; cbn [search]; [done|].
  destruct (Z.ltb_spec (Compare key k) 0) as [E1|E1]; [|destruct (Z.ltb_spec 0 (Compare key k)) as [E2|E2]].
  - apply IHa. by apply (located_down s key all fs (mkFrame true l k v p b)).
  - apply IHb. apply (located_down s key all fs (mkFrame false l k v p a)); [done|]. cbn. unfold key_lt. rewrite Compare_anti. lia.
  - split; [done|]. split; [symmetry; apply Compare_eq; lia|]. rewrite dom_empty. apply not_elem_of_empty.
Qed.

Lemma search_fill key fs t : fill (search key fs t).1 (search key fs t).2 = fill fs t.
Proof.
  revert fs. induction t as [|l k v p a IHa b IHb]; intros fs; cbn [search]; [done|].
  destruct (_ <? 0); [by rewrite IHa|]. destruct (0 <? _); [by rewrite IHb|done].
Qed.

Lemma get_loop_ok key s t fs fuel : rep s t -> (length (locs t) <= fuel)%nat ->
  get_loop fuel s (root t) key = Ok (root (search key fs t).2).
Proof.
  revert fs fuel. induction t as [|l k v p a IHa b IHb]; intros fs fuel Hr Hf; [by destruct fuel|].
  cbn [locs length] in Hf. rewrite length_app in Hf. destruct fuel as [|fuel]; [lia|]. destruct Hr as (Hl & Ha & Hb).
  cbn [root get_loop search]. rewrite (load_ok _ _ _ Hl). cbn [rbind tn_key tn_left tn_right].
  destruct (_ <? 0); [apply IHa; [done|lia]|]. destruct (0 <? _); [apply IHb; [done|lia]|done].
Qed.

Lemma find_parent_ok key s t fs fuel : rep s t -> (length (locs t) <= fuel)%nat ->
  find_parent fuel s (root t) (top fs) key
  = Ok (match (search key fs t).2 with
        | Empty => (None, None)
        | t' => (root t', top (search key fs t).1)
        end).
Proof.
  revert fs fuel. induction t as [|l k v p a IHa b IHb]; intros fs fuel Hr Hf; [by destruct fuel|].
  cbn [locs length] in Hf. rewrite length_app in Hf. destruct fuel as [|fuel]; [lia|]. destruct Hr as (Hl & Ha & Hb).
  cbn [root find_parent search]. rewrite (load_ok _ _ _ Hl). cbn [rbind tn_key tn_left tn_right].
  destruct (_ <? 0); [apply (IHa (mkFrame true l k v p b :: fs)); [done|lia]|].
  destruct (0 <? _); [apply (IHb (mkFrame false l k v p a :: fs)); [done|lia]|done].
Qed.

Lemma push_search_ok key s t fs fuel parents compareResult :
  rep s t -> (length (locs t) <= fuel)%nat -> stack_of parents (map f_loc fs) -> went compareResult fs ->
  exists parents' c, push_search fuel s (root t) key parents compareResult = Ok (parents', c, root (search key fs t).2)
    /\ stack_of parents' (path (search key fs t).1 (search key fs t).2)
    /\ ((search key fs t).2 = Empty -> went c (search key fs t).1).
Proof.
  revert fs fuel parents compareResult. induction t as [|l k v p a IHa b IHb]; intros fs fuel parents c Hr Hf Hp Hw.
  { exists parents, c. by destruct fuel. }
  cbn [locs length] in Hf. rewrite length_app in Hf. destruct fuel as [|fuel]; [lia|]. destruct Hr as (Hl & Ha & Hb).
  cbn [root push_search search]. destruct (Push_stack _ _ l Hp) as (parents' & -> & Hp'). cbn [rbind].
  rewrite (load_ok _ _ _ Hl). cbn [rbind tn_key tn_left tn_right].
  destruct (Compare key k <? 0) eqn:E1; [apply IHa; try done; lia|].
  destruct (0 <? Compare key k) eqn:E2; [apply IHb; try done; lia|]. by eexists _, _.
Qed.

Lemma find_path_ok key s t fs fuel parents :
  rep s t -> (length (locs t) <= fuel)%nat -> stack_of parents (map f_loc fs) ->
  exists parents', find_path fuel s (root t) key parents = Ok (parents', root (search key fs t).2)
    /\ stack_of parents' (path (search key fs t).1 (search key fs t).2).
Proof.
  revert fs fuel parents. induction t as [|l k v p a IHa b IHb]; intros fs fuel parents Hr Hf Hp.
  { exists parents. by destruct fuel. }
  cbn [locs length] in Hf. rewrite length_app in Hf. destruct fuel as [|fuel]; [lia|]. destruct Hr as (Hl & Ha & Hb).
  cbn [root find_path search]. destruct (Push_stack _ _ l Hp) as (parents' & -> & Hp'). cbn [rbind].
  rewrite (load_ok _ _ _ Hl). cbn [rbind tn_key tn_left tn_right].
  destruct (_ <? 0); [apply IHa; try done; lia|]. destruct (0 <? _); [apply IHb; try done; lia|]. by eexists.
Qed.

(** ** Copies *)

Lemma ctx_dom s fs h l : ctx s fs h -> l ∈ ctx_locs fs -> l ∈ dom s.
Proof.
  revert h. induction fs as [|f fs IH]; intros h; [intros _ Hl; by apply not_elem_of_nil in Hl|].
  unfold ctx_locs. cbn [ctx map concat]. intros (Hl & Ho & Hc) [[->|Hin]%elem_of_cons|Hin]%elem_of_app.
  - by apply elem_of_dom_2 in Hl.
  - by eapply rep_dom.
  - by eapply IH.
Qed.

Lemma alloc_fresh (s : store) : fresh (dom s) ∉ dom s.
Proof. apply is_fresh. Qed.

(** A new cell changes no tree. *)
Lemma insert_fresh_keeps (s : store) l (n : treapNode) : l ∉ dom s -> s ⊆ <[l := n]> s.
Proof. intros Hl. apply insert_subseteq. by apply not_elem_of_dom. Qed.

Lemma ctx_mono s s' fs h : s ⊆ s' -> ctx s fs h -> ctx s' fs h.
Proof.
  intros Hs. revert h. induction fs as [|f fs IH]; intros h; [done|]. cbn [ctx]. intros (Hl & Ho & Hc).
  split_and!; [by eapply lookup_weaken|by eapply rep_mono|auto].
Qed.

Definition moved (l : loc) (f : frame) : frame :=
  mkFrame (f_left f) l (f_key f) (f_value f) (f_priority f) (f_other f).

Lemma rep_unplug s t g : rep s (plug t g) -> s !! f_loc g = Some (frame_node g (root t)) /\ rep s (f_other g) /\ rep s t.
Proof. unfold plug, frame_node. destruct (f_left g); cbn [rep]; tauto. Qed.

(** The innermost node not yet copied gets a copy, linked from the copies above. *)
Lemma copy_step s fs g t l (s1 := <[l := frame_node g (root t)]> s) :
  ctx s fs (Some (f_loc g)) -> rep s (plug t g) -> NoDup (locs (fill fs (plug t g))) -> l ∉ dom s ->
  relink s1 (top fs) (Some (f_loc g)) (Some l) = Ok (relinked s1 fs (Some l))
  /\ ctx (relinked s1 fs (Some l)) (moved l g :: fs) (root t) /\ rep (relinked s1 fs (Some l)) t
  /\ changes (l :: map f_loc fs) s (relinked s1 fs (Some l)).
Proof.
  intros Hc Hr Hn Hl. apply rep_unplug in Hr as (Hg & Ho & Ht). pose proof (insert_fresh_keeps s l (frame_node g (root t)) Hl) as Hs.
  assert (Hn' : NoDup (f_loc g :: locs t ++ locs (f_other g) ++ ctx_locs fs)).
  { eapply NoDup_Permutation_proper; [|exact Hn]. rewrite locs_fill. unfold plug. destruct (f_left g); cbn [locs]; solve_Permutation. }
  apply NoDup_cons in Hn' as [Hgn Hn']. rewrite !not_elem_of_app in Hgn. rewrite !NoDup_app in Hn'.
  destruct Hn' as (_ & Ht' & _ & Ho' & Hnc). setoid_rewrite elem_of_app in Ht'.
  assert (Hrel : forall u, rep s u -> (forall x, x ∈ locs u -> x ∉ ctx_locs fs) -> rep (relinked s1 fs (Some l)) u).
  { intros u Hu Hd. apply (rep_changes (map f_loc fs) s1); [apply relinked_changes| |by eapply rep_mono].
    intros x Hx Hin. apply (Hd x Hx). by apply ctx_locs_spine. }
  assert (Hc1 : ctx s1 fs (Some (f_loc g))) by (by eapply ctx_mono).
  split_and!.
  - apply relink_ok; [done|]. constructor; [tauto|done].
  - cbn [ctx moved f_loc f_other]. split_and!.
    + rewrite (relinked_changes s1); [apply lookup_insert_eq|]. intros Hin%ctx_locs_spine. apply Hl. by eapply ctx_dom.
    + apply Hrel; [done|]. apply Ho'.
    + by eapply ctx_relinked.
  - apply Hrel; [done|]. intros x Hx ?. apply (Ht' x Hx). tauto.
  - apply (changes_trans [l] (map f_loc fs) _ s1); [apply changes_insert|apply relinked_changes].
Qed.

Lemma copy_step_keeps s0 s s' l fs : s0 ⊆ s -> l ∉ dom s -> (forall x, x ∈ map f_loc fs -> x ∉ dom s0) ->
  changes (l :: map f_loc fs) s s' -> s0 ⊆ s' /\ l ∉ dom s0.
Proof.
  intros Hs Hl Hf Hc. assert (Hl0 : l ∉ dom s0) by (intros H; apply Hl; by apply (subseteq_dom s0)). split; [|done].
  apply (changes_keep _ _ _ _ Hs Hc). intros x [->|Hx]%elem_of_cons; auto.
Qed.

Lemma copied_down s0 s key all fs g t (l := fresh (dom s)) (s1 := <[l := frame_node g (root t)]> s) :
  located s0 s key all fs (plug t g) -> (if f_left g then key_lt key (f_key g) else key_lt (f_key g) key) ->
  relink s1 (top fs) (Some (f_loc g)) (Some l) = Ok (relinked s1 fs (Some l))
  /\ located s0 (relinked s1 fs (Some l)) key all (moved l g :: fs) t.
Proof.
  intros H Hkey. pose proof (lo_ctx _ _ _ _ _ _ H) as Hc. rewrite root_plug in Hc.
  destruct (copy_step s fs g t l Hc (lo_rep _ _ _ _ _ _ H) (located_NoDup _ _ _ _ _ _ H) (alloc_fresh s)) as (Hrel & Hctx & Hrep & Hch).
  destruct (copy_step_keeps s0 s _ l fs (lo_keeps _ _ _ _ _ _ H) (alloc_fresh s) (lo_fresh _ _ _ _ _ _ H) Hch) as [Hk Hl].
  split; [done|]. by apply (located_step s0 s _ key all fs g t H Hkey).
Qed.

(** The copy of the node that has been found. *)
Lemma copied_found s0 s key all fs o k v p a b (l := fresh (dom s))
    (s1 := <[l := mkTreapNode k v p (root a) (root b)]> s) :
  located s0 s key all fs (Tree o k v p a b) ->
  relink s1 (top fs) (Some o) (Some l) = Ok (relinked s1 fs (Some l))
  /\ located s0 (relinked s1 fs (Some l)) key all fs (Tree l k v p a b) /\ l ∉ dom s0.
Proof.
  intros H. pose proof (lo_ctx _ _ _ _ _ _ H) as Hc. cbn [root] in Hc. set (g := mkFrame true o k v p b).
  destruct (copy_step s fs g a l Hc (lo_rep _ _ _ _ _ _ H) (located_NoDup _ _ _ _ _ _ H) (alloc_fresh s)) as (Hrel & Hctx & Hrep & Hch).
  destruct (copy_step_keeps s0 s _ l fs (lo_keeps _ _ _ _ _ _ H) (alloc_fresh s) (lo_fresh _ _ _ _ _ _ H) Hch) as [Hk Hl].
  split; [done|]. split; [|done]. destruct H as [_ _ _ Hp Hs Hb Hf]. cbn [ctx moved f_loc f_other] in Hctx.
  split; try done; [cbn [rep]; tauto|cbn [root]; tauto|]. by rewrite pairs_fill in Hp |- *.
Qed.

Lemma copy_search_ok s0 key all t s fs fuel parents compareResult :
  located s0 s key all fs t -> (length (locs t) <= fuel)%nat -> stack_of parents (map f_loc fs) -> went compareResult fs ->
  exists s' fs' t' parents' c, copy_search fuel s (root t) key parents compareResult = Ok (s', parents', c, root t')
    /\ located s0 s' key all fs' t' /\ arrived s0 key t' /\ stack_of parents' (path fs' t') /\ (t' = Empty -> went c fs').
Proof.
  revert s fs fuel parents compareResult. induction t as [|l k v p a IHa b IHb]; intros s fs fuel parents c H Hf Hp Hw.
  { exists s, fs, Empty, parents, c. by destruct fuel. }
  cbn [locs length] in Hf. rewrite length_app in Hf. destruct fuel as [|fuel]; [lia|]. cbn [root copy_search].
  destruct (lo_rep _ _ _ _ _ _ H) as (Hl & Ha & Hb). rewrite (load_ok _ _ _ Hl). cbn [rbind alloc tn_key tn_left tn_right].
  rewrite (At_top _ _ Hp). cbn [rbind]. destruct (Push_stack _ _ (fresh (dom s)) Hp) as (parents' & Hpush & Hp').
  destruct (Compare key k <? 0) eqn:E1; [|destruct (0 <? Compare key k) eqn:E2].
  - destruct (copied_down s0 s key all fs (mkFrame true l k v p b) a H) as [Hrel Hloc]; [cbn; unfold key_lt; lia|].
    unfold frame_node in *. cbn [f_left f_loc f_key f_value f_priority f_other] in *. rewrite Hrel. cbn [rbind]. rewrite Hpush. cbn [rbind].
    apply (IHa _ _ _ _ _ Hloc); [lia|done|done].
  - destruct (copied_down s0 s key all fs (mkFrame false l k v p a) b H) as [Hrel Hloc]; [cbn; unfold key_lt; rewrite Compare_anti; lia|].
    unfold frame_node in *. cbn [f_left f_loc f_key f_value f_priority f_other] in *. rewrite Hrel. cbn [rbind]. rewrite Hpush. cbn [rbind].
    apply (IHb _ _ _ _ _ Hloc); [lia|done|done].
  - destruct (copied_found s0 s key all fs l k v p a b H) as (Hrel & Hloc & Hfr). rewrite Hrel. cbn [rbind]. rewrite Hpush. cbn [rbind].
    eexists _, fs, (Tree (fresh (dom s)) k v p a b), parents', _. split_and!; try done. cbn [arrived].
    split; [symmetry; apply Compare_eq; lia|done].
Qed.

(** ** Insertions *)

Lemma attach_ok s f fs compareResult l : ctx s (f :: fs) None -> went compareResult (f :: fs) ->
  attach s (top (f :: fs)) compareResult l = Ok (relinked s (f :: fs) (Some l)).
Proof.
  intros (Hf & _) Hw. unfold attach. change (top (f :: fs)) with (Some (f_loc f)). rewrite (update_ok _ _ _ _ Hf). cbn [went] in Hw.
  rewrite Hw. unfold relinked, frame_node. by destruct (f_left f).
Qed.

(** The new node is attached and rotated up. *)
Lemma insert_ok s0 s key all f fs parents compareResult value priority (l := fresh (dom s))
    (s1 := <[l := newTreapNode key value priority]> s) :
  located s0 s key all (f :: fs) Empty -> stack_of parents (map f_loc (f :: fs)) -> went compareResult (f :: fs) ->
  exists s2 s' t, attach s1 (top (f :: fs)) compareResult l = Ok s2
    /\ rotate_up (Z.to_nat (parentStack_Len parents)) s2 l parents (last (map f_loc (f :: fs))) = Ok (s', root t)
    /\ s0 ⊆ s' /\ rep s' t /\ pairs t = befores (f :: fs) ++ (key, value) :: afters (f :: fs).
Proof.
  intros H Hp Hw. pose proof (lo_ctx _ _ _ _ _ _ H) as Hc. cbn [root] in Hc. pose proof (alloc_fresh s) as Hl. fold l in Hl.
  assert (Hc1 : ctx s1 (f :: fs) None) by (eapply ctx_mono; [by apply insert_fresh_keeps|done]).
  assert (Hn : NoDup (ctx_locs (f :: fs))).
  { pose proof (located_NoDup _ _ _ _ _ _ H) as Hn. by rewrite locs_fill in Hn. }
  assert (Hlc : l ∉ ctx_locs (f :: fs)) by (intros Hin; apply Hl; by eapply ctx_dom).
  exists (relinked s1 (f :: fs) (Some l)). rewrite (attach_ok _ _ _ _ _ Hc1 Hw).
  destruct (rotate_up_ok (f :: fs) (relinked s1 (f :: fs) (Some l)) l key value priority Empty Empty parents) as (s' & t & Hup & Hr & Hpr & Hch).
  - by eapply ctx_relinked.
  - cbn [rep root]. split; [|done]. rewrite (relinked_changes s1); [apply lookup_insert_eq|]. by intros ?%ctx_locs_spine.
  - rewrite locs_fill. cbn [locs app]. by constructor.
  - done.
  - exists s', t. rewrite (stack_Len _ _ Hp). unfold len. rewrite Nat2Z.id, length_map.
    rewrite root_fill in Hup. destruct (last (map f_loc (f :: fs))) as [x|] eqn:Elast; [|by apply last_None in Elast].
    split_and!; [done|done| |done|by rewrite Hpr, pairs_fill].
    destruct (copy_step_keeps s0 s s' l (f :: fs)) as [? _]; try done; [apply H|apply H|].
    eapply changes_mono; [eapply changes_trans; [apply (changes_insert l)|eapply changes_trans; [apply relinked_changes|exact Hch]]|].
    intros x'. rewrite !elem_of_app, !elem_of_cons. pose proof (not_elem_of_nil x'). tauto.
Qed.

(** The value of the node that has the key is replaced. *)
Lemma replace_ok s0 s key all fs l v p a b value :
  located s0 s key all fs (Tree l key v p a b) -> l ∉ dom s0 ->
  exists s', update s (Some l) (fun n => set_value n value) = Ok s' /\ s0 ⊆ s' /\ rep s' (fill fs (Tree l key value p a b)).
Proof.
  intros H Hl. pose proof (located_NoDup _ _ _ _ _ _ H) as Hn. rewrite locs_fill in Hn. cbn [locs app] in Hn.
  apply NoDup_cons in Hn as [Hn _]. rewrite !not_elem_of_app in Hn. destruct (lo_rep _ _ _ _ _ _ H) as (Hc & Ha & Hb).
  eexists. split; [by apply update_ok|]. cbn. split.
  - apply (changes_keep [l] s0 s); [apply H|apply changes_insert|]. by intros x [->|[]%not_elem_of_nil]%elem_of_cons.
  - apply rep_fill; [apply ctx_insert; [apply H|tauto]|]. cbn [rep]. split_and!; [apply lookup_insert_eq|apply rep_insert; tauto..].
Qed.

(** ** Deletions *)

(** The node to delete is on its way down, at the cell [d]; what comes before and
    after it stays the same. *)
Record sinking (s0 s : store) (d : loc) (k v : bytes) (p : Z) (lo hi : list (bytes * bytes))
    (fs : list frame) (a b : tree) : Prop := {
  si_keeps : s0 ⊆ s;
  si_rep : rep s (Tree d k v p a b);
  si_ctx : ctx s fs (Some d);
  si_before : befores fs ++ pairs a = lo;
  si_after : pairs b ++ afters fs = hi;
  si_fresh : forall l, l ∈ d :: map f_loc fs -> l ∉ dom s0;
  si_NoDup : NoDup (locs (fill fs (Tree d k v p a b)));
}.

(** The child that goes up, with the subtree that is not handed over. *)
Definition raised (f : frame) (c : loc) (k v : bytes) (p : Z) (a b : tree) : frame :=
  mkFrame (negb (f_left f)) c k v p (if f_left f then a else b).

Lemma rotated_raised f c k v p a b : rotated f c k v p a b = plug (plug (handed f a b) f) (raised f c k v p a b).
Proof. unfold rotated, plug, handed, raised. by destruct (f_left f). Qed.

(** The subtrees of the node of a frame. *)
Definition lefts (f : frame) (t : tree) : tree := if f_left f then t else f_other f.
Definition rights (f : frame) (t : tree) : tree := if f_left f then f_other f else t.

Lemma plug_sides f t : plug t f = Tree (f_loc f) (f_key f) (f_value f) (f_priority f) (lefts f t) (rights f t).
Proof. unfold plug, lefts, rights. by destruct (f_left f). Qed.

(** One rotation, with the child at the cell [c] (its own or that of a copy). *)
Lemma sink_step s0 s f h c k v p a b fs lo hi :
  s0 ⊆ s -> s !! f_loc f = Some (frame_node f h) -> s !! c = Some (mkTreapNode k v p (root a) (root b)) ->
  rep s a -> rep s b -> rep s (f_other f) -> ctx s fs (Some (f_loc f)) ->
  NoDup (c :: f_loc f :: locs a ++ locs b ++ locs (f_other f) ++ ctx_locs fs) ->
  befores fs ++ pairs (lefts f (Tree c k v p a b)) = lo -> pairs (rights f (Tree c k v p a b)) ++ afters fs = hi ->
  (forall l, l ∈ c :: f_loc f :: map f_loc fs -> l ∉ dom s0) ->
  exists s', rotate_child s (Some (f_loc f)) (Some c) (top fs) (root (fill fs (plug Empty f))) (f_left f)
             = Ok (s', root (fill (raised f c k v p a b :: fs) (plug Empty f)))
    /\ sinking s0 s' (f_loc f) (f_key f) (f_value f) (f_priority f) lo hi (raised f c k v p a b :: fs)
         (lefts f (handed f a b)) (rights f (handed f a b)).
Proof.
  intros Hs Hd Hc Ha Hb Ho Hfs Hn Hbe Haf Hf.
  destruct (rotate_child_ok s f c k v p a b fs h (root (fill fs (plug Empty f))) Hd Hc Ha Hb Ho Hfs Hn) as (s' & -> & Hr & Hc' & Hch).
  exists s'. rewrite rotated_raised in Hr. apply rep_unplug in Hr as (Hcell & Hother & Hr).
  split.
  - do 2 f_equal. rewrite !root_fill. cbn [map]. rewrite last_cons, !root_plug. destruct fs as [|g fs]; [done|]. cbn [map].
    by destruct (last (f_loc g :: map f_loc fs)) eqn:E; [|apply last_None in E].
  - rewrite root_plug in Hcell. split.
    + apply (changes_keep _ _ _ _ Hs Hch). intros l Hl. by apply Hf.
    + by rewrite <- plug_sides.
    + cbn [ctx]. split_and!; [exact Hcell|exact Hother|exact Hc'].
    + rewrite <- Hbe. cbn [befores]. unfold lefts, handed, raised, before. cbn [f_left f_other f_key f_value].
      destruct (f_left f); cbn [negb pairs]; rewrite ?app_nil_r, <- ?app_assoc; done.
    + rewrite <- Haf. cbn [afters]. unfold rights, handed, raised, after. cbn [f_left f_other f_key f_value].
      destruct (f_left f); cbn [negb pairs]; rewrite <- ?app_assoc; done.
    + intros l Hl. apply Hf. cbn [map] in Hl. rewrite !elem_of_cons in Hl |- *. cbn in Hl. tauto.
    + eapply NoDup_Permutation_proper; [|exact Hn]. rewrite locs_fill. unfold ctx_locs, frame_locs, lefts, rights, handed, raised.
      cbn [map concat locs f_loc f_other]. destruct (f_left f); solve_Permutation.
Qed.

Lemma choose_child_ok s d k v p a b : rep s (Tree d k v p a b) ->
  (non_nil (root a) || non_nil (root b)) = true ->
  exists f c k' v' p' a' b', choose_child s (mkTreapNode k v p (root a) (root b)) = Ok (Some c, f_left f)
    /\ plug (Tree c k' v' p' a' b') f = Tree d k v p a b.
Proof.
  intros (_ & Ha & Hb) Hne. unfold choose_child. cbn [tn_left tn_right].
  destruct a as [|c k' v' p' a1 a2] eqn:Ea; destruct b as [|c' k'' v'' p'' b1 b2] eqn:Eb; cbn [root] in *; [done| | |].
  - by exists (mkFrame false d k v p Empty), c', k'', v'', p'', b1, b2.
  - by exists (mkFrame true d k v p Empty), c, k', v', p', a1, a2.
  - destruct Ha as (Hca & _), Hb as (Hcb & _). rewrite (load_ok _ _ _ Hca), (load_ok _ _ _ Hcb). cbn [rbind tn_priority].
    destruct (_ <=? _); [by exists (mkFrame true d k v p b), c, k', v', p', a1, a2; subst b|].
    by exists (mkFrame false d k v p a), c', k'', v'', p'', b1, b2; subst a.
Qed.

Lemma root_same fs t u : root t = root u -> root (fill fs t) = root (fill fs u).
Proof. intros H. by rewrite !root_fill, H. Qed.

(** The loop has ended with the node at a leaf. *)
Definition sunk (s0 : store) (d : loc) (k v : bytes) (p : Z) (lo hi : list (bytes * bytes))
    (o : outcome (store * pointer * pointer)) : Prop :=
  exists s fs, o = Ok (s, top fs, root (fill fs (Tree d k v p Empty Empty)))
    /\ sinking s0 s d k v p lo hi fs Empty Empty.

Lemma leaf_trees a b : (non_nil (root a) || non_nil (root b)) = false -> a = Empty /\ b = Empty.
Proof. by destruct a, b. Qed.

Lemma fewer_locs f c k v p a b t : plug (Tree c k v p a b) f = t ->
  length (locs (plug (handed f a b) f)) = (length (locs t) - length (locs (if f_left f then a else b)) - 1)%nat.
Proof.
  intros <-. unfold plug, handed. destruct (f_left f); cbn [locs length]; rewrite ?length_app; cbn [length]; rewrite ?length_app; lia.
Qed.

Lemma move_down_ok fuel s d k v p lo hi fs a b :
  sinking ∅ s d k v p lo hi fs a b -> (length (locs (Tree d k v p a b)) <= S fuel)%nat ->
  sunk ∅ d k v p lo hi (move_down fuel s (Some d) (top fs) (root (fill fs (Tree d k v p a b)))).
Proof.
  revert s fs a b. induction fuel as [|fuel IH]; intros s fs a b H Hf; cbn [move_down];
    destruct (si_rep _ _ _ _ _ _ _ _ _ _ _ H) as (Hd & Ha & Hb); rewrite (load_ok _ _ _ Hd); cbn [rbind tn_left tn_right];
    destruct (non_nil (root a) || non_nil (root b)) eqn:E; cbn [negb].
  - exfalso. cbn [locs length] in Hf. rewrite length_app in Hf. destruct a, b; cbn in E, Hf; try done; lia.
  - apply leaf_trees in E as [-> ->]. by exists s, fs.
  - destruct (choose_child_ok s d k v p a b (si_rep _ _ _ _ _ _ _ _ _ _ _ H) E) as (f & c & k' & v' & p' & a' & b' & -> & Hplug). cbn [rbind].
    pose proof H as [Hs Hr Hc Hlo Hhi Hfr Hn]. rewrite <- Hplug in Hr, Hn. apply rep_unplug in Hr as (Hcell & Ho & Hct & Ha' & Hb').
    pose proof (rotation_separate f fs _ _ _ _ _ _ Hn) as Hn'. pose proof (fewer_locs _ _ _ _ _ _ _ _ Hplug) as Hlen.
    rewrite plug_sides in Hplug. injection Hplug as <- <- <- <- <- <-.
    destruct (sink_step ∅ s f _ c k' v' p' a' b' fs _ _ Hs Hcell Hct Ha' Hb' Ho Hc Hn' Hlo Hhi) as (s' & Hrot & Hsink).
    { intros l _. rewrite dom_empty. apply not_elem_of_empty. }
    rewrite (root_same fs _ (plug Empty f)) by (by rewrite root_plug). rewrite Hrot. cbn [rbind].
    rewrite (root_same _ _ (plug (handed f a' b') f)) by (by rewrite !root_plug). rewrite plug_sides.
    apply (IH s' (raised f c k' v' p' a' b' :: fs)); [done|]. rewrite <- plug_sides, Hlen. lia.
  - apply leaf_trees in E as [-> ->]. by exists s, fs.
Qed.

(** The same with children that are copied first. *)
Lemma copy_down_ok fuel s0 s d k v p lo hi fs a b :
  sinking s0 s d k v p lo hi fs a b -> (length (locs (Tree d k v p a b)) <= S fuel)%nat ->
  sunk s0 d k v p lo hi (copy_down fuel s (Some d) (top fs) (root (fill fs (Tree d k v p a b)))).
Proof.
  revert s fs a b. induction fuel as [|fuel IH]; intros s fs a b H Hf; cbn [copy_down];
    destruct (si_rep _ _ _ _ _ _ _ _ _ _ _ H) as (Hd & Ha & Hb); rewrite (load_ok _ _ _ Hd); cbn [rbind tn_left tn_right];
    destruct (non_nil (root a) || non_nil (root b)) eqn:E; cbn [negb].
  - exfalso. cbn [locs length] in Hf. rewrite length_app in Hf. destruct a, b; cbn in E, Hf; try done; lia.
  - apply leaf_trees in E as [-> ->]. by exists s, fs.
  - destruct (choose_child_ok s d k v p a b (si_rep _ _ _ _ _ _ _ _ _ _ _ H) E) as (f & o & k' & v' & p' & a' & b' & -> & Hplug). cbn [rbind].
    pose proof H as [Hs Hr Hc Hlo Hhi Hfr Hn]. rewrite <- Hplug in Hr, Hn. apply rep_unplug in Hr as (Hcell & Ho & Hct & Ha' & Hb').
    pose proof (rotation_separate f fs _ _ _ _ _ _ Hn) as Hn'. pose proof (fewer_locs _ _ _ _ _ _ _ _ Hplug) as Hlen.
    rewrite plug_sides in Hplug. injection Hplug as <- <- <- <- <- <-. rewrite (load_ok _ _ _ Hct). cbn [rbind alloc].
    set (c := fresh (dom s)). pose proof (alloc_fresh s) as Hfresh. fold c in Hfresh.
    pose proof (insert_fresh_keeps s c (mkTreapNode k' v' p' (root a') (root b')) Hfresh) as Hins.
    set (s1 := <[c := _]> s) in *.
    destruct (sink_step s0 s1 f (root (Tree o k' v' p' a' b')) c k' v' p' a' b' fs lo hi) as (s' & Hrot & Hsink).
    + by etransitivity.
    + by eapply lookup_weaken.
    + apply lookup_insert_eq.
    + by eapply rep_mono.
    + by eapply rep_mono.
    + by eapply rep_mono.
    + by eapply ctx_mono.
    + apply NoDup_cons in Hn' as [_ Hn']. constructor; [|done]. rewrite elem_of_cons, !elem_of_app.
      apply elem_of_dom_2 in Hcell. intros [Hx|[Hx|[Hx|[Hx|Hx]]]]; apply Hfresh; [by rewrite Hx|by eapply rep_dom, Hx..|by eapply ctx_dom].
    + rewrite <- Hlo. unfold lefts. by destruct (f_left f).
    + rewrite <- Hhi. unfold rights. by destruct (f_left f).
    + intros l [->|Hl]%elem_of_cons; [|by apply Hfr]. intros Hin. apply Hfresh. by apply (subseteq_dom s0 s).
    + rewrite (root_same fs _ (plug Empty f)) by (by rewrite root_plug). rewrite Hrot. cbn [rbind].
      rewrite (root_same _ _ (plug (handed f a' b') f)) by (by rewrite !root_plug). rewrite plug_sides.
      apply (IH s' (raised f c k' v' p' a' b' :: fs)); [done|]. rewrite <- plug_sides, Hlen. lia.
  - apply leaf_trees in E as [-> ->]. by exists s, fs.
Qed.

Lemma unlink_ok s f fs d : ctx s (f :: fs) (Some d) -> d ∉ locs (f_other f) ->
  unlink s (top (f :: fs)) (Some d) = Ok (relinked s (f :: fs) None).
Proof.
  intros (Hf & _) Hd. unfold unlink. change (top (f :: fs)) with (Some (f_loc f)). rewrite (update_ok _ _ _ _ Hf).
  pose proof (root_not_in _ _ Hd) as Hne. unfold relinked, frame_node. destruct (f_left f); cbn [tn_right].
  - by rewrite bool_decide_eq_false_2.
  - by rewrite bool_decide_eq_true_2.
Qed.

Lemma lonely fs a b : (befores fs ++ pairs a) ++ pairs b ++ afters fs = [] -> fs = [] /\ a = Empty /\ b = Empty.
Proof.
  intros [[Hlo Ha]%app_eq_nil [Hb Hhi]%app_eq_nil]%app_eq_nil. split_and!.
  - destruct fs as [|f fs]; [done|]. cbn [befores afters] in Hlo, Hhi. unfold before, after in *.
    destruct (f_left f); [done|]. rewrite app_assoc in Hlo. by apply app_eq_nil in Hlo as [_ ?].
  - destruct a; [done|]. cbn [pairs] in Ha. by apply app_eq_nil in Ha as [_ ?].
  - destruct b; [done|]. cbn [pairs] in Hb. by apply app_eq_nil in Hb as [_ ?].
Qed.

(** The node is cut off: only its own pair goes. *)
Lemma remove_ok s0 d k v p lo hi o : sunk s0 d k v p lo hi o -> lo ++ hi <> [] ->
  exists s parent rt s' t, o = Ok (s, parent, rt) /\ unlink s parent (Some d) = Ok s' /\ rt = root t
    /\ s0 ⊆ s' /\ rep s' t /\ pairs t = lo ++ hi.
Proof.
  intros (s & fs & -> & Hs) Hne. destruct fs as [|f fs].
  { destruct Hs as [_ _ _ Hlo Hhi _ _]. exfalso. apply Hne. by rewrite <- Hlo, <- Hhi. }
  eexists s, _, _, _, (fill (f :: fs) Empty). split; [done|]. destruct Hs as [Hk Hr Hc Hlo Hhi Hf Hn].
  rewrite locs_fill in Hn. cbn [locs app] in Hn. apply NoDup_cons in Hn as [Hd Hn].
  split_and!.
  - apply unlink_ok; [done|]. intros Hin. apply Hd. unfold ctx_locs. cbn [map concat]. apply elem_of_app. left. by apply elem_of_cons; right.
  - rewrite !root_fill. destruct (last (map f_loc (f :: fs))) eqn:E; [done|by apply last_None in E].
  - apply (changes_keep _ _ _ _ Hk (relinked_changes s (f :: fs) None)). intros l Hl. apply Hf. by apply elem_of_cons; right.
  - apply rep_fill; [by eapply ctx_relinked|done].
  - rewrite pairs_fill. cbn [pairs app] in *. by rewrite <- Hlo, <- Hhi, app_nil_r.
Qed.

(** The copies of the nodes of the stack, from the root down. *)
Lemma befores_app fs gs : befores (fs ++ gs) = befores gs ++ befores fs.
Proof. induction fs as [|f fs IH]; cbn [app befores]; [by rewrite app_nil_r|]. by rewrite IH, app_assoc. Qed.

Lemma afters_app fs gs : afters (fs ++ gs) = afters fs ++ afters gs.
Proof. induction fs as [|f fs IH]; cbn [app afters]; [done|]. by rewrite IH, app_assoc. Qed.

Lemma fill_app fs gs t : fill (fs ++ gs) t = fill gs (fill fs t).
Proof. unfold fill. apply foldl_app. Qed.

Definition copy_of (f f' : frame) : Prop := exists l, f' = moved l f.

Lemma befores_copy fs fs' : Forall2 copy_of fs fs' -> befores fs' = befores fs /\ afters fs' = afters fs.
Proof. induction 1 as [|f f' fs fs' [l ->] _ [IHb IHa]]; [done|]. cbn [befores afters]. by rewrite IHb, IHa. Qed.

Lemma pairs_moved fs l g t : pairs (fill (moved l g :: fs) t) = pairs (fill fs (plug t g)).
Proof. rewrite fill_cons, !pairs_fill. unfold plug, moved. cbn. by destruct (f_left g). Qed.

Lemma copy_path_ok s0 t fs s fc parents rest np :
  s0 ⊆ s -> rep s (fill fs t) -> ctx s fc (root (fill fs t)) -> sorted (pairs (fill fc (fill fs t))) ->
  (forall l, l ∈ map f_loc fc -> l ∉ dom s0) -> stack_of parents (map f_loc fs ++ rest) -> stack_of np (map f_loc fc) ->
  exists s' fs' np', copy_path (length fs) s parents np = Ok (s', np') /\ stack_of np' (map f_loc (fs' ++ fc))
    /\ Forall2 copy_of fs fs' /\ s0 ⊆ s' /\ rep s' t /\ ctx s' (fs' ++ fc) (root t)
    /\ (forall l, l ∈ map f_loc (fs' ++ fc) -> l ∉ dom s0).
Proof.
  revert s fc rest np. induction fs as [|g fs IH] using rev_ind; intros s fc rest np Hs Hr Hc Hso Hf Hp Hnp.
  { exists s, [], np. by split_and!. }
  rewrite length_app, Nat.add_1_r. cbn [copy_path]. rewrite (At_stack _ _ _ Hp) by lia. rewrite Nat2Z.id.
  rewrite map_app, <- app_assoc, lookup_app_r by (by rewrite length_map). rewrite length_map, Nat.sub_diag. cbn [map app lookup list_lookup rbind].
  rewrite fill_app in *. cbn [fill foldl] in Hr, Hc, Hso. change (foldl plug t fs) with (fill fs t) in *. rewrite root_plug in Hc.
  pose proof (rep_unplug _ _ _ Hr) as (Hg & _ & _). rewrite (load_ok _ _ _ Hg). cbn [rbind alloc]. rewrite (At_top _ _ Hnp). cbn [rbind].
  assert (Hn : NoDup (locs (fill fc (plug (fill fs t) g)))).
  { apply (rep_NoDup s); [apply rep_fill; [by rewrite root_plug|done]|by apply sorted_keys]. }
  destruct (copy_step s fc g (fill fs t) (fresh (dom s)) Hc Hr Hn (alloc_fresh s)) as (-> & Hc' & Hr' & Hch). cbn [rbind].
  destruct (copy_step_keeps s0 s _ _ fc Hs (alloc_fresh s) Hf Hch) as [Hs' Hl].
  destruct (Push_stack _ _ (fresh (dom s)) Hnp) as (np' & -> & Hnp'). cbn [rbind].
  set (l := fresh (dom s)) in *. set (s1 := relinked _ fc _) in *.
  destruct (IH s1 (moved l g :: fc) (f_loc g :: rest) np' Hs' Hr' Hc') as (s' & fs' & np2 & Hcp & Hst & Hall & Hs2 & Hr2 & Hc2 & Hf2).
  - by rewrite pairs_moved.
  - intros x [->|Hx]%elem_of_cons; [done|by apply Hf].
  - by rewrite map_app, <- app_assoc in Hp.
  - done.
  - exists s', (fs' ++ [moved l g]), np2. rewrite <- app_assoc. split_and!; try done.
    apply Forall2_app; [done|]. constructor; [by eexists|constructor].
Qed.
