(* ===== verification/TreapMaps.v ===== *)
(** * Treaps implement ordered maps

    What the operations of both kinds of treap do to the map they hold, for every
    sequence of operations: lookups, the number of items, the total size and the
    order of iteration.  Versions of an immutable treap are never changed by later
    operations. *)

From Stdlib Require Import ZArith Lia Sorted.
From stdpp Require Import base list numbers option gmap sets sorting.
From S2P Require Import Prelude Treap TreapProofs.

#[local] Open Scope Z_scope.

(** ** Totals *)

Definition item_size (k v : bytes) : Z := nodeFieldsSize + len k + len v.
Definition total_size (m : gmap bytes bytes) : Z := map_fold (fun k v n => item_size k v + n) 0 m.

Lemma total_insert m k v : m !! k = None -> total_size (<[k := v]> m) = item_size k v + total_size m.
Proof. intros Hk. unfold total_size. rewrite map_fold_insert_L; [done| |done]. intros. lia. Qed.

Lemma total_delete m k v : m !! k = Some v -> total_size (delete k m) = total_size m - item_size k v.
Proof.
  intros Hk. rewrite <- (insert_delete_id m k v Hk) at 2. rewrite total_insert by apply lookup_delete_eq. lia.
Qed.

Lemma total_replace m k v w : m !! k = Some v -> total_size (<[k := w]> m) = total_size m - len v + len w.
Proof.
  intros Hk. rewrite <- insert_delete_eq, total_insert by apply lookup_delete_eq. rewrite (total_delete m k v Hk). unfold item_size. lia.
Qed.

Lemma uint64_add_l a b : uint64 (uint64 a + b) = uint64 (a + b).
Proof. unfold uint64, wrap_u. apply Zplus_mod_idemp_l. Qed.

Lemma uint64_add_r a b : uint64 (a + uint64 b) = uint64 (a + b).
Proof. unfold uint64, wrap_u. apply Zplus_mod_idemp_r. Qed.

Lemma uint64_sub_l a b : uint64 (uint64 a - b) = uint64 (a - b).
Proof. unfold uint64, wrap_u. apply Zminus_mod_idemp_l. Qed.

Lemma uint64_sub_r a b : uint64 (a - uint64 b) = uint64 (a - b).
Proof. unfold uint64, wrap_u. apply Zminus_mod_idemp_r. Qed.

Lemma int64_add_l a b : int64 (int64 a + b) = int64 (a + b).
Proof.
  unfold int64, wrap_s. f_equal. replace ((a + 2 ^ (64 - 1)) mod 2 ^ 64 - 2 ^ (64 - 1) + b + 2 ^ (64 - 1)) with ((a + 2 ^ (64 - 1)) mod 2 ^ 64 + b) by lia.
  rewrite Zplus_mod_idemp_l. f_equal. lia.
Qed.

Lemma nodeSize_item k v p : nodeSize (newTreapNode k v p) = uint64 (item_size k v).
Proof. unfold nodeSize, item_size. rewrite uint64_add_r. f_equal. cbn [newTreapNode tn_key tn_value]. lia. Qed.

(** ** The map of a treap *)

(** What a tree of the store and the totals of a treap say of the map. *)
Definition holds (s : store) (rt : pointer) (count totalSize : Z) (m : gmap bytes bytes) : Prop :=
  exists t, root t = rt /\ rep s t /\ sorted (pairs t) /\ contents (pairs t) = m
    /\ count = int64 (Z.of_nat (size m)) /\ totalSize = uint64 (total_size m).

Lemma holds_empty s : holds s None 0 0 ∅.
Proof. exists Empty. split_and!; try done. constructor. Qed.

Lemma holds_keeps s s' rt c n m : s ⊆ s' -> holds s rt c n m -> holds s' rt c n m.
Proof. intros Hs (t & Hrt & Hr & H). exists t. split_and!; try apply H; [done|]. by eapply rep_mono. Qed.

Lemma located_root s0 s t key : s0 ⊆ s -> rep s t -> sorted (pairs t) -> located s0 s key (pairs t) [] t.
Proof. intros Hk Hr Hs. split; try done. intros l Hl. by apply not_elem_of_nil in Hl. Qed.

Lemma enough_locs s t : rep s t -> sorted (pairs t) -> (length (locs t) <= size s)%nat.
Proof. intros Hr Hs. apply rep_locs_size; [done|]. apply (rep_NoDup s); [done|]. by apply sorted_keys. Qed.

(** The pairs around the place of the key. *)
Lemma located_absent s0 s key all fs : located s0 s key all fs Empty ->
  all = befores fs ++ afters fs /\ contents all !! key = None.
Proof. intros [_ _ _ Hp _ Hb _]. rewrite pairs_fill in Hp. cbn [pairs app] in Hp. subst all. split; [done|]. by apply contents_absent. Qed.

Lemma located_present s0 s key all fs l v p a b : located s0 s key all fs (Tree l key v p a b) ->
  all = (befores fs ++ pairs a) ++ (key, v) :: pairs b ++ afters fs
  /\ between key (befores fs ++ pairs a) (pairs b ++ afters fs) /\ contents all !! key = Some v.
Proof.
  intros [_ _ _ Hp Hs _ _]. rewrite pairs_fill in Hp. cbn [pairs] in Hp. rewrite <- (app_assoc (pairs a)), app_assoc in Hp.
  cbn [app] in Hp. subst all. pose proof (sorted_between _ _ _ _ Hs) as Hb. split_and!; [done|done|].
  rewrite contents_mid by apply Hb. apply lookup_insert_eq.
Qed.

Lemma search_lookup s t key : rep s t -> sorted (pairs t) ->
  contents (pairs t) !! key = match (search key [] t).2 with Empty => None | Tree _ _ v _ _ _ => Some v end
  /\ rep s (search key [] t).2.
Proof.
  intros Hr Hs. destruct (search_located s key (pairs t) t [] (located_root ∅ s t key (map_empty_subseteq s) Hr Hs)) as [Hl Ha].
  split; [|apply Hl]. destruct (search key [] t).2 as [|l k v p a b]; [by eapply located_absent|].
  destruct Ha as [-> _]. by eapply located_present.
Qed.

Lemma holds_size s rt c n m k v : holds s rt c n m -> m !! k = None ->
  int64 (c + 1) = int64 (Z.of_nat (size (<[k := v]> m)))
  /\ forall p, uint64 (n + nodeSize (newTreapNode k v p)) = uint64 (total_size (<[k := v]> m)).
Proof.
  intros (_ & _ & _ & _ & _ & -> & ->) Hk. split.
  - rewrite int64_add_l, map_size_insert_None by done. f_equal. lia.
  - intros p. rewrite nodeSize_item, uint64_add_l, uint64_add_r, total_insert by done. f_equal. lia.
Qed.

Lemma holds_resize s rt c n m k v w : holds s rt c n m -> m !! k = Some v ->
  c = int64 (Z.of_nat (size (<[k := w]> m))) /\ uint64 (uint64 (n - len v) + len w) = uint64 (total_size (<[k := w]> m)).
Proof.
  intros (_ & _ & _ & _ & _ & -> & ->) Hk. split.
  - do 2 f_equal. symmetry. apply map_size_insert_Some. by eexists.
  - rewrite uint64_add_l, (total_replace m k v w Hk).
    replace (uint64 (total_size m) - len v + len w) with (uint64 (total_size m) + (len w - len v)) by lia. rewrite uint64_add_l. f_equal. lia.
Qed.

Lemma holds_shrink s rt c n m k v p a b : holds s rt c n m -> m !! k = Some v ->
  int64 (c - 1) = int64 (Z.of_nat (size (delete k m)))
  /\ uint64 (n - nodeSize (mkTreapNode k v p a b)) = uint64 (total_size (delete k m)).
Proof.
  intros (_ & _ & _ & _ & _ & -> & ->) Hk. split.
  - rewrite <- Z.add_opp_r, int64_add_l, map_size_delete_Some by (by eexists). f_equal.
    assert (size m <> 0%nat); [|lia]. intros H%map_size_empty_inv. by rewrite H, lookup_empty in Hk.
  - change (nodeSize (mkTreapNode k v p a b)) with (nodeSize (newTreapNode k v p)).
    rewrite nodeSize_item, uint64_sub_l, uint64_sub_r, (total_delete m k v) by done. done.
Qed.

(** A tree with a pair more, another value for a key, or a pair less. *)
Lemma holds_inserted s1 s0 s s' rt c n m key all fs value t :
  holds s1 rt c n m -> contents all = m -> located s0 s key all fs Empty -> rep s' t ->
  pairs t = befores fs ++ (key, value) :: afters fs ->
  forall p, holds s' (root t) (int64 (c + 1)) (uint64 (n + nodeSize (newTreapNode key value p))) (<[key := value]> m).
Proof.
  intros Hh Hm Hl Hr Hp p. destruct (located_absent _ _ _ _ _ Hl) as [Hall Hk]. rewrite Hm in Hk.
  pose proof (lo_between _ _ _ _ _ _ Hl) as Hb. pose proof (lo_sorted _ _ _ _ _ _ Hl) as Hs. rewrite Hall in Hs, Hm.
  destruct (holds_size _ _ _ _ _ key value Hh Hk) as [Hc Hn]. exists t. split_and!; try done.
  - rewrite Hp. by apply sorted_insert.
  - rewrite Hp, contents_mid by apply Hb. by rewrite Hm.
Qed.

Lemma holds_replaced s1 s0 s s' rt c n m key all fs l v p a b value :
  holds s1 rt c n m -> contents all = m -> located s0 s key all fs (Tree l key v p a b) ->
  rep s' (fill fs (Tree l key value p a b)) ->
  holds s' (root (fill fs (Tree l key v p a b))) c (uint64 (uint64 (n - len v) + len value)) (<[key := value]> m).
Proof.
  intros Hh Hm Hl Hr. destruct (located_present _ _ _ _ _ _ _ _ _ _ Hl) as (Hall & Hb & Hk). rewrite Hm in Hk.
  pose proof (lo_sorted _ _ _ _ _ _ Hl) as Hs. destruct (holds_resize _ _ _ _ _ key v value Hh Hk) as [Hc Hn].
  assert (Hp : pairs (fill fs (Tree l key value p a b)) = (befores fs ++ pairs a) ++ (key, value) :: pairs b ++ afters fs).
  { rewrite pairs_fill. cbn [pairs]. by rewrite <- !app_assoc. }
  exists (fill fs (Tree l key value p a b)). split_and!; try done.
  - rewrite !root_fill. done.
  - rewrite Hp. apply sorted_insert; [|done]. rewrite Hall in Hs. by apply sorted_delete in Hs.
  - rewrite Hp, contents_mid by apply Hb. rewrite <- Hm, Hall, contents_mid by apply Hb. by rewrite insert_insert_eq.
Qed.

Lemma holds_removed s1 s0 s s' rt c n m key all fs l v p a b q r t :
  holds s1 rt c n m -> contents all = m -> located s0 s key all fs (Tree l key v p a b) -> rep s' t ->
  pairs t = (befores fs ++ pairs a) ++ pairs b ++ afters fs ->
  holds s' (root t) (int64 (c - 1)) (uint64 (n - nodeSize (mkTreapNode key v p q r))) (delete key m).
Proof.
  intros Hh Hm Hl Hr Hp. destruct (located_present _ _ _ _ _ _ _ _ _ _ Hl) as (Hall & Hb & Hk). rewrite Hm in Hk.
  pose proof (lo_sorted _ _ _ _ _ _ Hl) as Hs. destruct (holds_shrink _ _ _ _ _ key v p q r Hh Hk) as [Hc Hn].
  rewrite Hall in Hs. exists t. split_and!; try done.
  - rewrite Hp. by apply sorted_delete in Hs.
  - rewrite Hp, (contents_delete _ key v) by done. by rewrite <- Hm, Hall.
Qed.

(** ** Lookups *)

Lemma Immutable_Get_ok s t m key : holds s (im_root t) (im_count t) (im_totalSize t) m ->
  Immutable_Get s t key = Ok (m !! key) /\ Immutable_Has s t key = Ok (bool_decide (is_Some (m !! key))).
Proof.
  intros (tr & Hrt & Hr & Hs & <- & _). destruct (search_lookup s tr key Hr Hs) as [-> Hr'].
  unfold Immutable_Get, Immutable_Has, Immutable_get. rewrite <- Hrt, (get_loop_ok key s tr []) by (done || (pose proof (enough_locs s tr Hr Hs); unfold enough; lia)).
  cbn [rbind]. destruct (search key [] tr).2 as [|l k v p a b]; [done|]. cbn [root]. destruct Hr' as (Hl & _). by rewrite (load_ok _ _ _ Hl).
Qed.

Lemma Mutable_Get_ok s t m key : holds s (mu_root t) (mu_count t) (mu_totalSize t) m ->
  Mutable_Get s t key = Ok (m !! key) /\ Mutable_Has s t key = Ok (bool_decide (is_Some (m !! key))).
Proof.
  intros (tr & Hrt & Hr & Hs & <- & _). destruct (search_lookup s tr key Hr Hs) as [-> Hr'].
  unfold Mutable_Get, Mutable_Has, Mutable_get. rewrite <- Hrt. change (@None loc) with (top []).
  rewrite (find_parent_ok key s tr []) by (done || (pose proof (enough_locs s tr Hr Hs); unfold enough; lia)).
  cbn [rbind]. destruct (search key [] tr).2 as [|l k v p a b]; [done|]. cbn [root]. destruct Hr' as (Hl & _). by rewrite (load_ok _ _ _ Hl).
Qed.

(** ** [Put] *)

Lemma single_node s (l := fresh (dom s)) key value p :
  holds (<[l := newTreapNode key value p]> s) (Some l) 1 (nodeSize (newTreapNode key value p)) (<[key := value]> ∅).
Proof.
  exists (Tree l key value p Empty Empty). split_and!; try done.
  - cbn [rep root]. split_and!; try done. apply lookup_insert_eq.
  - repeat constructor.
  - rewrite map_size_insert_None by apply lookup_empty. by rewrite map_size_empty.
  - rewrite nodeSize_item, total_insert by apply lookup_empty. f_equal. unfold total_size. rewrite map_fold_empty. lia.
Qed.

Lemma root_empty t : root t = None -> t = Empty.
Proof. by destruct t. Qed.

(** The place found under a root is below some node. *)
Lemma located_below s0 s key all fs l k v p a b : located s0 s key all fs Empty -> all = pairs (Tree l k v p a b) ->
  exists f fs', fs = f :: fs'.
Proof.
  intros [_ _ _ Hp _ _ _] Hall. destruct fs as [|f fs]; [|by eauto]. rewrite Hall in Hp. cbn [fill foldl pairs] in Hp.
  symmetry in Hp. by apply app_eq_nil in Hp as [_ ?].
Qed.

Lemma Immutable_Put_ok s t m key value p : holds s (im_root t) (im_count t) (im_totalSize t) m ->
  exists s' t', Immutable_Put s t key value p = Ok (s', t') /\ s ⊆ s'
    /\ holds s' (im_root t') (im_count t') (im_totalSize t') (<[key := default [] value]> m).
Proof.
  intros Hh. pose proof Hh as (tr & Hrt & Hr & Hs & Hm & Hcnt & Htot). unfold Immutable_Put. destruct (im_root t) as [x|] eqn:Ert.
  - destruct (copy_search_ok s key (pairs tr) tr s [] (enough s) emptyStack 0) as (s1 & fs & t1 & parents & c & Hcs & Hloc & Harr & Hst & Hw);
      [by apply located_root|pose proof (enough_locs s tr Hr Hs); unfold enough; lia|apply emptyStack_of|done|].
    rewrite <- Hrt, Hcs. cbn [rbind]. destruct t1 as [|l k v q a b]; cbn [root].
    + destruct tr as [|l0 k0 v0 q0 a0 b0]; [done|]. destruct (located_below _ _ _ _ _ _ _ _ _ _ _ Hloc eq_refl) as (f & fs' & ->).
      cbn [alloc]. rewrite (At_top _ _ Hst). cbn [rbind].
      destruct (insert_ok s s1 key _ f fs' parents c (default [] value) p Hloc Hst (Hw eq_refl)) as (s2 & s3 & t3 & -> & Hup & Hk & Hr3 & Hp3).
      cbn [rbind]. rewrite (At_bottom _ _ Hst). cbn [rbind path]. rewrite Hup. cbn [rbind]. eexists _, _. split_and!; [done|done|].
      by eapply holds_inserted.
    + destruct Harr as [-> Hfr]. destruct (lo_rep _ _ _ _ _ _ Hloc) as (Hcell & _). rewrite (load_ok _ _ _ Hcell). cbn [rbind tn_value].
      destruct (replace_ok _ _ _ _ _ _ _ _ _ _ (default [] value) Hloc Hfr) as (s2 & -> & Hk & Hr2). cbn [rbind].
      rewrite (At_bottom _ _ Hst). cbn [rbind path]. eexists _, _. split_and!; [done|done|]. cbn [im_root im_count im_totalSize].
      rewrite last_cons. pose proof (holds_replaced _ _ _ _ _ _ _ _ _ _ _ _ _ _ _ _ (default [] value) Hh Hm Hloc Hr2) as H.
      rewrite root_fill in H. exact H.
  - apply root_empty in Hrt as ->. cbn [alloc]. eexists _, _. split_and!; [done|apply insert_fresh_keeps, alloc_fresh|]. cbn in Hm. subst m. apply single_node.
Qed.

Lemma Mutable_Put_ok s t m key value p : holds s (mu_root t) (mu_count t) (mu_totalSize t) m ->
  exists s' t', Mutable_Put s t key value p = Ok (s', t')
    /\ holds s' (mu_root t') (mu_count t') (mu_totalSize t') (<[key := default [] value]> m).
Proof.
  intros Hh. pose proof Hh as (tr & Hrt & Hr & Hs & Hm & Hcnt & Htot). unfold Mutable_Put. destruct (mu_root t) as [x|] eqn:Ert.
  - destruct (push_search_ok key s tr [] (enough s) emptyStack 0) as (parents & c & Hps & Hst & Hw);
      [done|pose proof (enough_locs s tr Hr Hs); unfold enough; lia|apply emptyStack_of|done|].
    destruct (search_located s key (pairs tr) tr [] (located_root ∅ s tr key (map_empty_subseteq s) Hr Hs)) as [Hloc Harr].
    pose proof (f_equal root (eq_sym (search_fill key [] tr))) as Hroot. cbn [fill foldl] in Hroot.
    rewrite <- Hrt, Hps. cbn [rbind]. destruct (search key [] tr) as [fs t1]. cbn [fst snd] in *. destruct t1 as [|l k v q a b]; cbn [root].
    + destruct tr as [|l0 k0 v0 q0 a0 b0]; [done|]. destruct (located_below _ _ _ _ _ _ _ _ _ _ _ Hloc eq_refl) as (f & fs' & ->).
      cbn [alloc]. rewrite (At_top _ _ Hst). cbn [rbind].
      destruct (insert_ok ∅ s key _ f fs' parents c (default [] value) p Hloc Hst (Hw eq_refl)) as (s2 & s3 & t3 & -> & Hup & Hk & Hr3 & Hp3).
      cbn [rbind]. rewrite Hroot, root_fill. cbn [root]. destruct (last (map f_loc (f :: fs'))) as [y|] eqn:El; [|by apply last_None in El].
      rewrite Hup. cbn [rbind]. eexists _, _. split_and!; [done|]. by eapply holds_inserted.
    + destruct Harr as [-> Hfr]. destruct (lo_rep _ _ _ _ _ _ Hloc) as (Hcell & _). rewrite (load_ok _ _ _ Hcell). cbn [rbind tn_value].
      destruct (replace_ok _ _ _ _ _ _ _ _ _ _ (default [] value) Hloc Hfr) as (s2 & -> & Hk & Hr2). cbn [rbind].
      eexists _, _. split_and!; [done|]. cbn [mu_root mu_count mu_totalSize].
      rewrite Hroot. by eapply holds_replaced.
  - apply root_empty in Hrt as ->. cbn [alloc]. eexists _, _. split_and!; [done|]. cbn in Hm. subst m. apply single_node.
Qed.

(** ** [Delete] *)

(** The node found starts to sink. *)
Lemma located_sinking s0 s key all fs l v p a b : located s0 s key all fs (Tree l key v p a b) -> l ∉ dom s0 ->
  sinking s0 s l key v p (befores fs ++ pairs a) (pairs b ++ afters fs) fs a b.
Proof.
  intros H Hl. split; try done; try apply H; [|by eapply located_NoDup].
  intros x [->|Hx]%elem_of_cons; [done|]. by apply H.
Qed.

(** A node with neither parent nor children is the whole tree. *)
Lemma only_node fs a b :
  (negb (non_nil (top fs)) && negb (non_nil (root a)) && negb (non_nil (root b))) = bool_decide ((befores fs ++ pairs a) ++ pairs b ++ afters fs = []).
Proof.
  symmetry. destruct (decide ((befores fs ++ pairs a) ++ pairs b ++ afters fs = [])) as [H|H].
  - rewrite bool_decide_eq_true_2 by done. by destruct (lonely _ _ _ H) as (-> & -> & ->).
  - rewrite bool_decide_eq_false_2 by done. destruct fs as [|f fs]; [|done]. destruct a; [|done]. by destruct b.
Qed.

Lemma only_pair m all key v lo hi : contents all = m -> all = lo ++ (key, v) :: hi -> lo ++ hi = [] -> delete key m = ∅.
Proof.
  intros <- -> [-> ->]%app_eq_nil. unfold contents. cbn [app list_to_map foldr uncurry]. 
  rewrite delete_insert_eq. apply delete_empty.
Qed.

Lemma Mutable_Delete_ok s t m key : holds s (mu_root t) (mu_count t) (mu_totalSize t) m ->
  exists s' t', Mutable_Delete s t key = Ok (s', t')
    /\ holds s' (mu_root t') (mu_count t') (mu_totalSize t') (delete key m).
Proof.
  intros Hh. pose proof Hh as (tr & Hrt & Hr & Hs & Hm & Hcnt & Htot). unfold Mutable_Delete, Mutable_get.
  pose proof (enough_locs s tr Hr Hs) as Hsz. rewrite <- Hrt. change (@None loc) with (top []).
  rewrite (find_parent_ok key s tr []) by (done || unfold enough; lia). cbn [rbind].
  destruct (search_located s key (pairs tr) tr [] (located_root ∅ s tr key (map_empty_subseteq s) Hr Hs)) as [Hloc Harr].
  pose proof (f_equal root (eq_sym (search_fill key [] tr))) as Hroot. cbn [fill foldl] in Hroot.
  pose proof (lo_rep _ _ _ _ _ _ Hloc) as Hr1. destruct (search key [] tr) as [fs t1]. cbn [fst snd] in *.
  destruct t1 as [|l k v q a b]; cbn [root rbind].
  - destruct (located_absent _ _ _ _ _ Hloc) as [_ Hk]. rewrite Hm in Hk. eexists _, _. split; [done|]. by rewrite delete_id.
  - destruct Harr as [-> Hfr]. pose proof Hr1 as (Hcell & _). rewrite (load_ok _ _ _ Hcell). cbn [rbind tn_left tn_right].
    destruct (located_present _ _ _ _ _ _ _ _ _ _ Hloc) as (Hall & _ & _). rewrite only_node. case_bool_decide as Hone.
    + eexists _, _. split; [done|]. cbn [mu_root mu_count mu_totalSize]. rewrite (only_pair _ _ _ _ _ _ Hm Hall Hone). apply holds_empty.
    + pose proof (located_sinking _ _ _ _ _ _ _ _ _ _ Hloc Hfr) as Hsink.
      assert (Hfuel : (length (locs (Tree l key v q a b)) <= S (enough s))%nat).
      { pose proof (rep_locs_size s (Tree l key v q a b) Hr1) as H. unfold enough. rewrite H; [lia|].
        pose proof (located_NoDup _ _ _ _ _ _ Hloc) as Hn. rewrite locs_fill in Hn. by apply NoDup_app in Hn as (? & _). }
      destruct (remove_ok _ _ _ _ _ _ _ _ (move_down_ok _ _ _ _ _ _ _ _ _ _ _ Hsink Hfuel) Hone)
        as (s1 & parent & rt & s' & t' & Hmv & Hun & -> & _ & Hr' & Hp').
      rewrite Hroot, Hmv. cbn [rbind]. rewrite Hun. cbn [rbind]. eexists _, _. split; [done|]. by eapply holds_removed.
Qed.

(** Without a parent the root passed to the rotations does not matter. *)
Lemma copy_down_root fuel s l n rt rt' : s !! l = Some n -> (non_nil (tn_left n) || non_nil (tn_right n)) = true ->
  copy_down fuel s (Some l) None rt = copy_down fuel s (Some l) None rt'.
Proof. intros Hl Hn. destruct fuel; cbn [copy_down]; rewrite (load_ok _ _ _ Hl); cbn [rbind]; by rewrite Hn. Qed.

(** The copies of the node found and of its ancestors. *)
Lemma copy_path_located s key all fs l v p a b parents :
  located ∅ s key all fs (Tree l key v p a b) -> stack_of parents (l :: map f_loc fs) ->
  exists s1 np l' fs', copy_path (Z.to_nat (parentStack_Len parents)) s parents emptyStack = Ok (s1, np)
    /\ stack_of np (l' :: map f_loc fs') /\ located s s1 key all fs' (Tree l' key v p a b) /\ (l' ∉ dom s)
    /\ befores fs' = befores fs /\ afters fs' = afters fs /\ length fs' = length fs.
Proof.
  intros H Hst. set (g := mkFrame true l key v p b). pose proof (located_NoDup _ _ _ _ _ _ H) as Hn.
  destruct H as [_ Hr Hc Hp Hs Hb _].
  destruct (copy_path_ok s a (g :: fs) s [] parents [] emptyStack) as (s1 & fs1 & np & Hcp & Hst1 & Hall & Hk & Hr1 & Hc1 & Hf1).
  - done.
  - rewrite fill_cons. apply rep_fill; done.
  - done.
  - rewrite <- Hp in Hs. exact Hs.
  - intros x Hx. by apply not_elem_of_nil in Hx.
  - by rewrite app_nil_r.
  - apply emptyStack_of.
  - apply Forall2_cons_inv_l in Hall as (g' & fs' & [l' ->] & Hall & ->). rewrite app_nil_r in *. destruct (befores_copy _ _ Hall) as [Eb Ea].
    exists s1, np, l', fs'. rewrite (stack_Len _ _ Hst). unfold len. rewrite Nat2Z.id. cbn [length] in *. rewrite length_map.
    destruct Hc1 as (Hcell & Hother & Hc1). split_and!; try done.
    + split; try done.
      * rewrite pairs_fill in Hp |- *. by rewrite Eb, Ea.
      * by rewrite Eb, Ea.
      * intros x Hx. apply Hf1. by apply elem_of_cons; right.
    + apply Hf1. by apply elem_of_cons; left.
    + symmetry. by eapply Forall2_length.
Qed.

Lemma located_fuel s0 s key all fs t : located s0 s key all fs t -> (length (locs t) <= size s)%nat.
Proof.
  intros H. apply rep_locs_size; [apply H|]. pose proof (located_NoDup _ _ _ _ _ _ H) as Hn. rewrite locs_fill in Hn.
  by apply NoDup_app in Hn as (? & _).
Qed.

Lemma Immutable_Delete_ok s t m key : holds s (im_root t) (im_count t) (im_totalSize t) m ->
  exists s' t', Immutable_Delete s t key = Ok (s', t') /\ s ⊆ s'
    /\ holds s' (im_root t') (im_count t') (im_totalSize t') (delete key m).
Proof.
  intros Hh. pose proof Hh as (tr & Hrt & Hr & Hs & Hm & Hcnt & Htot). unfold Immutable_Delete.
  destruct (search_located s key (pairs tr) tr [] (located_root ∅ s tr key (map_empty_subseteq s) Hr Hs)) as [Hloc Harr].
  destruct (find_path_ok key s tr [] (enough s) emptyStack) as (parents & Hfp & Hst);
    [done|pose proof (enough_locs s tr Hr Hs); unfold enough; lia|apply emptyStack_of|].
  rewrite <- Hrt, Hfp. cbn [rbind]. destruct (search key [] tr) as [fs t1]. cbn [fst snd] in *. destruct t1 as [|l k v q a b]; cbn [root].
  - destruct (located_absent _ _ _ _ _ Hloc) as [_ Hk]. rewrite Hm in Hk. eexists _, _. split; [done|]. by rewrite delete_id.
  - destruct Harr as [-> _]. cbn [path] in Hst. destruct (lo_rep _ _ _ _ _ _ Hloc) as (Hcell & _).
    rewrite (At_stack _ _ _ Hst) by lia. cbn [rbind]. change ((l :: map f_loc fs) !! Z.to_nat 1) with (map f_loc fs !! 0%nat).
    rewrite <- head_lookup. fold (top fs). rewrite (load_ok _ _ _ Hcell). cbn [rbind tn_left tn_right].
    destruct (located_present _ _ _ _ _ _ _ _ _ _ Hloc) as (Hall & _ & _). rewrite only_node. case_bool_decide as Hone.
    { eexists _, _. split; [done|]. split; [done|]. cbn [NewImmutable im_root im_count im_totalSize].
      rewrite (only_pair _ _ _ _ _ _ Hm Hall Hone). apply holds_empty. }
    destruct (copy_path_located _ _ _ _ _ _ _ _ _ _ Hloc Hst) as (s1 & np & l' & fs' & -> & Hst1 & Hloc1 & Hfr & Eb & Ea & El).
    cbn [rbind]. destruct (Pop_stack _ _ _ Hst1) as (np' & -> & Hst2). cbn [rbind]. rewrite (At_top _ _ Hst2). cbn [rbind].
    rewrite (At_bottom _ _ Hst2). cbn [rbind]. pose proof (located_sinking _ _ _ _ _ _ _ _ _ _ Hloc1 Hfr) as Hsink. rewrite <- Eb, <- Ea in Hone.
    pose proof (located_fuel _ _ _ _ _ _ Hloc1) as Hsz.
    destruct (remove_ok _ _ _ _ _ _ _ _ (copy_down_ok (enough s1) _ _ _ _ _ _ _ _ _ _ _ Hsink ltac:(unfold enough; lia)) Hone)
      as (s2 & parent & rt & s' & t' & Hcd & Hun & -> & Hk & Hr' & Hp').
    assert (Hcd' : copy_down (enough s1) s1 (Some l') (top fs') (last (map f_loc fs')) = Ok (s2, parent, root t')).
    { rewrite <- Hcd. rewrite root_fill. destruct (last (map f_loc fs')) as [y|] eqn:E; [done|]. apply last_None, map_eq_nil in E. subst fs'.
      destruct fs; [|done]. eapply copy_down_root; [by apply Hloc1|]. cbn [tn_left tn_right].
      destruct a as [|]; [|done]. by destruct b. }
    rewrite Hcd'. cbn [rbind]. rewrite Hun. cbn [rbind]. eexists _, _. split_and!; [done|done|].
    by eapply holds_removed.
Qed.

(** ** [ForEach] *)

(** The pairs up to the first one at which the function returns false. *)
Fixpoint until (fn : bytes -> bytes -> bool) (l : list (bytes * bytes)) : list (bytes * bytes) :=
  match l with
  | [] => []
  | (k, v) :: l => if fn k v then (k, v) :: until fn l else [(k, v)]
  end.

(** A node on the stack with its right subtree. *)
Record item : Type := mkItem {
  i_loc : loc;
  i_key : bytes;
  i_value : bytes;
  i_right : tree;
}.

Definition item_ok (s : store) (i : item) : Prop :=
  rep s (i_right i) /\ exists n, s !! i_loc i = Some n /\ tn_key n = i_key i /\ tn_value n = i_value i /\ tn_right n = root (i_right i).

Definition pending (its : list item) : list (bytes * bytes) :=
  concat (map (fun i => (i_key i, i_value i) :: pairs (i_right i)) its).

Fixpoint spine (t : tree) (its : list item) : list item :=
  match t with
  | Empty => its
  | Tree l k v _ a b => spine a (mkItem l k v b :: its)
  end.

Lemma pending_spine t its : pending (spine t its) = pairs t ++ pending its.
Proof.
  revert its. induction t as [|l k v p a IHa b IHb]; intros its; cbn [spine pairs]; [done|]. rewrite IHa. unfold pending at 1.
  cbn [map concat]. by rewrite <- app_assoc.
Qed.

Lemma push_left_ok fuel s t its parents : rep s t -> (length (locs t) <= fuel)%nat -> Forall (item_ok s) its ->
  stack_of parents (map i_loc its) ->
  exists parents', push_left fuel s (root t) parents = Ok parents' /\ stack_of parents' (map i_loc (spine t its))
    /\ Forall (item_ok s) (spine t its).
Proof.
  revert fuel its parents. induction t as [|l k v p a IHa b _]; intros fuel its parents Hr Hf His Hp; [exists parents; by destruct fuel|].
  cbn [locs length] in Hf. rewrite length_app in Hf. destruct fuel as [|fuel]; [lia|]. destruct Hr as (Hl & Ha & Hb).
  cbn [root push_left spine]. destruct (Push_stack _ _ l Hp) as (parents' & -> & Hp'). cbn [rbind]. rewrite (load_ok _ _ _ Hl). cbn [rbind tn_left].
  apply IHa; [done|lia| |done]. constructor; [|done]. split; [done|]. by eexists.
Qed.

Lemma each_loop_ok fuel s its parents fn : Forall (item_ok s) its -> sorted (pending its) -> (length (pending its) <= fuel)%nat ->
  stack_of parents (map i_loc its) -> each_loop fuel s parents fn = Ok (until fn (pending its)).
Proof.
  revert its parents. induction fuel as [|fuel IH]; intros its parents His Hs Hf Hp; cbn [each_loop]; rewrite (stack_Len _ _ Hp);
    destruct its as [|i its]; try done; cbn [map]; try (cbn in Hf; lia); rewrite len_cons;
    (destruct (Z.ltb_spec 0 (1 + len (map i_loc its))) as [_|H]; [|pose proof (len_nonneg (map i_loc its)); lia]); cbn [negb].
  apply Forall_cons in His as [(Hr & n & Hn & Hk & Hv & Hrt) His]. destruct (Pop_stack _ _ _ Hp) as (parents' & -> & Hp'). cbn [rbind].
  rewrite (load_ok _ _ _ Hn). cbn [rbind]. unfold pending in Hf, Hs |- *. cbn [map concat app length until] in *. fold (pending its) in *.
  apply StronglySorted_inv in Hs as [Hs _]. pose proof Hs as (Hsr & _ & _)%sorted_app. rewrite Hk, Hv, Hrt.
  destruct (fn (i_key i) (i_value i)); [cbn [negb]|done].
  destruct (push_left_ok (enough s) s (i_right i) its parents' Hr ltac:(pose proof (enough_locs s _ Hr Hsr); unfold enough; lia) His Hp')
    as (ps & -> & Hps & His'). cbn [rbind].
  rewrite (IH (spine (i_right i) its) ps His'), pending_spine by (rewrite ?pending_spine; try done; lia). done.
Qed.

Lemma pairs_locs t : length (pairs t) = length (locs t).
Proof. induction t as [|l k v p a IHa b IHb]; [done|]. cbn [pairs locs length]. rewrite !length_app. cbn [length]. lia. Qed.

Lemma forEach_ok s t fn : rep s t -> sorted (pairs t) -> forEach s (root t) fn = Ok (until fn (pairs t)).
Proof.
  intros Hr Hs. unfold forEach. pose proof (enough_locs s t Hr Hs) as Hsz.
  destruct (push_left_ok (enough s) s t [] emptyStack Hr ltac:(unfold enough; lia) (Forall_nil_2 _) emptyStack_of) as (ps & -> & Hps & His).
  cbn [rbind]. pose proof (pending_spine t []) as Hp. unfold pending in Hp at 2. cbn [map concat] in Hp. rewrite app_nil_r in Hp.
  rewrite (each_loop_ok _ s (spine t []) ps fn His), Hp; rewrite ?Hp; try done. rewrite pairs_locs. unfold enough. lia.
Qed.

(** The pairs of a map in the order of the keys. *)
Definition in_order (m : gmap bytes bytes) (l : list (bytes * bytes)) : Prop := sorted l /\ contents l = m.

Lemma in_order_unique m l k : in_order m l -> in_order m k -> l = k.
Proof.
  intros [Hl Hm] [Hk Hm']. assert (Hp : l ≡ₚ k).
  { apply list_to_map_inj; [by apply sorted_keys|by apply sorted_keys|]. unfold contents in *. by rewrite Hm, Hm'. }
  eapply (StronglySorted_unique_strong pair_lt); [|done|done|done].
  intros x y _ _ Hxy Hyx. exfalso. unfold pair_lt in *. by apply (key_lt_ne x.1 x.1); [eapply key_lt_trans|].
Qed.

Lemma holds_forEach s rt c n m : holds s rt c n m ->
  exists l, in_order m l /\ forall fn, forEach s rt fn = Ok (until fn l).
Proof. intros (t & <- & Hr & Hs & Hm & _). exists (pairs t). split; [done|]. intros fn. by apply forEach_ok. Qed.

(** ** Histories *)

(** What a treap shows of its contents. *)
Record view : Type := mkView {
  v_get : bytes -> outcome (option bytes);
  v_has : bytes -> outcome bool;
  v_len : Z;
  v_size : Z;
  v_each : (bytes -> bytes -> bool) -> outcome (list (bytes * bytes));
}.

Definition Immutable_view (s : store) (t : Immutable) : view :=
  mkView (Immutable_Get s t) (Immutable_Has s t) (Immutable_Len t) (Immutable_Size t) (Immutable_ForEach s t).
Definition Mutable_view (s : store) (t : Mutable) : view :=
  mkView (Mutable_Get s t) (Mutable_Has s t) (Mutable_Len t) (Mutable_Size t) (Mutable_ForEach s t).

(** The view of an ordered map. *)
Record shows (w : view) (m : gmap bytes bytes) : Prop := {
  sh_get : forall k, v_get w k = Ok (m !! k);
  sh_has : forall k, v_has w k = Ok (bool_decide (is_Some (m !! k)));
  sh_len : v_len w = int64 (Z.of_nat (size m));
  sh_size : v_size w = uint64 (total_size m);
  sh_each : exists l, in_order m l /\ forall fn, v_each w fn = Ok (until fn l);
}.

Lemma Immutable_shows s t m : holds s (im_root t) (im_count t) (im_totalSize t) m -> shows (Immutable_view s t) m.
Proof.
  intros H. split; cbn; try (intros k; by apply Immutable_Get_ok);
    try (by destruct H as (? & ? & ? & ? & ? & ? & ?)).
  by eapply holds_forEach.
Qed.

Lemma Mutable_shows s t m : holds s (mu_root t) (mu_count t) (mu_totalSize t) m -> shows (Mutable_view s t) m.
Proof.
  intros H. split; cbn; try (intros k; by apply Mutable_Get_ok);
    try (by destruct H as (? & ? & ? & ? & ? & ? & ?)).
  by eapply holds_forEach.
Qed.

Inductive update_op : Type :=
| OpPut (key : bytes) (value : option bytes) (priority : Z)
| OpDelete (key : bytes).

Definition map_apply (o : update_op) (m : gmap bytes bytes) : gmap bytes bytes :=
  match o with
  | OpPut k v _ => <[k := default [] v]> m
  | OpDelete k => delete k m
  end.

Definition Immutable_apply (o : update_op) (s : store) (t : Immutable) : outcome (store * Immutable) :=
  match o with
  | OpPut k v p => Immutable_Put s t k v p
  | OpDelete k => Immutable_Delete s t k
  end.

(** Each step makes a new version from an earlier one, given by its number. *)
Fixpoint Immutable_history (ops : list (nat * update_op)) (s : store) (ts : list Immutable)
    : outcome (store * list Immutable) :=
  match ops with
  | [] => Ok (s, ts)
  | (i, o) :: ops =>
      match ts !! i with
      | None => Immutable_history ops s ts
      | Some t => let! '(s, t) := Immutable_apply o s t in Immutable_history ops s (ts ++ [t])
      end
  end.

Fixpoint map_history (ops : list (nat * update_op)) (ms : list (gmap bytes bytes)) : list (gmap bytes bytes) :=
  match ops with
  | [] => ms
  | (i, o) :: ops =>
      match ms !! i with
      | None => map_history ops ms
      | Some m => map_history ops (ms ++ [map_apply o m])
      end
  end.

Definition version_ok (s : store) (t : Immutable) (m : gmap bytes bytes) : Prop :=
  holds s (im_root t) (im_count t) (im_totalSize t) m.

Lemma Immutable_apply_ok o s t m : version_ok s t m ->
  exists s' t', Immutable_apply o s t = Ok (s', t') /\ s ⊆ s' /\ version_ok s' t' (map_apply o m).
Proof. intros H. destruct o; [by apply Immutable_Put_ok|by apply Immutable_Delete_ok]. Qed.

Lemma Immutable_history_ok ops s ts ms : Forall2 (version_ok s) ts ms ->
  exists s' ts', Immutable_history ops s ts = Ok (s', ts') /\ Forall2 (version_ok s') ts' (map_history ops ms).
Proof.
  revert s ts ms. induction ops as [|[i o] ops IH]; intros s ts ms H; cbn [Immutable_history map_history]; [by eexists _, _|].
  destruct (ts !! i) as [t|] eqn:Et.
  - destruct (Forall2_lookup_l _ _ _ _ _ H Et) as (m & -> & Hm).
    destruct (Immutable_apply_ok o s t m Hm) as (s' & t' & -> & Hs & Ht'). cbn [rbind]. apply IH. apply Forall2_app; [|by constructor].
    eapply Forall2_impl; [exact H|]. intros t1 m1 H1. by eapply holds_keeps.
  - destruct (ms !! i) as [m|] eqn:Em; [|by apply IH].
    destruct (Forall2_lookup_r _ _ _ _ _ H Em) as (t & Et' & _). by rewrite Et' in Et.
Qed.

(** C21: The versions of immutable treaps are ordered maps that never change: for every
    history in which each step puts or deletes a key in any version made so far,
    all operations succeed, and in the final store every version - also the ones
    from which others were made - gives the lookups, the number of items, the total
    size and the ordered iteration (up to where the function stops it) of the map
    that the same history makes. *)
Theorem immutable_treap_versions (ops : list (nat * update_op)) :
  exists s ts, Immutable_history ops ∅ [NewImmutable] = Ok (s, ts)
    /\ Forall2 (fun t m => shows (Immutable_view s t) m) ts (map_history ops [∅]).
Proof.
  destruct (Immutable_history_ok ops ∅ [NewImmutable] [∅]) as (s & ts & Hh & Hall).
  { constructor; [apply holds_empty|constructor]. }
  exists s, ts. split; [done|]. eapply Forall2_impl; [exact Hall|]. intros t m. apply Immutable_shows.
Qed.

Definition Mutable_apply (o : option update_op) (s : store) (t : Mutable) : outcome (store * Mutable) :=
  match o with
  | Some (OpPut k v p) => Mutable_Put s t k v p
  | Some (OpDelete k) => Mutable_Delete s t k
  | None => Ok (s, Mutable_Reset t)
  end.

(** A history of a mutable treap; nothing stands for [Reset]. *)
Fixpoint Mutable_history (ops : list (option update_op)) (s : store) (t : Mutable) : outcome (store * Mutable) :=
  match ops with
  | [] => Ok (s, t)
  | o :: ops => let! '(s, t) := Mutable_apply o s t in Mutable_history ops s t
  end.

Definition map_final (ops : list (option update_op)) : gmap bytes bytes :=
  fold_left (fun m o => match o with Some o => map_apply o m | None => ∅ end) ops ∅.

Lemma Mutable_history_ok ops s t m : holds s (mu_root t) (mu_count t) (mu_totalSize t) m ->
  exists s' t', Mutable_history ops s t = Ok (s', t')
    /\ holds s' (mu_root t') (mu_count t') (mu_totalSize t')
         (fold_left (fun m o => match o with Some o => map_apply o m | None => ∅ end) ops m).
Proof.
  revert s t m. induction ops as [|o ops IH]; intros s t m H; cbn [Mutable_history fold_left]; [by eexists _, _|].
  assert (Ho : exists s' t', Mutable_apply o s t = Ok (s', t') /\ holds s' (mu_root t') (mu_count t') (mu_totalSize t')
            (match o with Some o => map_apply o m | None => ∅ end)).
  { destruct o as [[k v p|k]|]; [by apply Mutable_Put_ok|by apply Mutable_Delete_ok|]. eexists _, _. split; [done|]. apply holds_empty. }
  destruct Ho as (s' & t' & -> & H'). by apply IH.
Qed.

(** C22: A mutable treap is an ordered map: every sequence of puts, deletions and resets,
    whatever priorities are drawn, succeeds and leaves a treap that gives the
    lookups, the number of items, the total size and the ordered iteration of the
    map that the sequence makes. *)
Theorem mutable_treap_map (ops : list (option update_op)) :
  exists s t, Mutable_history ops ∅ NewMutable = Ok (s, t) /\ shows (Mutable_view s t) (map_final ops).
Proof.
  destruct (Mutable_history_ok ops ∅ NewMutable ∅ (holds_empty ∅)) as (s & t & Hh & Hm).
  exists s, t. split; [done|]. by apply Mutable_shows.
Qed.
