(* ===== verification/TreapIter.v ===== *)
(** * Iterators over treaps ([database/internal/treap/treapiter.go])

    The iterator walks a treap in both directions with a stack of parents and,
    after the treap has changed, looks its last key up again.  First its calls are
    related to a cursor that keeps a key instead of a position in the tree; then that
    cursor, where it is used as intended, to a walk over the ordered pairs of the
    range, also when updates of a mutable treap come in between. *)

From Stdlib Require Import ZArith Lia Sorted.
From stdpp Require Import base list numbers option gmap sets sorting.
From S2P Require Import Prelude Treap TreapProofs TreapMaps.

#[local] Open Scope Z_scope.

(** ** The iterator *)

(** [it_mutable]: the iterator belongs to a mutable treap. *)
Record Iterator : Type := mkIterator {
  it_mutable : bool;
  it_root : pointer;
  it_node : pointer;
  it_parents : parentStack;
  it_isNew : bool;
  it_seekKey : option bytes;
  it_startKey : option bytes;
  it_limitKey : option bytes;
}.

Definition Mutable_Iterator (t : Mutable) (startKey limitKey : option bytes) : Iterator :=
  mkIterator true (mu_root t) None emptyStack true None startKey limitKey.
Definition Immutable_Iterator (t : Immutable) (startKey limitKey : option bytes) : Iterator :=
  mkIterator false (im_root t) None emptyStack true None startKey limitKey.

Definition set_position (iter : Iterator) (node : pointer) (parents : parentStack) : Iterator :=
  mkIterator (it_mutable iter) (it_root iter) node parents (it_isNew iter) (it_seekKey iter) (it_startKey iter) (it_limitKey iter).
Definition set_old (iter : Iterator) : Iterator :=
  mkIterator (it_mutable iter) (it_root iter) (it_node iter) (it_parents iter) false (it_seekKey iter) (it_startKey iter) (it_limitKey iter).
Definition set_seekKey (iter : Iterator) (root : pointer) (key : option bytes) : Iterator :=
  mkIterator (it_mutable iter) root (it_node iter) (it_parents iter) (it_isNew iter) key (it_startKey iter) (it_limitKey iter).

Definition outside (startKey limitKey : option bytes) (key : bytes) : bool :=
  match startKey with Some a => Compare key a <? 0 | None => false end
  || match limitKey with Some b => 0 <=? Compare key b | None => false end.

Definition limitIterator (s : store) (iter : Iterator) : outcome (bool * Iterator) :=
  match it_node iter with
  | None => Ok (false, iter)
  | Some _ =>
      let! n := load s (it_node iter) in
      if outside (it_startKey iter) (it_limitKey iter) (tn_key n)
      then Ok (false, set_position iter None (it_parents iter))
      else Ok (true, iter)
  end.

(** The child on the side of greater, or else smaller, keys and the other one. *)
Definition toward (greater : bool) (n : treapNode) : pointer := if greater then tn_right n else tn_left n.
Definition away (greater : bool) (n : treapNode) : pointer := if greater then tn_left n else tn_right n.

(** The loop of [seek]: the stack, the node selected so far with its depth, and
    whether the loop returned at an exact match. *)
Fixpoint seek_loop (fuel : nat) (s : store) (node : pointer) (key : bytes) (exactMatch greater : bool)
    (parents : parentStack) (selected : pointer) (depth : Z) : outcome (parentStack * pointer * Z * bool) :=
  match node, fuel with
  | None, _ => Ok (parents, selected, depth, false)
  | Some _, O => Err OutOfFuel
  | Some _, S fuel =>
      let! parents := parentStack_Push parents node in
      let! n := load s node in
      let compareResult := Compare key (tn_key n) in
      if compareResult <? 0 then
        if greater then seek_loop fuel s (tn_left n) key exactMatch greater parents node (parentStack_Len parents - 1)
        else seek_loop fuel s (tn_left n) key exactMatch greater parents selected depth
      else if 0 <? compareResult then
        if negb greater then seek_loop fuel s (tn_right n) key exactMatch greater parents node (parentStack_Len parents - 1)
        else seek_loop fuel s (tn_right n) key exactMatch greater parents selected depth
      else if exactMatch then
        let! '(_, parents) := parentStack_Pop parents in
        Ok (parents, node, depth, true)
      else seek_loop fuel s (toward greater n) key exactMatch greater parents selected depth
  end.

Fixpoint pop_times (n : nat) (parents : parentStack) : outcome parentStack :=
  match n with
  | O => Ok parents
  | S n => let! '(_, parents) := parentStack_Pop parents in pop_times n parents
  end.

Definition seek (s : store) (iter : Iterator) (key : bytes) (exactMatch greater : bool) : outcome (bool * Iterator) :=
  let! '(parents, node, depth, exact) := seek_loop (enough s) s (it_root iter) key exactMatch greater emptyStack None 0 in
  if exact then limitIterator s (set_position iter node parents)
  else
    let! parents := pop_times (Z.to_nat (parentStack_Len parents - depth)) parents in
    limitIterator s (set_position iter node parents).

(** Down to the node with the smallest (for [greater]) or the greatest key. *)
Fixpoint slide (fuel : nat) (s : store) (greater : bool) (node : loc) (parents : parentStack) : outcome (loc * parentStack) :=
  match fuel with
  | O => Err OutOfFuel
  | S fuel =>
      let! n := load s (Some node) in
      match away greater n with
      | None => Ok (node, parents)
      | Some child => let! parents := parentStack_Push parents (Some node) in slide fuel s greater child parents
      end
  end.

Definition edge (s : store) (iter : Iterator) (greater : bool) : outcome (bool * Iterator) :=
  match it_root iter with
  | None => Ok (false, set_position iter (it_node iter) emptyStack)
  | Some l => let! '(node, parents) := slide (enough s) s greater l emptyStack in Ok (true, set_position iter (Some node) parents)
  end.

Definition Iterator_First (s : store) (iter : Iterator) : outcome (bool * Iterator) :=
  let iter := set_old iter in
  match it_startKey iter with
  | Some key => seek s iter key true true
  | None => edge s iter true
  end.

Definition Iterator_Last (s : store) (iter : Iterator) : outcome (bool * Iterator) :=
  let iter := set_old iter in
  match it_limitKey iter with
  | Some key => seek s iter key false false
  | None => edge s iter false
  end.

(** Up the parents, as long as the node is their child on the given side. *)
Fixpoint climb (fuel : nat) (s : store) (greater : bool) (node : pointer) (parents : parentStack)
    : outcome (pointer * parentStack) :=
  match fuel with
  | O => Err OutOfFuel
  | S fuel =>
      let! '(parent, parents) := parentStack_Pop parents in
      match parent with
      | None => Ok (None, parents)
      | Some _ =>
          let! p := load s parent in
          if bool_decide (toward greater p = node) then climb fuel s greater parent parents else Ok (parent, parents)
      end
  end.

(** What [Next] and [Prev] do once the iterator has been positioned. *)
Definition move (s : store) (iter : Iterator) (greater : bool) : outcome (bool * Iterator) :=
  match it_node iter with
  | None => Ok (false, iter)
  | Some node =>
      match it_seekKey iter with
      | Some key => seek s (set_seekKey iter (it_root iter) None) key false greater
      | None =>
          let! n := load s (Some node) in
          match toward greater n with
          | None =>
              let! '(node, parents) :=
                climb (S (Z.to_nat (parentStack_Len (it_parents iter)))) s greater (Some node) (it_parents iter) in
              limitIterator s (set_position iter node parents)
          | Some child =>
              let! parents := parentStack_Push (it_parents iter) (Some node) in
              let! '(node, parents) := slide (enough s) s greater child parents in
              limitIterator s (set_position iter (Some node) parents)
          end
      end
  end.

Definition Iterator_Next (s : store) (iter : Iterator) : outcome (bool * Iterator) :=
  if it_isNew iter then Iterator_First s iter else move s iter true.

Definition Iterator_Prev (s : store) (iter : Iterator) : outcome (bool * Iterator) :=
  if it_isNew iter then Iterator_Last s iter else move s iter false.

Definition Iterator_Seek (s : store) (iter : Iterator) (key : bytes) : outcome (bool * Iterator) :=
  seek s (set_old iter) key true true.

Definition Iterator_Key (s : store) (iter : Iterator) : outcome (option bytes) :=
  match it_node iter with
  | None => Ok None
  | Some _ => let! n := load s (it_node iter) in Ok (Some (tn_key n))
  end.

Definition Iterator_Value (s : store) (iter : Iterator) : outcome (option bytes) :=
  match it_node iter with
  | None => Ok None
  | Some _ => let! n := load s (it_node iter) in Ok (Some (tn_value n))
  end.

Definition Iterator_Valid (iter : Iterator) : bool := non_nil (it_node iter).

(** [t] is the mutable treap as it is now.  Keys of nodes are slices that are not nil. *)
Definition Iterator_ForceReseek (s : store) (t : Mutable) (iter : Iterator) : outcome Iterator :=
  if negb (it_mutable iter) then Ok iter
  else
    match it_node iter with
    | None => Ok (set_seekKey iter (mu_root t) None)
    | Some _ => let! n := load s (it_node iter) in Ok (set_seekKey iter (mu_root t) (Some (tn_key n)))
    end.

(** ** Cursors over ordered pairs *)

(** What the iterator keeps, without the tree: its last key, and the key a change of
    the treap has made it look up again.  The operations do what the iterator does,
    at the ends of the range and with a key to look up too. *)
Record cursor : Type := mkCursor {
  cu_isNew : bool;
  cu_node : option bytes;
  cu_seekKey : option bytes;
}.

(** The pairs in the direction of travel. *)
Definition ahead (greater : bool) (l : list (bytes * bytes)) : list (bytes * bytes) := if greater then l else reverse l.

Definition beyond (greater : bool) (key k : bytes) : bool :=
  if greater then Compare key k <? 0 else 0 <? Compare key k.

(** The nearest pair at or beyond the key. *)
Definition nearest (greater exactMatch : bool) (key : bytes) (l : list (bytes * bytes)) : option (bytes * bytes) :=
  snd <$> list_find (fun x => beyond greater key x.1 || (exactMatch && bool_decide (key = x.1))) (ahead greater l).

Section cursor_ops.
Context (startKey limitKey : option bytes) (l : list (bytes * bytes)).

(** The cursor is at the pair if the range has it, and nowhere otherwise. *)
Definition arrive (c : cursor) (o : option (bytes * bytes)) : option (bytes * bytes) * cursor :=
  match o with
  | Some x =>
      if outside startKey limitKey x.1 then (None, mkCursor false None (cu_seekKey c))
      else (Some x, mkCursor false (Some x.1) (cu_seekKey c))
  | None => (None, mkCursor false None (cu_seekKey c))
  end.

(** The first or last pair of all, not checked against the range. *)
Definition arrive_edge (c : cursor) (greater : bool) : option (bytes * bytes) * cursor :=
  match head (ahead greater l) with
  | Some x => (Some x, mkCursor false (Some x.1) (cu_seekKey c))
  | None => (None, mkCursor false (cu_node c) (cu_seekKey c))
  end.

Definition cursor_First (c : cursor) : option (bytes * bytes) * cursor :=
  match startKey with
  | Some key => arrive c (nearest true true key l)
  | None => arrive_edge c true
  end.

Definition cursor_Last (c : cursor) : option (bytes * bytes) * cursor :=
  match limitKey with
  | Some key => arrive c (nearest false false key l)
  | None => arrive_edge c false
  end.

Definition cursor_move (c : cursor) (greater : bool) : option (bytes * bytes) * cursor :=
  match cu_node c with
  | None => (None, c)
  | Some k => arrive (mkCursor false (Some k) None) (nearest greater false (default k (cu_seekKey c)) l)
  end.

Definition cursor_Next (c : cursor) : option (bytes * bytes) * cursor :=
  if cu_isNew c then cursor_First c else cursor_move c true.
Definition cursor_Prev (c : cursor) : option (bytes * bytes) * cursor :=
  if cu_isNew c then cursor_Last c else cursor_move c false.
Definition cursor_Seek (c : cursor) (key : bytes) : option (bytes * bytes) * cursor := arrive c (nearest true true key l).
End cursor_ops.

(** The pairs have changed. *)
Definition cursor_reseek (c : cursor) : cursor := mkCursor (cu_isNew c) (cu_node c) (cu_node c).

(** ** Directions *)

Definition near (greater : bool) (a b : tree) : tree := if greater then a else b.
Definition far (greater : bool) (a b : tree) : tree := if greater then b else a.

(** What lies beyond the hole of a zipper, nearest first. *)
Definition rest (greater : bool) (fs : list frame) : list (bytes * bytes) :=
  if greater then afters fs else reverse (befores fs).

Lemma ahead_tree g l k v p a b :
  ahead g (pairs (Tree l k v p a b)) = ahead g (pairs (near g a b)) ++ (k, v) :: ahead g (pairs (far g a b)).
Proof. unfold ahead, near, far. cbn [pairs]. destruct g; [done|]. by rewrite reverse_app, reverse_cons, <- app_assoc. Qed.

Lemma rest_cons g f fs : rest g (f :: fs)
  = if Bool.eqb (f_left f) g then (f_key f, f_value f) :: ahead g (pairs (f_other f)) ++ rest g fs else rest g fs.
Proof.
  unfold rest, ahead. cbn [afters befores]. unfold before, after. destruct g, (f_left f); cbn [Bool.eqb app]; try done.
  - by rewrite app_nil_r.
  - by rewrite !reverse_app.
Qed.

(** ** The order in a direction *)

Lemma beyond_lt g a b : beyond g a b = true <-> if g then key_lt a b else key_lt b a.
Proof. unfold beyond, key_lt. pose proof (Compare_anti a b). destruct g; rewrite Z.ltb_lt; lia. Qed.

Lemma beyond_trans g a b c : beyond g a b = true -> beyond g b c = true -> beyond g a c = true.
Proof. rewrite !beyond_lt. destruct g; [apply key_lt_trans|]. intros H1 H2. by eapply key_lt_trans. Qed.

Lemma beyond_irrefl g a : beyond g a a = false.
Proof. unfold beyond. rewrite (proj2 (Compare_eq a a) eq_refl). by destruct g. Qed.

Lemma beyond_anti g a b : beyond g a b = true -> beyond g b a = false.
Proof.
  intros H. apply not_true_iff_false. intros H'. pose proof (beyond_trans g a b a H H') as Hc. by rewrite beyond_irrefl in Hc.
Qed.

Lemma beyond_total g a b : beyond g a b = false -> a <> b -> beyond g b a = true.
Proof.
  intros H Hne. pose proof (Compare_anti a b). assert (Compare a b <> 0) by (by rewrite Compare_eq).
  unfold beyond in *. destruct g; rewrite ?Z.ltb_lt, ?Z.ltb_ge in *; lia.
Qed.

(** The pairs on both sides of a node. *)
Lemma node_sides g fs l k v p a b : sorted (pairs (fill fs (Tree l k v p a b))) ->
  Forall (fun x => beyond g x.1 k = true) (pairs (near g a b)) /\ Forall (fun x => beyond g k x.1 = true) (pairs (far g a b)).
Proof.
  rewrite pairs_fill. intros (_ & (Hs & _ & _)%sorted_app & _)%sorted_app. cbn [pairs] in Hs.
  apply sorted_mid in Hs as (_ & _ & Ha & Hb & _). unfold near, far. setoid_rewrite beyond_lt.
  destruct g; split; by eapply Forall_impl; eauto.
Qed.

(** ** Searching the nearest pair *)

Definition wanted (greater exactMatch : bool) (key : bytes) (x : bytes * bytes) : bool :=
  beyond greater key x.1 || (exactMatch && bool_decide (key = x.1)).

Lemma nearest_split g e key l past next : ahead g l = past ++ next ->
  Forall (fun x => wanted g e key x = false) past -> (forall x, head next = Some x -> wanted g e key x = true) ->
  nearest g e key l = head next.
Proof.
  intros Hl Hp Hn. unfold nearest. rewrite Hl. clear Hl. induction Hp as [|x past Hx _ IH]; cbn [app].
  - destruct next as [|y next]; [done|]. cbn [list_find head]. rewrite decide_True; [done|]. fold (wanted g e key y). by rewrite Hn.
  - cbn [list_find]. rewrite decide_False; [|unfold wanted in Hx; rewrite Hx; by intros []]. rewrite <- IH. by destruct (list_find _ _) as [[]|].
Qed.

(** The frame of a node when the search goes to its nearer, or else its farther side. *)
Definition near_frame (greater : bool) (l : loc) (k v : bytes) (p : Z) (a b : tree) : frame :=
  mkFrame greater l k v p (far greater a b).
Definition far_frame (greater : bool) (l : loc) (k v : bytes) (p : Z) (a b : tree) : frame :=
  mkFrame (negb greater) l k v p (near greater a b).

(** Where the search of [seek] ends. *)
Fixpoint locate (greater exactMatch : bool) (key : bytes) (fs : list frame) (t : tree) : list frame * tree :=
  match t with
  | Empty => (fs, Empty)
  | Tree l k v p a b =>
      let left := locate greater exactMatch key (mkFrame true l k v p b :: fs) a in
      let right := locate greater exactMatch key (mkFrame false l k v p a :: fs) b in
      if beyond greater key k then if greater then left else right
      else if exactMatch && bool_decide (key = k) then (fs, t)
      else if greater then right else left
  end.

Lemma locate_tree g e key fs l k v p a b :
  locate g e key fs (Tree l k v p a b)
  = if beyond g key k then locate g e key (near_frame g l k v p a b :: fs) (near g a b)
    else if e && bool_decide (key = k) then (fs, Tree l k v p a b)
    else locate g e key (far_frame g l k v p a b :: fs) (far g a b).
Proof. cbn [locate]. unfold near_frame, far_frame, near, far. by destruct g. Qed.

Lemma plug_near g l k v p a b : plug (near g a b) (near_frame g l k v p a b) = Tree l k v p a b.
Proof. unfold plug, near_frame, near, far. by destruct g. Qed.
Lemma plug_far g l k v p a b : plug (far g a b) (far_frame g l k v p a b) = Tree l k v p a b.
Proof. unfold plug, far_frame, near, far. by destruct g. Qed.

Lemma rest_near g h l k v p a b fs : rest h (near_frame g l k v p a b :: fs)
  = if Bool.eqb g h then (k, v) :: ahead h (pairs (far g a b)) ++ rest h fs else rest h fs.
Proof. by rewrite rest_cons. Qed.
Lemma rest_far g h l k v p a b fs : rest h (far_frame g l k v p a b :: fs)
  = if Bool.eqb (negb g) h then (k, v) :: ahead h (pairs (near g a b)) ++ rest h fs else rest h fs.
Proof. by rewrite rest_cons. Qed.

Lemma tree_ind_near g (P : tree -> Prop) : P Empty ->
  (forall l k v p a b, P (near g a b) -> P (far g a b) -> P (Tree l k v p a b)) -> forall t, P t.
Proof. intros H0 HS t. induction t as [|l k v p a IHa b IHb]; [done|]. apply HS; by destruct g. Qed.

Lemma Forall_ahead g (P : bytes * bytes -> Prop) l : Forall P (ahead g l) <-> Forall P l.
Proof. unfold ahead. destruct g; [done|]. by rewrite Forall_reverse. Qed.

(** The search ends between the pairs that are not wanted and those that are. *)
Record divides (greater exactMatch : bool) (key : bytes) (fs : list frame) : Prop := {
  di_past : Forall (fun x => wanted greater exactMatch key x = false) (rest (negb greater) fs);
  di_rest : Forall (fun x => wanted greater exactMatch key x = true) (rest greater fs);
}.

Lemma divides_near g e key fs l k v p a b : sorted (pairs (fill fs (Tree l k v p a b))) -> divides g e key fs ->
  beyond g key k = true -> divides g e key (near_frame g l k v p a b :: fs).
Proof.
  intros Hs [Hp Hr] Hk. destruct (node_sides g _ _ _ _ _ _ _ Hs) as [_ Hf]. split; rewrite rest_near.
  - by destruct g.
  - rewrite Bool.eqb_reflx. constructor; [unfold wanted; cbn; by rewrite Hk|]. apply Forall_app. split; [|done].
    apply Forall_ahead. eapply Forall_impl; [exact Hf|]. intros x Hx. unfold wanted. by rewrite (beyond_trans g key k x.1 Hk Hx).
Qed.

Lemma divides_far g e key fs l k v p a b : sorted (pairs (fill fs (Tree l k v p a b))) -> divides g e key fs ->
  beyond g key k = false -> e && bool_decide (key = k) = false -> divides g e key (far_frame g l k v p a b :: fs).
Proof.
  intros Hs [Hp Hr] Hk He. destruct (node_sides g _ _ _ _ _ _ _ Hs) as [Hn _]. split; rewrite rest_far; [|by destruct g].
  rewrite Bool.eqb_reflx. constructor; [unfold wanted; cbn; by rewrite Hk, He|]. apply Forall_app. split; [|done].
  apply Forall_ahead. eapply Forall_impl; [exact Hn|]. intros x Hx. cbn in Hx |- *. unfold wanted.
  assert (Hxk : beyond g x.1 key = true).
  { destruct (decide (key = k)) as [->|Hne]; [done|]. eapply beyond_trans; [exact Hx|]. by apply beyond_total. }
  rewrite (beyond_anti _ _ _ Hxk), bool_decide_eq_false_2; [by destruct e|]. intros ->. by rewrite beyond_irrefl in Hxk.
Qed.

Lemma locate_ok g e key t fs : sorted (pairs (fill fs t)) -> divides g e key fs ->
  let '(fs', t') := locate g e key fs t in
  fill fs' t' = fill fs t /\ divides g e key fs' /\ match t' with Empty => True | Tree _ k _ _ _ _ => e = true /\ k = key end.
Proof.
  revert fs. induction t as [|l k v p a b IHn IHf] using (tree_ind_near g); intros fs Hs Hd; [done|]. rewrite locate_tree.
  destruct (beyond g key k) eqn:Ek; [|destruct (e && bool_decide (key = k)) eqn:Ee].
  - pose proof (IHn (near_frame g l k v p a b :: fs)) as IH. rewrite fill_cons, plug_near in IH. apply IH; [done|by apply divides_near].
  - split_and!; [done|done| |]; apply andb_true_iff in Ee as [-> Ee]; [done|]. by apply bool_decide_eq_true in Ee.
  - pose proof (IHf (far_frame g l k v p a b :: fs)) as IH. rewrite fill_cons, plug_far in IH. apply IH; [done|by apply divides_far].
Qed.

Lemma ahead_fill g fs t : ahead g (pairs (fill fs t)) = reverse (rest (negb g) fs) ++ ahead g (pairs t) ++ rest g fs.
Proof.
  rewrite pairs_fill. unfold ahead, rest. destruct g; cbn [negb]; [by rewrite reverse_involutive|]. by rewrite !reverse_app, <- app_assoc.
Qed.

Lemma nearest_locate g e key fs t : sorted (pairs (fill fs t)) -> divides g e key fs ->
  nearest g e key (pairs (fill fs t)) = match (locate g e key fs t).2 with
                                        | Empty => head (rest g (locate g e key fs t).1)
                                        | Tree _ k v _ _ _ => Some (k, v)
                                        end.
Proof.
  intros Hs Hd. pose proof (locate_ok g e key t fs Hs Hd) as H. destruct (locate g e key fs t) as [fs' t']. destruct H as (Hf & [Hp Hr] & Ht).
  cbn [fst snd]. rewrite <- Hf in Hs |- *. destruct t' as [|l k v p a b].
  - apply (nearest_split _ _ _ _ (reverse (rest (negb g) fs'))).
    + rewrite ahead_fill. unfold ahead. cbn [pairs]. by destruct g.
    + by apply Forall_reverse.
    + intros x Hx. destruct (rest g fs') as [|y r]; [done|]. simplify_eq/=. by apply Forall_cons in Hr as [? _].
  - destruct Ht as [-> ->]. destruct (node_sides g _ _ _ _ _ _ _ Hs) as [Hn _].
    apply (nearest_split _ _ _ _ (reverse (rest (negb g) fs') ++ ahead g (pairs (near g a b))) ((key, v) :: ahead g (pairs (far g a b)) ++ rest g fs')).
    + rewrite ahead_fill, ahead_tree. by rewrite <- !app_assoc.
    + apply Forall_app. split; [by apply Forall_reverse|]. apply Forall_ahead. eapply Forall_impl; [exact Hn|]. intros x Hx. cbn in Hx.
      unfold wanted. rewrite (beyond_anti _ _ _ Hx), bool_decide_eq_false_2; [done|]. intros ->. by rewrite beyond_irrefl in Hx.
    + intros x Hx. cbn [head] in Hx. simplify_eq. unfold wanted. cbn. rewrite bool_decide_eq_true_2 by done. by rewrite orb_true_r.
Qed.

(** ** Turning points *)

(** The innermost node of the way down at which the search went to the nearer side. *)
Fixpoint turn (greater : bool) (fs : list frame) : option (frame * list frame) :=
  match fs with
  | [] => None
  | f :: fs => if Bool.eqb (f_left f) greater then Some (f, fs) else turn greater fs
  end.

Lemma turn_rest g fs : head (rest g fs) = match turn g fs with Some (f, _) => Some (f_key f, f_value f) | None => None end.
Proof. induction fs as [|f fs IH]; [by destruct g|]. rewrite rest_cons. cbn [turn]. by destruct (Bool.eqb (f_left f) g). Qed.

Lemma turn_tree g fs f fs0 : turn g fs = Some (f, fs0) -> forall t, exists a b,
  fill fs0 (Tree (f_loc f) (f_key f) (f_value f) (f_priority f) a b) = fill fs t.
Proof.
  induction fs as [|f' fs IH]; cbn [turn]; [done|]. destruct (Bool.eqb _ _) eqn:E.
  - intros ? t. simplify_eq. eexists _, _. rewrite <- plug_sides. done.
  - intros H t. exact (IH H (plug t f')).
Qed.

Lemma turn_suffix g fs f fs0 : turn g fs = Some (f, fs0) -> exists pre, fs = pre ++ f :: fs0.
Proof.
  induction fs as [|f' fs IH]; cbn [turn]; [done|]. destruct (Bool.eqb _ _); [intros ?; simplify_eq; by exists []|].
  intros (pre & ->)%IH. by exists (f' :: pre).
Qed.

Definition chosen (g : bool) (fs : list frame) : pointer :=
  match turn g fs with Some (f, _) => Some (f_loc f) | None => None end.
Definition above (g : bool) (fs : list frame) : list frame :=
  match turn g fs with Some (_, fs0) => fs0 | None => [] end.

Lemma pop_times_ok parents l k : stack_of parents (l ++ k) -> exists ps, pop_times (length l) parents = Ok ps /\ stack_of ps k.
Proof.
  revert parents. induction l as [|x l IH]; intros parents Hp; cbn [length pop_times]; [by exists parents|].
  destruct (Pop_stack _ _ _ Hp) as (ps & -> & Hps). cbn [rbind]. by apply IH.
Qed.

Lemma above_suffix g fs : exists pre, map f_loc fs = pre ++ map f_loc (above g fs).
Proof.
  unfold above. destruct (turn g fs) as [[f fs0]|] eqn:E; [|exists (map f_loc fs); by rewrite app_nil_r].
  apply turn_suffix in E as (pre & ->). exists (map f_loc pre ++ [f_loc f]). rewrite map_app. cbn [map]. by rewrite <- app_assoc.
Qed.

(** ** Positions *)

Lemma compare_beyond g key k :
  beyond g key k = (if g then Compare key k <? 0 else negb (Compare key k <? 0) && (0 <? Compare key k))
  /\ (bool_decide (key = k) = negb (Compare key k <? 0) && negb (0 <? Compare key k)).
Proof.
  unfold beyond. split.
  - destruct g; [done|]. destruct (Z.ltb_spec (Compare key k) 0), (Z.ltb_spec 0 (Compare key k)); try done; lia.
  - pose proof (Compare_eq key k) as H. apply Bool.eq_iff_eq_true. rewrite bool_decide_eq_true, andb_true_iff, !negb_true_iff, !Z.ltb_ge. rewrite <- H. lia.
Qed.

Lemma seek_loop_ok g e key s t fs fuel parents : rep s t -> (length (locs t) <= fuel)%nat -> stack_of parents (map f_loc fs) ->
  let '(fs', t') := locate g e key fs t in
  exists parents' depth, seek_loop fuel s (root t) key e g parents (chosen g fs) (len (above g fs))
      = Ok (parents', match t' with Empty => chosen g fs' | _ => root t' end, depth, non_nil (root t'))
    /\ stack_of parents' (map f_loc fs') /\ (t' = Empty -> depth = len (above g fs')).
Proof.
  revert fs fuel parents. induction t as [|l k v p a b IHn IHf] using (tree_ind_near g); intros fs fuel parents Hr Hf Hp.
  { exists parents, (len (above g fs)). by destruct fuel. }
  cbn [locs length] in Hf. rewrite length_app in Hf. destruct fuel as [|fuel]; [lia|]. destruct Hr as (Hl & Ha & Hb).
  cbn [root seek_loop]. destruct (Push_stack _ _ l Hp) as (ps & -> & Hps). cbn [rbind]. rewrite (load_ok _ _ _ Hl). cbn [rbind tn_key tn_left tn_right].
  rewrite locate_tree. destruct (compare_beyond g key k) as [Ebe Eeq]. rewrite Ebe, Eeq.
  assert (Hd : parentStack_Len ps - 1 = len (map f_loc fs)) by (rewrite (stack_Len _ _ Hps), len_cons; lia).
  assert (Hln : (length (locs (near g a b)) <= fuel)%nat) by (unfold near; destruct g; lia).
  assert (Hlf : (length (locs (far g a b)) <= fuel)%nat) by (unfold far; destruct g; lia).
  assert (Hrn : rep s (near g a b)) by (by unfold near; destruct g). assert (Hrf : rep s (far g a b)) by (by unfold far; destruct g).
  pose proof (IHn (near_frame g l k v p a b :: fs) fuel ps Hrn Hln Hps) as IH1.
  pose proof (IHf (far_frame g l k v p a b :: fs) fuel ps Hrf Hlf Hps) as IH2.
  assert (Hc1 : chosen g (near_frame g l k v p a b :: fs) = Some l /\ above g (near_frame g l k v p a b :: fs) = fs).
  { unfold chosen, above. cbn [turn near_frame f_left]. by rewrite Bool.eqb_reflx. }
  assert (Hc2 : chosen g (far_frame g l k v p a b :: fs) = chosen g fs /\ above g (far_frame g l k v p a b :: fs) = above g fs).
  { unfold chosen, above. cbn [turn far_frame f_left]. by destruct g. }
  destruct Hc1 as [Hc1 Ha1], Hc2 as [Hc2 Ha2]. rewrite Hc1, Ha1 in IH1. rewrite Hc2, Ha2 in IH2.
  unfold len in Hd. rewrite length_map in Hd. rewrite Hd.
  destruct (Pop_stack _ _ _ Hps) as (ps' & Hpop & Hps').
  destruct (Compare key k <? 0) eqn:E1, (0 <? Compare key k) eqn:E2, g, e; cbn [negb andb] in *; try lia; try exact IH1; try exact IH2;
    rewrite Hpop; cbn [rbind]; by eexists _, _.
Qed.

Lemma rep_unfill s fs t : rep s (fill fs t) -> rep s t /\ ctx s fs (root t).
Proof.
  revert t. induction fs as [|f fs IH]; intros t H; [done|]. rewrite fill_cons in H. apply IH in H as [(Hl & Ho & Ht)%rep_unplug Hc].
  rewrite root_plug in Hc. by cbn [ctx].
Qed.

(** The node and the stack are those of the pair. *)
Definition at_pair (tr : tree) (node : pointer) (parents : parentStack) (o : option (bytes * bytes)) : Prop :=
  match o with
  | None => node = None
  | Some (k, v) => exists fs l p a b, node = Some l /\ fill fs (Tree l k v p a b) = tr /\ stack_of parents (map f_loc fs)
  end.

(** The iterator is over the tree [tr] and the range. *)
Record over (tr : tree) (startKey limitKey : option bytes) (iter : Iterator) (c : cursor) : Prop := {
  ov_root : it_root iter = root tr;
  ov_seekKey : it_seekKey iter = cu_seekKey c;
  ov_startKey : it_startKey iter = startKey;
  ov_limitKey : it_limitKey iter = limitKey;
}.

(** It is where the cursor is. *)
Record tracks (s : store) (tr : tree) (startKey limitKey : option bytes) (iter : Iterator) (c : cursor) : Prop := {
  tk_over : over tr startKey limitKey iter c;
  tk_isNew : it_isNew iter = cu_isNew c;
  tk_node : match cu_node c with
            | None => it_node iter = None
            | Some k => exists l n, it_node iter = Some l /\ s !! l = Some n /\ tn_key n = k
            end;
  tk_position : it_seekKey iter = None -> exists o, at_pair tr (it_node iter) (it_parents iter) o;
}.

(** A call returns what the cursor gives. *)
Definition gives (s : store) (tr : tree) (startKey limitKey : option bytes) (r : outcome (bool * Iterator))
    (oc : option (bytes * bytes) * cursor) : Prop :=
  exists iter, r = Ok (non_nil oc.1, iter) /\ tracks s tr startKey limitKey iter oc.2
    /\ match oc.1 with
       | Some (k, v) => Iterator_Key s iter = Ok (Some k) /\ Iterator_Value s iter = Ok (Some v)
       | None => True
       end.

Lemma at_pair_node s tr node parents k v : rep s tr -> at_pair tr node parents (Some (k, v)) ->
  exists l n, node = Some l /\ s !! l = Some n /\ tn_key n = k /\ tn_value n = v.
Proof.
  intros Hr (fs & l & p & a & b & -> & <- & _). apply rep_unfill in Hr as [(Hl & _) _]. by eexists _, _.
Qed.

(** At a new position. *)
Lemma gives_at s tr a b iter c node parents x (it := set_position iter node parents) :
  rep s tr -> over tr a b iter c -> it_isNew iter = false -> at_pair tr node parents (Some x) ->
  gives s tr a b (Ok (true, it)) (Some x, mkCursor false (Some x.1) (cu_seekKey c)).
Proof.
  intros Hr H Hnew Hat. destruct x as [k v]. destruct (at_pair_node s tr node parents k v Hr Hat) as (l & n & -> & Hn & Hk & Hv).
  exists it. split; [done|]. split.
  { destruct H as [Hrt Hsk Hst Hli]. split; cbn; try done; [by exists l, n|by exists (Some (k, v))]. }
  cbn [fst]. unfold Iterator_Key, Iterator_Value, it. cbn [it_node set_position]. rewrite (load_ok _ _ _ Hn). cbn [rbind]. by rewrite Hk, Hv.
Qed.

Lemma gives_nowhere s tr a b iter c parents (it := set_position iter None parents) :
  over tr a b iter c -> it_isNew iter = false ->
  gives s tr a b (Ok (false, it)) (None, mkCursor false None (cu_seekKey c)).
Proof. intros [Hrt Hsk Hst Hli] Hnew. exists it. split_and!; [done| |done]. split; cbn; try done. by exists None. Qed.

Lemma limit_arrives s tr a b iter c node parents o : rep s tr -> over tr a b iter c -> it_isNew iter = false ->
  at_pair tr node parents o -> gives s tr a b (limitIterator s (set_position iter node parents)) (arrive a b c o).
Proof.
  intros Hr H Hnew Hat. unfold limitIterator, arrive. cbn [it_node set_position it_startKey it_limitKey it_parents].
  rewrite (ov_startKey _ _ _ _ _ H), (ov_limitKey _ _ _ _ _ H). destruct o as [[k v]|].
  - pose proof (at_pair_node s tr node parents k v Hr Hat) as (l & n & -> & Hn & Hk & Hv). rewrite (load_ok _ _ _ Hn). cbn [rbind fst]. rewrite Hk.
    destruct (outside a b k); [by apply (gives_nowhere s tr a b iter c)|]. by apply (gives_at s tr a b iter c (Some l) parents (k, v)).
  - cbn in Hat. subst node. by apply (gives_nowhere s tr a b iter c).
Qed.

Lemma seek_gives s tr a b iter c key e g : rep s tr -> sorted (pairs tr) -> over tr a b iter c -> it_isNew iter = false ->
  gives s tr a b (seek s iter key e g) (arrive a b c (nearest g e key (pairs tr))).
Proof.
  intros Hr Hs H Hnew. unfold seek. rewrite (ov_root _ _ _ _ _ H).
  pose proof (seek_loop_ok g e key s tr [] (enough s) emptyStack Hr ltac:(pose proof (enough_locs s tr Hr Hs); unfold enough; lia) emptyStack_of) as Hloop.
  assert (Hd0 : divides g e key []) by (by destruct g).
  pose proof (locate_ok g e key tr [] Hs Hd0) as Hloc. pose proof (nearest_locate g e key [] tr Hs Hd0) as Hnear. cbn [fill foldl] in Hnear, Hloc.
  rewrite Hnear. destruct (locate g e key [] tr) as [fs t]. destruct Hloop as (ps & depth & Hl & Hps & Hdep), Hloc as (Hfill & _ & _).
  change (chosen g []) with (@None loc) in Hl. change (len (above g [])) with 0 in Hl. rewrite Hl. cbn [rbind fst snd]. destruct t as [|l k v p x y]; cbn [root non_nil].
  - rewrite (Hdep eq_refl), (stack_Len _ _ Hps). destruct (above_suffix g fs) as (pre & Hpre).
    replace (Z.to_nat (len (map f_loc fs) - len (above g fs))) with (length pre)
      by (rewrite Hpre; unfold len; rewrite length_app, length_map; lia).
    rewrite Hpre in Hps. destruct (pop_times_ok _ _ _ Hps) as (ps' & -> & Hps'). cbn [rbind]. apply limit_arrives; try done.
    rewrite turn_rest. unfold chosen, above in *. destruct (turn g fs) as [[f fs0]|] eqn:Et; [|done].
    destruct (turn_tree _ _ _ _ Et Empty) as (x & y & Hxy). exists fs0, (f_loc f), (f_priority f), x, y. by rewrite Hxy.
  - apply limit_arrives; try done. by exists fs, l, p, x, y.
Qed.

(** ** Moves *)

Lemma away_near g k v p a b : away g (mkTreapNode k v p (root a) (root b)) = root (near g a b).
Proof. by destruct g. Qed.
Lemma toward_far g k v p a b : toward g (mkTreapNode k v p (root a) (root b)) = root (far g a b).
Proof. by destruct g. Qed.

Lemma slide_ok g s l k v p a b fs fuel parents :
  rep s (Tree l k v p a b) -> (length (locs (Tree l k v p a b)) <= fuel)%nat -> stack_of parents (map f_loc fs) ->
  exists node ps x, slide fuel s g l parents = Ok (node, ps) /\ head (ahead g (pairs (Tree l k v p a b))) = Some x
    /\ at_pair (fill fs (Tree l k v p a b)) (Some node) ps (Some x).
Proof.
  remember (Tree l k v p a b) as t eqn:Et. revert l k v p a b Et fs fuel parents.
  induction t as [|l' k' v' p' a' b' IH _] using (tree_ind_near g); [done|]. intros l k v p a b Et fs fuel parents Hr Hf Hp. simplify_eq.
  destruct Hr as (Hl & Ha & Hb). cbn [locs length] in Hf. rewrite length_app in Hf. destruct fuel as [|fuel]; [lia|]. cbn [slide].
  rewrite (load_ok _ _ _ Hl). cbn [rbind]. rewrite away_near, ahead_tree. destruct (near g a b) as [|l1 k1 v1 p1 a1 b1] eqn:En; cbn [root].
  - exists l, parents, (k, v). split_and!; [done|by destruct g|]. by exists fs, l, p, a, b.
  - destruct (Push_stack _ _ l Hp) as (ps & -> & Hps). cbn [rbind].
    destruct (IH l1 k1 v1 p1 a1 b1 eq_refl (near_frame g l k v p a b :: fs) fuel ps) as (node & ps' & x & Hs & Hx & Hat).
    + rewrite <- En. by unfold near; destruct g.
    + rewrite <- En. unfold near. destruct g; lia.
    + done.
    + exists node, ps', x. rewrite <- En in Hat. rewrite fill_cons, plug_near in Hat. split_and!; [done| |done].
      destruct (ahead g (pairs (Tree l1 k1 v1 p1 a1 b1))); [done|]. exact Hx.
Qed.

Lemma Pop_empty s : stack_of s [] -> parentStack_Pop s = Ok (None, s).
Proof. intros Hs. unfold parentStack_Pop. by rewrite (so_index _ _ Hs). Qed.

Lemma climb_ok g s fs t fuel parents : ctx s fs (root t) -> root t <> None -> NoDup (locs (fill fs t)) ->
  (length fs < fuel)%nat -> stack_of parents (map f_loc fs) ->
  exists ps, climb fuel s g (root t) parents = Ok (chosen g fs, ps) /\ stack_of ps (map f_loc (above g fs)).
Proof.
  revert t fuel parents. induction fs as [|f fs IH]; intros t fuel parents Hc Ht Hn Hf Hp; (destruct fuel as [|fuel]; [lia|]); cbn [climb].
  { rewrite (Pop_empty _ Hp). by exists parents. }
  destruct (Pop_stack _ _ _ Hp) as (ps & -> & Hps). cbn [rbind]. destruct Hc as (Hl & Ho & Hc). rewrite (load_ok _ _ _ Hl). cbn [rbind].
  unfold chosen, above. cbn [turn]. cbn [length] in Hf. destruct (root t) as [x|] eqn:Ex; [|done].
  assert (Hx : root (f_other f) <> Some x).
  { apply root_not_in. rewrite locs_fill in Hn. unfold ctx_locs in Hn. cbn [map concat] in Hn. apply NoDup_app in Hn as (_ & Hn & _).
    intros Hin. apply (Hn x); [destruct t; simplify_eq/=; by apply elem_of_cons; left|]. apply elem_of_app. left. by apply elem_of_cons; right. }
  destruct (Bool.eqb (f_left f) g) eqn:Eg.
  - rewrite bool_decide_eq_false_2; [by exists ps|]. apply Bool.eqb_prop in Eg as <-. unfold toward, frame_node. by destruct (f_left f).
  - rewrite bool_decide_eq_true_2; [|apply Bool.eqb_false_iff in Eg; unfold toward, frame_node; by destruct (f_left f), g].
    pose proof (IH (plug t f) fuel ps) as IH1. rewrite root_plug in IH1. apply IH1; try done. lia.
Qed.

Lemma ahead_sides g l past k v next : sorted l -> ahead g l = past ++ (k, v) :: next ->
  Forall (fun x => beyond g x.1 k = true) past /\ Forall (fun x => beyond g k x.1 = true) next.
Proof.
  intros Hs Hl. setoid_rewrite beyond_lt. unfold ahead in Hl. destruct g.
  - rewrite Hl in Hs. apply sorted_mid in Hs as (_ & _ & Hp & Hn & _). done.
  - apply (f_equal reverse) in Hl. rewrite reverse_involutive, reverse_app, reverse_cons, <- app_assoc in Hl. cbn [app] in Hl.
    rewrite Hl in Hs. apply sorted_mid in Hs as (_ & _ & Hn & Hp & _). rewrite Forall_reverse in Hn, Hp. done.
Qed.

(** The nearest pair from the position of a node. *)
Lemma nearest_node g fs l k v p a b : sorted (pairs (fill fs (Tree l k v p a b))) ->
  nearest g false k (pairs (fill fs (Tree l k v p a b))) = head (ahead g (pairs (far g a b)) ++ rest g fs).
Proof.
  intros Hs. assert (Hl : ahead g (pairs (fill fs (Tree l k v p a b)))
    = (reverse (rest (negb g) fs) ++ ahead g (pairs (near g a b))) ++ (k, v) :: ahead g (pairs (far g a b)) ++ rest g fs).
  { rewrite ahead_fill, ahead_tree. by rewrite <- !app_assoc. }
  destruct (ahead_sides _ _ _ _ _ _ Hs Hl) as [Hp Hn].
  apply (nearest_split _ _ _ _ ((reverse (rest (negb g) fs) ++ ahead g (pairs (near g a b))) ++ [(k, v)])).
  - rewrite Hl. by rewrite <- !app_assoc.
  - apply Forall_app. split; [|constructor; [unfold wanted; cbn; by rewrite beyond_irrefl|constructor]].
    eapply Forall_impl; [exact Hp|]. intros x Hx. unfold wanted. cbn in Hx |- *. by rewrite (beyond_anti _ _ _ Hx).
  - intros x Hx. rewrite Forall_forall in Hn. unfold wanted. rewrite Hn; [done|]. by apply head_Some_elem_of in Hx.
Qed.

(** A node without a child on the far side is left upwards. *)
Lemma climb_at g s fs l k v p x y parents (tr := fill fs (Tree l k v p x y)) :
  rep s tr -> sorted (pairs tr) -> stack_of parents (map f_loc fs) -> far g x y = Empty ->
  exists node ps, climb (S (Z.to_nat (parentStack_Len parents))) s g (Some l) parents = Ok (node, ps)
    /\ at_pair tr node ps (nearest g false k (pairs tr)).
Proof.
  intros Hr Hs Hst Hf. unfold tr. rewrite nearest_node, Hf, (stack_Len _ _ Hst) by done.
  pose proof (rep_unfill _ _ _ Hr) as [_ Hctx].
  destruct (climb_ok g s fs (Tree l k v p x y) (S (Z.to_nat (len (map f_loc fs)))) parents) as (ps & Hc & Hps); try done.
  { apply (rep_NoDup s); [done|by apply sorted_keys]. }
  { unfold len. rewrite length_map. lia. }
  exists (chosen g fs), ps. split; [done|]. replace (ahead g (pairs Empty) ++ rest g fs) with (rest g fs) by (by destruct g). rewrite turn_rest.
  unfold chosen, above in *. destruct (turn g fs) as [[f fs0]|] eqn:Et; [|done].
  destruct (turn_tree _ _ _ _ Et (Tree l k v p x y)) as (x' & y' & Hxy). exists fs0, (f_loc f), (f_priority f), x', y'. by rewrite Hxy.
Qed.

(** Otherwise the next node is in the subtree of that child. *)
Lemma slide_at g s fs l k v p x y parents child (tr := fill fs (Tree l k v p x y)) :
  rep s tr -> sorted (pairs tr) -> stack_of parents (l :: map f_loc fs) -> root (far g x y) = Some child ->
  exists node ps, slide (enough s) s g child parents = Ok (node, ps)
    /\ at_pair tr (Some node) ps (nearest g false k (pairs tr)).
Proof.
  intros Hr Hs Hst Hf. pose proof (rep_unfill _ _ _ Hr) as [(_ & Hx & Hy) _].
  destruct (far g x y) as [|l1 k1 v1 p1 x1 y1] eqn:Ef; [done|]. cbn [root] in Hf. injection Hf as ->.
  destruct (slide_ok g s child k1 v1 p1 x1 y1 (far_frame g l k v p x y :: fs) (enough s) parents) as (node & ps & z & Hsl & Hz & Hat).
  - rewrite <- Ef. by unfold far; destruct g.
  - pose proof (enough_locs s tr Hr Hs) as Hsz. unfold tr in Hsz. rewrite locs_fill in Hsz. cbn [locs app length] in Hsz.
    rewrite !length_app in Hsz. rewrite <- Ef. unfold enough, far. destruct g; lia.
  - done.
  - exists node, ps. split; [done|]. unfold tr. rewrite nearest_node, Ef by done.
    rewrite <- Ef in Hat. rewrite fill_cons, plug_far in Hat. destruct (ahead g (pairs (Tree child k1 v1 p1 x1 y1))); [done|].
    cbn [app head] in *. by rewrite Hz.
Qed.

Lemma move_gives s tr a b iter c g : rep s tr -> sorted (pairs tr) -> tracks s tr a b iter c -> it_isNew iter = false ->
  gives s tr a b (move s iter g) (cursor_move a b (pairs tr) c g).
Proof.
  intros Hr Hs H Hnew. unfold move, cursor_move. pose proof (tk_node _ _ _ _ _ _ H) as Hnode. destruct (cu_node c) as [k0|] eqn:Ec.
  2: { rewrite Hnode. exists iter. split_and!; [done|done|done]. }
  destruct Hnode as (l & n & Hl & Hn & Hk0). pose proof (tk_over _ _ _ _ _ _ H) as Hov. pose proof (ov_seekKey _ _ _ _ _ Hov) as Hsk.
  rewrite Hl. destruct (it_seekKey iter) as [key|] eqn:Esk; rewrite <- Hsk; cbn [default from_option].
  { apply (seek_gives s tr a b _ (mkCursor false (Some k0) None)); try done. by destruct Hov. }
  assert (Hov' : over tr a b iter (mkCursor false (Some k0) None)) by (destruct Hov; split; cbn; congruence).
  destruct (tk_position _ _ _ _ _ _ H Esk) as ([[k v]|] & Hat); [|cbn in Hat; congruence].
  destruct Hat as (fs & l' & p & x & y & Hl' & <- & Hst). rewrite Hl in Hl'. injection Hl' as <-.
  pose proof (rep_unfill _ _ _ Hr) as [(Hcell & _) _]. rewrite Hn in Hcell. injection Hcell as ->. cbn [tn_key] in Hk0. subst k0.
  rewrite (load_ok _ _ _ Hn). cbn [rbind]. rewrite toward_far. destruct (root (far g x y)) as [child|] eqn:Ef.
  - destruct (Push_stack _ _ l Hst) as (ps & -> & Hps). cbn [rbind].
    destruct (slide_at g s fs l k v p x y ps child Hr Hs Hps Ef) as (node & ps' & -> & Hat). cbn [rbind]. by apply limit_arrives.
  - apply root_empty in Ef. destruct (climb_at g s fs l k v p x y _ Hr Hs Hst Ef) as (node & ps' & -> & Hat). cbn [rbind]. by apply limit_arrives.
Qed.

Lemma edge_gives s tr a b iter c g : rep s tr -> sorted (pairs tr) -> tracks s tr a b iter c -> it_isNew iter = false ->
  gives s tr a b (edge s iter g) (arrive_edge (pairs tr) c g).
Proof.
  intros Hr Hs H Hnew. pose proof (tk_over _ _ _ _ _ _ H) as Hov. unfold edge, arrive_edge. rewrite (ov_root _ _ _ _ _ Hov).
  destruct tr as [|l k v p x y] eqn:Et; cbn [root].
  - assert (Hh : head (ahead g (pairs Empty)) = None) by (by destruct g). rewrite Hh. eexists. split; [done|]. split; [|done].
    destruct H as [[? ? ? ?] ? Hnode Hpos]. split; cbn; try done. intros Hsk. destruct (Hpos Hsk) as ([[k v]|] & Hat); [|by exists None].
    destruct Hat as (fs & l & p & x & y & _ & Hfill & _). apply (f_equal root) in Hfill. rewrite root_fill in Hfill. by destruct (last _).
  - destruct (slide_ok g s l k v p x y [] (enough s) emptyStack Hr ltac:(pose proof (enough_locs s _ Hr Hs); unfold enough; lia) emptyStack_of)
      as (node & ps & z & -> & -> & Hat). cbn [rbind]. by apply gives_at.
Qed.

(** ** Updates in between *)

(** The nodes keep their keys. *)
Definition keeps_keys (s s' : store) : Prop :=
  forall l n, s !! l = Some n -> exists n', s' !! l = Some n' /\ tn_key n' = tn_key n.

#[export] Instance keeps_keys_refl : Reflexive keeps_keys.
Proof. intros s l n Hl. by exists n. Qed.
#[export] Instance keeps_keys_trans : Transitive keeps_keys.
Proof. intros s1 s2 s3 H12 H23 l n (n2 & H2 & Hk2)%H12. destruct (H23 l n2 H2) as (n3 & H3 & Hk3). exists n3. split; [done|congruence]. Qed.

Lemma alloc_keys s n : keeps_keys s (alloc s n).2.
Proof.
  intros l n' Hl. exists n'. split; [|done]. cbn. rewrite lookup_insert_ne; [done|]. intros <-. apply (alloc_fresh s). by apply elem_of_dom_2 in Hl.
Qed.

Lemma update_keys s p f s' : (forall n, tn_key (f n) = tn_key n) -> update s p f = Ok s' -> keeps_keys s s'.
Proof.
  unfold update. intros Hf H. destruct p as [a|]; [|done]. cbn [unwrap rbind] in H. destruct (s !! a) as [m|] eqn:Ea; [|done].
  cbn [unwrap rbind] in H. simplify_eq. intros l n Hl. destruct (decide (l = a)) as [->|Hne].
  - exists (f n). rewrite lookup_insert_eq, Hf. rewrite Ea in Hl. by simplify_eq.
  - exists n. by rewrite lookup_insert_ne.
Qed.

Lemma relink_keys s p o n s' : relink s p o n = Ok s' -> keeps_keys s s'.
Proof.
  unfold relink. destruct p; [|by intros ?; simplify_eq]. apply update_keys. intros m. by case_bool_decide.
Qed.

Lemma relinkGrandparent_keys s n p g r s' r' : relinkGrandparent s n p g r = Ok (s', r') -> keeps_keys s s'.
Proof.
  unfold relinkGrandparent. destruct g; [|by intros ?; simplify_eq]. intros H. inv_bind H. simplify_eq. by eapply relink_keys.
Qed.

Lemma rotate_child_keys s n c p r i s' r' : rotate_child s n c p r i = Ok (s', r') -> keeps_keys s s'.
Proof.
  unfold rotate_child. intros H. inv_bind H. inv_bind H. apply relinkGrandparent_keys in H. etransitivity; [|exact H].
  destruct i; inv_bind Hr0; (etransitivity; [eapply update_keys; [|exact Hr1]|eapply update_keys; [|exact Hr0]]; done).
Qed.

Lemma rotate_up_keys fuel s n ps r s' r' : rotate_up fuel s n ps r = Ok (s', r') -> keeps_keys s s'.
Proof.
  revert s ps r. induction fuel as [|fuel IH]; intros s ps r; cbn [rotate_up]; destruct (negb _); try (intros ?; by simplify_eq).
  intros H. inv_bind H. destruct a as [parent ps']. inv_bind H. inv_bind H. destruct (_ <=? _); [by simplify_eq|]. inv_bind H. inv_bind H.
  destruct a2 as [s1 r1]. etransitivity; [by eapply rotate_child_keys|by eapply IH].
Qed.

Lemma move_down_keys fuel s n p r s' p' r' : move_down fuel s n p r = Ok (s', p', r') -> keeps_keys s s'.
Proof.
  revert s p r. induction fuel as [|fuel IH]; intros s p r; cbn [move_down]; intros H; inv_bind H; destruct (negb _); try by simplify_eq.
  inv_bind H. destruct a0 as [c i]. inv_bind H. destruct a0 as [s1 r1]. etransitivity; [by eapply rotate_child_keys|by eapply IH].
Qed.

Lemma Mutable_Put_keys s t k v p s' t' : Mutable_Put s t k v p = Ok (s', t') -> keeps_keys s s'.
Proof.
  unfold Mutable_Put. destruct (mu_root t) as [x|]; cbn [alloc].
  - intros H. inv_bind H. destruct a as [[ps c] [l|]].
    + inv_bind H. inv_bind H. simplify_eq. by eapply update_keys, Hr1.
    + inv_bind H. inv_bind H. inv_bind H. destruct a1 as [s1 r1]. simplify_eq. etransitivity; [apply (alloc_keys s)|].
      etransitivity; [|by eapply rotate_up_keys]. eapply update_keys; [|exact Hr1]. intros n. by destruct (c <? 0).
  - intros H. simplify_eq. apply (alloc_keys s).
Qed.

Lemma Mutable_Delete_keys s t k s' t' : Mutable_Delete s t k = Ok (s', t') -> keeps_keys s s'.
Proof.
  unfold Mutable_Delete. intros H. inv_bind H. destruct a as [[l|] p]; [|by simplify_eq]. inv_bind H. destruct (_ && _); [by simplify_eq|].
  inv_bind H. destruct a0 as [[s1 p1] r1]. inv_bind H. simplify_eq. etransitivity; [by eapply move_down_keys|].
  eapply update_keys; [|exact Hr2]. intros n. cbv beta. by case_bool_decide.
Qed.

Lemma Mutable_apply_keys o s t s' t' : Mutable_apply o s t = Ok (s', t') -> keeps_keys s s'.
Proof.
  destruct o as [[k v p|k]|]; cbn; [apply Mutable_Put_keys|apply Mutable_Delete_keys|]. intros H. by simplify_eq.
Qed.

(** After an update the iterator that has been told so follows the cursor again. *)
Lemma reseek_tracks s s' t tr tr' a b iter c : tracks s tr a b iter c -> it_mutable iter = true -> keeps_keys s s' ->
  root tr' = mu_root t ->
  exists iter', Iterator_ForceReseek s' t iter = Ok iter' /\ tracks s' tr' a b iter' (cursor_reseek c) /\ it_mutable iter' = true.
Proof.
  intros [[Hrt Hsk Hst Hli] Hnew Hnode Hpos] Hmu Hk Hroot. unfold Iterator_ForceReseek. rewrite Hmu. cbn [negb].
  destruct (cu_node c) as [k|] eqn:Ec.
  - destruct Hnode as (l & n & Hl & Hn & <-). destruct (Hk l n Hn) as (n' & Hn' & Hkey). rewrite Hl, (load_ok _ _ _ Hn'). cbn [rbind].
    eexists. split_and!; [done| |done]. split; [split; cbn; by rewrite ?Ec, ?Hkey|done|cbn; rewrite Ec; by exists l, n'|done].
  - rewrite Hnode. eexists. split_and!; [done| |done]. split; [split; cbn; by rewrite ?Ec|done|cbn; by rewrite Ec|cbn; rewrite Hnode; by exists None].
Qed.

(** ** Sessions *)

(** The pairs of a map, sorted by key. *)
Definition pair_le (x y : bytes * bytes) : Prop := Compare x.1 y.1 <= 0.

#[export] Instance pair_le_dec : RelDecision pair_le.
Proof. intros x y. unfold pair_le. apply _. Defined.
#[export] Instance pair_le_total : Total pair_le.
Proof. intros x y. unfold pair_le. pose proof (Compare_anti x.1 y.1). lia. Qed.
#[export] Instance pair_le_trans : Transitive pair_le.
Proof.
  intros x y z Hxy Hyz. unfold pair_le in *.
  destruct (decide (x.1 = y.1)) as [->|Hne]; [done|]. destruct (decide (y.1 = z.1)) as [<-|Hne']; [done|].
  rewrite <- Compare_eq in Hne, Hne'. assert (key_lt x.1 z.1); [|unfold key_lt in *; lia]. apply (key_lt_trans _ y.1); unfold key_lt; lia.
Qed.

Definition ordered (m : gmap bytes bytes) : list (bytes * bytes) := merge_sort pair_le (map_to_list m).

Lemma ordered_in_order m : in_order m (ordered m).
Proof.
  pose proof (merge_sort_Permutation pair_le (map_to_list m)) as Hp. fold (ordered m) in Hp. split.
  - assert (Hnd : NoDup (map fst (ordered m))) by (unfold map; rewrite Hp; apply NoDup_fst_map_to_list).
    pose proof (StronglySorted_merge_sort pair_le (map_to_list m)) as Hs. fold (ordered m) in Hs. clear Hp.
    induction Hs as [|x l Hs IH Hx]; constructor.
    + apply IH. by apply NoDup_cons in Hnd as [_ ?].
    + cbn [map] in Hnd. apply NoDup_cons in Hnd as [Hnin _]. rewrite Forall_forall in Hx |- *. intros y Hy. specialize (Hx y Hy).
      unfold pair_lt, key_lt, pair_le in *. assert (Compare x.1 y.1 <> 0); [|lia]. rewrite Compare_eq. intros Heq. apply Hnin. rewrite Heq.
      by apply list_elem_of_fmap_2.
  - unfold contents. rewrite (list_to_map_proper _ (map_to_list m)); [apply list_to_map_to_list| |done].
    rewrite Hp. apply NoDup_fst_map_to_list.
Qed.

Inductive event : Type :=
| EFirst
| ELast
| ENext
| EPrev
| ESeek (key : bytes)
| EUpdate (o : option update_op).

Definition position (e : event) (s : store) (iter : Iterator) : outcome (bool * Iterator) :=
  match e with
  | EFirst => Iterator_First s iter
  | ELast => Iterator_Last s iter
  | ENext => Iterator_Next s iter
  | EPrev => Iterator_Prev s iter
  | ESeek key => Iterator_Seek s iter key
  | EUpdate _ => Ok (false, iter)
  end.

(** The calls of a user of the iterator: after a call that returns true the key and
    the value are read; an update of the treap is followed by [ForceReseek]. *)
Fixpoint session (es : list event) (s : store) (t : Mutable) (iter : Iterator) : outcome (list (option (bytes * bytes))) :=
  match es with
  | [] => Ok []
  | EUpdate o :: es =>
      let! '(s, t) := Mutable_apply o s t in
      let! iter := Iterator_ForceReseek s t iter in
      session es s t iter
  | e :: es =>
      let! '(ok, iter) := position e s iter in
      let! seen := (if ok then
                      let! k := Iterator_Key s iter in
                      let! v := Iterator_Value s iter in
                      Ok (match k, v with Some k, Some v => Some (k, v) | _, _ => None end)
                    else Ok None) in
      let! rest := session es s t iter in
      Ok (seen :: rest)
  end.

Definition cursor_position (startKey limitKey : option bytes) (e : event) (l : list (bytes * bytes)) (c : cursor)
    : option (bytes * bytes) * cursor :=
  match e with
  | EFirst => cursor_First startKey limitKey l c
  | ELast => cursor_Last startKey limitKey l c
  | ENext => cursor_Next startKey limitKey l c
  | EPrev => cursor_Prev startKey limitKey l c
  | ESeek key => cursor_Seek startKey limitKey l c key
  | EUpdate _ => (None, c)
  end.

Definition map_update (o : option update_op) (m : gmap bytes bytes) : gmap bytes bytes :=
  match o with Some o => map_apply o m | None => ∅ end.

Fixpoint cursor_session (startKey limitKey : option bytes) (es : list event) (m : gmap bytes bytes) (c : cursor)
    : list (option (bytes * bytes)) :=
  match es with
  | [] => []
  | EUpdate o :: es => cursor_session startKey limitKey es (map_update o m) (cursor_reseek c)
  | e :: es => let '(seen, c) := cursor_position startKey limitKey e (ordered m) c in
               seen :: cursor_session startKey limitKey es m c
  end.

(** ** Iterators are cursors *)

Lemma position_gives s tr a b iter c e : (forall o, e <> EUpdate o) -> rep s tr -> sorted (pairs tr) -> tracks s tr a b iter c ->
  gives s tr a b (position e s iter) (cursor_position a b e (pairs tr) c).
Proof.
  intros He Hr Hs H. assert (Hold : tracks s tr a b (set_old iter) (mkCursor false (cu_node c) (cu_seekKey c))).
  { by destruct H as [[? ? ? ?] ? ? ?]. }
  assert (Hfirst : gives s tr a b (Iterator_First s iter) (cursor_First a b (pairs tr) c)).
  { unfold Iterator_First, cursor_First. cbn [it_startKey set_old]. rewrite (ov_startKey _ _ _ _ _ (tk_over _ _ _ _ _ _ H)).
    destruct a as [k|]; [by apply (seek_gives s tr (Some k) b _ _ k true true Hr Hs (tk_over _ _ _ _ _ _ Hold))|].
    by apply (edge_gives s tr None b _ _ true Hr Hs Hold). }
  assert (Hlast : gives s tr a b (Iterator_Last s iter) (cursor_Last a b (pairs tr) c)).
  { unfold Iterator_Last, cursor_Last. cbn [it_limitKey set_old]. rewrite (ov_limitKey _ _ _ _ _ (tk_over _ _ _ _ _ _ H)).
    destruct b as [k|]; [by apply (seek_gives s tr a (Some k) _ _ k false false Hr Hs (tk_over _ _ _ _ _ _ Hold))|].
    by apply (edge_gives s tr a None _ _ false Hr Hs Hold). }
  pose proof (tk_isNew _ _ _ _ _ _ H) as Hnew.
  destruct e as [| | | |key|o]; cbn [position cursor_position]; [done|done| | | |by destruct (He o)].
  - unfold Iterator_Next, cursor_Next. rewrite Hnew. destruct (cu_isNew c) eqn:E; [done|]. by apply move_gives.
  - unfold Iterator_Prev, cursor_Prev. rewrite Hnew. destruct (cu_isNew c) eqn:E; [done|]. by apply move_gives.
  - by apply (seek_gives s tr a b _ _ key true true Hr Hs (tk_over _ _ _ _ _ _ Hold)).
Qed.

Lemma limit_mutable s iter ok iter' : limitIterator s iter = Ok (ok, iter') -> it_mutable iter' = it_mutable iter.
Proof.
  unfold limitIterator. destruct (it_node iter); [|by intros ?; simplify_eq]. intros H. inv_bind H. destruct (outside _ _ _); by simplify_eq.
Qed.

Lemma seek_mutable s iter key e g ok iter' : seek s iter key e g = Ok (ok, iter') -> it_mutable iter' = it_mutable iter.
Proof.
  unfold seek. intros H. inv_bind H. destruct a as [[[ps n] d] x]. destruct x; [by apply limit_mutable in H|]. inv_bind H. by apply limit_mutable in H.
Qed.

Lemma edge_mutable s iter g ok iter' : edge s iter g = Ok (ok, iter') -> it_mutable iter' = it_mutable iter.
Proof. unfold edge. destruct (it_root iter); intros H; [|by simplify_eq]. inv_bind H. destruct a as [n ps]. by simplify_eq. Qed.

Lemma move_mutable s iter g ok iter' : move s iter g = Ok (ok, iter') -> it_mutable iter' = it_mutable iter.
Proof.
  unfold move. destruct (it_node iter); [|by intros ?; simplify_eq]. destruct (it_seekKey iter); [by intros ?%seek_mutable|].
  intros H. inv_bind H. destruct (toward g a); inv_bind H.
  - inv_bind H. destruct a1 as [n ps]. by apply limit_mutable in H.
  - destruct a0 as [n ps]. by apply limit_mutable in H.
Qed.

Lemma position_mutable e s iter ok iter' : position e s iter = Ok (ok, iter') -> it_mutable iter' = it_mutable iter.
Proof.
  assert (Hf : Iterator_First s iter = Ok (ok, iter') -> it_mutable iter' = it_mutable iter).
  { unfold Iterator_First. destruct (it_startKey _); [by intros ?%seek_mutable|by intros ?%edge_mutable]. }
  assert (Hl : Iterator_Last s iter = Ok (ok, iter') -> it_mutable iter' = it_mutable iter).
  { unfold Iterator_Last. destruct (it_limitKey _); [by intros ?%seek_mutable|by intros ?%edge_mutable]. }
  destruct e; cbn [position]; [done|done| | |by intros ?%seek_mutable|by intros ?; simplify_eq].
  - unfold Iterator_Next. destruct (it_isNew iter); [done|apply move_mutable].
  - unfold Iterator_Prev. destruct (it_isNew iter); [done|apply move_mutable].
Qed.

Lemma holds_tree s rt c n m : holds s rt c n m -> exists tr, root tr = rt /\ rep s tr /\ sorted (pairs tr) /\ pairs tr = ordered m.
Proof.
  intros (tr & Hrt & Hr & Hs & Hm & _). exists tr. split_and!; try done. apply (in_order_unique m); [done|apply ordered_in_order].
Qed.

Lemma Mutable_apply_ok o s t m : holds s (mu_root t) (mu_count t) (mu_totalSize t) m ->
  exists s' t', Mutable_apply o s t = Ok (s', t') /\ holds s' (mu_root t') (mu_count t') (mu_totalSize t') (map_update o m).
Proof.
  intros H. destruct o as [[k v p|k]|]; cbn; [by apply Mutable_Put_ok|by apply Mutable_Delete_ok|].
  eexists _, _. split; [done|]. apply holds_empty.
Qed.

Lemma session_ok es s t m tr a b iter c : holds s (mu_root t) (mu_count t) (mu_totalSize t) m ->
  root tr = mu_root t -> rep s tr -> pairs tr = ordered m -> tracks s tr a b iter c -> it_mutable iter = true ->
  session es s t iter = Ok (cursor_session a b es m c).
Proof.
  revert s t m tr iter c. induction es as [|e es IH]; intros s t m tr iter c Hh Hrt Hr Hp H Hmu; [done|].
  assert (Hs : sorted (pairs tr)) by (rewrite Hp; apply ordered_in_order).
  assert (He : (exists o, e = EUpdate o) \/ forall o, e <> EUpdate o) by (destruct e; [right|right|right|right|right|left]; by eauto).
  destruct He as [[o ->]|He].
  - cbn [session cursor_session]. destruct (Mutable_apply_ok o s t m Hh) as (s' & t' & Hap & Hh'). rewrite Hap. cbn [rbind].
    destruct (holds_tree _ _ _ _ _ Hh') as (tr' & Hrt' & Hr' & _ & Hp').
    destruct (reseek_tracks s s' t' tr tr' a b iter c H Hmu (Mutable_apply_keys _ _ _ _ _ Hap) Hrt') as (iter' & -> & H' & Hmu'). cbn [rbind].
    by apply (IH s' t' (map_update o m) tr').
  - pose proof (position_gives s tr a b iter c e He Hr Hs H) as (iter' & Hpos & Htr & Hseen). rewrite Hp in *.
    assert (Hsess : session (e :: es) s t iter
      = let! '(ok, iter) := position e s iter in
        let! seen := (if ok then let! k := Iterator_Key s iter in let! v := Iterator_Value s iter in
                        Ok (match k, v with Some k, Some v => Some (k, v) | _, _ => None end) else Ok None) in
        let! rest := session es s t iter in Ok (seen :: rest)) by (destruct e; try done; by destruct (He o)).
    assert (Hcur : cursor_session a b (e :: es) m c
      = (cursor_position a b e (ordered m) c).1 :: cursor_session a b es m (cursor_position a b e (ordered m) c).2)
      by (destruct e; cbn [cursor_session]; try (by destruct (cursor_position _ _ _ _ _)); by destruct (He o)).
    rewrite Hsess, Hcur. rewrite Hpos. cbn [rbind]. apply position_mutable in Hpos. rewrite Hmu in Hpos.
    pose proof (IH s t m tr iter' _ Hh Hrt Hr Hp Htr Hpos) as Hrest.
    destruct (cursor_position a b e (ordered m) c) as [[[k v]|] c']; cbn [fst snd non_nil] in *; [destruct Hseen as [-> ->]|]; cbn [rbind]; by rewrite Hrest.
Qed.

Lemma iterator_follows (ops : list (option update_op)) (startKey limitKey : option bytes) (es : list event) :
  exists s t, Mutable_history ops ∅ NewMutable = Ok (s, t)
    /\ session es s t (Mutable_Iterator t startKey limitKey)
       = Ok (cursor_session startKey limitKey es (map_final ops) (mkCursor true None None)).
Proof.
  destruct (Mutable_history_ok ops ∅ NewMutable ∅ (holds_empty ∅)) as (s & t & Hh & Hm). exists s, t. split; [done|].
  destruct (holds_tree _ _ _ _ _ Hm) as (tr & Hrt & Hr & _ & Hp). apply (session_ok es s t _ tr); try done.
  split; cbn; try done. by exists None.
Qed.

(** ** Iterators over a range

    What the comments of the iterator promise, on the sorted pairs of the map: before
    the first call, at a key, or exhausted.  [stale]: the map has changed since the
    key was found. *)
Inductive place : Type :=
| Fresh
| At (key : bytes) (stale : bool)
| Exhausted.

Section range.
Context (startKey limitKey : option bytes).

(** From the start key, inclusive, to the limit key, exclusive. *)
Definition inside (x : bytes * bytes) : bool :=
  match startKey with Some a => 0 <=? Compare x.1 a | None => true end
  && match limitKey with Some b => Compare x.1 b <? 0 | None => true end.

Lemma inside_outside x : inside x = negb (outside startKey limitKey x.1).
Proof. unfold inside, outside. rewrite negb_orb. by destruct startKey, limitKey; rewrite ?Z.leb_antisym, ?Z.ltb_antisym, ?negb_involutive. Qed.

(** The pairs of the range, in order. *)
Definition visible (m : gmap bytes bytes) : list (bytes * bytes) := List.filter inside (ordered m).

Definition go (o : option (bytes * bytes)) : option (bytes * bytes) * place :=
  (o, match o with Some x => At x.1 false | None => Exhausted end).

Definition range_step (e : event) (m : gmap bytes bytes) (p : place) : option (bytes * bytes) * place :=
  let first := go (head (visible m)) in
  let last := go (head (reverse (visible m))) in
  match e, p with
  | EFirst, _ | ENext, Fresh => first
  | ELast, _ | EPrev, Fresh => last
  | ENext, At k _ => go (find (fun x => Compare k x.1 <? 0) (visible m))
  | EPrev, At k _ => go (find (fun x => 0 <? Compare k x.1) (reverse (visible m)))
  | ENext, Exhausted | EPrev, Exhausted => go None
  | ESeek key, _ =>
      go (match find (fun x => Compare key x.1 <=? 0) (ordered m) with
          | Some x => if inside x then Some x else None
          | None => None
          end)
  | EUpdate _, At k _ => (None, At k true)
  | EUpdate _, _ => (None, p)
  end.

Fixpoint range_session (es : list event) (m : gmap bytes bytes) (p : place) : list (option (bytes * bytes)) :=
  match es with
  | [] => []
  | EUpdate o :: es => range_session es (map_update o m) (range_step (EUpdate o) m p).2
  | e :: es => let '(seen, p) := range_step e m p in seen :: range_session es m p
  end.

(** After a change of the map the iterator is moved before it is placed anew; and
    when it is placed at an end that no key of the range fixes, the first pair from
    there is in the range. *)
Definition settled (p : place) : bool := match p with At _ stale => negb stale | _ => true end.

Definition end_inside (greater : bool) (m : gmap bytes bytes) : bool :=
  match (if greater then startKey else limitKey), head (ahead greater (ordered m)) with
  | None, Some x => inside x
  | _, _ => true
  end.

Definition legal (e : event) (m : gmap bytes bytes) (p : place) : bool :=
  match e, p with
  | EFirst, _ => settled p && end_inside true m
  | ELast, _ => settled p && end_inside false m
  | ENext, Fresh => end_inside true m
  | EPrev, Fresh => end_inside false m
  | ESeek _, _ => settled p
  | _, _ => true
  end.

Fixpoint legal_session (es : list event) (m : gmap bytes bytes) (p : place) : bool :=
  match es with
  | [] => true
  | e :: es =>
      legal e m p
      && legal_session es (match e with EUpdate o => map_update o m | _ => m end) (range_step e m p).2
  end.

(** *** Searching in the range *)

Lemma list_find_find {A} (P : A -> bool) l : snd <$> list_find (fun x => P x) l = find P l.
Proof.
  induction l as [|x l IH]; [done|]. cbn [list_find find]. case_decide as Hx.
  - apply Is_true_true in Hx. by rewrite Hx.
  - apply Is_true_false in Hx. rewrite Hx, <- IH. by destruct (list_find _ l) as [[]|].
Qed.

Lemma find_ext {A} (P Q : A -> bool) l : (forall x, P x = Q x) -> find P l = find Q l.
Proof. intros H. induction l as [|x l IH]; [done|]. cbn [find]. by rewrite H, IH. Qed.

Lemma find_filter {A} (P Q : A -> bool) l : find Q (List.filter P l) = find (fun x => Q x && P x) l.
Proof. induction l as [|x l IH]; [done|]. cbn [List.filter find]. destruct (P x), (Q x) eqn:Hq; cbn [find andb]; rewrite ?Hq; done. Qed.

Lemma head_filter {A} (P : A -> bool) l : head (List.filter P l) = find P l.
Proof. induction l as [|x l IH]; [done|]. cbn [List.filter find]. by destruct (P x). Qed.

Lemma filter_reverse {A} (P : A -> bool) l : reverse (List.filter P l) = List.filter P (reverse l).
Proof.
  induction l as [|x l IH]; [done|]. rewrite reverse_cons, List.filter_app. cbn [List.filter].
  destruct (P x); rewrite ?reverse_cons, IH, ?app_nil_r; done.
Qed.

(** A search that stops at the first hit, when beyond a hit outside there are only
    pairs outside. *)
Lemma find_inside {A} (Q R : A -> bool) l :
  StronglySorted (fun x y => Q x = true -> R x = false -> R y = false) l ->
  find (fun x => Q x && R x) l = match find Q l with Some x => if R x then Some x else None | None => None end.
Proof.
  induction 1 as [|x l Hs IH Hx]; [done|]. cbn [find]. destruct (Q x) eqn:Hq; cbn [andb]; [|done].
  destruct (R x) eqn:Hr; [done|]. rewrite IH. destruct (find Q l) as [y|] eqn:Hf; [|done].
  apply find_some in Hf as [Hin _]. rewrite Forall_forall in Hx. by rewrite (Hx y (proj2 (list_elem_of_In _ _) Hin) eq_refl eq_refl).
Qed.

Lemma StronglySorted_weaken {A} (R S : A -> A -> Prop) l : (forall x y, R x y -> S x y) -> StronglySorted R l -> StronglySorted S l.
Proof. intros H. induction 1 as [|x l _ IH Hx]; constructor; [done|]. eapply Forall_impl; [exact Hx|]. auto. Qed.

Lemma ahead_sorted g l : sorted l -> StronglySorted (fun x y => beyond g x.1 y.1 = true) (ahead g l).
Proof.
  intros Hs. unfold ahead. destruct g.
  - eapply StronglySorted_weaken; [|exact Hs]. intros x y Hxy. by apply beyond_lt.
  - induction Hs as [|x l Hs IH Hx]; [constructor|]. rewrite reverse_cons. apply StronglySorted_app_2; [|exact IH|repeat constructor].
    intros y z Hy Hz. apply list_elem_of_singleton in Hz as ->. rewrite elem_of_reverse in Hy.
    rewrite Forall_forall in Hx. apply beyond_lt. exact (Hx y Hy).
Qed.

(** The key has passed the end of the range where a walk in the direction starts. *)
Definition entered (greater : bool) (key : bytes) : bool :=
  if greater then match startKey with Some a => negb (Compare key a <? 0) | None => true end
  else match limitKey with Some b => negb (0 <=? Compare key b) | None => true end.

Lemma inside_entered x : inside x = entered true x.1 && entered false x.1.
Proof. rewrite inside_outside. unfold outside, entered. destruct startKey, limitKey; by rewrite ?negb_orb, ?andb_true_r. Qed.

Lemma entered_beyond g k x : entered g k = true -> beyond g k x = true -> entered g x = true.
Proof.
  rewrite beyond_lt. unfold entered. destruct g; [destruct startKey as [a|]|destruct limitKey as [b|]]; try done.
  - rewrite !negb_true_iff, !Z.ltb_ge. intros Ha Hk. apply Z.nlt_ge. intros Hx.
    pose proof (key_lt_trans _ _ _ Hk Hx) as Hc. unfold key_lt in *. lia.
  - rewrite !negb_true_iff, !Z.leb_gt. intros Hb Hk. by apply (key_lt_trans _ k).
Qed.

(** Behind a pair outside the range that has entered it, all pairs are outside. *)
Lemma left_behind g x y : entered g x.1 = true -> inside x = false -> beyond g x.1 y.1 = true -> inside y = false.
Proof.
  intros He Hi Hb. rewrite inside_entered in *. assert (Ho : entered (negb g) x.1 = false).
  { destruct g; [by rewrite He in Hi|]. rewrite He, andb_true_r in Hi. done. }
  assert (Hy : entered (negb g) y.1 = false); [|destruct g; cbn [negb] in Hy; rewrite Hy; by rewrite ?andb_false_r].
  apply not_true_iff_false. intros Hy. apply not_true_iff_false in Ho. apply Ho. apply (entered_beyond _ y.1); [done|].
  apply beyond_lt in Hb. apply beyond_lt. by destruct g.
Qed.

Lemma ahead_visible g m : ahead g (visible m) = List.filter inside (ahead g (ordered m)).
Proof. unfold ahead, visible. destruct g; [done|]. apply filter_reverse. Qed.

Lemma find_range g (Q : bytes * bytes -> bool) m : (forall x, Q x = true -> entered g x.1 = true) ->
  find Q (ahead g (visible m))
  = match find Q (ahead g (ordered m)) with Some x => if inside x then Some x else None | None => None end.
Proof.
  intros HQ. rewrite ahead_visible, find_filter. apply find_inside.
  eapply StronglySorted_weaken; [|apply ahead_sorted, ordered_in_order]. intros x y Hb Hq Hi. by eapply left_behind; eauto.
Qed.

Lemma nearest_find g e key l : nearest g e key l = find (wanted g e key) (ahead g l).
Proof. apply (list_find_find (wanted g e key)). Qed.

(** *** The cursor walks the range *)

Definition follows (m : gmap bytes bytes) (c : cursor) (p : place) : Prop :=
  match p with
  | Fresh => c = mkCursor true None None
  | Exhausted => c = mkCursor false None None
  | At k stale => c = mkCursor false (Some k) (if stale then Some k else None) /\ outside startKey limitKey k = false
      /\ (stale = false -> exists v, (k, v) ∈ ordered m)
  end.

Abbreviation landed o := (match o with Some x => if inside x then Some x else None | None => None end).

Lemma arrive_landed c o : arrive startKey limitKey c o = (landed o, mkCursor false (fst <$> landed o) (cu_seekKey c)).
Proof. unfold arrive. destruct o as [x|]; [|done]. rewrite inside_outside. by destruct (outside _ _ _). Qed.

Lemma follows_landed m o : (forall x, o = Some x -> x ∈ ordered m) ->
  follows m (mkCursor false (fst <$> landed o) None) (go (landed o)).2.
Proof.
  intros Ho. destruct o as [[k v]|]; [|done]. destruct (inside (k, v)) eqn:Hi; [|done]. cbn [go snd follows fmap option_fmap option_map fst].
  split_and!; [done|by rewrite inside_outside in Hi; apply negb_true_iff in Hi|]. intros _. exists v. by apply Ho.
Qed.

Lemma find_ordered g Q m x : find Q (ahead g (ordered m)) = Some x -> x ∈ ordered m.
Proof. intros [Hin _]%find_some. apply list_elem_of_In in Hin. unfold ahead in Hin. destruct g; [done|]. by rewrite elem_of_reverse in Hin. Qed.

Lemma settled_seekKey m c p : settled p = true -> follows m c p -> cu_seekKey c = None.
Proof. destruct p as [|k []|]; cbn; [by intros _ ->|done|by intros _ (-> & _)|by intros _ ->]. Qed.

(** Placed at an end. *)
Lemma end_follows g m c p : settled p = true -> end_inside g m = true -> follows m c p ->
  let r := if g then cursor_First startKey limitKey (ordered m) c else cursor_Last startKey limitKey (ordered m) c in
  let o := head (ahead g (visible m)) in r.1 = o /\ follows m r.2 (go o).2.
Proof.
  intros Hp He Hc. pose proof (settled_seekKey m c p Hp Hc) as Hsk. cbv zeta. rewrite ahead_visible, head_filter.
  set (edge_key := if g then startKey else limitKey).
  assert (Hr : (if g then cursor_First startKey limitKey (ordered m) c else cursor_Last startKey limitKey (ordered m) c)
    = match edge_key with Some key => arrive startKey limitKey c (nearest g g key (ordered m)) | None => arrive_edge (ordered m) c g end)
    by (unfold edge_key; by destruct g). rewrite Hr. clear Hr. unfold end_inside in He. fold edge_key in He.
  destruct edge_key as [key|] eqn:Ek.
  - rewrite arrive_landed, nearest_find, Hsk. cbn [fst snd].
    assert (Hq : forall x, wanted g g key x = entered g x.1).
    { intros x. unfold edge_key in Ek. unfold wanted, entered, beyond. destruct g; rewrite Ek; cbn [andb orb].
      - apply eq_true_iff_eq. rewrite orb_true_iff, bool_decide_eq_true, negb_true_iff, Z.ltb_lt, Z.ltb_ge.
        rewrite <- Compare_eq. pose proof (Compare_anti key x.1). lia.
      - rewrite orb_false_r. apply eq_true_iff_eq. rewrite negb_true_iff, Z.ltb_lt, Z.leb_gt. pose proof (Compare_anti key x.1). lia. }
    assert (Hf : find inside (ahead g (ordered m)) = landed (find (wanted g g key) (ahead g (ordered m)))).
    { rewrite <- find_range by (intros x; by rewrite Hq). rewrite ahead_visible, find_filter. apply find_ext. intros x.
      rewrite Hq, inside_entered. by destruct g, (entered true x.1), (entered false x.1). }
    rewrite Hf. split; [done|]. apply follows_landed. intros x. apply find_ordered.
  - unfold arrive_edge. destruct (ahead g (ordered m)) as [|x l] eqn:Hl; cbn [head find fst snd] in *.
    + rewrite Hsk. assert (Hn : cu_node c = None); [|by rewrite Hn].
      destruct p as [|k []|]; cbn in Hc; [by rewrite Hc|done| |by rewrite Hc]. destruct Hc as (_ & _ & Hin).
      destruct (Hin eq_refl) as [v Hv]. assert (Hv' : (k, v) ∈ ahead g (ordered m)) by (unfold ahead; destruct g; [done|by apply elem_of_reverse]).
      rewrite Hl in Hv'. by apply elem_of_nil in Hv'.
    + rewrite He, Hsk. cbn [go fst snd]. split; [done|]. destruct x as [k v]. cbn [follows fst]. split_and!; [done|by rewrite inside_outside in He; apply negb_true_iff in He|].
      intros _. exists v. assert (Hv' : (k, v) ∈ ahead g (ordered m)) by (rewrite Hl; by apply elem_of_cons; left).
      unfold ahead in Hv'. destruct g; [done|by rewrite elem_of_reverse in Hv'].
Qed.

(** Moved from a key. *)
Lemma move_follows g m c k stale : follows m c (At k stale) ->
  let r := cursor_move startKey limitKey (ordered m) c g in
  let o := find (fun x => beyond g k x.1) (ahead g (visible m)) in r.1 = o /\ follows m r.2 (go o).2.
Proof.
  intros (-> & Hk & _). cbv zeta. unfold cursor_move. cbn [cu_node cu_seekKey].
  replace (default k (if stale then Some k else None)) with k by (by destruct stale).
  rewrite arrive_landed, nearest_find. cbn [cu_seekKey fst snd].
  assert (Hf : find (fun x => beyond g k x.1) (ahead g (visible m)) = landed (find (wanted g false k) (ahead g (ordered m)))).
  { rewrite <- find_range.
    - apply find_ext. intros x. unfold wanted. by rewrite orb_false_r.
    - intros x. unfold wanted. rewrite orb_false_r. apply entered_beyond.
      assert (Hi : inside (k, k) = true) by (rewrite inside_outside; cbn [fst]; by rewrite Hk).
      rewrite inside_entered in Hi. cbn [fst] in Hi. apply andb_true_iff in Hi as [? ?]. by destruct g. }
  rewrite Hf. split; [done|]. apply follows_landed. intros x. apply find_ordered.
Qed.

Lemma seek_follows m c p key : settled p = true -> follows m c p ->
  let r := cursor_Seek startKey limitKey (ordered m) c key in
  let o := landed (find (fun x => Compare key x.1 <=? 0) (ordered m)) in r.1 = o /\ follows m r.2 (go o).2.
Proof.
  intros Hp Hc. pose proof (settled_seekKey m c p Hp Hc) as Hsk. cbv zeta. unfold cursor_Seek.
  rewrite arrive_landed, nearest_find, Hsk. cbn [fst snd].
  rewrite (find_ext (wanted true true key) (fun x => Compare key x.1 <=? 0)).
  - split; [done|]. apply follows_landed. intros x. apply (find_ordered true).
  - intros x. unfold wanted, beyond. cbn [andb]. apply eq_true_iff_eq. rewrite orb_true_iff, bool_decide_eq_true, Z.ltb_lt, Z.leb_le, <- Compare_eq. lia.
Qed.

Lemma step_follows e m c p : (forall o, e <> EUpdate o) -> legal e m p = true -> follows m c p ->
  let r := cursor_position startKey limitKey e (ordered m) c in r.1 = (range_step e m p).1 /\ follows m r.2 (range_step e m p).2.
Proof.
  intros He Hl Hc. cbv zeta. assert (Hset : match e, p with ENext, Fresh | EPrev, Fresh => settled p = true | _, _ => True end) by (by destruct e, p).
  destruct e as [| | | |key|o]; cbn [cursor_position legal] in *; [| | | | |by destruct (He o)].
  - apply andb_true_iff in Hl as [Hp Hl]. exact (end_follows true m c p Hp Hl Hc).
  - apply andb_true_iff in Hl as [Hp Hl]. exact (end_follows false m c p Hp Hl Hc).
  - destruct p as [|k stale|]; unfold cursor_Next.
    + pose proof (end_follows true m c Fresh Hset Hl Hc) as H. cbn in Hc. subst c. exact H.
    + pose proof (move_follows true m c k stale Hc) as H. destruct Hc as (-> & _). exact H.
    + cbn in Hc. by subst c.
  - destruct p as [|k stale|]; unfold cursor_Prev.
    + pose proof (end_follows false m c Fresh Hset Hl Hc) as H. cbn in Hc. subst c. exact H.
    + pose proof (move_follows false m c k stale Hc) as H. destruct Hc as (-> & _). exact H.
    + cbn in Hc. by subst c.
  - pose proof (seek_follows m c p key) as H. destruct p; exact (H Hl Hc).
Qed.

Lemma reseek_follows m m' c p o : follows m c p -> follows m' (cursor_reseek c) (range_step (EUpdate o) m p).2.
Proof. destruct p as [|k stale|]; cbn; [by intros ->| |by intros ->]. intros (-> & Hk & _). by split_and!. Qed.

Lemma session_follows es m c p : legal_session es m p = true -> follows m c p ->
  cursor_session startKey limitKey es m c = range_session es m p.
Proof.
  revert m c p. induction es as [|e es IH]; intros m c p Hl Hc; [done|]. cbn [legal_session] in Hl. apply andb_true_iff in Hl as [Hle Hl].
  assert (He : (exists o, e = EUpdate o) \/ forall o, e <> EUpdate o) by (destruct e; [right|right|right|right|right|left]; by eauto).
  destruct He as [[o ->]|He]; [by apply IH; [|eapply reseek_follows]|].
  destruct (step_follows e m c p He Hle Hc) as [H1 H2].
  assert (Hcur : cursor_session startKey limitKey (e :: es) m c
    = (cursor_position startKey limitKey e (ordered m) c).1
      :: cursor_session startKey limitKey es m (cursor_position startKey limitKey e (ordered m) c).2)
    by (destruct e; cbn [cursor_session]; try (by destruct (cursor_position _ _ _ _ _)); by destruct (He o)).
  assert (Hran : range_session (e :: es) m p = (range_step e m p).1 :: range_session es m (range_step e m p).2)
    by (destruct e; cbn [range_session]; try (by destruct (range_step _ _ _)); by destruct (He o)).
  rewrite Hcur, Hran, H1. f_equal. apply IH; [|done]. destruct e; try exact Hl. by destruct (He o).
Qed.

End range.

(** C23: An iterator of a mutable treap walks the pairs of its range in order, also
    when updates come in between.  For every treap and every range, take a sequence
    of First, Last, Next, Prev, Seek and updates, each followed by ForceReseek, in
    which First, Last and Seek are not called between an update and the next move,
    and in which the iterator is put at an end of the map (First, or Next when new,
    without a start key; Last, or Prev when new, without a limit key) only when the
    pair at that end is in the range or there is none.  Then all calls succeed: First
    and Last find the first and last pair of the range, Next and Prev the nearest
    pair of the range beyond the last key found, whether the map still has it or not,
    and Seek the first pair not below its key, if that is in the range; an exhausted
    iterator stays so until it is placed anew.  The conditions are needed:
    [first_outside_limit], [first_after_update_forgotten]. *)
Theorem iterator_walks_range (ops : list (option update_op)) (startKey limitKey : option bytes) (es : list event) :
  legal_session startKey limitKey es (map_final ops) Fresh = true ->
  exists s t, Mutable_history ops ∅ NewMutable = Ok (s, t)
    /\ session es s t (Mutable_Iterator t startKey limitKey)
       = Ok (range_session startKey limitKey es (map_final ops) Fresh).
Proof.
  intros Hl. destruct (iterator_follows ops startKey limitKey es) as (s & t & Hh & Hs). exists s, t. split; [done|].
  rewrite Hs. f_equal. by apply session_follows.
Qed.

(** Keys 1 to 5, walked between 2 and 5 while key 2 is deleted and key 3 put anew. *)
Definition walked : list (option update_op) := map (fun k => Some (OpPut [k] None k)) [4; 1; 5; 2; 3].
Definition walk : list event :=
  [ENext; EUpdate (Some (OpDelete [2])); EUpdate (Some (OpPut [3] (Some [9]) 7)); ENext; ENext; ENext; ELast; EPrev; EPrev; ESeek [4]].

Lemma iterator_walks_range_witness :
  exists s t, Mutable_history walked ∅ NewMutable = Ok (s, t)
    /\ session walk s t (Mutable_Iterator t (Some [2]) (Some [5]))
       = Ok (range_session (Some [2]) (Some [5]) walk (map_final walked) Fresh).
Proof. apply (iterator_walks_range walked (Some [2]) (Some [5]) walk). vm_compute. reflexivity. Defined.

Example walk_result :
  range_session (Some [2]) (Some [5]) walk (map_final walked) Fresh
  = [Some ([2], []); Some ([3], [9]); Some ([4], []); None; Some ([4], []); Some ([3], [9]); None; Some ([4], [])].
Proof. vm_compute. reflexivity. Qed.

(** The checks of the range at the ends: [First] of an iterator with only a limit is
    not checked against it. *)
Example first_outside_limit :
  match (let! '(s, t) := Mutable_Put ∅ NewMutable [2] None 1 in
         session [ENext; ENext] s t (Mutable_Iterator t None (Some [1]))) with
  | Ok r => r
  | _ => []
  end = [Some ([2], []); None].
Proof. vm_compute. reflexivity. Qed.

(** [First] of an emptied treap returns false and keeps the iterator where it was. *)
Example first_of_empty_stays :
  match (let! '(s, t) := Mutable_Put ∅ NewMutable [3] None 1 in
         session [ESeek [3]; EUpdate (Some (OpDelete [3])); EFirst; EUpdate (Some (OpPut [4] None 2)); ENext] s t
           (Mutable_Iterator t None None)) with
  | Ok r => r
  | _ => []
  end = [Some ([3], []); None; Some ([4], [])].
Proof. vm_compute. reflexivity. Qed.

(** A change of the treap is not forgotten by [First]: the next move starts from the
    key the iterator had before. *)
Example first_after_update_forgotten :
  match (let! '(s, t) := Mutable_history (map (fun k => Some (OpPut [k] None k)) [1; 2; 3; 4]) ∅ NewMutable in
         session [ESeek [3]; EUpdate (Some (OpDelete [3])); EFirst; ENext] s t (Mutable_Iterator t None None)) with
  | Ok r => r
  | _ => []
  end = [Some ([3], []); Some ([1], []); Some ([4], [])].
Proof. vm_compute. reflexivity. Qed.
