(* ===== verification/FixedPoint.v ===== *)
(** Fixed-point decimals of the contract engine.

    [indexer/common.Decimal] is a struct of a number of places and a big
    integer; the contract templates build its values with struct literals, so
    the struct is defined here.  The operations on it belong to a package that
    is not part of the repository: they are the fields of [FixedOps], and what
    the templates rely on is [FixedLaws].  At equal numbers of places products and
    quotients are cut off after those places; otherwise the laws bound the results
    of multiplication, division and square root and leave their rounding open.
    [fixed_model] is an instance that computes, with its laws proved. *)
From Stdlib Require Import ZArith List Bool Lia.
From stdpp Require Import base list numbers option strings.
From S2P Require Import Prelude.
Open Scope Z_scope.

(** A number of [10 ^ -Precision] units.  A [*Decimal] that may be nil is an
    [option Decimal]; [Clone] copies a value and is not written. *)
Record Decimal : Type := mkDecimal { Precision : Z; Value : Z }.

Class FixedOps : Type := {
  NewDefaultDecimal : Z -> Decimal;
  NewDecimal : Z -> Z -> Decimal;
  NewDecimalFromString : bytes -> Z -> option Decimal;
  Decimal_String : Decimal -> bytes;
  Decimal_Sign : Decimal -> Z;
  Decimal_Cmp : Decimal -> Decimal -> Z;
  DecimalAdd : Decimal -> Decimal -> Decimal;
  DecimalSub : Decimal -> Decimal -> Decimal;
  DecimalMul : Decimal -> Decimal -> Decimal;
  DecimalMulV2 : Decimal -> Decimal -> Decimal;
  DecimalDiv : Decimal -> Decimal -> option Decimal;
  Decimal_Div : Decimal -> Decimal -> option Decimal;
  AddAlignPrecision : Decimal -> Decimal -> Decimal;
  Decimal_Sqrt : Decimal -> Decimal;
  NewPrecision : Decimal -> Z -> Decimal;
  FloorInt64 : Decimal -> option Z;
  CeilInt64 : Decimal -> option Z;
  SatoshiAssetName : bytes;
  ASSET_TYPE_FT : bytes;
}.

(** The places the templates work with. *)
Definition MaxPriceDivisibility : Z := 10.

Definition int64_or_error (x : Z) : option Z :=
  if (- 2 ^ 63 <=? x) && (x <? 2 ^ 63) then Some x else None.

(** An amount within those places that is not negative, and its number of
    [10 ^ -10] units. *)
Definition fine (d : Decimal) : Prop := 0 <= Precision d <= MaxPriceDivisibility /\ 0 <= Value d.
Definition units (d : Decimal) : Z := Value d * 10 ^ (MaxPriceDivisibility - Precision d).

(** The operations are exact where a result is representable at the places it
    is given, and never round an amount up. *)
Class FixedLaws (F : FixedOps) : Prop := {
  default_decimal n : NewDefaultDecimal n = mkDecimal 0 n;
  new_decimal n p : 0 <= p <= MaxPriceDivisibility -> NewDecimal n p = mkDecimal p (n * 10 ^ p);
  sign_value d : Decimal_Sign d = Z.sgn (Value d);
  cmp_value a b : 0 <= Precision a -> 0 <= Precision b ->
    Decimal_Cmp a b = Z.sgn (Value a * 10 ^ Precision b - Value b * 10 ^ Precision a);
  add_exact a b : 0 <= Precision b <= Precision a ->
    DecimalAdd a b = mkDecimal (Precision a) (Value a + Value b * 10 ^ (Precision a - Precision b));
  sub_exact a b : 0 <= Precision b <= Precision a ->
    DecimalSub a b = mkDecimal (Precision a) (Value a - Value b * 10 ^ (Precision a - Precision b));
  add_places a b : fine a -> fine b -> fine (DecimalAdd a b);
  sub_places a b : fine a -> fine b -> units b <= units a -> fine (DecimalSub a b);
  align_exact a b : 0 <= Precision a -> 0 <= Precision b ->
    let p := Z.max (Precision a) (Precision b) in
    AddAlignPrecision a b
    = mkDecimal p (Value a * 10 ^ (p - Precision a) + Value b * 10 ^ (p - Precision b));
  mul_below a b : 0 <= Precision a -> 0 <= Precision b -> 0 <= Value a -> 0 <= Value b ->
    let m := DecimalMul a b in
    0 <= Precision m <= Z.max (Precision a) (Precision b) /\ 0 <= Value m
    /\ Value m * 10 ^ (Precision a + Precision b) <= Value a * Value b * 10 ^ Precision m;
  div_below a b : 0 <= Precision a -> 0 <= Precision b -> 0 <= Value a -> 0 < Value b ->
    exists q, DecimalDiv a b = Some q
    /\ 0 <= Precision q <= Z.max (Precision a) (Precision b) /\ 0 <= Value q
    /\ Value q * Value b * 10 ^ Precision a <= Value a * 10 ^ (Precision q + Precision b);
  mul_same a b : 0 <= Precision a -> Precision b = Precision a -> 0 <= Value a -> 0 <= Value b ->
    DecimalMul a b = mkDecimal (Precision a) (Value a * Value b / 10 ^ Precision a);
  div_same a b : 0 <= Precision a -> Precision b = Precision a -> 0 <= Value a -> 0 < Value b ->
    DecimalDiv a b = Some (mkDecimal (Precision a) (Value a * 10 ^ Precision a / Value b));
  div_nonzero a b : Value b <> 0 -> is_Some (DecimalDiv a b);
  div_method a b : Decimal_Div a b = DecimalDiv a b;
  new_decimal_sign n p : 0 <= p -> Z.sgn (Value (NewDecimal n p)) = Z.sgn n;
  sqrt_places d : 0 <= Precision d -> 0 <= Value d ->
    0 <= Precision (Decimal_Sqrt d) <= Precision d /\ 0 <= Value (Decimal_Sqrt d);
  rescale_up d p : 0 <= Precision d <= p -> p <= MaxPriceDivisibility ->
    NewPrecision d p = mkDecimal p (Value d * 10 ^ (p - Precision d));
  rescale_down d p : 0 <= p <= Precision d ->
    NewPrecision d p = mkDecimal p (Z.quot (Value d) (10 ^ (Precision d - p)));
  floor_value d : 0 <= Precision d -> FloorInt64 d = int64_or_error (Value d / 10 ^ Precision d);
  ceil_value d : 0 <= Precision d -> CeilInt64 d = int64_or_error (- (- Value d / 10 ^ Precision d));
  string_read d p : 0 <= Precision d <= p -> 0 <= Value d ->
    NewDecimalFromString (Decimal_String d) p = Some (mkDecimal p (Value d * 10 ^ (p - Precision d)));
  string_nonempty d : Decimal_String d <> [];
  read_places s p d : NewDecimalFromString s p = Some d -> Precision d = p;
  read_zero p : 0 <= p -> NewDecimalFromString (str "0") p = Some (mkDecimal p 0);
}.

(** ** An instance that computes *)

Fixpoint fixed_digits (n : nat) (v : Z) : bytes :=
  match n with
  | O => []
  | S m => fixed_digits m (v / 10) ++ [48 + v mod 10]
  end.

Fixpoint width (fuel : nat) (v : Z) : nat :=
  match fuel with
  | O => 1%nat
  | S f => if v <? 10 then 1%nat else S (width f (v / 10))
  end.

Definition print_nat (v : Z) : bytes := fixed_digits (width (Z.to_nat (Z.log2 v)) v) v.

Definition model_String (d : Decimal) : bytes :=
  let v := Z.abs (Value d) in
  let scale := 10 ^ Precision d in
  (if Value d <? 0 then [45] else []) ++ print_nat (v / scale)
  ++ (if Precision d =? 0 then [] else 46 :: fixed_digits (Z.to_nat (Precision d)) (v mod scale)).

Definition is_digit (c : Z) : bool := (48 <=? c) && (c <=? 57).

Definition digits_value (s : bytes) : Z := fold_left (fun v c => v * 10 + (c - 48)) s 0.

Fixpoint before_dot (s : bytes) : bytes :=
  match s with
  | [] => []
  | c :: r => if c =? 46 then [] else c :: before_dot r
  end.

Fixpoint after_dot (s : bytes) : bytes :=
  match s with
  | [] => []
  | c :: r => if c =? 46 then r else after_dot r
  end.

Definition read_unsigned (s : bytes) (p : Z) : option Z :=
  let whole := before_dot s in
  let fraction := after_dot s in
  if bool_decide (whole = []) || negb (forallb is_digit (whole ++ fraction)) || (p <? len fraction)
  then None
  else Some (digits_value whole * 10 ^ p + digits_value fraction * 10 ^ (p - len fraction)).

Definition model_read (s : bytes) (p : Z) : option Decimal :=
  match s with
  | 45 :: r => v ← read_unsigned r p; Some (mkDecimal p (- v))
  | _ => v ← read_unsigned s p; Some (mkDecimal p v)
  end.

Definition model_rescale (d : Decimal) (p : Z) : Decimal :=
  if Precision d <=? p then mkDecimal p (Value d * 10 ^ (p - Precision d))
  else mkDecimal p (Z.quot (Value d) (10 ^ (Precision d - p))).

Definition model_align (a b : Decimal) : Decimal :=
  let p := Z.max (Precision a) (Precision b) in
  mkDecimal p (Value a * 10 ^ (p - Precision a) + Value b * 10 ^ (p - Precision b)).

Definition model_mul (a b : Decimal) : Decimal :=
  mkDecimal (Precision a) (Z.quot (Value a * Value b) (10 ^ Precision b)).

Definition model_div (a b : Decimal) : option Decimal :=
  if Value b =? 0 then None
  else Some (mkDecimal (Precision a) (Z.quot (Value a * 10 ^ Precision b) (Value b))).

#[export] Instance fixed_model : FixedOps := {|
  NewDefaultDecimal := mkDecimal 0;
  NewDecimal n p := mkDecimal p (n * 10 ^ p);
  NewDecimalFromString := model_read;
  Decimal_String := model_String;
  Decimal_Sign d := Z.sgn (Value d);
  Decimal_Cmp a b := Z.sgn (Value a * 10 ^ Precision b - Value b * 10 ^ Precision a);
  DecimalAdd a b := mkDecimal (Precision a) (Value a + Value (model_rescale b (Precision a)));
  DecimalSub a b := mkDecimal (Precision a) (Value a - Value (model_rescale b (Precision a)));
  DecimalMul := model_mul;
  DecimalMulV2 a b :=
    mkDecimal (Precision b) (Z.quot (Value (model_rescale a (Precision b)) * Value b) (10 ^ Precision b));
  DecimalDiv := model_div;
  Decimal_Div := model_div;
  AddAlignPrecision := model_align;
  Decimal_Sqrt d := mkDecimal (Precision d) (Z.sqrt (Value d * 10 ^ Precision d));
  NewPrecision := model_rescale;
  FloorInt64 d := int64_or_error (Value d / 10 ^ Precision d);
  CeilInt64 d := int64_or_error (- (- Value d / 10 ^ Precision d));
  SatoshiAssetName := str "::";
  ASSET_TYPE_FT := str "f";
|}.

(** *** Printing and reading *)

Lemma fixed_digits_length n v : length (fixed_digits n v) = n.
Proof.
  revert v. induction n as [|n IH]; intros v; [done|]. simpl. rewrite length_app, IH. simpl. lia.
Qed.

Lemma fixed_digits_digits n v : forallb is_digit (fixed_digits n v) = true.
Proof.
  revert v. induction n as [|n IH]; intros v; [done|]. simpl.
  rewrite forallb_app, IH. simpl. unfold is_digit.
  pose proof (Z.mod_pos_bound v 10). z_test. done.
Qed.

Lemma digits_value_app s c : digits_value (s ++ [c]) = digits_value s * 10 + (c - 48).
Proof. unfold digits_value. by rewrite fold_left_app. Qed.

Lemma digits_value_fixed n v : 0 <= v < 10 ^ Z.of_nat n -> digits_value (fixed_digits n v) = v.
Proof.
  revert v. induction n as [|n IH]; intros v Hv; [unfold digits_value; simpl in *; lia|].
  rewrite Nat2Z.inj_succ, Z.pow_succ_r in Hv by lia. simpl.
  rewrite digits_value_app, IH.
  - pose proof (Z.div_mod v 10). lia.
  - split; [apply Z.div_pos; lia|]. apply Z.div_lt_upper_bound; lia.
Qed.

Lemma width_enough f v : 0 <= v < 2 * 2 ^ Z.of_nat f -> v < 10 ^ Z.of_nat (width f v) /\ (1 <= width f v)%nat.
Proof.
  revert v. induction f as [|f IH]; intros v Hv; [simpl in *; lia|]. simpl width.
  destruct (v <? 10) eqn:Hlt; bool_to_prop; [simpl; lia|].
  rewrite Nat2Z.inj_succ, Z.pow_succ_r in Hv by lia.
  pose proof (Z.pow_pos_nonneg 2 (Z.of_nat f)).
  destruct (IH (v / 10)) as [Hw _].
  { split; [apply Z.div_pos; lia|]. apply Z.div_lt_upper_bound; lia. }
  split; [|lia]. rewrite Nat2Z.inj_succ, Z.pow_succ_r by lia.
  pose proof (Z.div_mod v 10). pose proof (Z.mod_pos_bound v 10). lia.
Qed.

Lemma print_nat_value v : 0 <= v -> digits_value (print_nat v) = v.
Proof.
  intros Hv. apply digits_value_fixed. split; [done|]. apply width_enough. split; [done|].
  rewrite Z2Nat.id by apply Z.log2_nonneg.
  destruct (decide (v = 0)) as [->|Hne]; [done|].
  pose proof (Z.log2_spec v). rewrite <- Z.pow_succ_r by apply Z.log2_nonneg. lia.
Qed.

Lemma print_nat_nonempty v : print_nat v <> [].
Proof.
  unfold print_nat. intros H. apply (f_equal length) in H. rewrite fixed_digits_length in H.
  destruct (Z.to_nat (Z.log2 v)); simpl in H; [lia|]. case_match; simpl in H; lia.
Qed.

Lemma dot_digits s r : forallb is_digit s = true ->
  before_dot (s ++ 46 :: r) = s /\ after_dot (s ++ 46 :: r) = r.
Proof.
  induction s as [|c s IH]; [done|]. simpl. intros H. apply andb_true_iff in H as [Hc Hs].
  unfold is_digit in Hc. bool_to_prop. destruct (IH Hs) as [-> ->].
  z_test. done.
Qed.

Lemma no_dot_digits s : forallb is_digit s = true -> before_dot s = s /\ after_dot s = [].
Proof.
  induction s as [|c s IH]; [done|]. simpl. intros H. apply andb_true_iff in H as [Hc Hs].
  unfold is_digit in Hc. bool_to_prop. destruct (IH Hs) as [-> ->].
  z_test. done.
Qed.

Lemma print_nat_digits v : forallb is_digit (print_nat v) = true.
Proof. apply fixed_digits_digits. Qed.

Lemma read_unsigned_print d p : 0 <= Precision d <= p -> 0 <= Value d ->
  read_unsigned (print_nat (Value d / 10 ^ Precision d)
    ++ (if Precision d =? 0 then []
        else 46 :: fixed_digits (Z.to_nat (Precision d)) (Value d mod 10 ^ Precision d))) p
  = Some (Value d * 10 ^ (p - Precision d)).
Proof.
  intros Hp Hv. set (scale := 10 ^ Precision d).
  assert (Hs : 0 < scale) by (apply Z.pow_pos_nonneg; lia).
  pose proof (Z.mod_pos_bound (Value d) scale Hs) as Hm.
  pose proof (Z.div_mod (Value d) scale ltac:(lia)) as Hdm.
  pose proof (Z.div_pos (Value d) scale Hv Hs) as Hd.
  assert (Hsplit : 10 ^ p = scale * 10 ^ (p - Precision d)).
  { unfold scale. rewrite <- Z.pow_add_r by lia. f_equal. lia. }
  unfold read_unsigned. destruct (Precision d =? 0) eqn:H0; bool_to_prop.
  - rewrite app_nil_r. destruct (no_dot_digits _ (print_nat_digits (Value d / scale))) as [-> ->].
    rewrite bool_decide_false by apply print_nat_nonempty.
    rewrite app_nil_r, print_nat_digits, len_nil. z_test.
    rewrite print_nat_value by done. f_equal. rewrite Hsplit.
    assert (scale = 1) as Hone by (unfold scale; by rewrite H0). rewrite Hone, Z.div_1_r. cbn. lia.
  - destruct (dot_digits _ (fixed_digits (Z.to_nat (Precision d)) (Value d mod scale))
      (print_nat_digits (Value d / scale))) as [-> ->].
    rewrite bool_decide_false by apply print_nat_nonempty.
    rewrite forallb_app, print_nat_digits, fixed_digits_digits.
    assert (len (fixed_digits (Z.to_nat (Precision d)) (Value d mod scale)) = Precision d) as ->.
    { unfold len. rewrite fixed_digits_length. lia. }
    simpl. z_test. rewrite print_nat_value, digits_value_fixed by (rewrite ?Z2Nat.id by lia; done).
    f_equal. rewrite Hsplit. rewrite Hdm at 3. ring.
Qed.

Lemma digits_not_minus s : forallb is_digit s = true -> s <> [] ->
  forall r p, model_read (s ++ r) p = (v ← read_unsigned (s ++ r) p; Some (mkDecimal p v)).
Proof.
  intros H Hne r p. destruct s as [|c s]; [done|]. simpl in H. unfold is_digit in H.
  apply andb_true_iff in H as [Hc _]. bool_to_prop. unfold model_read. simpl.
  repeat (case_match; try done); subst; lia.
Qed.

Lemma quot_below a b : 0 <= a -> 0 < b -> 0 <= Z.quot a b /\ Z.quot a b * b <= a.
Proof.
  intros. rewrite Z.quot_div_nonneg by lia. split; [apply Z.div_pos; lia|].
  pose proof (Z.mul_div_le a b). lia.
Qed.

Lemma pow10_pos n : 0 <= n -> 0 < 10 ^ n.
Proof. apply Z.pow_pos_nonneg. lia. Qed.

(** Cutting places off an amount keeps it below a larger one. *)
Lemma rescaled_below a b : fine a -> fine b -> units b <= units a -> 0 <= Value a - Value (model_rescale b (Precision a)).
Proof.
  intros [Ha ?] [Hb ?] Hu. unfold units in Hu. unfold model_rescale. set (P := MaxPriceDivisibility) in *.
  case_if; simpl.
  - assert (10 ^ (P - Precision b) = 10 ^ (Precision a - Precision b) * 10 ^ (P - Precision a)) as He
      by (rewrite <- Z.pow_add_r by lia; f_equal; lia).
    rewrite He in Hu. pose proof (pow10_pos (P - Precision a)). nia.
  - assert (10 ^ (P - Precision a) = 10 ^ (Precision b - Precision a) * 10 ^ (P - Precision b)) as He
      by (rewrite <- Z.pow_add_r by lia; f_equal; lia).
    rewrite He in Hu. pose proof (pow10_pos (P - Precision b)). pose proof (pow10_pos (Precision b - Precision a)).
    destruct (quot_below (Value b) (10 ^ (Precision b - Precision a))); [lia|lia|].
    assert (Value b <= Value a * 10 ^ (Precision b - Precision a)) by nia. nia.
Qed.

#[export] Instance fixed_model_laws : FixedLaws fixed_model.
Proof.
  split; try done; simpl; unfold model_rescale, model_mul, model_div; intros.
  - by z_test.
  - by z_test.
  - destruct H as [? ?], H0 as [? ?]. split; simpl; [done|].
    pose proof (pow10_pos (Precision a - Precision b)). pose proof (pow10_pos (Precision b - Precision a)).
    case_if; simpl; [nia|]. destruct (quot_below (Value b) (10 ^ (Precision b - Precision a))); lia.
  - destruct H as [? ?], H0 as [? ?]. split; simpl; [done|]. by apply rescaled_below.
  - simpl. pose proof (pow10_pos (Precision b)).
    destruct (quot_below (Value a * Value b) (10 ^ Precision b)) as [? Hle]; [nia|lia|].
    split_and!; [lia|lia|done|]. rewrite Z.pow_add_r by lia.
    pose proof (pow10_pos (Precision a)). nia.
  - z_test. eexists. split; [done|]. simpl. pose proof (pow10_pos (Precision b)).
    destruct (quot_below (Value a * 10 ^ Precision b) (Value b)) as [? Hle]; [nia|lia|].
    split_and!; [lia|lia|done|]. rewrite Z.pow_add_r by lia.
    pose proof (pow10_pos (Precision a)). nia.
  - rewrite H0. pose proof (pow10_pos (Precision a)). by rewrite Z.quot_div_nonneg by nia.
  - z_test. rewrite H0. pose proof (pow10_pos (Precision a)). by rewrite Z.quot_div_nonneg by nia.
  - z_test. done.
  - pose proof (pow10_pos p). rewrite Z.sgn_mul, (Z.sgn_pos (10 ^ p)) by lia. lia.
  - split; [lia|]. apply Z.sqrt_nonneg.
  - by z_test.
  - case_if; [|done]. assert (p = Precision d) as -> by lia.
    rewrite Z.sub_diag, Z.pow_0_r, Z.mul_1_r, Z.quot_1_r. done.
  - unfold model_String. rewrite Z.abs_eq by done. z_test.
    rewrite digits_not_minus by (apply print_nat_digits || apply print_nat_nonempty).
    by rewrite read_unsigned_print.
  - unfold model_String. case_if; [done|]. simpl.
    intros [? _]%app_nil. by eapply print_nat_nonempty.
  - revert H. unfold model_read.
    repeat case_match; intros (v & _ & [= <-])%bind_Some; done.
  - unfold model_read, read_unsigned. simpl. unfold len. simpl. z_test. by rewrite Z.sub_0_r.
Qed.
