(* ===== verification/TemplateState.v ===== *)
(** The state of a template contract and the plan of a settlement
    (contract/template, contract/framework).

    A contract keeps the invocations recorded so far as items, and running data
    with its pool; a settlement rewrites both and collects transfers in a plan.
    The file holds the data, the texts and scripts they are read from - outpoints
    and invocation parameters - and the small functions on amounts.  Slices that
    the code updates in place are updated by index; a pointer to running data is
    the field of the state it points to. *)
From Stdlib Require Import ZArith List Bool Lia.
From stdpp Require Import base list numbers option strings gmap.
From S2P Require Import Prelude ScriptNum Tokenizer ScriptBuilder FixedPoint.
Open Scope Z_scope.

(** ** Constants *)

Definition OrderTypeSell : Z := 1.
Definition OrderTypeBuy : Z := 2.
Definition OrderTypeRefund : Z := 3.
Definition OrderTypeFund : Z := 4.
Definition OrderTypeAddLiquidity : Z := 9.
Definition OrderTypeRemoveLiquidity : Z := 10.
Definition OrderTypeClose : Z := 20.
Definition OrderTypeExchange : Z := 21.

Definition ItemStatusInit : Z := 0.
Definition ItemStatusDealt : Z := 1.
Definition ItemStatusRefunded : Z := 2.
Definition ItemStatusClosedDirectly : Z := 3.
Definition ItemStatusCancelled : Z := 4.

Definition InvokeReasonNormal : bytes := [].
Definition InvokeReasonRefund : bytes := str "refund".
Definition InvokeReasonInvalid : bytes := str "invalid".
Definition InvokeReasonNoEnoughAsset : bytes := str "no enough asset".
Definition InvokeReasonSlippageProtect : bytes := str "slippage protection".

Definition SettlementReasonDeal : bytes := str "deal".
Definition SettlementReasonRefund : bytes := str "refund".

Definition ContractInvokeAPIDefault : bytes := str "default".

(** What a settlement fails with. *)
Inductive SettleError : Type :=
| MissingField
| FieldTooLong
| UnexpectedFields
| ScriptError (e : ErrorCode)
| BadItemID
| EmptyParam
| OrderTypeMismatch
| AssetMismatch
| Int64Error
| FractionalAmount
| AmountOverflow
| MatchError.

(** ** Data *)

Record InvokeItem : Type := mkInvokeItem {
  it_ID : Z;
  it_CallID : bytes;
  it_Action : bytes;
  it_OrderType : Z;
  it_Height : Z;
  it_OrderTime : Z;
  it_AssetName : bytes;
  it_ServiceFee : Z;
  it_GasFee : option Decimal;
  it_Param : bytes;
  it_Address : bytes;
  it_InUtxos : bytes;
  it_InValue : Z;
  it_InAmt : option Decimal;
  it_RetainedAssetA : option Decimal;
  it_RetainedAssetB : option Decimal;
  it_RemainingAmt : option Decimal;
  it_RemainingValue : Z;
  it_OutTxID : bytes;
  it_OutAmt : option Decimal;
  it_OutValue : Z;
  it_Reason : bytes;
  it_Done : Z;
  it_StatsApplied : bool;
}.

Record LimitOrderRunningData : Type := mkLimitOrderData {
  lo_AssetAInPool : option Decimal;
  lo_AssetBInPool : option Decimal;
  lo_TradingReady : bool;
  lo_GasBalance : option Decimal;
  lo_TotalInputAssetA : option Decimal;
  lo_TotalInputAssetB : option Decimal;
  lo_TotalDealAssetA : option Decimal;
  lo_TotalDealAssetB : option Decimal;
  lo_TotalDealCount : Z;
  lo_TotalRefundAssetB : option Decimal;
  lo_Closed : bool;
}.

(** A nil map and an empty one are not distinguished; an LP balance may be a nil
    pointer. *)
Record AMMRunningData : Type := mkAMMData {
  am_AssetAInPool : option Decimal;
  am_AssetBInPool : option Decimal;
  am_RequiredAssetA : option Decimal;
  am_RequiredAssetB : option Decimal;
  am_RequiredK : option Decimal;
  am_K : option Decimal;
  am_TradingReady : bool;
  am_GasBalance : option Decimal;
  am_TotalInputAssetA : option Decimal;
  am_TotalInputAssetB : option Decimal;
  am_TotalDealAssetA : option Decimal;
  am_TotalDealAssetB : option Decimal;
  am_TotalDealCount : Z;
  am_TotalRefundAssetB : option Decimal;
  am_TotalLPTAmt : option Decimal;
  am_LPBalances : gmap bytes (option Decimal);
  am_LPCosts : gmap bytes Z;
  am_Closed : bool;
}.

Record ExchangeRunningData : Type := mkExchangeData {
  ex_AssetAInPool : option Decimal;
  ex_AssetBInPool : option Decimal;
  ex_GasBalance : option Decimal;
  ex_TotalInputAssetA : option Decimal;
  ex_TotalInputAssetB : option Decimal;
  ex_TotalDealAssetA : option Decimal;
  ex_TotalDealAssetB : option Decimal;
  ex_TotalDealCount : Z;
  ex_TotalRefundAssetB : option Decimal;
  ex_Closed : bool;
}.

Record AutopayDelegate : Type := mkAutopayDelegate {
  ad_AmountPerBlock : option Decimal;
  ad_BlobKeyLimit : Z;
  ad_Balance : option Decimal;
  ad_TotalPaid : option Decimal;
  ad_PaidBlockCount : Z;
  ad_LastPayHeight : Z;
  ad_Status : bytes;
}.

Record AutopayRunningData : Type := mkAutopayData {
  ap_GasBalance : option Decimal;
  ap_Closed : bool;
  ap_FeeBalance : option Decimal;
  ap_AutopayStatus : bytes;
  ap_ActiveHeight : Z;
  ap_NextPayHeight : Z;
  ap_LastPayHeight : Z;
  ap_PaidBlockCount : Z;
  ap_AutopayCloseStarted : bool;
  ap_AutopayDelegates : gmap bytes AutopayDelegate;
}.

Record TemplateRuntimeState : Type := mkRuntimeState {
  rs_NextItemID : Z;
  rs_InvokeCount : Z;
  rs_Items : list InvokeItem;
  rs_LimitOrder : option LimitOrderRunningData;
  rs_AMM : option AMMRunningData;
  rs_Exchange : option ExchangeRunningData;
  rs_Autopay : option AutopayRunningData;
}.

Record SettlementDeal : Type := mkDeal {
  sd_BuyItemID : Z;
  sd_SellItemID : Z;
  sd_AssetAmt : bytes;
  sd_SatValue : Z;
  sd_UnitPrice : bytes;
}.

Record SettlementTransfer : Type := mkTransfer {
  st_ItemID : Z;
  st_To : bytes;
  st_AssetName : bytes;
  st_AssetAmt : bytes;
  st_SatValue : Z;
  st_Reason : bytes;
  st_AsFee : bool;
}.

(** The fields that the settlements of the templates fill. *)
Record SettlementPlan : Type := mkPlan {
  sp_Contract : bytes;
  sp_Height : Z;
  sp_Deals : list SettlementDeal;
  sp_Transfers : list SettlementTransfer;
  sp_ItemIDs : list Z;
  sp_Inputs : list (bytes * Z);
}.

(** The templates, by the fields a settlement reads. *)
Record LimitOrderContract : Type := mkLimitOrderContract { lc_AssetName : bytes }.

Record AMMContract : Type := mkAMMContract {
  ac_AssetName : bytes;
  ac_AssetAmt : bytes;
  ac_SatValue : Z;
  ac_K : bytes;
}.

Inductive Contract : Type :=
| ALimitOrder (c : LimitOrderContract)
| AnAMM (c : AMMContract)
| AnExchange (assetA assetB : bytes)
| AnAutopay (feeAsset : bytes).

(** *** Assignments to fields *)

Definition set_RemainingAmt (x : option Decimal) (i : InvokeItem) : InvokeItem :=
  {| it_ID := it_ID i; it_CallID := it_CallID i; it_Action := it_Action i; it_OrderType :=
     it_OrderType i; it_Height := it_Height i; it_OrderTime := it_OrderTime i; it_AssetName :=
     it_AssetName i; it_ServiceFee := it_ServiceFee i; it_GasFee := it_GasFee i; it_Param :=
     it_Param i; it_Address := it_Address i; it_InUtxos := it_InUtxos i; it_InValue :=
     it_InValue i; it_InAmt := it_InAmt i; it_RetainedAssetA := it_RetainedAssetA i;
     it_RetainedAssetB := it_RetainedAssetB i; it_RemainingAmt := x; it_RemainingValue :=
     it_RemainingValue i; it_OutTxID := it_OutTxID i; it_OutAmt := it_OutAmt i; it_OutValue :=
     it_OutValue i; it_Reason := it_Reason i; it_Done := it_Done i; it_StatsApplied :=
     it_StatsApplied i |}.
Definition set_RemainingValue (x : Z) (i : InvokeItem) : InvokeItem :=
  {| it_ID := it_ID i; it_CallID := it_CallID i; it_Action := it_Action i; it_OrderType :=
     it_OrderType i; it_Height := it_Height i; it_OrderTime := it_OrderTime i; it_AssetName :=
     it_AssetName i; it_ServiceFee := it_ServiceFee i; it_GasFee := it_GasFee i; it_Param :=
     it_Param i; it_Address := it_Address i; it_InUtxos := it_InUtxos i; it_InValue :=
     it_InValue i; it_InAmt := it_InAmt i; it_RetainedAssetA := it_RetainedAssetA i;
     it_RetainedAssetB := it_RetainedAssetB i; it_RemainingAmt := it_RemainingAmt i;
     it_RemainingValue := x; it_OutTxID := it_OutTxID i; it_OutAmt := it_OutAmt i; it_OutValue
     := it_OutValue i; it_Reason := it_Reason i; it_Done := it_Done i; it_StatsApplied :=
     it_StatsApplied i |}.
Definition set_OutAmt (x : option Decimal) (i : InvokeItem) : InvokeItem :=
  {| it_ID := it_ID i; it_CallID := it_CallID i; it_Action := it_Action i; it_OrderType :=
     it_OrderType i; it_Height := it_Height i; it_OrderTime := it_OrderTime i; it_AssetName :=
     it_AssetName i; it_ServiceFee := it_ServiceFee i; it_GasFee := it_GasFee i; it_Param :=
     it_Param i; it_Address := it_Address i; it_InUtxos := it_InUtxos i; it_InValue :=
     it_InValue i; it_InAmt := it_InAmt i; it_RetainedAssetA := it_RetainedAssetA i;
     it_RetainedAssetB := it_RetainedAssetB i; it_RemainingAmt := it_RemainingAmt i;
     it_RemainingValue := it_RemainingValue i; it_OutTxID := it_OutTxID i; it_OutAmt := x;
     it_OutValue := it_OutValue i; it_Reason := it_Reason i; it_Done := it_Done i;
     it_StatsApplied := it_StatsApplied i |}.
Definition set_OutValue (x : Z) (i : InvokeItem) : InvokeItem :=
  {| it_ID := it_ID i; it_CallID := it_CallID i; it_Action := it_Action i; it_OrderType :=
     it_OrderType i; it_Height := it_Height i; it_OrderTime := it_OrderTime i; it_AssetName :=
     it_AssetName i; it_ServiceFee := it_ServiceFee i; it_GasFee := it_GasFee i; it_Param :=
     it_Param i; it_Address := it_Address i; it_InUtxos := it_InUtxos i; it_InValue :=
     it_InValue i; it_InAmt := it_InAmt i; it_RetainedAssetA := it_RetainedAssetA i;
     it_RetainedAssetB := it_RetainedAssetB i; it_RemainingAmt := it_RemainingAmt i;
     it_RemainingValue := it_RemainingValue i; it_OutTxID := it_OutTxID i; it_OutAmt :=
     it_OutAmt i; it_OutValue := x; it_Reason := it_Reason i; it_Done := it_Done i;
     it_StatsApplied := it_StatsApplied i |}.
Definition set_Reason (x : bytes) (i : InvokeItem) : InvokeItem :=
  {| it_ID := it_ID i; it_CallID := it_CallID i; it_Action := it_Action i; it_OrderType :=
     it_OrderType i; it_Height := it_Height i; it_OrderTime := it_OrderTime i; it_AssetName :=
     it_AssetName i; it_ServiceFee := it_ServiceFee i; it_GasFee := it_GasFee i; it_Param :=
     it_Param i; it_Address := it_Address i; it_InUtxos := it_InUtxos i; it_InValue :=
     it_InValue i; it_InAmt := it_InAmt i; it_RetainedAssetA := it_RetainedAssetA i;
     it_RetainedAssetB := it_RetainedAssetB i; it_RemainingAmt := it_RemainingAmt i;
     it_RemainingValue := it_RemainingValue i; it_OutTxID := it_OutTxID i; it_OutAmt :=
     it_OutAmt i; it_OutValue := it_OutValue i; it_Reason := x; it_Done := it_Done i;
     it_StatsApplied := it_StatsApplied i |}.
Definition set_Done (x : Z) (i : InvokeItem) : InvokeItem :=
  {| it_ID := it_ID i; it_CallID := it_CallID i; it_Action := it_Action i; it_OrderType :=
     it_OrderType i; it_Height := it_Height i; it_OrderTime := it_OrderTime i; it_AssetName :=
     it_AssetName i; it_ServiceFee := it_ServiceFee i; it_GasFee := it_GasFee i; it_Param :=
     it_Param i; it_Address := it_Address i; it_InUtxos := it_InUtxos i; it_InValue :=
     it_InValue i; it_InAmt := it_InAmt i; it_RetainedAssetA := it_RetainedAssetA i;
     it_RetainedAssetB := it_RetainedAssetB i; it_RemainingAmt := it_RemainingAmt i;
     it_RemainingValue := it_RemainingValue i; it_OutTxID := it_OutTxID i; it_OutAmt :=
     it_OutAmt i; it_OutValue := it_OutValue i; it_Reason := it_Reason i; it_Done := x;
     it_StatsApplied := it_StatsApplied i |}.
Definition set_StatsApplied (x : bool) (i : InvokeItem) : InvokeItem :=
  {| it_ID := it_ID i; it_CallID := it_CallID i; it_Action := it_Action i; it_OrderType :=
     it_OrderType i; it_Height := it_Height i; it_OrderTime := it_OrderTime i; it_AssetName :=
     it_AssetName i; it_ServiceFee := it_ServiceFee i; it_GasFee := it_GasFee i; it_Param :=
     it_Param i; it_Address := it_Address i; it_InUtxos := it_InUtxos i; it_InValue :=
     it_InValue i; it_InAmt := it_InAmt i; it_RetainedAssetA := it_RetainedAssetA i;
     it_RetainedAssetB := it_RetainedAssetB i; it_RemainingAmt := it_RemainingAmt i;
     it_RemainingValue := it_RemainingValue i; it_OutTxID := it_OutTxID i; it_OutAmt :=
     it_OutAmt i; it_OutValue := it_OutValue i; it_Reason := it_Reason i; it_Done := it_Done i;
     it_StatsApplied := x |}.

Definition lo_set_GasBalance (x : option Decimal) (r : LimitOrderRunningData) : LimitOrderRunningData :=
  {| lo_AssetAInPool := lo_AssetAInPool r; lo_AssetBInPool := lo_AssetBInPool r; lo_TradingReady
     := lo_TradingReady r; lo_GasBalance := x; lo_TotalInputAssetA := lo_TotalInputAssetA r;
     lo_TotalInputAssetB := lo_TotalInputAssetB r; lo_TotalDealAssetA := lo_TotalDealAssetA r;
     lo_TotalDealAssetB := lo_TotalDealAssetB r; lo_TotalDealCount := lo_TotalDealCount r;
     lo_TotalRefundAssetB := lo_TotalRefundAssetB r; lo_Closed := lo_Closed r |}.
Definition lo_set_TotalDealAssetA (x : option Decimal) (r : LimitOrderRunningData) : LimitOrderRunningData :=
  {| lo_AssetAInPool := lo_AssetAInPool r; lo_AssetBInPool := lo_AssetBInPool r; lo_TradingReady
     := lo_TradingReady r; lo_GasBalance := lo_GasBalance r; lo_TotalInputAssetA :=
     lo_TotalInputAssetA r; lo_TotalInputAssetB := lo_TotalInputAssetB r; lo_TotalDealAssetA :=
     x; lo_TotalDealAssetB := lo_TotalDealAssetB r; lo_TotalDealCount := lo_TotalDealCount r;
     lo_TotalRefundAssetB := lo_TotalRefundAssetB r; lo_Closed := lo_Closed r |}.
Definition lo_set_TotalDealAssetB (x : option Decimal) (r : LimitOrderRunningData) : LimitOrderRunningData :=
  {| lo_AssetAInPool := lo_AssetAInPool r; lo_AssetBInPool := lo_AssetBInPool r; lo_TradingReady
     := lo_TradingReady r; lo_GasBalance := lo_GasBalance r; lo_TotalInputAssetA :=
     lo_TotalInputAssetA r; lo_TotalInputAssetB := lo_TotalInputAssetB r; lo_TotalDealAssetA :=
     lo_TotalDealAssetA r; lo_TotalDealAssetB := x; lo_TotalDealCount := lo_TotalDealCount r;
     lo_TotalRefundAssetB := lo_TotalRefundAssetB r; lo_Closed := lo_Closed r |}.
Definition lo_set_TotalDealCount (x : Z) (r : LimitOrderRunningData) : LimitOrderRunningData :=
  {| lo_AssetAInPool := lo_AssetAInPool r; lo_AssetBInPool := lo_AssetBInPool r; lo_TradingReady
     := lo_TradingReady r; lo_GasBalance := lo_GasBalance r; lo_TotalInputAssetA :=
     lo_TotalInputAssetA r; lo_TotalInputAssetB := lo_TotalInputAssetB r; lo_TotalDealAssetA :=
     lo_TotalDealAssetA r; lo_TotalDealAssetB := lo_TotalDealAssetB r; lo_TotalDealCount := x;
     lo_TotalRefundAssetB := lo_TotalRefundAssetB r; lo_Closed := lo_Closed r |}.
Definition lo_set_TotalRefundAssetB (x : option Decimal) (r : LimitOrderRunningData) : LimitOrderRunningData :=
  {| lo_AssetAInPool := lo_AssetAInPool r; lo_AssetBInPool := lo_AssetBInPool r; lo_TradingReady
     := lo_TradingReady r; lo_GasBalance := lo_GasBalance r; lo_TotalInputAssetA :=
     lo_TotalInputAssetA r; lo_TotalInputAssetB := lo_TotalInputAssetB r; lo_TotalDealAssetA :=
     lo_TotalDealAssetA r; lo_TotalDealAssetB := lo_TotalDealAssetB r; lo_TotalDealCount :=
     lo_TotalDealCount r; lo_TotalRefundAssetB := x; lo_Closed := lo_Closed r |}.
Definition lo_set_Closed (x : bool) (r : LimitOrderRunningData) : LimitOrderRunningData :=
  {| lo_AssetAInPool := lo_AssetAInPool r; lo_AssetBInPool := lo_AssetBInPool r; lo_TradingReady
     := lo_TradingReady r; lo_GasBalance := lo_GasBalance r; lo_TotalInputAssetA :=
     lo_TotalInputAssetA r; lo_TotalInputAssetB := lo_TotalInputAssetB r; lo_TotalDealAssetA :=
     lo_TotalDealAssetA r; lo_TotalDealAssetB := lo_TotalDealAssetB r; lo_TotalDealCount :=
     lo_TotalDealCount r; lo_TotalRefundAssetB := lo_TotalRefundAssetB r; lo_Closed := x |}.
Definition lo_set_AssetAInPool (x : option Decimal) (r : LimitOrderRunningData) : LimitOrderRunningData :=
  {| lo_AssetAInPool := x; lo_AssetBInPool := lo_AssetBInPool r; lo_TradingReady :=
     lo_TradingReady r; lo_GasBalance := lo_GasBalance r; lo_TotalInputAssetA :=
     lo_TotalInputAssetA r; lo_TotalInputAssetB := lo_TotalInputAssetB r; lo_TotalDealAssetA :=
     lo_TotalDealAssetA r; lo_TotalDealAssetB := lo_TotalDealAssetB r; lo_TotalDealCount :=
     lo_TotalDealCount r; lo_TotalRefundAssetB := lo_TotalRefundAssetB r; lo_Closed := lo_Closed
     r |}.
Definition lo_set_AssetBInPool (x : option Decimal) (r : LimitOrderRunningData) : LimitOrderRunningData :=
  {| lo_AssetAInPool := lo_AssetAInPool r; lo_AssetBInPool := x; lo_TradingReady :=
     lo_TradingReady r; lo_GasBalance := lo_GasBalance r; lo_TotalInputAssetA :=
     lo_TotalInputAssetA r; lo_TotalInputAssetB := lo_TotalInputAssetB r; lo_TotalDealAssetA :=
     lo_TotalDealAssetA r; lo_TotalDealAssetB := lo_TotalDealAssetB r; lo_TotalDealCount :=
     lo_TotalDealCount r; lo_TotalRefundAssetB := lo_TotalRefundAssetB r; lo_Closed := lo_Closed
     r |}.

Definition am_set_AssetAInPool (x : option Decimal) (r : AMMRunningData) : AMMRunningData :=
  {| am_AssetAInPool := x; am_AssetBInPool := am_AssetBInPool r; am_RequiredAssetA :=
     am_RequiredAssetA r; am_RequiredAssetB := am_RequiredAssetB r; am_RequiredK := am_RequiredK
     r; am_K := am_K r; am_TradingReady := am_TradingReady r; am_GasBalance := am_GasBalance r;
     am_TotalInputAssetA := am_TotalInputAssetA r; am_TotalInputAssetB := am_TotalInputAssetB r;
     am_TotalDealAssetA := am_TotalDealAssetA r; am_TotalDealAssetB := am_TotalDealAssetB r;
     am_TotalDealCount := am_TotalDealCount r; am_TotalRefundAssetB := am_TotalRefundAssetB r;
     am_TotalLPTAmt := am_TotalLPTAmt r; am_LPBalances := am_LPBalances r; am_LPCosts :=
     am_LPCosts r; am_Closed := am_Closed r |}.
Definition am_set_AssetBInPool (x : option Decimal) (r : AMMRunningData) : AMMRunningData :=
  {| am_AssetAInPool := am_AssetAInPool r; am_AssetBInPool := x; am_RequiredAssetA :=
     am_RequiredAssetA r; am_RequiredAssetB := am_RequiredAssetB r; am_RequiredK := am_RequiredK
     r; am_K := am_K r; am_TradingReady := am_TradingReady r; am_GasBalance := am_GasBalance r;
     am_TotalInputAssetA := am_TotalInputAssetA r; am_TotalInputAssetB := am_TotalInputAssetB r;
     am_TotalDealAssetA := am_TotalDealAssetA r; am_TotalDealAssetB := am_TotalDealAssetB r;
     am_TotalDealCount := am_TotalDealCount r; am_TotalRefundAssetB := am_TotalRefundAssetB r;
     am_TotalLPTAmt := am_TotalLPTAmt r; am_LPBalances := am_LPBalances r; am_LPCosts :=
     am_LPCosts r; am_Closed := am_Closed r |}.
Definition am_set_K (x : option Decimal) (r : AMMRunningData) : AMMRunningData :=
  {| am_AssetAInPool := am_AssetAInPool r; am_AssetBInPool := am_AssetBInPool r;
     am_RequiredAssetA := am_RequiredAssetA r; am_RequiredAssetB := am_RequiredAssetB r;
     am_RequiredK := am_RequiredK r; am_K := x; am_TradingReady := am_TradingReady r;
     am_GasBalance := am_GasBalance r; am_TotalInputAssetA := am_TotalInputAssetA r;
     am_TotalInputAssetB := am_TotalInputAssetB r; am_TotalDealAssetA := am_TotalDealAssetA r;
     am_TotalDealAssetB := am_TotalDealAssetB r; am_TotalDealCount := am_TotalDealCount r;
     am_TotalRefundAssetB := am_TotalRefundAssetB r; am_TotalLPTAmt := am_TotalLPTAmt r;
     am_LPBalances := am_LPBalances r; am_LPCosts := am_LPCosts r; am_Closed := am_Closed r |}.
Definition am_set_TradingReady (x : bool) (r : AMMRunningData) : AMMRunningData :=
  {| am_AssetAInPool := am_AssetAInPool r; am_AssetBInPool := am_AssetBInPool r;
     am_RequiredAssetA := am_RequiredAssetA r; am_RequiredAssetB := am_RequiredAssetB r;
     am_RequiredK := am_RequiredK r; am_K := am_K r; am_TradingReady := x; am_GasBalance :=
     am_GasBalance r; am_TotalInputAssetA := am_TotalInputAssetA r; am_TotalInputAssetB :=
     am_TotalInputAssetB r; am_TotalDealAssetA := am_TotalDealAssetA r; am_TotalDealAssetB :=
     am_TotalDealAssetB r; am_TotalDealCount := am_TotalDealCount r; am_TotalRefundAssetB :=
     am_TotalRefundAssetB r; am_TotalLPTAmt := am_TotalLPTAmt r; am_LPBalances := am_LPBalances
     r; am_LPCosts := am_LPCosts r; am_Closed := am_Closed r |}.
Definition am_set_TotalDealAssetA (x : option Decimal) (r : AMMRunningData) : AMMRunningData :=
  {| am_AssetAInPool := am_AssetAInPool r; am_AssetBInPool := am_AssetBInPool r;
     am_RequiredAssetA := am_RequiredAssetA r; am_RequiredAssetB := am_RequiredAssetB r;
     am_RequiredK := am_RequiredK r; am_K := am_K r; am_TradingReady := am_TradingReady r;
     am_GasBalance := am_GasBalance r; am_TotalInputAssetA := am_TotalInputAssetA r;
     am_TotalInputAssetB := am_TotalInputAssetB r; am_TotalDealAssetA := x; am_TotalDealAssetB
     := am_TotalDealAssetB r; am_TotalDealCount := am_TotalDealCount r; am_TotalRefundAssetB :=
     am_TotalRefundAssetB r; am_TotalLPTAmt := am_TotalLPTAmt r; am_LPBalances := am_LPBalances
     r; am_LPCosts := am_LPCosts r; am_Closed := am_Closed r |}.
Definition am_set_TotalDealAssetB (x : option Decimal) (r : AMMRunningData) : AMMRunningData :=
  {| am_AssetAInPool := am_AssetAInPool r; am_AssetBInPool := am_AssetBInPool r;
     am_RequiredAssetA := am_RequiredAssetA r; am_RequiredAssetB := am_RequiredAssetB r;
     am_RequiredK := am_RequiredK r; am_K := am_K r; am_TradingReady := am_TradingReady r;
     am_GasBalance := am_GasBalance r; am_TotalInputAssetA := am_TotalInputAssetA r;
     am_TotalInputAssetB := am_TotalInputAssetB r; am_TotalDealAssetA := am_TotalDealAssetA r;
     am_TotalDealAssetB := x; am_TotalDealCount := am_TotalDealCount r; am_TotalRefundAssetB :=
     am_TotalRefundAssetB r; am_TotalLPTAmt := am_TotalLPTAmt r; am_LPBalances := am_LPBalances
     r; am_LPCosts := am_LPCosts r; am_Closed := am_Closed r |}.
Definition am_set_TotalDealCount (x : Z) (r : AMMRunningData) : AMMRunningData :=
  {| am_AssetAInPool := am_AssetAInPool r; am_AssetBInPool := am_AssetBInPool r;
     am_RequiredAssetA := am_RequiredAssetA r; am_RequiredAssetB := am_RequiredAssetB r;
     am_RequiredK := am_RequiredK r; am_K := am_K r; am_TradingReady := am_TradingReady r;
     am_GasBalance := am_GasBalance r; am_TotalInputAssetA := am_TotalInputAssetA r;
     am_TotalInputAssetB := am_TotalInputAssetB r; am_TotalDealAssetA := am_TotalDealAssetA r;
     am_TotalDealAssetB := am_TotalDealAssetB r; am_TotalDealCount := x; am_TotalRefundAssetB :=
     am_TotalRefundAssetB r; am_TotalLPTAmt := am_TotalLPTAmt r; am_LPBalances := am_LPBalances
     r; am_LPCosts := am_LPCosts r; am_Closed := am_Closed r |}.
Definition am_set_TotalRefundAssetB (x : option Decimal) (r : AMMRunningData) : AMMRunningData :=
  {| am_AssetAInPool := am_AssetAInPool r; am_AssetBInPool := am_AssetBInPool r;
     am_RequiredAssetA := am_RequiredAssetA r; am_RequiredAssetB := am_RequiredAssetB r;
     am_RequiredK := am_RequiredK r; am_K := am_K r; am_TradingReady := am_TradingReady r;
     am_GasBalance := am_GasBalance r; am_TotalInputAssetA := am_TotalInputAssetA r;
     am_TotalInputAssetB := am_TotalInputAssetB r; am_TotalDealAssetA := am_TotalDealAssetA r;
     am_TotalDealAssetB := am_TotalDealAssetB r; am_TotalDealCount := am_TotalDealCount r;
     am_TotalRefundAssetB := x; am_TotalLPTAmt := am_TotalLPTAmt r; am_LPBalances :=
     am_LPBalances r; am_LPCosts := am_LPCosts r; am_Closed := am_Closed r |}.
Definition am_set_TotalLPTAmt (x : option Decimal) (r : AMMRunningData) : AMMRunningData :=
  {| am_AssetAInPool := am_AssetAInPool r; am_AssetBInPool := am_AssetBInPool r;
     am_RequiredAssetA := am_RequiredAssetA r; am_RequiredAssetB := am_RequiredAssetB r;
     am_RequiredK := am_RequiredK r; am_K := am_K r; am_TradingReady := am_TradingReady r;
     am_GasBalance := am_GasBalance r; am_TotalInputAssetA := am_TotalInputAssetA r;
     am_TotalInputAssetB := am_TotalInputAssetB r; am_TotalDealAssetA := am_TotalDealAssetA r;
     am_TotalDealAssetB := am_TotalDealAssetB r; am_TotalDealCount := am_TotalDealCount r;
     am_TotalRefundAssetB := am_TotalRefundAssetB r; am_TotalLPTAmt := x; am_LPBalances :=
     am_LPBalances r; am_LPCosts := am_LPCosts r; am_Closed := am_Closed r |}.
Definition am_set_LPBalances (x : gmap bytes (option Decimal)) (r : AMMRunningData) : AMMRunningData :=
  {| am_AssetAInPool := am_AssetAInPool r; am_AssetBInPool := am_AssetBInPool r;
     am_RequiredAssetA := am_RequiredAssetA r; am_RequiredAssetB := am_RequiredAssetB r;
     am_RequiredK := am_RequiredK r; am_K := am_K r; am_TradingReady := am_TradingReady r;
     am_GasBalance := am_GasBalance r; am_TotalInputAssetA := am_TotalInputAssetA r;
     am_TotalInputAssetB := am_TotalInputAssetB r; am_TotalDealAssetA := am_TotalDealAssetA r;
     am_TotalDealAssetB := am_TotalDealAssetB r; am_TotalDealCount := am_TotalDealCount r;
     am_TotalRefundAssetB := am_TotalRefundAssetB r; am_TotalLPTAmt := am_TotalLPTAmt r;
     am_LPBalances := x; am_LPCosts := am_LPCosts r; am_Closed := am_Closed r |}.
Definition am_set_LPCosts (x : gmap bytes Z) (r : AMMRunningData) : AMMRunningData :=
  {| am_AssetAInPool := am_AssetAInPool r; am_AssetBInPool := am_AssetBInPool r;
     am_RequiredAssetA := am_RequiredAssetA r; am_RequiredAssetB := am_RequiredAssetB r;
     am_RequiredK := am_RequiredK r; am_K := am_K r; am_TradingReady := am_TradingReady r;
     am_GasBalance := am_GasBalance r; am_TotalInputAssetA := am_TotalInputAssetA r;
     am_TotalInputAssetB := am_TotalInputAssetB r; am_TotalDealAssetA := am_TotalDealAssetA r;
     am_TotalDealAssetB := am_TotalDealAssetB r; am_TotalDealCount := am_TotalDealCount r;
     am_TotalRefundAssetB := am_TotalRefundAssetB r; am_TotalLPTAmt := am_TotalLPTAmt r;
     am_LPBalances := am_LPBalances r; am_LPCosts := x; am_Closed := am_Closed r |}.
Definition am_set_Closed (x : bool) (r : AMMRunningData) : AMMRunningData :=
  {| am_AssetAInPool := am_AssetAInPool r; am_AssetBInPool := am_AssetBInPool r;
     am_RequiredAssetA := am_RequiredAssetA r; am_RequiredAssetB := am_RequiredAssetB r;
     am_RequiredK := am_RequiredK r; am_K := am_K r; am_TradingReady := am_TradingReady r;
     am_GasBalance := am_GasBalance r; am_TotalInputAssetA := am_TotalInputAssetA r;
     am_TotalInputAssetB := am_TotalInputAssetB r; am_TotalDealAssetA := am_TotalDealAssetA r;
     am_TotalDealAssetB := am_TotalDealAssetB r; am_TotalDealCount := am_TotalDealCount r;
     am_TotalRefundAssetB := am_TotalRefundAssetB r; am_TotalLPTAmt := am_TotalLPTAmt r;
     am_LPBalances := am_LPBalances r; am_LPCosts := am_LPCosts r; am_Closed := x |}.

Definition ex_set_TotalRefundAssetB (x : option Decimal) (r : ExchangeRunningData) : ExchangeRunningData :=
  {| ex_AssetAInPool := ex_AssetAInPool r; ex_AssetBInPool := ex_AssetBInPool r; ex_GasBalance
     := ex_GasBalance r; ex_TotalInputAssetA := ex_TotalInputAssetA r; ex_TotalInputAssetB :=
     ex_TotalInputAssetB r; ex_TotalDealAssetA := ex_TotalDealAssetA r; ex_TotalDealAssetB :=
     ex_TotalDealAssetB r; ex_TotalDealCount := ex_TotalDealCount r; ex_TotalRefundAssetB := x;
     ex_Closed := ex_Closed r |}.
Definition ex_set_Closed (x : bool) (r : ExchangeRunningData) : ExchangeRunningData :=
  {| ex_AssetAInPool := ex_AssetAInPool r; ex_AssetBInPool := ex_AssetBInPool r; ex_GasBalance
     := ex_GasBalance r; ex_TotalInputAssetA := ex_TotalInputAssetA r; ex_TotalInputAssetB :=
     ex_TotalInputAssetB r; ex_TotalDealAssetA := ex_TotalDealAssetA r; ex_TotalDealAssetB :=
     ex_TotalDealAssetB r; ex_TotalDealCount := ex_TotalDealCount r; ex_TotalRefundAssetB :=
     ex_TotalRefundAssetB r; ex_Closed := x |}.
Definition ap_set_Closed (x : bool) (r : AutopayRunningData) : AutopayRunningData :=
  {| ap_GasBalance := ap_GasBalance r; ap_Closed := x; ap_FeeBalance := ap_FeeBalance r;
     ap_AutopayStatus := ap_AutopayStatus r; ap_ActiveHeight := ap_ActiveHeight r;
     ap_NextPayHeight := ap_NextPayHeight r; ap_LastPayHeight := ap_LastPayHeight r;
     ap_PaidBlockCount := ap_PaidBlockCount r; ap_AutopayCloseStarted := ap_AutopayCloseStarted
     r; ap_AutopayDelegates := ap_AutopayDelegates r |}.

Definition rs_set_Items (x : list InvokeItem) (s : TemplateRuntimeState) : TemplateRuntimeState :=
  {| rs_NextItemID := rs_NextItemID s; rs_InvokeCount := rs_InvokeCount s; rs_Items := x;
     rs_LimitOrder := rs_LimitOrder s; rs_AMM := rs_AMM s; rs_Exchange := rs_Exchange s;
     rs_Autopay := rs_Autopay s |}.
Definition rs_set_LimitOrder (x : option LimitOrderRunningData) (s : TemplateRuntimeState) : TemplateRuntimeState :=
  {| rs_NextItemID := rs_NextItemID s; rs_InvokeCount := rs_InvokeCount s; rs_Items := rs_Items
     s; rs_LimitOrder := x; rs_AMM := rs_AMM s; rs_Exchange := rs_Exchange s; rs_Autopay :=
     rs_Autopay s |}.
Definition rs_set_AMM (x : option AMMRunningData) (s : TemplateRuntimeState) : TemplateRuntimeState :=
  {| rs_NextItemID := rs_NextItemID s; rs_InvokeCount := rs_InvokeCount s; rs_Items := rs_Items
     s; rs_LimitOrder := rs_LimitOrder s; rs_AMM := x; rs_Exchange := rs_Exchange s; rs_Autopay
     := rs_Autopay s |}.
Definition rs_set_Exchange (x : option ExchangeRunningData) (s : TemplateRuntimeState) : TemplateRuntimeState :=
  {| rs_NextItemID := rs_NextItemID s; rs_InvokeCount := rs_InvokeCount s; rs_Items := rs_Items
     s; rs_LimitOrder := rs_LimitOrder s; rs_AMM := rs_AMM s; rs_Exchange := x; rs_Autopay :=
     rs_Autopay s |}.
Definition rs_set_Autopay (x : option AutopayRunningData) (s : TemplateRuntimeState) : TemplateRuntimeState :=
  {| rs_NextItemID := rs_NextItemID s; rs_InvokeCount := rs_InvokeCount s; rs_Items := rs_Items
     s; rs_LimitOrder := rs_LimitOrder s; rs_AMM := rs_AMM s; rs_Exchange := rs_Exchange s;
     rs_Autopay := x |}.

Definition sp_set_Deals (x : list SettlementDeal) (p : SettlementPlan) : SettlementPlan :=
  {| sp_Contract := sp_Contract p; sp_Height := sp_Height p; sp_Deals := x; sp_Transfers :=
     sp_Transfers p; sp_ItemIDs := sp_ItemIDs p; sp_Inputs := sp_Inputs p |}.
Definition sp_set_Transfers (x : list SettlementTransfer) (p : SettlementPlan) : SettlementPlan :=
  {| sp_Contract := sp_Contract p; sp_Height := sp_Height p; sp_Deals := sp_Deals p;
     sp_Transfers := x; sp_ItemIDs := sp_ItemIDs p; sp_Inputs := sp_Inputs p |}.
Definition sp_set_ItemIDs (x : list Z) (p : SettlementPlan) : SettlementPlan :=
  {| sp_Contract := sp_Contract p; sp_Height := sp_Height p; sp_Deals := sp_Deals p;
     sp_Transfers := sp_Transfers p; sp_ItemIDs := x; sp_Inputs := sp_Inputs p |}.
Definition sp_set_Inputs (x : list (bytes * Z)) (p : SettlementPlan) : SettlementPlan :=
  {| sp_Contract := sp_Contract p; sp_Height := sp_Height p; sp_Deals := sp_Deals p;
     sp_Transfers := sp_Transfers p; sp_ItemIDs := sp_ItemIDs p; sp_Inputs := x |}.

(** ** Texts *)

(** [strings.Split] with a separator of one byte. *)
Fixpoint split_on (sep : Z) (s : bytes) : list bytes :=
  match s with
  | [] => [[]]
  | c :: r =>
      if c =? sep then [] :: split_on sep r
      else match split_on sep r with
           | [] => [[c]]
           | w :: ws => (c :: w) :: ws
           end
  end.

(** The UTF-8 encodings of the characters [unicode.IsSpace] holds of. *)
Definition spaces : list bytes :=
  map (fun c => [c]) [9; 10; 11; 12; 13; 32]
  ++ [[0xC2; 0x85]; [0xC2; 0xA0]; [0xE1; 0x9A; 0x80]]
  ++ map (fun n => [0xE2; 0x80; 0x80 + Z.of_nat n]) (seq 0 11)
  ++ [[0xE2; 0x80; 0xA8]; [0xE2; 0x80; 0xA9]; [0xE2; 0x80; 0xAF]; [0xE2; 0x81; 0x9F]; [0xE3; 0x80; 0x80]].

(** [strings.TrimSpace]: every turn drops at least one byte. *)
Fixpoint trim_left (spaces : list bytes) (fuel : nat) (s : bytes) : bytes :=
  match fuel with
  | O => s
  | S f =>
      match list_find (fun w => w `prefix_of` s) spaces with
      | Some (_, w) => trim_left spaces f (drop (length w) s)
      | None => s
      end
  end.

Definition TrimSpace (s : bytes) : bytes :=
  let l := trim_left spaces (length s) s in
  reverse (trim_left (map reverse spaces) (length l) (reverse l)).

Definition fromHexChar (c : Z) : option Z :=
  if (48 <=? c) && (c <=? 57) then Some (c - 48)
  else if (97 <=? c) && (c <=? 102) then Some (c - 97 + 10)
  else if (65 <=? c) && (c <=? 70) then Some (c - 65 + 10)
  else None.

(** [hex.Decode] of an even number of digits. *)
Fixpoint hex_decode (s : bytes) : option bytes :=
  match s with
  | [] => Some []
  | [_] => None
  | a :: b :: r => x ← fromHexChar a; y ← fromHexChar b; t ← hex_decode r; Some (x * 16 + y :: t)
  end.

Definition MaxHashStringSize : Z := 64.

Definition NewHashFromStr (src : bytes) : option bytes :=
  if len src >? MaxHashStringSize then None
  else
    let srcBytes := if Z.even (len src) then src else 48 :: src in
    d ← hex_decode srcBytes;
    Some (reverse (replicate (32 - length d) 0 ++ d)).

(** [strconv.ParseUint(s, 10, 32)]. *)
Definition ParseUint32 (s : bytes) : option Z :=
  if bool_decide (s = []) || negb (forallb is_digit s) then None
  else let v := digits_value s in if v <? 2 ^ 32 then Some v else None.

(** A hash and an index. *)
Definition NewOutPointFromString (outpoint : bytes) : option (bytes * Z) :=
  match split_on 58 outpoint with
  | [txid; idx] =>
      if negb (len txid =? MaxHashStringSize) then None
      else h ← NewHashFromStr txid; i ← ParseUint32 idx; Some (h, i)
  | _ => None
  end.

Definition ParseOutPoint (s : bytes) : option (bytes * Z) :=
  match NewOutPointFromString s with
  | Some o => Some o
  | None => h ← NewHashFromStr s; Some (h, 0)
  end.

Definition WireOutPointToFramework (out : bytes * Z) : bytes * Z := (hex_encode (reverse out.1), out.2).

Definition UniqueOutPoints (l : list (bytes * Z)) : list (bytes * Z) :=
  (fold_left (fun '(out, seen) input =>
     if decide (input ∈@{gset (bytes * Z)} seen) then (out, seen)
     else (out ++ [input], {[input]} ∪ seen)) l ([], ∅)).1.

Definition AddInt64 (a b : Z) : Z * bool :=
  if ((b >? 0) && (a >? 2 ^ 63 - 1 - b)) || ((b <? 0) && (a <? - 2 ^ 63 - b)) then (0, true)
  else (a + b, false).

(** ** Invocation parameters *)

(** [!tokenizer.Next() || tokenizer.Err() != nil] ends the decoding. *)
Definition next_field (t : ScriptTokenizer) : result SettleError ScriptTokenizer :=
  let! '(ok, t) := ScriptTokenizer_Next t in
  if negb ok || non_nil (ScriptTokenizer_Err t) then Err MissingField else Ok t.

Definition int_field (t : ScriptTokenizer) : result SettleError Z :=
  if len (slice (ScriptTokenizer_Data t)) >? 8 then Err FieldTooLong else ScriptTokenizer_ExtractInt64 t.

(** The end of the script: no further token and no error. *)
Definition end_fields (t : ScriptTokenizer) : result SettleError unit :=
  let! '(more, t) := ScriptTokenizer_Next t in
  if (more : bool) then Err UnexpectedFields
  else match ScriptTokenizer_Err t with
       | Some e => Err (ScriptError e)
       | None => Ok tt
       end.

Record LimitOrderInvokeParam : Type := mkLimitOrderParam {
  lp_OrderType : Z;
  lp_AssetName : bytes;
  lp_Amt : bytes;
  lp_UnitPrice : bytes;
}.

Definition LimitOrderInvokeParam_Encode (p : LimitOrderInvokeParam) : result SettleError (option bytes) :=
  let! b := ScriptBuilder_AddInt64 (lp_OrderType p) NewScriptBuilder in
  Ok (ScriptBuilder_Script (ScriptBuilder_AddData (lp_UnitPrice p)
    (ScriptBuilder_AddData (lp_Amt p) (ScriptBuilder_AddData (lp_AssetName p) b)))).

Definition LimitOrderInvokeParam_Decode (data : bytes) : result SettleError LimitOrderInvokeParam :=
  let! t := next_field (MakeScriptTokenizer 0 data) in
  let! orderType := int_field t in
  let! t := next_field t in
  let assetName := slice (ScriptTokenizer_Data t) in
  let! t := next_field t in
  let amt := slice (ScriptTokenizer_Data t) in
  let! t := next_field t in
  let unitPrice := slice (ScriptTokenizer_Data t) in
  let! _ := end_fields t in
  Ok (mkLimitOrderParam orderType assetName amt unitPrice).

Record AddLiquidityInvokeParam : Type := mkAddLiquidityParam {
  al_OrderType : Z;
  al_AssetName : bytes;
  al_Amt : bytes;
  al_Value : Z;
}.

Definition AddLiquidityInvokeParam_Encode (p : AddLiquidityInvokeParam) : result SettleError (option bytes) :=
  let! b := ScriptBuilder_AddInt64 (al_OrderType p) NewScriptBuilder in
  let! b := ScriptBuilder_AddInt64 (al_Value p)
    (ScriptBuilder_AddData (al_Amt p) (ScriptBuilder_AddData (al_AssetName p) b)) in
  Ok (ScriptBuilder_Script b).

Definition AddLiquidityInvokeParam_Decode (data : bytes) : result SettleError AddLiquidityInvokeParam :=
  let! t := next_field (MakeScriptTokenizer 0 data) in
  let! orderType := int_field t in
  let! t := next_field t in
  let assetName := slice (ScriptTokenizer_Data t) in
  let! t := next_field t in
  let amt := slice (ScriptTokenizer_Data t) in
  let! t := next_field t in
  let! value := int_field t in
  let! _ := end_fields t in
  Ok (mkAddLiquidityParam orderType assetName amt value).

Record RemoveLiquidityInvokeParam : Type := mkRemoveLiquidityParam {
  rl_OrderType : Z;
  rl_AssetName : bytes;
  rl_LptAmt : bytes;
}.

Definition RemoveLiquidityInvokeParam_Encode (p : RemoveLiquidityInvokeParam) : result SettleError (option bytes) :=
  let! b := ScriptBuilder_AddInt64 (rl_OrderType p) NewScriptBuilder in
  Ok (ScriptBuilder_Script (ScriptBuilder_AddData (rl_LptAmt p) (ScriptBuilder_AddData (rl_AssetName p) b))).

Definition RemoveLiquidityInvokeParam_Decode (data : bytes) : result SettleError RemoveLiquidityInvokeParam :=
  let! t := next_field (MakeScriptTokenizer 0 data) in
  let! orderType := int_field t in
  let! t := next_field t in
  let assetName := slice (ScriptTokenizer_Data t) in
  let! t := next_field t in
  let lptAmt := slice (ScriptTokenizer_Data t) in
  let! _ := end_fields t in
  Ok (mkRemoveLiquidityParam orderType assetName lptAmt).

(** The item ids of a refund; a script of no bytes names none. *)
Definition refund_id (t : ScriptTokenizer) : result SettleError Z :=
  let! opcode := ScriptTokenizer_Opcode t in
  if (opcode >? OP_PUSHDATA4) && negb (opcode =? OP_1NEGATE) && ((opcode <? OP_1) || (opcode >? OP_16))
  then Err BadItemID
  else
    let! itemID := int_field t in
    if itemID <? 0 then Err BadItemID else Ok itemID.

Definition RefundInvokeParam_Decode (data : bytes) : result SettleError (list Z) :=
  match data with
  | [] => Ok []
  | _ =>
      let! '(ts, t) := tokenize data in
      let! ids := rfold (fun ids t => let! id := refund_id t in Ok (ids ++ [id])) [] ts in
      match ScriptTokenizer_Err t with
      | Some e => Err (ScriptError e)
      | None => Ok ids
      end
  end.

(** ** Amounts *)

Section amounts.
Context `{F : FixedOps}.

Definition parseDecimalOrZero (value : bytes) : Decimal :=
  if bool_decide (value = []) then NewDecimal 0 MaxPriceDivisibility
  else default (NewDecimal 0 MaxPriceDivisibility) (NewDecimalFromString value MaxPriceDivisibility).

(** [if d == nil { d = parseDecimalOrZero("0") }]. *)
Definition or_zero (d : option Decimal) : Decimal := default (parseDecimalOrZero (str "0")) d.

(** [d != nil && d.Sign() > 0]. *)
Definition positive (d : option Decimal) : bool :=
  match d with
  | Some d => Decimal_Sign d >? 0
  | None => false
  end.

Definition decimalString (d : option Decimal) : bytes :=
  match d with
  | Some d => if Decimal_Sign d =? 0 then [] else Decimal_String d
  | None => []
  end.

Definition decimalInt64 (value : option Decimal) : result SettleError Z :=
  match value with
  | None => Ok 0
  | Some v =>
      match FloorInt64 v with
      | None => Err Int64Error
      | Some out => if Decimal_Cmp v (NewDefaultDecimal out) =? 0 then Ok out else Err FractionalAmount
      end
  end.

Definition decimalEqualAllowNil (a b : option Decimal) : bool := Decimal_Cmp (or_zero a) (or_zero b) =? 0.

Definition decimalAddAllowNil (a b : option Decimal) : option Decimal :=
  match b with
  | None => a
  | Some d =>
      if Decimal_Sign d =? 0 then a
      else match a with
           | None => Some d
           | Some a => Some (AddAlignPrecision a d)
           end
  end.

Definition minDecimal (a b : option Decimal) : Decimal :=
  match a, b with
  | None, _ => parseDecimalOrZero (str "0")
  | Some a, None => a
  | Some a, Some b => if Decimal_Cmp a b <=? 0 then a else b
  end.

(** [value * part / total], rounded down in the units of [value]. *)
Definition proportionalDecimal (value part total : option Decimal) : Decimal :=
  match value with
  | None => parseDecimalOrZero (str "0")
  | Some v =>
      match part, total with
      | Some p, Some t =>
          if (Decimal_Sign v <=? 0) || (Decimal_Sign p <=? 0) || (Decimal_Sign t <=? 0)
          then mkDecimal (Precision v) 0
          else
            let precision := Z.max (Precision p) (Precision t) in
            mkDecimal (Precision v)
              (Z.quot (Value v * Value (NewPrecision p precision)) (Value (NewPrecision t precision)))
      | _, _ => mkDecimal (Precision v) 0
      end
  end.

Definition proportionalInt64 (value : Z) (part total : option Decimal) : result SettleError Z :=
  if (value <=? 0) || negb (positive part) || negb (positive total) then Ok 0
  else match FloorInt64 (proportionalDecimal (Some (NewDefaultDecimal value)) part total) with
       | Some out => Ok out
       | None => Err Int64Error
       end.

(** [AssetPrecisionPolicy.Normalize] with the places of prices as fallback. *)
Definition precisionForAsset (resolve : option (bytes -> option Z)) (assetName : bytes) : Z :=
  if bool_decide (assetName = SatoshiAssetName) then 0
  else match resolve with
       | Some f =>
           if bool_decide (assetName = []) then MaxPriceDivisibility
           else match f assetName with
                | Some precision => if 0 <=? precision then precision else MaxPriceDivisibility
                | None => MaxPriceDivisibility
                end
       | None => MaxPriceDivisibility
       end.

Definition Normalize (resolve : option (bytes -> option Z)) (assetName : bytes) (amount : Decimal) : Decimal :=
  let precision := precisionForAsset resolve assetName in
  if (precision <? 0) || (Precision amount =? precision) then amount else NewPrecision amount precision.

(** ** Parameters of an item *)

Definition Finished (i : InvokeItem) : bool := it_Done i >? ItemStatusInit.

Definition validateInvokeItemOrderType (i : InvokeItem) (encoded : Z) : result SettleError unit :=
  if bool_decide (it_Reason i = InvokeReasonInvalid) then Ok tt
  else if negb (it_OrderType i =? encoded) then Err OrderTypeMismatch
  else Ok tt.

Definition resolveInvokeItemAssetName (expected encoded : bytes) : result SettleError bytes :=
  if negb (bool_decide (expected = [])) && negb (bool_decide (encoded = [])) && negb (bool_decide (expected = encoded))
  then Err AssetMismatch
  else if negb (bool_decide (expected = [])) then Ok expected
  else Ok encoded.

Definition decodeLimitOrderItemParam (i : InvokeItem) : result SettleError LimitOrderInvokeParam :=
  match it_Param i with
  | [] =>
      if bool_decide (it_Action i = ContractInvokeAPIDefault) || bool_decide (it_Reason i = InvokeReasonInvalid)
      then Ok (mkLimitOrderParam 0 [] [] [])
      else Err EmptyParam
  | _ =>
      let! param := LimitOrderInvokeParam_Decode (it_Param i) in
      let! _ := validateInvokeItemOrderType i (lp_OrderType param) in
      let! _ := resolveInvokeItemAssetName (it_AssetName i) (lp_AssetName param) in
      Ok param
  end.

Definition limitOrderItemPrice (i : InvokeItem) : result SettleError bytes :=
  let! param := decodeLimitOrderItemParam i in
  Ok (lp_UnitPrice param).

Definition limitOrderItemExpectedAmount (i : InvokeItem) : result SettleError Decimal :=
  let! param := decodeLimitOrderItemParam i in
  Ok (parseDecimalOrZero (lp_Amt param)).

Definition decodeRefundItemParam (i : InvokeItem) : result SettleError (list Z) :=
  let! ids := RefundInvokeParam_Decode (it_Param i) in
  let! _ := validateInvokeItemOrderType i OrderTypeRefund in
  Ok ids.

Definition refundMatchesItem (refund : InvokeItem) (itemID : Z) : result SettleError bool :=
  let! ids := decodeRefundItemParam refund in
  match ids with
  | [] => Ok true
  | _ => Ok (existsb (Z.eqb itemID) ids)
  end.

Definition removeLiquidityItemAmount (i : InvokeItem) : result SettleError Decimal :=
  let! param := RemoveLiquidityInvokeParam_Decode (it_Param i) in
  let! _ := validateInvokeItemOrderType i (rl_OrderType param) in
  let! _ := resolveInvokeItemAssetName (it_AssetName i) (rl_AssetName param) in
  Ok (parseDecimalOrZero (rl_LptAmt param)).

End amounts.
