(* ===== verification/TemplateParams.v ===== *)
(** Invocation parameters are scripts: their decoders end with a value or an
    error on any bytes, and read back what the encoders write. *)
From Stdlib Require Import ZArith List Bool Lia.
From stdpp Require Import base list numbers option strings.
From S2P Require Import Prelude ScriptNum Tokenizer ScriptBuilder FixedPoint TemplateState.
Open Scope Z_scope.

(** ** No decoder panics *)

Lemma Next_wp {E} t s : tok_at t s ->
  wp (ScriptTokenizer_Next (E := E) t)
    (fun '(ok, t') => ok = true -> exists s', tok_at t' s' /\ is_Some (tok_op t')).
Proof.
  intros Ht. destruct s as [|op r]; [by rewrite Next_end|].
  rewrite (Next_parse _ _ _ Ht). destruct (parse_one (op :: r)) as [[tk s']|] eqn:Hp; [|done].
  apply parse_one_inv in Hp as [Hw Hs]; [|by eapply tok_at_suffix_ok].
  simpl. intros _. exists s'. split; [|done]. rewrite Hs in Ht |- *. rewrite len_app.
  replace (len (enc_token tk) + len s' - len s') with (len (enc_token tk)) by lia. by apply tok_at_step.
Qed.

Lemma next_field_wp t s : tok_at t s ->
  wp (next_field t) (fun t' => exists s', tok_at t' s' /\ is_Some (tok_op t')).
Proof.
  intros Ht. unfold next_field. eapply wp_bind; [by eapply Next_wp|].
  intros [ok t'] H. case_if; [done|]. apply H. by destruct ok.
Qed.

Lemma extractScriptInt64_ok {E} d : len d <= 8 -> wp (extractScriptInt64 (E := E) d) (fun _ => True).
Proof.
  intros Hl. unfold extractScriptInt64. destruct (last_of d) eqn:Hd; [|done].
  assert (0 < len d) by (destruct d as [|x r]; [done|rewrite len_cons; pose proof (len_nonneg r); lia]).
  case_if; [|done].
  destruct (index (take 8 d ++ replicate (8 - length d) 0) (len d - 1)) eqn:Hi; [done|].
  exfalso. unfold index in Hi. replace (len d - 1 <? 0) with false in Hi by (symmetry; apply Z.ltb_ge; lia).
  apply lookup_ge_None in Hi. rewrite length_app, length_take, length_replicate in Hi. unfold len in *. lia.
Qed.

Lemma int_field_wp t : is_Some (tok_op t) -> wp (int_field t) (fun _ => True).
Proof.
  intros [op Hop]. unfold int_field. case_if; [done|].
  unfold ScriptTokenizer_ExtractInt64, ScriptTokenizer_Opcode, ExtractInt64FromScript.
  rewrite Hop. simpl. unfold ScriptTokenizer_Data in *.
  destruct (tok_data t) as [d|]; [|by repeat case_if].
  apply extractScriptInt64_ok. simpl in *. lia.
Qed.

Lemma end_fields_wp t s : tok_at t s -> wp (end_fields t) (fun _ => True).
Proof.
  intros Ht. unfold end_fields. eapply wp_bind; [by eapply Next_wp|].
  intros [more t'] _. case_if; [done|]. by case_match.
Qed.

(** The steps of a decoder, one after the other. *)
Ltac decode_step :=
  match goal with
  | |- wp (rbind (next_field ?t) _) _ =>
      eapply wp_bind; [eapply next_field_wp; eassumption|];
      let t' := fresh "t" in let s' := fresh "s" in intros t' (s' & ? & ?); cbv beta
  | |- wp (rbind (int_field ?t) _) _ =>
      eapply wp_bind; [eapply int_field_wp; eassumption|]; intros ? _; cbv beta
  | |- wp (rbind (end_fields ?t) _) _ =>
      eapply wp_bind; [eapply end_fields_wp; eassumption|]; intros ? _; cbv beta
  end.

Definition script_ok (s : bytes) : Prop := bytes_ok s /\ len s < 2 ^ 31.

Lemma LimitOrderInvokeParam_Decode_wp data : script_ok data ->
  wp (LimitOrderInvokeParam_Decode data) (fun _ => True).
Proof.
  intros [Hb Hl]. pose proof (tok_at_start data Hb Hl). unfold LimitOrderInvokeParam_Decode.
  repeat decode_step. done.
Qed.

Lemma AddLiquidityInvokeParam_Decode_wp data : script_ok data ->
  wp (AddLiquidityInvokeParam_Decode data) (fun _ => True).
Proof.
  intros [Hb Hl]. pose proof (tok_at_start data Hb Hl). unfold AddLiquidityInvokeParam_Decode.
  repeat decode_step. done.
Qed.

Lemma RemoveLiquidityInvokeParam_Decode_wp data : script_ok data ->
  wp (RemoveLiquidityInvokeParam_Decode data) (fun _ => True).
Proof.
  intros [Hb Hl]. pose proof (tok_at_start data Hb Hl). unfold RemoveLiquidityInvokeParam_Decode.
  repeat decode_step. done.
Qed.

Lemma tok_trace_ops t tks : Forall (fun t => is_Some (tok_op t)) (tok_trace t tks).
Proof. revert t. induction tks; intros t; simpl; constructor; [by eexists|done]. Qed.

Lemma RefundInvokeParam_Decode_wp data : script_ok data ->
  wp (RefundInvokeParam_Decode data) (fun _ => True).
Proof.
  intros [Hb Hl]. unfold RefundInvokeParam_Decode. destruct data as [|c data]; [done|].
  destruct (tokenize_prefix (E := SettleError) (c :: data) Hb Hl) as (tks & rest & t & -> & _).
  simpl. eapply wp_bind; [|intros ids _; by case_match].
  apply (wp_rfold _ (fun l _ => Forall (fun t => is_Some (tok_op t)) l) (fun _ => True)); [apply tok_trace_ops| |done].
  intros t' r ids Hr. inversion Hr as [|? ? Hop ?]; subst. unfold refund_id, ScriptTokenizer_Opcode.
  destruct Hop as [op Hop]. rewrite Hop. simpl. case_if; [done|].
  eapply wp_bind; [|done]. eapply wp_bind; [eapply int_field_wp; by eexists|].
  intros ? _. by case_if.
Qed.

(** ** Round trips *)

(** A text that is written as itself: a single byte that an opcode stands for is
    read back as the empty text. *)
Definition text_ok (s : bytes) : Prop :=
  bytes_ok s /\ len s <= MaxScriptElementSize /\ small_int_data s = false.

Definition int_ok (n : Z) : Prop := is_int64 n /\ n <> - 2 ^ 63.

Lemma push_token_size d : bytes_ok d -> len d <= MaxScriptElementSize -> len (enc_token (push_token d)) <= 525.
Proof.
  intros Hd Hl. rewrite <- canonicalDataSize_token by done.
  unfold canonicalDataSize, MaxScriptElementSize in *. repeat case_match; bool_to_prop; lia.
Qed.

Lemma item_token_size i : item_ok i -> len (enc_token (item_token i)) <= 525.
Proof.
  destruct i as [op|d|v]; simpl.
  - intros [_ Hop]. unfold enc_token. simpl. by vm_compute.
  - intros [? ?]. by apply push_token_size.
  - intros [Hv Hm]. unfold int_token. case_if; [by vm_compute|]. case_if; [by vm_compute|].
    destruct (int_token_data v) as (d & -> & Hok & Hl & _); try done; try lia.
    apply push_token_size; [done|]. unfold MaxScriptElementSize. lia.
Qed.

Lemma items_size items : Forall item_ok items -> (length items <= 8)%nat ->
  len (enc_tokens (map item_token items)) <= MaxScriptSize.
Proof.
  intros Hi Hn. enough (len (enc_tokens (map item_token items)) <= 525 * Z.of_nat (length items))
    by (unfold MaxScriptSize; lia).
  clear Hn. induction Hi as [|i items Hi His IH]; [by vm_compute|].
  simpl map. rewrite enc_tokens_cons, len_app. simpl length. pose proof (item_token_size i Hi). lia.
Qed.

Lemma read_next t tk s : tok_at t (enc_token tk ++ s) -> wf_token tk ->
  exists t', next_field t = Ok t' /\ tok_at t' s /\ tok_op t' = Some (tk_op tk) /\ tok_data t' = tk_data tk.
Proof.
  intros Ht Hw. pose proof (tok_at_step _ _ _ Ht) as Hs. eexists. split_and!; [|exact Hs|done|done].
  unfold next_field. rewrite (Next_token _ _ _ Ht Hw). cbn [rbind].
  unfold ScriptTokenizer_Err. by rewrite (ta_err _ _ Hs).
Qed.

Lemma read_int t v s : tok_at t (enc_token (int_token v) ++ s) -> int_ok v ->
  exists t', next_field t = Ok t' /\ tok_at t' s /\ int_field t' = Ok v.
Proof.
  intros Ht [Hv Hm]. destruct (int_token_extract (E := SettleError) v Hv Hm) as (Hx & Hl & Hw).
  destruct (read_next _ _ _ Ht Hw) as (t' & Hn & Ht' & Hop & Hd). exists t'. split_and!; [done|done|].
  unfold int_field, ScriptTokenizer_ExtractInt64, ScriptTokenizer_Opcode, ScriptTokenizer_Data.
  rewrite Hop, Hd. z_test. done.
Qed.

Lemma read_text t d s : tok_at t (enc_token (push_token d) ++ s) -> text_ok d ->
  exists t', next_field t = Ok t' /\ tok_at t' s /\ slice (ScriptTokenizer_Data t') = d.
Proof.
  intros Ht (Hb & Hl & Hs). destruct (read_next _ _ _ Ht) as (t' & Hn & Ht' & Hop & Hd).
  { unfold MaxScriptElementSize in *. apply push_token_wf; [done|lia]. }
  exists t'. split_and!; [done|done|]. unfold ScriptTokenizer_Data. rewrite Hd. by apply push_token_slice.
Qed.

Lemma read_end t : tok_at t [] -> end_fields t = Ok tt.
Proof.
  intros Ht. unfold end_fields. rewrite (Next_end _ Ht). cbn [rbind].
  unfold ScriptTokenizer_Err. by rewrite (ta_err _ _ Ht).
Qed.

(** The script of a list of fields, and the tokenizer before it. *)
Lemma fields_script items : Forall item_ok items -> (length items <= 8)%nat ->
  exists b s, build (E := SettleError) items NewScriptBuilder = Ok b /\ ScriptBuilder_Script b = Some s
    /\ tok_at (MakeScriptTokenizer 0 s) (enc_tokens (map item_token items)).
Proof.
  intros Hi Hn. pose proof (items_size _ Hi Hn) as Hsz.
  eexists _, _. split_and!; [by apply build_fits|done|]. simpl.
  apply tok_at_start; [|unfold MaxScriptSize in Hsz; lia]. apply enc_tokens_ok, items_wf, Hi.
Qed.

Ltac read_fields :=
  repeat match goal with
  | H : tok_at _ (enc_tokens (int_token _ :: _)) |- _ =>
      rewrite enc_tokens_cons in H;
      let Hn := fresh in let Hf := fresh in
      apply read_int in H as (? & Hn & ? & Hf); [rewrite Hn; cbn [rbind]; rewrite Hf; cbn [rbind]; clear Hn|done]
  | H : tok_at _ (enc_tokens (push_token _ :: _)) |- _ =>
      rewrite enc_tokens_cons in H;
      let Hn := fresh in let Hf := fresh in
      apply read_text in H as (? & Hn & ? & Hf); [rewrite Hn; cbn [rbind]; clear Hn|done]
  | H : tok_at _ (enc_tokens []) |- _ =>
      apply read_end in H; rewrite H; cbn [rbind]; clear H
  end.

Lemma text_item d : text_ok d -> item_ok (BData d).
Proof. intros (? & ? & _). done. Qed.

(** C37: The parameters of swaps, of additions and of removals of liquidity are
    read back from the script their encoders write: for integers that a script
    number holds and texts that fit a push (other than a single byte written as an
    opcode), encoding succeeds and decoding the script gives the parameter. *)
Theorem params_roundtrip :
  (forall p, int_ok (lp_OrderType p) -> text_ok (lp_AssetName p) -> text_ok (lp_Amt p) -> text_ok (lp_UnitPrice p) ->
     exists s, LimitOrderInvokeParam_Encode p = Ok (Some s) /\ LimitOrderInvokeParam_Decode s = Ok p)
  /\ (forall p, int_ok (al_OrderType p) -> text_ok (al_AssetName p) -> text_ok (al_Amt p) -> int_ok (al_Value p) ->
     exists s, AddLiquidityInvokeParam_Encode p = Ok (Some s) /\ AddLiquidityInvokeParam_Decode s = Ok p)
  /\ (forall p, int_ok (rl_OrderType p) -> text_ok (rl_AssetName p) -> text_ok (rl_LptAmt p) ->
     exists s, RemoveLiquidityInvokeParam_Encode p = Ok (Some s) /\ RemoveLiquidityInvokeParam_Decode s = Ok p).
Proof.
  split_and!.
  - intros [o a m u]; simpl; intros Ho Ha Hm Hu.
    destruct (fields_script [BInt o; BData a; BData m; BData u]) as (b & s & Hb & Hs & Ht);
      [repeat constructor; try apply text_item; try apply Ho; done|simpl; lia|].
    exists s. simpl in Hb. unfold LimitOrderInvokeParam_Encode, LimitOrderInvokeParam_Decode. simpl.
    destruct (ScriptBuilder_AddInt64 o NewScriptBuilder); simplify_eq/=. rewrite Hs. split; [done|].
    read_fields. congruence.
  - intros [o a m v]; simpl; intros Ho Ha Hm Hv.
    destruct (fields_script [BInt o; BData a; BData m; BInt v]) as (b & s & Hb & Hs & Ht);
      [repeat constructor; try apply text_item; try apply Ho; try apply Hv; done|simpl; lia|].
    exists s. simpl in Hb. unfold AddLiquidityInvokeParam_Encode, AddLiquidityInvokeParam_Decode. simpl.
    destruct (ScriptBuilder_AddInt64 o NewScriptBuilder); simplify_eq/=.
    destruct (ScriptBuilder_AddInt64 v _); simplify_eq/=. rewrite Hs. split; [done|].
    read_fields. congruence.
  - intros [o a m]; simpl; intros Ho Ha Hm.
    destruct (fields_script [BInt o; BData a; BData m]) as (b & s & Hb & Hs & Ht);
      [repeat constructor; try apply text_item; try apply Ho; done|simpl; lia|].
    exists s. simpl in Hb. unfold RemoveLiquidityInvokeParam_Encode, RemoveLiquidityInvokeParam_Decode. simpl.
    destruct (ScriptBuilder_AddInt64 o NewScriptBuilder); simplify_eq/=. rewrite Hs. split; [done|].
    read_fields. congruence.
Qed.

Lemma params_roundtrip_witness :
  exists s, LimitOrderInvokeParam_Encode (mkLimitOrderParam 2 (str "ordx:f:pearl") (str "10") (str "1.5")) = Ok (Some s)
    /\ LimitOrderInvokeParam_Decode s = Ok (mkLimitOrderParam 2 (str "ordx:f:pearl") (str "10") (str "1.5")).
Proof.
  apply (proj1 params_roundtrip (mkLimitOrderParam 2 (str "ordx:f:pearl") (str "10") (str "1.5")));
    repeat split; try apply str_ok; by vm_compute.
Defined.

(** ** The parameter of an item *)

Lemma validateInvokeItemOrderType_wp i n : wp (validateInvokeItemOrderType i n) (fun _ => True).
Proof. unfold validateInvokeItemOrderType. by repeat case_if. Qed.

Lemma resolveInvokeItemAssetName_wp a b : wp (resolveInvokeItemAssetName a b) (fun _ => True).
Proof. unfold resolveInvokeItemAssetName. by repeat case_if. Qed.

Section items.
Context `{F : FixedOps}.

Lemma decodeLimitOrderItemParam_wp i : script_ok (it_Param i) ->
  wp (decodeLimitOrderItemParam i) (fun _ => True).
Proof.
  intros Hp. unfold decodeLimitOrderItemParam. destruct (it_Param i) eqn:He; [by case_if|]. rewrite <- He in *.
  eapply wp_bind; [by apply LimitOrderInvokeParam_Decode_wp|]. intros p _.
  eapply wp_bind; [apply validateInvokeItemOrderType_wp|]. intros _ _.
  by eapply wp_bind; [apply resolveInvokeItemAssetName_wp|].
Qed.

Lemma limitOrderItemPrice_wp i : script_ok (it_Param i) -> wp (limitOrderItemPrice i) (fun _ => True).
Proof. intros Hp. by eapply wp_bind; [apply decodeLimitOrderItemParam_wp|]. Qed.

Lemma limitOrderItemExpectedAmount_wp i : script_ok (it_Param i) ->
  wp (limitOrderItemExpectedAmount i) (fun d => exists s, d = parseDecimalOrZero s).
Proof.
  intros Hp. eapply wp_bind; [by apply decodeLimitOrderItemParam_wp|]. intros p _. by eexists.
Qed.

Lemma refundMatchesItem_wp i id : script_ok (it_Param i) -> wp (refundMatchesItem i id) (fun _ => True).
Proof.
  intros Hp. unfold refundMatchesItem, decodeRefundItemParam.
  eapply (wp_bind _ _ (fun _ => True)); [|intros ids _; by case_match].
  eapply wp_bind; [by apply RefundInvokeParam_Decode_wp|]. intros ids _.
  by eapply wp_bind; [apply validateInvokeItemOrderType_wp|].
Qed.

Lemma removeLiquidityItemAmount_wp i : script_ok (it_Param i) ->
  wp (removeLiquidityItemAmount i) (fun d => exists s, d = parseDecimalOrZero s).
Proof.
  intros Hp. unfold removeLiquidityItemAmount.
  eapply wp_bind; [by apply RemoveLiquidityInvokeParam_Decode_wp|]. intros p _.
  eapply wp_bind; [apply validateInvokeItemOrderType_wp|]. intros _ _.
  eapply wp_bind; [apply resolveInvokeItemAssetName_wp|]. intros _ _. by eexists.
Qed.

End items.
