(* ===== verification/Settlement.v ===== *)
(** The steps of a settlement that limit orders and the automated market maker
    share (contract/template/settlement.go): refunds of invalid items, refunds on
    request, the close of a contract by its deployer, and the totals a finished
    item adds to.  A settlement passes the state and the plan along. *)
From Stdlib Require Import ZArith List Bool Lia.
From stdpp Require Import base list numbers option strings gmap sorting.
From S2P Require Import Prelude FixedPoint TemplateState.
Open Scope Z_scope.

(** ** Sorting *)

(** [sort.SliceStable]: an element goes behind those it is not less than. *)
Fixpoint insert_stable {A : Type} (less : A -> A -> bool) (x : A) (l : list A) : list A :=
  match l with
  | [] => [x]
  | y :: r => if less x y then x :: l else y :: insert_stable less x r
  end.

Definition sort_stable {A : Type} (less : A -> A -> bool) (l : list A) : list A :=
  fold_left (fun s x => insert_stable less x s) l [].

(** [<] on strings. *)
Fixpoint bytes_ltb (a b : bytes) : bool :=
  match a, b with
  | _, [] => false
  | [], _ :: _ => true
  | x :: a, y :: b => (x <? y) || ((x =? y) && bytes_ltb a b)
  end.

(** ** The running data of a state *)

Definition emptyLimitOrder : LimitOrderRunningData :=
  mkLimitOrderData None None false None None None None None 0 None false.
Definition emptyAMM : AMMRunningData :=
  mkAMMData None None None None None None false None None None None None 0 None None ∅ ∅ false.
Definition emptyExchange : ExchangeRunningData := mkExchangeData None None None None None None None 0 None false.
Definition emptyAutopay : AutopayRunningData := mkAutopayData None false None [] 0 0 0 0 false ∅.

Definition LimitOrderData (s : TemplateRuntimeState) : LimitOrderRunningData := default emptyLimitOrder (rs_LimitOrder s).
Definition AMMData (s : TemplateRuntimeState) : AMMRunningData := default emptyAMM (rs_AMM s).
Definition ExchangeData (s : TemplateRuntimeState) : ExchangeRunningData := default emptyExchange (rs_Exchange s).
Definition AutopayData (s : TemplateRuntimeState) : AutopayRunningData := default emptyAutopay (rs_Autopay s).

(** The accessors allocate the running data of the contract. *)
Definition touch (contract : Contract) (s : TemplateRuntimeState) : TemplateRuntimeState :=
  match contract with
  | ALimitOrder _ => rs_set_LimitOrder (Some (LimitOrderData s)) s
  | AnAMM _ => rs_set_AMM (Some (AMMData s)) s
  | AnExchange _ _ => rs_set_Exchange (Some (ExchangeData s)) s
  | AnAutopay _ => rs_set_Autopay (Some (AutopayData s)) s
  end.

Definition ClosedForContract (contract : Contract) (s : TemplateRuntimeState) : bool :=
  match contract with
  | ALimitOrder _ => lo_Closed (LimitOrderData s)
  | AnAMM _ => am_Closed (AMMData s)
  | AnExchange _ _ => ex_Closed (ExchangeData s)
  | AnAutopay _ => ap_Closed (AutopayData s)
  end.

Definition markRunningClosed (contract : Contract) (s : TemplateRuntimeState) : TemplateRuntimeState :=
  match contract with
  | ALimitOrder _ => rs_set_LimitOrder (Some (lo_set_Closed true (LimitOrderData s))) s
  | AnAMM _ => rs_set_AMM (Some (am_set_Closed true (AMMData s))) s
  | AnExchange _ _ => rs_set_Exchange (Some (ex_set_Closed true (ExchangeData s))) s
  | AnAutopay _ => rs_set_Autopay (Some (ap_set_Closed true (AutopayData s))) s
  end.

Definition contractAssetName (contract : Contract) : bytes :=
  match contract with
  | ALimitOrder c => lc_AssetName c
  | AnAMM c => ac_AssetName c
  | AnExchange assetA _ => assetA
  | AnAutopay feeAsset => feeAsset
  end.

Definition defaultInvokePoolAssets `{F : FixedOps} (contract : Contract) : bytes * bytes :=
  match contract with
  | AnExchange assetA assetB => (assetA, assetB)
  | _ => (contractAssetName contract, SatoshiAssetName)
  end.

(** ** The plan *)

Definition emptyPlan (contract : bytes) (height : Z) : SettlementPlan := mkPlan contract height [] [] [] [].

Definition SettlementPlanHasChanges (plan : SettlementPlan) : bool :=
  negb (len (sp_Deals plan) =? 0) || negb (len (sp_Transfers plan) =? 0) || negb (len (sp_ItemIDs plan) =? 0).

Definition appendPlanItemID (ids : list Z) (id : Z) : list Z :=
  if existsb (Z.eqb id) ids then ids else ids ++ [id].

Definition add_item_id (id : Z) (plan : SettlementPlan) : SettlementPlan :=
  sp_set_ItemIDs (appendPlanItemID (sp_ItemIDs plan) id) plan.

Definition add_transfers (l : list SettlementTransfer) (plan : SettlementPlan) : SettlementPlan :=
  sp_set_Transfers (sp_Transfers plan ++ l) plan.

Definition add_deal (d : SettlementDeal) (plan : SettlementPlan) : SettlementPlan :=
  sp_set_Deals (sp_Deals plan ++ [d]) plan.

Definition addSettlementInputs (plan : SettlementPlan) (item : InvokeItem) : SettlementPlan :=
  if bool_decide (it_InUtxos item = []) then plan
  else
    let outpoints := omap (fun raw =>
      let raw := TrimSpace raw in
      if bool_decide (raw = []) then None
      else WireOutPointToFramework <$> ParseOutPoint raw) (split_on 44 (it_InUtxos item)) in
    sp_set_Inputs (UniqueOutPoints (sp_Inputs plan ++ outpoints)) plan.

Section settlement.
Context `{F : FixedOps}.

(** ** Refunds *)

Definition refundTransfer (item : InvokeItem) : SettlementTransfer :=
  let '(assetAmt, satValue) :=
    if it_OrderType item =? OrderTypeBuy then ([], int64 (it_OutValue item + it_RemainingValue item))
    else if it_OrderType item =? OrderTypeSell then (decimalString (it_RemainingAmt item), 0)
    else (decimalString (Some (DecimalAdd (or_zero (it_OutAmt item)) (or_zero (it_RemainingAmt item)))),
          int64 (it_OutValue item + it_RemainingValue item)) in
  mkTransfer (it_ID item) (it_Address item) (it_AssetName item) assetAmt satValue SettlementReasonRefund false.

(** [transfer.AssetAmt == "" && transfer.SatValue == 0]. *)
Definition nothing (t : SettlementTransfer) : bool := bool_decide (st_AssetAmt t = []) && (st_SatValue t =? 0).

(** The fields a refunded item is left with. *)
Definition refunded (t : SettlementTransfer) (item : InvokeItem) : InvokeItem :=
  set_RemainingValue 0 (set_RemainingAmt None (set_OutValue (st_SatValue t)
    (set_OutAmt (if bool_decide (st_AssetAmt t = []) then None else Some (parseDecimalOrZero (st_AssetAmt t)))
       (set_Done ItemStatusRefunded item)))).

Definition markItemRefunded (item : InvokeItem) : InvokeItem * SettlementTransfer :=
  let transfer := refundTransfer item in
  (refunded transfer item, transfer).

(** One turn of the inner loop of [applyRefunds]: item [j] for the request [i]. *)
Definition refund_item (i : nat) (s : list InvokeItem * SettlementPlan) (j : nat)
  : result SettleError (list InvokeItem * SettlementPlan) :=
  let '(items, plan) := s in
  let! refund := unwrap (items !! i) in
  let! item := unwrap (items !! j) in
  if (it_ID item =? it_ID refund) || Finished item || negb (bool_decide (it_Reason item = InvokeReasonNormal))
     || negb (bool_decide (it_Address item = it_Address refund))
  then Ok (items, plan)
  else
    let! matches := refundMatchesItem refund (it_ID item) in
    if negb matches then Ok (items, plan)
    else
      let transfer := refundTransfer item in
      if nothing transfer then Ok (items, plan)
      else
        let item := refunded transfer (set_Reason InvokeReasonRefund item) in
        Ok (<[j := item]> items,
            add_item_id (it_ID item) (add_transfers [transfer] (addSettlementInputs plan item))).

Definition refund_request (height : Z) (s : list InvokeItem * SettlementPlan) (i : nat)
  : result SettleError (list InvokeItem * SettlementPlan) :=
  let '(items, plan) := s in
  let! refund := unwrap (items !! i) in
  if Finished refund || negb (bool_decide (it_Reason refund = InvokeReasonNormal))
     || negb (it_OrderType refund =? OrderTypeRefund) || (it_Height refund >? height)
  then Ok (items, plan)
  else
    let! '(items, plan) := rfold (refund_item i) (items, plan) (seq 0 (length items)) in
    let! refund := unwrap (items !! i) in
    Ok (<[i := set_Reason InvokeReasonRefund (set_Done ItemStatusRefunded refund)]> items,
        add_item_id (it_ID refund) plan).

Definition applyRefunds (state : TemplateRuntimeState) (plan : SettlementPlan) (height : Z)
  : result SettleError (TemplateRuntimeState * SettlementPlan) :=
  let! '(items, plan) := rfold (refund_request height) (rs_Items state, plan) (seq 0 (length (rs_Items state))) in
  Ok (rs_set_Items items state, plan).

(** ** Invalid items *)

Definition invalidRefundTransfers (contract : Contract) (item : InvokeItem)
  : result SettleError (list SettlementTransfer) :=
  let '(assetA, assetB) := defaultInvokePoolAssets contract in
  let a := if positive (it_RetainedAssetA item) && negb (bool_decide (assetA = []))
           then [mkTransfer (it_ID item) (it_Address item) assetA
                   (from_option Decimal_String [] (it_RetainedAssetA item)) 0 SettlementReasonRefund false]
           else [] in
  if positive (it_RetainedAssetB item) && negb (bool_decide (assetB = [])) then
    if bool_decide (assetB = SatoshiAssetName) then
      let! value := decimalInt64 (it_RetainedAssetB item) in
      Ok (a ++ [mkTransfer (it_ID item) (it_Address item) [] [] value SettlementReasonRefund false])
    else if negb (bool_decide (assetB = assetA)) then
      Ok (a ++ [mkTransfer (it_ID item) (it_Address item) assetB
                  (from_option Decimal_String [] (it_RetainedAssetB item)) 0 SettlementReasonRefund false])
    else Ok a
  else Ok a.

Definition invalid_item (contract : Contract) (firstHeight height : Z)
  (s : list InvokeItem * SettlementPlan * bool) (i : nat)
  : result SettleError (list InvokeItem * SettlementPlan * bool) :=
  let '(items, plan, changed) := s in
  let! item := unwrap (items !! i) in
  if Finished item || negb (bool_decide (it_Reason item = InvokeReasonInvalid))
     || (it_Height item <? firstHeight) || (it_Height item >? height)
  then Ok (items, plan, changed)
  else
    let plan := addSettlementInputs plan item in
    let! transfers := invalidRefundTransfers contract item in
    let plan := add_item_id (it_ID item) (add_transfers transfers plan) in
    Ok (<[i := set_Done ItemStatusRefunded item]> items, plan, true).

Definition applyInvalidItemsInRange (contract : Contract) (state : TemplateRuntimeState) (plan : SettlementPlan)
  (firstHeight height : Z) : result SettleError (TemplateRuntimeState * SettlementPlan * bool) :=
  let! '(items, plan, changed) :=
    rfold (invalid_item contract firstHeight height) (rs_Items state, plan, false)
      (seq 0 (length (rs_Items state))) in
  Ok (rs_set_Items items state, plan, changed).

Definition applyInvalidItems (contract : Contract) (state : TemplateRuntimeState) (plan : SettlementPlan)
  (height : Z) : result SettleError (TemplateRuntimeState * SettlementPlan * bool) :=
  applyInvalidItemsInRange contract state plan (- 2 ^ 63) height.

(** ** Close *)

Definition clearAMMClosedPool (state : TemplateRuntimeState) : TemplateRuntimeState :=
  let r := AMMData state in
  rs_set_AMM (Some (am_set_LPCosts ∅ (am_set_LPBalances ∅ (am_set_TotalLPTAmt None
    (am_set_TradingReady false (am_set_K None (am_set_AssetBInPool None (am_set_AssetAInPool None r)))))))) state.

(** The holders that a close pays, in the order of their addresses. *)
Definition lp_holders (balances : gmap bytes (option Decimal)) : list (bytes * Decimal) :=
  omap (fun '(address, balance) =>
    match balance with
    | Some b => if bool_decide (address = []) || (Decimal_Sign b <=? 0) then None else Some (address, b)
    | None => None
    end) (map_to_list balances).

(** The payments of a close: every holder but the last gets a share, the last
    one gets what is left. *)
Fixpoint close_shares (itemID : Z) (assetName : bytes) (poolAsset : Decimal) (poolGas : Z) (totalLP : Decimal)
  (holders : list (bytes * Decimal)) (remainingAsset : Decimal) (remainingGas : Z)
  : result SettleError (list SettlementTransfer) :=
  match holders with
  | [] => Ok []
  | (address, balance) :: r =>
      let! '(assetOut, gasOut, remainingAsset, remainingGas) :=
        match r with
        | [] => Ok (remainingAsset, remainingGas, remainingAsset, remainingGas)
        | _ =>
            let assetOut := proportionalDecimal (Some poolAsset) (Some balance) (Some totalLP) in
            let! gasOut := proportionalInt64 poolGas (Some balance) (Some totalLP) in
            Ok (assetOut, gasOut, DecimalSub remainingAsset assetOut, int64 (remainingGas - gasOut))
        end in
      let! rest := close_shares itemID assetName poolAsset poolGas totalLP r remainingAsset remainingGas in
      if (Decimal_Sign assetOut <=? 0) && (gasOut <=? 0) then Ok rest
      else Ok (mkTransfer itemID address assetName (decimalString (Some assetOut)) gasOut
                 SettlementReasonRefund false :: rest)
  end.

Definition appendAMMLPCloseTransfers (state : TemplateRuntimeState) (plan : SettlementPlan) (item : InvokeItem)
  (assetName : bytes) : result SettleError SettlementPlan :=
  let running := AMMData state in
  if negb (positive (am_TotalLPTAmt running)) then Ok plan
  else
    let poolAsset := or_zero (am_AssetAInPool running) in
    let! poolGas := decimalInt64 (am_AssetBInPool running) in
    let holders := lp_holders (am_LPBalances running) in
    let totalLP := fold_left (fun t h => AddAlignPrecision t h.2) holders (parseDecimalOrZero (str "0")) in
    let sorted := sort_stable (fun a b => bytes_ltb a.1 b.1) holders in
    let! transfers := close_shares (it_ID item) assetName poolAsset poolGas totalLP sorted poolAsset poolGas in
    Ok (add_transfers transfers plan).

(** The refund of item [j] at a close. *)
Definition close_item (closeID height : Z) (s : list InvokeItem * SettlementPlan) (j : nat)
  : result SettleError (list InvokeItem * SettlementPlan) :=
  let '(items, plan) := s in
  let! item := unwrap (items !! j) in
  if (it_ID item =? closeID) || Finished item || (it_Height item >? height)
     || negb (bool_decide (it_Reason item = InvokeReasonNormal))
  then Ok (items, plan)
  else
    let transfer := refundTransfer item in
    let plan := if nothing transfer then plan else add_transfers [transfer] plan in
    let item := refunded transfer (set_Reason InvokeReasonRefund item) in
    Ok (<[j := item]> items, add_item_id (it_ID item) (addSettlementInputs plan item)).

(** The first open close request at [height] ends the loop. *)
Fixpoint close_loop (contract : Contract) (height : Z) (deployer : bytes) (indexes : list nat)
  (state : TemplateRuntimeState) (plan : SettlementPlan)
  : result SettleError (TemplateRuntimeState * SettlementPlan * bool) :=
  match indexes with
  | [] => Ok (state, plan, false)
  | i :: rest =>
      let! closeItem := unwrap (rs_Items state !! i) in
      if Finished closeItem || negb (bool_decide (it_Reason closeItem = InvokeReasonNormal))
         || negb (it_OrderType closeItem =? OrderTypeClose) || (it_Height closeItem >? height)
      then close_loop contract height deployer rest state plan
      else
        let plan := add_item_id (it_ID closeItem) (addSettlementInputs plan closeItem) in
        if negb (bool_decide (it_Address closeItem = deployer)) then
          let items := <[i := set_Done ItemStatusClosedDirectly (set_Reason InvokeReasonInvalid closeItem)]>
                         (rs_Items state) in
          Ok (rs_set_Items items state, plan, true)
        else
          let! '(items, plan) :=
            rfold (close_item (it_ID closeItem) height) (rs_Items state, plan) (seq 0 (length (rs_Items state))) in
          let state := rs_set_Items items state in
          let! '(state, plan) :=
            match contract with
            | AnAMM amm =>
                let! plan := appendAMMLPCloseTransfers state plan closeItem (ac_AssetName amm) in
                Ok (clearAMMClosedPool state, plan)
            | _ => Ok (state, plan)
            end in
          let! closeItem := unwrap (rs_Items state !! i) in
          let state := rs_set_Items (<[i := set_Done ItemStatusDealt closeItem]> (rs_Items state)) state in
          Ok (markRunningClosed contract state, plan, true)
  end.

Definition applyCloseItems (contract : Contract) (state : TemplateRuntimeState) (plan : SettlementPlan)
  (height : Z) (deployer : bytes) : result SettleError (TemplateRuntimeState * SettlementPlan * bool) :=
  let closed := ClosedForContract contract state in
  let state := touch contract state in
  if (closed : bool) then Ok (state, plan, false)
  else close_loop contract height deployer (seq 0 (length (rs_Items state))) state plan.

(** ** Totals of finished items *)

(** The totals of deals and refunds that a finished item adds to; limit orders
    and the market maker count the same way. *)
Definition finished_stats (item : InvokeItem)
  (totals : option Decimal * option Decimal * Z * option Decimal)
  : option Decimal * option Decimal * Z * option Decimal :=
  let '(dealA, dealB, count, refundB) := totals in
  let add_refund := decimalAddAllowNil refundB
    (Some (NewDefaultDecimal (int64 (it_OutValue item + it_RemainingValue item)))) in
  if bool_decide (it_Reason item = InvokeReasonInvalid) then totals
  else if (it_OrderType item =? OrderTypeBuy) || (it_OrderType item =? OrderTypeSell) then
    if it_Done item =? ItemStatusDealt then
      (match it_OutAmt item with
       | Some d => decimalAddAllowNil dealA (Some d)
       | None => dealA
       end, decimalAddAllowNil dealB (Some (NewDefaultDecimal (it_OutValue item))), int64 (count + 1), refundB)
    else if (it_Done item =? ItemStatusRefunded) || (it_Done item =? ItemStatusCancelled)
    then (dealA, dealB, count, add_refund)
    else totals
  else if it_OrderType item =? OrderTypeRefund then (dealA, dealB, count, add_refund)
  else totals.

Definition applyLimitOrderFinishedStats (r : LimitOrderRunningData) (item : InvokeItem) : LimitOrderRunningData :=
  let '(dealA, dealB, count, refundB) := finished_stats item
    (lo_TotalDealAssetA r, lo_TotalDealAssetB r, lo_TotalDealCount r, lo_TotalRefundAssetB r) in
  lo_set_TotalRefundAssetB refundB (lo_set_TotalDealCount count (lo_set_TotalDealAssetB dealB
    (lo_set_TotalDealAssetA dealA r))).

Definition applyAMMFinishedStats (r : AMMRunningData) (item : InvokeItem) : AMMRunningData :=
  let '(dealA, dealB, count, refundB) := finished_stats item
    (am_TotalDealAssetA r, am_TotalDealAssetB r, am_TotalDealCount r, am_TotalRefundAssetB r) in
  am_set_TotalRefundAssetB refundB (am_set_TotalDealCount count (am_set_TotalDealAssetB dealB
    (am_set_TotalDealAssetA dealA r))).

Definition applyExchangeFinishedStats (r : ExchangeRunningData) (item : InvokeItem) : ExchangeRunningData :=
  if negb (bool_decide (it_Reason item = InvokeReasonInvalid))
     && ((it_Done item =? ItemStatusRefunded) || (it_Done item =? ItemStatusCancelled)
         || (it_OrderType item =? OrderTypeRefund))
  then ex_set_TotalRefundAssetB (decimalAddAllowNil (ex_TotalRefundAssetB r)
         (Some (NewDefaultDecimal (int64 (it_OutValue item + it_RemainingValue item))))) r
  else r.

Definition item_stats (contract : Contract) (state : TemplateRuntimeState) (i : nat) : TemplateRuntimeState :=
  match rs_Items state !! i with
  | None => state
  | Some item =>
      if negb (Finished item) || it_StatsApplied item then state
      else
        let state :=
          match contract with
          | ALimitOrder _ => rs_set_LimitOrder (Some (applyLimitOrderFinishedStats (LimitOrderData state) item)) state
          | AnAMM _ => rs_set_AMM (Some (applyAMMFinishedStats (AMMData state) item)) state
          | AnExchange _ _ => rs_set_Exchange (Some (applyExchangeFinishedStats (ExchangeData state) item)) state
          | AnAutopay _ => state
          end in
        rs_set_Items (<[i := set_StatsApplied true item]> (rs_Items state)) state
  end.

(** What [saveRuntimeState] does before it encodes the state. *)
Definition applyFinishedItemStats (contract : Contract) (state : TemplateRuntimeState) : TemplateRuntimeState :=
  fold_left (item_stats contract) (seq 0 (length (rs_Items state))) state.

End settlement.
