(* ===== verification/SettleProofs.v ===== *)
(** The accounts of a settlement.

    A contract holds satoshis and one asset; what it owes at any time is its pool
    and the claims of its unfinished items.  The refunds and the close of a
    contract move amounts between the pool, the claims and the transfers of the
    plan without adding to their total: nothing is paid that was not owed. *)
From Stdlib Require Import ZArith List Bool Lia.
From stdpp Require Import base list numbers option strings gmap.
From S2P Require Import Prelude FixedPoint TemplateState TemplateParams Settlement.
Open Scope Z_scope.

(** ** Amounts in units of the finest precision *)

Definition finest (d : Decimal) : Prop := Precision d = MaxPriceDivisibility /\ 0 <= Value d.

Definition amount (d : option Decimal) : Z := from_option units 0 d.

(** Whole units, for satoshis kept as a decimal. *)
Definition whole (d : option Decimal) : Z := from_option (fun d => Value d / 10 ^ Precision d) 0 d.

Abbreviation if_set P d := (from_option P True d).

Lemma finest_fine d : finest d -> fine d.
Proof. unfold finest, fine, MaxPriceDivisibility. lia. Qed.

Lemma finest_units d : finest d -> units d = Value d.
Proof. intros [Hp _]. unfold units. rewrite Hp, Z.sub_diag. lia. Qed.

Lemma fine_units d : fine d -> 0 <= units d.
Proof.
  unfold fine, units. intros [Hp Hv]. pose proof (pow10_pos (MaxPriceDivisibility - Precision d)). nia.
Qed.

Lemma amount_nonneg d : if_set fine d -> 0 <= amount d.
Proof. destruct d; [apply fine_units|done]. Qed.

Section decimals.
Context `{F : FixedOps} {L : FixedLaws F}.

Lemma parse_zero : parseDecimalOrZero (str "0") = mkDecimal MaxPriceDivisibility 0.
Proof. unfold parseDecimalOrZero. rewrite bool_decide_false, read_zero by done. done. Qed.

Lemma parse_empty : parseDecimalOrZero [] = mkDecimal MaxPriceDivisibility 0.
Proof. unfold parseDecimalOrZero. rewrite bool_decide_true, new_decimal by done. done. Qed.

Lemma parse_places s : Precision (parseDecimalOrZero s) = MaxPriceDivisibility.
Proof.
  unfold parseDecimalOrZero. case_if; [by rewrite new_decimal|].
  destruct (NewDecimalFromString s _) eqn:H; [by eapply read_places|]. simpl. by rewrite new_decimal.
Qed.

Lemma or_zero_finest d : if_set finest d -> finest (or_zero d) /\ Value (or_zero d) = amount d.
Proof.
  unfold or_zero, default, amount. destruct d as [d|]; cbn [from_option].
  - intros H. split; [done|]. by rewrite finest_units.
  - intros _. by rewrite parse_zero.
Qed.

Lemma parse_decimalString d : if_set fine d ->
  parseDecimalOrZero (decimalString d) = mkDecimal MaxPriceDivisibility (amount d).
Proof.
  destruct d as [d|]; simpl; [|intros _; apply parse_empty].
  intros [Hp Hv]. rewrite sign_value. case_if.
  - rewrite parse_empty. f_equal. unfold units. assert (Value d = 0) as -> by lia. done.
  - unfold parseDecimalOrZero. rewrite bool_decide_false by apply string_nonempty.
    by rewrite string_read by lia.
Qed.

Lemma sub_finest a b : finest a -> finest b -> Value b <= Value a ->
  finest (DecimalSub a b) /\ Value (DecimalSub a b) = Value a - Value b.
Proof.
  intros [Ha ?] [Hb ?] ?. rewrite sub_exact by (unfold MaxPriceDivisibility in *; lia).
  unfold finest. simpl. rewrite Ha, Hb, Z.sub_diag, Z.pow_0_r. lia.
Qed.

Lemma add_finest a b : finest a -> fine b ->
  finest (DecimalAdd a b) /\ Value (DecimalAdd a b) = Value a + units b.
Proof.
  intros [Ha ?] Hb. pose proof (fine_units b Hb). destruct Hb. rewrite add_exact by lia.
  unfold finest, units in *. simpl. rewrite Ha in *. lia.
Qed.

Lemma cmp_same a b : 0 <= Precision a -> Precision a = Precision b -> Decimal_Cmp a b = Z.sgn (Value a - Value b).
Proof.
  intros Hp He. rewrite cmp_value, <- He by lia. pose proof (pow10_pos (Precision a) Hp).
  replace (Value a * 10 ^ Precision a - Value b * 10 ^ Precision a)
    with ((Value a - Value b) * 10 ^ Precision a) by ring.
  rewrite Z.sgn_mul, (Z.sgn_pos (10 ^ Precision a)) by lia. lia.
Qed.

Lemma cmp_units a b : fine a -> fine b -> Decimal_Cmp a b = Z.sgn (units a - units b).
Proof.
  intros [Ha ?] [Hb ?]. rewrite cmp_value by lia. unfold units. set (P := MaxPriceDivisibility) in *.
  pose proof (pow10_pos (Precision a)). pose proof (pow10_pos (Precision b)).
  pose proof (pow10_pos (P - Precision a)). pose proof (pow10_pos (P - Precision b)).
  assert (10 ^ P = 10 ^ (P - Precision a) * 10 ^ Precision a) by (rewrite <- Z.pow_add_r by lia; f_equal; lia).
  assert (10 ^ P = 10 ^ (P - Precision b) * 10 ^ Precision b) by (rewrite <- Z.pow_add_r by lia; f_equal; lia).
  assert (He : (Value a * 10 ^ Precision b - Value b * 10 ^ Precision a) * 10 ^ P
          = (Value a * 10 ^ (P - Precision a) - Value b * 10 ^ (P - Precision b))
            * (10 ^ Precision a * 10 ^ Precision b)) by nia.
  apply (f_equal Z.sgn) in He. rewrite !Z.sgn_mul in He.
  rewrite !(Z.sgn_pos (10 ^ _)) in He by (try apply pow10_pos; unfold P, MaxPriceDivisibility in *; lia).
  lia.
Qed.

Lemma decimalInt64_spec d : if_set (fun d => 0 <= Precision d /\ 0 <= Value d) d ->
  wp (decimalInt64 d) (fun n => n = whole d /\ 0 <= n < 2 ^ 63).
Proof.
  destruct d as [d|]; simpl; [|lia]. intros [Hp Hv].
  rewrite floor_value by done. unfold int64_or_error. case_if; simpl; [|done].
  case_if; simpl; [|done]. split; [done|]. split; [|lia]. apply Z.div_pos; [done|by apply pow10_pos].
Qed.

End decimals.

Lemma AddInt64_ok a b n : AddInt64 a b = (n, false) -> 0 <= a < 2 ^ 63 -> 0 <= b -> n = a + b /\ n < 2 ^ 63.
Proof. unfold AddInt64. case_if; [done|]. intros [= <-]. lia. Qed.

(** ** What a contract owes *)

(** The two things a contract holds. *)
Inductive holding : Type :=
| InAsset
| InSats.

(** What an unfinished item can be paid: an invalid item what was retained of its
    funding, any other what a refund returns.  The amount of a request to remove
    liquidity is one of shares, and no claim on the asset. *)
Definition claim (u : holding) (i : InvokeItem) : Z :=
  if Finished i then 0
  else if bool_decide (it_Reason i = InvokeReasonInvalid) then
    match u with
    | InAsset => amount (it_RetainedAssetA i)
    | InSats => whole (it_RetainedAssetB i)
    end
  else if bool_decide (it_Reason i = InvokeReasonNormal) then
    match u with
    | InAsset =>
        if it_OrderType i =? OrderTypeBuy then 0
        else if it_OrderType i =? OrderTypeSell then amount (it_RemainingAmt i)
        else if it_OrderType i =? OrderTypeRemoveLiquidity then amount (it_OutAmt i)
        else amount (it_OutAmt i) + amount (it_RemainingAmt i)
    | InSats => if it_OrderType i =? OrderTypeSell then 0 else it_OutValue i + it_RemainingValue i
    end
  else 0.

Definition sum_of {A : Type} (f : A -> Z) (l : list A) : Z := foldr (fun x n => f x + n) 0 l.

Definition claims (u : holding) (items : list InvokeItem) : Z := sum_of (claim u) items.

Definition pool (u : holding) (r : AMMRunningData) : Z :=
  match u with
  | InAsset => amount (am_AssetAInPool r)
  | InSats => whole (am_AssetBInPool r)
  end.

Definition owed (u : holding) (s : TemplateRuntimeState) : Z := claims u (rs_Items s) + pool u (AMMData s).

(** The numbers of an unfinished item: amounts are not negative, they are kept at
    the finest precision, and the satoshis of an item that is refunded in satoshis
    add up to an [int64].  The market maker fills an
    order at once, so that an open order to sell offers what it was funded with
    ([at_once]); a limit order may be filled in parts. *)
Record wf_normal (at_once : bool) (i : InvokeItem) : Prop := mkWfNormal {
  wf_RemainingAmt : if_set finest (it_RemainingAmt i);
  wf_OutAmt : if_set finest (it_OutAmt i);
  wf_OutValue : 0 <= it_OutValue i < 2 ^ 63;
  wf_RemainingValue : 0 <= it_RemainingValue i;
  wf_Values : it_OrderType i <> OrderTypeSell -> it_OutValue i + it_RemainingValue i < 2 ^ 63;
  wf_sell : at_once = true -> it_OrderType i = OrderTypeSell -> it_InAmt i = it_RemainingAmt i;
}.

Definition wf_invalid (i : InvokeItem) : Prop :=
  if_set fine (it_RetainedAssetA i) /\ if_set (fun d => 0 <= Precision d /\ 0 <= Value d) (it_RetainedAssetB i).

Definition wf_item (at_once : bool) (i : InvokeItem) : Prop :=
  script_ok (it_Param i) /\
  (Finished i = false ->
  (it_Reason i = InvokeReasonNormal -> wf_normal at_once i) /\ (it_Reason i = InvokeReasonInvalid -> wf_invalid i)).

Record wf_running (r : AMMRunningData) : Prop := mkWfRunning {
  wf_AssetA : if_set finest (am_AssetAInPool r);
  wf_AssetB : if_set (fun d => 0 <= Precision d /\ 0 <= Value d) (am_AssetBInPool r);
  wf_TotalLPT : if_set fine (am_TotalLPTAmt r);
  wf_LPBalances : map_Forall (fun _ b => if_set fine b) (am_LPBalances r);
}.

Definition wf_state (s : TemplateRuntimeState) : Prop :=
  Forall (wf_item true) (rs_Items s) /\ wf_running (AMMData s).

Lemma sum_of_app {A} (f : A -> Z) l k : sum_of f (l ++ k) = sum_of f l + sum_of f k.
Proof. induction l as [|x l IH]; simpl; [done|]. rewrite IH. lia. Qed.

Lemma sum_of_insert {A} (f : A -> Z) l i x y : l !! i = Some x ->
  sum_of f (<[i := y]> l) = sum_of f l - f x + f y.
Proof.
  revert i. induction l as [|z l IH]; intros [|i] H; simplify_eq/=; [lia|].
  rewrite (IH _ H). lia.
Qed.

Lemma claim_finished u i : Finished i = true -> claim u i = 0.
Proof. unfold claim. by intros ->. Qed.

Lemma wf_finished b i : Finished i = true -> script_ok (it_Param i) -> wf_item b i.
Proof. unfold wf_item. intuition congruence. Qed.

Lemma whole_nonneg d : if_set (fun d => 0 <= Precision d /\ 0 <= Value d) d -> 0 <= whole d.
Proof. destruct d as [d|]; simpl; [|done]. intros [? ?]. apply Z.div_pos; [done|by apply pow10_pos]. Qed.

Lemma if_set_finest_fine d : if_set finest d -> if_set fine d.
Proof. destruct d; simpl; [apply finest_fine|done]. Qed.
#[export] Hint Resolve finest_fine if_set_finest_fine amount_nonneg whole_nonneg : core.

Lemma claim_nonneg b u i : wf_item b i -> 0 <= claim u i.
Proof.
  unfold claim. intros [_ H]. case_if; [done|]. destruct (H eq_refl) as (Hn & Hv).
  case_if; [|case_if; [|done]].
  - destruct Hv as [? ?]; [by eapply bool_decide_eq_true_1|]. destruct u; auto.
  - destruct Hn as [? ? ? ? ? ?]; [by eapply bool_decide_eq_true_1|].
    pose proof (amount_nonneg (it_RemainingAmt i)). pose proof (amount_nonneg (it_OutAmt i)).
    destruct u; repeat case_if; auto; try lia. apply Z.add_nonneg_nonneg; auto.
Qed.

(** An open item that is refunded in the asset it was funded with. *)
Definition backed (i : InvokeItem) : Prop :=
  Finished i = true \/ it_OrderType i <> OrderTypeRemoveLiquidity \/ amount (it_RemainingAmt i) = 0.

(** An item that asks neither for refunds nor for the close of the contract. *)
Definition quiet (i : InvokeItem) : Prop :=
  Finished i = true \/ (it_OrderType i <> OrderTypeRefund /\ it_OrderType i <> OrderTypeClose).

(** The requests of a state find its items backed, or there are none. *)
Abbreviation backed_or_quiet items := (Forall backed items \/ Forall quiet items).

Lemma deals_inputs plan i : sp_Deals (addSettlementInputs plan i) = sp_Deals plan.
Proof. unfold addSettlementInputs. by case_if. Qed.

Lemma deals_add_item_id id plan : sp_Deals (add_item_id id plan) = sp_Deals plan.
Proof. done. Qed.
Lemma deals_add_transfers l plan : sp_Deals (add_transfers l plan) = sp_Deals plan.
Proof. done. Qed.

(** The deals of a plan are those of the plan it was built from. *)
Ltac plan_deals :=
  repeat case_match; rewrite ?deals_add_item_id, ?deals_add_transfers, ?deals_inputs, ?deals_add_item_id; reflexivity.

Section accounts.
Context `{F : FixedOps} {L : FixedLaws F}.
Context {at_once : bool}.

Definition paid (u : holding) (t : SettlementTransfer) : Z :=
  match u with
  | InAsset => Value (parseDecimalOrZero (st_AssetAmt t))
  | InSats => st_SatValue t
  end.

Definition paid_out (u : holding) (plan : SettlementPlan) : Z := sum_of (paid u) (sp_Transfers plan).

(** Claims and payments together. *)
Definition account (u : holding) (items : list InvokeItem) (plan : SettlementPlan) : Z :=
  claims u items + paid_out u plan.

Lemma paid_add_transfers u l plan : paid_out u (add_transfers l plan) = paid_out u plan + sum_of (paid u) l.
Proof. apply sum_of_app. Qed.
Lemma paid_add_transfer u t plan : paid_out u (add_transfers [t] plan) = paid_out u plan + paid u t.
Proof. rewrite paid_add_transfers. simpl. lia. Qed.
Lemma paid_add_item_id u id plan : paid_out u (add_item_id id plan) = paid_out u plan.
Proof. done. Qed.
Lemma paid_add_deal u d plan : paid_out u (add_deal d plan) = paid_out u plan.
Proof. done. Qed.
Lemma paid_inputs u plan i : paid_out u (addSettlementInputs plan i) = paid_out u plan.
Proof. unfold addSettlementInputs. by case_if. Qed.

Lemma paid_nothing u t : nothing t = true -> paid u t = 0.
Proof.
  unfold nothing, paid. intros [He Hs]%andb_true_iff. bool_to_prop. apply bool_decide_eq_true_1 in He.
  rewrite He, parse_empty. by destruct u.
Qed.

(** A refund returns the claim of the item. *)
Lemma refundTransfer_paid u i : Finished i = false -> it_Reason i = InvokeReasonNormal -> wf_normal at_once i -> backed i ->
  paid u (refundTransfer i) = claim u i.
Proof.
  intros Hf Hr [Ha Ho ? ? ? ?] Hk. unfold claim, refundTransfer. rewrite Hf, Hr.
  rewrite (bool_decide_false (InvokeReasonNormal = InvokeReasonInvalid)), bool_decide_true by done.
  assert (Hv : it_OrderType i <> OrderTypeSell ->
    int64 (it_OutValue i + it_RemainingValue i) = it_OutValue i + it_RemainingValue i)
    by (intros; apply int64_id; unfold is_int64; lia).
  destruct (or_zero_finest _ Ha) as [Hza Hva], (or_zero_finest _ Ho) as [Hzo Hvo].
  destruct (it_OrderType i =? OrderTypeBuy) eqn:Hb.
  - apply Z.eqb_eq in Hb. rewrite Hb. destruct u; cbn [paid st_AssetAmt st_SatValue]; [by rewrite parse_empty|].
    apply Hv. by rewrite Hb.
  - destruct (it_OrderType i =? OrderTypeSell) eqn:Hs; destruct u; cbn [paid st_AssetAmt st_SatValue].
    + rewrite parse_decimalString by auto. done.
    + done.
    + destruct (add_finest _ (or_zero (it_RemainingAmt i)) Hzo) as [Hadd Hvadd]; [auto|].
      rewrite parse_decimalString by (simpl; auto). cbn [Value amount from_option].
      rewrite finest_units, Hvadd, (finest_units (or_zero _)), Hva, Hvo by done.
      case_if; [|lia]. destruct Hk as [?|[?|?]]; [congruence|done|lia].
    + apply Hv. by apply Z.eqb_neq.
Qed.

Lemma refunded_finished t i : Finished (refunded t i) = true.
Proof. done. Qed.

(** ** Refunds *)

(** Items and plan after a stage, against those before it. *)
Record staged (p q : list InvokeItem * SettlementPlan) : Prop := mkStaged {
  sg_wf : Forall (wf_item at_once) q.1;
  sg_length : length q.1 = length p.1;
  sg_account u : account u q.1 q.2 <= account u p.1 p.2;
  sg_deals : sp_Deals q.2 = sp_Deals p.2;
  sg_finish (P : InvokeItem -> Prop) : (forall i, Finished i = true -> P i) -> Forall P p.1 -> Forall P q.1;
}.

Lemma staged_refl p : Forall (wf_item at_once) p.1 -> staged p p.
Proof. intros. by split. Qed.

Lemma staged_trans p q r : staged p q -> staged q r -> staged p r.
Proof.
  intros [? ? H1 ? K1] [? ? H2 ? K2]. split; [done|congruence| |congruence|auto]. intros u. etrans; [apply H2|apply H1].
Qed.

(** An item is finished and at most its claim is paid. *)
Lemma staged_finish items plan plan' i item item' :
  Forall (wf_item at_once) items -> items !! i = Some item -> Finished item' = true -> it_Param item' = it_Param item ->
  sp_Deals plan' = sp_Deals plan -> (forall u, paid_out u plan' <= paid_out u plan + claim u item) ->
  staged (items, plan) (<[i := item']> items, plan').
Proof.
  intros Hwf Hi Hf Hs Hd Hp. split; simpl; [..|done|].
  - apply Forall_insert; [done|]. apply wf_finished; [done|]. rewrite Hs. by apply (Forall_lookup_1 _ _ _ _ Hwf Hi).
  - apply length_insert.
  - intros u. unfold account, claims. rewrite (sum_of_insert _ _ _ _ _ Hi), (claim_finished _ _ Hf).
    specialize (Hp u). lia.
  - intros P HP HPs. apply Forall_insert; auto.
Qed.

(** An unfinished item with no reason is well formed. *)
Lemma wf_item_normal i : wf_item at_once i -> Finished i = false -> it_Reason i = InvokeReasonNormal -> wf_normal at_once i.
Proof. intros [_ H] Hf Hr. destruct (H Hf) as [Hn _]. auto. Qed.

Lemma wf_lookup items i item : Forall (wf_item at_once) items -> items !! i = Some item -> wf_item at_once item.
Proof. intros H Hi. by eapply Forall_lookup_1. Qed.

Lemma Forall_lt_seq n : Forall (fun i => (i < n)%nat) (seq 0 n).
Proof. apply Forall_seq. lia. Qed.

(** A loop over the indexes of the items, in stages; [J] is kept besides. *)
Lemma staged_loop {S} (view : S -> list InvokeItem * SettlementPlan) (J : S -> Prop)
  (f : S -> nat -> result SettleError S) s0 :
  Forall (wf_item at_once) (view s0).1 -> J s0 ->
  (forall s j item, Forall (wf_item at_once) (view s).1 -> J s -> (view s).1 !! j = Some item ->
     wp (f s j) (fun s' => staged (view s) (view s') /\ J s')) ->
  wp (rfold f s0 (seq 0 (length (view s0).1))) (fun s' => staged (view s0) (view s') /\ J s').
Proof.
  intros Hwf HJ Hf.
  apply (wp_rfold _ (fun l s' =>
    Forall (fun i => (i < length (view s0).1)%nat) l /\ staged (view s0) (view s') /\ J s')).
  - split; [apply Forall_lt_seq|]. split; [by apply staged_refl|done].
  - intros j r s (Hl & Hs & Hj). inversion Hl as [|? ? Hlt Hr]; subst.
    pose proof Hs as [Hw' Hlen _ _ _]. rewrite <- Hlen in Hlt. apply lookup_lt_is_Some_2 in Hlt as [item Hi].
    eapply wp_mono; [by eapply Hf|]. intros s' [H2 H3]. split; [done|]. split; [by eapply staged_trans|done].
  - by intros s (_ & ? & ?).
Qed.

Lemma refund_item_spec i s j item :
  Forall (wf_item at_once) s.1 -> Forall backed s.1 -> s.1 !! j = Some item -> (i < length s.1)%nat ->
  wp (refund_item i s j) (staged s).
Proof.
  destruct s as [items plan]. cbn [fst snd].
  intros Hwf Hk Hj [refund Hi]%lookup_lt_is_Some_2. unfold refund_item. rewrite Hi, Hj. cbn [rbind unwrap].
  case_if; [by apply staged_refl|]. destruct_and?.
  eapply wp_bind; [eapply refundMatchesItem_wp, (wf_lookup _ _ _ Hwf Hi)|]. intros m _.
  case_if; [by apply staged_refl|]. case_if; [by apply staged_refl|].
  apply bool_decide_eq_true_1 in H1.
  pose proof (wf_item_normal item (wf_lookup _ _ _ Hwf Hj) H2 H1) as Hn.
  eapply staged_finish; [done|done|done|done|plan_deals|]. intros u.
  rewrite paid_add_item_id, paid_add_transfer, paid_inputs, refundTransfer_paid
    by (done || by eapply (Forall_lookup_1 _ _ _ _ Hk)). lia.
Qed.

Lemma backed_finished i : Finished i = true -> backed i.
Proof. by left. Qed.
Lemma quiet_finished i : Finished i = true -> quiet i.
Proof. by left. Qed.

Lemma refund_request_spec height s i item :
  Forall (wf_item at_once) s.1 -> Forall backed s.1 -> s.1 !! i = Some item -> wp (refund_request height s i) (staged s).
Proof.
  destruct s as [items plan]. cbn [fst snd]. intros Hwf Hk Hi. unfold refund_request. rewrite Hi. cbn [rbind unwrap].
  case_if; [by apply staged_refl|].
  assert (Hlt : (i < length items)%nat) by (by eapply lookup_lt_Some).
  eapply wp_bind.
  - apply (staged_loop id (fun s => length s.1 = length items /\ Forall backed s.1) (refund_item i) (items, plan));
      [done|done|].
    intros s j item' Hw [HJ Hb] Hj. eapply wp_mono; [eapply (refund_item_spec i s j); [done|done|done|lia]|].
    intros s' Hs'. split; [done|]. rewrite (sg_length _ _ Hs'). split; [done|].
    by apply (sg_finish _ _ Hs'); [apply backed_finished|].
  - intros [items' plan'] [Hs [HJ _]]. simpl in HJ. rewrite <- HJ in Hlt.
    apply lookup_lt_is_Some_2 in Hlt as [refund Hr]. rewrite Hr. simpl.
    eapply staged_trans; [exact Hs|]. eapply staged_finish; [apply Hs|done|done|done|plan_deals|].
    intros u. rewrite paid_add_item_id. pose proof (claim_nonneg at_once u refund (wf_lookup _ _ _ (sg_wf _ _ Hs) Hr)). lia.
Qed.

(** Without requests nothing is refunded. *)
Lemma refund_request_quiet height items plan i item : items !! i = Some item -> quiet item ->
  refund_request height (items, plan) i = Ok (items, plan).
Proof.
  intros Hi Hq. unfold refund_request. rewrite Hi. cbn [rbind unwrap].
  destruct Hq as [->|[Hq _]]; [done|]. case_if; [done|]. destruct_and?. done.
Qed.

Lemma staged_backed_or_quiet p q : staged p q -> backed_or_quiet p.1 -> backed_or_quiet q.1.
Proof.
  intros Hs [H|H]; [left|right]; apply (sg_finish _ _ Hs); auto using backed_finished, quiet_finished.
Qed.

Lemma applyRefunds_spec state plan height : Forall (wf_item at_once) (rs_Items state) -> backed_or_quiet (rs_Items state) ->
  wp (applyRefunds state plan height) (fun '(state', plan') =>
    staged (rs_Items state, plan) (rs_Items state', plan') /\ rs_AMM state' = rs_AMM state).
Proof.
  intros Hwf Hbq. unfold applyRefunds.
  eapply wp_bind; [|intros [items plan'] Hs; exact (conj Hs eq_refl)].
  assert (Hone : forall s i item, Forall (wf_item at_once) s.1 -> backed_or_quiet s.1 -> s.1 !! i = Some item ->
    wp (refund_request height s i) (staged s)).
  { intros [items plan'] i item Hw [Hk|Hq] Hi; [by eapply refund_request_spec|].
    erewrite refund_request_quiet; [by apply staged_refl|done|by eapply (Forall_lookup_1 _ _ _ _ Hq)]. }
  eapply wp_mono; [apply (staged_loop id (fun s => backed_or_quiet s.1) (refund_request height)
    (rs_Items state, plan)); [done|done|]|by intros s [Hs _]].
  intros s i item Hw Hb Hi. eapply wp_mono; [by eapply Hone|]. intros s' Hs'. split; [done|].
  by eapply staged_backed_or_quiet.
Qed.

(** *** Invalid items *)

(** Transfers are only added by a change. *)
Definition tracked (plan : SettlementPlan) (changed : bool) : Prop := sp_Transfers plan <> [] -> changed = true.

Lemma invalidRefundTransfers_spec contract name item :
  defaultInvokePoolAssets contract = (name, SatoshiAssetName) -> wf_invalid item -> Finished item = false ->
  it_Reason item = InvokeReasonInvalid ->
  wp (invalidRefundTransfers contract item) (fun l => forall u, sum_of (paid u) l <= claim u item).
Proof.
  intros Hc [Ha Hb] Hf Hr. unfold invalidRefundTransfers, claim. rewrite Hf, Hr, bool_decide_true, Hc by done.
  set (a := if positive (it_RetainedAssetA item) && _ then _ else _).
  assert (Hpa : forall u, sum_of (paid u) a <= match u with InAsset => amount (it_RetainedAssetA item) | InSats => 0 end).
  { intros u. subst a. pose proof (amount_nonneg _ Ha). case_if; [|destruct u; simpl; lia].
    destruct (it_RetainedAssetA item) as [d|]; [|done]. simpl in *.
    assert (Hs : Decimal_String d = decimalString (Some d)).
    { simpl. rewrite sign_value in *. z_test. done. }
    destruct u; simpl; [|lia]. rewrite Hs, parse_decimalString by done. simpl. lia. }
  pose proof (whole_nonneg _ Hb) as Hw.
  case_if; [|intros u; specialize (Hpa u); destruct u; simpl in *; lia].
  rewrite bool_decide_true by done.
  eapply wp_bind; [by apply decimalInt64_spec|]. intros v [-> _] u. specialize (Hpa u).
  rewrite sum_of_app. destruct u; simpl in *; rewrite ?parse_empty; simpl; lia.
Qed.

Lemma invalid_item_spec contract name first height s i item :
  defaultInvokePoolAssets contract = (name, SatoshiAssetName) ->
  Forall (wf_item at_once) s.1.1 -> tracked s.1.2 s.2 -> s.1.1 !! i = Some item ->
  wp (invalid_item contract first height s i) (fun s' => staged s.1 s'.1 /\ tracked s'.1.2 s'.2).
Proof.
  destruct s as [[items plan] changed]. cbn [fst snd]. intros Hc Hwf Ht Hi. unfold invalid_item. rewrite Hi. cbn [rbind unwrap].
  case_if; [split; [by apply staged_refl|done]|]. destruct_and?. apply bool_decide_eq_true_1 in H2.
  pose proof (wf_lookup _ _ _ Hwf Hi) as [_ [_ Hv]]; [done|].
  eapply wp_bind; [by eapply invalidRefundTransfers_spec; eauto|]. intros l Hl. simpl. split; [|done].
  eapply staged_finish; [done|done|done|done|plan_deals|]. intros u.
  rewrite paid_add_item_id, paid_add_transfers, paid_inputs. specialize (Hl u). lia.
Qed.

Lemma applyInvalidItems_spec contract name state plan height :
  defaultInvokePoolAssets contract = (name, SatoshiAssetName) -> Forall (wf_item at_once) (rs_Items state) -> sp_Transfers plan = [] ->
  wp (applyInvalidItems contract state plan height) (fun '(state', plan', changed) =>
    staged (rs_Items state, plan) (rs_Items state', plan') /\ rs_AMM state' = rs_AMM state
    /\ tracked plan' changed).
Proof.
  intros Hc Hwf Hp. unfold applyInvalidItems, applyInvalidItemsInRange. eapply wp_bind.
  - apply (staged_loop fst (fun s => tracked s.1.2 s.2) _ (rs_Items state, plan, false)); [done| |].
    + unfold tracked. simpl. by rewrite Hp.
    + intros. by eapply invalid_item_spec.
  - intros [[items plan'] changed] [Hs Ht]. done.
Qed.

(** ** Close *)

Lemma insert_stable_perm {A} (less : A -> A -> bool) x l : insert_stable less x l ≡ₚ x :: l.
Proof. induction l as [|y l IH]; simpl; [done|]. case_if; [done|]. rewrite IH. apply Permutation_swap. Qed.

Lemma sort_stable_perm {A} (less : A -> A -> bool) l : sort_stable less l ≡ₚ l.
Proof.
  unfold sort_stable. enough (H : forall acc, fold_left (fun s x => insert_stable less x s) l acc ≡ₚ l ++ acc)
    by (rewrite H; by rewrite app_nil_r).
  induction l as [|x l IH]; intros acc; simpl; [done|].
  rewrite IH, insert_stable_perm. by rewrite Permutation_middle.
Qed.

Lemma sum_of_perm {A} (f : A -> Z) l k : l ≡ₚ k -> sum_of f l = sum_of f k.
Proof. induction 1; simpl; lia. Qed.

Lemma rescale_same d : Precision d = MaxPriceDivisibility -> NewPrecision d MaxPriceDivisibility = d.
Proof.
  intros Hp. rewrite rescale_up by (unfold MaxPriceDivisibility in *; lia).
  rewrite Hp, Z.sub_diag, Z.pow_0_r, Z.mul_1_r, <- Hp. by destruct d.
Qed.

(** At any number of places that holds both, amounts are proportional to their
    units. *)
Lemma rescale_units d p : fine d -> Precision d <= p <= MaxPriceDivisibility ->
  Value (NewPrecision d p) * 10 ^ (MaxPriceDivisibility - p) = units d.
Proof.
  intros [Hd ?] Hp. rewrite rescale_up by lia. unfold units. simpl.
  rewrite <- Z.mul_assoc, <- Z.pow_add_r by lia. do 2 f_equal. lia.
Qed.

(** A share of an amount. *)
Lemma proportional_value v p t : 0 <= Value v -> fine p -> fine t -> 0 < units p -> 0 < units t ->
  proportionalDecimal (Some v) (Some p) (Some t) = mkDecimal (Precision v) (Value v * units p / units t).
Proof.
  intros Hv Hp Ht Hpu Htu. unfold proportionalDecimal. rewrite !sign_value.
  assert (0 < Value p /\ 0 < Value t) as [Hp0 Ht0].
  { destruct Hp as [? ?], Ht as [? ?]. unfold units in *. nia. }
  destruct (Z.eq_dec (Value v) 0) as [He|Hne]; [rewrite He; simpl; by rewrite Z.div_0_l by lia|]. z_test.
  set (q := Z.max _ _). assert (Hq : Precision p <= q <= MaxPriceDivisibility /\ Precision t <= q)
    by (destruct Hp, Ht; lia).
  pose proof (pow10_pos (MaxPriceDivisibility - q)) as Hpow.
  rewrite <- (rescale_units p q), <- (rescale_units t q) in * by (done || lia).
  rewrite Z.mul_assoc, Z.div_mul_cancel_r, Z.quot_div_nonneg by nia. done.
Qed.

Lemma proportionalInt64_value n p t : 0 <= n < 2 ^ 63 -> fine p -> fine t -> 0 < units p <= units t ->
  proportionalInt64 n (Some p) (Some t) = Ok (n * units p / units t).
Proof.
  intros Hn Hp Ht Hle. unfold proportionalInt64.
  rewrite proportional_value; [|rewrite default_decimal; simpl; lia|done|done|lia|lia].
  rewrite default_decimal, floor_value by done. simpl. rewrite Z.div_1_r, !sign_value.
  assert (0 < Value p /\ 0 < Value t) as [Hp0 Ht0].
  { destruct Hp as [? ?], Ht as [? ?]. unfold units in *. nia. }
  destruct (Z.eq_dec n 0) as [->|Hne]; [by rewrite Z.div_0_l by lia|]. z_test.
  assert (0 <= n * units p / units t) by (apply Z.div_pos; nia).
  assert (n * units p / units t <= n) by (apply Z.div_le_upper_bound; nia).
  unfold int64_or_error. z_test. done.
Qed.

Definition holder_ok (h : bytes * Decimal) : Prop := fine h.2 /\ 0 < units h.2.

Abbreviation shares l := (sum_of (fun h : bytes * Decimal => units h.2) l).

Lemma lp_holders_ok balances : map_Forall (fun _ b => if_set fine b) balances ->
  Forall holder_ok (lp_holders balances).
Proof.
  intros H. apply Forall_forall. intros [a b] Hin. apply list_elem_of_omap in Hin as ([a' [d|]] & Hin & He); [|done].
  destruct (bool_decide (a' = []) || (Decimal_Sign d <=? 0)) eqn:Hd; [done|]. simplify_eq/=. bool_to_prop.
  apply elem_of_map_to_list in Hin. specialize (H _ _ Hin). simpl in H.
  rewrite sign_value in *. split; [done|]. simpl. destruct H. unfold units.
  pose proof (pow10_pos (MaxPriceDivisibility - Precision b)). nia.
Qed.

Lemma align_finest t d : finest t -> fine d ->
  finest (AddAlignPrecision t d) /\ Value (AddAlignPrecision t d) = Value t + units d.
Proof.
  intros [Htp Htv] Hd. pose proof (fine_units d Hd). destruct Hd as [? ?].
  rewrite align_exact by (unfold MaxPriceDivisibility in *; lia). unfold finest, units in *. simpl.
  rewrite Htp, Z.max_l, Z.sub_diag, Z.pow_0_r by lia. lia.
Qed.

Lemma total_shares l t : Forall holder_ok l -> finest t ->
  let r := fold_left (fun t h => AddAlignPrecision t h.2) l t in
  finest r /\ Value r = Value t + shares l.
Proof.
  intros Hl. revert t. induction Hl as [|h l [Hf H0] Hl IH]; intros t Ht; simpl; [split; [done|lia]|].
  destruct (align_finest t h.2 Ht Hf) as [Ht' Hv]. destruct (IH _ Ht') as [? Hr].
  split; [done|]. rewrite Hr. lia.
Qed.

(** [R] covers a share [B / T] of [A]: then it covers any part of that share, and
    what is left covers the rest. *)
Lemma share_covered A T B R b : 0 <= A -> 0 < T -> 0 < b <= B -> A * B <= R * T ->
  0 <= A * b / T <= R /\ A * (B - b) <= (R - A * b / T) * T.
Proof.
  intros HA HT Hb HR. assert (0 <= A * b / T) by (apply Z.div_pos; nia).
  assert (T * (A * b / T) <= A * b) by (apply Z.mul_div_le; lia). split; [|nia].
  split; [done|]. apply (Z.mul_le_mono_pos_r _ _ T); [done|]. nia.
Qed.

Lemma paid_share u id a n asset gas : finest asset ->
  paid u (mkTransfer id a n (decimalString (Some asset)) gas SettlementReasonRefund false)
  = match u with InAsset => Value asset | InSats => gas end.
Proof.
  intros H. destruct u; [|done]. unfold paid. cbn [st_AssetAmt].
  rewrite parse_decimalString by (simpl; auto). cbn [Value amount from_option]. by apply finest_units.
Qed.

(** The transfers of a close add up to no more than the pool. *)
Lemma close_shares_spec id name A G T l R S :
  finest A -> 0 <= G < 2 ^ 63 -> finest T -> Forall holder_ok l ->
  finest R -> 0 <= S < 2 ^ 63 -> shares l <= Value T ->
  Value A * shares l <= Value R * Value T -> G * shares l <= S * Value T ->
  wp (close_shares id name A G T l R S) (fun ts => forall u,
    sum_of (paid u) ts <= match u with InAsset => Value R | InSats => S end).
Proof.
  intros HA HG HT Hl. revert R S. induction Hl as [|[a b] l [Hb Hb0] Hl IH]; intros R S HR HS Hsum HcA HcG.
  { intros u. simpl. destruct HR. destruct u; lia. }
  cbn [close_shares sum_of foldr snd] in *. fold (shares l) in *. set (B := shares l) in *.
  assert (HB : 0 <= B).
  { subst B. clear -Hl. induction Hl as [|h l [_ ?] _ IH]; simpl; lia. }
  assert (Hskip : forall asset gas rest, finest asset -> 0 <= gas ->
    let ts := if (Decimal_Sign asset <=? 0) && (gas <=? 0) then rest
              else mkTransfer id a name (decimalString (Some asset)) gas SettlementReasonRefund false :: rest in
    forall u, sum_of (paid u) ts <= match u with InAsset => Value asset | InSats => gas end + sum_of (paid u) rest).
  { intros asset gas rest Has Hg ts u. subst ts. destruct Has as [? ?]. case_if; [destruct u; lia|].
    cbn [sum_of foldr]. rewrite paid_share by done. done. }
  destruct l as [|h l'].
  - cbn [rbind close_shares]. specialize (Hskip R S []). case_if; intros u.
    + simpl. destruct HR. destruct u; lia.
    + specialize (Hskip HR (proj1 HS) u). by rewrite Z.add_0_r in Hskip.
  - assert (HT0 : 0 < Value T) by lia. pose proof (finest_units T HT) as HuT.
    rewrite proportional_value, proportionalInt64_value by (auto || apply HA || lia). cbn [rbind]. rewrite HuT.
    destruct (share_covered (Value A) (Value T) (units b + B) (Value R) (units b)) as [HsA HrA]; [apply HA|lia..|].
    destruct (share_covered G (Value T) (units b + B) S (units b)) as [HsG HrG]; [lia..|].
    set (oA := mkDecimal (Precision A) (Value A * units b / Value T)).
    assert (HoA : finest oA) by (split; [apply HA|apply HsA]).
    destruct (sub_finest R oA HR HoA) as [HR' HvR]; [apply HsA|].
    rewrite int64_id by (unfold is_int64; lia).
    eapply wp_bind; [apply IH; [done|lia|lia|..]|].
    + rewrite HvR. simpl. replace B with (units b + B - units b) by lia. done.
    + replace B with (units b + B - units b) by lia. done.
    + intros rest Hrest. specialize (Hskip oA (G * units b / Value T) rest HoA (proj1 HsG)).
      case_if; intros u; specialize (Hskip u); specialize (Hrest u); cbn [wp];
        destruct u; rewrite ?HvR in *; simpl Value in *; lia.
Qed.

Lemma appendAMMLPCloseTransfers_spec state plan item name : wf_running (AMMData state) ->
  wp (appendAMMLPCloseTransfers state plan item name) (fun plan' => forall u,
    paid_out u plan' <= paid_out u plan + pool u (AMMData state)).
Proof.
  intros [Ha Hb Ht Hl]. unfold appendAMMLPCloseTransfers.
  assert (Hp : forall u, 0 <= pool u (AMMData state)) by (intros []; simpl; auto).
  case_if; [intros u; specialize (Hp u); lia|].
  destruct (or_zero_finest _ Ha) as [Hza Hva].
  eapply wp_bind; [by apply decimalInt64_spec|]. intros g [Hg Hgr]. cbv beta.
  pose proof (lp_holders_ok _ Hl) as Hh. set (l := lp_holders (am_LPBalances (AMMData state))) in *.
  destruct (total_shares l (parseDecimalOrZero (str "0")) Hh) as [HT HvT]; [by rewrite parse_zero|].
  rewrite parse_zero in HvT at 2. simpl Value in HvT.
  set (T := fold_left _ l _) in *. set (l' := sort_stable _ l).
  assert (Hperm : l' ≡ₚ l) by apply sort_stable_perm.
  assert (Hsum : shares l' = Value T) by (rewrite (sum_of_perm _ _ _ Hperm); lia).
  eapply wp_bind; [apply close_shares_spec; [done|done|done|by rewrite Hperm|done|done|lia..]|].
  intros ts Hts u. rewrite paid_add_transfers. specialize (Hts u). destruct u; simpl in *; lia.
Qed.

Lemma close_item_spec closeID height s j item : Forall (wf_item at_once) s.1 -> Forall backed s.1 -> s.1 !! j = Some item ->
  wp (close_item closeID height s j) (staged s).
Proof.
  destruct s as [items plan]. cbn [fst snd]. intros Hwf Hk Hj. unfold close_item. rewrite Hj. cbn [rbind unwrap].
  case_if; [by apply staged_refl|]. destruct_and?. apply bool_decide_eq_true_1 in H0.
  pose proof (wf_item_normal item (wf_lookup _ _ _ Hwf Hj) H2 H0) as Hn.
  eapply staged_finish; [done|done|done|done|plan_deals|]. intros u.
  rewrite paid_add_item_id, paid_inputs. pose proof (refundTransfer_paid u item H2 H0 Hn (Forall_lookup_1 _ _ _ _ Hk Hj)) as Hp.
  case_if; [rewrite paid_nothing in Hp by done; lia|]. rewrite paid_add_transfer. lia.
Qed.

(** The refunds of a close, one item after the other. *)
Lemma close_items_spec closeID height items plan : Forall (wf_item at_once) items -> Forall backed items ->
  wp (rfold (close_item closeID height) (items, plan) (seq 0 (length items))) (staged (items, plan)).
Proof.
  intros Hwf Hk. eapply wp_mono; [eapply (staged_loop id (fun s => Forall backed s.1) _ (items, plan)); [done|done|]|].
  - intros s j item Hw Hb Hj. eapply wp_mono; [by eapply close_item_spec|]. intros s' Hs'. split; [done|].
    by apply (sg_finish _ _ Hs'); [apply backed_finished|].
  - by intros s [Hs _].
Qed.

(** An item is finished and nothing is paid for it. *)
Lemma staged_drop p items plan i item item' :
  staged p (items, plan) -> items !! i = Some item -> Finished item' = true -> it_Param item' = it_Param item ->
  staged p (<[i := item']> items, plan).
Proof.
  intros Hs Hi Hf Hp. eapply staged_trans; [exact Hs|]. eapply staged_finish; [apply Hs|done|done|done|plan_deals|].
  intros u. pose proof (claim_nonneg at_once u item (wf_lookup _ _ _ (sg_wf _ _ Hs) Hi)). lia.
Qed.

(** Inputs and item numbers pay nothing. *)
Lemma staged_plan p items plan plan' : staged p (items, plan) -> (forall u, paid_out u plan' = paid_out u plan) ->
  sp_Deals plan' = sp_Deals plan -> staged p (items, plan').
Proof.
  intros [? ? Ha Hd ?] Hp Hd'. split; [done..| |by rewrite <- Hd|done]. intros u. specialize (Ha u). unfold account in *. simpl in *.
  rewrite Hp. done.
Qed.

End accounts.

Section market_maker.
Context `{F : FixedOps} {L : FixedLaws F}.

(** A stage of a settlement keeps the state well formed and the accounts covered. *)
Record covered (s s' : TemplateRuntimeState) (plan plan' : SettlementPlan) : Prop := mkCovered {
  cv_wf : wf_state s';
  cv_owed u : owed u s' + paid_out u plan' <= owed u s + paid_out u plan;
}.

Lemma covered_trans s1 s2 s3 p1 p2 p3 : covered s1 s2 p1 p2 -> covered s2 s3 p2 p3 -> covered s1 s3 p1 p3.
Proof. intros [? H1] [? H2]. split; [done|]. intros u. specialize (H1 u). specialize (H2 u). lia. Qed.

Lemma covered_staged s s' plan plan' : wf_running (AMMData s) ->
  staged (at_once := true) (rs_Items s, plan) (rs_Items s', plan') -> AMMData s' = AMMData s -> covered s s' plan plan'.
Proof.
  intros Hr [Hw _ Ha _ _] He. split; [by split; [|rewrite He]|].
  intros u. specialize (Ha u). unfold owed, account in *. rewrite He. simpl in Ha. lia.
Qed.

Lemma close_loop_spec amm height deployer idx state plan :
  wf_state state -> backed_or_quiet (rs_Items state) -> Forall (fun i => (i < length (rs_Items state))%nat) idx ->
  wp (close_loop (AnAMM amm) height deployer idx state plan) (fun '(state', plan', closed) =>
    covered state state' plan plan' /\ (closed = false -> state' = state /\ plan' = plan)).
Proof.
  intros Hwf Hbq. induction 1 as [|i idx Hlt Hidx IH]; cbn [close_loop].
  { split; [|done]. by split. }
  destruct Hwf as [Hitems Hrun]. apply lookup_lt_is_Some_2 in Hlt as [c Hc]. rewrite Hc. cbn [rbind unwrap].
  case_if; [by apply IH|]. destruct_and?.
  destruct Hbq as [Hk|Hq]; [|destruct (Forall_lookup_1 _ _ _ _ Hq Hc) as [?|[_ ?]]; congruence]. case_if.
  - split; [|done]. apply covered_staged; [done| |done].
    eapply (staged_finish _ _ _ i c); [done|done|done|done|plan_deals|]. intros u.
    rewrite paid_add_item_id, paid_inputs. pose proof (claim_nonneg true u c (wf_lookup _ _ _ Hitems Hc)). lia.
  - set (plan1 := add_item_id _ _).
    assert (Hp1 : forall u, paid_out u plan1 = paid_out u plan).
    { intros u. unfold plan1. by rewrite paid_add_item_id, paid_inputs. }
    eapply wp_bind; [by apply (close_items_spec (at_once := true))|].
    intros [items plan2] Hs. cbv beta iota.
    eapply (wp_bind _ _ (fun '(s', p') => s' = clearAMMClosedPool (rs_set_Items items state)
      /\ forall u, paid_out u p' <= paid_out u plan2 + pool u (AMMData state))).
    { eapply wp_bind; [by apply appendAMMLPCloseTransfers_spec|]. done. }
    intros [s' plan3] [-> Hp3]. cbn [rs_Items clearAMMClosedPool rs_set_AMM rs_set_Items].
    pose proof Hs as [Hw Hlen _ _ _]. apply lookup_lt_Some in Hc as Hlt. simpl in Hlen. rewrite <- Hlen in Hlt.
    apply lookup_lt_is_Some_2 in Hlt as [c' Hc']. rewrite Hc'. cbn [rbind unwrap]. split; [|done].
    destruct (staged_drop _ _ _ i c' (set_Done ItemStatusDealt c') Hs) as [Hw' _ Ha _ _]; [done..|].
    split.
    + split; [done|]. by split.
    + intros u. specialize (Ha u). specialize (Hp3 u). unfold owed, account in *. simpl in Ha |- *.
      rewrite Hp1 in Ha. destruct u; simpl in *; lia.
Qed.

Lemma applyCloseItems_spec amm state plan height deployer : wf_state state -> backed_or_quiet (rs_Items state) ->
  wp (applyCloseItems (AnAMM amm) state plan height deployer) (fun '(state', plan', closed) =>
    covered state state' plan plan'
    /\ (closed = false -> rs_Items state' = rs_Items state /\ AMMData state' = AMMData state /\ plan' = plan)).
Proof.
  intros Hwf Hbq. unfold applyCloseItems. cbn [touch].
  assert (Ht : covered state (rs_set_AMM (Some (AMMData state)) state) plan plan) by (by split).
  case_if; [done|]. eapply wp_mono; [apply close_loop_spec; [apply Ht|done|apply Forall_lt_seq]|].
  intros [[s' p'] closed] [Hc He]. split; [by eapply covered_trans|]. intros Hf. by destruct (He Hf) as [-> ->].
Qed.

(** ** Totals *)

Lemma covered_refl s plan : wf_state s -> covered s s plan plan.
Proof. by split. Qed.

(** Running data with the same pool and shares. *)
Definition same_pool (r r' : AMMRunningData) : Prop :=
  am_AssetAInPool r' = am_AssetAInPool r /\ am_AssetBInPool r' = am_AssetBInPool r
  /\ am_TotalLPTAmt r' = am_TotalLPTAmt r /\ am_LPBalances r' = am_LPBalances r.

Lemma same_pool_wf r r' : same_pool r r' -> wf_running r -> wf_running r'.
Proof. intros (Ha & Hb & Ht & Hl) [? ? ? ?]. split; by rewrite ?Ha, ?Hb, ?Ht, ?Hl. Qed.

Lemma same_pool_pool u r r' : same_pool r r' -> pool u r' = pool u r.
Proof. intros (Ha & Hb & _). destruct u; simpl; by rewrite ?Ha, ?Hb. Qed.

Lemma applyAMMFinishedStats_pool r item : same_pool r (applyAMMFinishedStats r item).
Proof. unfold applyAMMFinishedStats. by destruct (finished_stats _ _) as [[[? ?] ?] ?]. Qed.

(** The totals of finished items are no part of the accounts. *)
Lemma item_stats_covered amm s i plan : wf_state s -> covered s (item_stats (AnAMM amm) s i) plan plan.
Proof.
  intros [Hi Hr]. unfold item_stats. destruct (rs_Items s !! i) as [item|] eqn:Hit; [|by apply covered_refl].
  case_if; [by apply covered_refl|].
  pose proof (applyAMMFinishedStats_pool (AMMData s) item) as Hp. split.
  - split; [|by eapply same_pool_wf]. simpl. apply Forall_insert; [done|].
    apply wf_finished; [done|]. apply (wf_lookup _ _ _ Hi Hit).
  - intros u. unfold owed, claims. cbn [rs_Items rs_set_Items rs_set_AMM].
    rewrite (sum_of_insert _ _ _ _ _ Hit).
    change (claim u (set_StatsApplied true item)) with (claim u item).
    match goal with
    | |- context [pool u (AMMData ?x)] => change (AMMData x) with (applyAMMFinishedStats (AMMData s) item)
    end.
    rewrite (same_pool_pool u _ _ Hp). lia.
Qed.

Lemma applyFinishedItemStats_covered amm s plan : wf_state s ->
  covered s (applyFinishedItemStats (AnAMM amm) s) plan plan.
Proof.
  unfold applyFinishedItemStats. generalize (seq 0 (length (rs_Items s))) as l. intros l. revert s.
  induction l as [|i l IH]; intros s Hs; simpl; [by apply covered_refl|].
  pose proof (item_stats_covered amm s i plan Hs) as Hc. eapply covered_trans; [done|]. apply IH, Hc.
Qed.

End market_maker.
