(* ===== verification/Amm.v ===== *)
(** The settlement of an automated market maker (contract/template/settlement.go,
    [settleAMM]).

    A block's swaps trade against a pool of an asset and of satoshis along the
    curve [asset * satoshis = K], with a fee that stays in the pool; then the
    requests to add and to remove liquidity are served, in exchange for shares of
    the pool.  The settlement is a function from the loaded state to the plan and
    to the state it saves, if it saves one; the byte encoding of the saved state
    is not part of the model. *)
From Stdlib Require Import ZArith List Bool Lia.
From stdpp Require Import base list numbers option strings gmap.
From S2P Require Import Prelude FixedPoint TemplateState Settlement.
Open Scope Z_scope.

Definition SwapServiceFeeRatio : Z := 8.
Definition AMMProfitShareLP : Z := 60.

Section amm.
Context `{F : FixedOps}.

Abbreviation zero := (parseDecimalOrZero (str "0")).

(** ** The pool *)

Definition ammTradingReady (r : AMMRunningData) : bool :=
  let requiredAssetA := or_zero (am_RequiredAssetA r) in
  if Decimal_Sign requiredAssetA =? 0 then true
  else
    let assetA := or_zero (am_AssetAInPool r) in
    let assetB := or_zero (am_AssetBInPool r) in
    if (Decimal_Cmp assetA requiredAssetA <? 0) || (Decimal_Cmp assetB (or_zero (am_RequiredAssetB r)) <? 0)
    then false
    else
      let k := or_zero (am_RequiredK r) in
      if Decimal_Sign k =? 0 then true else 0 <=? Decimal_Cmp (DecimalMul assetA assetB) k.

Definition syncAMMPoolInvariant (r : AMMRunningData) : AMMRunningData * bool :=
  let next :=
    match am_AssetAInPool r, am_AssetBInPool r with
    | Some a, Some b => if (Decimal_Sign a >? 0) && (Decimal_Sign b >? 0) then Some (DecimalMul a b) else None
    | _, _ => None
    end in
  if decimalEqualAllowNil (am_K r) next then (r, false) else (am_set_K next r, true).

Definition ammPoolEmpty (r : AMMRunningData) : bool :=
  (Decimal_Sign (or_zero (am_AssetAInPool r)) <=? 0) || (Decimal_Sign (or_zero (am_AssetBInPool r)) <=? 0).

Definition ammSettlementK (poolAsset : Decimal) (poolGas : Z) : option Decimal :=
  if (Decimal_Sign poolAsset <=? 0) || (poolGas <=? 0) then None
  else Some (DecimalMul poolAsset (NewDefaultDecimal poolGas)).

(** ** Swaps *)

Definition active_swap (height : Z) (item : InvokeItem) : bool :=
  if Finished item || negb (bool_decide (it_Reason item = InvokeReasonNormal)) || (it_Height item >? height) then false
  else if it_OrderType item =? OrderTypeBuy then it_RemainingValue item >? 0
  else if it_OrderType item =? OrderTypeSell then positive (it_RemainingAmt item)
  else false.

Definition activeAMMItemIDs (items : list InvokeItem) (height : Z) : list nat :=
  List.filter (fun i => from_option (active_swap height) false (items !! i)) (seq 0 (length items)).

(** The order of the swaps of a block. *)
Definition item_before (items : list InvokeItem) (i j : nat) : bool :=
  match items !! i, items !! j with
  | Some a, Some b =>
      if negb (it_Height a =? it_Height b) then it_Height a <? it_Height b
      else if negb (it_OrderTime a =? it_OrderTime b) then it_OrderTime a <? it_OrderTime b
      else it_ID a <? it_ID b
  | _, _ => false
  end.

Definition calculateAMMBuyOutput (inputValue : Z) (poolAsset : Decimal) (poolGas : Z) : result SettleError Decimal :=
  if (Decimal_Sign poolAsset <=? 0) || (poolGas <=? 0) || (inputValue <=? 0) then Ok zero
  else
    let effectiveInput := inputValue * (1000 - SwapServiceFeeRatio) in
    let numerator := Value poolAsset * effectiveInput in
    let denominator := poolGas * 1000 + effectiveInput in
    if denominator <=? 0 then Err MatchError
    else Ok (mkDecimal (Precision poolAsset) (Z.quot numerator denominator)).

Definition calculateAMMSellOutput (inAsset poolAsset : Decimal) (poolGas : Z) : result SettleError Z :=
  if (Decimal_Sign inAsset <=? 0) || (Decimal_Sign poolAsset <=? 0) || (poolGas <=? 0) then Ok 0
  else
    let precision := if Precision inAsset >? Precision poolAsset then Precision inAsset else Precision poolAsset in
    let poolUnits := Value (NewPrecision poolAsset precision) in
    let inputUnits := Value (NewPrecision inAsset precision) in
    let effectiveInput := inputUnits * (1000 - SwapServiceFeeRatio) in
    let numerator := poolGas * effectiveInput in
    let denominator := poolUnits * 1000 + effectiveInput in
    if denominator <=? 0 then Err MatchError
    else match int64_or_error (Z.quot numerator denominator) with
         | Some out => Ok out
         | None => Err AmountOverflow
         end.

(** The precision an asset is issued with cuts the output; more than the pool
    holds is no output. *)
Definition normalizeAMMSwapAssetOutput (resolve : option (bytes -> option Z)) (assetName : bytes)
  (amount poolAsset : Decimal) : option Decimal :=
  if (Decimal_Sign amount <=? 0) || (Decimal_Sign poolAsset <=? 0) then None
  else
    let normalized := Normalize resolve assetName amount in
    if (Decimal_Sign normalized <=? 0) || (Decimal_Cmp normalized poolAsset >? 0) then None
    else Some normalized.

Definition realSwapValue (value : Z) : option Decimal :=
  Decimal_Div (mkDecimal 3 (value * (1000 - SwapServiceFeeRatio) * 1000)) (NewDecimal 1000 3).

Definition realSwapAmt (amt : Decimal) : option Decimal :=
  Decimal_Div (DecimalMulV2 amt (NewDecimal (1000 - SwapServiceFeeRatio) (Precision amt + 3)))
    (NewDecimal 1000 (Precision amt + 3)).

(** [scommon.DecimalDiv] of a pointer that may be nil. *)
Definition div_string (a : option Decimal) (b : Decimal) : bytes :=
  decimalString (match a with Some a => DecimalDiv a b | None => None end).

(** What became of an item: the deal and the transfer of a swap, or the transfer
    of a refund, or the item is closed. *)
Inductive swap_outcome : Type :=
| Swapped (deal : SettlementDeal) (transfer : SettlementTransfer)
| Rejected (transfer : option SettlementTransfer).

Definition close_directly (item : InvokeItem) : InvokeItem :=
  set_Done ItemStatusClosedDirectly (set_Reason InvokeReasonNoEnoughAsset item).

Definition reject (reason : bytes) (item : InvokeItem) : InvokeItem * swap_outcome :=
  let '(item, transfer) := markItemRefunded (set_Reason reason item) in
  (item, Rejected (Some transfer)).

Definition settleAMMBuy (resolve : option (bytes -> option Z)) (item : InvokeItem) (poolAsset : Decimal)
  (poolGas : Z) (availableAsset : Decimal) (k : option Decimal) : result SettleError (InvokeItem * swap_outcome) :=
  if (Decimal_Sign poolAsset <=? 0) || (poolGas <=? 0) || (Decimal_Sign availableAsset <=? 0)
     || negb (positive k) || (it_RemainingValue item <=? 0)
  then Ok (close_directly item, Rejected None)
  else
    let! minAsset := limitOrderItemExpectedAmount item in
    let inputValue := it_RemainingValue item in
    let! calculatedOut := calculateAMMBuyOutput inputValue poolAsset poolGas in
    match normalizeAMMSwapAssetOutput resolve (it_AssetName item) calculatedOut availableAsset with
    | None => Ok (reject InvokeReasonNoEnoughAsset item)
    | Some outAsset =>
        if Decimal_Sign outAsset <=? 0 then Ok (reject InvokeReasonNoEnoughAsset item)
        else if (Decimal_Sign minAsset >? 0) && (Decimal_Cmp outAsset minAsset <? 0)
        then Ok (reject InvokeReasonSlippageProtect item)
        else
          let item := set_Done ItemStatusDealt (set_RemainingValue 0 (set_OutValue inputValue
                        (set_OutAmt (Some outAsset) item))) in
          let unitPrice := div_string (realSwapValue inputValue) outAsset in
          Ok (item, Swapped
            (mkDeal (it_ID item) 0 (decimalString (Some outAsset)) inputValue unitPrice)
            (mkTransfer (it_ID item) (it_Address item) (it_AssetName item) (decimalString (Some outAsset)) 0
               SettlementReasonDeal false))
    end.

Definition settleAMMSell (item : InvokeItem) (poolAsset : Decimal) (poolGas availableGas : Z) (k : option Decimal)
  : result SettleError (InvokeItem * swap_outcome) :=
  let inAsset := or_zero (it_RemainingAmt item) in
  if (Decimal_Sign inAsset <=? 0) || (Decimal_Sign poolAsset <=? 0) || (poolGas <=? 0) || (availableGas <=? 0)
     || negb (positive k)
  then Ok (close_directly item, Rejected None)
  else
    let! realAmt := unwrap (realSwapAmt inAsset) in
    if Decimal_Sign realAmt =? 0 then Ok (close_directly item, Rejected None)
    else
      let! outGas := calculateAMMSellOutput inAsset poolAsset poolGas in
      if (outGas <=? 0) || (outGas >? availableGas) then Ok (reject InvokeReasonNoEnoughAsset item)
      else
        let! minGas := limitOrderItemExpectedAmount item in
        if (Decimal_Sign minGas >? 0) && (Decimal_Cmp (NewDefaultDecimal outGas) minGas <? 0)
        then Ok (reject InvokeReasonSlippageProtect item)
        else
          let item := set_Done ItemStatusDealt (set_RemainingAmt None (set_OutValue outGas item)) in
          let unitPrice := decimalString (DecimalDiv (NewDecimal outGas MaxPriceDivisibility) realAmt) in
          Ok (item, Swapped
            (mkDeal 0 (it_ID item) (Decimal_String inAsset) outGas unitPrice)
            (mkTransfer (it_ID item) (it_Address item) [] [] outGas SettlementReasonDeal false)).

Definition appendAMMRefundTransfer (plan : SettlementPlan) (item : InvokeItem) (transfer : SettlementTransfer)
  : SettlementPlan :=
  if nothing transfer then plan
  else addSettlementInputs (add_item_id (it_ID item) (add_transfers [transfer] plan)) item.

(** The state of the loop over the swaps. *)
Record swap_state : Type := mkSwapState {
  ss_items : list InvokeItem;
  ss_plan : SettlementPlan;
  ss_asset : Decimal;
  ss_gas : Z;
  ss_k : option Decimal;
  ss_changed : bool;
}.

Definition item_changed (a b : InvokeItem) : bool :=
  negb (bool_decide (it_Reason a = it_Reason b)) || negb (it_Done a =? it_Done b).

(** An item that is not swapped: the refund of a refunded item is paid. *)
Definition swap_rejected (s : swap_state) (id : nat) (before item : InvokeItem)
  (transfer : option SettlementTransfer) : swap_state :=
  let plan :=
    if it_Done item =? ItemStatusRefunded
    then match transfer with
         | Some t => appendAMMRefundTransfer (ss_plan s) item t
         | None => ss_plan s
         end
    else ss_plan s in
  mkSwapState (<[id := item]> (ss_items s)) plan (ss_asset s) (ss_gas s) (ss_k s)
    (ss_changed s || item_changed item before).

Definition swap_dealt (s : swap_state) (id : nat) (item : InvokeItem) (deal : SettlementDeal)
  (transfer : SettlementTransfer) (poolAsset : Decimal) (poolGas : Z) : swap_state :=
  mkSwapState (<[id := item]> (ss_items s))
    (addSettlementInputs (add_item_id (it_ID item) (add_transfers [transfer] (add_deal deal (ss_plan s)))) item)
    poolAsset poolGas (Some (DecimalMul poolAsset (NewDefaultDecimal poolGas))) true.

Definition swap_item (resolve : option (bytes -> option Z)) (s : swap_state) (id : nat) : result SettleError swap_state :=
  let! before := unwrap (ss_items s !! id) in
  if it_OrderType before =? OrderTypeBuy then
    let! '(item, outcome) := settleAMMBuy resolve before (ss_asset s) (ss_gas s) (ss_asset s) (ss_k s) in
    match outcome with
    | Rejected transfer => Ok (swap_rejected s id before item transfer)
    | Swapped deal transfer =>
        let poolAsset := DecimalSub (ss_asset s) (parseDecimalOrZero (sd_AssetAmt deal)) in
        let '(poolGas, overflow) := AddInt64 (ss_gas s) (sd_SatValue deal) in
        if (overflow : bool) then Err AmountOverflow
        else Ok (swap_dealt s id item deal transfer poolAsset poolGas)
    end
  else if it_OrderType before =? OrderTypeSell then
    let! '(item, outcome) := settleAMMSell before (ss_asset s) (ss_gas s) (ss_gas s) (ss_k s) in
    match outcome with
    | Rejected transfer => Ok (swap_rejected s id before item transfer)
    | Swapped deal transfer =>
        let poolAsset := match it_InAmt item with
                         | Some inAmt => DecimalAdd (ss_asset s) inAmt
                         | None => ss_asset s
                         end in
        let poolGas := int64 (ss_gas s - sd_SatValue deal) in
        let poolGas := if poolGas <? 0 then 0 else poolGas in
        Ok (swap_dealt s id item deal transfer poolAsset poolGas)
    end
  else Ok s.

(** ** Liquidity *)

Definition ammPoolPrice (poolAsset : Decimal) (poolGas : Z) (running : AMMRunningData) : option Decimal :=
  if (Decimal_Sign poolAsset >? 0) && (poolGas >? 0) then
    DecimalDiv (NewDecimal poolGas MaxPriceDivisibility) (NewPrecision poolAsset MaxPriceDivisibility)
  else
    let requiredAsset := or_zero (am_RequiredAssetA running) in
    let requiredAssetB := or_zero (am_RequiredAssetB running) in
    if (Decimal_Sign requiredAsset >? 0) && (Decimal_Sign requiredAssetB >? 0) then
      DecimalDiv (NewPrecision requiredAssetB MaxPriceDivisibility) (NewPrecision requiredAsset MaxPriceDivisibility)
    else Some zero.

(** What an addition puts in the pool, and what is left of it. *)
Definition reserveAMMLiquidity (addAsset : Decimal) (addGas : Z) (poolAsset : Decimal) (poolGas : Z)
  (running : AMMRunningData) : result SettleError (Decimal * Z * Decimal * Z) :=
  if (Decimal_Sign addAsset <=? 0) || (addGas <=? 0) then Ok (zero, 0, zero, 0)
  else if (Decimal_Sign poolAsset <=? 0) || (poolGas <=? 0) || negb (am_TradingReady running)
  then Ok (addAsset, addGas, zero, 0)
  else
    match ammPoolPrice poolAsset poolGas running with
    | None => Ok (addAsset, addGas, zero, 0)
    | Some price =>
        if Decimal_Sign price <=? 0 then Ok (addAsset, addGas, zero, 0)
        else
          match DecimalDiv (NewDecimal addGas MaxPriceDivisibility) price with
          | None => Ok (zero, 0, addAsset, addGas)
          | Some reserveAsset =>
              let reserveAsset := NewPrecision reserveAsset (Precision addAsset) in
              let! '(reserveAsset, reserveGas) :=
                if Decimal_Cmp reserveAsset addAsset >? 0 then
                  match CeilInt64 (DecimalMul addAsset price) with
                  | None => Err Int64Error
                  | Some g => Ok (addAsset, if g >? addGas then addGas else g)
                  end
                else Ok (reserveAsset, addGas) in
              let leftAsset := DecimalSub addAsset reserveAsset in
              let leftGas := int64 (addGas - reserveGas) in
              Ok (reserveAsset, reserveGas, leftAsset, if leftGas <? 0 then 0 else leftGas)
          end
    end.

Definition mintLPTAmount (addAsset : Decimal) (addGas : Z) (poolAsset : Decimal) (poolGas : Z) (totalLPT : Decimal)
  : Decimal :=
  if (Decimal_Sign addAsset <=? 0) || (addGas <=? 0) then zero
  else if (Decimal_Sign totalLPT =? 0) || (Decimal_Sign poolAsset =? 0) || (poolGas <=? 0)
  then Decimal_Sqrt (DecimalMul addAsset (NewDefaultDecimal addGas))
  else
    let byAsset := DecimalDiv (DecimalMul addAsset totalLPT) poolAsset in
    let byGas := DecimalDiv (DecimalMul (NewDefaultDecimal addGas) totalLPT) (NewDefaultDecimal poolGas) in
    minDecimal byAsset byGas.

Definition ammLiquidityCost (asset : Decimal) (gas : Z) : result SettleError Z :=
  if (Decimal_Sign asset <=? 0) || (gas <=? 0) then Ok gas
  else
    let '(cost, overflow) := AddInt64 gas gas in
    if (overflow : bool) then Err AmountOverflow else Ok cost.

(** The part of a withdrawal that is profit is shared with the deployer. *)
Definition splitAMMRemoveLiquidity (asset : Decimal) (gas depositValue : Z)
  : result SettleError (Decimal * Z * Decimal * Z) :=
  let '(totalValue, overflow) := AddInt64 gas gas in
  if (overflow : bool) then Err AmountOverflow
  else
    let profit := int64 (totalValue - depositValue) in
    if (profit <=? 0) || (totalValue <=? 0) then Ok (asset, gas, zero, 0)
    else
      match int64_or_error (profit * (100 - AMMProfitShareLP) / 100) with
      | None => Err AmountOverflow
      | Some foundationProfit =>
          if foundationProfit <=? 0 then Ok (asset, gas, zero, 0)
          else
            let ratio := Decimal_Div (NewDecimal foundationProfit MaxPriceDivisibility)
                           (NewDecimal totalValue MaxPriceDivisibility) in
            let foundationAsset := match ratio with
                                   | Some r => DecimalMul asset r
                                   | None => zero
                                   end in
            match int64_or_error (gas * foundationProfit / totalValue) with
            | None => Err AmountOverflow
            | Some foundationGas =>
                let foundationGas := if foundationGas >? gas then gas else foundationGas in
                let lpGas := int64 (gas - foundationGas) in
                Ok (DecimalSub asset foundationAsset, if lpGas <? 0 then 0 else lpGas,
                    foundationAsset, foundationGas)
            end
      end.

(** The state of the loop over the requests. *)
Record liquidity_state : Type := mkLiquidityState {
  ls_items : list InvokeItem;
  ls_plan : SettlementPlan;
  ls_running : AMMRunningData;
  ls_asset : Decimal;
  ls_gas : Z;
  ls_total : Decimal;
  ls_changed : bool;
}.

Definition liquidity_closed (s : liquidity_state) (i : nat) (item : InvokeItem) : liquidity_state :=
  mkLiquidityState (<[i := close_directly item]> (ls_items s)) (ls_plan s) (ls_running s)
    (ls_asset s) (ls_gas s) (ls_total s) true.

Definition lp_balance (r : AMMRunningData) (address : bytes) : Decimal :=
  or_zero (mjoin (am_LPBalances r !! address)).

Definition lp_cost (r : AMMRunningData) (address : bytes) : Z := default 0 (am_LPCosts r !! address).

Definition add_liquidity (s : liquidity_state) (i : nat) (item : InvokeItem) : result SettleError liquidity_state :=
  let addAsset := or_zero (it_RemainingAmt item) in
  let addGas := it_RemainingValue item in
  if (Decimal_Sign addAsset <=? 0) || (addGas <=? 0) then Ok (liquidity_closed s i item)
  else
    let! '(reserveAsset, reserveGas, leftAsset, leftGas) :=
      reserveAMMLiquidity addAsset addGas (ls_asset s) (ls_gas s) (ls_running s) in
    let minted := mintLPTAmount reserveAsset reserveGas (ls_asset s) (ls_gas s) (ls_total s) in
    if Decimal_Sign minted <=? 0 then Ok (liquidity_closed s i item)
    else
      let poolAsset := DecimalAdd (ls_asset s) reserveAsset in
      let '(poolGas, overflow) := AddInt64 (ls_gas s) reserveGas in
      if (overflow : bool) then Err AmountOverflow
      else
        let totalLPT := DecimalAdd (ls_total s) minted in
        let r := ls_running s in
        let balance := DecimalAdd (lp_balance r (it_Address item)) minted in
        let! cost := ammLiquidityCost reserveAsset reserveGas in
        let '(costs, overflow) := AddInt64 (lp_cost r (it_Address item)) cost in
        if (overflow : bool) then Err AmountOverflow
        else
          let r := am_set_LPCosts (<[it_Address item := costs]> (am_LPCosts r))
                     (am_set_LPBalances (<[it_Address item := Some balance]> (am_LPBalances r)) r) in
          let item := set_Done ItemStatusDealt (set_RemainingValue 0 (set_RemainingAmt None
                        (set_OutAmt (Some minted) item))) in
          let plan := add_item_id (it_ID item) (addSettlementInputs (ls_plan s) item) in
          let plan := if (Decimal_Sign leftAsset >? 0) || (leftGas >? 0)
                      then add_transfers [mkTransfer (it_ID item) (it_Address item) (it_AssetName item)
                             (decimalString (Some leftAsset)) leftGas SettlementReasonRefund false] plan
                      else plan in
          Ok (mkLiquidityState (<[i := item]> (ls_items s)) plan r poolAsset poolGas totalLPT true).

(** The shares and the cost of a holder after a removal. *)
Definition lp_removed (r : AMMRunningData) (address : bytes) (left : Decimal) (cost : Z) : AMMRunningData :=
  if Decimal_Sign left >? 0
  then am_set_LPCosts (<[address := if cost <? 0 then 0 else cost]> (am_LPCosts r))
         (am_set_LPBalances (<[address := Some left]> (am_LPBalances r)) r)
  else am_set_LPCosts (delete address (am_LPCosts r)) (am_set_LPBalances (delete address (am_LPBalances r)) r).

Definition remove_liquidity (foundation : bytes) (s : liquidity_state) (i : nat) (item : InvokeItem)
  : result SettleError liquidity_state :=
  let r := ls_running s in
  let owned := lp_balance r (it_Address item) in
  let! remove := removeLiquidityItemAmount item in
  let remove := minDecimal (Some remove) (Some owned) in
  let remove := minDecimal (Some remove) (Some (ls_total s)) in
  if (Decimal_Sign remove <=? 0) || (Decimal_Sign (ls_total s) <=? 0) then Ok (liquidity_closed s i item)
  else
    let cost := lp_cost r (it_Address item) in
    let! depositValue := proportionalInt64 cost (Some remove) (Some owned) in
    let outAsset := proportionalDecimal (Some (ls_asset s)) (Some remove) (Some (ls_total s)) in
    let! outGas := proportionalInt64 (ls_gas s) (Some remove) (Some (ls_total s)) in
    let! '(lpAsset, lpGas, foundationAsset, foundationGas) := splitAMMRemoveLiquidity outAsset outGas depositValue in
    let poolAsset := DecimalSub (ls_asset s) outAsset in
    let poolGas := int64 (ls_gas s - outGas) in
    let poolGas := if poolGas <? 0 then 0 else poolGas in
    let totalLPT := DecimalSub (ls_total s) remove in
    let r := lp_removed r (it_Address item) (DecimalSub owned remove) (int64 (cost - depositValue)) in
    let item := set_Done ItemStatusDealt (set_OutValue lpGas (set_OutAmt (Some lpAsset) item)) in
    let plan := add_item_id (it_ID item) (addSettlementInputs (ls_plan s) item) in
    let plan := add_transfers [mkTransfer (it_ID item) (it_Address item) (it_AssetName item)
                  (decimalString (Some lpAsset)) lpGas SettlementReasonDeal false] plan in
    let plan := if negb (bool_decide (foundation = [])) && ((Decimal_Sign foundationAsset >? 0) || (foundationGas >? 0))
                then add_transfers [mkTransfer (it_ID item) foundation (it_AssetName item)
                       (decimalString (Some foundationAsset)) foundationGas SettlementReasonDeal false] plan
                else plan in
    let r := if (Decimal_Sign poolAsset <=? 0) || (poolGas <=? 0) || (Decimal_Sign totalLPT <=? 0)
             then am_set_TradingReady false r else r in
    Ok (mkLiquidityState (<[i := item]> (ls_items s)) plan r poolAsset poolGas totalLPT true).

Definition liquidity_item (foundation : bytes) (s : liquidity_state) (i : nat) : result SettleError liquidity_state :=
  let! item := unwrap (ls_items s !! i) in
  if Finished item || negb (bool_decide (it_Reason item = InvokeReasonNormal)) then Ok s
  else if it_OrderType item =? OrderTypeAddLiquidity then add_liquidity s i item
  else if it_OrderType item =? OrderTypeRemoveLiquidity then remove_liquidity foundation s i item
  else Ok s.

Definition applyAMMLiquidity (state : TemplateRuntimeState) (plan : SettlementPlan) (foundation : bytes)
  : result SettleError (TemplateRuntimeState * SettlementPlan * bool) :=
  let running := AMMData state in
  let poolAsset := or_zero (am_AssetAInPool running) in
  let! poolGas := decimalInt64 (am_AssetBInPool running) in
  let totalLPT := or_zero (am_TotalLPTAmt running) in
  let totalLPT :=
    if (Decimal_Sign totalLPT =? 0) && (Decimal_Sign poolAsset >? 0) && (poolGas >? 0)
    then Decimal_Sqrt (DecimalMul poolAsset (NewDefaultDecimal poolGas)) else totalLPT in
  let! s := rfold (liquidity_item foundation)
    (mkLiquidityState (rs_Items state) plan running poolAsset poolGas totalLPT false)
    (seq 0 (length (rs_Items state))) in
  let r := if ls_changed s
           then (syncAMMPoolInvariant (am_set_TotalLPTAmt (Some (ls_total s))
                  (am_set_AssetBInPool (Some (NewDefaultDecimal (ls_gas s)))
                    (am_set_AssetAInPool (Some (ls_asset s)) (ls_running s))))).1
           else ls_running s in
  Ok (rs_set_AMM (Some r) (rs_set_Items (ls_items s) state), ls_plan s, ls_changed s).

(** ** Settlement *)

(** The swaps of a block, when the pool trades. *)
Definition settle_swaps (resolve : option (bytes -> option Z)) (height : Z) (state : TemplateRuntimeState)
  (plan : SettlementPlan) (changed : bool) : result SettleError (TemplateRuntimeState * SettlementPlan * bool) :=
  let running := AMMData state in
  if negb (am_TradingReady running) then Ok (state, plan, changed)
  else
    let itemIDs := sort_stable (item_before (rs_Items state)) (activeAMMItemIDs (rs_Items state) height) in
    let poolAsset := or_zero (am_AssetAInPool running) in
    let! poolGas := decimalInt64 (am_AssetBInPool running) in
    let! s := rfold (swap_item resolve)
      (mkSwapState (rs_Items state) plan poolAsset poolGas (ammSettlementK poolAsset poolGas) changed) itemIDs in
    let r :=
      if ss_changed s then
        let r := (syncAMMPoolInvariant (am_set_AssetBInPool (Some (NewDefaultDecimal (ss_gas s)))
                   (am_set_AssetAInPool (Some (ss_asset s)) running))).1 in
        if (Decimal_Sign (ss_asset s) <=? 0) || (ss_gas s <=? 0) then am_set_TradingReady false r else r
      else running in
    Ok (rs_set_AMM (Some r) (rs_set_Items (ss_items s) state), ss_plan s, ss_changed s).

(** [recomputeRunningDataPreservePool]: for the market maker it copies the shares
    and the costs; a nil balance becomes zero. *)
Definition preserve_pool (r : AMMRunningData) : AMMRunningData :=
  am_set_LPBalances ((fun b => Some (or_zero b)) <$> am_LPBalances r) r.

(** The state that is saved, if it is, and the plan. *)
Definition settleAMM (contract : AMMContract) (address deployer : bytes) (resolve : option (bytes -> option Z))
  (height : Z) (state : TemplateRuntimeState)
  : result SettleError (option TemplateRuntimeState * SettlementPlan) :=
  let c := AnAMM contract in
  let plan := emptyPlan address height in
  let! '(state, plan, changed) := applyInvalidItems c state plan height in
  let! '(state, plan) := applyRefunds state plan height in
  let changed := changed || SettlementPlanHasChanges plan in
  let! '(state, plan, closed) := applyCloseItems c state plan height deployer in
  if (closed : bool) then Ok (Some (applyFinishedItemStats c state), plan)
  else
    let '(r, synced) := syncAMMPoolInvariant (AMMData state) in
    let state := rs_set_AMM (Some r) state in
    let! '(state, plan, changed) := settle_swaps resolve height state plan (changed || synced) in
    let! '(state, plan, liquidityChanged) := applyAMMLiquidity state plan deployer in
    let changed := changed || liquidityChanged in
    let r := AMMData state in
    let r := if am_TradingReady r then r else am_set_TradingReady (ammTradingReady r) r in
    let r := if ammPoolEmpty r then am_set_TradingReady false r else r in
    let '(r, synced) := syncAMMPoolInvariant r in
    let state := rs_set_AMM (Some r) state in
    if negb (changed || synced) then Ok (None, plan)
    else
      let state := rs_set_AMM (Some (preserve_pool r)) state in
      Ok (Some (applyFinishedItemStats c state), plan).

End amm.
