(* ===== verification/AmmProofs.v ===== *)
(** Solvency of the market maker, and the curve of its swaps.

    The accounts of [SettleProofs] are followed through the swaps and the requests
    for liquidity of a block: a settlement pays no more than it releases from the
    pool and from the claims, whatever the items and whatever the order in which
    they come.  A swap, in either direction, leaves the pool with at least the
    product it had. *)
From Stdlib Require Import ZArith List Bool Lia.
From stdpp Require Import base list numbers option strings gmap.
From S2P Require Import Prelude FixedPoint TemplateState TemplateParams Settlement SettleProofs Amm.
Open Scope Z_scope.

(** The precisions of assets are within those of prices. *)
Definition resolver_ok (resolve : option (bytes -> option Z)) : Prop :=
  forall f a p, resolve = Some f -> f a = Some p -> p <= MaxPriceDivisibility.

(** A trader who puts [x] into the side [G] of a pool, and takes [o] from [A] as the
    curve allows with the fee taken off [x], leaves the product at least as large. *)
Lemma curve_kept A G x o : 0 <= G -> 0 <= x -> 0 <= o <= A ->
  o * (G * 1000 + x * 992) <= A * (x * 992) -> A * G <= (A - o) * (G + x).
Proof. nia. Qed.

Lemma quot_bounds n d : 0 <= n -> 0 < d -> 0 <= Z.quot n d /\ Z.quot n d * d <= n.
Proof. apply quot_below. Qed.

Section amm.
Context `{F : FixedOps} {L : FixedLaws F}.

(** ** Swaps *)

Lemma normalize_fine resolve name d : resolver_ok resolve -> finest d ->
  fine (Normalize resolve name d) /\ units (Normalize resolve name d) <= Value d.
Proof.
  intros Hr Hd. unfold Normalize. set (p := precisionForAsset resolve name).
  assert (Hp : 0 <= p <= MaxPriceDivisibility).
  { unfold p, precisionForAsset. unfold MaxPriceDivisibility.
    repeat (case_match; bool_to_prop; try lia). split; [done|]. by eapply (Hr _ name). }
  case_if; [split; [auto|]; rewrite finest_units by done; lia|].
  destruct Hd as [Hdp Hdv]. rewrite rescale_down by lia.
  pose proof (pow10_pos (Precision d - p)) as Hpos.
  destruct (quot_bounds (Value d) (10 ^ (Precision d - p))) as [? Hq]; [done|lia|].
  split; [split; simpl; lia|]. unfold units. simpl. rewrite Hdp in *. lia.
Qed.

Definition buy_dealt (item : InvokeItem) (A : Decimal) (G : Z) (deal : SettlementDeal) (t : SettlementTransfer) : Prop :=
  let o := Value (parseDecimalOrZero (sd_AssetAmt deal)) in
  0 <= o <= Value A /\ paid InAsset t = o /\ paid InSats t = 0 /\ sd_SatValue deal = it_RemainingValue item
  /\ Value A * G <= (Value A - o) * (G + it_RemainingValue item).

Definition sell_dealt (item : InvokeItem) (A : Decimal) (G : Z) (deal : SettlementDeal) (t : SettlementTransfer) : Prop :=
  let o := sd_SatValue deal in
  0 <= o <= G /\ paid InAsset t = 0 /\ paid InSats t = o
  /\ Value A * G <= (Value A + amount (it_RemainingAmt item)) * (G - o).

(** An item that takes part in the swaps. *)
Record swappable (item : InvokeItem) : Prop := mkSwappable {
  sw_open : Finished item = false;
  sw_reason : it_Reason item = InvokeReasonNormal;
  sw_wf : wf_normal true item;
  sw_script : script_ok (it_Param item);
  sw_backed : it_OrderType item <> OrderTypeRemoveLiquidity;
}.

(** What a swap returns: a finished item, and a deal along the curve or the refund
    of the claim. *)
Definition swap_result (item : InvokeItem) (dealt : SettlementDeal -> SettlementTransfer -> Prop)
  (r : InvokeItem * swap_outcome) : Prop :=
  Finished r.1 = true /\ it_Param r.1 = it_Param item /\ it_InAmt r.1 = it_InAmt item
  /\ match r.2 with
     | Rejected None => True
     | Rejected (Some t) => forall u, paid u t = claim u item
     | Swapped deal t => dealt deal t
     end.

Lemma close_directly_result item dealt : swap_result item dealt (close_directly item, Rejected None).
Proof. done. Qed.

Lemma reject_result reason item dealt : swappable item -> swap_result item dealt (reject reason item).
Proof.
  intros [? ? ? ? ?]. split_and!; [done|done|done|]. intros u.
  change (paid u (refundTransfer item) = claim u item). eapply refundTransfer_paid; try done. by right; left.
Qed.

Lemma calculateAMMBuyOutput_spec x A G : finest A -> 0 < Value A -> 0 < G -> 0 < x ->
  exists d, calculateAMMBuyOutput x A G = Ok d /\ finest d
    /\ Value d * (G * 1000 + x * 992) <= Value A * (x * 992).
Proof.
  intros [Hp ?] HA HG Hx. unfold calculateAMMBuyOutput. rewrite sign_value. unfold SwapServiceFeeRatio. z_test.
  eexists. split; [done|]. destruct (quot_bounds (Value A * (x * 992)) (G * 1000 + x * 992)); [nia|lia|].
  split; [by split|done].
Qed.

Lemma settleAMMBuy_spec resolve item A G k : resolver_ok resolve -> finest A -> 0 <= G -> swappable item ->
  wp (settleAMMBuy resolve item A G A k) (swap_result item (buy_dealt item A G)).
Proof.
  intros Hres HA HG Hi. unfold settleAMMBuy.
  case_if; [apply close_directly_result|]. destruct_and?. rewrite sign_value in *.
  eapply wp_bind; [apply limitOrderItemExpectedAmount_wp, Hi|]. intros minAsset _. cbv beta zeta.
  destruct (calculateAMMBuyOutput_spec (it_RemainingValue item) A G) as (d & -> & Hd & Hcurve); [done|lia..|].
  cbn [rbind]. unfold normalizeAMMSwapAssetOutput.
  case_if; [by apply reject_result|].
  destruct (normalize_fine resolve (it_AssetName item) d Hres Hd) as [Ho Hle].
  set (o := Normalize resolve (it_AssetName item) d) in *.
  case_if; [by apply reject_result|]. destruct_and?.
  case_if; [by apply reject_result|]. case_if; [by apply reject_result|].
  rewrite cmp_units, (finest_units A) in * by auto. pose proof (fine_units o Ho) as Ho0.
  split_and!; [done|done|done|]. unfold buy_dealt. cbn [sd_AssetAmt sd_SatValue snd].
  rewrite parse_decimalString by done. cbn [Value amount from_option paid st_AssetAmt st_SatValue].
  rewrite parse_decimalString by done. cbn [Value amount from_option].
  split_and!; [lia|lia|done|done|done|]. apply curve_kept; [lia..|]. nia.
Qed.

Lemma calculateAMMSellOutput_spec x A G : finest x -> finest A -> 0 < Value x -> 0 < Value A -> 0 < G ->
  wp (calculateAMMSellOutput x A G) (fun o => 0 <= o /\ o * (Value A * 1000 + Value x * 992) <= G * (Value x * 992)).
Proof.
  intros [Hxp ?] [Hap ?] Hx HA HG. unfold calculateAMMSellOutput. rewrite !sign_value. unfold SwapServiceFeeRatio.
  rewrite Hxp, Hap, Z.gtb_ltb, Z.ltb_irrefl, !rescale_same by done. z_test.
  destruct (quot_bounds (G * (Value x * 992)) (Value A * 1000 + Value x * 992)); [nia|lia|].
  unfold int64_or_error. by case_if.
Qed.

Lemma realSwapAmt_some d : 0 <= Precision d -> is_Some (realSwapAmt d).
Proof.
  intros Hp. unfold realSwapAmt. rewrite div_method. apply div_nonzero.
  pose proof (new_decimal_sign 1000 (Precision d + 3)). lia.
Qed.

Lemma settleAMMSell_spec item A G k : finest A -> 0 <= G -> swappable item ->
  wp (settleAMMSell item A G G k) (swap_result item (sell_dealt item A G)).
Proof.
  intros HA HG Hi. unfold settleAMMSell.
  destruct (or_zero_finest (it_RemainingAmt item)) as [Hx Hvx]; [apply Hi|].
  set (x := or_zero (it_RemainingAmt item)) in *.
  case_if; [apply close_directly_result|]. destruct_and?. rewrite !sign_value in *.
  destruct (realSwapAmt_some x) as [real ->]; [destruct Hx as [-> _]; done|]. cbn [unwrap rbind].
  case_if; [apply close_directly_result|].
  eapply wp_bind; [apply (calculateAMMSellOutput_spec x A G); done || lia|]. intros o [Ho Hcurve]. cbv beta.
  case_if; [by apply reject_result|].
  eapply wp_bind; [apply limitOrderItemExpectedAmount_wp, Hi|]. intros minGas _. cbv beta.
  case_if; [by apply reject_result|]. destruct_and?.
  split_and!; [done|done|done|]. unfold sell_dealt. cbn [sd_SatValue snd paid st_AssetAmt st_SatValue].
  rewrite parse_empty, <- Hvx. split_and!; [lia|lia|done|done|].
  pose proof (curve_kept G (Value A) (Value x) o). nia.
Qed.

(** *** The loop *)

(** What the loop holds in the pool. *)
Definition held_by (u : holding) (asset : Decimal) (gas : Z) : Z :=
  match u with
  | InAsset => Value asset
  | InSats => gas
  end.

(** The state of the loop against the one it started with: accounts are covered,
    the product of the pool has not decreased, and a change is recorded. *)
Record swapping (s0 s : swap_state) : Prop := mkSwapping {
  sw_items : Forall (wf_item true) (ss_items s);
  sw_asset : finest (ss_asset s);
  sw_gas : 0 <= ss_gas s < 2 ^ 63;
  sw_length : length (ss_items s) = length (ss_items s0);
  sw_account u : account u (ss_items s) (ss_plan s) + held_by u (ss_asset s) (ss_gas s)
    <= account u (ss_items s0) (ss_plan s0) + held_by u (ss_asset s0) (ss_gas s0);
  sw_product : Value (ss_asset s0) * ss_gas s0 <= Value (ss_asset s) * ss_gas s;
  sw_tracked : ss_changed s = true \/ s = s0;
}.

Lemma active_swappable height item : wf_item true item -> active_swap height item = true ->
  swappable item /\ (it_OrderType item = OrderTypeBuy \/ it_OrderType item = OrderTypeSell).
Proof.
  intros Hw Ha. unfold active_swap in Ha. destruct (Finished item) eqn:Hf; [done|]. simpl in Ha.
  destruct (bool_decide (it_Reason item = InvokeReasonNormal)) eqn:Hr; [|done]. simpl in Ha.
  apply bool_decide_eq_true_1 in Hr.
  destruct (it_Height item >? height); [done|].
  assert (Ht : it_OrderType item = OrderTypeBuy \/ it_OrderType item = OrderTypeSell).
  { destruct (it_OrderType item =? OrderTypeBuy) eqn:?; [left; lia|].
    destruct (it_OrderType item =? OrderTypeSell) eqn:?; [right; lia|done]. }
  split; [|done]. split; [done|done|by apply wf_item_normal|apply Hw|]. by destruct Ht as [-> | ->].
Qed.

(** The claims of swaps. *)
Lemma claim_buy item : swappable item -> it_OrderType item = OrderTypeBuy ->
  claim InAsset item = 0 /\ claim InSats item = it_OutValue item + it_RemainingValue item.
Proof. intros [Hf Hr _ _ _] Ht. unfold claim. by rewrite Hf, Hr, Ht. Qed.

Lemma claim_sell item : swappable item -> it_OrderType item = OrderTypeSell ->
  claim InAsset item = amount (it_RemainingAmt item) /\ claim InSats item = 0.
Proof. intros [Hf Hr _ _ _] Ht. unfold claim. by rewrite Hf, Hr, Ht. Qed.

Lemma item_changed_finished a b : Finished a = true -> Finished b = false -> item_changed a b = true.
Proof.
  unfold Finished, item_changed. intros Ha Hb. destruct (it_Done a =? it_Done b) eqn:He; [|apply orb_true_r].
  apply Z.eqb_eq in He. congruence.
Qed.

(** Finishing one item. *)
Lemma swapping_step s0 s id item item' plan' A' G' k' :
  swapping s0 s -> ss_items s !! id = Some item -> Finished item' = true -> it_Param item' = it_Param item ->
  finest A' -> 0 <= G' < 2 ^ 63 -> Value (ss_asset s) * ss_gas s <= Value A' * G' ->
  (forall u, paid_out u plan' + held_by u A' G'
             <= paid_out u (ss_plan s) + held_by u (ss_asset s) (ss_gas s) + claim u item) ->
  swapping s0 (mkSwapState (<[id := item']> (ss_items s)) plan' A' G' k' true).
Proof.
  intros [Hw _ _ Hl Ha Hp _] Hi Hf Hs HA HG Hprod Hpay. split; simpl; [|done|done|by rewrite length_insert| |lia|by left].
  - apply Forall_insert; [done|]. apply wf_finished; [done|]. rewrite Hs. apply (wf_lookup _ _ _ Hw Hi).
  - intros u. specialize (Ha u). specialize (Hpay u). unfold account, claims in *.
    rewrite (sum_of_insert _ _ _ _ _ Hi), (claim_finished _ _ Hf). lia.
Qed.

Lemma swap_rejected_spec s0 s id item r dealt t :
  swapping s0 s -> ss_items s !! id = Some item -> swappable item ->
  swap_result item dealt (r, Rejected t) -> swapping s0 (swap_rejected s id item r t).
Proof.
  intros Hs Hi Hsw (Hf & Hp & _ & Ht). cbn [fst snd] in *. unfold swap_rejected.
  rewrite item_changed_finished, orb_true_r by (done || apply Hsw).
  apply (swapping_step s0 s id item); [done|done|done|done|apply Hs|apply Hs|lia|]. intros u.
  pose proof (claim_nonneg true u item (wf_lookup _ _ _ (sw_items _ _ Hs) Hi)).
  case_if; [|lia]. destruct t as [t|]; [|lia]. specialize (Ht u).
  unfold appendAMMRefundTransfer. case_if; [lia|]. rewrite paid_inputs, paid_add_item_id, paid_add_transfer. lia.
Qed.

Lemma swap_dealt_spec s0 s id item r deal t A' G' :
  swapping s0 s -> ss_items s !! id = Some item -> Finished r = true -> it_Param r = it_Param item ->
  finest A' -> 0 <= G' < 2 ^ 63 -> Value (ss_asset s) * ss_gas s <= Value A' * G' ->
  (forall u, paid u t + held_by u A' G' <= held_by u (ss_asset s) (ss_gas s) + claim u item) ->
  swapping s0 (swap_dealt s id r deal t A' G').
Proof.
  intros Hs Hi Hf Hp HA HG Hprod Hpay. apply (swapping_step s0 s id item); [done..|]. intros u.
  rewrite paid_inputs, paid_add_item_id, paid_add_transfer, paid_add_deal. specialize (Hpay u). lia.
Qed.

Lemma swap_item_spec resolve height s0 s id item : resolver_ok resolve -> swapping s0 s ->
  ss_items s !! id = Some item -> active_swap height item = true ->
  wp (swap_item resolve s id) (fun s' => swapping s0 s' /\ forall j, j <> id -> ss_items s' !! j = ss_items s !! j).
Proof.
  intros Hres Hs Hi Ha. pose proof (wf_lookup _ _ _ (sw_items _ _ Hs) Hi) as Hw.
  destruct (active_swappable height item Hw Ha) as [Hsw Ht].
  assert (Hother : forall r j, j <> id -> <[id := r]> (ss_items s) !! j = ss_items s !! j)
    by (intros; by apply list_lookup_insert_ne).
  pose proof (sw_asset _ _ Hs) as HA. pose proof (sw_gas _ _ Hs) as HG.
  destruct (sw_wf _ Hsw) as [Hamt _ Hov Hrv Hsum Hsell].
  unfold swap_item. rewrite Hi. cbn [rbind unwrap]. destruct Ht as [Ht|Ht]; rewrite Ht; cbn -[settleAMMBuy settleAMMSell].
  - destruct (claim_buy item Hsw Ht) as [Hca Hcs].
    eapply wp_bind; [by apply settleAMMBuy_spec; [| |lia|]|].
    intros [r [deal t|t]] Hr; cbv beta iota; [|split; [by eapply swap_rejected_spec|apply Hother]].
    destruct Hr as (Hf & Hp & _ & (Ho & Hpa & Hps & Hv & Hcurve)). rewrite Hv.
    destruct (AddInt64 _ _) as [G' ov] eqn:Hadd. destruct ov; [done|].
    apply AddInt64_ok in Hadd as [-> HG']; [|lia..]. split; [|apply Hother].
    destruct (sub_finest (ss_asset s) (parseDecimalOrZero (sd_AssetAmt deal))) as [HA' HvA];
      [done|split; [apply parse_places|lia]|lia|].
    apply (swap_dealt_spec s0 s id item); [done..|lia|by rewrite HvA|].
    intros []; simpl; rewrite ?HvA; simpl in *; lia.
  - destruct (claim_sell item Hsw Ht) as [Hca Hcs].
    eapply wp_bind; [by apply settleAMMSell_spec; [|lia|]|].
    intros [r [deal t|t]] Hr; cbv beta iota; [|split; [by eapply swap_rejected_spec|apply Hother]].
    destruct Hr as (Hf & Hp & Hin & (Ho & Hpa & Hps & Hcurve)). cbn [fst] in *.
    rewrite int64_id by (unfold is_int64; lia). z_test. split; [|apply Hother].
    rewrite Hin, (Hsell eq_refl Ht).
    assert (HA' : let A' := match it_RemainingAmt item with Some a => DecimalAdd (ss_asset s) a | None => ss_asset s end in
      finest A' /\ Value A' = Value (ss_asset s) + amount (it_RemainingAmt item)).
    { destruct (it_RemainingAmt item) as [a|]; simpl in *; [|split; [done|lia]]. apply add_finest; auto. }
    destruct HA' as [HA' HvA].
    apply (swap_dealt_spec s0 s id item); [done..|lia|by rewrite HvA|].
    intros []; simpl; rewrite ?HvA; simpl in *; lia.
Qed.

Lemma swaps_spec resolve height s0 l : resolver_ok resolve -> swapping s0 s0 -> NoDup l ->
  Forall (fun i => exists item, ss_items s0 !! i = Some item /\ active_swap height item = true) l ->
  wp (rfold (swap_item resolve) s0 l) (swapping s0).
Proof.
  intros Hres Hs0 Hnd Hl.
  apply (wp_rfold _ (fun l s => NoDup l /\ swapping s0 s
    /\ Forall (fun i => exists item, ss_items s !! i = Some item /\ active_swap height item = true) l)).
  - done.
  - intros i r s (Hnd' & Hs & Hl'). apply NoDup_cons in Hnd' as [Hni Hnd'].
    apply Forall_cons in Hl' as [(item & Hi & Ha) Hl'].
    eapply wp_mono; [by eapply swap_item_spec|]. intros s' [Hs' Hother]. split_and!; [done|done|].
    apply Forall_forall. intros j Hj. rewrite Forall_forall in Hl'. destruct (Hl' j Hj) as (x & Hx & Hax).
    exists x. rewrite Hother; [done|]. by intros ->.
  - by intros s (_ & ? & _).
Qed.

Lemma active_ids_ok items height :
  let l := sort_stable (item_before items) (activeAMMItemIDs items height) in
  NoDup l /\ Forall (fun i => exists item, items !! i = Some item /\ active_swap height item = true) l.
Proof.
  intros l. assert (Hp : l ≡ₚ activeAMMItemIDs items height) by apply sort_stable_perm. rewrite Hp.
  unfold activeAMMItemIDs. split.
  - apply NoDup_ListNoDup, List.NoDup_filter, NoDup_ListNoDup, NoDup_seq.
  - apply Forall_forall. intros i [_ Hi]%list_elem_of_In%filter_In. destruct (items !! i); eauto. done.
Qed.

Lemma sync_same_pool r : same_pool r (syncAMMPoolInvariant r).1.
Proof. unfold syncAMMPoolInvariant. by case_if. Qed.

Lemma same_pool_trans r1 r2 r3 : same_pool r1 r2 -> same_pool r2 r3 -> same_pool r1 r3.
Proof. unfold same_pool. intuition congruence. Qed.

Lemma whole_default g : whole (Some (NewDefaultDecimal g)) = g.
Proof. rewrite default_decimal. simpl. apply Z.div_1_r. Qed.

(** Running data with the pool that a loop has computed. *)
Definition with_pool (r : AMMRunningData) (A : Decimal) (G : Z) : AMMRunningData :=
  am_set_AssetBInPool (Some (NewDefaultDecimal G)) (am_set_AssetAInPool (Some A) r).

Lemma with_pool_wf r A G : wf_running r -> finest A -> 0 <= G -> wf_running (with_pool r A G).
Proof.
  intros [? ? ? ?] ? ?. split; simpl; try done. rewrite default_decimal. simpl. lia.
Qed.

Lemma with_pool_pool u r A G : finest A -> pool u (with_pool r A G) = held_by u A G.
Proof. intros HA. destruct u; simpl; [by apply finest_units|apply whole_default]. Qed.

Abbreviation product r := (pool InAsset r * pool InSats r).

(** The swaps of a block. *)
Lemma settle_swaps_spec resolve height state plan changed : resolver_ok resolve -> wf_state state ->
  tracked plan changed ->
  wp (settle_swaps resolve height state plan changed) (fun '(state', plan', changed') =>
    covered state state' plan plan' /\ tracked plan' changed'
    /\ product (AMMData state) <= product (AMMData state')).
Proof.
  intros Hres Hwf Ht. unfold settle_swaps. case_if; [split_and!; [by apply covered_refl|done|lia]|].
  pose proof Hwf as [Hi Hr]. destruct (or_zero_finest _ (wf_AssetA _ Hr)) as [HA HvA].
  eapply wp_bind; [apply decimalInt64_spec, Hr|]. intros G [HG Hlt]. cbv beta.
  destruct (active_ids_ok (rs_Items state) height) as [Hnd Hact].
  eapply wp_bind; [apply (swaps_spec resolve height); [done| |done|done]|].
  { split; simpl; [done|done|lia|done|done|lia|by right]. }
  intros s [Hi' HA' HG' _ Ha Hp Hc]. simpl in Hp, Ha.
  destruct (ss_changed s) eqn:Hch.
  - set (r := (syncAMMPoolInvariant (with_pool (AMMData state) (ss_asset s) (ss_gas s))).1).
    assert (Hsame : forall r', same_pool r r' -> covered state (rs_set_AMM (Some r') (rs_set_Items (ss_items s) state)) plan (ss_plan s)
      /\ product (AMMData state) <= product r').
    { intros r' Hr'. pose proof (same_pool_trans _ _ _ (sync_same_pool _) Hr') as Hsp.
      assert (Hpool : forall u, pool u r' = held_by u (ss_asset s) (ss_gas s))
        by (intros u; rewrite (same_pool_pool u _ _ Hsp); by apply with_pool_pool).
      split; [split|].
      - split; [done|]. eapply same_pool_wf; [exact Hsp|]. apply with_pool_wf; [done|done|lia].
      - intros u. specialize (Ha u). unfold owed, account in *. cbn [rs_Items rs_set_AMM rs_set_Items].
        change (AMMData (rs_set_AMM (Some r') (rs_set_Items (ss_items s) state))) with r'.
        rewrite Hpool. destruct u; simpl in *; lia.
      - rewrite !Hpool. simpl. rewrite <- HvA, <- HG. done. }
    destruct (Hsame (if (Decimal_Sign (ss_asset s) <=? 0) || (ss_gas s <=? 0) then am_set_TradingReady false r else r))
      as [Hcov Hprod]; [by case_if|].
    split_and!; [exact Hcov|done|exact Hprod].
  - destruct Hc as [?|Hc]; [done|]. subst s. simpl in *. subst changed.
    split_and!; [by split|done|reflexivity].
Qed.

(** ** Liquidity *)

Lemma sign_units d : fine d -> Z.sgn (units d) = Decimal_Sign d.
Proof.
  intros [? ?]. rewrite sign_value. unfold units. rewrite Z.sgn_mul.
  pose proof (pow10_pos (MaxPriceDivisibility - Precision d)). rewrite (Z.sgn_pos (10 ^ _)) by lia. lia.
Qed.

Lemma zero_finest : finest (parseDecimalOrZero (str "0")) /\ Value (parseDecimalOrZero (str "0")) = 0.
Proof. by rewrite parse_zero. Qed.

Lemma new_price_fine n : 0 <= n -> fine (NewDecimal n MaxPriceDivisibility).
Proof. intros Hn. rewrite new_decimal by done. split; simpl; [done|]. unfold MaxPriceDivisibility. lia. Qed.

Lemma default_fine n : 0 <= n -> fine (NewDefaultDecimal n) /\ Value (NewDefaultDecimal n) = n.
Proof. intros Hn. by rewrite default_decimal. Qed.

Lemma div_fine a b : fine a -> fine b -> 0 < Value b -> exists q, DecimalDiv a b = Some q /\ fine q.
Proof.
  intros [? ?] [? ?] Hb. destruct (div_below a b) as (q & Hq & Hp & Hv & _); [lia..|].
  exists q. split; [done|]. split; [lia|done].
Qed.

Lemma mul_fine a b : fine a -> fine b -> fine (DecimalMul a b).
Proof. intros [? ?] [? ?]. destruct (mul_below a b) as (Hp & Hv & _); [lia..|]. split; [lia|done]. Qed.

Lemma sqrt_fine d : fine d -> fine (Decimal_Sqrt d).
Proof. intros [? ?]. destruct (sqrt_places d) as (Hp & Hv); [lia..|]. split; [lia|done]. Qed.

Lemma min_units a b : fine a -> fine b ->
  let m := minDecimal (Some a) (Some b) in fine m /\ units m <= units a /\ units m <= units b.
Proof.
  intros Ha Hb. unfold minDecimal. rewrite cmp_units by done. case_if; split_and!; try done; lia.
Qed.

Lemma reserve_spec add gas A G r : finest add -> 0 < Value add -> 0 < gas < 2 ^ 63 -> finest A ->
  wp (reserveAMMLiquidity add gas A G r) (fun '(ra, rg, la, lg) =>
    finest ra /\ finest la /\ Value ra + Value la = Value add /\ 0 <= rg /\ 0 <= lg /\ rg + lg = gas).
Proof.
  intros Hadd Hadd0 Hgas HA. destruct zero_finest as [Hz Hz0].
  unfold reserveAMMLiquidity. set (z := parseDecimalOrZero (str "0")) in *. rewrite !sign_value. case_if; [lia|]. case_if; [split_and!; done || lia|].
  destruct_and?. unfold ammPoolPrice. rewrite sign_value. z_test.
  rewrite rescale_same by apply HA.
  destruct (div_fine (NewDecimal G MaxPriceDivisibility) A) as (price & -> & Hprice);
    [apply new_price_fine; lia|auto|lia|].
  case_if; [split_and!; done || lia|]. rewrite sign_value in *.
  destruct (div_fine (NewDecimal gas MaxPriceDivisibility) price) as (q & -> & Hq);
    [apply new_price_fine; lia|done|lia|].
  assert (Hra : finest (NewPrecision q (Precision add))).
  { destruct Hadd as [-> _]. pose proof (fine_units q Hq). destruct Hq. by rewrite rescale_up by lia. }
  set (ra := NewPrecision q (Precision add)) in *.
  eapply (wp_bind _ _ (fun '(ra, rg) => finest ra /\ Value ra <= Value add /\ 0 <= rg <= gas)).
  - case_if.
    + pose proof (mul_fine add price ltac:(auto) Hprice) as [? ?].
      rewrite ceil_value by lia. unfold int64_or_error. case_if; [|done]. split; [done|]. split; [lia|].
      assert (0 <= - (- Value (DecimalMul add price) / 10 ^ Precision (DecimalMul add price))).
      { pose proof (pow10_pos (Precision (DecimalMul add price))).
        assert (- Value (DecimalMul add price) / 10 ^ Precision (DecimalMul add price) <= 0)
          by (apply Z.div_le_upper_bound; lia). lia. }
      case_if; lia.
    + split; [done|]. split; [|lia]. rewrite cmp_units, !finest_units in * by auto. lia.
  - intros [ra' rg] (Hra' & Hle & Hrg). cbv beta iota.
    destruct (sub_finest add ra' Hadd Hra' Hle) as [Hl Hvl]. rewrite int64_id by (unfold is_int64; lia).
    split_and!; [done|done|lia|lia|case_if; lia|case_if; lia].
Qed.

Lemma mint_fine add gas A G T : fine add -> fine A -> fine T -> fine (mintLPTAmount add gas A G T).
Proof.
  intros Hadd HA HT. destruct zero_finest as [Hz _]. unfold mintLPTAmount. rewrite !sign_value.
  case_if; [auto|]. destruct_and?. destruct (default_fine gas) as [Hg Hvg]; [lia|].
  case_if; [by apply sqrt_fine, mul_fine|]. destruct_and?.
  destruct (default_fine G) as [HG HvG]; [lia|].
  destruct (div_fine (DecimalMul add T) A) as (q & -> & Hq); [by apply mul_fine|done|destruct HA; lia|].
  destruct (div_fine (DecimalMul (NewDefaultDecimal gas) T) (NewDefaultDecimal G)) as (q' & -> & Hq');
    [by apply mul_fine|done|lia|].
  by apply min_units.
Qed.

(** A part of an amount. *)
Lemma ratio_below asset r fp tv : finest asset -> fine r -> 0 <= fp <= tv -> 0 < tv ->
  Value r * tv <= fp * 10 ^ Precision r ->
  fine (DecimalMul asset r) /\ units (DecimalMul asset r) <= Value asset.
Proof.
  intros Ha Hr Hfp Htv Hle. split; [apply mul_fine; auto|].
  destruct Ha as [Hap Hav], Hr as [Hrp Hrv].
  destruct (mul_below asset r) as (Hp & Hv & Hm); [unfold MaxPriceDivisibility in *; lia..|].
  set (m := DecimalMul asset r) in *. unfold units.
  pose proof (pow10_pos (Precision r)). pose proof (pow10_pos (Precision m)).
  assert (Hr1 : Value r <= 10 ^ Precision r) by nia.
  assert (10 ^ MaxPriceDivisibility = 10 ^ (MaxPriceDivisibility - Precision m) * 10 ^ Precision m) as Hs
    by (rewrite <- Z.pow_add_r by lia; f_equal; lia).
  rewrite Hap, Z.pow_add_r, Hs in Hm by lia.
  set (k := 10 ^ (MaxPriceDivisibility - Precision m)) in *. set (pm := 10 ^ Precision m) in *.
  set (pr := 10 ^ Precision r) in *.
  assert (Value m * k * pr <= Value asset * Value r) by (apply (Z.mul_le_mono_pos_r _ _ pm); [lia|]; nia).
  apply (Z.mul_le_mono_pos_r _ _ pr); [lia|]. nia.
Qed.

Lemma split_spec asset gas dep : finest asset -> 0 <= gas < 2 ^ 63 -> 0 <= dep < 2 ^ 63 ->
  wp (splitAMMRemoveLiquidity asset gas dep) (fun '(la, lg, fa, fg) =>
    finest la /\ fine fa /\ Value la + units fa = Value asset /\ 0 <= lg /\ 0 <= fg /\ lg + fg = gas).
Proof.
  intros Ha Hg Hd. destruct zero_finest as [Hz Hz0].
  assert (Hno : finest asset /\ fine (parseDecimalOrZero (str "0"))
    /\ Value asset + units (parseDecimalOrZero (str "0")) = Value asset /\ 0 <= gas /\ 0 <= 0 /\ gas + 0 = gas).
  { rewrite finest_units by done. split_and!; auto; lia. }
  unfold splitAMMRemoveLiquidity. set (z := parseDecimalOrZero (str "0")) in *. destruct (AddInt64 gas gas) as [tv ov] eqn:Hadd. destruct ov; [done|].
  apply AddInt64_ok in Hadd as [-> Htv]; [|lia..]. rewrite (int64_id (gas + gas - dep)) by (unfold is_int64; lia).
  case_if; [exact Hno|]. unfold AMMProfitShareLP, int64_or_error.
  set (fp := (gas + gas - dep) * (100 - 60) / 100).
  assert (Hfp : 0 <= fp <= gas + gas).
  { split; [apply Z.div_pos; lia|]. apply Z.div_le_upper_bound; lia. }
  z_test. case_if; [exact Hno|].
  set (fg := gas * fp / (gas + gas)).
  assert (Hfg : 0 <= fg <= gas).
  { split; [apply Z.div_pos; nia|]. apply Z.div_le_upper_bound; nia. }
  z_test. z_test. rewrite int64_id by (unfold is_int64; lia). z_test.
  rewrite div_method, !new_decimal by done.
  destruct (div_below (mkDecimal MaxPriceDivisibility (fp * 10 ^ MaxPriceDivisibility))
    (mkDecimal MaxPriceDivisibility ((gas + gas) * 10 ^ MaxPriceDivisibility)))
    as (q & -> & Hqp & Hqv & Hq); [done|done|simpl; unfold MaxPriceDivisibility; lia..|].
  simpl in Hqp, Hq. rewrite Z.max_id in Hqp. rewrite Z.pow_add_r in Hq by (lia || done).
  destruct (ratio_below asset q fp (gas + gas)) as [Hfa Hle]; [done|by split|lia|lia| |].
  { pose proof (pow10_pos (Precision q)). change (10 ^ MaxPriceDivisibility) with 10000000000 in Hq. nia. }
  set (fa := DecimalMul asset q) in *.
  assert (Hsub : finest (DecimalSub asset fa) /\ Value (DecimalSub asset fa) = Value asset - units fa).
  { destruct Ha as [Hap ?]. pose proof (fine_units fa Hfa). destruct Hfa. rewrite sub_exact by lia.
    unfold finest, units in *. simpl. rewrite Hap. lia. }
  destruct Hsub as [Hl Hvl]. split_and!; [done|done|lia|lia|lia|lia].
Qed.

(** *** The loop *)

Record serving (s0 s : liquidity_state) : Prop := mkServing {
  sv_items : Forall (wf_item true) (ls_items s);
  sv_running : wf_running (ls_running s);
  sv_asset : finest (ls_asset s);
  sv_gas : 0 <= ls_gas s < 2 ^ 63;
  sv_total : fine (ls_total s);
  sv_length : length (ls_items s) = length (ls_items s0);
  sv_account u : account u (ls_items s) (ls_plan s) + held_by u (ls_asset s) (ls_gas s)
    <= account u (ls_items s0) (ls_plan s0) + held_by u (ls_asset s0) (ls_gas s0);
  sv_tracked : ls_changed s = true \/ s = s0;
}.

(** Finishing one request. *)
Lemma serving_step s0 s i item item' plan' r' A' G' T' :
  serving s0 s -> ls_items s !! i = Some item -> Finished item' = true -> it_Param item' = it_Param item ->
  wf_running r' -> finest A' -> 0 <= G' < 2 ^ 63 -> fine T' ->
  (forall u, paid_out u plan' + held_by u A' G'
             <= paid_out u (ls_plan s) + held_by u (ls_asset s) (ls_gas s) + claim u item) ->
  serving s0 (mkLiquidityState (<[i := item']> (ls_items s)) plan' r' A' G' T' true).
Proof.
  intros [Hw _ _ _ _ Hl Ha _] Hi Hf Hs Hr HA HG HT Hpay.
  split; simpl; [|done|done|done|done|by rewrite length_insert| |by left].
  - apply Forall_insert; [done|]. apply wf_finished; [done|]. rewrite Hs. apply (wf_lookup _ _ _ Hw Hi).
  - intros u. specialize (Ha u). specialize (Hpay u). unfold account, claims in *.
    rewrite (sum_of_insert _ _ _ _ _ Hi), (claim_finished _ _ Hf). lia.
Qed.

Lemma liquidity_closed_spec s0 s i item : serving s0 s -> ls_items s !! i = Some item ->
  serving s0 (liquidity_closed s i item).
Proof.
  intros Hs Hi. apply (serving_step s0 s i item); [done|done|done|done|apply Hs..|]. intros u.
  pose proof (claim_nonneg true u item (wf_lookup _ _ _ (sv_items _ _ Hs) Hi)). lia.
Qed.

Lemma lp_balance_fine r address : wf_running r -> fine (lp_balance r address).
Proof.
  intros Hr. unfold lp_balance. destruct zero_finest as [Hz _].
  destruct (am_LPBalances r !! address) as [[d|]|] eqn:Hl; cbn -[parseDecimalOrZero str]; [|auto..].
  exact (wf_LPBalances _ Hr _ _ Hl).
Qed.

(** Shares of one holder change. *)
Lemma set_balance_wf r address d costs : wf_running r -> fine d ->
  wf_running (am_set_LPCosts costs (am_set_LPBalances (<[address := Some d]> (am_LPBalances r)) r)).
Proof. intros [? ? ? ?] Hd. split; simpl; try done. by apply map_Forall_insert_2. Qed.

Lemma lp_removed_wf r address left cost : wf_running r -> fine left -> wf_running (lp_removed r address left cost).
Proof.
  intros Hr Hl. unfold lp_removed. case_if; [by apply set_balance_wf|].
  destruct Hr as [? ? ? ?]. split; simpl; try done. by apply map_Forall_delete.
Qed.

Lemma ammLiquidityCost_wp asset gas : wp (ammLiquidityCost asset gas) (fun _ => True).
Proof. unfold ammLiquidityCost. case_if; [done|]. destruct (AddInt64 gas gas) as [? []]; done. Qed.

(** The claims of requests for liquidity. *)
Lemma claim_request item u : Finished item = false -> it_Reason item = InvokeReasonNormal ->
  it_OrderType item = OrderTypeAddLiquidity -> wf_normal true item ->
  match u with InAsset => amount (it_RemainingAmt item) | InSats => it_RemainingValue item end <= claim u item.
Proof.
  intros Hf Hr Ht [? Ho ? ? ? ?]. unfold claim. rewrite Hf, Hr, Ht.
  rewrite bool_decide_false, bool_decide_true by done. simpl.
  pose proof (amount_nonneg _ (if_set_finest_fine _ Ho)). destruct u; lia.
Qed.

Lemma paid_finest u id a n d g reason : fine d ->
  paid u (mkTransfer id a n (decimalString (Some d)) g reason false) = match u with InAsset => units d | InSats => g end.
Proof. intros Hd. destruct u; [|done]. unfold paid. cbn [st_AssetAmt]. by rewrite parse_decimalString. Qed.

Lemma add_liquidity_spec s0 s i item : serving s0 s -> ls_items s !! i = Some item ->
  Finished item = false -> it_Reason item = InvokeReasonNormal -> it_OrderType item = OrderTypeAddLiquidity ->
  wp (add_liquidity s i item) (serving s0).
Proof.
  intros Hs Hi Hf Hr Ht. pose proof (wf_item_normal _ (wf_lookup _ _ _ (sv_items _ _ Hs) Hi) Hf Hr) as Hn.
  pose proof (fun u => claim_request item u Hf Hr Ht Hn) as Hclaim.
  destruct (or_zero_finest _ (wf_RemainingAmt _ _ Hn)) as [Hx Hvx].
  unfold add_liquidity. set (x := or_zero (it_RemainingAmt item)) in *.
  case_if; [by apply liquidity_closed_spec|]. rewrite sign_value in *. destruct Hn as [_ _ ? ? Hvs _].
  rewrite Ht in Hvs. specialize (Hvs ltac:(done)).
  pose proof (sv_asset _ _ Hs) as HA.
  eapply wp_bind; [apply reserve_spec; [done|lia|lia|done]|].
  intros [[[ra rg] la] lg] (Hra & Hla & Hsum & Hrg & Hlg & Hg). cbv beta iota zeta.
  pose proof (mint_fine ra rg (ls_asset s) (ls_gas s) (ls_total s) (finest_fine _ Hra) (finest_fine _ HA)
    (sv_total _ _ Hs)) as Hm.
  set (minted := mintLPTAmount _ _ _ _ _) in *. case_if; [by apply liquidity_closed_spec|].
  destruct (AddInt64 (ls_gas s) rg) as [G' ov] eqn:Hadd. destruct ov; [done|].
  apply AddInt64_ok in Hadd as [-> HG']; [|apply Hs|lia].
  eapply wp_bind; [apply ammLiquidityCost_wp|]. intros cost _. cbv beta.
  destruct (AddInt64 _ cost) as [costs ov]. destruct ov; [done|].
  destruct (add_finest _ ra HA (finest_fine _ Hra)) as [HA' HvA]. rewrite finest_units in HvA by done.
  apply (serving_step s0 s i item); [done|done|done|done| |done|pose proof (sv_gas _ _ Hs); lia| |].
  - apply set_balance_wf; [apply Hs|]. apply add_places; [apply lp_balance_fine, Hs|done].
  - apply add_places; [apply Hs|done].
  - intros u. specialize (Hclaim u). pose proof (proj2 Hla).
    case_if; rewrite ?paid_add_transfer, ?paid_finest by auto; rewrite paid_add_item_id, paid_inputs;
      destruct u; simpl held_by; rewrite ?HvA, ?finest_units in * by done; lia.
Qed.

Lemma proportionalInt64_range n p t : fine p -> fine t ->
  wp (proportionalInt64 n (Some p) (Some t)) (fun o => 0 <= o < 2 ^ 63).
Proof.
  intros Hp Ht. unfold proportionalInt64. case_if; [done|]. simpl positive in *. bool_to_prop.
  rewrite <- !sign_units in * by done. destruct (default_fine n) as [_ Hv]; [lia|].
  rewrite proportional_value by (rewrite ?Hv; done || lia). rewrite Hv, default_decimal, floor_value by done.
  unfold int64_or_error. case_if; [|done]. simpl. split; [|simpl in *; lia].
  rewrite Z.div_1_r. apply Z.div_pos; lia.
Qed.

Lemma min_negative a b : Precision a = MaxPriceDivisibility -> Value a < 0 -> fine b ->
  minDecimal (Some a) (Some b) = a.
Proof.
  intros Hp Hv [? ?]. unfold minDecimal. rewrite cmp_value, Hp by (rewrite ?Hp; done || lia).
  pose proof (pow10_pos (Precision b)). pose proof (pow10_pos MaxPriceDivisibility ltac:(done)).
  rewrite Z.sgn_neg by nia. done.
Qed.

(** The shares that a request removes: at most what the holder has, and at most
    what there is. *)
Lemma remove_amount_spec want owned T : Precision want = MaxPriceDivisibility -> fine owned -> fine T ->
  let m := minDecimal (Some (minDecimal (Some want) (Some owned))) (Some T) in
  Decimal_Sign m <= 0 \/ (fine m /\ 0 < units m /\ units m <= units owned /\ units m <= units T).
Proof.
  intros Hp Ho HT. destruct (Z.lt_ge_cases (Value want) 0) as [Hneg|Hpos].
  - left. cbv zeta. rewrite (min_negative want owned), min_negative, sign_value by done. lia.
  - assert (Hf : fine want) by (split; [rewrite Hp; done|lia]).
    destruct (min_units want owned Hf Ho) as (Hm & _ & Hle). destruct (min_units _ T Hm HT) as (Hm' & Hle' & Hle2).
    set (m := minDecimal (Some (minDecimal _ _)) _) in *. cbv zeta.
    destruct (Z.le_gt_cases (Decimal_Sign m) 0); [by left|right]. rewrite <- sign_units in * by done.
    split_and!; [done|lia|lia|lia].
Qed.

Lemma remove_liquidity_spec foundation s0 s i item : serving s0 s -> ls_items s !! i = Some item ->
  wp (remove_liquidity foundation s i item) (serving s0).
Proof.
  intros Hs Hi. pose proof (wf_lookup _ _ _ (sv_items _ _ Hs) Hi) as Hw.
  unfold remove_liquidity. eapply wp_bind; [apply removeLiquidityItemAmount_wp, Hw|].
  intros want [text ->]. cbv beta zeta.
  pose proof (lp_balance_fine (ls_running s) (it_Address item) (sv_running _ _ Hs)) as Hown.
  set (owned := lp_balance _ _) in *. pose proof (sv_total _ _ Hs) as HT. pose proof (sv_gas _ _ Hs) as HG.
  pose proof (sv_asset _ _ Hs) as HA.
  pose proof (remove_amount_spec (parseDecimalOrZero text) owned (ls_total s) (parse_places _) Hown HT) as Hrm.
  cbv zeta in Hrm. set (m := minDecimal (Some (minDecimal _ _)) _) in *.
  case_if; [by apply liquidity_closed_spec|]. destruct Hrm as [?|(Hm & Hm0 & Hmo & HmT)]; [lia|].
  eapply wp_bind; [by apply proportionalInt64_range|]. intros dep Hdep. cbv beta.
  rewrite proportional_value, proportionalInt64_value by (done || apply HA || lia). cbn [rbind].
  destruct (share_covered (Value (ls_asset s)) (units (ls_total s)) (units m) (Value (ls_asset s)) (units m))
    as [HsA _]; [apply HA|lia|lia|destruct HA; nia|].
  destruct (share_covered (ls_gas s) (units (ls_total s)) (units m) (ls_gas s) (units m)) as [HsG _]; [lia|lia|lia|nia|].
  set (oG := ls_gas s * units m / units (ls_total s)) in *.
  set (oA := mkDecimal (Precision (ls_asset s)) (Value (ls_asset s) * units m / units (ls_total s))).
  assert (HoA : finest oA) by (split; [apply HA|apply HsA]).
  eapply wp_bind; [apply split_spec; [done|lia|done]|].
  intros [[[la lg] fa] fg] (Hla & Hfa & HsumA & Hlg & Hfg & HsumG). cbv beta iota.
  destruct (sub_finest _ oA HA HoA) as [HA' HvA]; [apply HsA|].
  rewrite (int64_id (ls_gas s - oG)) by (unfold is_int64; lia).
  replace (ls_gas s - oG <? 0) with false by (symmetry; apply Z.ltb_ge; lia).
  set (r1 := lp_removed _ _ _ _).
  assert (Hr1 : wf_running r1) by (apply lp_removed_wf; [apply Hs|by apply sub_places]).
  apply (serving_step s0 s i item); [done|done|done|done| |done|lia|by apply sub_places|].
  - case_if; [|done]. by destruct Hr1; split.
  - intros u. pose proof (claim_nonneg true u item Hw). pose proof (fine_units fa Hfa).
    case_if; rewrite !paid_add_transfer, !paid_finest, paid_add_item_id, paid_inputs by auto;
      destruct u; simpl held_by; rewrite ?HvA, ?(finest_units la) by done; simpl Value in *; lia.
Qed.

Lemma liquidity_item_spec foundation s0 s i item : serving s0 s -> ls_items s !! i = Some item ->
  wp (liquidity_item foundation s i) (serving s0).
Proof.
  intros Hs Hi. unfold liquidity_item. rewrite Hi. cbn [rbind unwrap]. case_if; [done|].
  destruct_and?. apply bool_decide_eq_true_1 in H0.
  case_if; [by apply add_liquidity_spec|]. case_if; [by apply remove_liquidity_spec|done].
Qed.

Lemma applyAMMLiquidity_spec state plan foundation : wf_state state ->
  wp (applyAMMLiquidity state plan foundation) (fun '(state', plan', changed) =>
    covered state state' plan plan' /\ (changed = true \/ plan' = plan)).
Proof.
  intros Hwf. pose proof Hwf as [Hi Hr]. unfold applyAMMLiquidity.
  destruct (or_zero_finest _ (wf_AssetA _ Hr)) as [HA HvA].
  eapply wp_bind; [apply decimalInt64_spec, Hr|]. intros G [HG Hlt]. cbv beta zeta.
  match goal with |- context [mkLiquidityState _ _ _ _ _ ?t _] => set (T := t) end.
  assert (HT : fine T).
  { unfold T. case_if; [destruct_and?; apply sqrt_fine, mul_fine; [auto|apply default_fine; lia]|].
    pose proof (wf_TotalLPT _ Hr) as Ht. destruct (am_TotalLPTAmt (AMMData state)); [done|]. apply finest_fine, zero_finest. }
  set (s0 := mkLiquidityState _ _ _ _ _ _ _).
  assert (Hs0 : serving s0 s0) by (split; simpl; try done; by right).
  eapply wp_bind; [apply (wp_rfold _ (fun l s => Forall (fun i => (i < length (ls_items s0))%nat) l /\ serving s0 s)
    (serving s0))|].
  - split; [apply Forall_lt_seq|done].
  - intros i l s [Hl Hs]. inversion Hl as [|? ? Hlt' Hl']; subst. rewrite <- (sv_length _ _ Hs) in Hlt'.
    apply lookup_lt_is_Some_2 in Hlt' as [item Hit].
    eapply wp_mono; [by eapply liquidity_item_spec|]. done.
  - by intros s [_ ?].
  - intros s [Hi' Hr' HA' HG' HT' _ Ha Hc]. simpl in Ha. destruct (ls_changed s) eqn:Hch.
    + set (r1 := am_set_TotalLPTAmt (Some (ls_total s)) (with_pool (ls_running s) (ls_asset s) (ls_gas s))).
      pose proof (sync_same_pool r1) as Hsp. split; [|by left]. split.
      * split; [done|]. eapply same_pool_wf; [exact Hsp|].
        destruct (with_pool_wf (ls_running s) (ls_asset s) (ls_gas s)) as [? ? ? ?]; [done|done|lia|]. by split.
      * intros u. specialize (Ha u). unfold owed, account in *. cbn [rs_Items rs_set_AMM rs_set_Items].
        match goal with |- context [pool u (AMMData (rs_set_AMM (Some ?r) ?x))] =>
          change (AMMData (rs_set_AMM (Some r) x)) with (syncAMMPoolInvariant r1).1 end.
        rewrite (same_pool_pool u _ _ Hsp). change (pool u r1) with (pool u (with_pool (ls_running s) (ls_asset s) (ls_gas s))).
        rewrite with_pool_pool by done. destruct u; simpl in *; lia.
    + destruct Hc as [?|Hc]; [done|]. subst s. split; [|by right]. by split.
Qed.

(** ** Settlement *)

Lemma covered_running s r plan : wf_state s -> same_pool (AMMData s) r ->
  covered s (rs_set_AMM (Some r) s) plan plan.
Proof.
  intros [Hi Hr] Hsp. split; [split; [done|by eapply same_pool_wf]|].
  intros u. unfold owed. change (AMMData (rs_set_AMM (Some r) s)) with r.
  rewrite (same_pool_pool u _ _ Hsp). simpl. lia.
Qed.

Lemma preserve_pool_covered s plan : wf_state s ->
  covered s (rs_set_AMM (Some (preserve_pool (AMMData s))) s) plan plan.
Proof.
  intros [Hi [Ha Hb Ht Hl]]. split; [|done]. split; [done|]. split; simpl; [done..|].
  intros a b Hab. apply lookup_fmap_Some in Hab as (d & <- & Hd). specialize (Hl a d Hd). simpl.
  destruct d; [done|]. apply finest_fine, zero_finest.
Qed.

Lemma has_changes_tracked plan changed : tracked plan (changed || SettlementPlanHasChanges plan).
Proof.
  intros Hne. unfold SettlementPlanHasChanges. destruct (sp_Transfers plan) as [|t l]; [done|].
  rewrite len_cons. pose proof (len_nonneg l).
  replace (1 + len l =? 0) with false by (symmetry; apply Z.eqb_neq; lia). simpl.
  rewrite orb_true_r. simpl. apply orb_true_r.
Qed.

Lemma tracked_or plan a b : tracked plan a -> tracked plan (a || b).
Proof. intros H Hne. by rewrite (H Hne). Qed.

(** The running data that a settlement saves: only flags and [K] differ. *)
Lemma ready_same_pool r : same_pool r (let r := if am_TradingReady r then r else am_set_TradingReady (ammTradingReady r) r in
  if ammPoolEmpty r then am_set_TradingReady false r else r).
Proof. cbv zeta. by repeat case_if. Qed.

(** Swaps and liquidity, after the refunds of a block. *)
Lemma settle_pool_spec contract deployer resolve height state plan changed :
  resolver_ok resolve -> wf_state state -> tracked plan changed ->
  wp (let '(r, synced) := syncAMMPoolInvariant (AMMData state) in
      let state := rs_set_AMM (Some r) state in
      let! '(state, plan, changed) := settle_swaps resolve height state plan (changed || synced) in
      let! '(state, plan, liquidityChanged) := applyAMMLiquidity state plan deployer in
      let changed := changed || liquidityChanged in
      let r := AMMData state in
      let r := if am_TradingReady r then r else am_set_TradingReady (ammTradingReady r) r in
      let r := if ammPoolEmpty r then am_set_TradingReady false r else r in
      let '(r, synced) := syncAMMPoolInvariant r in
      let state := rs_set_AMM (Some r) state in
      if negb (changed || synced) then Ok (None, plan)
      else
        let state := rs_set_AMM (Some (preserve_pool r)) state in
        Ok (Some (applyFinishedItemStats (AnAMM contract) state), plan))
    (fun '(saved, plan') => match saved with
       | Some s' => covered state s' plan plan'
       | None => sp_Transfers plan' = []
       end).
Proof.
  intros Hres Hwf Ht. pose proof (sync_same_pool (AMMData state)) as Hsp.
  destruct (syncAMMPoolInvariant (AMMData state)) as [r0 synced]. cbn [fst] in Hsp. cbv zeta.
  pose proof (covered_running state r0 plan Hwf Hsp) as Hc0.
  eapply wp_bind; [apply settle_swaps_spec; [done|apply Hc0|by apply tracked_or]|].
  intros [[s1 p1] c1] (Hc1 & Ht1 & _). cbv beta iota.
  eapply wp_bind; [apply applyAMMLiquidity_spec, Hc1|].
  intros [[s2 p2] c2] [Hc2 Hp2]. cbv beta iota.
  pose proof (ready_same_pool (AMMData s2)) as Hsp2. cbv zeta in Hsp2.
  match type of Hsp2 with same_pool _ ?r => set (r1 := r) in * end.
  pose proof (same_pool_trans _ _ _ Hsp2 (sync_same_pool r1)) as Hsp3.
  destruct (syncAMMPoolInvariant r1) as [r3 synced3]. cbn [fst] in Hsp3.
  pose proof (covered_running s2 r3 p2 (cv_wf _ _ _ _ Hc2) Hsp3) as Hc3.
  pose proof (preserve_pool_covered _ p2 (cv_wf _ _ _ _ Hc3)) as Hc4.
  pose proof (applyFinishedItemStats_covered contract _ p2 (cv_wf _ _ _ _ Hc4)) as Hc5.
  case_if; cbn [wp].
  - destruct (sp_Transfers p2) as [|t l] eqn:Hl; [done|]. bool_to_prop. destruct Hp2 as [? | ->]; [congruence|].
    assert (c1 = true) by (apply Ht1; by rewrite Hl). congruence.
  - do 4 (eapply covered_trans; [eassumption|]). eapply covered_trans; [exact Hc4|exact Hc5].
Qed.

(** C9: Solvency of the market maker.  For any recorded invocations, in any order,
    with well-formed amounts, and as long as no request to remove liquidity is open
    beside a request to close or to refund: a settlement never panics, and when it
    succeeds, what the contract still owes - pool and claims of unfinished items -
    plus everything the plan pays is at most what it owed before, in satoshis and in
    the asset; the state it saves is well formed again; and when it saves nothing it
    pays nothing. *)
Theorem settleAMM_solvent contract address deployer resolve height state :
  resolver_ok resolve -> wf_state state -> backed_or_quiet (rs_Items state) ->
  wp (settleAMM contract address deployer resolve height state) (fun '(saved, plan) =>
    match saved with
    | Some state' => wf_state state' /\ forall u, owed u state' + paid_out u plan <= owed u state
    | None => sp_Transfers plan = []
    end).
Proof.
  intros Hres Hwf Hbq. pose proof Hwf as [Hi Hr]. unfold settleAMM. cbv zeta.
  eapply wp_bind; [by eapply applyInvalidItems_spec|].
  intros [[s1 p1] c1] (Hs1 & He1 & Ht1). cbv beta iota.
  assert (Hd1 : AMMData s1 = AMMData state) by (unfold AMMData; by rewrite He1).
  pose proof (covered_staged state s1 _ _ Hr Hs1 Hd1) as Hc1.
  pose proof (staged_backed_or_quiet _ _ Hs1 Hbq) as Hbq1. simpl in Hbq1.
  eapply wp_bind; [eapply applyRefunds_spec; [apply Hs1|done]|].
  intros [s2 p2] [Hs2 He2]. cbv beta iota.
  assert (Hd2 : AMMData s2 = AMMData s1) by (unfold AMMData; by rewrite He2).
  pose proof (covered_staged s1 s2 _ _ (proj2 (cv_wf _ _ _ _ Hc1)) Hs2 Hd2) as Hc2.
  pose proof (staged_backed_or_quiet _ _ Hs2 Hbq1) as Hbq2. simpl in Hbq2.
  eapply wp_bind; [apply applyCloseItems_spec; [apply Hc2|done]|].
  intros [[s3 p3] closed] [Hc3 Hsame]. cbv beta iota.
  pose proof (covered_trans _ _ _ _ _ _ (covered_trans _ _ _ _ _ _ Hc1 Hc2) Hc3) as Hc.
  assert (Hzero : forall s' p', covered state s' (emptyPlan address height) p' ->
    wf_state s' /\ forall u, owed u s' + paid_out u p' <= owed u state).
  { intros s' p' [Hw Ho]. split; [done|]. intros u. specialize (Ho u).
    change (paid_out u (emptyPlan address height)) with 0 in Ho. lia. }
  destruct closed.
  - apply Hzero. eapply covered_trans; [exact Hc|]. apply applyFinishedItemStats_covered, Hc.
  - destruct (Hsame eq_refl) as (_ & _ & ->).
    eapply wp_mono; [apply settle_pool_spec; [done|apply Hc|apply has_changes_tracked]|].
    intros [[s'|] p'] H; [|done]. apply Hzero. by eapply covered_trans.
Qed.

(** C10: The curve.  The swaps of a block never panic and never lower the product of
    the pool - asset units times satoshis - and they pay no more than they take in;
    so the shares of the pool do not lose value to traders. *)
Theorem swaps_keep_product resolve height state plan changed :
  resolver_ok resolve -> wf_state state -> tracked plan changed ->
  wp (settle_swaps resolve height state plan changed) (fun '(state', plan', _) =>
    pool InAsset (AMMData state) * pool InSats (AMMData state)
      <= pool InAsset (AMMData state') * pool InSats (AMMData state')
    /\ forall u, owed u state' + paid_out u plan' <= owed u state + paid_out u plan).
Proof.
  intros Hres Hwf Ht. eapply wp_mono; [by apply settle_swaps_spec|].
  intros [[s' p'] c'] ([_ Ho] & _ & Hp). done.
Qed.

End amm.

(** ** A block *)

Module Sample.

Definition asset_name : bytes := str "ordx:f:pearl".
Definition contract : AMMContract := mkAMMContract asset_name (str "1000") 100000 (str "100000000").

Definition encoded (r : result SettleError (option bytes)) : bytes :=
  match r with
  | Ok (Some s) => s
  | _ => []
  end.

Definition swap_param (orderType : Z) (amt : bytes) : bytes :=
  encoded (LimitOrderInvokeParam_Encode (mkLimitOrderParam orderType asset_name amt (str "1000"))).

Definition remove_param (amt : bytes) : bytes :=
  encoded (RemoveLiquidityInvokeParam_Encode (mkRemoveLiquidityParam OrderTypeRemoveLiquidity asset_name amt)).

(** [n] whole units. *)
Definition tokens (n : Z) : option Decimal := Some (mkDecimal 10 (n * 10 ^ 10)).

Definition item (id orderType : Z) (address param : bytes) (amt : option Decimal) (value : Z) (reason : bytes)
  : InvokeItem :=
  {| it_ID := id; it_CallID := []; it_Action := str "swap"; it_OrderType := orderType; it_Height := 7;
     it_OrderTime := id; it_AssetName := asset_name; it_ServiceFee := 0; it_GasFee := None; it_Param := param;
     it_Address := address; it_InUtxos := []; it_InValue := value; it_InAmt := amt;
     it_RetainedAssetA := if bool_decide (reason = []) then None else tokens 3; it_RetainedAssetB := None;
     it_RemainingAmt := amt; it_RemainingValue := value; it_OutTxID := []; it_OutAmt := None; it_OutValue := 0;
     it_Reason := reason; it_Done := 0; it_StatsApplied := false |}.

Definition running : AMMRunningData :=
  {| am_AssetAInPool := tokens 1000; am_AssetBInPool := Some (mkDecimal 0 100000); am_RequiredAssetA := None;
     am_RequiredAssetB := None; am_RequiredK := None; am_K := None; am_TradingReady := true; am_GasBalance := None;
     am_TotalInputAssetA := None; am_TotalInputAssetB := None; am_TotalDealAssetA := None;
     am_TotalDealAssetB := None; am_TotalDealCount := 0; am_TotalRefundAssetB := None;
     am_TotalLPTAmt := tokens 10000; am_LPBalances := {[str "alice" := tokens 10000]};
     am_LPCosts := {[str "alice" := 1000]}; am_Closed := false |}.

Definition state_of (items : list InvokeItem) : TemplateRuntimeState :=
  {| rs_NextItemID := 100; rs_InvokeCount := 0; rs_Items := items; rs_LimitOrder := None; rs_AMM := Some running;
     rs_Exchange := None; rs_Autopay := None |}.

(** A purchase, a sale whose limit is not met, an addition and a removal of
    liquidity, and an invalid item. *)
Definition block : TemplateRuntimeState := state_of [
  item 0 OrderTypeBuy (str "bob") (swap_param OrderTypeBuy (str "5")) None 1000 [];
  item 1 OrderTypeSell (str "carol") (swap_param OrderTypeSell (str "2000")) (tokens 10) 0 [];
  item 2 OrderTypeAddLiquidity (str "dave") [] (tokens 10) 2000 [];
  item 3 OrderTypeRemoveLiquidity (str "alice") (remove_param (str "100")) (tokens 100) 0 [];
  item 4 OrderTypeBuy (str "erin") [] None 0 InvokeReasonInvalid].

Ltac wf_sample :=
  repeat match goal with
  | |- wf_state _ => split
  | |- Forall _ _ => constructor
  | |- wf_item _ _ => split; [|intros _; split; intros ?]
  | |- script_ok _ => split
  | |- wf_running _ => split
  | |- wf_normal _ _ => split
  | |- wf_invalid _ => split
  | |- map_Forall _ {[_ := _]} => apply map_Forall_singleton
  | |- is_byte _ => unfold is_byte; lia
  end.

Lemma block_wf : wf_state block.
Proof.
  wf_sample; try done; try (vm_compute; repeat constructor; (discriminate || done)).
  change (am_LPBalances (AMMData block)) with ({[str "alice" := tokens 10000]} : gmap bytes (option Decimal)).
  apply map_Forall_singleton. by vm_compute.
Qed.

Lemma block_quiet : Forall quiet (rs_Items block).
Proof. repeat (apply Forall_cons; split; [right; split; by vm_compute|]). done. Qed.

(** A request to remove all shares beside a request to close. *)
Definition close_block : TemplateRuntimeState := state_of [
  item 0 OrderTypeRemoveLiquidity (str "alice") (remove_param (str "10000")) (tokens 10000) 0 [];
  item 1 OrderTypeClose (str "deployer") [] None 0 []].

(** An addition of the least amount and one satoshi to a pool with a million of the
    asset, one satoshi and a thousand shares. *)
Definition dust_block : TemplateRuntimeState :=
  rs_set_AMM (Some (am_set_TotalLPTAmt (tokens 1000) (am_set_LPBalances {[str "alice" := tokens 1000]}
    (am_set_AssetBInPool (Some (mkDecimal 0 1)) (am_set_AssetAInPool (tokens 1000000) running)))))
  (state_of [item 0 OrderTypeAddLiquidity (str "dave") [] (Some (mkDecimal 10 1)) 1 []]).

Abbreviation settle s := (settleAMM contract (str "amm") (str "deployer") None 7 s).

(** The sums of a settlement: what is paid, and what is owed afterwards. *)
Definition sums (r : result SettleError (option TemplateRuntimeState * SettlementPlan)) : option (list Z) :=
  match r with
  | Ok (Some s, plan) => Some (map (fun u => paid_out u plan) [InAsset; InSats] ++ map (fun u => owed u s) [InAsset; InSats])
  | _ => None
  end.

End Sample.

(** Witness of the solvency theorem: a block with a purchase, a sale that fails its
    limit, an addition, a removal and an invalid item. *)
Lemma settleAMM_solvent_witness :
  is_ok (Sample.settle Sample.block) = true
  /\ wp (Sample.settle Sample.block) (fun '(saved, plan) =>
       match saved with
       | Some state' => wf_state state' /\ forall u, owed u state' + paid_out u plan <= owed u Sample.block
       | None => sp_Transfers plan = []
       end).
Proof.
  split; [vm_compute; reflexivity|].
  apply (settleAMM_solvent Sample.contract (str "amm") (str "deployer") None 7 Sample.block);
    [discriminate|apply Sample.block_wf|right; apply Sample.block_quiet].
Defined.

Lemma swaps_keep_product_witness :
  wp (settle_swaps None 7 Sample.block (emptyPlan [] 7) false) (fun '(state', plan', _) =>
    pool InAsset (AMMData Sample.block) * pool InSats (AMMData Sample.block)
      <= pool InAsset (AMMData state') * pool InSats (AMMData state')
    /\ forall u, owed u state' + paid_out u plan' <= owed u Sample.block + paid_out u (emptyPlan [] 7)).
Proof.
  apply (swaps_keep_product None 7 Sample.block (emptyPlan [] 7) false);
    [discriminate|apply Sample.block_wf|intros H; by destruct H].
Defined.

(** When the deployer closes the contract while a request to remove liquidity is
    open, the amount of shares is refunded as an amount of the asset, on top of the
    share of the pool: the plan pays 11000 units where 1000 were owed. *)
Example close_refunds_shares :
  owed InAsset Sample.close_block = 1000 * 10 ^ 10
  /\ Sample.sums (Sample.settle Sample.close_block) = Some [11000 * 10 ^ 10; 100000; 0; 0].
Proof. vm_compute. done. Qed.

(** An addition too small to mint a share is closed, and neither refunded nor added
    to the pool. *)
Example dust_addition_kept :
  owed InAsset Sample.dust_block = 1000000 * 10 ^ 10 + 1 /\ owed InSats Sample.dust_block = 2
  /\ Sample.sums (Sample.settle Sample.dust_block) = Some [0; 0; 1000000 * 10 ^ 10; 1].
Proof. vm_compute. done. Qed.
