(* ===== verification/AmmOrders.v ===== *)
(** The fate of the orders of a block: when the pool trades, every open order up
    to the height of the block is finished by its settlement - swapped within its
    limit, refunded, or closed. *)
From Stdlib Require Import ZArith List Bool Lia.
From stdpp Require Import base list numbers option strings gmap.
From S2P Require Import Prelude FixedPoint TemplateState TemplateParams Settlement SettleProofs Amm AmmProofs.
Open Scope Z_scope.

Section orders.
Context `{F : FixedOps}.

(** What an order got is at least the minimum its parameter names, if it names
    one. *)
Definition limit_met (item item' : InvokeItem) : Prop :=
  exists min, limitOrderItemExpectedAmount item = Ok min
  /\ (0 < Decimal_Sign min ->
      if it_OrderType item =? OrderTypeBuy
      then exists o, it_OutAmt item' = Some o /\ 0 <= Decimal_Cmp o min
      else 0 <= Decimal_Cmp (NewDefaultDecimal (it_OutValue item')) min).

(** The payment of a swap: a buyer is paid in the asset, a seller in satoshis. *)
Definition pays (item item' : InvokeItem) (t : SettlementTransfer) : Prop :=
  st_ItemID t = it_ID item /\ st_To t = it_Address item
  /\ if it_OrderType item =? OrderTypeBuy
     then st_AssetName t = it_AssetName item /\ st_AssetAmt t = decimalString (it_OutAmt item') /\ st_SatValue t = 0
     else st_AssetAmt t = [] /\ st_SatValue t = it_OutValue item'.

Inductive fate (item item' : InvokeItem) (ts : list SettlementTransfer) : Prop :=
| FateDealt t :
    it_Done item' = ItemStatusDealt -> it_Reason item' = it_Reason item -> limit_met item item' ->
    t ∈ ts -> pays item item' t -> fate item item' ts
| FateRefunded :
    it_Done item' = ItemStatusRefunded ->
    it_Reason item' = InvokeReasonNoEnoughAsset \/ it_Reason item' = InvokeReasonSlippageProtect ->
    nothing (refundTransfer item) = true \/ refundTransfer item ∈ ts -> fate item item' ts
| FateClosed :
    it_Done item' = ItemStatusClosedDirectly -> it_Reason item' = InvokeReasonNoEnoughAsset -> fate item item' ts.

Lemma fate_more item item' ts ts' : fate item item' ts -> fate item item' (ts ++ ts').
Proof.
  intros [t ? ? ? ? ?|? ? [?|?]|? ?].
  - eapply FateDealt; try done. set_solver.
  - apply FateRefunded; auto.
  - apply FateRefunded; auto. right. apply elem_of_app; by left.
  - by apply FateClosed.
Qed.

(** The fate an outcome announces, before its transfer is added to the plan. *)
Definition announced (item : InvokeItem) (r : InvokeItem * swap_outcome) : Prop :=
  match r.2 with
  | Swapped deal t => fate item r.1 [t]
  | Rejected (Some t) => t = refundTransfer item /\ it_Done r.1 = ItemStatusRefunded
      /\ (it_Reason r.1 = InvokeReasonNoEnoughAsset \/ it_Reason r.1 = InvokeReasonSlippageProtect)
  | Rejected None => it_Done r.1 = ItemStatusClosedDirectly /\ it_Reason r.1 = InvokeReasonNoEnoughAsset
  end.

Lemma settleAMMBuy_announced resolve item A G A' k r : it_OrderType item = OrderTypeBuy ->
  settleAMMBuy resolve item A G A' k = Ok r -> announced item r.
Proof.
  intros Ht HR. unfold settleAMMBuy in HR. revert HR. case_if; [by intros [= <-]|]. intros HR. inv_bind HR. inv_bind HR.
  destruct (normalizeAMMSwapAssetOutput _ _ _ _) as [o|]; [|simplify_eq; split_and!; auto].
  revert HR. case_if; [intros [= <-]; split_and!; auto|].
  case_if; intros [= <-]; [split_and!; auto|].
  eapply FateDealt; [done|done| |by apply list_elem_of_singleton|split_and!; [done|done|by rewrite Ht]].
  exists a. split; [done|]. rewrite Ht. intros Hmin. exists o. split; [done|].
  match goal with H : _ \/ _ |- _ => destruct H; bool_to_prop; lia end.
Qed.

Lemma settleAMMSell_announced item A G G' k r : it_OrderType item = OrderTypeSell ->
  settleAMMSell item A G G' k = Ok r -> announced item r.
Proof.
  intros Ht HR. unfold settleAMMSell in HR. revert HR. case_if; [by intros [= <-]|]. intros HR. inv_bind HR.
  revert HR. case_if; [by intros [= <-]|]. intros HR. inv_bind HR. revert HR.
  case_if; [intros [= <-]; split_and!; auto|]. intros HR. inv_bind HR. revert HR.
  case_if; intros [= <-]; [split_and!; auto|].
  eapply FateDealt; [done|done| |by apply list_elem_of_singleton|split_and!; [done|done|by rewrite Ht]].
  eexists. split; [done|]. rewrite Ht. intros Hmin. simpl.
  match goal with H : _ \/ _ |- _ => destruct H; bool_to_prop; lia end.
Qed.

Abbreviation transfers s := (sp_Transfers (ss_plan s)).

(** One turn of the loop replaces the order and adds to the transfers. *)
Definition turned (s s' : swap_state) (id : nat) (item : InvokeItem) : Prop :=
  exists item' more, ss_items s' = <[id := item']> (ss_items s) /\ transfers s' = transfers s ++ more
    /\ fate item item' (transfers s').

Lemma transfers_inputs plan item : sp_Transfers (addSettlementInputs plan item) = sp_Transfers plan.
Proof. unfold addSettlementInputs. by case_if. Qed.

Lemma swap_rejected_turned s id item r t : announced item (r, Rejected t) ->
  turned s (swap_rejected s id item r t) id item.
Proof.
  intros Ha. exists r. unfold swap_rejected. cbn [ss_items ss_plan]. destruct t as [t|]; cbn [announced fst snd] in Ha.
  - destruct Ha as (-> & Hd & Hr). rewrite Hd, Z.eqb_refl. unfold appendAMMRefundTransfer. case_if.
    + exists []. rewrite app_nil_r. split_and!; [done|done|]. apply FateRefunded; auto.
    + exists [refundTransfer item]. rewrite transfers_inputs. split_and!; [done|done|].
      apply FateRefunded; [done|done|]. right. cbn. set_solver.
  - destruct Ha as [Hd Hr]. exists []. rewrite app_nil_r.
    split_and!; [done|by case_if|]. by apply FateClosed.
Qed.

Lemma swap_dealt_turned s id item r deal t A G : announced item (r, Swapped deal t) ->
  turned s (swap_dealt s id r deal t A G) id item.
Proof.
  intros Ha. exists r, [t]. unfold swap_dealt. cbn [ss_items ss_plan]. rewrite transfers_inputs.
  split_and!; [done|done|]. cbn [announced fst snd] in Ha. cbn.
  destruct Ha as [t' ? ? ? Hin ?|? ? [?|Hin]|? ?].
  - apply list_elem_of_singleton in Hin as ->. eapply FateDealt; try done. set_solver.
  - apply FateRefunded; auto.
  - apply FateRefunded; auto. right. apply list_elem_of_singleton in Hin as <-. set_solver.
  - by apply FateClosed.
Qed.

Lemma swap_item_turned resolve s s' id item : ss_items s !! id = Some item ->
  it_OrderType item = OrderTypeBuy \/ it_OrderType item = OrderTypeSell ->
  swap_item resolve s id = Ok s' -> turned s s' id item.
Proof.
  intros Hi Ht H. unfold swap_item in H. rewrite Hi in H. cbn [rbind unwrap] in H.
  destruct Ht as [Ht|Ht]; rewrite Ht in H; cbn -[settleAMMBuy settleAMMSell AddInt64] in H; inv_bind H.
  - apply settleAMMBuy_announced in Hr; [|done]. destruct a as [r [deal t|t]]; simplify_eq.
    + destruct (AddInt64 _ _) as [G' ov]. destruct ov; simplify_eq. by apply swap_dealt_turned.
    + by apply swap_rejected_turned.
  - apply settleAMMSell_announced in Hr; [|done]. destruct a as [r [deal t|t]]; simplify_eq.
    + by apply swap_dealt_turned.
    + by apply swap_rejected_turned.
Qed.

(** The orders that are left, and the fates of the others. *)
Lemma swaps_fates resolve height l s s' :
  NoDup l ->
  Forall (fun i => exists item, ss_items s !! i = Some item /\ active_swap height item = true) l ->
  rfold (swap_item resolve) s l = Ok s' ->
  (forall i item, i ∈ l -> ss_items s !! i = Some item ->
     exists item', ss_items s' !! i = Some item' /\ fate item item' (transfers s'))
  /\ (forall i, i ∉ l -> ss_items s' !! i = ss_items s !! i)
  /\ exists more, transfers s' = transfers s ++ more.
Proof.
  intros Hnd. revert s. induction Hnd as [|j l Hj Hnd IH]; intros s Hl H; cbn [rfold] in H.
  { simplify_eq. split_and!; [set_solver|done|]. exists []. by rewrite app_nil_r. }
  apply Forall_cons in Hl as [(x & Hx & Hax) Hl]. inv_bind H.
  apply (swap_item_turned _ _ _ _ x) in Hr as (x' & more & Hit & Htr & Hf); [|done|].
  2: { unfold active_swap in Hax. case_match; [done|]. case_match; bool_to_prop; [by left|].
       case_match; bool_to_prop; [by right|done]. }
  assert (Hlt : (j < length (ss_items s))%nat) by (by eapply lookup_lt_Some).
  assert (Hne : forall i, i <> j -> ss_items a !! i = ss_items s !! i)
    by (intros i Hi; rewrite Hit; by apply list_lookup_insert_ne).
  destruct (IH a) as (Hin & Hout & more' & Htr'); [|done|].
  { apply Forall_forall. intros i Hi. rewrite Forall_forall in Hl. rewrite Hne by (by intros ->). by apply Hl. }
  split_and!.
  - intros i item Hi Hitem. destruct (decide (i = j)) as [->|Hij].
    + simplify_eq. exists x'. rewrite Hout by done. rewrite Hit, list_lookup_insert_eq by done. split; [done|].
      rewrite Htr'. by apply fate_more.
    + apply Hin; [set_solver|]. by rewrite Hne.
  - intros i Hi. rewrite Hout, Hne by set_solver. done.
  - exists (more ++ more'). by rewrite Htr', Htr, app_assoc.
Qed.

(** C11: Every order is served.  When the pool trades, a successful run of the swaps
    of a block finishes every open order up to its height: the order is dealt, for
    no less than the minimum it names and with a transfer of the whole output to its
    owner in the plan; or it is refunded, with the transfer that returns its funds
    in the plan; or it is closed for want of funds in the pool.  No other item is
    touched, and transfers already in the plan stay. *)
Theorem swaps_serve_orders resolve height state plan changed state' plan' changed' :
  am_TradingReady (AMMData state) = true ->
  settle_swaps resolve height state plan changed = Ok (state', plan', changed') ->
  forall i item, rs_Items state !! i = Some item ->
    if active_swap height item
    then exists item', rs_Items state' !! i = Some item' /\ Finished item' = true
           /\ fate item item' (sp_Transfers plan')
    else rs_Items state' !! i = Some item.
Proof.
  intros Hready H i item Hi. unfold settle_swaps in H. rewrite Hready in H. cbn [negb] in H.
  inv_bind H. inv_bind H. injection H as <- <- _. cbn [rs_Items rs_set_AMM rs_set_Items].
  destruct (active_ids_ok (rs_Items state) height) as [Hnd Hl].
  eapply swaps_fates in Hr0 as (Hin & Hout & _); [|exact Hnd|exact Hl]. cbn [ss_items] in *.
  assert (Hmem : i ∈ sort_stable (item_before (rs_Items state)) (activeAMMItemIDs (rs_Items state) height)
                 <-> active_swap height item = true).
  { rewrite sort_stable_perm. unfold activeAMMItemIDs. rewrite list_elem_of_In, filter_In, Hi. simpl.
    split; [by intros [_ ?]|]. intros Ha. split; [|done]. apply in_seq. apply lookup_lt_Some in Hi. lia. }
  destruct (active_swap height item) eqn:Ha.
  - destruct (Hin i item) as (item' & Hi' & Hf); [by apply Hmem|done|]. exists item'. split_and!; [done| |done].
    unfold Finished. by destruct Hf as [? -> | -> | ->].
  - rewrite Hout; [done|]. rewrite Hmem. done.
Qed.


End orders.

(** The purchase of the sample block is dealt, its sale is refunded, and its other
    items are left for later. *)
Lemma swaps_serve_orders_witness :
  exists state' plan' changed',
    settle_swaps None 7 Sample.block (emptyPlan [] 7) false = Ok (state', plan', changed')
    /\ forall i item, rs_Items Sample.block !! i = Some item ->
         if active_swap 7 item
         then exists item', rs_Items state' !! i = Some item' /\ Finished item' = true
                /\ fate item item' (sp_Transfers plan')
         else rs_Items state' !! i = Some item.
Proof.
  destruct (settle_swaps None 7 Sample.block (emptyPlan [] 7) false) as [[[s p] c]|e|] eqn:H.
  - exists s, p, c. split; [reflexivity|].
    apply (swaps_serve_orders None 7 Sample.block (emptyPlan [] 7) false s p c); [reflexivity|exact H].
  - exfalso. apply (f_equal is_ok) in H. vm_compute in H. discriminate.
  - exfalso. apply (f_equal is_ok) in H. vm_compute in H. discriminate.
Defined.

Example sample_fates :
  match settle_swaps None 7 Sample.block (emptyPlan [] 7) false with
  | Ok (s, _, _) => map it_Done (rs_Items s)
  | _ => []
  end = [ItemStatusDealt; ItemStatusRefunded; 0; 0; 0].
Proof. vm_compute. reflexivity. Qed.
