(* ===== verification/LimitOrder.v ===== *)
(** The settlement of limit orders (contract/template/settlement.go,
    [settleLimitOrders]).

    Open orders to buy, best price first, are matched with open orders to sell,
    best price first, at the price of the sale; an order may be filled in several
    blocks.  The loop over two indexes is a recursion over what is left of the two
    sorted lists.  A deal finishes the buyer or the seller, except that at prices of
    about ten billion satoshis and more a second deal can be needed; so twice the
    number of orders is fuel enough, which the proofs show. *)
From Stdlib Require Import ZArith List Bool Lia.
From stdpp Require Import base list numbers option strings gmap.
From S2P Require Import Prelude FixedPoint TemplateState Settlement.
Open Scope Z_scope.

Section limit_orders.
Context `{F : FixedOps}.

Abbreviation zero := (parseDecimalOrZero (str "0")).

(** ** The book *)

(** [item.Finished() || item.Reason != InvokeReasonNormal || item.Height > height]
    leaves an item out. *)
Definition open_order (height : Z) (item : InvokeItem) : bool :=
  negb (Finished item || negb (bool_decide (it_Reason item = InvokeReasonNormal)) || (it_Height item >? height)).

Definition open_buy (height : Z) (item : InvokeItem) : bool :=
  open_order height item && (it_OrderType item =? OrderTypeBuy) && (it_RemainingValue item >? 0).

Definition open_sell (height : Z) (item : InvokeItem) : bool :=
  open_order height item && (it_OrderType item =? OrderTypeSell) && positive (it_RemainingAmt item).

Definition activeLimitOrderIDs (items : list InvokeItem) (height : Z) : list nat * list nat :=
  let ids p := List.filter (fun i => from_option p false (items !! i)) (seq 0 (length items)) in
  (ids (open_buy height), ids (open_sell height)).

(** The price of the order with an id. *)
Definition order_price (items : list InvokeItem) (id : nat) : result SettleError Decimal :=
  match items !! id with
  | None => Err MatchError
  | Some item => let! price := limitOrderItemPrice item in Ok (parseDecimalOrZero price)
  end.

Definition order_before (items : list InvokeItem) (buy : bool) (x y : nat * Decimal) : bool :=
  let priceCmp := Decimal_Cmp x.2 y.2 in
  if negb (priceCmp =? 0) then (if buy then priceCmp >? 0 else priceCmp <? 0)
  else match items !! x.1, items !! y.1 with
       | Some a, Some b =>
           if negb (it_Height a =? it_Height b) then it_Height a <? it_Height b
           else if negb (it_OrderTime a =? it_OrderTime b) then it_OrderTime a <? it_OrderTime b
           else it_ID a <? it_ID b
       | _, _ => false
       end.

Definition sortLimitOrders (items : list InvokeItem) (ids : list nat) (buy : bool) : result SettleError (list nat) :=
  let! priced := rfold (fun l id => let! price := order_price items id in Ok (l ++ [(id, price)])) [] ids in
  Ok (map fst (sort_stable (order_before items buy) priced)).

(** ** Matching *)

(** No more than what is missing of the amount the buyer asked for. *)
Definition cut_to_expected (buy : InvokeItem) (expected matchAmt : Decimal) : Decimal :=
  if Decimal_Sign expected >? 0 then
    let remainingExpected := DecimalSub expected (or_zero (it_OutAmt buy)) in
    let remainingExpected := if Decimal_Sign remainingExpected <? 0 then zero else remainingExpected in
    if Decimal_Cmp matchAmt remainingExpected >? 0 then remainingExpected else matchAmt
  else matchAmt.

Definition matchLimitOrderAmount (buy sell : InvokeItem) (price : Decimal) : result SettleError (Decimal * Z) :=
  if Decimal_Sign price <=? 0 then Err MatchError
  else
    let sellRemaining := or_zero (it_RemainingAmt sell) in
    if (Decimal_Sign sellRemaining <=? 0) || (it_RemainingValue buy <=? 0) then Ok (zero, 0)
    else
      match CeilInt64 (DecimalMul sellRemaining price) with
      | None => Err Int64Error
      | Some sellValue =>
          let! matchAmt :=
            if sellValue >? it_RemainingValue buy then
              match DecimalDiv (NewDecimal (it_RemainingValue buy) (Precision sellRemaining)) price with
              | None => Err MatchError
              | Some d => Ok d
              end
            else Ok sellRemaining in
          let! expected := limitOrderItemExpectedAmount buy in
          let matchAmt := cut_to_expected buy expected matchAmt in
          if Decimal_Sign matchAmt <=? 0 then Ok (zero, 0)
          else
            match CeilInt64 (DecimalMul price matchAmt) with
            | None => Err Int64Error
            | Some matchValue => Ok (matchAmt, if matchValue =? 0 then 1 else matchValue)
            end
      end.

Definition limitOrderBuyFinished (buy : InvokeItem) (price : bytes) : result SettleError bool :=
  if it_RemainingValue buy =? 0 then Ok true
  else
    let! expected := limitOrderItemExpectedAmount buy in
    if (Decimal_Sign expected >? 0) && (0 <=? Decimal_Cmp (or_zero (it_OutAmt buy)) expected) then Ok true
    else
      let unitPrice := parseDecimalOrZero price in
      if Decimal_Sign unitPrice <=? 0 then Ok true
      else match DecimalDiv (NewDecimal (it_RemainingValue buy) MaxPriceDivisibility) unitPrice with
           | None => Ok true
           | Some nextAmt => Ok (Decimal_Sign nextAmt =? 0)
           end.

Definition limitOrderSellFinished (sell : InvokeItem) : result SettleError bool :=
  let remaining := or_zero (it_RemainingAmt sell) in
  if Decimal_Sign remaining =? 0 then Ok true
  else
    let! price := limitOrderItemPrice sell in
    let unitPrice := parseDecimalOrZero price in
    if Decimal_Sign unitPrice <=? 0 then Ok true
    else match FloorInt64 (DecimalMul remaining unitPrice) with
         | None => Err Int64Error
         | Some value => Ok (value =? 0)
         end.

(** The buyer and the seller of a deal are different items. *)
Definition applyLimitOrderDeal (buy sell : InvokeItem) (matchAmt : Decimal) (matchValue : Z) (sellPrice : bytes)
  : result SettleError (InvokeItem * InvokeItem) :=
  let remaining := int64 (it_RemainingValue buy - matchValue) in
  let buy := set_OutAmt (Some (DecimalAdd (or_zero (it_OutAmt buy)) matchAmt))
               (set_RemainingValue (if remaining <? 0 then 0 else remaining) buy) in
  let sell := set_RemainingAmt (Some (DecimalSub (or_zero (it_RemainingAmt sell)) matchAmt)) sell in
  let '(outValue, overflow) := AddInt64 (it_OutValue sell) matchValue in
  if (overflow : bool) then Err AmountOverflow
  else
    let sell := set_OutValue outValue sell in
    let! buyFinished := limitOrderBuyFinished buy sellPrice in
    let! buy :=
      if (buyFinished : bool) then
        let '(outValue, overflow) := AddInt64 (it_OutValue buy) (it_RemainingValue buy) in
        if (overflow : bool) then Err AmountOverflow
        else Ok (set_Done ItemStatusDealt (set_RemainingValue 0 (set_OutValue outValue buy)))
      else Ok buy in
    let! sellFinished := limitOrderSellFinished sell in
    let sell := if (sellFinished : bool)
                then set_Done ItemStatusDealt (set_RemainingAmt None (set_OutAmt (it_RemainingAmt sell) sell))
                else sell in
    Ok (buy, sell).

Definition settlementAssetOutputNonZero (resolve : option (bytes -> option Z)) (assetName : bytes) (amount : Decimal)
  : bool :=
  if Decimal_Sign amount <=? 0 then false else Decimal_Sign (Normalize resolve assetName amount) >? 0.

(** ** The plan *)

Definition addLimitOrderDealTransfers (plan : SettlementPlan) (buy sell : InvokeItem) (assetAmt : bytes) (satValue : Z)
  : SettlementPlan :=
  let plan := add_item_id (it_ID sell) (add_item_id (it_ID buy) plan) in
  let plan := if bool_decide (assetAmt = []) then plan
              else add_transfers [mkTransfer (it_ID buy) (it_Address buy) (it_AssetName buy) assetAmt 0
                     SettlementReasonDeal false] plan in
  if satValue =? 0 then plan
  else add_transfers [mkTransfer (it_ID sell) (it_Address sell) [] [] satValue SettlementReasonDeal false] plan.

Definition addLimitOrderBuyRemainderTransfer (plan : SettlementPlan) (item : InvokeItem) : SettlementPlan :=
  if it_OutValue item =? 0 then plan
  else add_transfers [mkTransfer (it_ID item) (it_Address item) [] [] (it_OutValue item) SettlementReasonDeal false]
         (add_item_id (it_ID item) plan).

Definition refund_excess (s : list InvokeItem * SettlementPlan * bool) (i : nat)
  : result SettleError (list InvokeItem * SettlementPlan * bool) :=
  let '(items, plan, changed) := s in
  let! item := unwrap (items !! i) in
  if Finished item || negb (bool_decide (it_Reason item = InvokeReasonNormal))
     || negb (it_OrderType item =? OrderTypeBuy) || (it_OutValue item <=? 0)
  then Ok (items, plan, changed)
  else Ok (<[i := set_OutValue 0 item]> items,
           add_transfers [mkTransfer (it_ID item) (it_Address item) [] [] (it_OutValue item) SettlementReasonRefund false]
             (add_item_id (it_ID item) plan), true).

Definition refundOpenLimitOrderBuyExcess (items : list InvokeItem) (plan : SettlementPlan)
  : result SettleError (list InvokeItem * SettlementPlan * bool) :=
  rfold refund_excess (items, plan, false) (seq 0 (length items)).

(** ** The loop *)

(** A seller whose match is nothing at the precision of the asset is refunded. *)
Definition sell_refunded (plan : SettlementPlan) (sell : InvokeItem) : InvokeItem * SettlementPlan :=
  let '(sell, transfer) := markItemRefunded (set_Reason InvokeReasonNoEnoughAsset sell) in
  let plan := if nothing transfer then plan else add_transfers [transfer] plan in
  (sell, add_item_id (it_ID sell) (addSettlementInputs plan sell)).

Definition deal_plan (plan : SettlementPlan) (buy sell : InvokeItem) (matchAmt : Decimal) (matchValue : Z)
  (sellPrice : bytes) : SettlementPlan :=
  let plan := add_deal (mkDeal (it_ID buy) (it_ID sell) (Decimal_String matchAmt) matchValue sellPrice) plan in
  let plan := addSettlementInputs (addSettlementInputs plan buy) sell in
  let plan := addLimitOrderDealTransfers plan buy sell (Decimal_String matchAmt) matchValue in
  let plan := if Finished sell && positive (it_OutAmt sell)
              then add_transfers [mkTransfer (it_ID sell) (it_Address sell) (it_AssetName sell)
                     (from_option Decimal_String [] (it_OutAmt sell)) 0 SettlementReasonRefund false] plan
              else plan in
  if Finished buy then addLimitOrderBuyRemainderTransfer plan buy else plan.

Fixpoint match_loop (resolve : option (bytes -> option Z)) (fuel : nat) (buyIDs sellIDs : list nat)
  (s : list InvokeItem * SettlementPlan * bool) : result SettleError (list InvokeItem * SettlementPlan * bool) :=
  match fuel, buyIDs, sellIDs with
  | _, [], _ | _, _, [] => Ok s
  | O, _, _ => Panic
  | S fuel, i :: buys, j :: sells =>
      let '(items, plan, changed) := s in
      let! buy := unwrap (items !! i) in
      let! sell := unwrap (items !! j) in
      let! buyPriceString := limitOrderItemPrice buy in
      let! sellPriceString := limitOrderItemPrice sell in
      let buyPrice := parseDecimalOrZero buyPriceString in
      let sellPrice := parseDecimalOrZero sellPriceString in
      if Decimal_Cmp buyPrice sellPrice <? 0 then Ok s
      else
        let! '(matchAmt, matchValue) := matchLimitOrderAmount buy sell sellPrice in
        if (Decimal_Sign matchAmt =? 0) || (matchValue =? 0) then Ok s
        else if negb (settlementAssetOutputNonZero resolve (it_AssetName sell) matchAmt) then
          let '(sell, plan) := sell_refunded plan sell in
          match_loop resolve fuel (i :: buys) sells (<[j := sell]> items, plan, true)
        else
          let! '(buy, sell) := applyLimitOrderDeal buy sell matchAmt matchValue sellPriceString in
          match_loop resolve fuel (if Finished buy then buys else i :: buys) (if Finished sell then sells else j :: sells)
            (<[j := sell]> (<[i := buy]> items), deal_plan plan buy sell matchAmt matchValue sellPriceString, changed)
  end.

(** ** Settlement *)

(** [recomputeActivePools] of limit orders: what the open orders offer. *)
Definition recomputeActivePools (items : list InvokeItem) (r : LimitOrderRunningData) : LimitOrderRunningData :=
  fold_left (fun r item =>
    if Finished item || negb (bool_decide (it_Reason item = InvokeReasonNormal)) then r
    else if it_OrderType item =? OrderTypeBuy then
      if it_RemainingValue item >? 0
      then lo_set_AssetBInPool (decimalAddAllowNil (lo_AssetBInPool r)
             (Some (NewDefaultDecimal (it_RemainingValue item)))) r
      else r
    else if it_OrderType item =? OrderTypeSell then
      if positive (it_RemainingAmt item)
      then lo_set_AssetAInPool (decimalAddAllowNil (lo_AssetAInPool r) (it_RemainingAmt item)) r
      else r
    else r) items (lo_set_AssetBInPool None (lo_set_AssetAInPool None r)).

(** The state that is saved, if it is, and the plan. *)
Definition settleLimitOrders (contract : LimitOrderContract) (address deployer : bytes)
  (resolve : option (bytes -> option Z)) (height : Z) (state : TemplateRuntimeState)
  : result SettleError (option TemplateRuntimeState * SettlementPlan) :=
  let c := ALimitOrder contract in
  let plan := emptyPlan address height in
  let! '(state, plan, changed) := applyInvalidItems c state plan height in
  let! '(state, plan) := applyRefunds state plan height in
  let! '(state, plan, closed) := applyCloseItems c state plan height deployer in
  if (closed : bool) then Ok (Some (applyFinishedItemStats c state), plan)
  else
    let '(buyIDs, sellIDs) := activeLimitOrderIDs (rs_Items state) height in
    let! buyIDs := sortLimitOrders (rs_Items state) buyIDs true in
    let! sellIDs := sortLimitOrders (rs_Items state) sellIDs false in
    let! '(items, plan, changed) :=
      match_loop resolve (2 * (length buyIDs + length sellIDs)) buyIDs sellIDs (rs_Items state, plan, changed) in
    let! '(items, plan, excess) := refundOpenLimitOrderBuyExcess items plan in
    let changed := changed || excess in
    if negb changed && negb (SettlementPlanHasChanges plan) then Ok (None, plan)
    else
      let state := rs_set_Items items state in
      let state := rs_set_LimitOrder (Some (recomputeActivePools items (LimitOrderData state))) state in
      Ok (Some (applyFinishedItemStats c state), plan).

End limit_orders.
