(* ===== verification/LimitProofs.v ===== *)
(** Limit orders: the matching of orders ends, pays no more than the orders offer,
    and trades within the limits of both sides. *)
From Stdlib Require Import ZArith List Bool Lia.
From stdpp Require Import base list numbers option strings gmap.
From S2P Require Import Prelude FixedPoint TemplateState TemplateParams Settlement SettleProofs AmmProofs LimitOrder.
Open Scope Z_scope.

(** ** Values *)

(** Units of [10 ^ -10] in one. *)
Abbreviation U := (10 ^ 10).

(** The satoshis for [m] units at a price of [v] units: the product is cut off after
    ten places and rounded up. *)
Definition deal_value (m v : Z) : Z := - (- (m * v / U) / U).

Lemma deal_value_mono m n v : 0 <= v -> m <= n -> deal_value m v <= deal_value n v.
Proof.
  intros Hv Hm. unfold deal_value. apply Z.opp_le_mono. rewrite !Z.opp_involutive.
  apply Z.div_le_mono; [lia|]. apply -> Z.opp_le_mono. apply Z.div_le_mono; [lia|]. nia.
Qed.

Lemma deal_value_comm m v : deal_value m v = deal_value v m.
Proof. unfold deal_value. by rewrite Z.mul_comm. Qed.

Lemma deal_value_bounds m v : 0 < m * v ->
  0 <= deal_value m v /\ (deal_value m v - 1) * U * U < m * v < deal_value m v * U * U + U.
Proof.
  intros H. unfold deal_value. set (x := m * v / U).
  assert (0 <= x) by (apply Z.div_pos; lia).
  pose proof (Z.div_mod (m * v) U ltac:(lia)). pose proof (Z.mod_pos_bound (m * v) U ltac:(lia)).
  pose proof (Z.div_mod (- x) U ltac:(lia)). pose proof (Z.mod_pos_bound (- x) U ltac:(lia)). fold x in H1.
  lia.
Qed.

(** What a buyer with [R] satoshis can take is worth at most [R]. *)
Lemma affordable R m v : m * v <= R * U * U -> deal_value m v <= R.
Proof.
  intros H. unfold deal_value.
  pose proof (Z.div_mod (m * v) U ltac:(lia)). pose proof (Z.mod_pos_bound (m * v) U ltac:(lia)).
  set (x := m * v / U) in *.
  pose proof (Z.div_mod (- x) U ltac:(lia)). pose proof (Z.mod_pos_bound (- x) U ltac:(lia)). lia.
Qed.

(** What is left after taking all that [R] satoshis can buy does not buy more than
    one unit; and if it buys one, that unit takes all of it. *)
Lemma remainder_small R v : 0 < v -> 0 <= R -> let q := R * U * U / v in
  (R - deal_value q v) * U * U < v + U.
Proof.
  intros Hv HR q. pose proof (Z.div_mod (R * U * U) v ltac:(lia)). pose proof (Z.mod_pos_bound (R * U * U) v Hv).
  fold q in H. assert (0 <= q) by (apply Z.div_pos; lia). clearbody q. destruct (Z.eq_dec q 0) as [-> | Hne].
  - change (deal_value 0 v) with 0. lia.
  - destruct (deal_value_bounds q v) as (_ & _ & ?); [nia|]. lia.
Qed.

Lemma last_unit R v : 0 < v <= R * U * U -> R * U * U < v + U -> R * U * U / v = 1 /\ deal_value 1 v = R.
Proof.
  intros [Hv Hl] Hu. assert (1 <= R) by lia. split.
  - symmetry. apply (Z.div_unique _ _ _ (R * U * U - v)); lia.
  - unfold deal_value. rewrite Z.mul_1_l.
    pose proof (Z.div_mod v U ltac:(lia)). pose proof (Z.mod_pos_bound v U ltac:(lia)).
    set (x := v / U) in *.
    pose proof (Z.div_mod (- x) U ltac:(lia)). pose proof (Z.mod_pos_bound (- x) U ltac:(lia)). lia.
Qed.

Section limit_orders.
Context `{F : FixedOps} {L : FixedLaws F}.

(** ** One match *)

(** An open order of a type. *)
Record open_item (t : Z) (i : InvokeItem) : Prop := mkOpenItem {
  op_open : Finished i = false;
  op_reason : it_Reason i = InvokeReasonNormal;
  op_type : it_OrderType i = t;
  op_wf : wf_item false i;
}.

Lemma open_normal t i : open_item t i -> wf_normal false i.
Proof. intros [? ? _ ?]. by apply wf_item_normal. Qed.

(** The value of a price that the code reads. *)
Abbreviation price_units s := (Value (parseDecimalOrZero s)).

(** The buyer has all that was asked for once [m] more units are bought. *)
Definition reaches (buy : InvokeItem) (m : Z) : Prop :=
  exists e, limitOrderItemExpectedAmount buy = Ok e /\ Precision e = MaxPriceDivisibility
    /\ 0 < Value e /\ Value e = amount (it_OutAmt buy) + m.

(** A match of [m] at a price of [v]: the seller has it, the buyer can pay it, and
    it is all of what one of the two has left, or all that was asked for. *)
Record matched (buy sell : InvokeItem) (v : Z) (m : Decimal) (value : Z) : Prop := mkMatched {
  mt_price : 0 < v;
  mt_finest : finest m;
  mt_positive : 0 < Value m;
  mt_sell : Value m <= amount (it_RemainingAmt sell);
  mt_buy : value <= it_RemainingValue buy;
  mt_value : value = Z.max 1 (deal_value (Value m) v);
  mt_all : amount (it_RemainingAmt sell) = Value m \/ reaches buy (Value m)
    \/ Value m = it_RemainingValue buy * U * U / v;
}.

Lemma ceil_mul a b : finest a -> finest b ->
  CeilInt64 (DecimalMul a b) = int64_or_error (deal_value (Value a) (Value b)).
Proof.
  intros [Ha ?] [Hb ?]. rewrite mul_same by (unfold MaxPriceDivisibility in *; lia || congruence).
  rewrite ceil_value; simpl; rewrite Ha; done.
Qed.

(** The quotient that the code computes for the buyer. *)
Lemma buyable R p : 0 <= R -> Precision p = MaxPriceDivisibility -> 0 < Value p ->
  DecimalDiv (NewDecimal R MaxPriceDivisibility) p = Some (mkDecimal MaxPriceDivisibility (R * U * U / Value p)).
Proof.
  intros HR Hp Hv. rewrite new_decimal by done. rewrite div_same; simpl; unfold MaxPriceDivisibility in *; done || lia.
Qed.

(** The amount before the buyer's own limit. *)
Definition offer (buy sell : InvokeItem) (v m : Z) : Prop :=
  m <= amount (it_RemainingAmt sell)
  /\ (forall n, 0 < n <= m -> deal_value n v <= it_RemainingValue buy)
  /\ (amount (it_RemainingAmt sell) = m \/ m = it_RemainingValue buy * U * U / v).

Lemma offer_sell buy sell v : 0 < v -> deal_value (amount (it_RemainingAmt sell)) v <= it_RemainingValue buy ->
  offer buy sell v (amount (it_RemainingAmt sell)).
Proof.
  intros Hv Hle. split_and!; [done| |by left]. intros n Hn. etrans; [|exact Hle]. apply deal_value_mono; lia.
Qed.

Lemma offer_buy buy sell v : 0 < v -> 0 <= it_RemainingValue buy ->
  it_RemainingValue buy < deal_value (amount (it_RemainingAmt sell)) v ->
  offer buy sell v (it_RemainingValue buy * U * U / v).
Proof.
  intros Hv HR Hlt. set (R := it_RemainingValue buy) in *. set (q := R * U * U / v).
  assert (Hq : q * v <= R * U * U) by (pose proof (Z.mul_div_le (R * U * U) v Hv); unfold q; lia).
  split_and!; [|intros n Hn; apply affordable; nia|by right].
  destruct (Z.le_gt_cases q (amount (it_RemainingAmt sell))) as [?|Hgt]; [done|].
  pose proof (affordable R q v Hq). pose proof (deal_value_mono (amount (it_RemainingAmt sell)) q v). lia.
Qed.

Lemma cut_spec buy e s d : if_set finest (it_OutAmt buy) -> limitOrderItemExpectedAmount buy = Ok e ->
  e = parseDecimalOrZero s -> finest d ->
  let r := cut_to_expected buy e d in
  finest r /\ Value r <= Value d /\ (Value r = Value d \/ Value r = 0 \/ reaches buy (Value r)).
Proof.
  intros Ho He -> Hd. destruct (or_zero_finest _ Ho) as [Hb Hvb]. pose proof Hd as [Hdp Hd0]. pose proof Hb as [Hbp Hb0].
  pose proof (parse_places s) as Hp. unfold cut_to_expected. rewrite !sign_value.
  set (e := parseDecimalOrZero s) in *. set (b := or_zero (it_OutAmt buy)) in *.
  case_if; [|split_and!; [done|lia|by left]].
  assert (Hs : DecimalSub e b = mkDecimal MaxPriceDivisibility (Value e - Value b)).
  { rewrite sub_exact, Hp, Hbp, Z.sub_diag, Z.pow_0_r, Z.mul_1_r by (rewrite Hp, Hbp; done). done. }
  rewrite Hs, parse_zero. simpl Value. cbv zeta.
  set (r := if Z.sgn (Value e - Value b) <? 0 then _ else _).
  assert (Hr : finest r /\ (Value r = 0 \/ 0 < Value r /\ Value r = Value e - Value b)).
  { subst r. unfold finest. case_if; simpl; split; [split; done || lia|by left|split; done || lia|]. lia. }
  destruct Hr as [Hrf Hr]. rewrite cmp_same by (destruct Hrf; rewrite ?Hdp; done || congruence).
  case_if; [|split_and!; [done|lia|by left]]. split_and!; [done|lia|].
  right. destruct Hr as [?|[? Hr]]; [by left|right]. exists e. split_and!; [done|done|lia|lia].
Qed.

Lemma matchLimitOrderAmount_spec buy sell price s : price = parseDecimalOrZero s ->
  open_item OrderTypeBuy buy -> open_item OrderTypeSell sell ->
  wp (matchLimitOrderAmount buy sell price) (fun '(m, value) =>
    Value m = 0 \/ matched buy sell (Value price) m value).
Proof.
  intros Hprice Hbuy Hsell. pose proof (parse_places s) as Hpp. rewrite <- Hprice in Hpp.
  destruct (open_normal _ _ Hbuy) as [_ Ho _ HR _ _], (open_normal _ _ Hsell) as [Ha _ _ _ _ _].
  destruct (or_zero_finest _ Ha) as [Hx Hvx]. unfold matchLimitOrderAmount. rewrite sign_value.
  case_if; [done|]. rewrite !sign_value. set (z := parseDecimalOrZero (str "0")).
  assert (Hz : Value z = 0) by (unfold z; by rewrite parse_zero).
  set (x := or_zero (it_RemainingAmt sell)) in *. assert (Hv : 0 < Value price) by lia.
  case_if; [by left|]. rewrite ceil_mul by (done || split; lia). rewrite Hvx.
  unfold int64_or_error at 1. case_if; [|done].
  eapply (wp_bind _ _ (fun d => finest d /\ offer buy sell (Value price) (Value d))).
  { case_if.
    - destruct Hx as [-> _]. rewrite buyable by (done || lia). split; simpl; [|by apply offer_buy; lia].
      split; [done|]. apply Z.div_pos; simpl; lia.
    - split; [done|]. rewrite Hvx. apply offer_sell; lia. }
  intros d (Hd & Hle & Hpay & Hall).
  destruct (limitOrderItemExpectedAmount buy) as [e| |] eqn:He; [|done|].
  2:{ pose proof (limitOrderItemExpectedAmount_wp buy (proj1 (op_wf _ _ Hbuy))) as Hw. by rewrite He in Hw. }
  pose proof (limitOrderItemExpectedAmount_wp buy (proj1 (op_wf _ _ Hbuy))) as Hw. rewrite He in Hw.
  destruct Hw as [t Ht]. cbn [rbind].
  destruct (cut_spec buy e t d Ho He Ht Hd) as (Hr & Hrd & Hcut). set (r := cut_to_expected buy e d) in *.
  rewrite sign_value. case_if; [by left|]. rewrite ceil_mul, deal_value_comm by (done || split; lia).
  unfold int64_or_error. case_if; [|done]. right.
  destruct (deal_value_bounds (Value r) (Value price)) as [Hdv _]; [apply Z.mul_pos_pos; lia|]. specialize (Hpay (Value r)).
  split; [lia|done|lia|lia|case_if; lia|case_if; lia|].
  destruct Hcut as [Hc|[?|?]]; [|lia|by right; left]. rewrite Hc. destruct Hall as [?|?]; auto.
Qed.
(** ** One deal *)

(** An order whose left satoshis buy exactly one more unit, and all of them go. *)
Definition pending (buy : InvokeItem) (v : Z) : Prop :=
  v <= it_RemainingValue buy * U * U < v + U.

Lemma limitOrderBuyFinished_spec buy s : wf_normal false buy -> script_ok (it_Param buy) -> 0 < price_units s ->
  wp (limitOrderBuyFinished buy s) (fun finished => finished = false ->
    ~ reaches buy 0 /\ price_units s <= it_RemainingValue buy * U * U).
Proof.
  intros [_ Ho _ HR _ _] Hs Hv. unfold limitOrderBuyFinished. case_if; [done|].
  pose proof (limitOrderItemExpectedAmount_wp buy Hs) as Hw.
  destruct (limitOrderItemExpectedAmount buy) as [e| |] eqn:He; [|done|done]. cbn [rbind].
  destruct (or_zero_finest _ Ho) as [[Hbp Hb] Hvb]. rewrite sign_value. case_if; [done|].
  rewrite sign_value. z_test. rewrite buyable by (done || apply parse_places || lia). rewrite sign_value. simpl.
  intros Hne. split.
  - intros (e' & He' & Hp & Hpos & Hreach). rewrite He in He'. injection He' as <-.
    rewrite cmp_same in Heqb0 by (rewrite Hbp, ?Hp; done). bool_to_prop. lia.
  - destruct (Z.le_gt_cases (price_units s) (it_RemainingValue buy * U * U)) as [?|Hlt]; [done|].
    rewrite Z.div_small in Hne by lia. done.
Qed.

Lemma limitOrderSellFinished_spec sell : if_set finest (it_RemainingAmt sell) -> script_ok (it_Param sell) ->
  wp (limitOrderSellFinished sell) (fun finished => finished = false -> amount (it_RemainingAmt sell) <> 0).
Proof.
  intros Ha Hs. unfold limitOrderSellFinished. destruct (or_zero_finest _ Ha) as [_ Hv].
  rewrite sign_value, Hv. case_if; [done|].
  eapply wp_bind; [by apply limitOrderItemPrice_wp|]. intros price _. cbv beta zeta.
  case_if; [done|]. destruct (FloorInt64 _); simpl; lia.
Qed.

Lemma read_string d : finest d -> price_units (Decimal_String d) = Value d.
Proof.
  intros [Hp Hd]. unfold parseDecimalOrZero. rewrite bool_decide_false by apply string_nonempty.
  rewrite string_read by (rewrite ?Hp; done). simpl. by rewrite Hp, Z.sub_diag, Z.pow_0_r, Z.mul_1_r.
Qed.

(** The payments of a deal. *)
Lemma deal_plan_paid u plan buy sell m value price : finest m -> if_set finest (it_OutAmt sell) ->
  paid_out u (deal_plan plan buy sell m value price)
  = paid_out u plan + match u with
      | InAsset => Value m + (if Finished sell then amount (it_OutAmt sell) else 0)
      | InSats => value + (if Finished buy then it_OutValue buy else 0)
      end.
Proof.
  intros Hm Ho. unfold deal_plan, addLimitOrderDealTransfers, addLimitOrderBuyRemainderTransfer.
  rewrite bool_decide_false by apply string_nonempty.
  assert (Hout : positive (it_OutAmt sell) = false -> amount (it_OutAmt sell) = 0).
  { destruct (it_OutAmt sell) as [d|]; [|done]. simpl. intros Hn. rewrite sign_value in Hn. destruct Ho as [Hp ?].
    rewrite finest_units by done. bool_to_prop. lia. }
  assert (Hpos : positive (it_OutAmt sell) = true ->
    Value (parseDecimalOrZero (from_option Decimal_String [] (it_OutAmt sell))) = amount (it_OutAmt sell)).
  { destruct (it_OutAmt sell) as [d|]; [|done]. intros _. simpl. rewrite read_string by done. by rewrite finest_units. }
  destruct (Finished buy), (Finished sell), (positive (it_OutAmt sell)); cbn [andb];
    repeat case_if; rewrite ?paid_add_transfer, ?paid_add_item_id, ?paid_add_transfer, ?paid_add_item_id,
      ?paid_add_transfer, ?paid_add_item_id, ?paid_add_transfer, ?paid_add_item_id, ?paid_inputs, ?paid_add_deal;
    destruct u; cbn [paid st_AssetAmt st_SatValue]; rewrite ?parse_empty, ?read_string, ?Hpos, ?Hout by done; cbn [Value]; lia.
Qed.

(** What of an order a deal does not touch. *)
Definition same_order (i j : InvokeItem) : Prop :=
  it_ID j = it_ID i /\ it_Param j = it_Param i /\ it_Action j = it_Action i /\ it_AssetName j = it_AssetName i
  /\ it_OrderType j = it_OrderType i /\ it_Reason j = it_Reason i.

Lemma same_price i j : same_order i j -> limitOrderItemPrice j = limitOrderItemPrice i.
Proof.
  intros (_ & Hp & Ha & Hn & Ht & Hr). unfold limitOrderItemPrice, decodeLimitOrderItemParam, validateInvokeItemOrderType.
  by rewrite Hp, Ha, Hn, Ht, Hr.
Qed.

Lemma claim_open_buy i : open_item OrderTypeBuy i ->
  claim InAsset i = 0 /\ claim InSats i = it_OutValue i + it_RemainingValue i.
Proof. intros [Hf Hr Ht _]. unfold claim. by rewrite Hf, Hr, Ht. Qed.

Lemma claim_open_sell i : open_item OrderTypeSell i ->
  claim InAsset i = amount (it_RemainingAmt i) /\ claim InSats i = 0.
Proof. intros [Hf Hr Ht _]. unfold claim. by rewrite Hf, Hr, Ht. Qed.

(** Buyer and seller before it is seen whether they are finished. *)
Definition buyer_paid (buy : InvokeItem) (m : Decimal) (value : Z) : InvokeItem :=
  set_OutAmt (Some (DecimalAdd (or_zero (it_OutAmt buy)) m))
    (set_RemainingValue (it_RemainingValue buy - value) buy).

Definition seller_sold (sell : InvokeItem) (m : Decimal) (out : Z) : InvokeItem :=
  set_OutValue out (set_RemainingAmt (Some (DecimalSub (or_zero (it_RemainingAmt sell)) m)) sell).

Lemma buyer_paid_open buy m value : open_item OrderTypeBuy buy -> finest m -> 0 <= value <= it_RemainingValue buy ->
  open_item OrderTypeBuy (buyer_paid buy m value)
  /\ amount (it_OutAmt (buyer_paid buy m value)) = amount (it_OutAmt buy) + Value m.
Proof.
  intros Hb Hm Hv. destruct (open_normal _ _ Hb) as [Ha Ho Hov HR Hsum _]. destruct Hb as [Hf Hr Ht [Hs _]].
  destruct (or_zero_finest _ Ho) as [Hz Hvz]. destruct (add_finest _ m Hz (finest_fine _ Hm)) as [Hadd Hva].
  rewrite Ht in Hsum. specialize (Hsum ltac:(done)). split.
  - split; [done|done|done|]. split; [done|]. intros _. split; [|by intros Hi; change (it_Reason buy = InvokeReasonInvalid) in Hi; rewrite Hr in Hi].
    intros _. split; simpl; try done; lia.
  - simpl. rewrite finest_units, Hva, finest_units by done. lia.
Qed.

Lemma seller_sold_open sell m out : open_item OrderTypeSell sell -> finest m -> Value m <= amount (it_RemainingAmt sell) ->
  0 <= out < 2 ^ 63 -> open_item OrderTypeSell (seller_sold sell m out)
  /\ amount (it_RemainingAmt (seller_sold sell m out)) = amount (it_RemainingAmt sell) - Value m.
Proof.
  intros Hb Hm Hv Hout. destruct (open_normal _ _ Hb) as [Ha Ho Hov HR Hsum _]. destruct Hb as [Hf Hr Ht [Hs _]].
  destruct (or_zero_finest _ Ha) as [Hz Hvz]. destruct (sub_finest _ m Hz Hm) as [Hsub Hvs]; [lia|]. split.
  - split; [done|done|done|]. split; [done|]. intros _. split; [|by intros Hi; change (it_Reason sell = InvokeReasonInvalid) in Hi; rewrite Hr in Hi].
    intros _. split; simpl; try done.
  - simpl. rewrite finest_units, Hvs by done. lia.
Qed.

(** Buyer and seller after a deal: the accounts balance, and one of them is
    finished, or the next deal finishes one. *)
Record dealt (buy sell : InvokeItem) (v : Z) (m : Decimal) (value : Z) (b s : InvokeItem) : Prop := mkDealt {
  dl_same_buy : same_order buy b;
  dl_same_sell : same_order sell s;
  dl_wf_buy : wf_item false b;
  dl_wf_sell : wf_item false s;
  dl_out : if_set finest (it_OutAmt s);
  dl_asset : claim InAsset b + claim InAsset s + Value m + (if Finished s then amount (it_OutAmt s) else 0)
    = claim InAsset buy + claim InAsset sell;
  dl_sats : claim InSats b + claim InSats s + value + (if Finished b then it_OutValue b else 0)
    = claim InSats buy + claim InSats sell;
  dl_progress : Finished b = true \/ Finished s = true \/ (pending b v /\ ~ pending buy v);
}.

(** An open buyer and an open seller after a match. *)
Lemma match_progress buy sell v m value : matched buy sell v m value ->
  amount (it_RemainingAmt sell) <> Value m -> ~ reaches buy (Value m) ->
  v <= (it_RemainingValue buy - value) * U * U ->
  (it_RemainingValue buy - value) * U * U < v + U /\ ~ pending buy v.
Proof.
  intros [Hv Hm Hpos _ Hle Hval [?|[?|Hq]]] Hs Hr Hleft; [done|done|]. rewrite Hq in Hval.
  pose proof (remainder_small (it_RemainingValue buy) v Hv) as Hrem. cbv zeta in Hrem. split.
  - destruct (deal_value_bounds (Value m) v) as [Hd0 _]; [nia|]. rewrite Hq in Hd0. lia.
  - intros [Hp1 Hp2]. destruct (last_unit (it_RemainingValue buy) v) as [H1 H2]; [lia|done|].
    rewrite H1 in Hval. lia.
Qed.

(** Buyer and seller that are finished. *)
Lemma wf_buyer_finished b : open_item OrderTypeBuy b ->
  wf_item false (set_Done ItemStatusDealt (set_RemainingValue 0 (set_OutValue (it_OutValue b + it_RemainingValue b) b))).
Proof. intros Hb. apply wf_finished; [done|apply Hb]. Qed.

Lemma wf_seller_finished s : open_item OrderTypeSell s ->
  wf_item false (set_Done ItemStatusDealt (set_RemainingAmt None (set_OutAmt (it_RemainingAmt s) s))).
Proof. intros Hs. apply wf_finished; [done|apply Hs]. Qed.

(** The buyer of a deal. *)
Definition buyer_after (buy : InvokeItem) (m : Decimal) (value v : Z) (b : InvokeItem) : Prop :=
  same_order buy b /\ wf_item false b /\ claim InAsset b = 0
  /\ claim InSats b + (if Finished b then it_OutValue b else 0) = claim InSats buy - value
  /\ (Finished b = true
      \/ it_RemainingValue b = it_RemainingValue buy - value /\ ~ reaches buy (Value m)
         /\ v <= (it_RemainingValue buy - value) * U * U).

Lemma buyer_after_spec buy m value price : open_item OrderTypeBuy buy -> finest m ->
  0 <= value <= it_RemainingValue buy -> 0 < price_units price ->
  wp (let! finished := limitOrderBuyFinished (buyer_paid buy m value) price in
      if (finished : bool) then
        let '(out, overflow) := AddInt64 (it_OutValue buy) (it_RemainingValue buy - value) in
        if (overflow : bool) then Err AmountOverflow
        else Ok (set_Done ItemStatusDealt (set_RemainingValue 0 (set_OutValue out (buyer_paid buy m value))))
      else Ok (buyer_paid buy m value)) (buyer_after buy m value (price_units price)).
Proof.
  intros Hb Hf Hval Hv. destruct (buyer_paid_open buy m value Hb Hf Hval) as [Hb0 Hbo0].
  destruct (open_normal _ _ Hb) as [_ _ Hbo _ _ _], (claim_open_buy _ Hb) as [Hca Hcs], (claim_open_buy _ Hb0) as [Ha0 Hs0].
  assert (Hreach : reaches buy (Value m) -> reaches (buyer_paid buy m value) 0).
  { intros (e & He & Hp & H0 & H1). exists e. split_and!; [done|done|done|lia]. }
  change (it_OutValue (buyer_paid buy m value)) with (it_OutValue buy) in Hs0.
  change (it_RemainingValue (buyer_paid buy m value)) with (it_RemainingValue buy - value) in Hs0.
  eapply wp_bind; [apply limitOrderBuyFinished_spec; [by apply open_normal in Hb0|apply Hb|done]|].
  intros [] Hfin; cbv beta iota.
  - destruct (AddInt64 _ _) as [out ov] eqn:Hadd. destruct ov; [done|].
    apply AddInt64_ok in Hadd as [-> _]; [|lia..]. pose proof (wf_buyer_finished _ Hb0) as Hw.
    unfold buyer_after. split_and!; [done|exact Hw|by apply claim_finished| |by left].
    rewrite claim_finished by done. change (0 + (it_OutValue buy + (it_RemainingValue buy - value)) = claim InSats buy - value). lia.
  - destruct (Hfin eq_refl) as [Hnr Hle]. unfold buyer_after. cbn [wp].
    rewrite (op_open _ _ Hb0). split_and!; [done|apply Hb0|done|lia|right]. split_and!; [done|by intros ?%Hreach|done].
Qed.

(** The seller of a deal. *)
Definition seller_after (sell : InvokeItem) (m : Decimal) (s : InvokeItem) : Prop :=
  same_order sell s /\ wf_item false s /\ if_set finest (it_OutAmt s) /\ claim InSats s = 0
  /\ claim InAsset s + (if Finished s then amount (it_OutAmt s) else 0) = claim InAsset sell - Value m
  /\ (Finished s = true \/ amount (it_RemainingAmt sell) <> Value m).

Lemma seller_after_spec sell m out : open_item OrderTypeSell sell -> finest m ->
  Value m <= amount (it_RemainingAmt sell) -> 0 <= out < 2 ^ 63 ->
  let s := seller_sold sell m out in
  wp (let! finished := limitOrderSellFinished s in
      Ok (if (finished : bool) then set_Done ItemStatusDealt (set_RemainingAmt None (set_OutAmt (it_RemainingAmt s) s)) else s))
    (seller_after sell m).
Proof.
  intros Hs Hf Hle Hout s. destruct (seller_sold_open sell m out Hs Hf Hle Hout) as [Hs0 Hr0]. fold s in Hs0, Hr0.
  destruct (claim_open_sell _ Hs) as [Ha _], (claim_open_sell _ Hs0) as [Ha0 Hc0].
  destruct (open_normal _ _ Hs0) as [Hfr Hfo _ _ _ _].
  eapply wp_bind; [apply limitOrderSellFinished_spec; [done|apply Hs]|]. intros [] Hfin; cbv beta iota; cbn [wp].
  - pose proof (wf_seller_finished _ Hs0) as Hw. unfold seller_after.
    split_and!; [done|exact Hw|done|by apply claim_finished| |by left].
    rewrite claim_finished by done. change (0 + amount (it_RemainingAmt s) = claim InAsset sell - Value m). lia.
  - unfold seller_after. rewrite (op_open _ _ Hs0). split_and!; [done|apply Hs0|done|done|lia|right].
    specialize (Hfin eq_refl). lia.
Qed.

Lemma applyLimitOrderDeal_spec buy sell m value price :
  open_item OrderTypeBuy buy -> open_item OrderTypeSell sell -> matched buy sell (price_units price) m value ->
  wp (applyLimitOrderDeal buy sell m value price) (fun '(b, s) => dealt buy sell (price_units price) m value b s).
Proof.
  intros Hb Hs Hm. destruct (open_normal _ _ Hb) as [_ _ Hbo HR Hsum _], (open_normal _ _ Hs) as [_ _ Hso _ _ _].
  rewrite (op_type _ _ Hb) in Hsum. specialize (Hsum ltac:(done)). pose proof Hm as [Hv Hf Hpos Hle Hpay Hval _].
  unfold applyLimitOrderDeal. rewrite int64_id by (unfold is_int64; lia). z_test.
  destruct (AddInt64 (it_OutValue sell) value) as [out ov] eqn:Hadd. destruct ov; [done|].
  apply AddInt64_ok in Hadd as [Hout Hlt]; [|lia..]. fold (buyer_paid buy m value). fold (seller_sold sell m out).
  pose proof (buyer_after_spec buy m value price Hb Hf ltac:(lia) Hv) as Hbuyer.
  pose proof (seller_after_spec sell m out Hs Hf Hle ltac:(lia)) as Hseller. cbv zeta in Hseller.
  destruct (limitOrderBuyFinished _ _) as [bf| |]; [|done|done]. cbn [rbind] in *.
  eapply wp_bind; [exact Hbuyer|]. intros b (Hsb & Hwb & Hab & Hcb & Hpb).
  destruct (limitOrderSellFinished _) as [sf| |]; [|done|done]. cbn [rbind wp] in *.
  match type of Hseller with seller_after _ _ ?x => set (s := x) in Hseller end.
  change (dealt buy sell (price_units price) m value b s).
  destruct Hseller as (Hss & Hws & Hos & Has & Hcs & Hps).
  destruct (claim_open_buy _ Hb) as [Hca _], (claim_open_sell _ Hs) as [_ Hcs'].
  split; [done|done|done|done|done|lia|lia|].
  destruct Hpb as [?|(HRb & Hnr & Hl)]; [by left|]. destruct Hps as [?|Hns]; [by right; left|].
  right; right. destruct (match_progress _ _ _ _ _ Hm Hns Hnr Hl). unfold pending at 1. rewrite HRb. done.
Qed.

Lemma same_order_trans i j k : same_order i j -> same_order j k -> same_order i k.
Proof. unfold same_order. intuition congruence. Qed.

Lemma same_order_open t i j : open_item t i -> same_order i j -> wf_item false j -> Finished j = false -> open_item t j.
Proof. intros [_ Hr Ht _] (_ & _ & _ & _ & Ht' & Hr') Hw Hf. split; [done|congruence|congruence|done]. Qed.

(** ** The loop *)

(** A deal between two open orders of [items0] that keeps within both limits: its
    price is the seller's, the buyer's is not lower, and the satoshis that are paid
    differ from the product of amount and price by less than one satoshi for the
    buyer and by less than [10 ^ -10] for the seller. *)
Definition fair (items0 : list InvokeItem) (d : SettlementDeal) : Prop :=
  exists buy sell limit, buy ∈ items0 /\ sell ∈ items0 /\ open_item OrderTypeBuy buy /\ open_item OrderTypeSell sell
  /\ sd_BuyItemID d = it_ID buy /\ sd_SellItemID d = it_ID sell
  /\ limitOrderItemPrice buy = Ok limit /\ limitOrderItemPrice sell = Ok (sd_UnitPrice d)
  /\ let v := price_units (sd_UnitPrice d) in
     let m := price_units (sd_AssetAmt d) in
     0 < v <= price_units limit /\ 0 < m /\ (sd_SatValue d - 1) * U * U < m * v < sd_SatValue d * U * U + U.

(** Items and plan after a stage, against those before it. *)
Record kept (items0 : list InvokeItem) (p q : list InvokeItem * SettlementPlan) : Prop := mkKept {
  kp_wf : Forall (wf_item false) q.1;
  kp_length : length q.1 = length p.1;
  kp_account u : account u q.1 q.2 <= account u p.1 p.2;
  kp_fair : Forall (fair items0) (sp_Deals p.2) -> Forall (fair items0) (sp_Deals q.2);
  kp_backed : Forall backed p.1 -> Forall backed q.1;
}.

Lemma kept_refl items0 p : Forall (wf_item false) p.1 -> kept items0 p p.
Proof. by split. Qed.

Lemma kept_twice items0 p q r : kept items0 p q -> kept items0 q r -> kept items0 p r.
Proof.
  intros [? ? H1 ? ?] [? ? H2 ? ?]. split; [done|congruence| |auto|auto]. intros u. etrans; [apply H2|apply H1].
Qed.

Lemma staged_kept items0 p q : staged (at_once := false) p q -> kept items0 p q.
Proof. intros [? ? ? Hd Hb]. split; [done..|by rewrite Hd|]. apply Hb, backed_finished. Qed.

(** An id of an open order that was an order of [items0]. *)
Definition listed (t : Z) (items0 items : list InvokeItem) (i : nat) : Prop :=
  exists item item0, items !! i = Some item /\ open_item t item
    /\ item0 ∈ items0 /\ open_item t item0 /\ same_order item0 item.

Lemma listed_insert t items0 items i k x : listed t items0 items k -> k <> i -> listed t items0 (<[i := x]> items) k.
Proof. intros (item & item0 & Hk & H) Hne. exists item, item0. by rewrite list_lookup_insert_ne. Qed.

(** A list of ids that another item is not on. *)
Lemma listed_others t items0 items l i x : Forall (listed t items0 items) l -> i ∉ l ->
  Forall (listed t items0 (<[i := x]> items)) l.
Proof.
  intros Hl Hi. apply Forall_forall. intros k Hk. rewrite Forall_forall in Hl.
  apply listed_insert; [by apply Hl|]. by intros ->.
Qed.

Lemma not_listed t t' items0 items i l : t <> t' -> listed t items0 items i -> Forall (listed t' items0 items) l -> i ∉ l.
Proof.
  intros Ht (a & _ & Ha & [_ _ Hta _] & _) Hl Hi. rewrite Forall_forall in Hl.
  destruct (Hl i Hi) as (b & _ & Hb & [_ _ Htb _] & _). rewrite Ha in Hb. injection Hb as ->. congruence.
Qed.

Lemma deal_plan_deals plan b s m value price : sp_Deals (deal_plan plan b s m value price)
  = sp_Deals plan ++ [mkDeal (it_ID b) (it_ID s) (Decimal_String m) value price].
Proof.
  unfold deal_plan, addLimitOrderDealTransfers, addLimitOrderBuyRemainderTransfer. cbv zeta.
  repeat case_if; rewrite ?deals_add_item_id, ?deals_add_transfers, ?deals_add_item_id, ?deals_add_transfers,
    ?deals_add_item_id, ?deals_add_transfers, ?deals_add_item_id, ?deals_inputs; reflexivity.
Qed.

Lemma fair_deal items0 buy sell buy0 sell0 limit price m value :
  buy0 ∈ items0 -> sell0 ∈ items0 -> open_item OrderTypeBuy buy0 -> open_item OrderTypeSell sell0 ->
  same_order buy0 buy -> same_order sell0 sell ->
  limitOrderItemPrice buy = Ok limit -> limitOrderItemPrice sell = Ok price -> price_units price <= price_units limit ->
  matched buy sell (price_units price) m value ->
  fair items0 (mkDeal (it_ID buy) (it_ID sell) (Decimal_String m) value price).
Proof.
  intros Hb0 Hs0 Hob Hos Hsb Hss Hlimit Hprice Hle Hm. exists buy0, sell0, limit.
  rewrite <- (same_price _ _ Hsb), <- (same_price _ _ Hss). cbn [sd_BuyItemID sd_SellItemID sd_UnitPrice sd_AssetAmt sd_SatValue].
  destruct Hsb as (-> & _), Hss as (-> & _). destruct Hm as [Hv Hf Hpos _ _ -> _]. rewrite read_string by done.
  assert (0 < Value m * price_units price) by (by apply Z.mul_pos_pos).
  destruct (deal_value_bounds (Value m) (price_units price)) as (Hd0 & Hd1 & Hd2); [done|].
  split_and!; done || lia.
Qed.

(** One deal of the loop. *)
Lemma deal_kept items0 items plan i j buy sell b s m value price :
  Forall (wf_item false) items -> items !! i = Some buy -> items !! j = Some sell -> i <> j ->
  open_item OrderTypeBuy buy -> open_item OrderTypeSell sell ->
  finest m -> dealt buy sell (price_units price) m value b s ->
  fair items0 (mkDeal (it_ID b) (it_ID s) (Decimal_String m) value price) ->
  kept items0 (items, plan) (<[j := s]> (<[i := b]> items), deal_plan plan b s m value price).
Proof.
  intros Hwf Hi Hj Hij Hob Hos Hm [Hsb Hss Hwb Hws Ho Ha Hs _] Hfair. split; cbn [fst snd].
  - by repeat apply Forall_insert.
  - by rewrite !length_insert.
  - intros u. unfold account, claims. rewrite deal_plan_paid by done.
    rewrite (sum_of_insert _ (<[i := b]> items) j sell) by (by rewrite list_lookup_insert_ne).
    rewrite (sum_of_insert _ _ _ _ _ Hi). destruct u; lia.
  - intros Hd. rewrite deal_plan_deals. apply Forall_app. split; [done|]. by constructor.
  - intros Hb. apply Forall_insert; [apply Forall_insert; [done|]|]; right; left.
    + destruct Hsb as (_ & _ & _ & _ & -> & _). by rewrite (op_type _ _ Hob).
    + destruct Hss as (_ & _ & _ & _ & -> & _). by rewrite (op_type _ _ Hos).
Qed.

(** A seller that is refunded. *)
Lemma sell_refunded_staged items plan j sell : Forall (wf_item false) items -> items !! j = Some sell ->
  open_item OrderTypeSell sell ->
  staged (at_once := false) (items, plan) (<[j := (sell_refunded plan sell).1]> items, (sell_refunded plan sell).2).
Proof.
  intros Hwf Hj Hs. unfold sell_refunded. cbn [markItemRefunded fst snd].
  change (refundTransfer (set_Reason InvokeReasonNoEnoughAsset sell)) with (refundTransfer sell).
  eapply staged_finish; [done|done|done|done|plan_deals|]. intros u. rewrite paid_add_item_id, paid_inputs.
  pose proof (refundTransfer_paid (at_once := false) u sell (op_open _ _ Hs) (op_reason _ _ Hs) (open_normal _ _ Hs)) as Hp.
  rewrite <- Hp by (right; left; by rewrite (op_type _ _ Hs)).
  case_if; [rewrite paid_nothing by done; lia|]. rewrite paid_add_transfer. lia.
Qed.

(** Two turns of the loop for each order that is left, or one less when the next
    deal finishes one of the two orders at the front. *)
Definition front_pending (items : list InvokeItem) (buys sells : list nat) : Prop :=
  exists i j buys' sells' buy sell price, buys = i :: buys' /\ sells = j :: sells'
    /\ items !! i = Some buy /\ items !! j = Some sell /\ limitOrderItemPrice sell = Ok price
    /\ pending buy (price_units price).

Definition enough (fuel : nat) (items : list InvokeItem) (buys sells : list nat) : Prop :=
  (2 * (length buys + length sells) <= fuel)%nat
  \/ (2 * (length buys + length sells) <= S fuel)%nat /\ front_pending items buys sells.

(** What the loop keeps of the two lists. *)
Record book (items0 items : list InvokeItem) (buys sells : list nat) : Prop := mkBook {
  bk_wf : Forall (wf_item false) items;
  bk_buys : Forall (listed OrderTypeBuy items0 items) buys;
  bk_sells : Forall (listed OrderTypeSell items0 items) sells;
  bk_nodup_buys : NoDup buys;
  bk_nodup_sells : NoDup sells;
}.

Lemma book_refund items0 items i buys j sells sell : book items0 items (i :: buys) (j :: sells) ->
  wf_item false sell -> book items0 (<[j := sell]> items) (i :: buys) sells.
Proof.
  intros [Hwf Hb Hs Hnb Hns] Hw. apply NoDup_cons in Hns as [Hj Hns]. apply Forall_cons in Hs as [Hlj Hs].
  split; [by apply Forall_insert| |by apply listed_others|done|done].
  apply listed_others; [done|]. eapply (not_listed OrderTypeSell OrderTypeBuy); done.
Qed.

Lemma listed_after t items0 items i old new : listed t items0 items i -> items !! i = Some old ->
  same_order old new -> wf_item false new -> Finished new = false -> listed t items0 (<[i := new]> items) i.
Proof.
  intros (item & item0 & Hi & Ho & H0 & Ho0 & Hs) Hold Hsame Hw Hf. rewrite Hold in Hi. injection Hi as ->.
  exists new, item0. split_and!; [|by apply (same_order_open t _ _ Ho)|done|done|by apply (same_order_trans _ _ _ Hs)].
  apply list_lookup_insert_eq. by eapply lookup_lt_Some.
Qed.

Lemma book_deal items0 items i buys j sells buy sell v m value b s :
  book items0 items (i :: buys) (j :: sells) -> items !! i = Some buy -> items !! j = Some sell -> i <> j ->
  dealt buy sell v m value b s ->
  book items0 (<[j := s]> (<[i := b]> items)) (if Finished b then buys else i :: buys)
    (if Finished s then sells else j :: sells).
Proof.
  intros [Hwf Hb Hs Hnb Hns] Hi Hj Hij [Hsb Hss Hwb Hws _ _ _ _].
  pose proof Hb as [Hli Hb']%Forall_cons. pose proof Hs as [Hlj Hs']%Forall_cons.
  pose proof Hnb as [Hni Hnb']%NoDup_cons. pose proof Hns as [Hnj Hns']%NoDup_cons.
  assert (Hjb : j ∉ i :: buys) by (by eapply (not_listed OrderTypeSell OrderTypeBuy)).
  assert (His : i ∉ j :: sells) by (by eapply (not_listed OrderTypeBuy OrderTypeSell)).
  split; [by repeat apply Forall_insert| | |by destruct (Finished b)|by destruct (Finished s)].
  - assert (Forall (listed OrderTypeBuy items0 (<[j := s]> (<[i := b]> items))) buys)
      by (apply listed_others; [by apply listed_others|set_solver]).
    destruct (Finished b) eqn:Hf; [done|]. apply Forall_cons. split; [|done].
    apply listed_insert; [by eapply listed_after|done].
  - assert (Forall (listed OrderTypeSell items0 (<[j := s]> (<[i := b]> items))) sells).
    { apply listed_others; [|done]. apply listed_others; [done|set_solver]. }
    destruct (Finished s) eqn:Hf; [done|]. apply Forall_cons. split; [|done].
    eapply listed_after; [apply listed_insert; done| |done..]. by rewrite list_lookup_insert_ne.
Qed.

Lemma enough_deal fuel items i buys j sells buy sell price m value b s :
  enough (S fuel) items (i :: buys) (j :: sells) -> items !! i = Some buy -> items !! j = Some sell -> i <> j ->
  limitOrderItemPrice sell = Ok price -> dealt buy sell (price_units price) m value b s ->
  enough fuel (<[j := s]> (<[i := b]> items)) (if Finished b then buys else i :: buys)
    (if Finished s then sells else j :: sells).
Proof.
  intros He Hi Hj Hij Hprice [_ Hss _ _ _ _ _ Hprog]. unfold enough in *. simpl in He.
  destruct (Finished b); [left; destruct (Finished s); simpl; lia|].
  destruct (Finished s); [left; simpl; lia|]. destruct Hprog as [?|[?|[Hpb Hnp]]]; [done|done|].
  right. split.
  - destruct He as [?|[_ (? & ? & ? & ? & buy' & sell' & price' & [= <- <-] & [= <- <-] & Hi' & Hj' & Hp' & Hpend)]];
      [simpl; lia|]. simplify_eq. by rewrite Hprice in Hp'; simplify_eq.
  - exists i, j, buys, sells, b, s, price. apply lookup_lt_Some in Hi as Hil. apply lookup_lt_Some in Hj as Hjl.
    split_and!; [done|done| | |by rewrite (same_price _ _ Hss)|done].
    + rewrite list_lookup_insert_ne by done. by apply list_lookup_insert_eq.
    + apply list_lookup_insert_eq. by rewrite length_insert.
Qed.

(** The loop ends, and it keeps the accounts. *)
Lemma match_loop_spec resolve items0 fuel buys sells s :
  book items0 s.1.1 buys sells -> enough fuel s.1.1 buys sells ->
  wp (match_loop resolve fuel buys sells s) (fun s' => kept items0 s.1 s'.1).
Proof.
  revert buys sells s. induction fuel as [|fuel IH]; intros [|i buys] [|j sells] [[items plan] changed] Hbook He;
    cbn [fst snd] in *; try (apply kept_refl, Hbook).
  { destruct He as [He|[He _]]; simpl in He; lia. }
  pose proof Hbook as [Hwf Hb Hs _ _]. apply Forall_cons in Hb as [Hli Hb]. apply Forall_cons in Hs as [Hlj Hs].
  pose proof Hli as (buy & buy0 & Hi & Hob & Hb0 & Hob0 & Hsb). pose proof Hlj as (sell & sell0 & Hj & Hos & Hs0 & Hos0 & Hss).
  assert (Hij : i <> j).
  { intros ->. rewrite Hi in Hj. injection Hj as ->. pose proof (op_type _ _ Hob) as Ht. by rewrite (op_type _ _ Hos) in Ht. }
  cbn [match_loop]. rewrite Hi, Hj. cbn [unwrap rbind].
  pose proof (limitOrderItemPrice_wp buy (proj1 (op_wf _ _ Hob))) as Hwp.
  destruct (limitOrderItemPrice buy) as [limit| |] eqn:Hlimit; [clear Hwp|done|done].
  pose proof (limitOrderItemPrice_wp sell (proj1 (op_wf _ _ Hos))) as Hwp.
  destruct (limitOrderItemPrice sell) as [price| |] eqn:Hprice; [clear Hwp|done|done]. cbn [rbind].
  case_if; [by apply kept_refl|]. rewrite cmp_same in Heqb by (rewrite ?parse_places; done).
  eapply wp_bind; [by apply (matchLimitOrderAmount_spec buy sell _ price)|].
  intros [m value] Hm. cbv beta iota. rewrite sign_value.
  case_if; [by apply kept_refl|]. destruct_and?. destruct Hm as [?|Hm]; [lia|].
  case_if.
  - pose proof (sell_refunded_staged items plan j sell Hwf Hj Hos) as Hst.
    destruct (sell_refunded plan sell) as [sell' plan']. cbn [fst snd] in Hst.
    eapply wp_mono; [apply IH|intros s' Hk; eapply kept_twice; [by apply staged_kept|exact Hk]].
    + eapply book_refund; [done|]. apply (Forall_lookup_1 _ _ j _ (sg_wf _ _ Hst)).
      apply list_lookup_insert_eq. by eapply lookup_lt_Some.
    + left. destruct He as [He|[He _]]; simpl in *; lia.
  - eapply wp_bind; [by apply applyLimitOrderDeal_spec|]. intros [b s'] Hd. cbv beta iota.
    eapply wp_mono; [apply IH; [by eapply book_deal|by eapply enough_deal]|].
    intros s'' Hk. eapply kept_twice; [|exact Hk]. eapply deal_kept; try done; [apply Hm|].
    destruct (dl_same_buy _ _ _ _ _ _ _ Hd) as (-> & _), (dl_same_sell _ _ _ _ _ _ _ Hd) as (-> & _).
    by eapply (fair_deal items0 buy sell buy0 sell0 limit); try done; lia.
Qed.

(** ** The settlement *)

Lemma sortLimitOrders_spec items ids buy : Forall (wf_item false) items ->
  wp (sortLimitOrders items ids buy) (fun l => l ≡ₚ ids).
Proof.
  intros Hwf. unfold sortLimitOrders. eapply (wp_bind _ _ (fun l => map fst l = ids)).
  - apply (wp_rfold _ (fun rest l => map fst l ++ rest = ids)); [done| |by intros l; rewrite app_nil_r].
    intros id rest l Hl. unfold order_price. destruct (items !! id) as [item|] eqn:Hi; [|done].
    eapply (wp_bind _ _ (fun _ => True)); [eapply wp_bind; [by apply limitOrderItemPrice_wp, (wf_lookup _ _ _ Hwf Hi)|]|].
    + by intros price _.
    + intros price _. cbn [wp]. by rewrite map_app, <- app_assoc.
  - intros l <-. cbn [wp]. by rewrite sort_stable_perm.
Qed.

(** The open orders of a state. *)
Lemma open_orders items0 items height (p : Z -> InvokeItem -> bool) t :
  Forall (wf_item false) items -> (forall i, i ∈ items -> Finished i = false -> i ∈ items0) ->
  (forall i, p height i = true -> open_order height i && (it_OrderType i =? t) = true) ->
  let ids := List.filter (fun i => from_option (p height) false (items !! i)) (seq 0 (length items)) in
  NoDup ids /\ Forall (listed t items0 items) ids.
Proof.
  intros Hwf Hin Hp ids. split; [apply NoDup_ListNoDup, List.NoDup_filter, NoDup_ListNoDup, NoDup_seq|].
  apply Forall_forall. intros i [_ Hi]%list_elem_of_In%filter_In.
  destruct (items !! i) as [item|] eqn:Hl; [|done]. simpl in Hi.
  specialize (Hp item Hi). unfold open_order in Hp. bool_to_prop. destruct_and?. bool_to_prop. destruct_and?.
  assert (Ho : open_item t item).
  { split; [done|by eapply bool_decide_eq_true_1|done|by eapply wf_lookup]. }
  exists item, item. split_and!; [done|done| |done|done]. apply Hin; [by eapply list_elem_of_lookup_2|done].
Qed.

Lemma open_buy_order height i : open_buy height i = true -> open_order height i && (it_OrderType i =? OrderTypeBuy) = true.
Proof. unfold open_buy. intros H. by apply andb_true_iff in H as [H _]. Qed.
Lemma open_sell_order height i : open_sell height i = true -> open_order height i && (it_OrderType i =? OrderTypeSell) = true.
Proof. unfold open_sell. intros H. by apply andb_true_iff in H as [H _]. Qed.

(** What a buyer paid beyond the order is given back. *)
Lemma refund_excess_spec items0 s i item : Forall (wf_item false) s.1.1 -> s.1.1 !! i = Some item ->
  wp (refund_excess s i) (fun s' => kept items0 s.1 s'.1).
Proof.
  destruct s as [[items plan] changed]. cbn [fst snd]. intros Hwf Hi. unfold refund_excess. rewrite Hi. cbn [unwrap rbind].
  case_if; [by apply kept_refl|]. destruct_and?. cbn [wp fst snd].
  match goal with H : bool_decide _ = true |- _ => apply bool_decide_eq_true_1 in H end.
  assert (Ho : open_item OrderTypeBuy item) by (split; [done|done|done|by eapply wf_lookup]).
  destruct (open_normal _ _ Ho) as [? ? ? ? ? _], (claim_open_buy _ Ho) as [Ha Hs]. pose proof Ho as [Hf Hr Ht [Hsc _]].
  assert (Ho' : open_item OrderTypeBuy (set_OutValue 0 item)).
  { split; [done|done|done|]. split; [done|]. intros _. split; [|by rewrite (Hr : it_Reason (set_OutValue 0 item) = _)].
    intros _. split; simpl; try done; lia. }
  destruct (claim_open_buy _ Ho') as [Ha' Hs']. simpl in Hs'. split; cbn [fst snd].
  - apply Forall_insert; [done|apply Ho'].
  - apply length_insert.
  - intros u. unfold account, claims. rewrite (sum_of_insert _ _ _ _ _ Hi), paid_add_transfer, paid_add_item_id.
    destruct u; cbn [paid st_AssetAmt st_SatValue]; rewrite ?parse_empty; cbn [Value]; lia.
  - done.
  - intros Hb. apply Forall_insert; [done|]. right; left. by rewrite (op_type _ _ Ho').
Qed.

Lemma refundOpenLimitOrderBuyExcess_spec items0 items plan : Forall (wf_item false) items ->
  wp (refundOpenLimitOrderBuyExcess items plan) (fun s' => kept items0 (items, plan) s'.1).
Proof.
  intros Hwf. unfold refundOpenLimitOrderBuyExcess.
  apply (wp_rfold _ (fun l s' => Forall (fun i => (i < length items)%nat) l /\ kept items0 (items, plan) s'.1)).
  - split; [apply Forall_lt_seq|by apply kept_refl].
  - intros i r s [Hl Hk]. apply Forall_cons in Hl as [Hlt Hl]. pose proof Hk as [Hw Hlen _ _ _]. simpl in Hlen.
    rewrite <- Hlen in Hlt. apply lookup_lt_is_Some_2 in Hlt as [item Hi].
    eapply wp_mono; [by apply (refund_excess_spec items0 s i item)|]. intros s' Hs'. split; [done|by eapply kept_twice].
  - by intros s [_ ?].
Qed.

(** The close of the contract. *)
Lemma close_orders_spec contract height deployer idx state plan :
  Forall (wf_item false) (rs_Items state) -> Forall backed (rs_Items state) ->
  Forall (fun i => (i < length (rs_Items state))%nat) idx ->
  wp (close_loop (ALimitOrder contract) height deployer idx state plan) (fun '(state', plan', closed) =>
    staged (at_once := false) (rs_Items state, plan) (rs_Items state', plan')).
Proof.
  intros Hwf Hk. induction 1 as [|i idx Hlt Hidx IH]; cbn [close_loop]; [by apply staged_refl|].
  apply lookup_lt_is_Some_2 in Hlt as [c Hc]. rewrite Hc. cbn [rbind unwrap]. case_if; [done|].
  assert (Hplan : staged (at_once := false) (rs_Items state, plan)
    (rs_Items state, add_item_id (it_ID c) (addSettlementInputs plan c))).
  { apply (staged_plan _ _ plan); [by apply staged_refl| |plan_deals]. intros u. by rewrite paid_add_item_id, paid_inputs. }
  case_if; [by eapply staged_drop|].
  eapply wp_bind; [by apply (close_items_spec (at_once := false))|]. intros [items plan'] Hs. cbn [rbind rs_Items rs_set_Items].
  apply lookup_lt_Some in Hc as Hlt. rewrite <- (sg_length _ _ Hs : length items = length (rs_Items state)) in Hlt.
  apply lookup_lt_is_Some_2 in Hlt as [c' Hc']. rewrite Hc'. cbn [rbind unwrap wp].
  eapply staged_drop; [by eapply staged_trans|done|done|done].
Qed.

(** The totals do not touch the orders. *)
Lemma order_stats contract s : Forall (wf_item false) (rs_Items s) ->
  let s' := applyFinishedItemStats (ALimitOrder contract) s in
  Forall (wf_item false) (rs_Items s') /\ (forall u, claims u (rs_Items s') = claims u (rs_Items s))
  /\ (Forall backed (rs_Items s) -> Forall backed (rs_Items s')).
Proof.
  unfold applyFinishedItemStats. generalize (seq 0 (length (rs_Items s))) as l. intros l. revert s.
  induction l as [|i l IH]; intros s Hs; cbn [fold_left]; [done|].
  assert (Hone : Forall (wf_item false) (rs_Items (item_stats (ALimitOrder contract) s i))
    /\ (forall u, claims u (rs_Items (item_stats (ALimitOrder contract) s i)) = claims u (rs_Items s))
    /\ (Forall backed (rs_Items s) -> Forall backed (rs_Items (item_stats (ALimitOrder contract) s i)))).
  { unfold item_stats. destruct (rs_Items s !! i) as [item|] eqn:Hi; [|done]. case_if; [done|].
    cbn [rs_Items rs_set_Items rs_set_LimitOrder]. split_and!.
    - apply Forall_insert; [done|]. apply wf_finished; [done|]. apply (wf_lookup _ _ _ Hs Hi).
    - intros u. unfold claims. rewrite (sum_of_insert _ _ _ _ _ Hi).
      change (claim u (set_StatsApplied true item)) with (claim u item). lia.
    - intros Hb. apply Forall_insert; [done|by left]. }
  destruct Hone as (Hw & Hc & Hb). destruct (IH _ Hw) as (Hw' & Hc' & Hb'). split_and!; [done| |auto].
  intros u. by rewrite Hc', Hc.
Qed.

Lemma no_changes plan : SettlementPlanHasChanges plan = false -> sp_Transfers plan = [].
Proof.
  unfold SettlementPlanHasChanges. destruct (sp_Transfers plan) as [|t l]; [done|]. rewrite len_cons.
  pose proof (len_nonneg l). replace (1 + len l =? 0) with false by (symmetry; apply Z.eqb_neq; lia).
  by rewrite orb_true_r.
Qed.

(** The refunds of a block and the close of the contract. *)
Lemma settle_requests_spec contract address deployer height state :
  Forall (wf_item false) (rs_Items state) -> Forall backed (rs_Items state) ->
  let c := ALimitOrder contract in
  let plan := emptyPlan address height in
  wp (let! '(state, plan, changed) := applyInvalidItems c state plan height in
      let! '(state, plan) := applyRefunds state plan height in
      let! '(state, plan, closed) := applyCloseItems c state plan height deployer in
      Ok (state, plan, changed, closed))
    (fun '(state', plan', _, _) => staged (at_once := false) (rs_Items state, plan) (rs_Items state', plan')).
Proof.
  intros Hwf Hk c plan. eapply wp_bind; [by eapply (applyInvalidItems_spec (at_once := false))|].
  intros [[s1 p1] c1] (Hs1 & _ & _). cbv beta iota.
  pose proof (sg_finish _ _ Hs1 backed backed_finished Hk) as Hk1. simpl in Hk1.
  eapply wp_bind; [apply (applyRefunds_spec (at_once := false)); [apply Hs1|by left]|].
  intros [s2 p2] [Hs2 _]. cbv beta iota.
  pose proof (sg_finish _ _ Hs2 backed backed_finished Hk1) as Hk2. simpl in Hk2.
  eapply (wp_bind _ _ (fun '(s3, p3, closed) => staged (at_once := false) (rs_Items s2, p2) (rs_Items s3, p3))).
  - unfold applyCloseItems. case_if; [apply staged_refl, Hs2|].
    apply (close_orders_spec contract height deployer _ (touch c s2)); [apply Hs2|done|apply Forall_lt_seq].
  - intros [[s3 p3] closed] Hs3. cbn [wp]. eapply staged_trans; [exact Hs1|]. by eapply staged_trans.
Qed.

(** The orders after the requests are a book of the orders before. *)
Lemma staged_book p items plan height buys sells : staged (at_once := false) p (items, plan) ->
  buys ≡ₚ (activeLimitOrderIDs items height).1 -> sells ≡ₚ (activeLimitOrderIDs items height).2 ->
  book p.1 items buys sells.
Proof.
  intros Hs Hb Hl. pose proof (sg_wf _ _ Hs) as Hwf. cbn [fst] in Hwf.
  assert (Hin : forall i, i ∈ items -> Finished i = false -> i ∈ p.1).
  { intros i Hi Hf. pose proof (sg_finish _ _ Hs (fun i => Finished i = true \/ i ∈ p.1)) as H. cbn [fst] in H.
    rewrite !Forall_forall in H. destruct (H ltac:(by left) ltac:(by right) i Hi); [congruence|done]. }
  destruct (open_orders p.1 items height open_buy OrderTypeBuy Hwf Hin (open_buy_order height)) as [? ?].
  destruct (open_orders p.1 items height open_sell OrderTypeSell Hwf Hin (open_sell_order height)) as [? ?].
  split; [done|by rewrite Hb|by rewrite Hl|by rewrite Hb|by rewrite Hl].
Qed.

(** What a settlement promises. *)
Definition settled (state : TemplateRuntimeState) (saved : option TemplateRuntimeState) (plan : SettlementPlan) : Prop :=
  match saved with
  | Some state' =>
      (Forall (wf_item false) (rs_Items state') /\ Forall backed (rs_Items state'))
      /\ forall u, claims u (rs_Items state') + paid_out u plan <= claims u (rs_Items state)
  | None => sp_Transfers plan = []
  end.

Lemma kept_settled contract address height state items s' plan : Forall backed (rs_Items state) ->
  kept (rs_Items state) (rs_Items state, emptyPlan address height) (items, plan) -> rs_Items s' = items ->
  settled state (Some (applyFinishedItemStats (ALimitOrder contract) s')) plan
  /\ Forall (fair (rs_Items state)) (sp_Deals plan).
Proof.
  intros Hk [Hw _ Ha Hf Hb] <-. cbn [fst snd] in *. destruct (order_stats contract s' Hw) as (Hw' & Hc & Hb').
  split; [split; [split; [done|auto]|]|by apply Hf]. intros u. rewrite Hc. specialize (Ha u). unfold account in Ha.
  change (paid_out u (emptyPlan address height)) with 0 in Ha. lia.
Qed.

Lemma settleLimitOrders_spec contract address deployer resolve height state :
  Forall (wf_item false) (rs_Items state) -> Forall backed (rs_Items state) ->
  wp (settleLimitOrders contract address deployer resolve height state) (fun '(saved, plan) =>
    settled state saved plan /\ Forall (fair (rs_Items state)) (sp_Deals plan)).
Proof.
  intros Hwf Hk. pose proof (settle_requests_spec contract address deployer height state Hwf Hk) as H.
  unfold settleLimitOrders. cbv zeta in *.
  destruct (applyInvalidItems _ _ _ _) as [[[s1 p1] c1]| |]; [|done|done]. cbn [rbind] in *.
  destruct (applyRefunds _ _ _) as [[s2 p2]| |]; [|done|done]. cbn [rbind] in *.
  destruct (applyCloseItems _ _ _ _ _) as [[[s3 p3] closed]| |]; [|done|done]. cbn [rbind wp] in *.
  pose proof (staged_kept (rs_Items state) _ _ H) as Hkept.
  destruct closed; [by eapply kept_settled|]. pose proof (sg_wf _ _ H : Forall _ (rs_Items s3)) as Hw3.
  pose proof (fun buys sells => staged_book _ _ _ height buys sells H) as Hbook. cbn [fst] in Hbook.
  destruct (activeLimitOrderIDs (rs_Items s3) height) as [buys sells]. cbn [fst snd] in Hbook.
  eapply wp_bind; [by apply sortLimitOrders_spec|]. intros buys' Hb.
  eapply wp_bind; [by apply sortLimitOrders_spec|]. intros sells' Hs.
  eapply wp_bind; [apply (match_loop_spec resolve (rs_Items state)); [by apply Hbook|by left]|].
  intros [[items p4] c4] Hk4. cbn [fst snd] in Hk4. cbv beta iota.
  eapply wp_bind; [apply (refundOpenLimitOrderBuyExcess_spec (rs_Items state)), Hk4|].
  intros [[items5 p5] c5] Hk5. cbn [fst snd] in Hk5. cbv beta iota zeta.
  pose proof (kept_twice _ _ _ _ Hkept (kept_twice _ _ _ _ Hk4 Hk5)) as Hall.
  case_if; [|by eapply kept_settled]. cbn [wp]. split; [|by apply (kp_fair _ _ _ Hall)].
  apply no_changes. destruct (SettlementPlanHasChanges p5); [|done]. destruct_and?. congruence.
Qed.

(** C13: Limit orders are settled within what they offer.  For any recorded orders
    and requests with well-formed amounts: a settlement never panics and its matching
    loop ends within two turns for each open order; when it succeeds, the claims of
    the orders that stay open plus everything the plan pays are at most the claims
    there were before, in satoshis and in the asset; the orders are well formed
    again; and when nothing is saved nothing is paid. *)
Theorem settleLimitOrders_solvent contract address deployer resolve height state :
  Forall (wf_item false) (rs_Items state) -> Forall backed (rs_Items state) ->
  wp (settleLimitOrders contract address deployer resolve height state) (fun '(saved, plan) =>
    match saved with
    | Some state' =>
        (Forall (wf_item false) (rs_Items state') /\ Forall backed (rs_Items state'))
        /\ forall u, claims u (rs_Items state') + paid_out u plan <= claims u (rs_Items state)
    | None => sp_Transfers plan = []
    end).
Proof.
  intros Hwf Hk. eapply wp_mono; [by apply settleLimitOrders_spec|]. by intros [saved plan] [H _].
Qed.

(** C14: Limits are kept.  Every deal that a settlement records is between an order to
    buy and an order to sell that were open before, at the price of the sale, which
    is positive and no higher than the limit of the purchase; a positive amount is
    traded, the buyer pays less than one satoshi more than amount times price, and
    the seller gets at least that, up to [10 ^ -10] of a satoshi. *)
Theorem limit_order_deals_fair contract address deployer resolve height state :
  Forall (wf_item false) (rs_Items state) -> Forall backed (rs_Items state) ->
  wp (settleLimitOrders contract address deployer resolve height state) (fun '(_, plan) =>
    Forall (fair (rs_Items state)) (sp_Deals plan)).
Proof.
  intros Hwf Hk. eapply wp_mono; [by apply settleLimitOrders_spec|]. by intros [saved plan] [_ H].
Qed.

End limit_orders.

(** ** A block *)

Module Book.

Definition contract : LimitOrderContract := mkLimitOrderContract Sample.asset_name.

Definition param (orderType : Z) (amt price : bytes) : bytes :=
  Sample.encoded (LimitOrderInvokeParam_Encode (mkLimitOrderParam orderType Sample.asset_name amt price)).

Definition buy (id : Z) (address : bytes) (amt price : string) (value : Z) : InvokeItem :=
  Sample.item id OrderTypeBuy address (param OrderTypeBuy (str amt) (str price)) None value [].

Definition sell (id : Z) (address : bytes) (amt : Z) (price : string) : InvokeItem :=
  Sample.item id OrderTypeSell address (param OrderTypeSell [] (str price)) (Sample.tokens amt) 0 [].

(** A purchase of five at up to twenty, sales at fifteen, twenty and twenty-five, and
    an invalid item. *)
Definition block : TemplateRuntimeState := Sample.state_of [
  buy 0 (str "bob") "5" "20" 100;
  sell 1 (str "erin") 1 "25";
  sell 2 (str "dave") 10 "20";
  sell 3 (str "carol") 3 "15";
  Sample.item 4 OrderTypeBuy (str "frank") [] None 0 InvokeReasonInvalid].

Lemma book_wf : Forall (wf_item false) (rs_Items block).
Proof. Sample.wf_sample; try done; vm_compute; repeat constructor; (discriminate || done). Qed.

Lemma block_backed : Forall backed (rs_Items block).
Proof. repeat (apply Forall_cons; split; [right; left; by vm_compute|]). done. Qed.

Abbreviation settle resolve s := (settleLimitOrders contract (str "book") (str "deployer") resolve 7 s).

(** The deals of a settlement - buyer, seller, satoshis - and the numbers, satoshis
    and reasons of the orders that are refunded for want of the asset. *)
Definition deals (r : result SettleError (option TemplateRuntimeState * SettlementPlan)) : list (Z * Z * Z) :=
  match r with
  | Ok (_, plan) => map (fun d => (sd_BuyItemID d, sd_SellItemID d, sd_SatValue d)) (sp_Deals plan)
  | _ => []
  end.

Definition rejected (r : result SettleError (option TemplateRuntimeState * SettlementPlan)) : list Z :=
  match r with
  | Ok (Some s, _) =>
      map it_ID (List.filter (fun i => bool_decide (it_Reason i = InvokeReasonNoEnoughAsset)) (rs_Items s))
  | _ => []
  end.

(** A purchase of three at 1.5, funded with five satoshis, one of a hundred at the
    same price behind it, and sales at that price of an asset without places. *)
Definition rest_block : TemplateRuntimeState := Sample.state_of [
  buy 0 (str "bob") "3" "1.5" 5;
  buy 1 (str "carol") "100" "1.5" 150;
  sell 2 (str "dave") 1 "1.5";
  sell 3 (str "erin") 1 "1.5";
  sell 4 (str "frank") 1 "1.5";
  sell 5 (str "grace") 100 "1.5"].

End Book.

(** Witness of the solvency theorem. *)
Lemma settleLimitOrders_solvent_witness :
  Book.deals (Book.settle None Book.block) = [(0, 3, 45); (0, 2, 40)]
  /\ wp (Book.settle None Book.block) (fun '(saved, plan) =>
       match saved with
       | Some state' =>
           (Forall (wf_item false) (rs_Items state') /\ Forall backed (rs_Items state'))
           /\ forall u, claims u (rs_Items state') + paid_out u plan <= claims u (rs_Items Book.block)
       | None => sp_Transfers plan = []
       end).
Proof.
  split; [vm_compute; reflexivity|].
  apply (settleLimitOrders_solvent Book.contract (str "book") (str "deployer") None 7 Book.block);
    [apply Book.book_wf|apply Book.block_backed].
Defined.

Lemma limit_order_deals_fair_witness :
  wp (Book.settle None Book.block) (fun '(_, plan) => Forall (fair (rs_Items Book.block)) (sp_Deals plan)).
Proof.
  apply (limit_order_deals_fair Book.contract (str "book") (str "deployer") None 7 Book.block);
    [apply Book.book_wf|apply Book.block_backed].
Defined.

(** A buyer with one satoshi left, too little for one unit of an asset without
    places, stays at the front of the book: every seller at its price is refunded for
    want of the asset, and the buyer behind it with funds for all of them gets none. *)
Example rest_blocks_book :
  let r := Book.settle (Some (fun _ => Some 0)) Book.rest_block in
  Book.deals r = [(0, 2, 2); (0, 3, 2)] /\ Book.rejected r = [4; 5].
Proof. vm_compute. done. Qed.
