(* ===== verification/Recording.v ===== *)
(** The recording of invocations by limit orders and the automated market maker
    (contract/template/runtime.go, state.go, limit_order.go, amm.go).

    [ApplyInvoke] checks an invocation, turns it and its funding into an item, appends
    the item to the state and adds to the totals.  What the contract finds in the
    funding output - its plain satoshis and its amount of an asset - is the input
    [FundingOutput]; the exchange and autopay contracts have rules of their own. *)
From Stdlib Require Import ZArith List Bool Lia.
From stdpp Require Import base list numbers option strings gmap.
From S2P Require Import Prelude FixedPoint TemplateState Settlement Amm LimitOrder.
Open Scope Z_scope.

Definition InvokeAPISwap : bytes := str "swap".
Definition InvokeAPIRefund : bytes := str "refund".
Definition InvokeAPIAddLiquidity : bytes := str "addliq".
Definition InvokeAPIRemoveLiquidity : bytes := str "removeliq".
Definition InvokeAPIClose : bytes := str "close".
Definition SwapInvokeFee : Z := 0.

Definition ContractFlagNonClosable : Z := 1.
Definition KnownContractFlags : Z := ContractFlagNonClosable.

(** *** Assignments to fields *)

Definition set_OrderType (x : Z) (i : InvokeItem) : InvokeItem :=
  {| it_ID := it_ID i; it_CallID := it_CallID i; it_Action := it_Action i; it_OrderType := x;
     it_Height := it_Height i; it_OrderTime := it_OrderTime i; it_AssetName := it_AssetName i;
     it_ServiceFee := it_ServiceFee i; it_GasFee := it_GasFee i; it_Param := it_Param i;
     it_Address := it_Address i; it_InUtxos := it_InUtxos i; it_InValue := it_InValue i;
     it_InAmt := it_InAmt i; it_RetainedAssetA := it_RetainedAssetA i; it_RetainedAssetB :=
     it_RetainedAssetB i; it_RemainingAmt := it_RemainingAmt i; it_RemainingValue :=
     it_RemainingValue i; it_OutTxID := it_OutTxID i; it_OutAmt := it_OutAmt i; it_OutValue :=
     it_OutValue i; it_Reason := it_Reason i; it_Done := it_Done i; it_StatsApplied :=
     it_StatsApplied i |}.
Definition set_AssetName (x : bytes) (i : InvokeItem) : InvokeItem :=
  {| it_ID := it_ID i; it_CallID := it_CallID i; it_Action := it_Action i; it_OrderType :=
     it_OrderType i; it_Height := it_Height i; it_OrderTime := it_OrderTime i; it_AssetName :=
     x; it_ServiceFee := it_ServiceFee i; it_GasFee := it_GasFee i; it_Param := it_Param i;
     it_Address := it_Address i; it_InUtxos := it_InUtxos i; it_InValue := it_InValue i;
     it_InAmt := it_InAmt i; it_RetainedAssetA := it_RetainedAssetA i; it_RetainedAssetB :=
     it_RetainedAssetB i; it_RemainingAmt := it_RemainingAmt i; it_RemainingValue :=
     it_RemainingValue i; it_OutTxID := it_OutTxID i; it_OutAmt := it_OutAmt i; it_OutValue :=
     it_OutValue i; it_Reason := it_Reason i; it_Done := it_Done i; it_StatsApplied :=
     it_StatsApplied i |}.
Definition set_ServiceFee (x : Z) (i : InvokeItem) : InvokeItem :=
  {| it_ID := it_ID i; it_CallID := it_CallID i; it_Action := it_Action i; it_OrderType :=
     it_OrderType i; it_Height := it_Height i; it_OrderTime := it_OrderTime i; it_AssetName :=
     it_AssetName i; it_ServiceFee := x; it_GasFee := it_GasFee i; it_Param := it_Param i;
     it_Address := it_Address i; it_InUtxos := it_InUtxos i; it_InValue := it_InValue i;
     it_InAmt := it_InAmt i; it_RetainedAssetA := it_RetainedAssetA i; it_RetainedAssetB :=
     it_RetainedAssetB i; it_RemainingAmt := it_RemainingAmt i; it_RemainingValue :=
     it_RemainingValue i; it_OutTxID := it_OutTxID i; it_OutAmt := it_OutAmt i; it_OutValue :=
     it_OutValue i; it_Reason := it_Reason i; it_Done := it_Done i; it_StatsApplied :=
     it_StatsApplied i |}.
Definition set_InValue (x : Z) (i : InvokeItem) : InvokeItem :=
  {| it_ID := it_ID i; it_CallID := it_CallID i; it_Action := it_Action i; it_OrderType :=
     it_OrderType i; it_Height := it_Height i; it_OrderTime := it_OrderTime i; it_AssetName :=
     it_AssetName i; it_ServiceFee := it_ServiceFee i; it_GasFee := it_GasFee i; it_Param :=
     it_Param i; it_Address := it_Address i; it_InUtxos := it_InUtxos i; it_InValue := x;
     it_InAmt := it_InAmt i; it_RetainedAssetA := it_RetainedAssetA i; it_RetainedAssetB :=
     it_RetainedAssetB i; it_RemainingAmt := it_RemainingAmt i; it_RemainingValue :=
     it_RemainingValue i; it_OutTxID := it_OutTxID i; it_OutAmt := it_OutAmt i; it_OutValue :=
     it_OutValue i; it_Reason := it_Reason i; it_Done := it_Done i; it_StatsApplied :=
     it_StatsApplied i |}.
Definition set_InAmt (x : option Decimal) (i : InvokeItem) : InvokeItem :=
  {| it_ID := it_ID i; it_CallID := it_CallID i; it_Action := it_Action i; it_OrderType :=
     it_OrderType i; it_Height := it_Height i; it_OrderTime := it_OrderTime i; it_AssetName :=
     it_AssetName i; it_ServiceFee := it_ServiceFee i; it_GasFee := it_GasFee i; it_Param :=
     it_Param i; it_Address := it_Address i; it_InUtxos := it_InUtxos i; it_InValue :=
     it_InValue i; it_InAmt := x; it_RetainedAssetA := it_RetainedAssetA i; it_RetainedAssetB :=
     it_RetainedAssetB i; it_RemainingAmt := it_RemainingAmt i; it_RemainingValue :=
     it_RemainingValue i; it_OutTxID := it_OutTxID i; it_OutAmt := it_OutAmt i; it_OutValue :=
     it_OutValue i; it_Reason := it_Reason i; it_Done := it_Done i; it_StatsApplied :=
     it_StatsApplied i |}.
Definition set_GasFee (x : option Decimal) (i : InvokeItem) : InvokeItem :=
  {| it_ID := it_ID i; it_CallID := it_CallID i; it_Action := it_Action i; it_OrderType :=
     it_OrderType i; it_Height := it_Height i; it_OrderTime := it_OrderTime i; it_AssetName :=
     it_AssetName i; it_ServiceFee := it_ServiceFee i; it_GasFee := x; it_Param := it_Param i;
     it_Address := it_Address i; it_InUtxos := it_InUtxos i; it_InValue := it_InValue i;
     it_InAmt := it_InAmt i; it_RetainedAssetA := it_RetainedAssetA i; it_RetainedAssetB :=
     it_RetainedAssetB i; it_RemainingAmt := it_RemainingAmt i; it_RemainingValue :=
     it_RemainingValue i; it_OutTxID := it_OutTxID i; it_OutAmt := it_OutAmt i; it_OutValue :=
     it_OutValue i; it_Reason := it_Reason i; it_Done := it_Done i; it_StatsApplied :=
     it_StatsApplied i |}.
Definition lo_set_TotalInputAssetA (x : option Decimal) (r : LimitOrderRunningData) : LimitOrderRunningData :=
  {| lo_AssetAInPool := lo_AssetAInPool r; lo_AssetBInPool := lo_AssetBInPool r; lo_TradingReady
     := lo_TradingReady r; lo_GasBalance := lo_GasBalance r; lo_TotalInputAssetA := x;
     lo_TotalInputAssetB := lo_TotalInputAssetB r; lo_TotalDealAssetA := lo_TotalDealAssetA r;
     lo_TotalDealAssetB := lo_TotalDealAssetB r; lo_TotalDealCount := lo_TotalDealCount r;
     lo_TotalRefundAssetB := lo_TotalRefundAssetB r; lo_Closed := lo_Closed r |}.
Definition lo_set_TotalInputAssetB (x : option Decimal) (r : LimitOrderRunningData) : LimitOrderRunningData :=
  {| lo_AssetAInPool := lo_AssetAInPool r; lo_AssetBInPool := lo_AssetBInPool r; lo_TradingReady
     := lo_TradingReady r; lo_GasBalance := lo_GasBalance r; lo_TotalInputAssetA :=
     lo_TotalInputAssetA r; lo_TotalInputAssetB := x; lo_TotalDealAssetA := lo_TotalDealAssetA
     r; lo_TotalDealAssetB := lo_TotalDealAssetB r; lo_TotalDealCount := lo_TotalDealCount r;
     lo_TotalRefundAssetB := lo_TotalRefundAssetB r; lo_Closed := lo_Closed r |}.
Definition am_set_TotalInputAssetA (x : option Decimal) (r : AMMRunningData) : AMMRunningData :=
  {| am_AssetAInPool := am_AssetAInPool r; am_AssetBInPool := am_AssetBInPool r;
     am_RequiredAssetA := am_RequiredAssetA r; am_RequiredAssetB := am_RequiredAssetB r;
     am_RequiredK := am_RequiredK r; am_K := am_K r; am_TradingReady := am_TradingReady r;
     am_GasBalance := am_GasBalance r; am_TotalInputAssetA := x; am_TotalInputAssetB :=
     am_TotalInputAssetB r; am_TotalDealAssetA := am_TotalDealAssetA r; am_TotalDealAssetB :=
     am_TotalDealAssetB r; am_TotalDealCount := am_TotalDealCount r; am_TotalRefundAssetB :=
     am_TotalRefundAssetB r; am_TotalLPTAmt := am_TotalLPTAmt r; am_LPBalances := am_LPBalances
     r; am_LPCosts := am_LPCosts r; am_Closed := am_Closed r |}.
Definition am_set_TotalInputAssetB (x : option Decimal) (r : AMMRunningData) : AMMRunningData :=
  {| am_AssetAInPool := am_AssetAInPool r; am_AssetBInPool := am_AssetBInPool r;
     am_RequiredAssetA := am_RequiredAssetA r; am_RequiredAssetB := am_RequiredAssetB r;
     am_RequiredK := am_RequiredK r; am_K := am_K r; am_TradingReady := am_TradingReady r;
     am_GasBalance := am_GasBalance r; am_TotalInputAssetA := am_TotalInputAssetA r;
     am_TotalInputAssetB := x; am_TotalDealAssetA := am_TotalDealAssetA r; am_TotalDealAssetB :=
     am_TotalDealAssetB r; am_TotalDealCount := am_TotalDealCount r; am_TotalRefundAssetB :=
     am_TotalRefundAssetB r; am_TotalLPTAmt := am_TotalLPTAmt r; am_LPBalances := am_LPBalances
     r; am_LPCosts := am_LPCosts r; am_Closed := am_Closed r |}.

(** ** Data *)

(** The two contracts. *)
Inductive Trading : Type :=
| TradesOrders (c : LimitOrderContract)
| TradesPool (c : AMMContract).

Definition as_contract (t : Trading) : Contract :=
  match t with
  | TradesOrders c => ALimitOrder c
  | TradesPool c => AnAMM c
  end.

Definition isAMM (t : Trading) : bool :=
  match t with
  | TradesOrders _ => false
  | TradesPool _ => true
  end.

Record FundingOutput : Type := mkFunding {
  fo_OutPoint : bytes;
  fo_PlainValue : Z;
  fo_AssetAmount : bytes -> option Decimal;
}.

Record ApplyInvokeRequest : Type := mkRequest {
  rq_Action : bytes;
  rq_Param : bytes;
  rq_CallID : bytes;
  rq_Invoker : bytes;
  rq_FundingOutput : FundingOutput;
  rq_Height : Z;
  rq_Timestamp : Z;
  rq_ResultGasFee : option Decimal;
}.

(** What the runtime holds besides the state. *)
Record ContractRuntime : Type := mkRuntime {
  rt_contract : Trading;
  rt_deployer : bytes;
  rt_flags : Z;
}.

(** What a recording fails with. *)
Inductive RecordError : Type :=
| UnknownFlags
| ErrContractClosed
| ErrContractNonClosable
| ErrNotContractDeployer
| UnsupportedAction
| InvalidParam
| InvalidAssetName
| ErrInvalidAsset
| FundingTooLow
| CodecError (e : SettleError).

(** An error of a codec is passed on. *)
Definition codec {A : Type} (r : result SettleError A) : result RecordError A :=
  match r with
  | Ok a => Ok a
  | Err e => Err (CodecError e)
  | Panic => Panic
  end.

Definition ensure (e : RecordError) (b : bool) : result RecordError unit := if b then Ok tt else Err e.

(** ** Lifecycle *)

Definition flags_known (flags : Z) : bool := Z.land flags (Z.lxor KnownContractFlags (2 ^ 32 - 1)) =? 0.

Definition Closable (flags : Z) : bool := flags_known flags && (Z.land flags ContractFlagNonClosable =? 0).

Definition ValidateContractClose (flags : Z) (closed : bool) (deployer actor : bytes) : result RecordError unit :=
  if negb (flags_known flags) then Err UnknownFlags
  else if closed then Err ErrContractClosed
  else if negb (Closable flags) then Err ErrContractNonClosable
  else if bool_decide (deployer = []) || bool_decide (actor = []) || negb (bool_decide (actor = deployer))
  then Err ErrNotContractDeployer
  else Ok tt.

(** The rule for autopay contracts that are closing does not concern the two. *)
Definition checkInvocationLifecycle (rt : ContractRuntime) (state : TemplateRuntimeState) (action actor : bytes)
  : result RecordError unit :=
  let closed := ClosedForContract (as_contract (rt_contract rt)) state in
  if bool_decide (action = InvokeAPIClose)
  then ValidateContractClose (rt_flags rt) closed (rt_deployer rt) actor
  else if closed then Err ErrContractClosed
  else Ok tt.

Section recording.
Context `{F : FixedOps}.

Abbreviation zero := (parseDecimalOrZero (str "0")).

(** ** Checks of parameters *)

(** The protocol, type and ticker of a name with two colons. *)
Definition NewAssetNameFromString (name : bytes) : option (bytes * bytes * bytes) :=
  match split_on 58 name with
  | [protocol; type; ticker] => Some (protocol, type, ticker)
  | _ => None
  end.

Definition checkTemplateAssetName (assetName : bytes) : bool :=
  match NewAssetNameFromString assetName with
  | Some (protocol, type, ticker) =>
      bool_decide (type = ASSET_TYPE_FT) && negb (bool_decide (protocol = []) || bool_decide (ticker = []))
  | None => false
  end.

Definition parsePositiveDecimal (value : bytes) : bool :=
  if bool_decide (value = []) || bool_decide (value = str "0") then false
  else match NewDecimalFromString value MaxPriceDivisibility with
       | None => false
       | Some d => negb (Decimal_Cmp d (NewDefaultDecimal 0) <=? 0)
       end.

(** An asset name is not given, or good. *)
Definition name_ok (assetName : bytes) : bool := bool_decide (assetName = []) || checkTemplateAssetName assetName.

Definition LimitOrderInvokeParam_Check (p : LimitOrderInvokeParam) : result RecordError unit :=
  if negb (lp_OrderType p =? OrderTypeBuy) && negb (lp_OrderType p =? OrderTypeSell) then Err InvalidParam
  else
    let! _ := ensure InvalidAssetName (name_ok (lp_AssetName p)) in
    let! _ := ensure InvalidParam (parsePositiveDecimal (lp_Amt p)) in
    ensure InvalidParam (bool_decide (lp_UnitPrice p = []) || parsePositiveDecimal (lp_UnitPrice p)).

Definition CheckAMMSwap (p : LimitOrderInvokeParam) : result RecordError unit :=
  if negb (lp_OrderType p =? OrderTypeBuy) && negb (lp_OrderType p =? OrderTypeSell) then Err InvalidParam
  else
    let! _ := ensure InvalidAssetName (name_ok (lp_AssetName p)) in
    let! _ := ensure InvalidParam
      (bool_decide (lp_Amt p = []) || bool_decide (lp_Amt p = str "0") || parsePositiveDecimal (lp_Amt p)) in
    ensure InvalidParam (parsePositiveDecimal (lp_UnitPrice p)).

Definition AddLiquidityInvokeParam_Check (p : AddLiquidityInvokeParam) : result RecordError unit :=
  if negb (al_OrderType p =? OrderTypeAddLiquidity) then Err InvalidParam
  else
    let! _ := ensure InvalidAssetName (name_ok (al_AssetName p)) in
    let! _ := ensure InvalidParam (parsePositiveDecimal (al_Amt p)) in
    ensure InvalidParam (negb (al_Value p <=? 0)).

Definition RemoveLiquidityInvokeParam_Check (p : RemoveLiquidityInvokeParam) : result RecordError unit :=
  if negb (rl_OrderType p =? OrderTypeRemoveLiquidity) then Err InvalidParam
  else
    let! _ := ensure InvalidAssetName (name_ok (rl_AssetName p)) in
    ensure InvalidParam (parsePositiveDecimal (rl_LptAmt p)).

Definition CloseInvokeParam_Decode (data : bytes) : result RecordError unit :=
  ensure InvalidParam (bool_decide (data = [])).

(** A parameter names the contract's asset, or none. *)
Definition same_asset (encoded assetName : bytes) : result RecordError unit :=
  ensure (CodecError AssetMismatch) (bool_decide (encoded = []) || bool_decide (encoded = assetName)).

Definition LimitOrder_CheckInvoke (c : LimitOrderContract) (action param : bytes) : result RecordError unit :=
  if bool_decide (action = InvokeAPISwap) then
    let! p := codec (LimitOrderInvokeParam_Decode param) in
    let! _ := same_asset (lp_AssetName p) (lc_AssetName c) in
    LimitOrderInvokeParam_Check p
  else if bool_decide (action = InvokeAPIRefund) then
    let! _ := codec (RefundInvokeParam_Decode param) in Ok tt
  else if bool_decide (action = InvokeAPIClose) then CloseInvokeParam_Decode param
  else Err UnsupportedAction.

Definition AMM_CheckInvoke (c : AMMContract) (action param : bytes) : result RecordError unit :=
  if bool_decide (action = InvokeAPISwap) then
    let! p := codec (LimitOrderInvokeParam_Decode param) in
    let! _ := same_asset (lp_AssetName p) (ac_AssetName c) in
    CheckAMMSwap p
  else if bool_decide (action = InvokeAPIAddLiquidity) then
    let! p := codec (AddLiquidityInvokeParam_Decode param) in
    let! _ := same_asset (al_AssetName p) (ac_AssetName c) in
    AddLiquidityInvokeParam_Check p
  else if bool_decide (action = InvokeAPIRemoveLiquidity) then
    let! p := codec (RemoveLiquidityInvokeParam_Decode param) in
    let! _ := same_asset (rl_AssetName p) (ac_AssetName c) in
    RemoveLiquidityInvokeParam_Check p
  else if bool_decide (action = InvokeAPIClose) then CloseInvokeParam_Decode param
  else Err UnsupportedAction.

Definition CheckInvoke (t : Trading) (action param : bytes) : result RecordError unit :=
  match t with
  | TradesOrders c => LimitOrder_CheckInvoke c action param
  | TradesPool c => AMM_CheckInvoke c action param
  end.

(** ** Funding *)

Definition calcSwapServiceFee (value : Z) : Z :=
  if value <=? 0 then 0
  else Z.quot value 1000 * SwapServiceFeeRatio + Z.quot (Z.rem value 1000 * SwapServiceFeeRatio) 1000.

Definition calcLimitOrderTradingValue (amt unitPrice : bytes) : option Z :=
  let assetAmt := parseDecimalOrZero amt in
  let price := parseDecimalOrZero unitPrice in
  if (Decimal_Sign assetAmt =? 0) || (Decimal_Sign price =? 0) then Some 0
  else CeilInt64 (DecimalMul price assetAmt).

Definition valueWithinTolerance (got expected percent : Z) : bool :=
  if (expected <? 0) || (percent <? 0) then false
  else
    let min := Z.quot (int64 (expected * (100 - percent))) 100 in
    let max := Z.quot (int64 (expected * (100 + percent))) 100 in
    (min <=? got) && (got <=? max).

(** An item that is invalid, with some of its amounts cleared. *)
Definition invalid_value (i : InvokeItem) : InvokeItem := set_RemainingValue 0 (set_Reason InvokeReasonInvalid i).
Definition invalid_buy (i : InvokeItem) : InvokeItem := set_OutValue 0 (invalid_value i).
Definition invalid_amt (i : InvokeItem) : InvokeItem := set_RemainingAmt None (set_Reason InvokeReasonInvalid i).

Definition buy_funding (param : LimitOrderInvokeParam) (amm : bool) (i : InvokeItem) : InvokeItem :=
  match calcLimitOrderTradingValue (lp_Amt param) (lp_UnitPrice param) with
  | None => invalid_buy i
  | Some tradingValue =>
      match (if amm then FloorInt64 (parseDecimalOrZero (lp_UnitPrice param)) else Some tradingValue) with
      | None => invalid_buy i
      | Some requiredValue =>
          let '(expected, overflow) := AddInt64 requiredValue (it_ServiceFee i) in
          if (overflow : bool) then invalid_buy i
          else if amm then
            if (expected <=? 0) || negb (valueWithinTolerance (it_InValue i) expected 5) then invalid_value i else i
          else if (expected <=? 0) || (it_InValue i <? expected) then invalid_buy i
          else if it_InValue i >? expected
          then set_RemainingValue requiredValue (set_OutValue (int64 (it_InValue i - expected)) i)
          else i
      end
  end.

Definition sell_funding (param : LimitOrderInvokeParam) (amm : bool) (i : InvokeItem) : InvokeItem :=
  if it_InValue i <? it_ServiceFee i then invalid_amt i
  else if negb (it_InValue i =? it_ServiceFee i) then set_RemainingValue 0 (invalid_amt i)
  else
    match it_InAmt i with
    | None => set_Reason InvokeReasonInvalid i
    | Some inAmt =>
        if Decimal_Sign inAmt =? 0 then set_Reason InvokeReasonInvalid i
        else if negb amm && negb (Decimal_Cmp inAmt (parseDecimalOrZero (lp_Amt param)) =? 0) then invalid_amt i
        else i
    end.

Definition applySwapFundingValidation (param : LimitOrderInvokeParam) (amm : bool) (i : InvokeItem) : InvokeItem :=
  if negb (bool_decide (it_Reason i = InvokeReasonNormal)) then i
  else if it_OrderType i =? OrderTypeBuy then buy_funding param amm i
  else if it_OrderType i =? OrderTypeSell then sell_funding param amm i
  else i.

Definition applyAddLiquidityFundingValidation (param : AddLiquidityInvokeParam) (i : InvokeItem) : InvokeItem :=
  if negb (bool_decide (it_Reason i = InvokeReasonNormal)) then i
  else
    let short := match it_InAmt i with
                 | None => true
                 | Some inAmt => Decimal_Cmp inAmt (parseDecimalOrZero (al_Amt param)) <? 0
                 end in
    if short || (it_InValue i <? al_Value param) then set_RemainingValue 0 (invalid_amt i) else i.

Definition fundingAssetAmount (output : FundingOutput) (assetName : bytes) : result RecordError Decimal :=
  match fo_AssetAmount output assetName with
  | None => Err ErrInvalidAsset
  | Some amount => Ok (parseDecimalOrZero (Decimal_String amount))
  end.

Definition requireFundingAsset (output : FundingOutput) (assetName amount : bytes) : result RecordError unit :=
  if bool_decide (assetName = []) then Err FundingTooLow
  else
    let required := parseDecimalOrZero amount in
    if Decimal_Sign required <=? 0 then Err FundingTooLow
    else
      let! got := fundingAssetAmount output assetName in
      ensure FundingTooLow (negb (Decimal_Cmp got required <? 0)).

Definition firstNonEmpty (a b : bytes) : bytes := if bool_decide (a = []) then b else a.

(** The satoshis that a purchase must bring. *)
Definition required_funding (amm : bool) (p : LimitOrderInvokeParam) : result RecordError Z :=
  match calcLimitOrderTradingValue (lp_Amt p) (lp_UnitPrice p) with
  | None => Err (CodecError Int64Error)
  | Some requiredValue =>
      if amm then
        match FloorInt64 (parseDecimalOrZero (lp_UnitPrice p)) with
        | None => Err (CodecError Int64Error)
        | Some v => Ok v
        end
      else
        let '(v, overflow) := AddInt64 requiredValue (calcSwapServiceFee requiredValue) in
        if (overflow : bool) then Err (CodecError AmountOverflow) else Ok v
  end.

Definition checkInvokeFunding (t : Trading) (action param : bytes) (output : FundingOutput) : result RecordError unit :=
  let assetName := contractAssetName (as_contract t) in
  if bool_decide (action = InvokeAPISwap) then
    let! p := codec (LimitOrderInvokeParam_Decode param) in
    if lp_OrderType p =? OrderTypeBuy then
      let! requiredValue := required_funding (isAMM t) p in
      ensure FundingTooLow (negb ((requiredValue <=? 0) || (fo_PlainValue output <? requiredValue)))
    else if lp_OrderType p =? OrderTypeSell then
      let requiredAsset := firstNonEmpty (lp_AssetName p) assetName in
      let! _ :=
        if isAMM t then
          let! amount := fundingAssetAmount output requiredAsset in
          ensure FundingTooLow (negb (Decimal_Sign amount <=? 0))
        else requireFundingAsset output requiredAsset (lp_Amt p) in
      ensure FundingTooLow (fo_PlainValue output =? SwapInvokeFee)
    else Ok tt
  else if bool_decide (action = InvokeAPIAddLiquidity) then
    let! p := codec (AddLiquidityInvokeParam_Decode param) in
    let! _ := requireFundingAsset output (firstNonEmpty (al_AssetName p) assetName) (al_Amt p) in
    ensure FundingTooLow (negb ((al_Value p <=? 0) || (fo_PlainValue output <? al_Value p)))
  else Ok tt.

(** ** Items *)

(** What the funding brings of the contract's asset, at the places of the templates. *)
Definition funding_amount (assetName : bytes) (output : FundingOutput) : result RecordError (option Decimal) :=
  let! inAmt :=
    if bool_decide (assetName = []) then Ok zero
    else match fo_AssetAmount output assetName with
         | None => Err ErrInvalidAsset
         | Some amt => Ok (AddAlignPrecision zero (parseDecimalOrZero (Decimal_String amt)))
         end in
  Ok (if Decimal_Sign inAmt =? 0 then None else Some inAmt).

(** The item before its action is looked at. *)
Definition new_item (assetName : bytes) (id : Z) (inAmt : option Decimal) (req : ApplyInvokeRequest) : InvokeItem :=
  {| it_ID := id; it_CallID := rq_CallID req; it_Action := rq_Action req; it_OrderType := 0; it_Height := rq_Height req;
     it_OrderTime := rq_Timestamp req; it_AssetName := assetName; it_ServiceFee := 0; it_GasFee := None;
     it_Param := rq_Param req; it_Address := rq_Invoker req; it_InUtxos := fo_OutPoint (rq_FundingOutput req);
     it_InValue := fo_PlainValue (rq_FundingOutput req); it_InAmt := inAmt; it_RetainedAssetA := None;
     it_RetainedAssetB := None; it_RemainingAmt := None; it_RemainingValue := 0; it_OutTxID := []; it_OutAmt := None;
     it_OutValue := 0; it_Reason := InvokeReasonNormal; it_Done := ItemStatusInit; it_StatsApplied := false |}.

(** [if text != "" { item.RemainingAmt = parseDecimalOrZero(text) }]. *)
Definition set_amount (text : bytes) (i : InvokeItem) : InvokeItem :=
  if bool_decide (text = []) then i else set_RemainingAmt (Some (parseDecimalOrZero text)) i.

(** A purchase, before its funding is looked at. *)
Definition buy_item (amm : bool) (p : LimitOrderInvokeParam) (inValue : Z) (i : InvokeItem) : result RecordError InvokeItem :=
  let i := set_amount (lp_Amt p) i in
  let! i :=
    if amm then Ok i
    else match calcLimitOrderTradingValue (lp_Amt p) (lp_UnitPrice p) with
         | None => Err (CodecError Int64Error)
         | Some tradingValue => Ok (set_ServiceFee (calcSwapServiceFee tradingValue) i)
         end in
  let remaining := int64 (inValue - it_ServiceFee i) in
  Ok (if remaining <? 0 then invalid_value i else set_RemainingValue remaining i).

Definition swap_request (amm : bool) (assetName : bytes) (p : LimitOrderInvokeParam) (inValue : Z) (i : InvokeItem)
  : result RecordError InvokeItem :=
  let i := if amm then set_ServiceFee SwapInvokeFee i else i in
  let i := set_RemainingValue inValue (set_AssetName (firstNonEmpty (lp_AssetName p) assetName)
             (set_OrderType (lp_OrderType p) i)) in
  let! i :=
    if lp_OrderType p =? OrderTypeSell then Ok (set_RemainingValue 0 (set_RemainingAmt (it_InAmt i) i))
    else buy_item amm p inValue i in
  Ok (applySwapFundingValidation p amm i).

(** The other actions of the switch need an exchange or an autopay contract and fail. *)
Definition NewInvokeItemFromRequest (t : Trading) (id : Z) (req : ApplyInvokeRequest) : result RecordError InvokeItem :=
  let assetName := contractAssetName (as_contract t) in
  let inValue := fo_PlainValue (rq_FundingOutput req) in
  let! inAmt := funding_amount assetName (rq_FundingOutput req) in
  let item := new_item assetName id inAmt req in
  let action := rq_Action req in
  if bool_decide (action = InvokeAPISwap) then
    let! p := codec (LimitOrderInvokeParam_Decode (rq_Param req)) in
    swap_request (isAMM t) assetName p inValue item
  else if bool_decide (action = InvokeAPIRefund) then
    let! _ := codec (RefundInvokeParam_Decode (rq_Param req)) in
    Ok (set_RemainingValue inValue (set_InAmt None (set_AssetName [] (set_OrderType OrderTypeRefund item))))
  else if bool_decide (action = InvokeAPIAddLiquidity) then
    let! p := codec (AddLiquidityInvokeParam_Decode (rq_Param req)) in
    Ok (applyAddLiquidityFundingValidation p (set_RemainingValue (al_Value p) (set_amount (al_Amt p)
          (set_AssetName (firstNonEmpty (al_AssetName p) assetName) (set_OrderType (al_OrderType p) item)))))
  else if bool_decide (action = InvokeAPIRemoveLiquidity) then
    let! p := codec (RemoveLiquidityInvokeParam_Decode (rq_Param req)) in
    Ok (set_amount (rl_LptAmt p)
          (set_AssetName (firstNonEmpty (rl_AssetName p) assetName) (set_OrderType (rl_OrderType p) item)))
  else if bool_decide (action = InvokeAPIClose) then
    (* a new item, without the value that came in *)
    Ok (set_GasFee (rq_ResultGasFee req) (set_RemainingValue inValue (set_InValue 0 (set_OrderType OrderTypeClose item))))
  else Err UnsupportedAction.

(** *** Consistency of items and parameters *)

Definition decodeRemoveLiquidityItemParam (i : InvokeItem) : result SettleError RemoveLiquidityInvokeParam :=
  let! param := RemoveLiquidityInvokeParam_Decode (it_Param i) in
  let! _ := validateInvokeItemOrderType i (rl_OrderType param) in
  let! _ := resolveInvokeItemAssetName (it_AssetName i) (rl_AssetName param) in
  Ok param.

(** The actions that the two contracts record; the item of any other is refused
    before. *)
Definition validateInvokeItemParamConsistency (i : InvokeItem) : result SettleError unit :=
  if bool_decide (it_Reason i = InvokeReasonInvalid) then Ok tt
  else if bool_decide (it_Action i = InvokeAPISwap) then
    let! _ := decodeLimitOrderItemParam i in Ok tt
  else if bool_decide (it_Action i = InvokeAPIRefund) then
    let! _ := decodeRefundItemParam i in Ok tt
  else if bool_decide (it_Action i = InvokeAPIAddLiquidity) then
    let! param := AddLiquidityInvokeParam_Decode (it_Param i) in
    let! _ := validateInvokeItemOrderType i (al_OrderType param) in
    let! _ := resolveInvokeItemAssetName (it_AssetName i) (al_AssetName param) in
    Ok tt
  else if bool_decide (it_Action i = InvokeAPIRemoveLiquidity) then
    let! _ := decodeRemoveLiquidityItemParam i in Ok tt
  else if bool_decide (it_Action i = InvokeAPIClose) then
    if negb (bool_decide (it_Param i = [])) then Err UnexpectedFields
    else validateInvokeItemOrderType i OrderTypeClose
  else Ok tt.

Definition normalizeInvokeItemParam (t : Trading) (i : InvokeItem) : result SettleError InvokeItem :=
  if bool_decide (it_Reason i = InvokeReasonInvalid) then Ok i
  else
    let expected := contractAssetName (as_contract t) in
    let! i :=
      if bool_decide (it_Action i = InvokeAPISwap) then
        let! param := decodeLimitOrderItemParam i in
        let! name := resolveInvokeItemAssetName expected (lp_AssetName param) in
        Ok (set_AssetName name i)
      else if bool_decide (it_Action i = InvokeAPIAddLiquidity) then
        let! param := AddLiquidityInvokeParam_Decode (it_Param i) in
        let! name := resolveInvokeItemAssetName expected (al_AssetName param) in
        Ok (set_AssetName name i)
      else if bool_decide (it_Action i = InvokeAPIRemoveLiquidity) then
        let! param := decodeRemoveLiquidityItemParam i in
        let! name := resolveInvokeItemAssetName expected (rl_AssetName param) in
        Ok (set_AssetName name i)
      else Ok i in
    let! _ := validateInvokeItemParamConsistency i in
    Ok i.

(** ** Totals *)

(** [if total == nil { total = 0 }; total = DecimalAdd(total, d)]. *)
Definition add_total (total : option Decimal) (d : Decimal) : option Decimal := Some (DecimalAdd (or_zero total) d).

(** Inputs, deals, number of deals and refunds, which a recorded item adds to; limit
    orders and the market maker count the same way. *)
Record totals : Type := mkTotals {
  tt_inputA : option Decimal;
  tt_inputB : option Decimal;
  tt_dealA : option Decimal;
  tt_dealB : option Decimal;
  tt_count : Z;
  tt_refundB : option Decimal;
}.

Definition running_stats (item : InvokeItem) (t : totals) : totals :=
  let refund := add_total (tt_refundB t) (NewDefaultDecimal (int64 (it_OutValue item + it_RemainingValue item))) in
  let inputB := add_total (tt_inputB t) (NewDefaultDecimal (it_InValue item)) in
  let inputA := match it_InAmt item with Some d => add_total (tt_inputA t) d | None => tt_inputA t end in
  if (it_OrderType item =? OrderTypeBuy) || (it_OrderType item =? OrderTypeSell) then
    if it_Done item =? ItemStatusDealt then
      mkTotals inputA inputB (match it_OutAmt item with Some d => add_total (tt_dealA t) d | None => tt_dealA t end)
        (add_total (tt_dealB t) (NewDefaultDecimal (it_OutValue item))) (int64 (tt_count t + 1)) (tt_refundB t)
    else if (it_Done item =? ItemStatusRefunded) || (it_Done item =? ItemStatusCancelled)
    then mkTotals inputA inputB (tt_dealA t) (tt_dealB t) (tt_count t) refund
    else mkTotals inputA inputB (tt_dealA t) (tt_dealB t) (tt_count t) (tt_refundB t)
  else if it_OrderType item =? OrderTypeRefund
  then mkTotals inputA inputB (tt_dealA t) (tt_dealB t) (tt_count t) refund
  else mkTotals inputA inputB (tt_dealA t) (tt_dealB t) (tt_count t) (tt_refundB t).

(** What was retained of a default invocation goes to the pool. *)
Definition add_retained (pool retained : option Decimal) : option Decimal :=
  match retained with
  | Some d => if Decimal_Sign d >? 0 then add_total pool d else pool
  | None => pool
  end.

Definition applyLimitOrderRunningStats (r : LimitOrderRunningData) (item : InvokeItem) : LimitOrderRunningData :=
  if bool_decide (it_Reason item = InvokeReasonInvalid) then r
  else
    let t := running_stats item (mkTotals (lo_TotalInputAssetA r) (lo_TotalInputAssetB r) (lo_TotalDealAssetA r)
               (lo_TotalDealAssetB r) (lo_TotalDealCount r) (lo_TotalRefundAssetB r)) in
    let r := lo_set_AssetBInPool (add_retained (lo_AssetBInPool r) (it_RetainedAssetB item))
               (lo_set_AssetAInPool (add_retained (lo_AssetAInPool r) (it_RetainedAssetA item)) r) in
    lo_set_TotalInputAssetA (tt_inputA t) (lo_set_TotalInputAssetB (tt_inputB t) (lo_set_TotalDealAssetA (tt_dealA t)
      (lo_set_TotalDealAssetB (tt_dealB t) (lo_set_TotalDealCount (tt_count t) (lo_set_TotalRefundAssetB (tt_refundB t) r))))).

Definition applyAMMRunningStats (r : AMMRunningData) (item : InvokeItem) : AMMRunningData :=
  if bool_decide (it_Reason item = InvokeReasonInvalid) then r
  else
    let t := running_stats item (mkTotals (am_TotalInputAssetA r) (am_TotalInputAssetB r) (am_TotalDealAssetA r)
               (am_TotalDealAssetB r) (am_TotalDealCount r) (am_TotalRefundAssetB r)) in
    let r := am_set_AssetBInPool (add_retained (am_AssetBInPool r) (it_RetainedAssetB item))
               (am_set_AssetAInPool (add_retained (am_AssetAInPool r) (it_RetainedAssetA item)) r) in
    am_set_TotalInputAssetA (tt_inputA t) (am_set_TotalInputAssetB (tt_inputB t) (am_set_TotalDealAssetA (tt_dealA t)
      (am_set_TotalDealAssetB (tt_dealB t) (am_set_TotalDealCount (tt_count t) (am_set_TotalRefundAssetB (tt_refundB t) r))))).

Definition LimitOrder_ApplyRunningData (r : LimitOrderRunningData) (item : InvokeItem) : LimitOrderRunningData :=
  let r := applyLimitOrderRunningStats r item in
  if bool_decide (it_Reason item = InvokeReasonInvalid) then r
  else if it_OrderType item =? OrderTypeBuy then
    if it_RemainingValue item >? 0
    then lo_set_AssetBInPool (add_total (lo_AssetBInPool r) (NewDefaultDecimal (it_RemainingValue item))) r
    else r
  else if it_OrderType item =? OrderTypeSell then
    match it_RemainingAmt item with
    | Some d => if Decimal_Sign d >? 0 then lo_set_AssetAInPool (add_total (lo_AssetAInPool r) d) r else r
    | None => r
    end
  else r.

Definition ApplyForContract (t : Trading) (state : TemplateRuntimeState) (item : InvokeItem) : TemplateRuntimeState :=
  match t with
  | TradesOrders _ => rs_set_LimitOrder (Some (LimitOrder_ApplyRunningData (LimitOrderData state) item)) state
  | TradesPool _ => rs_set_AMM (Some (syncAMMPoolInvariant (applyAMMRunningStats (AMMData state) item)).1) state
  end.

(** ** Recording *)

(** The item is appended under the next number. *)
Definition append_item (state : TemplateRuntimeState) (item : InvokeItem) : TemplateRuntimeState :=
  {| rs_NextItemID := int64 (rs_NextItemID state + 1); rs_InvokeCount := uint64 (rs_InvokeCount state + 1);
     rs_Items := rs_Items state ++ [item]; rs_LimitOrder := rs_LimitOrder state; rs_AMM := rs_AMM state;
     rs_Exchange := rs_Exchange state; rs_Autopay := rs_Autopay state |}.

(** The state that is saved, and the item.  [splitAutopayGasFunding] and
    [checkAutopayDelegateCapacity] return at once for contracts other than autopay. *)
Definition ApplyInvoke (rt : ContractRuntime) (state : TemplateRuntimeState) (req : ApplyInvokeRequest)
  : result RecordError (TemplateRuntimeState * InvokeItem) :=
  let t := rt_contract rt in
  let! _ := checkInvocationLifecycle rt state (rq_Action req) (rq_Invoker req) in
  let! _ := CheckInvoke t (rq_Action req) (rq_Param req) in
  let! item := NewInvokeItemFromRequest t (rs_NextItemID state) req in
  let! item := codec (normalizeInvokeItemParam t item) in
  let state := ApplyForContract t (append_item state item) item in
  Ok (applyFinishedItemStats (as_contract t) state, item).

(** ** Histories of limit orders *)

Inductive event : Type :=
| Invoke (req : ApplyInvokeRequest)
| SettleBlock (height : Z).

(** The saved state, and the plans and the recorded requests that led to it. *)
Record ledger : Type := mkLedger {
  lg_state : TemplateRuntimeState;
  lg_plans : list SettlementPlan;
  lg_requests : list ApplyInvokeRequest;
}.

Definition emptyState : TemplateRuntimeState := mkRuntimeState 0 0 [] None None None None.

(** A call that fails saves nothing. *)
Definition run_event (c : LimitOrderContract) (deployer : bytes) (flags : Z) (address : bytes)
  (resolve : option (bytes -> option Z)) (l : ledger) (e : event) : result RecordError ledger :=
  match e with
  | Invoke req =>
      match ApplyInvoke (mkRuntime (TradesOrders c) deployer flags) (lg_state l) req with
      | Ok (state, _) => Ok (mkLedger state (lg_plans l) (lg_requests l ++ [req]))
      | Err _ => Ok l
      | Panic => Panic
      end
  | SettleBlock height =>
      match settleLimitOrders c address deployer resolve height (lg_state l) with
      | Ok (saved, plan) => Ok (mkLedger (default (lg_state l) saved) (lg_plans l ++ [plan]) (lg_requests l))
      | Err _ => Ok l
      | Panic => Panic
      end
  end.

Definition run_history (c : LimitOrderContract) (deployer : bytes) (flags : Z) (address : bytes)
  (resolve : option (bytes -> option Z)) (events : list event) : result RecordError ledger :=
  rfold (run_event c deployer flags address resolve) (mkLedger emptyState [] []) events.

End recording.
