(* ===== verification/RecordProofs.v ===== *)
(** Recorded invocations are well formed and claim no more than their funding; so
    over any history of invocations and settlements, the contract for limit orders
    pays no more than it was given. *)
From Stdlib Require Import ZArith List Bool Lia.
From stdpp Require Import base list numbers option strings gmap.
From S2P Require Import Prelude FixedPoint TemplateState TemplateParams Settlement SettleProofs Amm AmmProofs LimitOrder LimitProofs Recording.
Open Scope Z_scope.

Section recording.
Context `{F : FixedOps} {L : FixedLaws F}.

(** ** Funding *)

Definition funding_ok (o : FundingOutput) : Prop :=
  0 <= fo_PlainValue o < 2 ^ 63 /\ forall name d, fo_AssetAmount o name = Some d -> fine d.

Definition request_ok (req : ApplyInvokeRequest) : Prop :=
  script_ok (rq_Param req) /\ funding_ok (rq_FundingOutput req).

(** What an invocation brings. *)
Definition funded (t : Trading) (u : holding) (req : ApplyInvokeRequest) : Z :=
  match u with
  | InAsset => amount (fo_AssetAmount (rq_FundingOutput req) (contractAssetName (as_contract t)))
  | InSats => fo_PlainValue (rq_FundingOutput req)
  end.

Lemma funded_nonneg t u req : request_ok req -> 0 <= funded t u req.
Proof.
  intros [_ [Hv Ha]]. destruct u; simpl; [|lia]. apply amount_nonneg.
  destruct (fo_AssetAmount _ _) as [d|] eqn:Hd; [|done]. simpl. by eapply Ha.
Qed.

Lemma read_fine d : fine d -> finest (parseDecimalOrZero (Decimal_String d)) /\ Value (parseDecimalOrZero (Decimal_String d)) = units d.
Proof.
  intros Hd. pose proof (fine_units d Hd) as Hu. destruct Hd as [Hp Hv]. unfold parseDecimalOrZero.
  rewrite bool_decide_false by apply string_nonempty. rewrite string_read by lia. by split.
Qed.

Lemma funding_amount_spec t req : request_ok req ->
  wp (funding_amount (contractAssetName (as_contract t)) (rq_FundingOutput req)) (fun d =>
    if_set finest d /\ amount d <= funded t InAsset req).
Proof.
  intros Hreq. pose proof (funded_nonneg t InAsset req Hreq) as Hnn. destruct Hreq as [_ [_ Hfine]].
  unfold funding_amount, funded in *. set (name := contractAssetName _) in *.
  assert (Hz : finest (parseDecimalOrZero (str "0")) /\ Value (parseDecimalOrZero (str "0")) = 0)
    by (by rewrite parse_zero). set (z := parseDecimalOrZero (str "0")) in *. destruct Hz as [Hz Hz0].
  case_if.
  - cbn [rbind wp]. rewrite sign_value, Hz0. simpl. split; [done|]. exact Hnn.
  - destruct (fo_AssetAmount _ name) as [d|] eqn:Hd; [|done]. cbn [rbind wp].
    destruct (read_fine d) as [Hr Hvr]; [by eapply Hfine|].
    destruct (align_finest _ _ Hz (finest_fine _ Hr)) as [Ha Hva]. rewrite (finest_units _ Hr), Hvr, Hz0 in Hva.
    simpl in Hva. case_if; simpl; [split; [done|exact Hnn]|]. split; [done|]. rewrite finest_units, Hva by done. lia.
Qed.

(** A text that is read as a positive amount. *)
Lemma positive_text s : parsePositiveDecimal s = true ->
  finest (parseDecimalOrZero s) /\ 0 < Value (parseDecimalOrZero s).
Proof.
  unfold parsePositiveDecimal, parseDecimalOrZero. case_if; [done|]. destruct_and?.
  match goal with H : bool_decide (s = []) = false |- _ => rewrite H end.
  destruct (NewDecimalFromString s MaxPriceDivisibility) as [d|] eqn:Hd; [|done]. simpl. intros Hc.
  pose proof (read_places _ _ _ Hd) as Hp. rewrite cmp_value, default_decimal in Hc
    by (rewrite ?default_decimal, ?Hp; done). simpl in Hc. bool_to_prop. unfold finest. rewrite Hp. split; [split; [done|]|]; lia.
Qed.

(** ** Items *)

(** What every recorded item has. *)
Record fresh (t : Trading) (req : ApplyInvokeRequest) (i : InvokeItem) : Prop := mkFresh {
  fr_Param : it_Param i = rq_Param req;
  fr_RetainedA : it_RetainedAssetA i = None;
  fr_RetainedB : it_RetainedAssetB i = None;
  fr_Done : it_Done i = ItemStatusInit;
  fr_OutAmt : it_OutAmt i = None;
  fr_InAmt : if_set finest (it_InAmt i);
  fr_amount : amount (it_InAmt i) <= funded t InAsset req;
}.

(** Well formed, and covered by the funding. *)
Definition recorded (t : Trading) (req : ApplyInvokeRequest) (i : InvokeItem) : Prop :=
  fresh t req i /\ wf_item true i /\ (forall u, claim u i <= funded t u req).

Lemma invalid_recorded t req i : request_ok req -> fresh t req i -> it_Reason i = InvokeReasonInvalid ->
  recorded t req i.
Proof.
  intros Hreq Hf Hr. split; [done|]. destruct Hf as [Hp Ha Hb _ _ _ _]. split.
  - split; [rewrite Hp; apply Hreq|]. intros _. rewrite Hr. split; [done|]. intros _. unfold wf_invalid. by rewrite Ha, Hb.
  - intros u. pose proof (funded_nonneg t u req Hreq). unfold claim. rewrite Hr, Ha, Hb, bool_decide_true by done.
    case_if; [done|]. by destruct u.
Qed.

(** An item with no reason: what it claims is in its remaining and output fields. *)
Lemma normal_recorded t req i : request_ok req -> fresh t req i -> it_Reason i = InvokeReasonNormal ->
  if_set finest (it_RemainingAmt i) -> 0 <= it_OutValue i -> 0 <= it_RemainingValue i ->
  (it_OrderType i <> OrderTypeSell -> it_OutValue i + it_RemainingValue i <= fo_PlainValue (rq_FundingOutput req)) ->
  (it_OrderType i = OrderTypeSell -> it_OutValue i = 0 /\ it_InAmt i = it_RemainingAmt i) ->
  (it_OrderType i <> OrderTypeBuy -> it_OrderType i <> OrderTypeRemoveLiquidity ->
   amount (it_RemainingAmt i) <= amount (it_InAmt i)) ->
  recorded t req i.
Proof.
  intros Hreq Hf Hr Ha Ho Hv Hsum Hsell Hamt. split; [done|].
  pose proof (funded_nonneg t InAsset req Hreq) as Hn. pose proof (funded_nonneg t InSats req Hreq) as Hns.
  destruct Hf as [Hp _ _ Hd Hout _ Hle]. destruct Hreq as [Hs [Hplain _]]. simpl in Hns. split.
  - split; [by rewrite Hp|]. intros _. rewrite Hr. split; [|done]. intros _.
    destruct (decide (it_OrderType i = OrderTypeSell)) as [Ht|Ht].
    + destruct (Hsell Ht). split; [done|by rewrite Hout|lia|done|done|done].
    + specialize (Hsum Ht). split; [done|by rewrite Hout|lia|done|lia|done].
  - intros u. unfold claim. rewrite Hr, Hout. rewrite (bool_decide_false (InvokeReasonNormal = InvokeReasonInvalid)),
      bool_decide_true by done. case_if; [destruct u; [exact Hn|exact Hns]|].
    pose proof (amount_nonneg (it_RemainingAmt i)). destruct u; simpl funded in *.
    + cbn [amount from_option]. repeat case_if; unfold OrderTypeBuy, OrderTypeSell, OrderTypeRemoveLiquidity in *; lia.
    + case_if; lia.
Qed.

(** *** Swaps *)

Lemma service_fee_nonneg v : 0 <= calcSwapServiceFee v.
Proof.
  unfold calcSwapServiceFee, SwapServiceFeeRatio. case_if; [done|].
  assert (0 <= Z.quot v 1000) by (apply Z.quot_pos; lia). pose proof (Z.rem_bound_pos v 1000 ltac:(lia) ltac:(lia)).
  assert (0 <= Z.quot (Z.rem v 1000 * 8) 1000) by (apply Z.quot_pos; lia). lia.
Qed.

(** The worth of an order with positive amount and price is not negative. *)
Lemma trading_value_nonneg amt price v : finest (parseDecimalOrZero amt) -> finest (parseDecimalOrZero price) ->
  calcLimitOrderTradingValue amt price = Some v -> 0 <= v < 2 ^ 63.
Proof.
  intros Ha Hp. unfold calcLimitOrderTradingValue. case_if; [intros [= <-]; lia|].
  rewrite ceil_mul by done. unfold int64_or_error. case_if; [|done]. intros [= <-].
  destruct Ha as [_ Ha], Hp as [_ Hp]. rewrite !sign_value in *.
  destruct (deal_value_bounds (Value (parseDecimalOrZero price)) (Value (parseDecimalOrZero amt))); [|lia].
  apply Z.mul_pos_pos; lia.
Qed.

(** The texts of an order that passed the checks. *)
Definition texts_ok (p : LimitOrderInvokeParam) : Prop :=
  finest (parseDecimalOrZero (lp_Amt p)) /\ finest (parseDecimalOrZero (lp_UnitPrice p)).

Lemma buy_funding_recorded t req p amm i : request_ok req -> texts_ok p -> fresh t req i ->
  it_InValue i = fo_PlainValue (rq_FundingOutput req) ->
  it_Reason i = InvokeReasonNormal -> it_OrderType i = OrderTypeBuy -> if_set finest (it_RemainingAmt i) ->
  it_OutValue i = 0 -> 0 <= it_ServiceFee i < 2 ^ 63 -> it_RemainingValue i = it_InValue i - it_ServiceFee i ->
  0 <= it_RemainingValue i -> recorded t req (buy_funding p amm i).
Proof.
  intros Hreq [Ha Hp] Hf Hin Hr Ht Hamt Ho Hfee Hrem Hnn.
  assert (Hinv : recorded t req (invalid_buy i) /\ recorded t req (invalid_value i)).
  { split; (apply invalid_recorded; [done| |done]); destruct Hf; by split. }
  destruct Hinv as [Hinv Hinv']. unfold buy_funding.
  destruct (calcLimitOrderTradingValue _ _) as [v|] eqn:Hv; [|done].
  pose proof (trading_value_nonneg _ _ _ Ha Hp Hv) as Hv0.
  assert (Hi : recorded t req i).
  { apply normal_recorded; try done; rewrite ?Ho, ?Hrem, ?Ht; try lia; done. }
  destruct amm.
  - destruct (FloorInt64 _) as [r|]; [|done]. destruct (AddInt64 _ _) as [e ov]. destruct ov; [done|]. by case_if.
  - destruct (AddInt64 _ _) as [e ov] eqn:Hadd. destruct ov; [done|].
    apply AddInt64_ok in Hadd as [-> He]; [|lia..]. case_if; [done|]. destruct_and?. case_if; [|done].
    destruct Hreq as [Hs [Hplain Hfo]].
    rewrite int64_id by (unfold is_int64; lia).
    apply normal_recorded; simpl; try done; [destruct Hf; by split|lia|lia|by rewrite Ht].
Qed.

Lemma sell_funding_recorded t req p amm i : request_ok req -> fresh t req i ->
  it_Reason i = InvokeReasonNormal -> it_OrderType i = OrderTypeSell -> it_RemainingAmt i = it_InAmt i ->
  it_OutValue i = 0 -> it_RemainingValue i = 0 -> recorded t req (sell_funding p amm i).
Proof.
  intros Hreq Hf Hr Ht Hamt Ho Hrem.
  assert (Hi : recorded t req i).
  { apply normal_recorded; try done; rewrite ?Ho, ?Hrem, ?Hamt; try lia; apply Hf. }
  assert (Hinv : forall j, fresh t req j -> it_Reason j = InvokeReasonInvalid -> recorded t req j)
    by (intros; by apply invalid_recorded).
  unfold sell_funding. repeat (case_match; try done); (apply Hinv; [destruct Hf; by split|done]).
Qed.

(** *** What the checks establish *)

Record checked (t : Trading) (action param : bytes) : Prop := mkChecked {
  ck_swap : action = InvokeAPISwap -> exists p, LimitOrderInvokeParam_Decode param = Ok p /\ texts_ok p
    /\ (lp_OrderType p = OrderTypeBuy \/ lp_OrderType p = OrderTypeSell);
  ck_add : action = InvokeAPIAddLiquidity -> isAMM t = true /\ exists p, AddLiquidityInvokeParam_Decode param = Ok p
    /\ al_OrderType p = OrderTypeAddLiquidity /\ finest (parseDecimalOrZero (al_Amt p)) /\ 0 < al_Value p;
  ck_remove : action = InvokeAPIRemoveLiquidity -> isAMM t = true /\ exists p, RemoveLiquidityInvokeParam_Decode param = Ok p
    /\ rl_OrderType p = OrderTypeRemoveLiquidity /\ finest (parseDecimalOrZero (rl_LptAmt p));
}.

Lemma wp_codec {A} (r : result SettleError A) Q : wp r Q -> wp (codec r) Q.
Proof. by destruct r. Qed.

Lemma wp_ensure e b : wp (ensure e b) (fun _ => b = true).
Proof. unfold ensure. by destruct b. Qed.

(** Go on with what a decoder returned. *)
Lemma wp_decoded {A B} (r : result SettleError A) (k : A -> result RecordError B) Q :
  wp r (fun _ => True) -> (forall a, r = Ok a -> wp (k a) Q) -> wp (let! a := codec r in k a) Q.
Proof. destruct r; simpl; auto. Qed.

Lemma zero_text : finest (parseDecimalOrZero (str "0")).
Proof. by rewrite parse_zero. Qed.

Lemma empty_text : finest (parseDecimalOrZero []).
Proof. by rewrite parse_empty. Qed.

Lemma LimitOrder_Check_spec p : wp (LimitOrderInvokeParam_Check p) (fun _ =>
  texts_ok p /\ (lp_OrderType p = OrderTypeBuy \/ lp_OrderType p = OrderTypeSell)).
Proof.
  unfold LimitOrderInvokeParam_Check. case_if; [done|].
  eapply wp_bind; [apply wp_ensure|]. intros _ _. eapply wp_bind; [apply wp_ensure|]. intros [] Ha.
  eapply wp_mono; [apply wp_ensure|]. intros [] Hp. split; [|lia]. split; [by apply positive_text|].
  apply orb_true_iff in Hp as [Hp|Hp]; [|by apply positive_text].
  apply bool_decide_eq_true_1 in Hp as ->. apply empty_text.
Qed.

Lemma CheckAMMSwap_spec p : wp (CheckAMMSwap p) (fun _ =>
  texts_ok p /\ (lp_OrderType p = OrderTypeBuy \/ lp_OrderType p = OrderTypeSell)).
Proof.
  unfold CheckAMMSwap. case_if; [done|].
  eapply wp_bind; [apply wp_ensure|]. intros _ _. eapply wp_bind; [apply wp_ensure|]. intros [] Ha.
  eapply wp_mono; [apply wp_ensure|]. intros [] Hp. split; [|lia]. split; [|by apply positive_text].
  apply orb_true_iff in Ha as [[Ha|Ha]%orb_true_iff|Ha]; [..|by apply positive_text];
    apply bool_decide_eq_true_1 in Ha as ->; [apply empty_text|apply zero_text].
Qed.

Lemma AddLiquidity_Check_spec p : wp (AddLiquidityInvokeParam_Check p) (fun _ =>
  al_OrderType p = OrderTypeAddLiquidity /\ finest (parseDecimalOrZero (al_Amt p)) /\ 0 < al_Value p).
Proof.
  unfold AddLiquidityInvokeParam_Check. case_if; [done|].
  eapply wp_bind; [apply wp_ensure|]. intros _ _. eapply wp_bind; [apply wp_ensure|]. intros [] Ha.
  eapply wp_mono; [apply wp_ensure|]. intros [] Hv. bool_to_prop. split_and!; [done|by apply positive_text|lia].
Qed.

Lemma RemoveLiquidity_Check_spec p : wp (RemoveLiquidityInvokeParam_Check p) (fun _ =>
  rl_OrderType p = OrderTypeRemoveLiquidity /\ finest (parseDecimalOrZero (rl_LptAmt p))).
Proof.
  unfold RemoveLiquidityInvokeParam_Check. case_if; [done|].
  eapply wp_bind; [apply wp_ensure|]. intros _ _. eapply wp_mono; [apply wp_ensure|]. intros [] Ha.
  split; [done|by apply positive_text].
Qed.

Lemma CheckInvoke_spec t action param : script_ok param -> wp (CheckInvoke t action param) (fun _ => checked t action param).
Proof.
  intros Hs. destruct t as [c|c]; cbn [CheckInvoke]; unfold LimitOrder_CheckInvoke, AMM_CheckInvoke;
    repeat match goal with
    | |- context [bool_decide (action = ?a)] => destruct (bool_decide_reflect (action = a)) as [-> | ?]
    end; try done.
  - apply wp_decoded; [by apply LimitOrderInvokeParam_Decode_wp|]. intros p Hp.
    eapply wp_bind; [apply wp_ensure|]. intros _ _. eapply wp_mono; [apply LimitOrder_Check_spec|].
    intros [] [? ?]. split; [eauto|done|done].
  - apply wp_decoded; [by apply RefundInvokeParam_Decode_wp|]. intros ids _. by split.
  - eapply wp_mono; [apply wp_ensure|]. intros _ _. by split.
  - apply wp_decoded; [by apply LimitOrderInvokeParam_Decode_wp|]. intros p Hp.
    eapply wp_bind; [apply wp_ensure|]. intros _ _. eapply wp_mono; [apply CheckAMMSwap_spec|].
    intros [] [? ?]. split; [eauto|done|done].
  - apply wp_decoded; [by apply AddLiquidityInvokeParam_Decode_wp|]. intros p Hp.
    eapply wp_bind; [apply wp_ensure|]. intros _ _. eapply wp_mono; [apply AddLiquidity_Check_spec|].
    intros [] (? & ? & ?). split; [done|eauto 10|done].
  - apply wp_decoded; [by apply RemoveLiquidityInvokeParam_Decode_wp|]. intros p Hp.
    eapply wp_bind; [apply wp_ensure|]. intros _ _. eapply wp_mono; [apply RemoveLiquidity_Check_spec|].
    intros [] [? ?]. split; [done|done|eauto 10].
  - eapply wp_mono; [apply wp_ensure|]. intros _ _. by split.
Qed.

(** *** The item of a request *)

Lemma new_item_fresh t id inAmt req : if_set finest inAmt -> amount inAmt <= funded t InAsset req ->
  fresh t req (new_item (contractAssetName (as_contract t)) id inAmt req).
Proof. by split. Qed.

Lemma service_fee_bound v : 0 <= v < 2 ^ 63 -> 0 <= calcSwapServiceFee v < 2 ^ 63.
Proof.
  intros Hv. split; [apply service_fee_nonneg|]. unfold calcSwapServiceFee, SwapServiceFeeRatio. case_if; [lia|].
  rewrite Z.quot_div_nonneg, Z.rem_mod_nonneg by lia. pose proof (Z.mod_pos_bound v 1000).
  rewrite Z.quot_div_nonneg by lia. pose proof (Z.div_mod v 1000). pose proof (Z.mul_div_le (v mod 1000 * 8) 1000). lia.
Qed.

(** A purchase before its funding is looked at: the order is invalid, or ready. *)
Lemma buy_item_recorded t req amm p i : request_ok req -> texts_ok p -> fresh t req i ->
  it_InValue i = fo_PlainValue (rq_FundingOutput req) ->
  it_Reason i = InvokeReasonNormal -> it_OrderType i = OrderTypeBuy -> it_RemainingAmt i = None -> it_OutValue i = 0 ->
  it_ServiceFee i = 0 ->
  wp (buy_item amm p (fo_PlainValue (rq_FundingOutput req)) i) (fun j =>
    recorded t req (applySwapFundingValidation p amm j) /\ it_OrderType j = OrderTypeBuy).
Proof.
  intros Hreq Htx Hf Hin Hr Ht Hamt Ho Hfee. unfold buy_item.
  assert (Hset : let j := set_amount (lp_Amt p) i in fresh t req j /\ it_InValue j = fo_PlainValue (rq_FundingOutput req)
    /\ if_set finest (it_RemainingAmt j)
    /\ it_Reason j = InvokeReasonNormal /\ it_OrderType j = OrderTypeBuy /\ it_OutValue j = 0 /\ it_ServiceFee j = 0).
  { unfold set_amount. case_if; [by rewrite Hamt|]. simpl. split_and!; try done; [|apply Htx..]. destruct Hf; by split. }
  cbv zeta in *. set (j := set_amount (lp_Amt p) i) in *. clearbody j. clear Hf Hin Hr Ht Hamt Ho Hfee.
  destruct Hset as (Hf & Hin & Hamt & Hr & Ht & Ho & Hfee).
  eapply (wp_bind _ _ (fun k => fresh t req k /\ it_InValue k = fo_PlainValue (rq_FundingOutput req)
    /\ if_set finest (it_RemainingAmt k) /\ it_Reason k = InvokeReasonNormal
    /\ it_OrderType k = OrderTypeBuy /\ it_OutValue k = 0 /\ 0 <= it_ServiceFee k < 2 ^ 63)).
  { destruct amm; [cbn [wp]; rewrite Hfee; done|].
    destruct (calcLimitOrderTradingValue _ _) as [v|] eqn:Hv; [|done]. cbn [wp].
    destruct Htx as [Ha Hp]. pose proof (service_fee_bound v (trading_value_nonneg _ _ _ Ha Hp Hv)).
    simpl. split_and!; try done; try lia. destruct Hf; by split. }
  clear - L Hreq Htx. intros k (Hf & Hin & Hamt & Hr & Ht & Ho & Hfee). cbn [wp].
  pose proof Hreq as [_ [Hplain _]].
  rewrite int64_id by (unfold is_int64; lia). case_if; (split; [|done]); unfold applySwapFundingValidation.
  - rewrite bool_decide_false by done. apply invalid_recorded; [done| |done]. destruct Hf; by split.
  - simpl it_Reason. rewrite Hr, bool_decide_true by done. simpl it_OrderType. rewrite Ht. cbn [negb Z.eqb OrderTypeBuy Pos.eqb].
    apply buy_funding_recorded; simpl; try done; try lia. destruct Hf; by split.
Qed.

Lemma swap_request_recorded t req p i : request_ok req -> texts_ok p ->
  lp_OrderType p = OrderTypeBuy \/ lp_OrderType p = OrderTypeSell -> fresh t req i ->
  it_InValue i = fo_PlainValue (rq_FundingOutput req) -> it_Reason i = InvokeReasonNormal -> it_RemainingAmt i = None -> it_OutValue i = 0 -> it_ServiceFee i = 0 ->
  wp (swap_request (isAMM t) (contractAssetName (as_contract t)) p (fo_PlainValue (rq_FundingOutput req)) i)
    (fun j => recorded t req j /\ it_OrderType j <> OrderTypeRemoveLiquidity).
Proof.
  intros Hreq Htx Ht Hf Hin Hr Hamt Ho Hfee. unfold swap_request.
  assert (Hk : forall amm q j, it_OrderType (applySwapFundingValidation q amm j) = it_OrderType j).
  { intros amm q j. unfold applySwapFundingValidation, buy_funding, sell_funding. by repeat case_match. }
  set (j0 := if isAMM t then set_ServiceFee SwapInvokeFee i else i).
  assert (Hj : fresh t req j0 /\ it_InValue j0 = fo_PlainValue (rq_FundingOutput req) /\ it_Reason j0 = InvokeReasonNormal /\ it_RemainingAmt j0 = None /\ it_OutValue j0 = 0
    /\ it_ServiceFee j0 = 0) by (subst j0; destruct (isAMM t); split_and!; try done; destruct Hf; by split).
  clearbody j0. clear Hf Hin Hr Hamt Ho Hfee. destruct Hj as (Hf & Hin & Hr & Hamt & Ho & Hfee).
  set (j := set_RemainingValue _ (set_AssetName _ (set_OrderType _ j0))).
  assert (Hfj : fresh t req j) by (destruct Hf; by split).
  destruct Ht as [Ht|Ht]; rewrite Ht; cbn [Z.eqb OrderTypeBuy OrderTypeSell Pos.eqb].
  - eapply wp_bind; [by apply (buy_item_recorded t req (isAMM t) p j)|].
    intros k [Hrec Hty]. cbn [wp]. rewrite Hk, Hty. done.
  - cbn [rbind wp]. rewrite Hk. simpl it_OrderType. rewrite Ht. split; [|done].
    unfold applySwapFundingValidation. simpl it_Reason. rewrite Hr, bool_decide_true by done. simpl it_OrderType. rewrite Ht.
    cbn [negb Z.eqb OrderTypeBuy OrderTypeSell Pos.eqb].
    apply sell_funding_recorded; try done. destruct Hfj; by split.
Qed.

Lemma add_liquidity_recorded t req p i : request_ok req -> finest (parseDecimalOrZero (al_Amt p)) -> 0 < al_Value p ->
  fresh t req i -> it_InValue i = fo_PlainValue (rq_FundingOutput req) -> it_Reason i = InvokeReasonNormal -> it_OrderType i = OrderTypeAddLiquidity -> it_RemainingAmt i = None ->
  it_OutValue i = 0 ->
  recorded t req (applyAddLiquidityFundingValidation p (set_RemainingValue (al_Value p) (set_amount (al_Amt p) i))).
Proof.
  intros Hreq Ha Hv Hf Hval Hr Ht Hamt Ho.
  set (j := set_amount (al_Amt p) i).
  assert (Hj : fresh t req j /\ it_InValue j = fo_PlainValue (rq_FundingOutput req) /\ it_Reason j = InvokeReasonNormal
    /\ it_OrderType j = OrderTypeAddLiquidity
    /\ it_OutValue j = 0 /\ (it_RemainingAmt j = None \/ it_RemainingAmt j = Some (parseDecimalOrZero (al_Amt p)))).
  { subst j. unfold set_amount. case_if; [by split_and!; auto|]. simpl. split_and!; auto. destruct Hf; by split. }
  clearbody j. clear Hf Hval Hr Ht Hamt Ho. destruct Hj as (Hf & Hval & Hr & Ht & Ho & Hamt).
  unfold applyAddLiquidityFundingValidation. simpl it_Reason. rewrite Hr, bool_decide_true by done. cbn [negb].
  simpl it_InAmt. simpl it_InValue. case_if.
  - apply invalid_recorded; [done| |done]. destruct Hf; by split.
  - destruct_and?. pose proof (fr_InAmt _ _ _ Hf) as Hin. destruct (it_InAmt j) as [d|] eqn:Hd; [|done].
    simpl in Hin. rewrite cmp_same in H by (destruct Hin as [Hd1 _], Ha as [Hd2 _]; rewrite ?Hd1, ?Hd2; done).
    apply normal_recorded; simpl; try done; try lia; [destruct Hf; by split|destruct Hamt as [-> | ->]; done|by rewrite Ht|].
    intros _ _. rewrite Hd. destruct Hamt as [-> | ->]; simpl; rewrite ?(finest_units d), ?finest_units by done; destruct Hin; lia.
Qed.

Lemma NewInvokeItemFromRequest_spec t id req : request_ok req -> checked t (rq_Action req) (rq_Param req) ->
  wp (NewInvokeItemFromRequest t id req) (fun i =>
    recorded t req i /\ (isAMM t = false -> it_OrderType i <> OrderTypeRemoveLiquidity)).
Proof.
  intros Hreq [Hsw Hadd Hrem]. unfold NewInvokeItemFromRequest. pose proof Hreq as [Hs [Hplain _]].
  eapply wp_bind; [by apply funding_amount_spec|]. intros inAmt [Hfin Hle]. cbv beta zeta.
  pose proof (new_item_fresh t id inAmt req Hfin Hle) as Hf. set (i := new_item _ id inAmt req) in *.
  assert (Hi : it_Reason i = InvokeReasonNormal /\ it_RemainingAmt i = None /\ it_OutValue i = 0
    /\ it_RemainingValue i = 0 /\ it_ServiceFee i = 0 /\ it_InValue i = fo_PlainValue (rq_FundingOutput req)) by done.
  clearbody i. destruct Hi as (Hr & Hamt & Ho & Hrv & Hfee & Hin).
  repeat match goal with
  | |- context [bool_decide (rq_Action req = ?a)] => destruct (bool_decide_reflect (rq_Action req = a)) as [Ha | ?]
  end; [| | | | |done].
  - destruct (Hsw Ha) as (p & -> & Htx & Ht). cbn [codec rbind].
    eapply wp_mono; [by apply swap_request_recorded|]. by intros j [? ?].
  - apply wp_decoded; [by apply RefundInvokeParam_Decode_wp|]. intros ids _. split; [|done].
    apply normal_recorded; simpl; rewrite ?Hamt, ?Ho; try done; try lia. destruct Hf; split; simpl; try done.
    exact (funded_nonneg t InAsset req Hreq).
  - destruct (Hadd Ha) as (Hamm & p & -> & Ht & Hp & Hv). cbn [codec rbind wp]. rewrite Hamm. split; [|done].
    apply add_liquidity_recorded; try done. destruct Hf; by split.
  - destruct (Hrem Ha) as (Hamm & p & -> & Ht & Hp). cbn [codec rbind wp]. rewrite Hamm. split; [|done].
    unfold set_amount. case_if; apply normal_recorded; simpl; rewrite ?Hamt, ?Ho, ?Hrv, ?Ht; try done; try lia;
      destruct Hf; by split.
  - split; [|done]. apply normal_recorded; simpl; rewrite ?Hamt, ?Ho; try done; try lia; [destruct Hf; by split|].
    intros _ _. destruct Hf as [? ? ? ? ? ? ?]. by apply amount_nonneg, if_set_finest_fine.
Qed.

Lemma renamed_recorded t req i n : recorded t req i -> recorded t req (set_AssetName n i).
Proof.
  intros (Hf & [Hs Hw] & Hc). split; [destruct Hf; by split|]. split; [|exact Hc].
  split; [done|]. intros Hfin. destruct (Hw Hfin) as [Hn Hv]. split; [|exact Hv].
  intros Hr. destruct (Hn Hr). by split.
Qed.

Lemma codec_step {A B} (r : result SettleError A) (k : A -> result SettleError B) Q :
  wp r (fun _ => True) -> (forall a, wp (k a) Q) -> wp (let! a := r in k a) Q.
Proof. intros Hr Hk. eapply wp_bind; [exact Hr|]. intros a _. apply Hk. Qed.

(** A decoder followed by anything that does not panic. *)
Ltac decoders :=
  repeat first
    [ done
    | apply codec_step;
      [ solve [ done | by apply LimitOrderInvokeParam_Decode_wp | by apply AddLiquidityInvokeParam_Decode_wp
              | by apply RemoveLiquidityInvokeParam_Decode_wp | by apply RefundInvokeParam_Decode_wp
              | by apply decodeLimitOrderItemParam_wp | apply validateInvokeItemOrderType_wp
              | apply resolveInvokeItemAssetName_wp ]
      | intros ? ]
    | apply validateInvokeItemOrderType_wp
    | case_if ].

Lemma decodeRemoveLiquidityItemParam_wp i : script_ok (it_Param i) -> wp (decodeRemoveLiquidityItemParam i) (fun _ => True).
Proof. intros Hs. unfold decodeRemoveLiquidityItemParam. decoders. Qed.

Lemma consistency_wp i : script_ok (it_Param i) -> wp (validateInvokeItemParamConsistency i) (fun _ => True).
Proof.
  intros Hs. unfold validateInvokeItemParamConsistency, decodeRefundItemParam.
  decoders; (apply codec_step; [by apply decodeRemoveLiquidityItemParam_wp || decoders|done]).
Qed.

Lemma normalize_wp t req i : recorded t req i -> wp (normalizeInvokeItemParam t i) (fun j =>
  recorded t req j /\ it_OrderType j = it_OrderType i).
Proof.
  intros Hi. pose proof Hi as (_ & [Hs _] & _). unfold normalizeInvokeItemParam. case_if; [done|].
  eapply (wp_bind _ _ (fun j => recorded t req j /\ it_OrderType j = it_OrderType i)).
  - repeat case_if; [..|done].
    + apply codec_step; [by apply decodeLimitOrderItemParam_wp|intros p].
      apply codec_step; [apply resolveInvokeItemAssetName_wp|intros n]. split; [by apply renamed_recorded|done].
    + apply codec_step; [by apply AddLiquidityInvokeParam_Decode_wp|intros p].
      apply codec_step; [apply resolveInvokeItemAssetName_wp|intros n]. split; [by apply renamed_recorded|done].
    + apply codec_step; [by apply decodeRemoveLiquidityItemParam_wp|intros p].
      apply codec_step; [apply resolveInvokeItemAssetName_wp|intros n]. split; [by apply renamed_recorded|done].
  - intros j Hj. apply codec_step; [apply consistency_wp, Hj|done].
Qed.

(** ** Recording *)

(** The invariant of a contract's state, and what the contract owes. *)
Definition well_kept (t : Trading) (s : TemplateRuntimeState) : Prop :=
  match t with
  | TradesOrders _ => Forall (wf_item false) (rs_Items s) /\ Forall backed (rs_Items s)
  | TradesPool _ => wf_state s
  end.

Definition liability (t : Trading) (u : holding) (s : TemplateRuntimeState) : Z :=
  match t with
  | TradesOrders _ => claims u (rs_Items s)
  | TradesPool _ => owed u s
  end.

Lemma wf_in_parts i : wf_item true i -> wf_item false i.
Proof.
  intros [Hs Hw]. split; [done|]. intros Hf. destruct (Hw Hf) as [Hn Hv]. split; [|done].
  intros Hr. destruct (Hn Hr). by split.
Qed.

Lemma claims_append u l i : claims u (l ++ [i]) = claims u l + claim u i.
Proof. unfold claims. rewrite sum_of_app. simpl. lia. Qed.

Lemma recorded_order c s req i : well_kept (TradesOrders c) s -> recorded (TradesOrders c) req i ->
  it_OrderType i <> OrderTypeRemoveLiquidity ->
  let s' := applyFinishedItemStats (ALimitOrder c) (ApplyForContract (TradesOrders c) (append_item s i) i) in
  well_kept (TradesOrders c) s'
  /\ forall u, liability (TradesOrders c) u s' <= liability (TradesOrders c) u s + funded (TradesOrders c) u req.
Proof.
  intros [Hw Hb] (_ & Hi & Hc) Ht s'. set (s1 := ApplyForContract _ _ _) in *.
  assert (Hitems : rs_Items s1 = rs_Items s ++ [i]) by done.
  destruct (order_stats c s1) as (Hw' & Hc' & Hb').
  { rewrite Hitems. apply Forall_app. split; [done|]. constructor; [by apply wf_in_parts|done]. }
  split; [split; [done|]|].
  - apply Hb'. rewrite Hitems. apply Forall_app. split; [done|]. constructor; [by right; left|done].
  - intros u. specialize (Hc u). cbn [liability]. unfold s'. rewrite Hc', Hitems, claims_append. lia.
Qed.

Lemma running_stats_pool r i : it_RetainedAssetA i = None -> it_RetainedAssetB i = None ->
  same_pool r (applyAMMRunningStats r i).
Proof. intros Ha Hb. unfold applyAMMRunningStats. case_if; [done|]. by rewrite Ha, Hb. Qed.

Lemma recorded_pool c s req i : well_kept (TradesPool c) s -> recorded (TradesPool c) req i ->
  let s' := applyFinishedItemStats (AnAMM c) (ApplyForContract (TradesPool c) (append_item s i) i) in
  well_kept (TradesPool c) s'
  /\ forall u, liability (TradesPool c) u s' <= liability (TradesPool c) u s + funded (TradesPool c) u req.
Proof.
  intros [Hw Hr] (Hf & Hi & Hc) s'. set (s1 := ApplyForContract _ _ _) in *.
  pose proof (same_pool_trans _ _ _ (running_stats_pool (AMMData s) i (fr_RetainedA _ _ _ Hf) (fr_RetainedB _ _ _ Hf))
    (sync_same_pool _)) as Hsp. change (same_pool (AMMData s) (AMMData s1)) in Hsp.
  assert (Hs1 : wf_state s1).
  { split; [|by eapply same_pool_wf]. change (rs_Items s1) with (rs_Items s ++ [i]). apply Forall_app. by split; [|constructor]. }
  destruct (applyFinishedItemStats_covered c s1 (emptyPlan [] 0) Hs1) as [Hw' Ho]. split; [done|].
  intros u. specialize (Ho u). specialize (Hc u). cbn [liability]. fold s' in Ho. unfold owed in Ho at 2.
  change (rs_Items s1) with (rs_Items s ++ [i]) in Ho. rewrite claims_append, (same_pool_pool u _ _ Hsp) in Ho.
  unfold owed at 2. lia.
Qed.

Lemma ApplyInvoke_spec rt state req : well_kept (rt_contract rt) state -> request_ok req ->
  wp (ApplyInvoke rt state req) (fun '(state', _) =>
    well_kept (rt_contract rt) state'
    /\ forall u, liability (rt_contract rt) u state'
                 <= liability (rt_contract rt) u state + funded (rt_contract rt) u req).
Proof.
  intros Hwk Hreq. unfold ApplyInvoke. cbv zeta. set (t := rt_contract rt) in *.
  eapply (wp_bind _ _ (fun _ => True)).
  { unfold checkInvocationLifecycle, ValidateContractClose. by repeat case_if. }
  intros [] _. eapply wp_bind; [apply CheckInvoke_spec, Hreq|]. intros [] Hck.
  eapply wp_bind; [by apply NewInvokeItemFromRequest_spec|]. intros i [Hi Ht]. cbv beta.
  eapply wp_bind; [by apply wp_codec, normalize_wp|]. intros j [Hj Htj]. cbn [wp].
  destruct t as [c|c]; [|by apply recorded_pool]. apply recorded_order; [done|done|]. rewrite Htj. by apply Ht.
Qed.

(** C15: Recording an invocation.  Whatever a caller sends, and whatever the funding
    output brings: recording it never panics, the state stays well formed, and what
    the contract owes grows by at most what the invocation brought, in satoshis and
    in the asset - for limit orders and for the market maker. *)
Theorem ApplyInvoke_covered rt state req :
  well_kept (rt_contract rt) state -> request_ok req ->
  wp (ApplyInvoke rt state req) (fun '(state', _) =>
    well_kept (rt_contract rt) state'
    /\ forall u, liability (rt_contract rt) u state'
                 <= liability (rt_contract rt) u state + funded (rt_contract rt) u req).
Proof. apply ApplyInvoke_spec. Qed.

(** ** Histories *)

Definition event_ok (e : event) : Prop :=
  match e with
  | Invoke req => request_ok req
  | SettleBlock _ => True
  end.

(** What is owed and what was paid is covered by what was brought. *)
Record balanced (c : LimitOrderContract) (l : ledger) : Prop := mkBalanced {
  ba_kept : well_kept (TradesOrders c) (lg_state l);
  ba_sum u : claims u (rs_Items (lg_state l)) + sum_of (paid_out u) (lg_plans l)
    <= sum_of (funded (TradesOrders c) u) (lg_requests l);
}.

Lemma run_event_balanced c deployer flags address resolve l e : balanced c l -> event_ok e ->
  wp (run_event c deployer flags address resolve l e) (balanced c).
Proof.
  intros Hb He. pose proof Hb as [[Hw Hk] Hs]. destruct e as [req|height]; cbn [run_event].
  - pose proof (ApplyInvoke_spec (mkRuntime (TradesOrders c) deployer flags) (lg_state l) req (ba_kept _ _ Hb) He) as H.
    destruct (ApplyInvoke _ _ _) as [[s i]| |]; [|done|done]. destruct H as [Hk' Hl]. split; [done|].
    intros u. specialize (Hl u). specialize (Hs u). simpl in Hl |- *. rewrite sum_of_app. simpl. lia.
  - pose proof (settleLimitOrders_spec c address deployer resolve height (lg_state l) Hw Hk) as H.
    destruct (settleLimitOrders _ _ _ _ _ _) as [[saved plan]| |]; [|done|done]. destruct H as [H _].
    unfold settled in H. destruct saved as [s|]; simpl in *.
    + destruct H as [Hk' Hl]. split; [done|]. intros u. specialize (Hl u). specialize (Hs u).
      cbn [lg_state lg_plans lg_requests]. rewrite sum_of_app. simpl. lia.
    + split; [done|]. intros u. specialize (Hs u). cbn [lg_state lg_plans lg_requests]. rewrite sum_of_app. simpl.
      unfold paid_out at 2. rewrite H. simpl. lia.
Qed.

(** C12: A book of limit orders never pays out more than it was given.  Over any
    sequence of invocations - admitted or not, valid or not - and settlements, in any
    order, starting with an empty state: nothing panics, and the claims of the orders
    that are open plus all payments of all plans are at most what the recorded
    invocations brought, in satoshis and in the asset. *)
Theorem limit_orders_never_overpay c deployer flags address resolve events :
  Forall event_ok events ->
  wp (run_history c deployer flags address resolve events) (fun l => forall u,
    0 <= claims u (rs_Items (lg_state l))
    /\ claims u (rs_Items (lg_state l)) + sum_of (paid_out u) (lg_plans l)
       <= sum_of (funded (TradesOrders c) u) (lg_requests l)).
Proof.
  intros He. apply (wp_rfold _ (fun rest l => Forall event_ok rest /\ balanced c l)).
  - split; [done|]. split; [by split|]. by intros u.
  - intros e rest l [Hr Hb]. apply Forall_cons in Hr as [He' Hr].
    eapply wp_mono; [by apply run_event_balanced|]. done.
  - intros l [_ [[Hw _] Hs]] u. split; [|done]. clear Hs. induction Hw as [|i l' Hi Hl IH]; [done|].
    pose proof (claim_nonneg _ u i Hi). unfold claims in *. simpl. lia.
Qed.

End recording.

(** ** Examples *)

Module Trades.

(** [sats] plain satoshis and [n] whole units of the sample asset. *)
Definition funding (sats n : Z) : FundingOutput :=
  mkFunding [] sats (fun name => Some (mkDecimal 0 (if bool_decide (name = Sample.asset_name) then n else 0))).

Definition request (action param invoker : bytes) (sats n : Z) : ApplyInvokeRequest :=
  mkRequest action param [] invoker (funding sats n) 7 7 None.

Definition order (orderType : Z) (invoker : bytes) (amt price : string) (sats n : Z) : ApplyInvokeRequest :=
  request InvokeAPISwap (Book.param orderType (str amt) (str price)) invoker sats n.

Lemma request_fine action param invoker sats n : script_ok param -> 0 <= sats < 2 ^ 63 -> 0 <= n ->
  request_ok (request action param invoker sats n).
Proof.
  intros Hp Hs Hn. split; [done|]. split; [done|]. intros name d. simpl. intros [= <-]. split; simpl; [done|]. by case_if.
Qed.

(** Two orders to sell and one to buy with thirty satoshis too many, a settlement, a
    request for refunds, another settlement, and an action that is refused. *)
Definition events : list event := [
  Invoke (order OrderTypeSell (str "carol") "3" "15" 0 3);
  Invoke (order OrderTypeSell (str "dave") "10" "20" 0 10);
  Invoke (order OrderTypeBuy (str "bob") "5" "20" 130 0);
  SettleBlock 7;
  Invoke (request InvokeAPIRefund [] (str "dave") 0 0);
  Invoke (request (str "profit") [] (str "erin") 50 0);
  SettleBlock 8].

Abbreviation run := (run_history Book.contract (str "deployer") 0 (str "book") None events).

(** The sums of a history: recorded requests, and for each holding what is paid. *)
Definition sums (r : result RecordError ledger) : option (Z * list Z) :=
  match r with
  | Ok l => Some (len (lg_requests l), map (fun u => sum_of (paid_out u) (lg_plans l)) [InAsset; InSats])
  | _ => None
  end.

Lemma events_ok : Forall event_ok events.
Proof.
  repeat (apply Forall_cons; split; [first [exact I|refine (request_fine _ _ _ _ _ _ _ _);
    [split; vm_compute; repeat constructor; done|lia|lia]]|]). apply Forall_nil_2.
Qed.

(** A purchase for a thousand satoshis that is funded with two thousand. *)
Definition generous : ApplyInvokeRequest := order OrderTypeBuy (str "bob") "5" "1000" 2000 0.

Definition pool_runtime : ContractRuntime := mkRuntime (TradesPool Sample.contract) (str "deployer") 0.

End Trades.

Lemma ApplyInvoke_covered_witness :
  is_ok (ApplyInvoke Trades.pool_runtime Sample.block Trades.generous) = true
  /\ wp (ApplyInvoke Trades.pool_runtime Sample.block Trades.generous) (fun '(state', _) =>
       wf_state state' /\ forall u, owed u state' <= owed u Sample.block + funded (TradesPool Sample.contract) u Trades.generous).
Proof.
  split; [vm_compute; reflexivity|].
  apply (ApplyInvoke_covered Trades.pool_runtime Sample.block Trades.generous); [apply Sample.block_wf|].
  refine (Trades.request_fine _ _ _ _ _ _ _ _); [split; vm_compute; repeat constructor; done|lia|lia].
Defined.

(** All orders are recorded; thirteen units and 130 satoshis were brought, and all of
    them are paid: five units and forty-five satoshis of change to the buyer, 45 and 40
    satoshis to the sellers, and eight units back to one of them. *)
Lemma limit_orders_never_overpay_witness :
  Trades.sums Trades.run = Some (4, [13 * 10 ^ 10; 130])
  /\ wp Trades.run (fun l => forall u,
       0 <= claims u (rs_Items (lg_state l))
       /\ claims u (rs_Items (lg_state l)) + sum_of (paid_out u) (lg_plans l)
          <= sum_of (funded (TradesOrders Book.contract) u) (lg_requests l)).
Proof.
  split; [vm_compute; reflexivity|].
  apply (limit_orders_never_overpay Book.contract (str "deployer") 0 (str "book") None Trades.events).
  apply Trades.events_ok.
Defined.

(** The market maker admits a purchase with too much funding, and records it as
    invalid with nothing retained: it owes the buyer nothing, and the settlement
    returns nothing. *)
Example generous_buyer_loses :
  checkInvokeFunding (rt_contract Trades.pool_runtime) InvokeAPISwap (rq_Param Trades.generous)
    (rq_FundingOutput Trades.generous) = Ok tt
  /\ match ApplyInvoke Trades.pool_runtime (Sample.state_of []) Trades.generous with
     | Ok (s, i) => it_Reason i = InvokeReasonInvalid /\ Finished i = false
         /\ owed InSats s = owed InSats (Sample.state_of []) /\ Sample.sums (Sample.settle s) = Some [0; 0; 1000 * 10 ^ 10; 100000]
     | _ => False
     end.
Proof. vm_compute. done. Qed.
